(* ===== verification/_CoqProject ===== *)
-Q . S2P
Prelude.v
PathMatch.v
PolicyTypes.v
EndpointMatch.v
JsBytes.v
JsJson.v
Graphql.v
GraphqlSpec.v
GraphqlBody.v
Catalog.v
Evaluator.v
PolicyRows.v
Overlap.v
OverlapSound.v
Grants.v
GrantsSpec.v
ResourceAxis.v
LoadRules.v
Injection.v
EffectiveTools.v
EffectiveToolsSpec.v
Redaction.v
PolicyAuthoring.v
PolicyBlocklist.v
PolicyPublish.v
PolicyWrites.v
PolicyLockstep.v
PolicyRuns.v
PolicyOrder.v
PolicyDeletion.v
PolicyForget.v
PolicySample.v
GrantService.v
SshWire.v
SshKeys.v
SshCert.v
SshGrant.v
PortWire.v
PortStreams.v
PortStreamsSpec.v
PortStreamsRuns.v
PortHub.v
PortHubSpec.v
PortFlow.v
TurnEvents.v
TurnEventsSpec.v
TurnEventsRuns.v
PostEvents.v
ReportChain.v
ReportChainSpec.v
ReportChainRuns.v
Reconcile.v
SshDemux.v
TurnText.v
Programs.v
TurnDb.v
TurnService.v
TurnDoors.v
TurnRuns.v
TurnSample.v
TurnRows.v
TurnPrograms.v
TurnLifecycle.v
TurnTranscript.v
TurnSettle.v
TurnFence.v
TurnSends.v
TurnPromote.v
TurnStop.v
AnswerTracker.v
TurnStream.v
MemoryFile.v
MemoryFileSpec.v
MemoryService.v
MemoryHistory.v
MemoryRuns.v
MemorySync.v
MemorySyncSafe.v
MemoryFlow.v
MemorySample.v
