(* ===== verification/Prelude.v ===== *)
(** * OneCLI: policy, turns, memories and the wires between its processes

    A verification of the core of OneCLI, a platform that runs agents in
    sandboxes, lets them reach services with credentials they never see, and
    decides every request they make by rules people write. The sources are
    TypeScript under [src/]; this development translates them function by
    function and keeps their names.

    ** The program, and how its parts interact

    The control plane ([packages/api]) keeps organizations, workspaces, agents,
    policies, conversations and memories in a database, behind routes and
    services. A gateway decides each request of an agent by the published
    policy rules of its workspace and organization and injects credentials. A
    runner ([apps/runner]) polls the control plane for due work, starts
    sandboxes, and carries their reports back; in each sandbox a supervisor
    ([apps/sandbox-supervisor]) runs turns of a conversation and multiplexes
    connections to guest ports. The control plane mints SSH certificates and
    session grants ([packages/ssh-cert]) that the SSH terminator
    ([apps/ssh-terminator]) verifies. The memories of an agent are rows of the
    database and files of its home, in the format of
    [packages/agent-protocol].

    ** Files, and the sources they model

    Paths without a root are under [packages/api/src/].

    Shared:
    - [Prelude] (this file): JavaScript strings as lists of UTF-16 code units
      ([jsstr]), the string and array operations the sources use, a stable
      sort, [while] loops as iterated steps, and the lemmas, tactics and hint
      databases ([jsdb], [jsrw]) every component uses.
    - [JsBytes]: [Buffer], UTF-8 and base64, and trimmed text. [JsJson]:
      [JSON.parse] and [JSON.stringify].
    - [Programs]: service functions as trees of atomic statements, and pools of
      them whose statements interleave, with rules for reasoning about one
      program while others run.

    Policy:
    - [PathMatch]: [lib/path-match.ts], host and path patterns.
    - [PolicyTypes]: [services/policy-translation/types.ts], [strictness.ts].
    - [EndpointMatch]: [services/policy-translation/endpoint-match.ts].
    - [Graphql], [GraphqlSpec], [GraphqlBody]:
      [services/policy-translation/graphql.ts], the two scanners as step
      functions and the grammar they recognize.
    - [Catalog]: [apps/app-permissions/] and
      [services/policy-translation/translate/app-catalog.ts].
    - [Evaluator]: [services/policy-translation/evaluator.ts], the engine.
    - [PolicyRows]: the row, DTO and engine shapes of a rule and the functions
      between them ([services/policy-service.ts], [services/policy-simulate/]).
    - [Overlap], [OverlapSound]: [lib/policy-overlap.ts], the analysis that
      flags rules that can never take effect.
    - [Grants], [GrantsSpec]: [services/grants-compile.ts].
      [GrantService]: the reads and writes of
      [services/grants-service.ts].
    - [ResourceAxis]: [lib/resource-axis.ts], session policies.
    - [LoadRules], [Injection], [EffectiveTools], [EffectiveToolsSpec],
      [Redaction]: what the dashboard says of the published rules
      ([services/policy-simulate/], [services/policy-reflect/]).
    - [PolicyAuthoring], [PolicyBlocklist]: the writes of
      [services/policy-service.ts] and [services/app-blocklist-service.ts],
      and the transactions they come to, as steps of one table.
      [PolicyPublish], [PolicyWrites], [PolicyLockstep], [PolicyRuns]: the
      draft and the live rules. [PolicyOrder]: reordering. [PolicyDeletion],
      [PolicyForget]: deleted principals. [PolicySample]: a small workspace.

    Turns ([services/turn-service.ts], [due-work.ts], [sandbox-service.ts],
    [follow-up-service.ts], [routes/runner.ts]):
    - [TurnDb]: the tables and their statements. [TurnText]: stored text.
      [TurnService], [TurnDoors]: one program per function.
    - [TurnRuns], [TurnRows], [TurnPrograms]: what every statement of every
      program respects ([Respects] is the interface).
    - [TurnLifecycle], [TurnTranscript], [TurnSettle], [TurnFence],
      [TurnSends], [TurnPromote], [TurnStop]: the properties, one file each.
      [TurnSample]: a small installation.

    A turn in its sandbox ([apps/sandbox-supervisor/src/]):
    - [AnswerTracker]: [answer.ts], which of the agent's words a turn keeps, and
      its reference. [TurnStream]: the loop of [runTurn] over a turn's events
      and its ends ([supervisor.ts]).

    Memories:
    - [MemoryFile], [MemoryFileSpec]: [packages/agent-protocol/src/memory-file.ts],
      the file of a memory, rendered and read back.
    - [MemoryService]: [services/agent-memory-service.ts] and
      [validations/memories.ts]. [MemoryHistory]: the invariant of the tables.
      [MemoryRuns]: interleaved requests. [MemoryFlow]: a file's way to the
      platform and back, through [executeMemoryFileWrite] of
      [services/platform-tool-service.ts] and its pacing.
    - [MemorySync], [MemorySyncSafe]: the files of a home,
      [apps/sandbox-supervisor/src/home/memory-harvest.ts] and
      [materializer.ts], with the agent writing in between. [MemorySample]:
      examples.

    SSH:
    - [SshWire], [SshKeys], [SshCert], [SshGrant]: [packages/ssh-cert/src/].
    - [SshDemux]: [apps/ssh-terminator/src/backend/docker/demux.ts].

    Between the runner, the sandboxes and the control plane:
    - [PortWire]: the port frames of [packages/agent-protocol/src/transport.ts].
      [PortStreams], [PortStreamsSpec], [PortStreamsRuns]: the supervisor's
      half ([apps/sandbox-supervisor/src/capabilities/port-streams.ts]).
      [PortHub], [PortHubSpec]: the runner's half
      ([apps/runner/src/port-hub.ts]). [PortFlow]: the two connected.
    - [TurnEvents], [TurnEventsSpec], [TurnEventsRuns]:
      [apps/runner/src/turn-events.ts], the buffer of a turn's events.
    - [PostEvents]: the retry law of [apps/runner/src/control-plane.ts].
      [ReportChain], [ReportChainSpec], [ReportChainRuns]:
      [apps/runner/src/report-chain.ts].
    - [Reconcile]: [apps/runner/src/reconcile-classify.ts].

    ** How the model corresponds to the code

    A string is its code units, so lengths and indices are JavaScript's.
    Nullable and optional fields are [option]s, and truthiness tests of
    nullable strings go through [truthy], so the empty string is read as the
    code reads it. A thrown [ServiceError] is the left of a sum or a [Throw];
    another thrown error is [None], or a constructor of its own. A database
    table is the list of its rows; a query is the filter of that list by the
    query's [where], sorted as it asks. A [Map] is a [gmap], and a list of its
    keys where the code walks it in order; a [Set] is its elements in
    insertion order. Objects the code only reads are plain values; the one
    comparison by reference ([effective-tools.ts], a matched rule against its
    metadata) is by value, which finds the same element because the engine
    returns the first of equal rules. Text order of row ids is by code unit,
    where the database uses its collation.

    A service function is a program: each query or update of the database is
    one atomic statement, and any other program may run between two of them,
    start, or be lost with its process. A transaction is one statement where
    its rows must be seen whole (a turn with its attachments, an event batch
    under its conversation's lock, the materialization of follow-ups, a
    notice, a memory with its revision), and the sequence of its statements
    elsewhere in the turn service. Turns are never deleted there; ties of
    [createdAt] are broken arbitrarily; [LIMIT] and [SKIP LOCKED] skip what a
    moment says is locked. Generated identifiers and clocks are what the
    moment of a statement gives it. A statement of a program answers, or throws
    what its query may throw; that the database does not answer is modelled for
    the send path ([TurnDb.reach]: each awaited call of [createTurn] and of what
    [sendConversationMessage] runs may be rejected, before or after its write),
    and elsewhere is a program lost with its process. In a home, a statement is
    what the supervisor runs between two awaits, and the agent's processes act
    between statements and between the system calls of one ([MemorySync.gap]);
    ghost fields record what stood where, what was destroyed and whether it was
    what had been looked at, and what the platform vouched for.

    A write of policy is two moments: checks on tables of one moment, then one
    transaction under its scope's lock, which is one step of the table
    ([policy_write], [policy_step]); identifiers are never reused, agents keep
    their workspace and groups their organization, and cascading deletions
    are part of the step that causes them.

    An event handler is a function from a state to a state and what it sends;
    the order of events is arbitrary within what Node documents of sockets,
    timers and streams ([PortStreams.enabled]). A promise chain is the list of
    what waits on it.

    ** What the theorems show

    - The engine: its fall-through code is one uniform law per level
      ([evaluator_uniform_law]); the organization is a ceiling
      ([organization_ceiling]); matchers are exactly the relations they are
      documented to be ([ruleMatches_spec], [endpointMatches_spec],
      [pathMatches_spec], [hostMatches_spec]).
    - The overlap analysis: removing every flagged rule changes no decision, on
      rows the match signatures tell apart ([overlap_sound], [row_clean]);
      [OverlapSound.Limits] has the rows outside that where a live rule is
      flagged.
    - GraphQL: a body is called a query only when every reading of it is one
      ([classifyGraphqlBody_query], [classifyGraphqlDocument_spec]), and the
      scanner ends ([classifyGraphqlDocument_terminates]).
    - Grants: the compiled stack decides each request as the dialog says, the
      stored rows fold back to the dialog, and a rollout or a new catalog tool
      never loosens ([GrantsSpec]); a grant that commits is what the gateway
      then runs ([set_grant_live]).
    - Session policies: composition never widens, reaches nothing across axes,
      is exact on one axis,
      symmetric, and never turns an empty overlap into no restriction
      ([ResourceAxis]); a credential's effective reach stays inside every
      bounding organization rule and the workspace's selection ([Injection]).
    - Reflection: each tool's answer is the engine's on requests the tool
      matches, ceilings bound verdicts, and a viewer without organization
      rights learns nothing of organization rules' names, ids and origins
      ([EffectiveToolsSpec], [Redaction]).
    - Writing policy: along any sequence of writes the gateway's rules are the
      draft's, hosts being blocked in published scopes ([live_is_draft]);
      deleting a principal changes no decision about anybody else where every
      grant names an agent ([deletion_unnoticed]); a reorder does exactly what
      it was asked or nothing ([reorder_spec]). [PolicySample] has three
      histories the writes do not prevent.
    - Turns, under any interleaving and between any two states of a run: rows
      keep their type and move along the transitions ([turns_well_typed],
      [turn_history]); the transcript only grows at its end, above the counters
      there were, and pages read it whole ([transcript_tail],
      [transcript_pages]); a settlement happens at most once
      ([settled_at_most_once]); a report touches only its own sandbox's
      conversations and settles only their turns ([reporter_fence]); a send
      makes at most one row, one if it answers, and none if it throws unless a
      call to the database failed ([send_posts_once]); a poll strands no
      follow-up
      ([poll_strands_nothing]); stopping and aborted closes silence a
      conversation ([TurnStop]).
    - In the sandbox: a turn's answer, when no reply to a follow-up is claimed,
      is its last talk between tool events ([answer_reference]), and every reply to a follow-up is stored once, under
      it or as the answer ([replies_stored_once]). [AnswerTracker] ends with two
      turns whose words the tracker loses.
    - Memories, under any interleaving: the head is the newest revision, the
      retained revisions are the last fifty in a row, and a revision only
      changes by being redacted, never while it is current
      ([memory_history]); the file of a memory reads back to it
      ([memory_roundtrip]); a file that is harvested and saved comes back as
      it was written ([file_comes_back]). [MemorySample] has a label the file
      cannot carry, a patch that undoes a save, and a cap two creations exceed.
    - Memory files, under any interleaving with the agent's writes, between the
      supervisor's system calls too: what the supervisor deletes or writes over,
      and had looked at, is an untouched rendering, or the platform answered
      that it holds it, if size and time of modification tell contents apart
      ([nothing_destroyed]). [MemorySample] has the homes outside that theorem's
      conditions, and one inside them where bytes written a second time never
      reach the platform.
    - SSH: minting and parsing are inverse ([mint_parse_roundtrip]); acceptance
      is characterized exactly ([assertValidUserCertificate_spec]); under an
      unforgeable key what verifies was issued, and no grant is a certificate
      ([accepted_was_issued]); a text is a malformed grant exactly when it is
      not laid out as one ([verifyGrant_errors]); the demultiplexer gives back the frames however
      they are cut ([demux_frames]).
    - Ports: the allowlist and the cap hold whatever happens
      ([supervisor_allowlist]); every open settles once, with an abort when it
      times out, and frames are fenced by sandbox and stream ([PortHubSpec]); the two halves are two byte streams within
      two windows ([port_pair_integrity], [port_pair_windows]).
    - Reports: no event is lost, repeated or moved, and every post fits the
      wire ([transcript_kept], [posts_fit]); no request that may have been
      applied is made again, and the chain drains ([never_applied_twice],
      [chain_drains]).

    ** Bounds and fuel

    Loops are [js_while] of their body with fuel; each comes with a measure
    that decreases ([js_while_total]), so the fuel written in the definition
    is enough: the length of the text plus one for the GraphQL scanners and
    the packed SSH strings, twice the length plus one for [json_parse]
    ([json_fuel]), the bytes left for [cut_step] and [chunk_step], the
    attempts left for posts, the rows left for [read_pages]. Constants are the
    sources': two tries of an abort, three of a send, ten published
    generations, fifty revisions of a memory, 256 entries of a scanned
    directory, a hundred events of a post.
    Priorities, generations and limits are integers of the database, kept as
    [Z]; the counter of a conversation is the one that can overflow its
    column, and its increment fails there as the database's does
    ([bump_seq]). Widths of the SSH wire format are kept, with the errors of
    values that do not fit.

    ** What is not the sources' own

    The app catalog's data ([Registry]); [toUpperCase] beyond ASCII
    ([JsCase]); a drive's parent links ([DriveTree]); Ed25519, its digests and
    PEM ([NodeCrypto]), lenient base64 ([NodeBase64]) and SHA-256 ([Sha256]);
    Node's sockets and [Duplex], as records of what was asked of them; URL
    parsing of the port doors; the network's answers; and, for turns, the
    credential check, the kind of an automation and the texts of failures
    ([World]). The class a raw harness error reads as
    ([provider-refusal.ts]) is a parameter of [TurnStream]. Each is a parameter or a class whose laws are documented
    behaviour, and has a concrete instance in the examples.

    ** Not modelled

    The credential and agent reflections ([effective-credentials.ts],
    [effective-agents.ts]) and the grants summary, which join for display what
    is modelled here. Of turns: the sandbox arms of the claim beyond what a
    sandbox's row says, the bookkeeping of watches and crons behind a
    settlement ([settleAutomationRun] is one event), the passes of the poll that
    are not about turns, and detached notices. Of memories: ranked search, audits, and
    the instruction documents a sync renders. The runner's work
    loop and container backends, the supervisor's processes, sessions and
    harnesses, the SSH server, channels, evaluations, routes, authentication, licensing, the
    web client: I/O and glue around the services, or database workflows whose
    laws are mostly their queries. The gateway enforces the same laws in
    Rust, which is outside this development. *)
From Stdlib Require Export NArith ZArith Lia Bool.
From Stdlib Require Ascii String.
Export String.StringSyntax.
From stdpp Require Export base numbers list gmap sorting.

(** ** JavaScript strings *)

(** A JavaScript string is its sequence of UTF-16 code units. *)
Abbreviation jsstr := (list N).

(** String literals: [js "abc"] is the JavaScript literal ["abc"] (the sources
    only use ASCII literals, one code unit per character). *)
Definition js (s : String.string) : jsstr :=
  map Ascii.N_of_ascii (String.list_ascii_of_string s).
Arguments js s%_string_scope.

(** Code units the sources name. *)
Definition ch_star : N := 42.
Definition ch_slash : N := 47.
Definition ch_dot : N := 46.
Definition ch_colon : N := 58.
Definition ch_qmark : N := 63.
Definition ch_amp : N := 38.
Definition ch_comma : N := 44.
Definition ch_bang : N := 33.
Definition ch_pipe : N := 124.
Definition ch_plus : N := 43.
Definition ch_nl : N := 10.

Section StringOps.
Implicit Types (s p : jsstr) (c : N).

(** [s.startsWith(p)] *)
Fixpoint starts_with (p s : jsstr) : bool :=
  match p, s with
  | [], _ => true
  | _ :: _, [] => false
  | a :: p', b :: s' => N.eqb a b && starts_with p' s'
  end.

(** [s.endsWith(p)] *)
Definition ends_with (p s : jsstr) : bool :=
  (length p <=? length s)%nat && bool_decide (drop (length s - length p) s = p).

(** [s.includes(needle)] *)
Fixpoint includes (needle s : jsstr) : bool :=
  starts_with needle s ||
  match s with
  | [] => false
  | _ :: s' => includes needle s'
  end.

(** [s.includes(c)] for a one-character needle. *)
Definition has_char (c : N) (s : jsstr) : bool := existsb (N.eqb c) s.

(** [s.indexOf(c)]: [None] is JavaScript's [-1]. *)
Fixpoint index_of (c : N) (s : jsstr) : option nat :=
  match s with
  | [] => None
  | x :: s' => if N.eqb x c then Some 0%nat else S <$> index_of c s'
  end.

(** [s.split(c)] for a one-character separator: never an empty array. *)
Fixpoint split_on (c : N) (s : jsstr) : list jsstr :=
  match s with
  | [] => [[]]
  | x :: s' =>
      if N.eqb x c then [] :: split_on c s'
      else match split_on c s' with
           | [] => [[x]]
           | w :: ws => (x :: w) :: ws
           end
  end.

(** [a.join(sep)] *)
Fixpoint join (sep : jsstr) (ws : list jsstr) : jsstr :=
  match ws with
  | [] => []
  | [w] => w
  | w :: ws' => w ++ sep ++ join sep ws'
  end.

(** [s.slice(0, -n)] *)
Definition drop_last (n : nat) (s : jsstr) : jsstr := take (length s - n) s.

(** How many times [c] occurs. *)
Fixpoint count_char (c : N) (s : jsstr) : nat :=
  match s with
  | [] => 0
  | x :: s' => (if N.eqb x c then 1 else 0) + count_char c s'
  end%nat.

(** [s.replaceAll(c, t)] for a one-character pattern (the replacement texts
    in the sources hold no [$]). *)
Definition replace_all (c : N) (t s : jsstr) : jsstr :=
  flat_map (fun x => if N.eqb x c then t else [x]) s.

(** JavaScript white space and line terminators, what [trim] strips. *)
Definition is_js_space (c : N) : bool :=
  ((9 <=? c) && (c <=? 13) || (c =? 32) || (c =? 160) || (c =? 5760)
   || (8192 <=? c) && (c <=? 8202) || (c =? 8232) || (c =? 8233)
   || (c =? 8239) || (c =? 8287) || (c =? 12288) || (c =? 65279))%N.

Fixpoint trim_start (s : jsstr) : jsstr :=
  match s with
  | [] => []
  | x :: s' => if is_js_space x then trim_start s' else s
  end.

(** [s.trim()] *)
Definition trim (s : jsstr) : jsstr := rev (trim_start (rev (trim_start s))).

(** String comparison by code units ([a < b], and the order of the default
    [sort]). *)
Fixpoint str_leb (a b : jsstr) : bool :=
  match a, b with
  | [], _ => true
  | _ :: _, [] => false
  | x :: a', y :: b' => (N.ltb x y) || (N.eqb x y && str_leb a' b')
  end.
End StringOps.

(** The ASCII part of Unicode case mapping. *)
Definition ascii_lower_char (c : N) : N :=
  if ((65 <=? c) && (c <=? 90))%N then (c + 32)%N else c.
Definition ascii_upper_char (c : N) : N :=
  if ((97 <=? c) && (c <=? 122))%N then (c - 32)%N else c.
Definition is_ascii (s : jsstr) : Prop := Forall (fun c => (c < 128)%N) s.

(** [String.prototype.toUpperCase]: the whole-Unicode case table is not part
    of the sources, so it is an operation with its documented behaviour on
    ASCII text. *)
Class JsCase := {
  to_upper_case : jsstr -> jsstr;
  to_upper_case_ascii s : is_ascii s -> to_upper_case s = map ascii_upper_char s
}.

(** The ASCII part of the case table, an instance for concrete runs. *)
Definition ascii_case : JsCase :=
  {| to_upper_case := map ascii_upper_char; to_upper_case_ascii := fun s _ => eq_refl |}.

(** ** Arrays *)

Section StableSort.
Context {A : Type} (leb : A -> A -> bool).

Fixpoint sort_insert (x : A) (l : list A) : list A :=
  match l with
  | [] => [x]
  | y :: l' => if leb x y then x :: l else y :: sort_insert x l'
  end.

(** [Array.prototype.sort] with a comparator: stable. *)
Definition js_sort (l : list A) : list A := foldr sort_insert [] l.
End StableSort.

(** [[...ids].sort()] on strings. *)
Definition str_sort : list jsstr -> list jsstr := js_sort str_leb.

(** [[...new Set(l)]]: the first occurrences, in order. *)
Fixpoint js_dedup_from {A} `{EqDecision A} (seen l : list A) : list A :=
  match l with
  | [] => []
  | x :: l' =>
      if bool_decide (x ∈ seen) then js_dedup_from seen l'
      else x :: js_dedup_from (x :: seen) l'
  end.
Definition js_dedup {A} `{EqDecision A} (l : list A) : list A := js_dedup_from [] l.

(** JavaScript truthiness of a nullable string, kept with its value. *)
Definition truthy (s : option jsstr) : option jsstr :=
  match s with Some (c :: w) => Some (c :: w) | _ => None end.

(** ** Loops

    A [while] loop is its iteration as a step function: [inl] continues with
    the next state, [inr] returns. *)
Section While.
Context {S R : Type} (step : S -> S + R).

Fixpoint js_while (fuel : nat) (s : S) : option R :=
  match fuel with
  | 0%nat => None
  | Datatypes.S n =>
      match step s with
      | inl s' => js_while n s'
      | inr r => Some r
      end
  end.
End While.

(** ** Lemmas on strings *)

Create HintDb jsdb.
Create Rewrite HintDb jsrw.

(** Turn the boolean connectives and tests of a translated condition into the
    propositions they decide. *)
Ltac to_prop :=
  repeat match goal with
  | H : _ && _ = true |- _ => apply andb_true_iff in H; destruct H
  | H : _ || _ = false |- _ => apply orb_false_iff in H; destruct H
  | H : negb _ = true |- _ => apply negb_true_iff in H
  | H : negb _ = false |- _ => apply negb_false_iff in H
  | H : bool_decide _ = true |- _ => apply bool_decide_eq_true in H
  | H : bool_decide _ = false |- _ => apply bool_decide_eq_false in H
  | H : N.eqb _ _ = true |- _ => apply N.eqb_eq in H
  | H : N.eqb _ _ = false |- _ => apply N.eqb_neq in H
  | H : Nat.leb _ _ = true |- _ => apply Nat.leb_le in H
  | H : Nat.leb _ _ = false |- _ => apply Nat.leb_gt in H
  | H : Nat.eqb _ _ = true |- _ => apply Nat.eqb_eq in H
  | H : Nat.eqb _ _ = false |- _ => apply Nat.eqb_neq in H
  end.

(** Case on the tests of the goal, keeping the equations. *)
Ltac case_tests :=
  repeat match goal with
  | |- context [if ?b then _ else _] => destruct b eqn:?
  end.

Lemma existsb_In {A} (f : A -> bool) l :
  existsb f l = true <-> exists x, x ∈ l /\ f x = true.
Proof.
  rewrite existsb_exists. split; intros (x & Hx & Hf); exists x; split; auto;
    by apply list_elem_of_In.
Qed.

Lemma existsb_not_In {A} (f : A -> bool) l :
  existsb f l = false <-> forall x, x ∈ l -> f x = false.
Proof.
  rewrite <- not_true_iff_false, existsb_In. split.
  - intros H x Hx. apply not_true_iff_false. intros Hf. eauto.
  - intros H (x & Hx & Hf). rewrite H in Hf; done.
Qed.

Lemma forallb_In {A} (f : A -> bool) l :
  forallb f l = true <-> forall x, x ∈ l -> f x = true.
Proof.
  rewrite forallb_forall. split; intros H x Hx; apply H; by apply list_elem_of_In.
Qed.

Lemma elem_of_lfilter {A} (f : A -> bool) l x :
  x ∈ List.filter f l <-> x ∈ l /\ f x = true.
Proof. by rewrite !list_elem_of_In, filter_In. Qed.

Lemma elem_of_lmap {A B} (f : A -> B) l y :
  y ∈ map f l <-> exists x, y = f x /\ x ∈ l.
Proof. apply list_elem_of_fmap. Qed.

Lemma forallb_map_comp {A B} (f : B -> bool) (g : A -> B) l :
  forallb f (map g l) = forallb (fun x => f (g x)) l.
Proof. induction l as [|x l IH]; simpl; [done|]. by rewrite IH. Qed.

Lemma existsb_map_comp {A B} (f : B -> bool) (g : A -> B) l :
  existsb f (map g l) = existsb (fun x => f (g x)) l.
Proof. induction l as [|x l IH]; simpl; [done|]. by rewrite IH. Qed.

Lemma existsb_Forall2 {A B} (R : A -> B -> Prop) (f : A -> bool) (g : B -> bool) l k :
  (forall x y, R x y -> f x = g y) -> Forall2 R l k -> existsb f l = existsb g k.
Proof. intros Hf. induction 1 as [|x y l k E _ IH]; simpl; [done|]. by rewrite (Hf _ _ E), IH. Qed.

Lemma existsb_Permutation {A} (f : A -> bool) l k :
  l ≡ₚ k -> existsb f l = existsb f k.
Proof. intros HP. apply eq_true_iff_eq. rewrite !existsb_In. by setoid_rewrite HP. Qed.

(** A non-empty guard before a [some] is redundant. *)
Lemma existsb_nonempty {A} (f : A -> bool) l :
  (0 <? length l)%nat && existsb f l = existsb f l.
Proof. by destruct l. Qed.

Lemma forallb_ext_In {A} (f g : A -> bool) l :
  (forall x, x ∈ l -> f x = g x) -> forallb f l = forallb g l.
Proof.
  induction l as [|x l IH]; simpl; intros H; [done|].
  rewrite H by set_solver. f_equal. apply IH. set_solver.
Qed.

Lemma existsb_ext_In {A} (f g : A -> bool) l :
  (forall x, x ∈ l -> f x = g x) -> existsb f l = existsb g l.
Proof.
  induction l as [|x l IH]; simpl; intros H; [done|].
  rewrite H by set_solver. f_equal. apply IH. set_solver.
Qed.

Section StringLemmas.
Implicit Types (s p : jsstr) (c : N).

Lemma starts_with_spec p s : starts_with p s = true <-> exists k, s = p ++ k.
Proof.
  revert s. induction p as [|a p IH]; intros s; simpl.
  - split; eauto.
  - destruct s as [|b s]; simpl.
    + split; [done|]. intros (k & ?). done.
    + rewrite andb_true_iff, N.eqb_eq, IH. split.
      * intros (-> & k & ->). by exists k.
      * intros (k & [= -> ->]). eauto.
Qed.

Lemma ends_with_spec p s : ends_with p s = true <-> exists k, s = k ++ p.
Proof.
  unfold ends_with. rewrite andb_true_iff, Nat.leb_le, bool_decide_eq_true. split.
  - intros (Hl & Hd). exists (take (length s - length p) s).
    rewrite <- Hd at 2. by rewrite take_drop.
  - intros (k & ->). rewrite length_app. split; [lia|].
    replace (length k + length p - length p)%nat with (length k) by lia.
    by rewrite drop_app_length.
Qed.

Lemma starts_with_app p k : starts_with p (p ++ k) = true.
Proof. apply starts_with_spec. eauto. Qed.

Lemma ends_with_app p k : ends_with p (k ++ p) = true.
Proof. apply ends_with_spec. eauto. Qed.

Lemma includes_spec p s : includes p s = true <-> exists a b, s = a ++ p ++ b.
Proof.
  induction s as [|x s IH]; simpl; rewrite orb_true_iff, starts_with_spec.
  - split.
    + intros [(k & Hk)|[=]]. exists [], k. done.
    + intros (a & b & H). destruct a; [|done]. left. by exists b.
  - rewrite IH. split.
    + intros [(k & Hk)|(a & b & ->)]; [exists [], k; done|]. by exists (x :: a), b.
    + intros ([|y a] & b & H); [left; by exists b|]. right.
      injection H as -> ->. eauto.
Qed.

Lemma has_char_spec c s : has_char c s = true <-> c ∈ s.
Proof.
  unfold has_char. rewrite existsb_In. split.
  - intros (x & Hx & ->%N.eqb_eq). done.
  - intros H. exists c. by rewrite N.eqb_refl.
Qed.

Lemma has_char_false c s : has_char c s = false <-> c ∉ s.
Proof. rewrite <- not_true_iff_false. by rewrite has_char_spec. Qed.

Lemma count_char_0 c s : count_char c s = 0%nat <-> c ∉ s.
Proof.
  induction s as [|x s IH]; simpl; [set_solver|].
  destruct (N.eqb_spec x c); rewrite elem_of_cons; [|intuition lia].
  split; [lia|]. intros []. by left.
Qed.

Lemma count_char_app c s1 s2 :
  count_char c (s1 ++ s2) = (count_char c s1 + count_char c s2)%nat.
Proof. induction s1 as [|x s1 IH]; simpl; [done|]. rewrite IH. lia. Qed.

Lemma index_of_None c s : index_of c s = None <-> c ∉ s.
Proof.
  induction s as [|x s IH]; simpl; [set_solver|].
  destruct (N.eqb_spec x c) as [->|Hne].
  - split; [done|]. set_solver.
  - rewrite fmap_None, IH. set_solver.
Qed.

(** [indexOf] splits the string at the first occurrence. *)
Lemma index_of_Some c s i :
  index_of c s = Some i <->
  (s = take i s ++ c :: drop (S i) s) /\ (c ∉ take i s) /\ (i < length s)%nat.
Proof.
  revert i. induction s as [|x s IH]; intros i; simpl.
  - split; [done|]. destruct i; simpl; intros (_ & _ & ?); lia.
  - destruct (N.eqb_spec x c) as [->|Hne].
    + split.
      * intros [= <-]. simpl. repeat split; [set_solver|lia].
      * destruct i as [|i]; simpl; [done|]. intros (_ & H & _). set_solver.
    + rewrite fmap_Some. split.
      * intros (j & Hj & ->). apply IH in Hj as (H1 & H2 & H3). simpl.
        repeat split; [by rewrite <- H1|set_solver|lia].
      * destruct i as [|i]; simpl; [intros ([= ->] & _); done|].
        intros ([= H1] & H2 & H3). exists i. split; [|done]. apply IH.
        repeat split; [done|set_solver|lia].
Qed.

Lemma index_of_app c a b : c ∉ a -> index_of c (a ++ c :: b) = Some (length a).
Proof.
  intros H. apply index_of_Some.
  rewrite take_app_length, length_app. simpl.
  replace (S (length a)) with (length (a ++ [c])) by (rewrite length_app; simpl; lia).
  replace (a ++ c :: b) with ((a ++ [c]) ++ b) at 2 by (by rewrite <- app_assoc).
  rewrite drop_app_length. repeat split; [done|lia].
Qed.

(** A first separator splits a string one way. *)
Lemma split_first_inj c p q p' q' :
  c ∉ p -> c ∉ p' -> p ++ c :: q = p' ++ c :: q' -> p = p' /\ q = q'.
Proof.
  intros Hp Hp' E. assert (index_of c (p ++ c :: q) = Some (length p)) as H1
    by by apply index_of_app.
  rewrite E, index_of_app in H1 by done. injection H1 as H1.
  apply app_inj_1 in E as [-> [= ->]]; done.
Qed.

(** So does a last one. *)
Lemma split_last_inj c p q p' q' :
  c ∉ q -> c ∉ q' -> p ++ c :: q = p' ++ c :: q' -> p = p' /\ q = q'.
Proof.
  intros Hq Hq' E. apply (f_equal reverse) in E.
  rewrite !reverse_app, !reverse_cons, <- !app_assoc in E. simpl in E.
  apply split_first_inj in E as [E1 E2]; [|by rewrite elem_of_reverse..].
  by apply (inj reverse) in E1, E2.
Qed.

(** Pieces of [split] *)
Lemma split_on_cons c s : exists w ws, split_on c s = w :: ws.
Proof.
  destruct s as [|x s]; simpl; eauto.
  destruct (N.eqb x c); eauto. destruct (split_on c s); eauto.
Qed.

Lemma split_on_nil c s : split_on c s <> [].
Proof. by destruct (split_on_cons c s) as (w & ws & ->). Qed.

Lemma split_on_no c s : c ∉ s -> split_on c s = [s].
Proof.
  induction s as [|x s IH]; simpl; [done|]. intros H.
  destruct (N.eqb_spec x c) as [->|]; [set_solver|].
  rewrite IH by set_solver. done.
Qed.

Lemma split_on_app c a b :
  c ∉ a -> split_on c (a ++ c :: b) = a :: split_on c b.
Proof.
  induction a as [|x a IH]; simpl; intros H.
  - by rewrite N.eqb_refl.
  - destruct (N.eqb_spec x c) as [->|]; [set_solver|].
    rewrite IH by set_solver. done.
Qed.

Lemma split_on_pieces c s w : w ∈ split_on c s -> c ∉ w.
Proof.
  revert w. induction s as [|x s IH]; simpl; intros w.
  - rewrite list_elem_of_singleton. set_solver.
  - destruct (N.eqb_spec x c) as [->|Hne].
    + rewrite elem_of_cons. intros [->|H]; [set_solver|eauto].
    + destruct (split_on_cons c s) as (v & vs & E). rewrite E in *.
      rewrite elem_of_cons. intros [->|H]; [|apply IH; set_solver].
      assert (c ∉ v) by (apply IH; set_solver). set_solver.
Qed.

Lemma join_split c s : join [c] (split_on c s) = s.
Proof.
  induction s as [|x s IH]; [done|]. simpl.
  destruct (split_on_cons c s) as (v & vs & E). rewrite E in *.
  destruct (N.eqb_spec x c) as [->|Hne].
  - simpl in *. by rewrite IH.
  - simpl in *. destruct vs; simpl in *; by rewrite IH.
Qed.

Lemma split_join c ws :
  ws <> [] -> Forall (fun w => c ∉ w) ws -> split_on c (join [c] ws) = ws.
Proof.
  induction ws as [|w [|w' ws] IH]; intros Hne HF; [done|..].
  - apply split_on_no. by inversion HF.
  - inversion HF; subst. change (join [c] (w :: w' :: ws)) with
      (w ++ c :: join [c] (w' :: ws)).
    rewrite split_on_app by done. f_equal. by apply IH.
Qed.

(** Joined pieces are recovered when none is empty or holds the separator. *)
Lemma join_inj c ws ws' :
  Forall (fun w => w <> [] /\ c ∉ w) ws -> Forall (fun w => w <> [] /\ c ∉ w) ws' ->
  join [c] ws = join [c] ws' -> ws = ws'.
Proof.
  intros Hw Hw' E.
  assert (forall l, Forall (fun w => w <> [] /\ c ∉ w) l -> join [c] l = [] -> l = []) as Hnil.
  { intros [|w [|w2 l]] Hl; [done|..]; apply Forall_cons in Hl as [[? _] _]; [done|].
    simpl. by destruct w. }
  destruct (decide (ws = [])) as [->|Hne]; [symmetry; by apply Hnil|].
  destruct (decide (ws' = [])) as [->|Hne']; [by apply Hnil|].
  assert (forall l, Forall (fun w => w <> [] /\ c ∉ w) l -> Forall (fun w => c ∉ w) l) as Hsep.
  { intros l Hl. eapply Forall_impl; [exact Hl|]. by intros ? []. }
  rewrite <- (split_join c ws), <- (split_join c ws'), E by auto. done.
Qed.

Lemma split_on_inj c s1 s2 : split_on c s1 = split_on c s2 -> s1 = s2.
Proof. intros H. by rewrite <- (join_split c s1), <- (join_split c s2), H. Qed.

Lemma length_split_on c s : length (split_on c s) = S (count_char c s).
Proof.
  induction s as [|x s IH]; simpl; [done|].
  destruct (split_on_cons c s) as (v & vs & E). rewrite E in *. simpl in *.
  destruct (N.eqb x c); simpl; lia.
Qed.
End StringLemmas.

(** ** Case folding *)

Section Folding.
(** A character map that fixes the character [c], both ways. *)
Context (f : N -> N) (c : N) (Hf : forall x, f x = c <-> x = c).

Lemma eqb_fold x : N.eqb (f x) c = N.eqb x c.
Proof. destruct (N.eqb_spec x c), (N.eqb_spec (f x) c); naive_solver. Qed.

Lemma count_char_map s : count_char c (map f s) = count_char c s.
Proof. induction s as [|x s IH]; simpl; [done|]. by rewrite eqb_fold, IH. Qed.

Lemma index_of_map s : index_of c (map f s) = index_of c s.
Proof. induction s as [|x s IH]; simpl; [done|]. by rewrite eqb_fold, IH. Qed.

Lemma has_char_map s : has_char c (map f s) = has_char c s.
Proof.
  unfold has_char. induction s as [|x s IH]; simpl; [done|].
  by rewrite (N.eqb_sym c (f x)), eqb_fold, IH, N.eqb_sym.
Qed.

Lemma split_on_map s : split_on c (map f s) = map (map f) (split_on c s).
Proof.
  induction s as [|x s IH]; simpl; [done|]. rewrite eqb_fold, IH.
  destruct (N.eqb x c); [done|].
  by destruct (split_on_cons c s) as (v & vs & ->).
Qed.
End Folding.

Lemma ascii_lower_char_idem x : ascii_lower_char (ascii_lower_char x) = ascii_lower_char x.
Proof.
  unfold ascii_lower_char. case_tests; try done; exfalso;
    repeat match goal with
    | H : (_ && _) = true |- _ => apply andb_true_iff in H as [?%N.leb_le ?%N.leb_le]
    | H : (_ && _) = false |- _ => apply andb_false_iff in H as [?%N.leb_gt|?%N.leb_gt]
    end; lia.
Qed.

(** Characters that are not letters are fixed by case folding, both ways. *)
Lemma ascii_lower_char_fix c x :
  (c < 65 \/ 90 < c /\ c < 97 \/ 122 < c)%N -> ascii_lower_char x = c <-> x = c.
Proof.
  intros Hc. unfold ascii_lower_char. destruct ((65 <=? x) && (x <=? 90))%N eqn:E.
  - apply andb_true_iff in E as [?%N.leb_le ?%N.leb_le]. lia.
  - done.
Qed.

(** ** Lemmas on arrays *)

Section SortLemmas.
Context {A : Type} (leb : A -> A -> bool).

Lemma sort_insert_Permutation x l : sort_insert leb x l ≡ₚ x :: l.
Proof.
  induction l as [|y l IH]; simpl; [done|].
  destruct (leb x y); [done|]. rewrite IH. constructor.
Qed.

Lemma js_sort_Permutation l : js_sort leb l ≡ₚ l.
Proof.
  induction l as [|x l IH]; simpl; [done|]. by rewrite sort_insert_Permutation, IH.
Qed.

Lemma js_sort_elem_of x l : x ∈ js_sort leb l <-> x ∈ l.
Proof. by rewrite js_sort_Permutation. Qed.

Context (leb_total : forall x y, leb x y = true \/ leb y x = true).
Context (leb_trans : forall x y z, leb x y = true -> leb y z = true -> leb x z = true).

Lemma sort_insert_sorted x l :
  StronglySorted leb l -> StronglySorted leb (sort_insert leb x l).
Proof.
  induction 1 as [|y l Hl IH Hy]; simpl; [repeat constructor|].
  destruct (leb x y) eqn:E.
  - constructor; [by constructor|]. constructor; [by rewrite E|].
    eapply Forall_impl; [exact Hy|]. intros z Hz. apply Is_true_eq_true in Hz.
    apply Is_true_eq_left. eauto.
  - constructor; [done|]. rewrite sort_insert_Permutation. constructor; [|done].
    destruct (leb_total x y) as [H|H]; [congruence|]. by rewrite H.
Qed.

Lemma js_sort_sorted l : StronglySorted leb (js_sort leb l).
Proof. induction l; simpl; [constructor|]. by apply sort_insert_sorted. Qed.

Lemma js_sort_id l : StronglySorted leb l -> js_sort leb l = l.
Proof.
  induction 1 as [|x l Hl IH Hx]; simpl; [done|]. rewrite IH.
  destruct l as [|y l]; simpl; [done|].
  apply Forall_cons in Hx as [Hxy _]. by rewrite (Is_true_eq_true _ Hxy).
Qed.

(** Filtering before or after a stable sort is the same. *)
Lemma filter_sort_insert (P : A -> bool) x l :
  StronglySorted leb l ->
  List.filter P (sort_insert leb x l) =
  if P x then sort_insert leb x (List.filter P l) else List.filter P l.
Proof.
  induction 1 as [|y l Hl IH Hy]; simpl; [by destruct (P x)|].
  destruct (leb x y) eqn:E; simpl.
  - destruct (P x), (P y) eqn:Py; simpl; rewrite ?E; try done.
    destruct (List.filter P l) as [|z l'] eqn:El; [done|]. simpl.
    assert (z ∈ l) as Hz.
    { apply list_elem_of_In. apply (filter_In P z l). rewrite El. by left. }
    rewrite Forall_forall in Hy. apply Hy in Hz.
    rewrite (leb_trans x y z); [done|done|by apply Is_true_eq_true].
  - rewrite IH. destruct (P x), (P y); simpl; rewrite ?E; done.
Qed.

Lemma js_sort_filter (P : A -> bool) l :
  js_sort leb (List.filter P l) = List.filter P (js_sort leb l).
Proof.
  induction l as [|x l IH]; simpl; [done|].
  rewrite filter_sort_insert by apply js_sort_sorted.
  destruct (P x); simpl; by rewrite IH.
Qed.

(** The first element of the sorted array that passes a test. *)
Lemma find_sort_insert (P : A -> bool) x l :
  StronglySorted leb l ->
  List.find P (sort_insert leb x l) =
  if P x then
    Some (match List.find P l with
          | Some y => if leb x y then x else y
          | None => x
          end)
  else List.find P l.
Proof.
  induction 1 as [|y l Hl IH Hy]; simpl; [by destruct (P x)|].
  destruct (leb x y) eqn:E; simpl.
  - destruct (P x); [|done]. destruct (P y); [by rewrite E|].
    destruct (List.find P l) as [z|] eqn:Ez; [|done].
    apply find_some in Ez as [Hz _]. apply list_elem_of_In in Hz.
    rewrite Forall_forall in Hy. apply Hy, Is_true_eq_true in Hz.
    by rewrite (leb_trans x y z).
  - rewrite IH. destruct (P y); [|done]. by destruct (P x); rewrite ?E.
Qed.

Lemma find_js_sort_cons (P : A -> bool) x l :
  List.find P (js_sort leb (x :: l)) =
  if P x then
    Some (match List.find P (js_sort leb l) with
          | Some y => if leb x y then x else y
          | None => x
          end)
  else List.find P (js_sort leb l).
Proof. apply find_sort_insert, js_sort_sorted. Qed.

Lemma leb_refl x : leb x x = true.
Proof. by destruct (leb_total x x). Qed.

(** The first match after sorting: least in the order, earliest on a tie. *)
Lemma find_js_sort_iff (P : A -> bool) l r :
  List.find P (js_sort leb l) = Some r <->
  exists l1 l2, l = l1 ++ r :: l2 /\ P r = true /\
    (forall r', r' ∈ l1 -> P r' = true -> leb r' r = false) /\
    (forall r', r' ∈ l2 -> P r' = true -> leb r r' = true).
Proof.
  revert r. induction l as [|x l IH]; intros r.
  { split; [done|]. by intros ([|] & ? & ? & _). }
  rewrite find_js_sort_cons. split.
  - destruct (P x) eqn:Px.
    + destruct (List.find P (js_sort leb l)) as [y|] eqn:Ey.
      * pose proof (proj1 (IH y) eq_refl) as (l1 & l2 & -> & Py & H1 & H2).
        destruct (leb x y) eqn:Exy; intros [= <-].
        -- exists [], (l1 ++ y :: l2). split_and!; try done; [set_solver|].
           intros r'. rewrite elem_of_app, elem_of_cons. intros [Hr|[->|Hr]] Pr; [|done|eauto].
           destruct (leb_total r' y) as [E|E]; [|eauto]. by rewrite H1 in E.
        -- exists (x :: l1), l2. split_and!; try done.
           intros r'. rewrite elem_of_cons. intros [->|Hr]; auto.
      * intros [= <-]. exists [], l. split_and!; try done; [set_solver|].
        intros r' Hr Pr. rewrite (find_none P _ Ey r') in Pr; [done|].
        by apply list_elem_of_In, js_sort_elem_of.
    + intros (l1 & l2 & -> & Pr & H1 & H2)%IH. exists (x :: l1), l2.
      split_and!; try done. intros r'. rewrite elem_of_cons. intros [->|Hr]; [congruence|auto].
  - intros ([|x' l1] & l2 & E & Pr & H1 & H2).
    + injection E as -> ->. rewrite Pr. f_equal.
      destruct (List.find P (js_sort leb l2)) as [y|] eqn:Ey; [|done].
      apply find_some in Ey as [Hy Py]. apply list_elem_of_In in Hy.
      apply (js_sort_elem_of y l2) in Hy.
      by rewrite (H2 y Hy Py).
    + injection E as -> ->.
      assert (List.find P (js_sort leb (l1 ++ r :: l2)) = Some r) as ->.
      { apply IH. exists l1, l2. split_and!; auto. intros. apply H1; [by right|done]. }
      destruct (P x') eqn:Px; [|done]. by rewrite (H1 x') by (done || left).
Qed.
End SortLemmas.

Lemma find_filter {A} (P Q : A -> bool) l :
  List.find P (List.filter Q l) = List.find (fun x => Q x && P x) l.
Proof.
  induction l as [|x l IH]; simpl; [done|].
  destruct (Q x); simpl; [|done]. by destruct (P x).
Qed.

(** Dropping elements that are not the first match keeps the first match. *)
Lemma find_filter_keep {A} (P K : A -> bool) l :
  (forall x, List.find P l = Some x -> K x = true) ->
  List.find P (List.filter K l) = List.find P l.
Proof.
  induction l as [|x l IH]; simpl; intros HK; [done|].
  destruct (P x) eqn:Px.
  - rewrite (HK x) by done. simpl. by rewrite Px.
  - destruct (K x); simpl; rewrite ?Px; auto.
Qed.

Lemma find_ext_eq {A} (P Q : A -> bool) l :
  (forall x, P x = Q x) -> List.find P l = List.find Q l.
Proof. intros H. induction l as [|x l IH]; simpl; [done|]. by rewrite H, IH. Qed.

Lemma find_false {A} (l : list A) : List.find (fun _ => false) l = None.
Proof. by induction l. Qed.

Lemma filter_filter_comp {A} (P Q : A -> bool) l :
  List.filter P (List.filter Q l) = List.filter (fun x => Q x && P x) l.
Proof.
  induction l as [|x l IH]; simpl; [done|].
  destruct (Q x); simpl; [|done]. destruct (P x); by rewrite IH.
Qed.

Lemma filter_none {A} (P : A -> bool) l :
  (forall x, x ∈ l -> P x = false) -> List.filter P l = [].
Proof.
  induction l as [|x l IH]; simpl; intros H; [done|].
  rewrite H by set_solver. apply IH. set_solver.
Qed.

Lemma filter_all {A} (P : A -> bool) l :
  (forall x, x ∈ l -> P x = true) -> List.filter P l = l.
Proof.
  induction l as [|x l IH]; simpl; intros H; [done|].
  rewrite H by set_solver. f_equal. apply IH. set_solver.
Qed.

Lemma find_map_comp {A B} (P : B -> bool) (f : A -> B) l :
  List.find P (map f l) = f <$> List.find (fun x => P (f x)) l.
Proof. induction l as [|x l IH]; simpl; [done|]. by destruct (P (f x)). Qed.

Lemma js_sort_map {A B} (leb : B -> B -> bool) (f : A -> B) l :
  js_sort leb (map f l) = map f (js_sort (fun x y => leb (f x) (f y)) l).
Proof.
  induction l as [|x l IH]; simpl; [done|]. rewrite IH. clear IH.
  induction (js_sort _ l) as [|y l' IH']; simpl; [done|].
  destruct (leb (f x) (f y)); simpl; [done|]. by rewrite IH'.
Qed.

Lemma js_sort_ext {A} (leb leb' : A -> A -> bool) l :
  (forall x y, leb x y = leb' x y) -> js_sort leb l = js_sort leb' l.
Proof.
  intros H. induction l as [|x l IH]; simpl; [done|]. rewrite IH. clear IH.
  induction (js_sort leb' l) as [|y k IH']; simpl; [done|]. by rewrite H, IH'.
Qed.

Lemma filter_map_comp {A B} (P : B -> bool) (f : A -> B) l :
  List.filter P (map f l) = map f (List.filter (fun x => P (f x)) l).
Proof. induction l as [|x l IH]; simpl; [done|]. rewrite IH. by destruct (P (f x)). Qed.

Lemma str_leb_total a b : str_leb a b = true \/ str_leb b a = true.
Proof.
  revert b. induction a as [|x a IH]; intros [|y b]; simpl; auto.
  destruct (N.ltb_spec x y), (N.ltb_spec y x), (N.eqb_spec x y), (N.eqb_spec y x);
    simpl; auto; lia.
Qed.

Lemma str_leb_trans a b c :
  str_leb a b = true -> str_leb b c = true -> str_leb a c = true.
Proof.
  revert b c. induction a as [|x a IH]; intros [|y b] [|z c]; simpl; auto; try done.
  rewrite !orb_true_iff, !andb_true_iff, !N.ltb_lt, !N.eqb_eq.
  intros [?|[-> ?]] [?|[-> ?]]; [left; lia|left; lia|left; lia|right; eauto].
Qed.

Lemma str_leb_antisym a b : str_leb a b = true -> str_leb b a = true -> a = b.
Proof.
  revert b. induction a as [|x a IH]; intros [|y b]; simpl; auto; try done.
  rewrite !orb_true_iff, !andb_true_iff, !N.ltb_lt, !N.eqb_eq.
  intros [?|[-> ?]] [?|[? ?]]; try lia. f_equal. auto.
Qed.

Lemma str_sort_sorted l : StronglySorted str_leb (str_sort l).
Proof. apply js_sort_sorted; eauto using str_leb_total, str_leb_trans. Qed.

Lemma str_sort_Permutation l : str_sort l ≡ₚ l.
Proof. apply js_sort_Permutation. Qed.

Lemma str_sort_elem_of x l : x ∈ str_sort l <-> x ∈ l.
Proof. apply js_sort_elem_of. Qed.

Lemma str_sorted_unique (l1 l2 : list jsstr) :
  StronglySorted str_leb l1 -> StronglySorted str_leb l2 -> l1 ≡ₚ l2 -> l1 = l2.
Proof.
  intros H1. revert l2. induction H1 as [|x l1 H1 IH Hx]; intros l2 H2 HP.
  - by apply Permutation_nil_l in HP.
  - destruct H2 as [|y l2 H2 Hy]; [by apply Permutation_nil_r in HP|].
    rewrite Forall_forall in Hx, Hy.
    assert (x = y) as ->.
    { assert (x ∈ y :: l2) as Hx' by (rewrite <- HP; left).
      assert (y ∈ x :: l1) as Hy' by (rewrite HP; left).
      apply elem_of_cons in Hx' as [?|Hx']; [done|].
      apply elem_of_cons in Hy' as [?|Hy']; [done|].
      apply str_leb_antisym; apply Is_true_eq_true; auto. }
    f_equal. apply IH; [done|]. by apply Permutation_cons_inv in HP.
Qed.

Lemma str_sort_Permutation_eq l1 l2 : l1 ≡ₚ l2 -> str_sort l1 = str_sort l2.
Proof.
  intros H. apply str_sorted_unique; [apply str_sort_sorted..|].
  by rewrite !str_sort_Permutation.
Qed.

Lemma str_sort_idem l : str_sort (str_sort l) = str_sort l.
Proof. apply str_sort_Permutation_eq, str_sort_Permutation. Qed.

(** A loop over an array, with an invariant on the prefix done so far. *)
Lemma fold_left_prefix_inv {A S} (f : S -> A -> S) (I : list A -> S -> Prop) l s0 :
  I [] s0 ->
  (forall pre x post s, l = pre ++ x :: post -> I pre s -> I (pre ++ [x]) (f s x)) ->
  I l (fold_left f l s0).
Proof.
  intros H0 Hstep.
  assert (forall post pre s, l = pre ++ post -> I pre s -> I l (fold_left f post s)) as Hgo.
  { induction post as [|x post IH]; intros pre s -> Hs; simpl; [by rewrite app_nil_r|].
    apply (IH (pre ++ [x])); [by rewrite <- app_assoc|]. by apply (Hstep pre x post). }
  by apply (Hgo l []).
Qed.

Lemma fold_left_ext_eq {A S} (f g : S -> A -> S) l s :
  (forall s x, f s x = g s x) -> fold_left f l s = fold_left g l s.
Proof. intros H. revert s. induction l as [|x l IH]; intros s; simpl; [done|]. by rewrite H, IH. Qed.

(** A loop that keeps what the last element passing a test sets. *)
Lemma fold_last {A B} (P : A -> bool) (f : A -> B) l d :
  fold_left (fun p r => if P r then f r else p) l d =
  match last (List.filter P l) with Some r => f r | None => d end.
Proof.
  revert d. induction l as [|x l IH]; intros d; simpl; [done|]. rewrite IH.
  destruct (P x); [|done]. rewrite last_cons. by destruct (last (List.filter P l)).
Qed.

(** The last element passing a test. *)
Lemma last_filter {A} (P : A -> bool) l x :
  last (List.filter P l) = Some x ->
  exists b c, l = b ++ x :: c /\ P x = true /\ forall r, r ∈ c -> P r = false.
Proof.
  induction l as [|y l IH]; simpl; [done|]. destruct (P y) eqn:Py.
  - rewrite last_cons. destruct (last (List.filter P l)) as [z|] eqn:E.
    + intros [= ->]. destruct IH as (b & c & -> & ? & ?); [done|]. by exists (y :: b), c.
    + intros [= ->]. exists [], l. split_and!; [done|done|]. intros r Hr.
      apply last_None in E. apply not_true_iff_false. intros Hs.
      assert (r ∈ List.filter P l) as Hin by by rewrite elem_of_lfilter.
      rewrite E in Hin. set_solver.
  - intros (b & c & -> & ? & ?)%IH. by exists (y :: b), c.
Qed.

(** A loop that only adds to a collection, each element its own share. *)
Lemma fold_left_elem {S A B} (f : S -> A -> S) (get : S -> list B) (add : A -> list B) :
  (forall s a x, x ∈ get (f s a) <-> x ∈ get s \/ x ∈ add a) ->
  forall l s x, x ∈ get (fold_left f l s) <-> x ∈ get s \/ exists a, a ∈ l /\ x ∈ add a.
Proof.
  intros Hf l. induction l as [|a l IH]; intros s x; simpl; [set_solver|].
  rewrite IH, Hf. set_solver.
Qed.

(** Two arrays related element by element filter, flatten and search alike. *)
Section Related.
Context {A B : Type} (R : A -> B -> Prop).

Lemma Forall2_filter (p : A -> bool) (q : B -> bool) l k :
  (forall x y, R x y -> p x = q y) -> Forall2 R l k ->
  Forall2 R (List.filter p l) (List.filter q k).
Proof.
  intros Hpq. induction 1 as [|x y l k Hxy _ IH]; simpl; [constructor|].
  rewrite (Hpq _ _ Hxy). destruct (q y); [by constructor|done].
Qed.

Lemma Forall2_flat_map {C} (f : A -> list C) (g : B -> list C) l k :
  (forall x y, R x y -> f x = g y) -> Forall2 R l k -> flat_map f l = flat_map g k.
Proof.
  intros Hfg. induction 1 as [|x y l k Hxy _ IH]; simpl; [done|]. by rewrite (Hfg _ _ Hxy), IH.
Qed.

Lemma Forall2_find (p : A -> bool) (q : B -> bool) l k :
  (forall x y, R x y -> p x = q y) -> Forall2 R l k ->
  option_Forall2 R (List.find p l) (List.find q k).
Proof.
  intros Hpq. induction 1 as [|x y l k Hxy _ IH]; simpl; [constructor|].
  rewrite (Hpq _ _ Hxy). destruct (q y); [by constructor|done].
Qed.
End Related.

(** A later first match of a list without repetitions is not its first. *)
Lemma find_later {A} (P : A -> bool) a h b r c :
  NoDup (a ++ h :: b ++ r :: c) -> P h = true ->
  List.find P (a ++ h :: b ++ r :: c) <> Some r.
Proof.
  intros Hnd Hh. induction a as [|x a IH]; simpl in *.
  - rewrite Hh. intros [= ->]. apply NoDup_cons in Hnd as [Hn _]. set_solver.
  - apply NoDup_cons in Hnd as [Hx Hnd]. destruct (P x); [|auto].
    intros [= ->]. set_solver.
Qed.

Lemma NoDup_map_filter {A B} (f : A -> B) (P : A -> bool) l : NoDup (map f l) -> NoDup (map f (List.filter P l)).
Proof.
  induction l as [|x l IH]; cbn; [done|]. intros [Hx Hl]%NoDup_cons. destruct (P x); [|by apply IH]. constructor; [|by apply IH].
  intros (y & Hy & [Hin _]%elem_of_lfilter)%elem_of_lmap. apply Hx, elem_of_lmap. by exists y.
Qed.

Lemma NoDup_fmap_elem_eq {A B} (f : A -> B) l x y :
  NoDup (map f l) -> x ∈ l -> y ∈ l -> f x = f y -> x = y.
Proof.
  intros Hnd [i Hi]%list_elem_of_lookup [j Hj]%list_elem_of_lookup E.
  assert (i = j) as ->; [|congruence].
  eapply (NoDup_lookup (map f l)); [done|..];
    change (map f l) with (f <$> l); rewrite list_lookup_fmap, ?Hi, ?Hj; simpl; [done|by rewrite E].
Qed.

Section DedupLemmas.
Context {A : Type} `{EqDecision A}.
Implicit Types (x : A) (l seen : list A).

Lemma js_dedup_from_elem_of x seen l :
  x ∈ js_dedup_from seen l <-> x ∈ l /\ x ∉ seen.
Proof.
  revert seen. induction l as [|y l IH]; simpl; intros seen; [set_solver|].
  case_bool_decide; rewrite ?elem_of_cons, ?IH; [set_solver|].
  destruct (decide (x = y)); set_solver.
Qed.

Lemma js_dedup_elem_of x l : x ∈ js_dedup l <-> x ∈ l.
Proof. unfold js_dedup. rewrite js_dedup_from_elem_of. set_solver. Qed.

Lemma js_dedup_from_NoDup seen l : NoDup (js_dedup_from seen l).
Proof.
  revert seen. induction l as [|y l IH]; simpl; intros seen; [constructor|].
  case_bool_decide; [done|]. constructor; [|done].
  rewrite js_dedup_from_elem_of. set_solver.
Qed.

Lemma js_dedup_NoDup l : NoDup (js_dedup l).
Proof. apply js_dedup_from_NoDup. Qed.
End DedupLemmas.

(** Two duplicate-free arrays with the same elements sort to the same array. *)
Lemma str_sort_set_eq l1 l2 :
  NoDup l1 -> NoDup l2 -> (forall x, x ∈ l1 <-> x ∈ l2) -> str_sort l1 = str_sort l2.
Proof. intros. apply str_sort_Permutation_eq. by apply NoDup_Permutation. Qed.

#[export] Hint Rewrite @existsb_In @forallb_In andb_true_iff orb_true_iff
  negb_true_iff has_char_spec starts_with_spec ends_with_spec : jsrw.
#[export] Hint Resolve str_leb_total str_leb_trans str_leb_antisym : jsdb.

(** ** Lemmas on loops *)

Section WhileLemmas.
Context {S R : Type} (step : S -> S + R) (m : S -> nat).
Context (step_decreases : forall s s', step s = inl s' -> (m s' < m s)%nat).

(** A loop whose measure decreases returns once the fuel exceeds it. *)
Lemma js_while_total fuel s :
  (m s < fuel)%nat -> exists r, js_while step fuel s = Some r.
Proof.
  revert s. induction fuel as [|fuel IH]; intros s H; simpl; [lia|].
  destruct (step s) as [s'|r] eqn:E; eauto.
  apply IH. apply step_decreases in E. lia.
Qed.

(** Fuel beyond the measure does not matter. *)
Lemma js_while_fuel f1 f2 s :
  (m s < f1)%nat -> (m s < f2)%nat -> js_while step f1 s = js_while step f2 s.
Proof.
  revert f2 s. induction f1 as [|f1 IH]; intros [|f2] s H1 H2; simpl; try lia.
  destruct (step s) as [s'|r] eqn:E; [|done].
  apply step_decreases in E. apply IH; lia.
Qed.

(** One iteration of a loop that has fuel for its measure. *)
Lemma js_while_unfold s :
  js_while step (Datatypes.S (m s)) s =
  match step s with
  | inl s' => js_while step (Datatypes.S (m s')) s'
  | inr r => Some r
  end.
Proof.
  change (js_while step (Datatypes.S (m s)) s) with
    (match step s with inl s' => js_while step (m s) s' | inr r => Some r end).
  destruct (step s) as [s'|r] eqn:E; [|done].
  apply step_decreases in E. apply js_while_fuel; lia.
Qed.
End WhileLemmas.
