(* ===== verification/PathMatch.v ===== *)
(** * Request matchers

    [packages/api/src/lib/path-match.ts]: path patterns, host patterns, ASCII
    case folding and the LLM-host test, each with the declarative relation it
    decides. *)
From S2P Require Import Prelude.

(** ** Paths *)

(** The path with its query string stripped ([requestPath.split("?")[0]]). *)
Definition stripQuery (requestPath : jsstr) : jsstr :=
  match split_on ch_qmark requestPath with
  | p :: _ => p
  | [] => requestPath
  end.

(** [pattern.slice(0, -1).includes("*")] on patterns longer than one unit. *)
Definition hasMidPathWildcard (pattern : jsstr) : bool :=
  (1 <? length pattern)%nat && has_char ch_star (drop_last 1 pattern).

(** A [*] inside a segment is [prefix*suffix]. *)
Definition segmentMatches (segment pattern : jsstr) : bool :=
  match index_of ch_star pattern with
  | None => bool_decide (segment = pattern)
  | Some pos =>
      let prefix := take pos pattern in
      let suffix := drop (S pos) pattern in
      starts_with prefix segment && ends_with suffix segment &&
      (length prefix + length suffix <=? length segment)%nat
  end.

Definition segmentWildcardMatches (path pattern : jsstr) : bool :=
  let pathSegs0 := split_on ch_slash path in
  let patSegs := split_on ch_slash pattern in
  let pathSegs :=
    if (1 <? length patSegs)%nat &&
       bool_decide (List.last patSegs [] = []) &&
       negb (bool_decide (List.last pathSegs0 [] = [])) &&
       (length pathSegs0 + 1 =? length patSegs)%nat
    then pathSegs0 ++ [[]] else pathSegs0 in
  let trailingWild := bool_decide (List.last patSegs [] = [ch_star]) in
  let fixedPats := if trailingWild then removelast patSegs else patSegs in
  if (if trailingWild
      then (length pathSegs <? length fixedPats + 1)%nat
      else negb (length pathSegs =? length patSegs)%nat)
  then false
  else forallb (fun i => segmentMatches (nth i pathSegs []) (nth i fixedPats []))
         (seq 0 (length fixedPats)).

Definition pathMatches (requestPath pattern : jsstr) : bool :=
  let path := stripQuery requestPath in
  if bool_decide (pattern = js "*") then true
  else if hasMidPathWildcard pattern then segmentWildcardMatches path pattern
  else if ends_with (js "/*") pattern then
    let prefix := drop_last 2 pattern in
    bool_decide (path = prefix) ||
    (starts_with prefix path && bool_decide (path !! length prefix = Some ch_slash))
  else if ends_with (js "*") pattern then
    starts_with (drop_last 1 pattern) path
  else bool_decide (path = pattern).

(** ** Hosts *)

Definition asciiLower (s : jsstr) : jsstr := map ascii_lower_char s.
Definition asciiUpper (s : jsstr) : jsstr := map ascii_upper_char s.

Definition countChar (value : jsstr) (ch : N) : nat := count_char ch value.

(** One host label against one pattern label. *)
Definition labelMatches (hostLabel patternLabel : jsstr) : bool :=
  if (length hostLabel =? 0)%nat then false
  else match index_of ch_star patternLabel with
  | None => bool_decide (asciiLower hostLabel = asciiLower patternLabel)
  | Some star =>
      let prefix := take star patternLabel in
      let suffix := drop (S star) patternLabel in
      if has_char ch_star suffix then false
      else
        (length prefix + length suffix <? length hostLabel)%nat &&
        bool_decide (asciiLower (take (length prefix) hostLabel) = asciiLower prefix) &&
        bool_decide (asciiLower (drop (length hostLabel - length suffix) hostLabel)
                     = asciiLower suffix)
  end.

Definition multiWildcardMatches (requestHost pattern : jsstr) : bool :=
  let hostLabels := split_on ch_dot requestHost in
  let patternLabels := split_on ch_dot pattern in
  if negb (length hostLabels =? length patternLabels)%nat then false
  else forallb (fun i => labelMatches (nth i hostLabels []) (nth i patternLabels []))
         (seq 0 (length hostLabels)).

Definition hostMatches (requestHost pattern : jsstr) : bool :=
  if (2 <=? countChar pattern ch_star)%nat then multiWildcardMatches requestHost pattern
  else match index_of ch_star pattern with
  | None => bool_decide (asciiLower requestHost = asciiLower pattern)
  | Some star =>
      let prefix := take star pattern in
      let suffix := drop (S star) pattern in
      (length prefix + length suffix <=? length requestHost)%nat &&
      bool_decide (asciiLower (take (length prefix) requestHost) = asciiLower prefix) &&
      bool_decide (asciiLower (drop (length requestHost - length suffix) requestHost)
                   = asciiLower suffix)
  end.

Definition isLlmHost (host : jsstr) : bool :=
  let h := match split_on ch_colon host with h :: _ => h | [] => host end in
  includes (js "anthropic.com") h ||
  includes (js "openai.com") h ||
  includes (js "chatgpt.com") h ||
  includes (js "deepseek.com") h ||
  includes (js "groq.com") h ||
  includes (js "openrouter.ai") h ||
  includes (js "moonshot.cn") h ||
  includes (js "generativelanguage.googleapis.com") h.

(** ** The relations they decide *)

(** One segment: literal, or a prefix and a suffix with anything between. *)
Inductive SegmentSpec : jsstr -> jsstr -> Prop :=
| seg_literal s : ch_star ∉ s -> SegmentSpec s s
| seg_glob pre suf mid :
    ch_star ∉ pre -> SegmentSpec (pre ++ mid ++ suf) (pre ++ ch_star :: suf).

(** A query-free path against a pattern. *)
Inductive PathSpec : jsstr -> jsstr -> Prop :=
| path_any path : PathSpec path (js "*")
| path_exact path : ch_star ∉ path -> PathSpec path path
| path_prefix p k :
    ch_star ∉ p -> p <> [] -> (forall q, p <> q ++ js "/") ->
    PathSpec (p ++ k) (p ++ js "*")
| path_root p : ch_star ∉ p -> PathSpec p (p ++ js "/*")
| path_under p k : ch_star ∉ p -> PathSpec (p ++ js "/" ++ k) (p ++ js "/*")
| path_glob_deep path pattern segs rest pats :
    hasMidPathWildcard pattern = true ->
    split_on ch_slash pattern = pats ++ [js "*"] ->
    split_on ch_slash path = segs ++ rest -> rest <> [] ->
    Forall2 SegmentSpec segs pats -> PathSpec path pattern
| path_glob path pattern :
    hasMidPathWildcard pattern = true ->
    List.last (split_on ch_slash pattern) [] <> js "*" ->
    Forall2 SegmentSpec (split_on ch_slash path) (split_on ch_slash pattern) ->
    PathSpec path pattern
| path_glob_slash path pattern :
    hasMidPathWildcard pattern = true ->
    List.last (split_on ch_slash pattern) [] = [] ->
    List.last (split_on ch_slash path) [] <> [] ->
    Forall2 SegmentSpec (split_on ch_slash path ++ [[]]) (split_on ch_slash pattern) ->
    PathSpec path pattern.

(** A prefix and a suffix up to ASCII case, with [mid] between. *)
Definition folded_split (h pre mid suf : jsstr) : Prop :=
  asciiLower h = asciiLower pre ++ mid ++ asciiLower suf.

Inductive LabelSpec : jsstr -> jsstr -> Prop :=
| label_literal h p :
    h <> [] -> ch_star ∉ p -> asciiLower h = asciiLower p -> LabelSpec h p
| label_glob h pre mid suf :
    ch_star ∉ pre -> ch_star ∉ suf -> mid <> [] -> folded_split h pre mid suf ->
    LabelSpec h (pre ++ ch_star :: suf).

Inductive HostSpec : jsstr -> jsstr -> Prop :=
| host_literal h p : ch_star ∉ p -> asciiLower h = asciiLower p -> HostSpec h p
| host_glob h pre mid suf :
    ch_star ∉ pre -> ch_star ∉ suf -> folded_split h pre mid suf ->
    HostSpec h (pre ++ ch_star :: suf)
| host_labels h p :
    (2 <= count_char ch_star p)%nat ->
    Forall2 LabelSpec (split_on ch_dot h) (split_on ch_dot p) -> HostSpec h p.

(** ** Lemmas *)

(** An index loop over two arrays is a pointwise relation on a prefix. *)
Lemma forallb_seq_Forall2 {A B} (f : A -> B -> bool) (R : A -> B -> Prop)
    (da : A) (db : B) (l : list A) (k : list B) :
  (forall a b, f a b = true <-> R a b) -> (length k <= length l)%nat ->
  forallb (fun i => f (nth i l da) (nth i k db)) (seq 0 (length k)) = true <->
  Forall2 R (take (length k) l) k.
Proof.
  intros HR. revert l. induction k as [|b k IH]; intros l Hl; simpl.
  - split; [constructor|done].
  - destruct l as [|a l]; simpl in *; [lia|].
    rewrite andb_true_iff, HR, Forall2_cons, <- (IH l) by lia.
    by rewrite <- seq_shift, forallb_map_comp.
Qed.

(** A prefix and a suffix that do not overlap leave a middle. *)
Lemma affixes_split {A} (s p q : list A) :
  ((exists k, s = p ++ k) /\ (exists k, s = k ++ q)) /\
  (length p + length q <= length s)%nat <->
  exists mid, s = p ++ mid ++ q.
Proof.
  split.
  - intros (((k & ->) & (k' & Hk)) & Hlen). rewrite length_app in Hlen.
    apply app_eq_app in Hk as (l & [[-> ->]|[-> ->]]); [|by exists l].
    rewrite !length_app in Hlen. destruct l; [|simpl in *; lia].
    exists []. by rewrite app_nil_r.
  - intros (mid & ->). rewrite !length_app. split_and!; [by eexists| |lia].
    exists (p ++ mid). by rewrite <- app_assoc.
Qed.

Lemma slices_split {A} (s p q : list A) :
  ((length p + length q <= length s)%nat /\ take (length p) s = p) /\
  drop (length s - length q) s = q <->
  exists mid, s = p ++ mid ++ q.
Proof.
  rewrite <- affixes_split. split.
  - intros ((Hl & Hp) & Hq). split_and!; [| |done].
    + exists (drop (length p) s). rewrite <- Hp at 1. by rewrite take_drop.
    + exists (take (length s - length q) s). rewrite <- Hq at 2. by rewrite take_drop.
  - intros (((k & Hk) & (k' & Hk')) & Hl). split_and!; [done| |].
    + by rewrite Hk, take_app_length.
    + rewrite Hk', length_app.
      replace (length k' + length q - length q)%nat with (length k') by lia.
      by rewrite drop_app_length.
Qed.

Lemma stripQuery_no p : ch_qmark ∉ p -> stripQuery p = p.
Proof. intros H. unfold stripQuery. by rewrite split_on_no. Qed.

Lemma stripQuery_app p q : ch_qmark ∉ p -> stripQuery (p ++ ch_qmark :: q) = p.
Proof. intros H. unfold stripQuery. by rewrite split_on_app. Qed.

Lemma star_in_star : ch_star ∈ js "*".
Proof. by left. Qed.

Lemma star_notin_slash : ch_star ∉ js "/".
Proof. by intros [=]%list_elem_of_singleton. Qed.

(** Decompose a pattern at its first [*]. *)
Lemma star_cases (p : jsstr) :
  (index_of ch_star p = None /\ ch_star ∉ p) \/
  exists i, index_of ch_star p = Some i /\
    p = take i p ++ ch_star :: drop (S i) p /\ ch_star ∉ take i p.
Proof.
  destruct (index_of ch_star p) as [i|] eqn:E.
  - right. exists i. apply index_of_Some in E as (? & ? & ?). eauto.
  - left. split; [done|]. by apply index_of_None.
Qed.

Lemma segmentMatches_spec s p : segmentMatches s p = true <-> SegmentSpec s p.
Proof.
  unfold segmentMatches. destruct (star_cases p) as [(-> & Hp)|(i & -> & Hp & Hpre)].
  - rewrite bool_decide_eq_true. split; [intros ->; by constructor|].
    intros H. inversion H; subst; [done|]. set_solver.
  - rewrite !andb_true_iff, starts_with_spec, ends_with_spec, Nat.leb_le, affixes_split. split.
    + intros (mid & ->). rewrite Hp at 3. by constructor.
    + intros H. rewrite Hp in H. inversion H as [s' Hs|pre suf mid Hpre' E1 E2]; subst.
      * exfalso. set_solver.
      * apply split_first_inj in E2 as [<- <-]; eauto.
Qed.

Lemma removelast_snoc_eq {A} (l : list A) d x :
  l <> [] -> List.last l d = x <-> l <> [] /\ l = removelast l ++ [x].
Proof.
  intros Hl. split.
  - intros <-. split; [done|]. by apply app_removelast_last.
  - intros (_ & ->). by rewrite last_last.
Qed.

(** [segmentWildcardMatches], arm by arm. *)
Lemma segmentWildcardMatches_spec path pattern :
  let segs := split_on ch_slash path in
  let pats := split_on ch_slash pattern in
  segmentWildcardMatches path pattern = true <->
  (exists fixed pre rest, pats = fixed ++ [js "*"] /\ segs = pre ++ rest /\
     rest <> [] /\ Forall2 SegmentSpec pre fixed) \/
  (List.last pats [] <> js "*" /\ Forall2 SegmentSpec segs pats) \/
  (List.last pats [] = [] /\ List.last segs [] <> [] /\
     Forall2 SegmentSpec (segs ++ [[]]) pats).
Proof.
  intros segs pats. unfold segmentWildcardMatches. fold segs pats.
  assert (pats <> []) as Hpats by apply split_on_nil.
  assert (segs <> []) as Hsegs by apply split_on_nil.
  assert (forall l k, (length k <= length l)%nat ->
    forallb (fun i => segmentMatches (nth i l []) (nth i k [])) (seq 0 (length k)) = true
    <-> Forall2 SegmentSpec (take (length k) l) k) as Hloop.
  { intros l k. apply forallb_seq_Forall2, segmentMatches_spec. }
  destruct (decide (List.last pats [] = js "*")) as [Hw|Hw].
  - rewrite (bool_decide_eq_true_2 (_ = [ch_star])) by done.
    rewrite (bool_decide_eq_false_2 (List.last pats [] = [])) by (rewrite Hw; done).
    rewrite andb_false_r. simpl.
    apply removelast_snoc_eq in Hw as (_ & Hw); [|done].
    destruct (Nat.ltb_spec (length segs) (length (removelast pats) + 1)) as [Hl|Hl].
    + split; [done|]. intros [(fx & pre & rest & E1 & E2 & Hr & HF)|[(E & _)|(E & _)]].
      * rewrite E1, removelast_last in Hl. apply Forall2_length in HF.
        rewrite E2, length_app in Hl. destruct rest; simpl in *; [done|lia].
      * rewrite Hw, last_last in E. done.
      * rewrite Hw, last_last in E. done.
    + rewrite Hloop by lia. split.
      * intros HF. left.
        exists (removelast pats), (take (length (removelast pats)) segs),
          (drop (length (removelast pats)) segs).
        rewrite take_drop. split_and!; try done.
        intros E%(f_equal length). rewrite length_drop in E. simpl in E. lia.
      * intros [(fx & pre & rest & E1 & E2 & Hr & HF)|[(E & _)|(E & _)]].
        -- rewrite E1, removelast_last, E2, <- (Forall2_length _ _ _ HF).
           by rewrite take_app_length.
        -- rewrite Hw, last_last in E. done.
        -- rewrite Hw, last_last in E. done.
  - rewrite (bool_decide_eq_false_2 (_ = [ch_star])) by done.
    set (cond := _ && _). set (l := if cond then _ else _).
    assert ((if negb (length l =? length pats)%nat then false else
      forallb (fun i => segmentMatches (nth i l []) (nth i pats [])) (seq 0 (length pats)))
      = true <-> Forall2 SegmentSpec l pats) as ->.
    { destruct (Nat.eqb_spec (length l) (length pats)) as [El|El]; simpl.
      - rewrite Hloop by lia. by rewrite <- El, firstn_all.
      - split; [done|]. by intros ?%Forall2_length. }
    assert (~ exists fixed pre rest, pats = fixed ++ [js "*"] /\ segs = pre ++ rest /\
      rest <> [] /\ Forall2 SegmentSpec pre fixed) as Hno1.
    { intros (fx & ? & ? & E & _). apply Hw. by rewrite E, last_last. }
    subst l. destruct cond eqn:Hc; subst cond.
    + to_prop. split; [auto|]. intros [?|[(_ & HF%Forall2_length)|(_ & _ & ?)]]; [done|lia|done].
    + split; [auto|]. intros [?|[(_ & ?)|(E1 & E2 & HF)]]; [done|done|]. exfalso.
      apply Forall2_length in HF. rewrite length_app in HF. simpl in HF.
      assert (length segs <> 0%nat) by by intros ?%length_zero_iff_nil.
      rewrite !bool_decide_eq_true_2, bool_decide_eq_false_2 in Hc by done.
      cbn [negb] in Hc. rewrite !andb_true_r, andb_false_iff in Hc.
      destruct Hc as [Hc|Hc]; [apply Nat.ltb_ge in Hc|apply Nat.eqb_neq in Hc]; lia.
Qed.

Lemma hasMidPathWildcard_snoc p x : hasMidPathWildcard (p ++ [x]) = has_char ch_star p.
Proof.
  unfold hasMidPathWildcard, drop_last. rewrite length_app. simpl.
  replace (length p + 1 - 1)%nat with (length p) by lia. rewrite take_app_length.
  destruct p; [done|]. simpl. by destruct (length p + 1)%nat eqn:?; [lia|].
Qed.

Lemma hasMidPathWildcard_star p :
  hasMidPathWildcard (p ++ js "*") = has_char ch_star p.
Proof. apply (hasMidPathWildcard_snoc p ch_star). Qed.

Lemma drop_last_app (p q : jsstr) : drop_last (length q) (p ++ q) = p.
Proof.
  unfold drop_last. rewrite length_app.
  replace (length p + length q - length q)%nat with (length p) by lia.
  apply take_app_length.
Qed.

Lemma drop_star p : drop_last 1 (p ++ js "*") = p.
Proof. apply (drop_last_app p (js "*")). Qed.

Lemma drop_slash_star p : drop_last 2 (p ++ js "/*") = p.
Proof. apply (drop_last_app p (js "/*")). Qed.

Lemma slash_star_split p : p ++ js "/*" = (p ++ js "/") ++ js "*".
Proof. by rewrite <- (assoc_L (++)). Qed.

(** The path matcher decides [PathSpec] on the query-free path: the arms of the
    code are exclusive, and each is the constructor it is named after. *)
Lemma pathMatches_complete req pattern :
  PathSpec (stripQuery req) pattern -> pathMatches req pattern = true.
Proof.
  unfold pathMatches. generalize (stripQuery req) as path. intros path H.
  case_bool_decide as Hany; [done|].
  assert (forall p, ch_star ∉ p -> ch_star ∉ p ++ js "/") as Hsl.
  { pose proof star_notin_slash. set_solver. }
  inversion H as [?|? Hs|p k Hs Hne Hns|p Hs|p k Hs|? ? segs rest pats Hm E1 E2 Hr HF
    |? ? Hm Hl HF|? ? Hm E1 E2 HF]; subst; try done.
  - assert (hasMidPathWildcard pattern = false) as ->.
    { destruct pattern as [|x p _] using rev_ind; [done|].
      rewrite hasMidPathWildcard_snoc. apply has_char_false. set_solver. }
    assert (forall q, ends_with (q ++ js "*") pattern = false) as Hend.
    { intros q. apply not_true_iff_false. rewrite ends_with_spec. intros (k & ->).
      apply Hs. rewrite !elem_of_app. auto using star_in_star. }
    pose proof (Hend (js "/")) as E1. change (js "/" ++ js "*") with (js "/*") in E1.
    rewrite E1, (Hend [] : ends_with (js "*") pattern = false). by apply bool_decide_eq_true.
  - rewrite hasMidPathWildcard_star, (proj2 (has_char_false _ _)) by done.
    assert (ends_with (js "/*") (p ++ js "*") = false) as ->.
    { apply not_true_iff_false. rewrite ends_with_spec. intros (q & E).
      apply (Hns q). rewrite slash_star_split in E. by apply app_inj_2 in E as [? _]. }
    rewrite ends_with_app, drop_star. apply starts_with_app.
  - rewrite slash_star_split, hasMidPathWildcard_star, (proj2 (has_char_false _ _)) by auto.
    rewrite <- slash_star_split, ends_with_app, drop_slash_star.
    by rewrite bool_decide_eq_true_2.
  - rewrite slash_star_split, hasMidPathWildcard_star, (proj2 (has_char_false _ _)) by auto.
    rewrite <- slash_star_split, ends_with_app, drop_slash_star.
    rewrite starts_with_app, lookup_app_r, Nat.sub_diag by lia. apply orb_true_r.
  - rewrite Hm. apply segmentWildcardMatches_spec. left. by eexists _, _, _.
  - rewrite Hm. apply segmentWildcardMatches_spec. auto.
  - rewrite Hm. apply segmentWildcardMatches_spec. auto.
Qed.

Lemma pathMatches_sound req pattern :
  pathMatches req pattern = true -> PathSpec (stripQuery req) pattern.
Proof.
  unfold pathMatches. generalize (stripQuery req) as path. intros path.
  case_bool_decide as Hany; [intros _; subst; constructor|].
  destruct (hasMidPathWildcard pattern) eqn:Hm.
  { rewrite segmentWildcardMatches_spec.
    intros [(fx & pre & rest & E1 & E2 & Hr & HF)|[(Hl & HF)|(E1 & E2 & HF)]].
    - by eapply path_glob_deep.
    - by apply path_glob.
    - by apply path_glob_slash. }
  destruct pattern as [|x p _] using rev_ind; [intros ->%bool_decide_eq_true; constructor; set_solver|].
  rewrite hasMidPathWildcard_snoc, has_char_false in Hm.
  destruct (ends_with (js "/*") _) eqn:E1.
  { apply ends_with_spec in E1 as (q & E1). rewrite E1 in *.
    rewrite drop_slash_star.
    assert (ch_star ∉ q) as Hq.
    { rewrite slash_star_split in E1. apply app_inj_2 in E1 as [-> _]; [set_solver|done]. }
    rewrite orb_true_iff, andb_true_iff, !bool_decide_eq_true, starts_with_spec.
    intros [->|((k & ->) & Hk)]; [by constructor|].
    rewrite lookup_app_r, Nat.sub_diag in Hk by lia.
    destruct k as [|y k]; [done|]. injection Hk as ->. by apply (path_under q k). }
  destruct (ends_with (js "*") _) eqn:E2.
  { apply ends_with_spec in E2 as (q & E2). rewrite E2 in *.
    rewrite drop_star, starts_with_spec. intros (k & ->).
    apply app_inj_2 in E2 as [-> _]; [|done]. apply path_prefix; [done| |].
    - by intros ->.
    - intros q' ->. by rewrite <- slash_star_split, ends_with_app in E1. }
  rewrite bool_decide_eq_true. intros ->. apply path_exact.
  rewrite elem_of_app, list_elem_of_singleton. intros [?|<-]; [done|].
  by rewrite (ends_with_app (js "*") p : ends_with (js "*") (p ++ [ch_star]) = true) in E2.
Qed.

Lemma pathMatches_iff req pattern :
  pathMatches req pattern = true <-> PathSpec (stripQuery req) pattern.
Proof. split; auto using pathMatches_sound, pathMatches_complete. Qed.

(** ** Host lemmas *)

Lemma asciiLower_idem s : asciiLower (asciiLower s) = asciiLower s.
Proof.
  unfold asciiLower. rewrite map_map. apply map_ext, ascii_lower_char_idem.
Qed.

Lemma asciiLower_app a b : asciiLower (a ++ b) = asciiLower a ++ asciiLower b.
Proof. apply map_app. Qed.

Lemma length_asciiLower s : length (asciiLower s) = length s.
Proof. apply length_map. Qed.

Lemma lower_star x : ascii_lower_char x = ch_star <-> x = ch_star.
Proof. apply ascii_lower_char_fix. unfold ch_star. lia. Qed.

Lemma lower_dot x : ascii_lower_char x = ch_dot <-> x = ch_dot.
Proof. apply ascii_lower_char_fix. unfold ch_dot. lia. Qed.

(** The slice comparisons of the host matchers, up to ASCII case. *)
Lemma folded_slices h p q :
  ((length p + length q <= length h)%nat /\
   asciiLower (take (length p) h) = asciiLower p) /\
  asciiLower (drop (length h - length q) h) = asciiLower q <->
  exists mid, folded_split h p mid q.
Proof.
  unfold folded_split. rewrite <- slices_split, !length_asciiLower.
  unfold asciiLower. by rewrite firstn_map, skipn_map.
Qed.

Lemma folded_split_length h p mid q :
  folded_split h p mid q -> length h = (length p + length mid + length q)%nat.
Proof.
  intros E%(f_equal length). rewrite !length_app, !length_asciiLower in E. lia.
Qed.

Lemma labelMatches_spec h p : labelMatches h p = true <-> LabelSpec h p.
Proof.
  unfold labelMatches. destruct (Nat.eqb_spec (length h) 0) as [Hh|Hh].
  { apply length_zero_iff_nil in Hh as ->. split; [done|].
    intros H. inversion H as [|? ? mid ? ? ? ? E]; subst; [done|].
    apply folded_split_length in E. destruct mid; simpl in *; [done|lia]. }
  assert (h <> []) as Hne by (by intros ->).
  destruct (star_cases p) as [(-> & Hp)|(i & -> & Hp & Hpre)].
  { rewrite bool_decide_eq_true. split; [by constructor|].
    intros H. inversion H; subst; [done|]. set_solver. }
  assert (LabelSpec h p <-> (ch_star ∉ drop (S i) p) /\
    exists mid, mid <> [] /\ folded_split h (take i p) mid (drop (S i) p)) as ->.
  { split.
    - rewrite Hp at 1. intros H. inversion H as [? ? ? Hs|? pre mid suf Hp' Hs' Hm E1 E0 E2]; subst.
      + exfalso. set_solver.
      + apply split_first_inj in E2 as [<- <-]; eauto.
    - intros (? & mid & ? & ?). rewrite Hp. by eapply label_glob. }
  destruct (has_char ch_star (drop (S i) p)) eqn:Hc.
  { apply has_char_spec in Hc. split; [done|]. by intros []. }
  apply has_char_false in Hc.
  rewrite !andb_true_iff, Nat.ltb_lt, !bool_decide_eq_true. split.
  - intros ((Hl & H1) & H2). split; [done|].
    destruct (proj1 (folded_slices h (take i p) (drop (S i) p))) as (mid & E); [split_and!; auto; lia|].
    exists mid. split; [|done]. intros ->. apply folded_split_length in E. simpl in E. lia.
  - intros (_ & mid & Hm & E). pose proof (folded_split_length _ _ _ _ E) as Hl.
    destruct (proj2 (folded_slices h (take i p) (drop (S i) p)) (ex_intro _ mid E)) as ((_ & ?) & ?).
    split_and!; try done. destruct mid; simpl in *; [done|lia].
Qed.

Lemma multiWildcardMatches_spec h p :
  multiWildcardMatches h p = true <->
  Forall2 LabelSpec (split_on ch_dot h) (split_on ch_dot p).
Proof.
  unfold multiWildcardMatches.
  destruct (Nat.eqb_spec (length (split_on ch_dot h)) (length (split_on ch_dot p))) as [E|E]; simpl.
  - rewrite E. rewrite forallb_seq_Forall2 by (apply labelMatches_spec || lia).
    by rewrite <- E, firstn_all.
  - split; [done|]. by intros ?%Forall2_length.
Qed.

Lemma count_char_star_split p q :
  ch_star ∉ p -> count_char ch_star (p ++ ch_star :: q) = S (count_char ch_star q).
Proof.
  intros H. rewrite count_char_app, (proj2 (count_char_0 ch_star p)) by done. done.
Qed.

(** The host matcher decides [HostSpec]. *)
Lemma hostMatches_iff h p : hostMatches h p = true <-> HostSpec h p.
Proof.
  unfold hostMatches, countChar. destruct (Nat.leb_spec 2 (count_char ch_star p)) as [Hc|Hc].
  { rewrite multiWildcardMatches_spec. split; [by constructor|].
    intros H. inversion H as [? ? Hs|? ? ? ? Hs1 Hs2|]; subst; [..|done].
    - apply count_char_0 in Hs. lia.
    - rewrite count_char_star_split in Hc by done. apply count_char_0 in Hs2. lia. }
  destruct (star_cases p) as [(-> & Hp)|(i & -> & Hp & Hpre)].
  { rewrite bool_decide_eq_true. split; [by constructor|].
    intros H. inversion H; subst; [done| |lia]. set_solver. }
  rewrite !andb_true_iff, Nat.leb_le, !bool_decide_eq_true, folded_slices.
  assert (ch_star ∉ drop (S i) p) as Hsuf.
  { apply count_char_0. rewrite Hp, count_char_star_split in Hc by done. lia. }
  split.
  - intros (mid & E). rewrite Hp. by eapply host_glob.
  - rewrite Hp at 1. intros H. inversion H as [? ? Hs|? pre mid suf Hp' Hs' E1 E0 E2|? ? Hs]; subst.
    + exfalso. set_solver.
    + apply split_first_inj in E2 as [<- <-]; eauto.
    + rewrite <- Hp in Hs. lia.
Qed.

Lemma labelMatches_lower h p :
  labelMatches (asciiLower h) (asciiLower p) = labelMatches h p.
Proof.
  unfold labelMatches. rewrite length_asciiLower. unfold asciiLower at 2.
  rewrite (index_of_map _ _ lower_star). destruct (length h =? 0)%nat; [done|].
  destruct (index_of ch_star p) as [i|]; [|by rewrite !asciiLower_idem].
  unfold asciiLower at 1. rewrite skipn_map, (has_char_map _ _ lower_star).
  destruct (has_char ch_star (drop (S i) p)); [done|].
  unfold asciiLower. repeat rewrite ?firstn_map, ?skipn_map, ?length_map.
  change (map ascii_lower_char) with asciiLower. by rewrite !asciiLower_idem.
Qed.

Lemma nth_lower i (ws : list jsstr) : nth i (map asciiLower ws) [] = asciiLower (nth i ws []).
Proof. apply (map_nth asciiLower ws [] i). Qed.

Lemma multiWildcardMatches_lower h p :
  multiWildcardMatches (asciiLower h) (asciiLower p) = multiWildcardMatches h p.
Proof.
  unfold multiWildcardMatches. unfold asciiLower.
  rewrite !(split_on_map _ _ lower_dot), !length_map. destruct (negb _); [done|].
  change (map (map ascii_lower_char)) with (map asciiLower).
  apply forallb_ext_In. intros i _. by rewrite !nth_lower, labelMatches_lower.
Qed.

(** Host matching sees hosts and patterns up to ASCII case only. *)
Lemma hostMatches_lower h p : hostMatches (asciiLower h) (asciiLower p) = hostMatches h p.
Proof.
  unfold hostMatches, countChar. unfold asciiLower at 1.
  rewrite (count_char_map _ _ lower_star).
  destruct (2 <=? count_char ch_star p)%nat.
  { apply multiWildcardMatches_lower. }
  unfold asciiLower at 3. rewrite (index_of_map _ _ lower_star).
  destruct (index_of ch_star p) as [i|]; [|by rewrite !asciiLower_idem].
  rewrite length_asciiLower. unfold asciiLower.
  repeat rewrite ?firstn_map, ?skipn_map, ?length_map.
  change (map ascii_lower_char) with asciiLower. by rewrite !asciiLower_idem.
Qed.

Lemma hostMatches_fold h h' p p' :
  asciiLower h = asciiLower h' -> asciiLower p = asciiLower p' ->
  hostMatches h p = hostMatches h' p'.
Proof. intros H1 H2. rewrite <- (hostMatches_lower h), H1, H2. apply hostMatches_lower. Qed.

Lemma hostMatches_star h : hostMatches h (js "*") = true.
Proof.
  apply hostMatches_iff. apply (host_glob h [] (asciiLower h) []); [set_solver..|].
  unfold folded_split. by rewrite app_nil_r.
Qed.

Lemma pathMatches_star path : pathMatches path (js "*") = true.
Proof. done. Qed.

(** Only the query-free path matters. *)
Lemma pathMatches_query p q pattern :
  ch_qmark ∉ p -> pathMatches (p ++ ch_qmark :: q) pattern = pathMatches p pattern.
Proof.
  intros H. unfold pathMatches. by rewrite stripQuery_app, stripQuery_no.
Qed.

#[export] Hint Resolve hostMatches_star pathMatches_star : jsdb.

(** The path matcher decides, on the query-free path, the pattern language
    its rules describe: any path; a literal; a raw prefix; a prefix up to a
    slash boundary, the bare prefix included; or segment globs, where a star
    stays within its segment unless it is a whole trailing one, and a pattern
    that ends in a slash also covers the same depth without it. *)
Theorem pathMatches_spec requestPath pattern :
  pathMatches requestPath pattern = true <-> PathSpec (stripQuery requestPath) pattern.
Proof. split; auto using pathMatches_sound, pathMatches_complete. Qed.

(** The host matcher decides, up to ASCII case on both sides, a literal, one
    star between a prefix and a suffix that crosses labels, or, from two stars
    on, a label-by-label match where every star is inside one label and covers
    at least one character. *)
Theorem hostMatches_spec requestHost pattern :
  (hostMatches requestHost pattern = true <-> HostSpec requestHost pattern) /\
  hostMatches (asciiLower requestHost) (asciiLower pattern) = hostMatches requestHost pattern.
Proof. split; [apply hostMatches_iff|apply hostMatches_lower]. Qed.

(** One star may cover nothing, so an apex is reachable through a pattern whose
    star is not followed by a dot. *)
Lemma single_star_covers_nothing :
  hostMatches (js "api.example.com") (js "api*.example.com") = true.
Proof. by vm_compute. Qed.
