(* ===== verification/PolicyTypes.v ===== *)
(** * Policy shapes

    [packages/api/src/services/policy-translation/types.ts] and
    [strictness.ts]: the rule, request, decision and outcome types of the
    first-match engine, and the strictness order its levels are combined by.
    Optional ([?]) and nullable fields are [option]s. *)
From S2P Require Import Prelude.

Inductive RateWindow := minute | hour | day.

Record OldCondition := {
  cond_target : jsstr;
  cond_operator : jsstr;
  cond_value : jsstr;
  cond_key : option jsstr
}.

Inductive Scope := organization | workspace.
Inductive Action := allow | block.

(** The request context the evaluator decides against. *)
Record PolicyRequest := {
  rq_host : jsstr;
  rq_path : jsstr;
  rq_method : jsstr;
  rq_body : option jsstr;
  rq_agentId : jsstr;
  rq_userIds : option (list jsstr);
  rq_groupIds : option (list jsstr);
  rq_hasInjections : bool;
  rq_isLlmHost : bool;
  rq_winningConnectionId : option jsstr
}.

Record Decision := {
  dec_action : Action;
  dec_requireApproval : option bool;
  dec_rateLimit : option Z;
  dec_rateLimitWindow : option RateWindow;
  dec_byDefault : option bool
}.

Inductive NewIdentity :=
| IdAgent (id : jsstr)
| IdUser (id : jsstr)
| IdGroup (id : jsstr).

Inductive RuleSource :=
| src_custom | src_app_permission | src_blocklist | src_default | src_equipment | src_grant.

Inductive NewTarget :=
| TNetwork (hostPattern : jsstr) (pathPattern : option jsstr) (method : option jsstr)
| TApp (provider : jsstr) (tools : list jsstr) (connectionScope : option Scope)
| TConnection (connectionId : jsstr) (provider : option jsstr) (tools : list jsstr)
    (method : option jsstr)
| TSecret (hostPatterns : list jsstr).

Record NewRule := {
  rl_scope : Scope;
  rl_priority : Z;
  rl_isDefault : bool;
  rl_source : RuleSource;
  rl_name : jsstr;
  rl_identities : list NewIdentity;
  rl_targets : list NewTarget;
  rl_action : Action;
  rl_requireApproval : bool;
  rl_rateLimit : option Z;
  rl_rateLimitWindow : option RateWindow;
  rl_conditions : option (list OldCondition)
}.

(** The attributed result of an evaluation. *)
Inductive PolicyOutcome :=
| OutRule (rule : NewRule)
| OutDenyDefault (level : Scope) (rule : option NewRule)
| OutAllow (managed : bool).

(** ** Decidable equality *)

#[export] Instance RateWindow_eq_dec : EqDecision RateWindow.
Proof. solve_decision. Defined.
#[export] Instance Scope_eq_dec : EqDecision Scope.
Proof. solve_decision. Defined.
#[export] Instance Action_eq_dec : EqDecision Action.
Proof. solve_decision. Defined.
#[export] Instance OldCondition_eq_dec : EqDecision OldCondition.
Proof. solve_decision. Defined.
#[export] Instance NewIdentity_eq_dec : EqDecision NewIdentity.
Proof. solve_decision. Defined.
#[export] Instance RuleSource_eq_dec : EqDecision RuleSource.
Proof. solve_decision. Defined.
#[export] Instance NewTarget_eq_dec : EqDecision NewTarget.
Proof. solve_decision. Defined.
#[export] Instance NewRule_eq_dec : EqDecision NewRule.
Proof. solve_decision. Defined.
#[export] Instance PolicyOutcome_eq_dec : EqDecision PolicyOutcome.
Proof. solve_decision. Defined.
#[export] Instance Decision_eq_dec : EqDecision Decision.
Proof. solve_decision. Defined.

(** ** Strictness

    Block > ManualApproval > RateLimit > Allow: the lower rank is stricter. *)
Definition strictnessRank (rule : NewRule) : nat :=
  match rl_action rule with
  | block => 0
  | allow =>
      if rl_requireApproval rule then 1
      else match rl_rateLimit rule with Some _ => 2 | None => 3 end
  end.

Definition is_block (a : Action) : bool := bool_decide (a = block).

Lemma strictnessRank_block r : strictnessRank r = 0%nat <-> rl_action r = block.
Proof.
  unfold strictnessRank. destruct (rl_action r); [|done].
  split; [|done]. by destruct (rl_requireApproval r), (rl_rateLimit r).
Qed.
