(* ===== verification/EndpointMatch.v ===== *)
(** * Endpoint matching

    [packages/api/src/services/policy-translation/endpoint-match.ts]: path,
    method and body conditions of one endpoint pattern, with the git-over-HTTPS
    discovery bridge. *)
From S2P Require Import Prelude PathMatch PolicyTypes.

Record EndpointPattern := {
  ep_pathPattern : jsstr;
  ep_method : option jsstr;
  ep_conditions : option (list OldCondition)
}.

Definition conditionMatches (c : OldCondition) (body : option jsstr) : bool :=
  if bool_decide (cond_target c = js "body") &&
     bool_decide (cond_operator c = js "contains")
  then match body with
       | None => false
       | Some b => includes (asciiLower (cond_value c)) (asciiLower b)
       end
  else true.

Definition conditionsMatch (conditions : option (list OldCondition))
    (body : option jsstr) : bool :=
  match conditions with
  | None | Some [] => true
  | Some cs => forallb (fun c => conditionMatches c body) cs
  end.

(** [/info/refs?service=<pack-service>] *)
Definition isGitDiscovery (path service : jsstr) : bool :=
  let qIdx := index_of ch_qmark path in
  let base := match qIdx with None => path | Some i => take i path end in
  let query := match qIdx with None => [] | Some i => drop (S i) path end in
  ends_with (js "/info/refs") base &&
  existsb (fun p => bool_decide (p = js "service=" ++ service)) (split_on ch_amp query).

Definition GIT_PACK_SERVICES : list jsstr :=
  [js "git-receive-pack"; js "git-upload-pack"].

Definition endpointMatches (request : PolicyRequest) (pattern : EndpointPattern) : bool :=
  let direct :=
    pathMatches (rq_path request) (ep_pathPattern pattern) &&
    match ep_method pattern with
    | None => true
    | Some m => bool_decide (asciiLower m = asciiLower (rq_method request))
    end &&
    conditionsMatch (ep_conditions pattern) (rq_body request) in
  if direct then true
  else if bool_decide (asciiLower (rq_method request) = js "get") then
    match List.find (fun service =>
        ends_with (js "/" ++ service) (ep_pathPattern pattern) &&
        isGitDiscovery (rq_path request) service) GIT_PACK_SERVICES with
    | Some _ => conditionsMatch (ep_conditions pattern) (rq_body request)
    | None => false
    end
  else false.

(** ** Lemmas *)

(** The whole conditions hold iff every one of them does. *)
Lemma conditionsMatch_iff cs body :
  conditionsMatch cs body = true <->
  forall c, c ∈ default [] cs -> conditionMatches c body = true.
Proof.
  destruct cs as [[|c cs]|]; simpl; [set_solver| |set_solver].
  rewrite andb_true_iff, forallb_In. set_solver.
Qed.

(** More conditions match fewer requests. *)
Lemma conditionsMatch_subset cs1 cs2 body :
  (forall c, c ∈ default [] cs1 -> c ∈ default [] cs2) ->
  conditionsMatch cs2 body = true -> conditionsMatch cs1 body = true.
Proof. rewrite !conditionsMatch_iff. auto. Qed.

(** What an endpoint matches once its conditions are set aside: its path and
    method, or the discovery request of the pack service it ends in. *)
Definition endpoint_surface (request : PolicyRequest) (path : jsstr)
    (method : option jsstr) : bool :=
  endpointMatches request
    {| ep_pathPattern := path; ep_method := method; ep_conditions := None |}.

(** The conditions factor out: the bridge honours them as the direct match
    does. *)
Lemma endpointMatches_factor rq p m cs :
  endpointMatches rq {| ep_pathPattern := p; ep_method := m; ep_conditions := cs |} =
  endpoint_surface rq p m && conditionsMatch cs (rq_body rq).
Proof.
  unfold endpoint_surface, endpointMatches.
  cbn [ep_pathPattern ep_method ep_conditions].
  change (conditionsMatch None (rq_body rq)) with true.
  destruct (conditionsMatch cs (rq_body rq)), (pathMatches (rq_path rq) p), (List.find _ _);
    destruct m as [m|]; cbn; try case_bool_decide; cbn; try done; by case_bool_decide.
Qed.

(** ** What an endpoint matches *)

(** A body condition asks for the needle, up to ASCII case; any other condition
    asks nothing. *)
Definition ConditionSpec (body : option jsstr) (c : OldCondition) : Prop :=
  cond_target c = js "body" -> cond_operator c = js "contains" ->
  exists b before after,
    body = Some b /\ asciiLower b = before ++ asciiLower (cond_value c) ++ after.

Definition MethodSpec (method : jsstr) (pattern : option jsstr) : Prop :=
  forall m, pattern = Some m -> asciiLower m = asciiLower method.

(** The direct match, or the discovery request of a git pack service. *)
Inductive EndpointSpec (rq : PolicyRequest) : EndpointPattern -> Prop :=
| endpoint_direct p m cs :
    PathSpec (stripQuery (rq_path rq)) p -> MethodSpec (rq_method rq) m ->
    Forall (ConditionSpec (rq_body rq)) (default [] cs) ->
    EndpointSpec rq {| ep_pathPattern := p; ep_method := m; ep_conditions := cs |}
| endpoint_discovery service pre base query m cs :
    service ∈ GIT_PACK_SERVICES -> asciiLower (rq_method rq) = js "get" ->
    rq_path rq = base ++ ch_qmark :: query -> ch_qmark ∉ base ->
    ends_with (js "/info/refs") base = true ->
    (js "service=" ++ service) ∈ split_on ch_amp query ->
    Forall (ConditionSpec (rq_body rq)) (default [] cs) ->
    EndpointSpec rq {| ep_pathPattern := pre ++ js "/" ++ service; ep_method := m;
                       ep_conditions := cs |}.

Lemma conditionMatches_spec c body : conditionMatches c body = true <-> ConditionSpec body c.
Proof.
  unfold conditionMatches, ConditionSpec.
  destruct (decide (cond_target c = js "body")) as [Ht|Ht];
    [|rewrite bool_decide_eq_false_2 by done; naive_solver].
  destruct (decide (cond_operator c = js "contains")) as [Ho|Ho];
    [|rewrite (bool_decide_eq_false_2 (_ = js "contains")), andb_false_r by done; naive_solver].
  rewrite !bool_decide_eq_true_2 by done. cbn [andb].
  destruct body as [b|]; [rewrite includes_spec|]; split; try naive_solver.
Qed.

Lemma conditionsMatch_spec cs body :
  conditionsMatch cs body = true <-> Forall (ConditionSpec body) (default [] cs).
Proof. rewrite conditionsMatch_iff, Forall_forall. by setoid_rewrite conditionMatches_spec. Qed.

(** [/info/refs?...&service=<service>&...], base and query split at the first
    question mark. *)
Lemma isGitDiscovery_spec path service :
  isGitDiscovery path service = true <->
  exists base query, path = base ++ ch_qmark :: query /\ (ch_qmark ∉ base) /\
    ends_with (js "/info/refs") base = true /\
    (js "service=" ++ service) ∈ split_on ch_amp query.
Proof.
  unfold isGitDiscovery. split.
  - destruct (index_of ch_qmark path) as [i|] eqn:E.
    + apply index_of_Some in E as (Hp & Hq & _).
      intros [He (p & Hin & ->%bool_decide_eq_true)%existsb_In]%andb_true_iff.
      by exists (take i path), (drop (S i) path).
    + intros [_ (p & Hin & Hp%bool_decide_eq_true)%existsb_In]%andb_true_iff.
      apply list_elem_of_singleton in Hin. by subst p.
  - intros (base & query & -> & Hb & He & Hin). rewrite index_of_app by done.
    rewrite take_app_length. change (S (length base)) with (1 + length base)%nat.
    rewrite Nat.add_comm, <- drop_drop, drop_app_length. simpl. rewrite He. cbn [andb].
    apply existsb_In. eexists. split; [done|]. by apply bool_decide_eq_true.
Qed.

Lemma endpointMatches_iff rq pattern :
  endpointMatches rq pattern = true <-> EndpointSpec rq pattern.
Proof.
  destruct pattern as [p m cs]. unfold endpointMatches. cbn [ep_pathPattern ep_method ep_conditions].
  set (meth := match m with None => true | Some _ => _ end).
  assert (meth = true <-> MethodSpec (rq_method rq) m) as Hm.
  { unfold meth, MethodSpec. destruct m; [rewrite bool_decide_eq_true|]; naive_solver. }
  split.
  - destruct (pathMatches _ _ && meth && _) eqn:Hd.
    + intros _. apply andb_true_iff in Hd as [[Hp Hm']%andb_true_iff Hc].
      apply endpoint_direct; [by apply pathMatches_iff|tauto|by apply conditionsMatch_spec].
    + case_bool_decide as Hg; [|done].
      destruct (List.find _ _) as [service|] eqn:Ef; [|done]. intros Hc.
      apply find_some in Ef as [Hs [Hend Hgit]%andb_true_iff].
      apply ends_with_spec in Hend as (pre & ->).
      apply isGitDiscovery_spec in Hgit as (base & query & ? & ? & ? & ?).
      eapply endpoint_discovery; eauto; [by apply list_elem_of_In|by apply conditionsMatch_spec].
  - inversion 1 as [? ? ? Hp Hmm Hc|service pre base query ? ? Hs Hg Hpath Hb He Hin Hc]; subst.
    + apply pathMatches_iff in Hp. apply Hm in Hmm. apply conditionsMatch_spec in Hc.
      by rewrite Hp, Hmm, Hc.
    + destruct (_ && conditionsMatch _ _); [done|]. rewrite bool_decide_eq_true_2 by done.
      destruct (List.find _ _) eqn:Ef; [by apply conditionsMatch_spec|].
      apply list_elem_of_In in Hs. pose proof (find_none _ _ Ef _ Hs) as Hn.
      apply andb_false_iff in Hn as [Hn|Hn]; exfalso; revert Hn; apply eq_true_false_abs.
      * apply ends_with_spec. eauto.
      * apply isGitDiscovery_spec. eauto 10.
Qed.

(** An endpoint pattern matches exactly the requests whose query-free path
    its path pattern covers and whose method and body it accepts, and, for a
    pattern that ends in a git pack service, the discovery request of that
    service; the bridge still asks for the body conditions. *)
Theorem endpointMatches_spec rq pattern :
  endpointMatches rq pattern = true <-> EndpointSpec rq pattern.
Proof. apply endpointMatches_iff. Qed.
