(* ===== verification/JsBytes.v ===== *)
(** * Bytes: [Buffer], UTF-8 and base64

    What the sources use of [Buffer]: big-endian integers, the two text
    encodings and their decoders. A [Buffer] is the list of its bytes; a text
    is its UTF-16 code units ([Prelude.jsstr]), so encoding goes through code
    points, a lone surrogate becoming the replacement character as it does in
    JavaScript. Decoding base64 is lenient in ways Node does not specify for
    malformed input, so [NodeBase64] asks of it only the documented inverse. *)
From S2P Require Import Prelude.
Local Open Scope N_scope.

(** A [Buffer]. *)
Abbreviation bytes := (list N).
Definition is_byte (b : N) : Prop := b < 256.
Definition is_bytes (l : bytes) : Prop := Forall is_byte l.

#[export] Instance is_bytes_dec l : base.Decision (is_bytes l).
Proof. unfold is_bytes, is_byte. apply _. Defined.

Lemma is_bytes_app l k : is_bytes (l ++ k) <-> is_bytes l /\ is_bytes k.
Proof. apply Forall_app. Qed.

(** [buf.subarray(from, to)], for [from <= to <= buf.length]. *)
Definition subarray (from to : nat) (b : bytes) : bytes := take (to - from) (drop from b).

#[global] Arguments subarray : simpl never.

(** ** Big-endian integers *)

(** The [n] bytes of [v]: [writeUInt32BE] for [n = 4], [writeBigUInt64BE] for
    [n = 8]. *)
Fixpoint be_bytes (n : nat) (v : N) : bytes :=
  match n with
  | O => []
  | S m => (v / 256 ^ N.of_nat m) mod 256 :: be_bytes m v
  end.

(** Their value: [readUInt32BE], [readBigUInt64BE]. *)
Definition be_value (l : bytes) : N := fold_left (fun a b => a * 256 + b) l 0.

Lemma length_be_bytes n v : length (be_bytes n v) = n.
Proof. induction n; simpl; auto. Qed.

Lemma be_bytes_is_bytes n v : is_bytes (be_bytes n v).
Proof.
  induction n as [|n IH]; simpl; constructor; [|done]. unfold is_byte. by apply N.mod_lt.
Qed.

Lemma be_value_acc l a :
  fold_left (fun a b => a * 256 + b) l a = a * 256 ^ N.of_nat (length l) + be_value l.
Proof.
  unfold be_value. revert a. induction l as [|b l IH]; intros a; cbn [fold_left length]; [lia|].
  rewrite IH, (IH (0 * 256 + b)), Nat2N.inj_succ, N.pow_succ_r'. lia.
Qed.

Lemma be_value_cons b l : be_value (b :: l) = b * 256 ^ N.of_nat (length l) + be_value l.
Proof. unfold be_value at 1. cbn [fold_left]. rewrite be_value_acc. lia. Qed.

Lemma be_value_lt l : is_bytes l -> be_value l < 256 ^ N.of_nat (length l).
Proof.
  induction 1 as [|b l Hb Hl IH]; [done|]. unfold is_byte in Hb.
  rewrite be_value_cons. cbn [length]. rewrite Nat2N.inj_succ, N.pow_succ_r'. nia.
Qed.

Lemma be_value_be_bytes n v : be_value (be_bytes n v) = v mod 256 ^ N.of_nat n.
Proof.
  induction n as [|n IH]; [by rewrite N.mod_1_r|].
  cbn [be_bytes]. rewrite be_value_cons, length_be_bytes, IH, Nat2N.inj_succ, N.pow_succ_r'.
  rewrite (N.mul_comm 256), N.Div0.mod_mul_r. lia.
Qed.

Lemma be_value_be_bytes_small n v :
  v < 256 ^ N.of_nat n -> be_value (be_bytes n v) = v.
Proof. intros. rewrite be_value_be_bytes. by apply N.mod_small. Qed.

Lemma be_bytes_mod n v : be_bytes n (v mod 256 ^ N.of_nat n) = be_bytes n v.
Proof.
  assert (forall m, (n <= m)%nat -> be_bytes n (v mod 256 ^ N.of_nat m) = be_bytes n v) as H;
    [|by apply H].
  induction n as [|n IH]; intros m Hm; [done|]. cbn [be_bytes]. rewrite IH by lia.
  apply (f_equal2 cons); [|done].
  replace (N.of_nat m) with (N.of_nat n + (1 + N.of_nat (m - S n))) by lia.
  rewrite N.pow_add_r, N.Div0.mod_mul_r.
  rewrite N.mul_comm, N.div_add by (apply N.pow_nonzero; lia).
  rewrite N.div_small by (apply N.mod_lt, N.pow_nonzero; lia).
  rewrite N.add_0_l, N.pow_add_r, N.pow_1_r, N.Div0.mod_mul_r.
  rewrite N.mul_comm, N.Div0.mod_add. by apply N.mod_small, N.mod_lt.
Qed.

Lemma be_bytes_be_value l : is_bytes l -> be_bytes (length l) (be_value l) = l.
Proof.
  induction 1 as [|b l Hb Hl IH]; [done|]. cbn [be_bytes length]. rewrite be_value_cons.
  pose proof (be_value_lt l Hl) as Hlt. apply (f_equal2 cons).
  - rewrite N.div_add_l by (apply N.pow_nonzero; lia).
    rewrite N.div_small by done. rewrite N.add_0_r. by apply N.mod_small.
  - by rewrite <- be_bytes_mod, N.add_comm, N.Div0.mod_add, be_bytes_mod.
Qed.

(** ** Code points *)

Definition is_high (u : N) : bool := (0xD800 <=? u) && (u <=? 0xDBFF).
Definition is_low (u : N) : bool := (0xDC00 <=? u) && (u <=? 0xDFFF).
Definition is_surrogate (u : N) : bool := (0xD800 <=? u) && (u <=? 0xDFFF).

(** [[...s]]: the code points of a string, an unpaired surrogate its own. *)
Fixpoint code_points (s : jsstr) : list N :=
  match s with
  | [] => []
  | u :: s1 =>
      match s1 with
      | v :: s2 =>
          if is_high u && is_low v
          then 0x10000 + (u - 0xD800) * 0x400 + (v - 0xDC00) :: code_points s2
          else u :: code_points s1
      | [] => [u]
      end
  end.

(** The code units of a code point. *)
Definition units_of (c : N) : jsstr :=
  if c <? 0x10000 then [c]
  else [0xD800 + (c - 0x10000) / 0x400; 0xDC00 + (c - 0x10000) mod 0x400].

(** 16-bit units and no unpaired surrogate: [isWellFormed]. *)
Definition well_formed (s : jsstr) : bool :=
  forallb (fun u => u <? 0x10000) s &&
  forallb (fun c => negb (is_surrogate c)) (code_points s).

(** ** UTF-8 *)

Definition replacement : N := 0xFFFD.

(** The bytes of a code point. *)
Definition utf8_char (c : N) : bytes :=
  if c <? 0x80 then [c]
  else if c <? 0x800 then [0xC0 + c / 64; 0x80 + c mod 64]
  else if c <? 0x10000 then [0xE0 + c / 4096; 0x80 + (c / 64) mod 64; 0x80 + c mod 64]
  else [0xF0 + c / 262144; 0x80 + (c / 4096) mod 64; 0x80 + (c / 64) mod 64; 0x80 + c mod 64].

(** [Buffer.from(s, "utf8")] *)
Definition utf8 (s : jsstr) : bytes :=
  flat_map (fun c => utf8_char (if is_surrogate c then replacement else c)) (code_points s).

(** The range of the byte after a lead byte: narrower after [E0], [ED], [F0]
    and [F4] (no overlong form, no surrogate, nothing above [10FFFF]). *)
Definition second_ok (lead b : N) : bool :=
  ((if lead =? 0xE0 then 0xA0 else if lead =? 0xF0 then 0x90 else 0x80) <=? b) &&
  (b <=? (if lead =? 0xED then 0x9F else if lead =? 0xF4 then 0x8F else 0xBF)).
Definition cont_ok (b : N) : bool := (0x80 <=? b) && (b <=? 0xBF).

(** The decoder of the Encoding standard: every maximal ill-formed part is one
    replacement character. *)
Fixpoint utf8_decode (l : bytes) : list N :=
  match l with
  | [] => []
  | a :: l1 =>
      if a <? 0x80 then a :: utf8_decode l1
      else if (0xC2 <=? a) && (a <=? 0xDF) then
        match l1 with
        | b :: l2 =>
            if cont_ok b then (a - 0xC0) * 64 + (b - 0x80) :: utf8_decode l2
            else replacement :: utf8_decode l1
        | [] => [replacement]
        end
      else if (0xE0 <=? a) && (a <=? 0xEF) then
        match l1 with
        | b :: l2 =>
            if second_ok a b then
              match l2 with
              | c :: l3 =>
                  if cont_ok c
                  then (a - 0xE0) * 4096 + (b - 0x80) * 64 + (c - 0x80) :: utf8_decode l3
                  else replacement :: utf8_decode l2
              | [] => [replacement]
              end
            else replacement :: utf8_decode l1
        | [] => [replacement]
        end
      else if (0xF0 <=? a) && (a <=? 0xF4) then
        match l1 with
        | b :: l2 =>
            if second_ok a b then
              match l2 with
              | c :: l3 =>
                  if cont_ok c then
                    match l3 with
                    | d :: l4 =>
                        if cont_ok d
                        then (a - 0xF0) * 262144 + (b - 0x80) * 4096 + (c - 0x80) * 64 + (d - 0x80)
                             :: utf8_decode l4
                        else replacement :: utf8_decode l3
                    | [] => [replacement]
                    end
                  else replacement :: utf8_decode l2
              | [] => [replacement]
              end
            else replacement :: utf8_decode l1
        | [] => [replacement]
        end
      else replacement :: utf8_decode l1
  end.

(** [buf.toString("utf8")] *)
Definition utf8_string (l : bytes) : jsstr := flat_map units_of (utf8_decode l).

Example utf8_ex : utf8 (js "a" ++ [233; 0x20AC; 0xD83D; 0xDE00; 0xD800]) =
  [97; 0xC3; 0xA9; 0xE2; 0x82; 0xAC; 0xF0; 0x9F; 0x98; 0x80; 0xEF; 0xBF; 0xBD].
Proof. reflexivity. Qed.
Example utf8_decode_ex : utf8_decode [0xE2; 0x82; 65; 0xC0; 0xF0; 0x80; 0x80] =
  [replacement; 65; replacement; replacement; replacement; replacement].
Proof. reflexivity. Qed.

(** Every comparison of a translated test, as a proposition. *)
Ltac ncases :=
  repeat match goal with
  | |- context [N.ltb ?a ?b] => destruct (N.ltb_spec a b)
  | |- context [N.leb ?a ?b] => destruct (N.leb_spec a b)
  | |- context [N.eqb ?a ?b] => destruct (N.eqb_spec a b)
  end.
Ltac ndiv := zify; Z.to_euclidean_division_equations; lia.
(** The same, deciding a test by arithmetic where the context does. *)
Ltac ntests :=
  cbn beta in *;
  repeat (match goal with
  | |- context [N.eqb ?a ?b] =>
      first [ rewrite (proj2 (N.eqb_eq a b)) by lia | rewrite (proj2 (N.eqb_neq a b)) by lia
            | destruct (N.eqb_spec a b) ]
  | |- context [N.ltb ?a ?b] =>
      first [ rewrite (proj2 (N.ltb_lt a b)) by lia | rewrite (proj2 (N.ltb_ge a b)) by lia
            | destruct (N.ltb_spec a b) ]
  | |- context [N.leb ?a ?b] =>
      first [ rewrite (proj2 (N.leb_le a b)) by lia | rewrite (proj2 (N.leb_gt a b)) by lia
            | destruct (N.leb_spec a b) ]
  end; cbn [andb orb negb]).

(** Forget what the base-64 digits of [c] are, keeping what is known of them. *)
Ltac abstract_digits :=
  cbn [app utf8_decode];
  repeat match goal with
  | |- context [(?c / ?k) mod 64] => is_var c; generalize dependent ((c / k) mod 64)
  | |- context [?c / ?k] => is_var c; generalize dependent (c / k)
  | |- context [?c mod 64] => is_var c; generalize dependent (c mod 64)
  end; intros.

Definition is_scalar (c : N) : Prop := c < 0x110000 /\ is_surrogate c = false.

Lemma utf8_char_is_bytes c : c < 0x110000 -> is_bytes (utf8_char c).
Proof.
  intros H. unfold utf8_char, is_bytes, is_byte. ncases; repeat constructor; ndiv.
Qed.

Lemma second_ok_E q r :
  q < 16 -> r < 64 -> (q = 0 -> 32 <= r) -> (q = 13 -> r < 32) ->
  second_ok (0xE0 + q) (0x80 + r) = true.
Proof.
  intros Hq Hr H0 H13. unfold second_ok.
  destruct (N.eq_dec q 0) as [E|E]; [specialize (H0 E)|clear H0];
    (destruct (N.eq_dec q 13) as [E'|E']; [specialize (H13 E')|clear H13]); by ntests.
Qed.

Lemma second_ok_F q r :
  q < 5 -> r < 64 -> (q = 0 -> 16 <= r) -> (q = 4 -> r < 16) ->
  second_ok (0xF0 + q) (0x80 + r) = true.
Proof.
  intros Hq Hr H0 H4. unfold second_ok.
  destruct (N.eq_dec q 0) as [E|E]; [specialize (H0 E)|clear H0];
    (destruct (N.eq_dec q 4) as [E'|E']; [specialize (H4 E')|clear H4]); by ntests.
Qed.

Lemma utf8_decode_char c l :
  is_scalar c -> utf8_decode (utf8_char c ++ l) = c :: utf8_decode l.
Proof.
  unfold is_scalar, is_surrogate. intros [H1 H2]. unfold utf8_char.
  destruct (N.ltb_spec c 0x80); [|destruct (N.ltb_spec c 0x800); [|destruct (N.ltb_spec c 0x10000)]].
  - cbn [app utf8_decode]. by ntests.
  - assert (2 <= c / 64 < 32) by ndiv. assert (c mod 64 < 64) by ndiv.
    assert (c = c / 64 * 64 + c mod 64) by ndiv.
    abstract_digits. unfold cont_ok. ntests. f_equal. lia.
  - assert (c / 4096 < 16) by ndiv. assert ((c / 64) mod 64 < 64) by ndiv.
    assert (c mod 64 < 64) by ndiv.
    assert (second_ok (0xE0 + c / 4096) (0x80 + (c / 64) mod 64) = true) as Hs.
    { apply second_ok_E; [done..|ndiv|]. intros E.
      assert (c < 0xD800 \/ 0xDFFF < c) by (revert H2; ntests; done || lia). ndiv. }
    assert (c = c / 4096 * 4096 + (c / 64) mod 64 * 64 + c mod 64) by ndiv.
    abstract_digits. rewrite Hs. clear Hs H2. unfold cont_ok. ntests. f_equal. lia.
  - assert (c / 262144 < 5) by ndiv. assert ((c / 4096) mod 64 < 64) by ndiv.
    assert ((c / 64) mod 64 < 64) by ndiv. assert (c mod 64 < 64) by ndiv.
    assert (second_ok (0xF0 + c / 262144) (0x80 + (c / 4096) mod 64) = true) as Hs.
    { apply second_ok_F; [done|done|ndiv..]. }
    assert (c = c / 262144 * 262144 + (c / 4096) mod 64 * 4096 + (c / 64) mod 64 * 64 + c mod 64)
      by ndiv.
    abstract_digits. rewrite Hs. clear Hs H2. unfold cont_ok. ntests. f_equal. lia.
Qed.

(** Lists two elements at a time. *)
Lemma list_ind2 {A} (P : list A -> Prop) :
  P [] -> (forall x, P [x]) -> (forall x y l, P l -> P (y :: l) -> P (x :: y :: l)) ->
  forall l, P l.
Proof.
  intros H0 H1 H2 l. assert (P l /\ forall x, P (x :: l)) as [? _]; [|done].
  induction l as [|y l [IH1 IH2]]; auto.
Qed.

Lemma code_points_single u v l :
  is_high u && is_low v = false -> code_points (u :: v :: l) = u :: code_points (v :: l).
Proof. intros H. by cbn [code_points]; rewrite H. Qed.

Lemma code_points_pair u v l :
  is_high u && is_low v = true ->
  code_points (u :: v :: l) = 0x10000 + (u - 0xD800) * 0x400 + (v - 0xDC00) :: code_points l.
Proof. intros H. by cbn [code_points]; rewrite H. Qed.

Lemma is_pair u v :
  is_high u && is_low v = true -> 0xD800 <= u <= 0xDBFF /\ 0xDC00 <= v <= 0xDFFF.
Proof. unfold is_high, is_low. rewrite !andb_true_iff, !N.leb_le. lia. Qed.

Lemma units_code_points s :
  Forall (fun u => u < 0x10000) s -> flat_map units_of (code_points s) = s.
Proof.
  induction s as [|u|u v s IH1 IH2] using list_ind2; intros Hs; [done|..].
  - apply Forall_cons in Hs as [Hu _]. simpl. unfold units_of. by ntests.
  - destruct (is_high u && is_low v) eqn:E.
    + rewrite code_points_pair by done. apply is_pair in E as [? ?]. cbn [flat_map].
      rewrite IH1 by (by do 2 apply Forall_cons in Hs as [_ Hs]).
      unfold units_of. ntests. cbn [app]. f_equal; [ndiv|]. f_equal. ndiv.
    + rewrite code_points_single by done. apply Forall_cons in Hs as [Hu Hs].
      cbn [flat_map]. rewrite IH2 by done. unfold units_of. by ntests.
Qed.

Lemma code_points_lt s :
  Forall (fun u => u < 0x10000) s -> Forall (fun c => c < 0x110000) (code_points s).
Proof.
  induction s as [|u|u v s IH1 IH2] using list_ind2; intros Hs; [constructor|..].
  - apply Forall_cons in Hs as [Hu _]. repeat constructor. lia.
  - destruct (is_high u && is_low v) eqn:E.
    + rewrite code_points_pair by done. apply is_pair in E as [? ?]. constructor; [lia|].
      apply IH1. by do 2 apply Forall_cons in Hs as [_ Hs].
    + rewrite code_points_single by done. apply Forall_cons in Hs as [Hu Hs].
      constructor; [lia|auto].
Qed.

Lemma well_formed_spec s :
  well_formed s = true ->
  Forall (fun u => u < 0x10000) s /\ Forall is_scalar (code_points s).
Proof.
  unfold well_formed. rewrite andb_true_iff, !forallb_In. intros [H1 H2].
  assert (Forall (fun u => u < 0x10000) s) as Hs.
  { rewrite Forall_forall. intros u Hu. by apply N.ltb_lt, H1. }
  split; [done|]. pose proof (code_points_lt s Hs) as H3.
  rewrite Forall_forall in H3 |- *. intros c Hc. split; [auto|].
  by apply negb_true_iff, H2.
Qed.

Lemma utf8_decode_chars l k :
  Forall is_scalar l -> utf8_decode (flat_map utf8_char l ++ k) = l ++ utf8_decode k.
Proof.
  induction 1 as [|c l Hc _ IH]; [done|]. cbn [flat_map].
  by rewrite <- app_assoc, utf8_decode_char, IH.
Qed.

Lemma utf8_scalars s :
  Forall is_scalar (code_points s) -> utf8 s = flat_map utf8_char (code_points s).
Proof.
  unfold utf8. induction 1 as [|c l [_ Hc] _ IH]; [done|]. cbn [flat_map]. by rewrite Hc, IH.
Qed.

(** Decoding what was encoded. *)
Lemma utf8_string_utf8 s : well_formed s = true -> utf8_string (utf8 s) = s.
Proof.
  intros [Hu Hc]%well_formed_spec. unfold utf8_string.
  rewrite utf8_scalars by done. pose proof (utf8_decode_chars _ [] Hc) as E.
  change (utf8_decode []) with (@nil N) in E. rewrite !app_nil_r in E. rewrite E.
  by apply units_code_points.
Qed.

Lemma code_points_units l : Forall is_scalar l -> code_points (flat_map units_of l) = l.
Proof.
  induction 1 as [|c l [Hc Hs] _ IH]; [done|]. cbn [flat_map]. unfold is_surrogate in Hs. unfold units_of at 1.
  destruct (N.ltb_spec c 0x10000) as [Hlt|Hge].
  - cbn [app]. destruct (flat_map units_of l) as [|u s] eqn:E; [by rewrite <- IH|].
    rewrite code_points_single, IH; [done|]. unfold is_high. revert Hs. by ntests.
  - cbn [app]. rewrite code_points_pair, IH.
    + f_equal. ndiv.
    + assert ((c - 0x10000) / 0x400 < 0x400) by ndiv. assert ((c - 0x10000) mod 0x400 < 0x400) by ndiv.
      unfold is_high, is_low. rewrite !andb_true_iff, !N.leb_le.
      generalize dependent ((c - 0x10000) / 0x400). generalize dependent ((c - 0x10000) mod 0x400). intros. lia.
Qed.

Lemma utf8_decode_scalars l : Forall is_scalar (utf8_decode l).
Proof.
  assert (forall n l, (length l < n)%nat -> Forall is_scalar (utf8_decode l)) as H; [|apply (H (S (length l))); lia].
  clear l. induction n as [|n IH]; intros l Hl; [lia|]. destruct l as [|a l1]; [constructor|]. cbn [length] in Hl.
  assert (forall k, (length k <= length l1)%nat -> Forall is_scalar (utf8_decode k)) as IHk by (intros; apply IH; lia).
  assert (is_scalar replacement) as Hr by done.
  assert (forall k v, is_scalar v -> (length k <= length l1)%nat -> Forall is_scalar (v :: utf8_decode k)) as Hc by (intros; constructor; [done|by apply IHk]).
  cbn [utf8_decode]. destruct (N.ltb_spec a 0x80).
  { apply Hc; [|lia]. split; [lia|]. unfold is_surrogate. by ntests. }
  destruct ((0xC2 <=? a) && (a <=? 0xDF)) eqn:E2.
  { apply andb_true_iff in E2 as [?%N.leb_le ?%N.leb_le]. destruct l1 as [|b l2]; [by constructor|].
    unfold cont_ok. destruct ((0x80 <=? b) && (b <=? 0xBF)) eqn:Eb; [|by apply Hc]. apply andb_true_iff in Eb as [?%N.leb_le ?%N.leb_le].
    apply Hc; [|cbn; lia]. split; [lia|]. unfold is_surrogate. by ntests. }
  destruct ((0xE0 <=? a) && (a <=? 0xEF)) eqn:E3.
  { apply andb_true_iff in E3 as [?%N.leb_le ?%N.leb_le]. destruct l1 as [|b l2]; [by constructor|].
    destruct (second_ok a b) eqn:Es; [|by apply Hc]. destruct l2 as [|c l3]; [by constructor|].
    unfold cont_ok. destruct ((0x80 <=? c) && (c <=? 0xBF)) eqn:Eb; [|apply Hc; [done|cbn; lia]]. apply andb_true_iff in Eb as [?%N.leb_le ?%N.leb_le].
    apply Hc; [|cbn; lia]. unfold second_ok in Es. apply andb_true_iff in Es as [Es1 Es2].
    destruct (N.eqb_spec a 0xE0), (N.eqb_spec a 0xF0), (N.eqb_spec a 0xED), (N.eqb_spec a 0xF4); try lia;
      apply N.leb_le in Es1, Es2; (split; [lia|]); unfold is_surrogate; apply andb_false_iff; rewrite !N.leb_gt; lia. }
  destruct ((0xF0 <=? a) && (a <=? 0xF4)) eqn:E4; [|by apply Hc].
  apply andb_true_iff in E4 as [?%N.leb_le ?%N.leb_le]. destruct l1 as [|b l2]; [by constructor|].
  destruct (second_ok a b) eqn:Es; [|by apply Hc]. destruct l2 as [|c l3]; [by constructor|].
  unfold cont_ok. destruct ((0x80 <=? c) && (c <=? 0xBF)) eqn:Eb; [|apply Hc; [done|cbn; lia]]. destruct l3 as [|d l4]; [by constructor|].
  destruct ((0x80 <=? d) && (d <=? 0xBF)) eqn:Ed; [|apply Hc; [done|cbn; lia]].
  apply andb_true_iff in Eb as [?%N.leb_le ?%N.leb_le], Ed as [?%N.leb_le ?%N.leb_le].
  apply Hc; [|cbn; lia]. unfold second_ok in Es. apply andb_true_iff in Es as [Es1 Es2].
  destruct (N.eqb_spec a 0xE0), (N.eqb_spec a 0xF0), (N.eqb_spec a 0xED), (N.eqb_spec a 0xF4); try lia;
    apply N.leb_le in Es1, Es2; (split; [lia|]); unfold is_surrogate; apply andb_false_iff; rewrite !N.leb_gt; lia.
Qed.

(** What was decoded encodes and decodes to itself. *)
Lemma utf8_string_again l : utf8_string (utf8 (utf8_string l)) = utf8_string l.
Proof.
  pose proof (utf8_decode_scalars l) as Hl. unfold utf8_string at 1 2 3. rewrite utf8_scalars by by rewrite code_points_units.
  rewrite code_points_units by done. pose proof (utf8_decode_chars _ [] Hl) as E. change (utf8_decode []) with (@nil N) in E.
  rewrite !app_nil_r in E. by rewrite E.
Qed.

Lemma utf8_inj s1 s2 :
  well_formed s1 = true -> well_formed s2 = true -> utf8 s1 = utf8 s2 -> s1 = s2.
Proof.
  intros H1 H2 E. rewrite <- (utf8_string_utf8 s1), <- (utf8_string_utf8 s2) by done.
  by rewrite E.
Qed.

Lemma utf8_is_bytes s : Forall (fun u => u < 0x10000) s -> is_bytes (utf8 s).
Proof.
  intros H%code_points_lt. unfold utf8, is_bytes.
  induction H as [|c l Hc _ IH]; cbn [flat_map]; [constructor|].
  apply Forall_app_2; [|done]. apply utf8_char_is_bytes.
  destruct (is_surrogate c); [done|lia].
Qed.

(** ASCII text is its own encoding. *)
Lemma code_points_ascii s : is_ascii s -> code_points s = s.
Proof.
  induction s as [|u|u v s _ IH] using list_ind2; intros Hs; [done..|].
  rewrite code_points_single; [by rewrite IH by (by apply Forall_cons in Hs as [_ ?])|].
  apply Forall_cons in Hs as [Hu _]. unfold is_high. by ntests.
Qed.

Lemma utf8_ascii s : is_ascii s -> utf8 s = s.
Proof.
  intros Hs. unfold utf8. rewrite code_points_ascii by done.
  induction Hs as [|c l Hc _ IH]; [done|]. cbn [flat_map]. rewrite IH.
  assert (is_surrogate c = false) as -> by (unfold is_surrogate; by ntests).
  unfold utf8_char. by ntests.
Qed.

Lemma well_formed_ascii s : is_ascii s -> well_formed s = true.
Proof.
  intros Hs. unfold well_formed. rewrite code_points_ascii by done.
  unfold is_ascii in Hs. rewrite Forall_forall in Hs.
  apply andb_true_iff. split; apply forallb_In; intros u Hu%Hs; unfold is_surrogate; by ntests.
Qed.

Lemma second_ok_ge a b :
  second_ok a b = true -> 128 <= b /\ (a = 0xE0 -> 160 <= b) /\ (a = 0xF0 -> 144 <= b).
Proof.
  unfold second_ok. rewrite andb_true_iff, !N.leb_le. intros [H _]. revert H.
  destruct (N.eqb_spec a 0xE0); [lia|]. destruct (N.eqb_spec a 0xF0); lia.
Qed.

Lemma cont_ok_ge b : cont_ok b = true -> 128 <= b.
Proof. unfold cont_ok. rewrite andb_true_iff, !N.leb_le. lia. Qed.

Lemma utf8_decode_cons_nonascii a l :
  128 <= a -> exists c k, utf8_decode (a :: l) = c :: k /\ 128 <= c.
Proof.
  intros Ha. cbn [utf8_decode]. unfold replacement.
  repeat match goal with
  | |- context [if ?x then _ else _] => destruct x eqn:?
  | |- context [match ?x with _ => _ end] => is_var x; destruct x
  end; eexists _, _; (split; [reflexivity|]); to_prop;
    repeat match goal with
    | H : second_ok _ _ = true |- _ => apply second_ok_ge in H as (? & ? & ?)
    | H : cont_ok _ = true |- _ => apply cont_ok_ge in H
    | H : N.leb _ _ = true |- _ => apply N.leb_le in H
    end; lia.
Qed.

(** Bytes that decode to ASCII text are that text. *)
Lemma utf8_decode_ascii l :
  Forall (fun c => c < 128) (utf8_decode l) -> utf8_decode l = l.
Proof.
  induction l as [|a l IH]; [done|]. intros H. destruct (N.lt_ge_cases a 128) as [Ha|Ha].
  - revert H. cbn [utf8_decode]. rewrite (proj2 (N.ltb_lt a 0x80)) by done.
    intros [_ H]%Forall_cons. by rewrite IH.
  - destruct (utf8_decode_cons_nonascii a l Ha) as (c & k & E & Hc).
    rewrite E in H. apply Forall_cons in H as [? _]. lia.
Qed.

Lemma units_of_ascii l s : flat_map units_of l = s -> is_ascii s -> l = s.
Proof.
  intros <-. induction l as [|c l IH]; [done|]. cbn [flat_map]. intros H.
  apply Forall_app in H as [Hc Hl]. revert Hc. unfold units_of.
  destruct (N.ltb_spec c 0x10000); cbn [app]; intros Hc.
  - f_equal. by apply IH.
  - apply Forall_cons in Hc as [Hc _]. cbn beta in Hc. ndiv.
Qed.

Lemma utf8_string_ascii l s : utf8_string l = s -> is_ascii s -> l = s.
Proof.
  intros E Hs. apply units_of_ascii in E; [|done]. subst s. symmetry.
  by apply utf8_decode_ascii.
Qed.

Lemma utf8_string_ascii_id s : is_ascii s -> utf8_string s = s.
Proof.
  intros Hs. rewrite <- (utf8_ascii s) at 1 by done.
  by apply utf8_string_utf8, well_formed_ascii.
Qed.

(** ** Base64 *)

(** The alphabet, and the value of a character in it (Node reads the URL-safe
    letters too). *)
Definition b64_char (v : N) : N :=
  if v <? 26 then 65 + v else if v <? 52 then 97 + (v - 26)
  else if v <? 62 then 48 + (v - 52) else if v =? 62 then 43 else 47.
Definition b64_value (c : N) : option N :=
  if (65 <=? c) && (c <=? 90) then Some (c - 65)
  else if (97 <=? c) && (c <=? 122) then Some (c - 97 + 26)
  else if (48 <=? c) && (c <=? 57) then Some (c - 48 + 52)
  else if (c =? 43) || (c =? 45) then Some 62
  else if (c =? 47) || (c =? 95) then Some 63 else None.
Definition ch_equals : N := 61.

(** [buf.toString("base64")] *)
Fixpoint to_base64 (l : bytes) : jsstr :=
  match l with
  | [] => []
  | [a] => [b64_char (a / 4); b64_char (a mod 4 * 16); ch_equals; ch_equals]
  | [a; b] =>
      [b64_char (a / 4); b64_char (a mod 4 * 16 + b / 16); b64_char (b mod 16 * 4); ch_equals]
  | a :: b :: c :: l' =>
      b64_char (a / 4) :: b64_char (a mod 4 * 16 + b / 16)
      :: b64_char (b mod 16 * 4 + c / 64) :: b64_char (c mod 64) :: to_base64 l'
  end.

(** [Buffer.from(s, "base64")]: what the sources rely on is that it reads back
    what [toString("base64")] wrote, and yields bytes. *)
Class NodeBase64 := {
  from_base64 : jsstr -> bytes;
  from_base64_is_bytes s : is_bytes (from_base64 s);
  from_base64_to_base64 l : is_bytes l -> from_base64 (to_base64 l) = l
}.

(** A decoder that skips what is not in the alphabet. *)
Fixpoint b64_groups (vs : list N) : bytes :=
  match vs with
  | a :: b :: c :: d :: vs' =>
      (a * 4 + b / 16) mod 256 :: (b mod 16 * 16 + c / 4) mod 256 :: (c mod 4 * 64 + d) mod 256
      :: b64_groups vs'
  | [a; b; c] => [(a * 4 + b / 16) mod 256; (b mod 16 * 16 + c / 4) mod 256]
  | [a; b] => [(a * 4 + b / 16) mod 256]
  | _ => []
  end.
Definition b64_decode (s : jsstr) : bytes := b64_groups (omap b64_value s).

Lemma b64_value_char v : v < 64 -> b64_value (b64_char v) = Some v.
Proof.
  intros H. unfold b64_char. ntests; unfold b64_value; ntests; done || (f_equal; lia).
Qed.

Lemma list_ind3 {A} (P : list A -> Prop) :
  P [] -> (forall x, P [x]) -> (forall x y, P [x; y]) ->
  (forall x y z l, P l -> P (x :: y :: z :: l)) -> forall l, P l.
Proof.
  intros H0 H1 H2 H3 l.
  assert (P l /\ (forall x, P (x :: l)) /\ forall x y, P (x :: y :: l)) as [? _]; [|done].
  induction l as [|y l (IH1 & IH2 & IH3)]; auto.
Qed.

Lemma b64_groups_is_bytes vs : is_bytes (b64_groups vs).
Proof.
  unfold is_bytes, is_byte. revert vs. fix IH 1. intros [|a [|b [|c [|d vs]]]]; cbn [b64_groups];
    repeat constructor; try (by apply N.mod_lt). apply IH.
Qed.

Lemma b64_decode_to_base64 l : is_bytes l -> b64_decode (to_base64 l) = l.
Proof.
  unfold b64_decode, is_bytes, is_byte.
  induction l as [|a|a b|a b c l IH] using list_ind3; intros Hl; [done|..];
    repeat match goal with H : Forall _ (_ :: _) |- _ => apply Forall_cons in H as [? H] end;
    cbn [to_base64 omap list_omap]; change (b64_value ch_equals) with (@None N);
    rewrite ?b64_value_char by ndiv; cbn [b64_groups].
  - f_equal. ndiv.
  - f_equal; [ndiv|]. f_equal. ndiv.
  - rewrite (IH Hl). f_equal; [ndiv|]. f_equal; [ndiv|]. f_equal. ndiv.
Qed.

Definition node_base64 : NodeBase64 :=
  {| from_base64 := b64_decode;
     from_base64_is_bytes := fun s => b64_groups_is_bytes _;
     from_base64_to_base64 := b64_decode_to_base64 |}.

(** Base64 text holds no white space. *)
Lemma b64_char_no_space v : is_js_space (b64_char v) = false.
Proof. unfold b64_char. ntests; unfold is_js_space; ntests; done || lia. Qed.

Lemma to_base64_no_space l : Forall (fun c => is_js_space c = false) (to_base64 l).
Proof.
  induction l as [|a|a b|a b c l IH] using list_ind3; cbn [to_base64];
    repeat constructor; auto using b64_char_no_space.
Qed.

Lemma length_to_base64 l : N.of_nat (length (to_base64 l)) = (N.of_nat (length l) + 2) / 3 * 4.
Proof.
  induction l as [|a|a b|a b c l IH] using list_ind3; [done..|]. cbn [to_base64 length].
  rewrite !Nat2N.inj_succ, IH. ndiv.
Qed.

Lemma to_base64_nil l : to_base64 l = [] -> l = [].
Proof. by destruct l as [|a [|b [|c l]]]. Qed.

Section Base64.
Context `{NodeBase64}.

Lemma to_base64_inj l1 l2 :
  is_bytes l1 -> is_bytes l2 -> to_base64 l1 = to_base64 l2 -> l1 = l2.
Proof.
  intros H1 H2 E. rewrite <- (from_base64_to_base64 l1), <- (from_base64_to_base64 l2) by done.
  by rewrite E.
Qed.
End Base64.

(** ** Words of a line *)

(** [s.split(/\s+/)]: never an empty array; a run of white space is one
    separator. *)
Fixpoint split_spaces (s : jsstr) : list jsstr :=
  match s with
  | [] => [[]]
  | c :: s' =>
      if is_js_space c then
        match s' with
        | d :: _ => if is_js_space d then split_spaces s' else [] :: split_spaces s'
        | [] => [[]; []]
        end
      else match split_spaces s' with
           | [] => [[c]]
           | w :: ws => (c :: w) :: ws
           end
  end.

Definition no_space (s : jsstr) : Prop := Forall (fun c => is_js_space c = false) s.

Lemma split_spaces_word w : no_space w -> split_spaces w = [w].
Proof. induction 1 as [|c w Hc _ IH]; [done|]. cbn [split_spaces]. by rewrite Hc, IH. Qed.

Lemma split_spaces_app w c s :
  no_space w -> is_js_space c = true ->
  exists ws, split_spaces (w ++ c :: s) = w :: ws.
Proof.
  intros Hw Hc. induction Hw as [|x w Hx _ [ws IH]]; cbn [app split_spaces].
  - rewrite Hc. revert c Hc. induction s as [|d s IH]; intros c Hc; [by eexists|].
    destruct (is_js_space d) eqn:Hd; [|by eexists].
    cbn [split_spaces]. rewrite Hd. by apply (IH d).
  - rewrite Hx, IH. by eexists.
Qed.

Lemma split_spaces_two w1 w2 s :
  no_space w1 -> no_space w2 -> w2 <> [] ->
  (s = [] \/ exists c s', s = c :: s' /\ is_js_space c = true) ->
  exists ws, split_spaces (w1 ++ 32 :: w2 ++ s) = w1 :: w2 :: ws.
Proof.
  intros H1 H2 Hn Hs.
  assert (exists ws, split_spaces (w2 ++ s) = w2 :: ws) as [ws E].
  { destruct Hs as [->|(c & s' & -> & Hc)]; [|by apply split_spaces_app].
    rewrite app_nil_r, split_spaces_word by done. by eexists. }
  exists ws. induction H1 as [|x w1 Hx _ IH]; cbn [app split_spaces]; [|by rewrite Hx, IH].
  destruct w2 as [|d w2]; [done|]. apply Forall_cons in H2 as [Hd _].
  by cbn [app] in *; rewrite Hd, E.
Qed.

Lemma trim_start_app s t :
  trim_start (s ++ t) = if forallb is_js_space s then trim_start t else trim_start s ++ t.
Proof.
  induction s as [|c s IH]; cbn [app trim_start forallb]; [done|].
  destruct (is_js_space c); [|done]. by rewrite IH.
Qed.

Lemma trim_start_no_space s : no_space s -> trim_start s = s.
Proof. by destruct 1 as [|c s Hc _]; cbn [trim_start]; rewrite ?Hc. Qed.

Lemma trim_start_suffix s : exists p, s = p ++ trim_start s.
Proof.
  induction s as [|c s [p IH]]; cbn [trim_start]; [by exists []|].
  destruct (is_js_space c); [|by exists []]. exists (c :: p). cbn [app]. by rewrite <- IH.
Qed.

(** A line of two words and whatever follows a space reads back as them. *)
Lemma split_trim_line w1 w2 s :
  no_space w1 -> w1 <> [] -> no_space w2 -> w2 <> [] ->
  (s = [] \/ exists s', s = 32 :: s') ->
  exists ws, split_spaces (trim (w1 ++ 32 :: w2 ++ s)) = w1 :: w2 :: ws.
Proof.
  intros H1 N1 H2 N2 Hs. unfold trim.
  assert (forall w t, no_space w -> w <> [] -> trim_start (w ++ t) = w ++ t) as Hstart.
  { intros [|c w] t Hw Hn; [done|]. apply Forall_cons in Hw as [Hc _].
    cbn [app trim_start]. by rewrite Hc. }
  rewrite Hstart by done. change (32 :: w2 ++ s) with ([32] ++ w2 ++ s).
  rewrite (app_assoc w1), (app_assoc _ w2), rev_app_distr, trim_start_app.
  destruct (forallb is_js_space (rev s)) eqn:E.
  - rewrite rev_app_distr, Hstart;
      [|by apply Forall_rev|intros Hw%(f_equal (@rev N)); by rewrite rev_involutive in Hw].
    rewrite <- rev_app_distr, rev_involutive, <- app_assoc.
    destruct (split_spaces_two w1 w2 [] H1 H2 N2) as [ws Hws]; [by left|].
    rewrite app_nil_r in Hws. by exists ws.
  - rewrite rev_app_distr, rev_involutive, <- !app_assoc. cbn [app].
    apply split_spaces_two; [done..|].
    destruct Hs as [->|[s' ->]]; [done|]. right.
    destruct (trim_start_suffix (rev (32 :: s'))) as [p Hp].
    apply (f_equal (@rev N)) in Hp. rewrite rev_involutive, rev_app_distr in Hp.
    destruct (rev (trim_start (rev (32 :: s')))) as [|c t] eqn:Et.
    + exfalso. apply (f_equal (@rev N)) in Et. rewrite rev_involutive in Et.
      assert (forall l, trim_start l = [] -> forallb is_js_space l = true) as Hall.
      { induction l as [|x l IH]; [done|]. cbn [trim_start forallb].
        destruct (is_js_space x); [auto|done]. }
      rewrite Hall in E; done.
    + exists c, t. split; [done|]. cbn [app] in Hp. by injection Hp as <- _.
Qed.

#[global] Arguments utf8 : simpl never.
#[global] Arguments utf8_string : simpl never.
#[global] Arguments to_base64 : simpl never.

(** ** Trimmed text

    A text is trimmed when it neither begins nor ends with space. *)

Definition blank (s : jsstr) : bool := forallb is_js_space s.

Definition opens_dark (s : jsstr) : Prop := match s with [] => True | c :: _ => is_js_space c = false end.

Lemma trim_start_opens s : opens_dark (trim_start s).
Proof. induction s as [|c s IH]; cbn; [done|]. destruct (is_js_space c) eqn:E; [done|]. by cbn. Qed.

Lemma trim_start_fix s : opens_dark s -> trim_start s = s.
Proof. destruct s as [|c s]; cbn; [done|]. by intros ->. Qed.

Lemma trim_start_blank_app s t : blank s = true -> trim_start (s ++ t) = trim_start t.
Proof. intros H. rewrite trim_start_app. unfold blank in H. by rewrite H. Qed.

Lemma trim_start_elem c s : c ∈ trim_start s -> c ∈ s.
Proof. destruct (trim_start_suffix s) as [p Hp]. rewrite Hp at 2. set_solver. Qed.

Definition closes_dark (s : jsstr) : Prop := opens_dark (rev s).

Definition trim_end (s : jsstr) : jsstr := rev (trim_start (rev s)).

Lemma trim_alt s : trim s = trim_end (trim_start s).
Proof. done. Qed.

Lemma trim_end_prefix s : exists q, s = trim_end s ++ q.
Proof.
  unfold trim_end. destruct (trim_start_suffix (rev s)) as [p Hp]. exists (rev p).
  rewrite <- rev_app_distr, <- Hp. by rewrite rev_involutive.
Qed.

Lemma trim_end_fix s : closes_dark s -> trim_end s = s.
Proof. intros H. unfold trim_end. by rewrite trim_start_fix, rev_involutive. Qed.

Lemma trim_end_opens s : opens_dark s -> opens_dark (trim_end s).
Proof.
  destruct (trim_end_prefix s) as [q Hq]. destruct (trim_end s) as [|c t]; [done|]. rewrite Hq. done.
Qed.

Lemma trim_opens s : opens_dark (trim s).
Proof. rewrite trim_alt. apply trim_end_opens, trim_start_opens. Qed.

Lemma trim_closes s : closes_dark (trim s).
Proof. unfold closes_dark, trim. rewrite rev_involutive. apply trim_start_opens. Qed.

Lemma trim_fix s : opens_dark s -> closes_dark s -> trim s = s.
Proof. intros Ho Hc. rewrite trim_alt, trim_start_fix by done. by apply trim_end_fix. Qed.

Lemma trim_idem s : trim (trim s) = trim s.
Proof. apply trim_fix; [apply trim_opens|apply trim_closes]. Qed.

Lemma trimmed_ends s : trim s = s -> opens_dark s /\ closes_dark s.
Proof. intros <-. split; [apply trim_opens|apply trim_closes]. Qed.

Lemma trim_elem c s : c ∈ trim s -> c ∈ s.
Proof.
  unfold trim. intros H%list_elem_of_In%in_rev%list_elem_of_In%trim_start_elem%list_elem_of_In%in_rev%list_elem_of_In. by apply trim_start_elem.
Qed.

(** Space around a trimmed text goes. *)
Lemma trim_pad a t b : blank a = true -> blank b = true -> trim t = t -> trim (a ++ t ++ b) = t.
Proof.
  intros Ha Hb [Ho Hc]%trimmed_ends. rewrite trim_alt, trim_start_blank_app by done.
  destruct t as [|c t]; cbn [app].
  - unfold trim_end. assert (trim_start b = []) as ->; [|done].
    rewrite <- (app_nil_r b), trim_start_blank_app by done. done.
  - rewrite (trim_start_fix (c :: t ++ b)) by done. unfold trim_end.
    change (c :: t ++ b) with ((c :: t) ++ b). rewrite rev_app_distr, trim_start_blank_app.
    + rewrite trim_start_fix by exact Hc. by rewrite rev_involutive.
    + unfold blank in *. apply forallb_forall. intros x Hx%in_rev. by apply (proj1 (forallb_forall _ _) Hb).
Qed.

(** A text that opens with a dark character keeps it. *)
Lemma trim_cons c s : is_js_space c = false -> exists t, trim (c :: s) = c :: t.
Proof.
  intros Hc. rewrite trim_alt, trim_start_fix by done.
  destruct (trim_end_prefix (c :: s)) as [q Hq]. destruct (trim_end (c :: s)) as [|d t] eqn:E; [|injection Hq as <- _; by eexists].
  exfalso. cbn [app] in Hq. subst q. unfold trim_end in E. apply (f_equal (@rev N)) in E. rewrite rev_involutive in E. cbn [rev] in E.
  rewrite trim_start_app in E. destruct (forallb is_js_space (rev s)).
  - cbn [trim_start] in E. by rewrite Hc in E.
  - by destruct (trim_start (rev s)).
Qed.

Lemma trim_blank s : blank s = true -> trim s = [].
Proof. intros H. rewrite <- (app_nil_r s). change (s ++ []) with (s ++ [] ++ []). by apply trim_pad. Qed.
