(* ===== verification/JsJson.v ===== *)
(** * JSON values, [JSON.parse] and [JSON.stringify]

    The sources parse request bodies with [JSON.parse] and hold stored policy
    values as JSON. A parsed object keeps its members as they occur, duplicates
    included; the property lookup of the resulting object is the last
    occurrence. Numbers keep their text: no source modelled here reads one. The last part is
    the text of a value as [JSON.stringify] writes it. *)
From S2P Require Import Prelude JsBytes.

#[warnings="-register-all"]
Inductive json :=
| JNull
| JBool (b : bool)
| JNum (raw : jsstr)
| JStr (s : jsstr)
| JArr (items : list json)
| JObj (members : list (jsstr * json)).

(** A literal that holds double quotes, written with backquotes for them. *)
Definition jsq (s : String.string) : jsstr := replace_all 96 [34%N] (js s).
Arguments jsq s%_string_scope.

(** [(o as Record<string, unknown>)[key]] on a parsed object: last wins. *)
Definition obj_get (key : jsstr) (members : list (jsstr * json)) : option json :=
  snd <$> List.find (fun m => bool_decide (m.1 = key)) (rev members).

(** [(c as Record<string, unknown>)[key]] on any value; [None] is
    [undefined], also what a value that is no plain object gives. *)
Definition json_prop (key : jsstr) (c : json) : option json :=
  match c with JObj members => obj_get key members | _ => None end.

Definition ch_quote : N := 34.
Definition ch_backslash : N := 92.
Definition ch_lbrace : N := 123.
Definition ch_rbrace : N := 125.
Definition ch_lbrack : N := 91.
Definition ch_rbrack : N := 93.
Definition ch_minus : N := 45.
Definition ch_zero : N := 48.

Definition is_json_ws (c : N) : bool :=
  N.eqb c 32 || N.eqb c 9 || N.eqb c 10 || N.eqb c 13.

Definition is_digit (c : N) : bool := ((48 <=? c) && (c <=? 57))%N.

Definition hex_val (c : N) : option N :=
  (if (48 <=? c) && (c <=? 57) then Some (c - 48)
   else if (97 <=? c) && (c <=? 102) then Some (c - 87)
   else if (65 <=? c) && (c <=? 70) then Some (c - 55)
   else None)%N.

Fixpoint skip_ws (s : jsstr) : jsstr :=
  match s with
  | c :: s' => if is_json_ws c then skip_ws s' else s
  | [] => []
  end.

(** The character a one-letter escape stands for. *)
Definition simple_escape (e : N) : option N :=
  (if (e =? 34) || (e =? 92) || (e =? 47) then Some e
   else if e =? 98 then Some 8
   else if e =? 102 then Some 12
   else if e =? 110 then Some 10
   else if e =? 114 then Some 13
   else if e =? 116 then Some 9
   else None)%N.

(** The body of a string literal after its opening quote: its value and the
    text after the closing quote. *)
Fixpoint parse_string (s : jsstr) : option (jsstr * jsstr) :=
  match s with
  | [] => None
  | c :: s1 =>
      if N.eqb c ch_quote then Some ([], s1)
      else if N.eqb c ch_backslash then
        match s1 with
        | [] => None
        | e :: s2 =>
            if N.eqb e 117 then
              match s2 with
              | h1 :: h2 :: h3 :: h4 :: s3 =>
                  match hex_val h1, hex_val h2, hex_val h3, hex_val h4, parse_string s3 with
                  | Some a, Some b, Some c', Some d, Some (v, rest) =>
                      Some ((((a * 16 + b) * 16 + c') * 16 + d)%N :: v, rest)
                  | _, _, _, _, _ => None
                  end
              | _ => None
              end
            else match simple_escape e, parse_string s2 with
                 | Some x, Some (v, rest) => Some (x :: v, rest)
                 | _, _ => None
                 end
        end
      else if N.ltb c 32 then None
      else match parse_string s1 with
           | Some (v, rest) => Some (c :: v, rest)
           | None => None
           end
  end.

(** The longest run of digits. *)
Fixpoint take_digits (s : jsstr) : jsstr * jsstr :=
  match s with
  | c :: s' =>
      if is_digit c then let '(d, r) := take_digits s' in (c :: d, r) else ([], s)
  | [] => ([], [])
  end.

(** A fraction, when there is one. *)
Definition parse_frac (s : jsstr) : option (jsstr * jsstr) :=
  match s with
  | c :: s' =>
      if N.eqb c ch_dot then
        match take_digits s' with
        | ([], _) => None
        | (d, r) => Some (c :: d, r)
        end
      else Some ([], s)
  | [] => Some ([], [])
  end.

(** An exponent, when there is one. *)
Definition parse_exp (s : jsstr) : option (jsstr * jsstr) :=
  match s with
  | c :: s1 =>
      if N.eqb c 101 || N.eqb c 69 then
        let '(sign, s2) :=
          match s1 with
          | x :: s2 => if N.eqb x ch_plus || N.eqb x ch_minus then ([x], s2) else ([], s1)
          | [] => ([], s1)
          end in
        match take_digits s2 with
        | ([], _) => None
        | (d, r) => Some (c :: sign ++ d, r)
        end
      else Some ([], s)
  | [] => Some ([], [])
  end.

(** Sign and integer part: a leading zero stands alone. *)
Definition parse_int (s : jsstr) : option (jsstr * jsstr) :=
  match s with
  | c :: s' =>
      if N.eqb c ch_zero then Some ([c], s')
      else match take_digits s with
           | ([], _) => None
           | (d, r) => Some (d, r)
           end
  | [] => None
  end.

Definition parse_number (s : jsstr) : option (jsstr * jsstr) :=
  let '(sign, s0) :=
    match s with
    | c :: s' => if N.eqb c ch_minus then ([c], s') else ([], s)
    | [] => ([], [])
    end in
  match parse_int s0 with
  | None => None
  | Some (i, s1) =>
      match parse_frac s1 with
      | None => None
      | Some (f, s2) =>
          match parse_exp s2 with
          | None => None
          | Some (e, s3) => Some (sign ++ i ++ f ++ e, s3)
          end
      end
  end.

(** One value at the start of the text, and the text after it. The fuel bounds
    the nesting of values. *)
Fixpoint parse_value (fuel : nat) (s : jsstr) : option (json * jsstr) :=
  match fuel with
  | 0%nat => None
  | S n =>
      match s with
      | [] => None
      | c :: s1 =>
          if N.eqb c ch_quote then
            match parse_string s1 with
            | Some (v, r) => Some (JStr v, r)
            | None => None
            end
          else if N.eqb c ch_lbrace then
            match skip_ws s1 with
            | [] => None
            | d :: s2 =>
                if N.eqb d ch_rbrace then Some (JObj [], s2)
                else match parse_members n (d :: s2) with
                     | Some (ms, r) => Some (JObj ms, r)
                     | None => None
                     end
            end
          else if N.eqb c ch_lbrack then
            match skip_ws s1 with
            | [] => None
            | d :: s2 =>
                if N.eqb d ch_rbrack then Some (JArr [], s2)
                else match parse_items n (d :: s2) with
                     | Some (vs, r) => Some (JArr vs, r)
                     | None => None
                     end
            end
          else if starts_with (js "true") s then Some (JBool true, drop 4 s)
          else if starts_with (js "false") s then Some (JBool false, drop 5 s)
          else if starts_with (js "null") s then Some (JNull, drop 4 s)
          else match parse_number s with
               | Some (t, r) => Some (JNum t, r)
               | None => None
               end
      end
  end
with parse_members (fuel : nat) (s : jsstr) : option (list (jsstr * json) * jsstr) :=
  match fuel with
  | 0%nat => None
  | S n =>
      match s with
      | [] => None
      | c :: s1 =>
          if negb (N.eqb c ch_quote) then None
          else match parse_string s1 with
          | None => None
          | Some (k, s2) =>
              match skip_ws s2 with
              | [] => None
              | d :: s3 =>
                  if negb (N.eqb d ch_colon) then None
                  else match parse_value n (skip_ws s3) with
                  | None => None
                  | Some (v, s4) =>
                      match skip_ws s4 with
                      | [] => None
                      | e :: s5 =>
                          if N.eqb e ch_comma then
                            match parse_members n (skip_ws s5) with
                            | Some (ms, r) => Some ((k, v) :: ms, r)
                            | None => None
                            end
                          else if N.eqb e ch_rbrace then Some ([(k, v)], s5)
                          else None
                      end
                  end
              end
          end
      end
  end
with parse_items (fuel : nat) (s : jsstr) : option (list json * jsstr) :=
  match fuel with
  | 0%nat => None
  | S n =>
      match parse_value n s with
      | None => None
      | Some (v, s1) =>
          match skip_ws s1 with
          | [] => None
          | e :: s2 =>
              if N.eqb e ch_comma then
                match parse_items n (skip_ws s2) with
                | Some (vs, r) => Some (v :: vs, r)
                | None => None
                end
              else if N.eqb e ch_rbrack then Some ([v], s2)
              else None
          end
      end
  end.

(** Values nest at most as deep as the text is long, and each level costs at
    most two units of fuel. *)
Definition json_fuel (s : jsstr) : nat := S (2 * length s).

(** [JSON.parse(text)]: [None] is the thrown [SyntaxError]. *)
Definition json_parse (text : jsstr) : option json :=
  match parse_value (json_fuel text) (skip_ws text) with
  | Some (v, rest) =>
      match skip_ws rest with
      | [] => Some v
      | _ => None
      end
  | None => None
  end.


Example json_parse_ex :
  json_parse (jsq "{ `a` : [1, -2.5e3, true], `a`:null } ") =
  Some (JObj [(js "a", JArr [JNum (js "1"); JNum (js "-2.5e3"); JBool true]);
              (js "a", JNull)]).
Proof. vm_compute. reflexivity. Qed.

Example json_parse_bad : json_parse (jsq "{ `a` : [1,, }") = None.
Proof. vm_compute. reflexivity. Qed.

(** ** Fuel

    Every level of nesting costs two units and one code unit at least, so twice
    the length is enough, and more changes nothing. *)

Lemma length_skip_ws s : (length (skip_ws s) <= length s)%nat.
Proof. induction s as [|c s IH]; simpl; [lia|]. destruct (is_json_ws c); simpl; lia. Qed.

Lemma skip_ws_cons_length s c r : skip_ws s = c :: r -> (length r < length s)%nat.
Proof. intros E. pose proof (length_skip_ws s) as H. rewrite E in H. simpl in H. lia. Qed.

Lemma parse_string_length s : forall v r, parse_string s = Some (v, r) -> (length r < length s)%nat.
Proof.
  induction s as [s IH] using (well_founded_ind (Wf_nat.well_founded_ltof _ length)).
  unfold Wf_nat.ltof in IH. intros v r. destruct s as [|c s]; [done|]. cbn [parse_string].
  destruct (N.eqb c ch_quote); [intros [= _ <-]; simpl; lia|].
  destruct (N.eqb c ch_backslash).
  - destruct s as [|e s]; [done|]. destruct (N.eqb e 117).
    + destruct s as [|h1 [|h2 [|h3 [|h4 s]]]]; try done.
      destruct (hex_val h1), (hex_val h2), (hex_val h3), (hex_val h4); try done.
      destruct (parse_string s) as [[v' r']|] eqn:E; [|done]. intros [= _ <-].
      apply IH in E; simpl in *; lia.
    + destruct (simple_escape e); [|done].
      destruct (parse_string s) as [[v' r']|] eqn:E; [|done]. intros [= _ <-].
      apply IH in E; simpl in *; lia.
  - destruct (N.ltb c 32); [done|].
    destruct (parse_string s) as [[v' r']|] eqn:E; [|done]. intros [= _ <-].
    apply IH in E; simpl in *; lia.
Qed.

Lemma take_digits_length s d r : take_digits s = (d, r) -> (length r <= length s)%nat.
Proof.
  revert d r. induction s as [|c s IH]; intros d r; simpl; [intros [= _ <-]; simpl; lia|].
  destruct (is_digit c); [|intros [= _ <-]; simpl; lia].
  destruct (take_digits s) as [d' r'] eqn:E. intros [= _ <-]. specialize (IH _ _ eq_refl). lia.
Qed.

Lemma parse_number_length s t r : parse_number s = Some (t, r) -> (length r <= length s)%nat.
Proof.
  assert (forall s t r, parse_int s = Some (t, r) -> (length r <= length s)%nat) as Hint.
  { intros [|c s'] t' r'; [done|]. unfold parse_int. destruct (N.eqb c ch_zero); [intros [= _ <-]; simpl; lia|].
    destruct (take_digits _) as [[|d ds] r''] eqn:E; [done|]. intros [= _ <-]. by apply take_digits_length in E. }
  assert (forall s t r, parse_frac s = Some (t, r) -> (length r <= length s)%nat) as Hfrac.
  { intros [|c s'] t' r'; simpl; [intros [= _ <-]; simpl; lia|].
    destruct (N.eqb c ch_dot); [|intros [= _ <-]; simpl; lia].
    destruct (take_digits s') as [[|d ds] r''] eqn:E; [done|]. intros [= _ <-]. apply take_digits_length in E. lia. }
  assert (forall s t r, parse_exp s = Some (t, r) -> (length r <= length s)%nat) as Hexp.
  { intros [|c s'] t' r'; unfold parse_exp; [intros [= _ <-]; simpl; lia|].
    destruct (_ || _); [|intros [= _ <-]; simpl; lia].
    destruct (match s' with [] => _ | _ => _ end) as [sg s2] eqn:Es.
    assert (length s2 <= length s')%nat.
    { destruct s' as [|x s3]; [by injection Es as _ <-|].
      destruct (_ || _); injection Es as _ <-; simpl; lia. }
    destruct (take_digits s2) as [[|d ds] r''] eqn:E; [done|]. intros [= _ <-].
    apply take_digits_length in E. simpl. lia. }
  unfold parse_number.
  destruct (match s with [] => _ | _ => _ end) as [sg s0] eqn:Es.
  assert (length s0 <= length s)%nat.
  { destruct s as [|x s3]; [by injection Es as _ <-|].
    destruct (N.eqb x ch_minus); injection Es as _ <-; simpl; lia. }
  destruct (parse_int s0) as [[i s1]|] eqn:E1; [|done]. apply Hint in E1.
  destruct (parse_frac s1) as [[f s2]|] eqn:E2; [|done]. apply Hfrac in E2.
  destruct (parse_exp s2) as [[e s3]|] eqn:E3; [|done]. apply Hexp in E3.
  intros [= _ <-]. lia.
Qed.

(** What a parse leaves is no longer than what it read. *)
Lemma parse_lengths n :
  (forall s v r, parse_value n s = Some (v, r) -> (length r <= length s)%nat) /\
  (forall s ms r, parse_members n s = Some (ms, r) -> (length r <= length s)%nat) /\
  (forall s vs r, parse_items n s = Some (vs, r) -> (length r <= length s)%nat).
Proof.
  induction n as [|n (IHv & IHm & IHi)]; [by split_and!|]. split_and!.
  - intros [|c s] v r; [done|]. cbn [parse_value].
    destruct (N.eqb c ch_quote).
    { destruct (parse_string s) as [[w r']|] eqn:E; [|done]. intros [= _ <-].
      apply parse_string_length in E. simpl. lia. }
    destruct (N.eqb c ch_lbrace).
    { destruct (skip_ws s) as [|x s2] eqn:Ew; [done|]. apply skip_ws_cons_length in Ew.
      destruct (N.eqb x ch_rbrace); [intros [= _ <-]; simpl; lia|].
      destruct (parse_members n _) as [[ms r']|] eqn:E; [|done]. intros [= _ <-].
      apply IHm in E. simpl in *. lia. }
    destruct (N.eqb c ch_lbrack).
    { destruct (skip_ws s) as [|x s2] eqn:Ew; [done|]. apply skip_ws_cons_length in Ew.
      destruct (N.eqb x ch_rbrack); [intros [= _ <-]; simpl; lia|].
      destruct (parse_items n _) as [[ms r']|] eqn:E; [|done]. intros [= _ <-].
      apply IHi in E. simpl in *. lia. }
    do 3 (destruct (starts_with _ _); [intros [= _ <-]; rewrite length_drop; simpl; lia|]).
    destruct (parse_number _) as [[t r']|] eqn:E; [|done]. intros [= _ <-].
    by apply parse_number_length in E.
  - intros [|c s] ms r; [done|]. cbn [parse_members]. destruct (negb _); [done|].
    destruct (parse_string s) as [[k s2]|] eqn:E; [|done]. apply parse_string_length in E.
    destruct (skip_ws s2) as [|d s3] eqn:E2; [done|]. apply skip_ws_cons_length in E2.
    destruct (negb _); [done|]. pose proof (length_skip_ws s3).
    destruct (parse_value n _) as [[v s4]|] eqn:E3; [|done]. apply IHv in E3.
    destruct (skip_ws s4) as [|e s5] eqn:E4; [done|]. apply skip_ws_cons_length in E4.
    pose proof (length_skip_ws s5). simpl.
    destruct (N.eqb e ch_comma).
    + destruct (parse_members n _) as [[ms' r']|] eqn:E5; [|done]. intros [= _ <-].
      apply IHm in E5. lia.
    + destruct (N.eqb e ch_rbrace); [|done]. intros [= _ <-]. lia.
  - intros s vs r. cbn [parse_items].
    destruct (parse_value n s) as [[v s1]|] eqn:E; [|done]. apply IHv in E.
    destruct (skip_ws s1) as [|e s2] eqn:E2; [done|]. apply skip_ws_cons_length in E2.
    pose proof (length_skip_ws s2). destruct (N.eqb e ch_comma).
    + destruct (parse_items n _) as [[vs' r']|] eqn:E5; [|done]. intros [= _ <-].
      apply IHi in E5. lia.
    + destruct (N.eqb e ch_rbrack); [|done]. intros [= _ <-]. lia.
Qed.

Lemma parse_fuel n : forall f1 f2 s,
  (length s <= n)%nat ->
  ((2 * length s < f1)%nat -> (2 * length s < f2)%nat -> parse_value f1 s = parse_value f2 s) /\
  ((2 * length s + 1 < f1)%nat -> (2 * length s + 1 < f2)%nat ->
     parse_members f1 s = parse_members f2 s /\ parse_items f1 s = parse_items f2 s).
Proof.
  induction n as [|n IH]; intros f1 f2 s Hn.
  { destruct s; [|simpl in Hn; lia].
    split; intros H1 H2; (destruct f1; [lia|]); (destruct f2; [lia|]); [done|].
    split; [done|]. cbn [parse_items]. by (destruct f1; [simpl in H1; lia|]); (destruct f2; [simpl in H2; lia|]). }
  assert (forall g1 g2, (2 * length s < g1)%nat -> (2 * length s < g2)%nat ->
    parse_value g1 s = parse_value g2 s) as Hval.
  { intros [|g1] [|g2] H1 H2; try lia. destruct s as [|c s]; [done|]. simpl in Hn, H1, H2.
    cbn [parse_value]. destruct (N.eqb c ch_quote); [done|].
    destruct (N.eqb c ch_lbrace).
    { destruct (skip_ws s) as [|x s2] eqn:Ew; [done|]. apply skip_ws_cons_length in Ew.
      destruct (N.eqb x ch_rbrace); [done|].
      destruct (IH g1 g2 (x :: s2)) as [_ Hm]; [simpl; lia|].
      destruct Hm as [-> _]; [simpl; lia..|done]. }
    destruct (N.eqb c ch_lbrack); [|done].
    destruct (skip_ws s) as [|x s2] eqn:Ew; [done|]. apply skip_ws_cons_length in Ew.
    destruct (N.eqb x ch_rbrack); [done|].
    destruct (IH g1 g2 (x :: s2)) as [_ Hm]; [simpl; lia|].
    destruct Hm as [_ ->]; [simpl; lia..|done]. }
  split; [apply Hval|]. intros H1 H2.
  destruct f1 as [|f1]; [lia|]. destruct f2 as [|f2]; [lia|]. split.
  - cbn [parse_members]. destruct s as [|c s]; [done|]. simpl in Hn, H1, H2.
    destruct (negb _); [done|].
    destruct (parse_string s) as [[k s2]|] eqn:E; [|done]. apply parse_string_length in E.
    destruct (skip_ws s2) as [|d s3] eqn:E2; [done|]. apply skip_ws_cons_length in E2.
    destruct (negb _); [done|]. pose proof (length_skip_ws s3) as L3.
    destruct (IH f1 f2 (skip_ws s3)) as [Hv _]; [lia|]. rewrite Hv by lia.
    destruct (parse_value f2 _) as [[v s4]|] eqn:E3; [|done].
    apply (proj1 (parse_lengths f2)) in E3.
    destruct (skip_ws s4) as [|e s5] eqn:E4; [done|]. apply skip_ws_cons_length in E4.
    destruct (N.eqb e ch_comma); [|done]. pose proof (length_skip_ws s5).
    destruct (IH f1 f2 (skip_ws s5)) as [_ Hm]; [lia|]. destruct Hm as [-> _]; [lia..|done].
  - cbn [parse_items]. rewrite (Hval f1 f2) by lia.
    destruct (parse_value f2 s) as [[v s1]|] eqn:E; [|done].
    apply (proj1 (parse_lengths f2)) in E.
    destruct (skip_ws s1) as [|e s2] eqn:E2; [done|]. apply skip_ws_cons_length in E2.
    destruct (N.eqb e ch_comma); [|done]. pose proof (length_skip_ws s2).
    destruct (IH f1 f2 (skip_ws s2)) as [_ Hm]; [lia|]. destruct Hm as [_ ->]; [lia..|done].
Qed.

(** The parse does not depend on its fuel: any more gives the same value. *)
Lemma json_parse_fuel text fuel :
  (json_fuel text <= fuel)%nat ->
  parse_value fuel (skip_ws text) = parse_value (json_fuel text) (skip_ws text).
Proof.
  unfold json_fuel. intros Hf. pose proof (length_skip_ws text).
  destruct (parse_fuel (length (skip_ws text)) fuel (S (2 * length text)) (skip_ws text)) as [Hv _];
    [lia|]. apply Hv; lia.
Qed.

(** * [JSON.stringify] and integer text

    The escapes of strings (a lone surrogate is escaped), the decimal text of an
    integer, and the bounds on their lengths. *)
Local Open Scope N_scope.

Local Open Scope N_scope.

(** [String(n)] of an integer that prints without an exponent ([|n| < 10^21]). *)
Fixpoint digits (fuel : nat) (n : N) : jsstr :=
  match fuel with
  | O => []
  | S f => if n <? 10 then [48 + n] else digits f (n / 10) ++ [48 + n mod 10]
  end.

Definition dec (n : N) : jsstr := digits (S (N.size_nat n)) n.

Definition number_text (z : Z) : jsstr :=
  match z with
  | Z0 => [48]
  | Zpos p => dec (Npos p)
  | Zneg p => ch_minus :: dec (Npos p)
  end.

Lemma length_digits fuel n k :
  n < 10 ^ N.of_nat k -> (0 < k)%nat -> (length (digits fuel n) <= k)%nat.
Proof.
  revert n k. induction fuel as [|f IH]; intros n k Hn Hk; cbn [digits length]; [lia|].
  destruct (N.ltb_spec n 10) as [|Hge]; cbn [length]; [lia|].
  destruct k as [|k]; [lia|]. rewrite length_app. cbn [length].
  destruct k as [|k]; [cbn in Hn; lia|].
  assert (n / 10 < 10 ^ N.of_nat (S k)) as Hd.
  { apply N.Div0.div_lt_upper_bound. replace (N.of_nat (S (S k))) with (N.succ (N.of_nat (S k))) in Hn by lia.
    by rewrite N.pow_succ_r' in Hn. }
  specialize (IH (n / 10) (S k) Hd). lia.
Qed.

Lemma length_dec n k : n < 10 ^ N.of_nat k -> (0 < k)%nat -> (length (dec n) <= k)%nat.
Proof. apply length_digits. Qed.

(** A safe integer has at most sixteen digits. *)
Definition safe_integer (z : Z) : Prop := (Z.abs z < 2 ^ 53)%Z.

Lemma length_number_text z : safe_integer z -> (length (number_text z) <= 17)%nat.
Proof.
  unfold safe_integer. intros Hz. destruct z as [|p|p]; cbn [number_text length]; [lia| |];
    (assert (length (dec (Npos p)) <= 16)%nat; [|lia]); apply length_dec; lia.
Qed.

(** ** Strings *)

Definition hex_digit (v : N) : N := if v <? 10 then 48 + v else 87 + v.

Definition u_escape (c : N) : jsstr :=
  [92; 117; hex_digit (c / 4096 mod 16); hex_digit (c / 256 mod 16); hex_digit (c / 16 mod 16); hex_digit (c mod 16)].

Definition escape_char (c : N) : jsstr :=
  if c =? 34 then [92; 34]
  else if c =? 92 then [92; 92]
  else if c =? 8 then [92; 98]
  else if c =? 9 then [92; 116]
  else if c =? 10 then [92; 110]
  else if c =? 12 then [92; 102]
  else if c =? 13 then [92; 114]
  else if c <? 32 then u_escape c
  else [c].

Fixpoint escape (s : jsstr) : jsstr :=
  match s with
  | [] => []
  | c :: s' =>
      if is_high c then
        match s' with
        | d :: s'' => if is_low d then c :: d :: escape s'' else u_escape c ++ escape s'
        | [] => u_escape c
        end
      else if is_low c then u_escape c ++ escape s'
      else escape_char c ++ escape s'
  end.

Definition quote (s : jsstr) : jsstr := [34] ++ escape s ++ [34].

Lemma length_escape_char c : (length (escape_char c) <= 6)%nat.
Proof. unfold escape_char, u_escape. repeat case_match; cbn; lia. Qed.

Lemma length_escape s : (length (escape s) <= 6 * length s)%nat.
Proof.
  induction s as [s IH] using (well_founded_induction (Wf_nat.well_founded_ltof _ (@length N))).
  destruct s as [|c s]; [cbn; lia|]. assert (length (escape s) <= 6 * length s)%nat as H1.
  { apply IH. unfold Wf_nat.ltof. cbn. lia. }
  assert (length (u_escape c) = 6)%nat as Hu by done. pose proof (length_escape_char c) as Hc.
  cbn [escape]. destruct (is_high c); [|destruct (is_low c); rewrite length_app; cbn [length]; lia].
  destruct s as [|d s]; [cbn; lia|].
  assert (length (escape s) <= 6 * length s)%nat as H2.
  { apply IH. unfold Wf_nat.ltof. cbn. lia. }
  destruct (is_low d); [cbn [length] in *; lia|]. rewrite length_app. cbn [length] in *. lia.
Qed.

Lemma length_quote s : (length (quote s) <= 6 * length s + 2)%nat.
Proof. unfold quote. rewrite !length_app. cbn. pose proof (length_escape s). lia. Qed.

(** ** Values *)

Fixpoint stringify (v : json) : jsstr :=
  match v with
  | JNull => js "null"
  | JBool true => js "true"
  | JBool false => js "false"
  | JNum raw => raw
  | JStr s => quote s
  | JArr items => [91] ++ join [44] (map stringify items) ++ [93]
  | JObj members => [123] ++ join [44] (map (fun m => quote m.1 ++ [58] ++ stringify m.2) members) ++ [125]
  end.

(** Joined by one character, each part costs its length and one. *)
Lemma length_join_one c (l : list jsstr) :
  l <> [] -> (length (join [c] l) + 1 = foldr (fun w n => length w + 1 + n) 0 l)%nat.
Proof.
  intros Hl. induction l as [|w l IH]; [done|]. destruct l as [|w' l]; [cbn; lia|].
  specialize (IH ltac:(done)). cbn [join foldr] in *. rewrite !length_app. cbn [length] in *. lia.
Qed.
