(* ===== verification/Graphql.v ===== *)
(** * GraphQL operation classification

    [packages/api/src/services/policy-translation/graphql.ts]: a request body
    is classified "query" only when it is provably a pure query document, and
    "mutation" otherwise. The two scanning loops are step functions over the
    text that is left; each consumes at least one code unit. *)
From S2P Require Import Prelude JsJson.

Inductive GraphqlOpKind := op_query | op_mutation.

#[export] Instance GraphqlOpKind_eq_dec : EqDecision GraphqlOpKind.
Proof. solve_decision. Defined.

Definition ch_hash : N := 35.
Definition ch_lparen : N := 40.
Definition ch_rparen : N := 41.
Definition ch_bom : N := 65279.

(** ** Top-level keys of a JSON text *)

(** The inner string loop: the raw text up to the closing quote, whether it
    held an escape, and the text after the quote; [None] when unterminated. *)
Fixpoint scanString (s : jsstr) : option (jsstr * bool * jsstr) :=
  match s with
  | [] => None
  | c :: s1 =>
      if N.eqb c ch_quote then Some ([], false, s1)
      else if N.eqb c ch_backslash then
        match s1 with
        | [] => None
        | e :: s2 =>
            match scanString s2 with
            | Some (v, _, r) => Some (c :: e :: v, true, r)
            | None => None
            end
        end
      else match scanString s1 with
           | Some (v, esc, r) => Some (c :: v, esc, r)
           | None => None
           end
  end.

Record KeyScan := { ks_rest : jsstr; ks_depth : Z; ks_count : Z }.

Definition is_open_json (c : N) : bool := N.eqb c ch_lbrace || N.eqb c ch_lbrack.
Definition is_close_json (c : N) : bool := N.eqb c ch_rbrace || N.eqb c ch_rbrack.

(** Is the next character after white space a colon? *)
Definition colon_next (s : jsstr) : bool :=
  match skip_ws s with c :: _ => N.eqb c ch_colon | [] => false end.

Definition keyScanStep (st : KeyScan) : KeyScan + Z :=
  match ks_rest st with
  | [] => inr (ks_count st)
  | c :: rest =>
      if N.eqb c ch_quote then
        match scanString rest with
        | None => inr (-1)%Z
        | Some (value, hasEscape, after) =>
            if Z.eqb (ks_depth st) 1 && colon_next after then
              if hasEscape then inr (-1)%Z
              else inl {| ks_rest := after; ks_depth := ks_depth st;
                          ks_count := if bool_decide (value = js "query")
                                      then (ks_count st + 1)%Z else ks_count st |}
            else inl {| ks_rest := after; ks_depth := ks_depth st; ks_count := ks_count st |}
        end
      else
        inl {| ks_rest := rest;
               ks_depth := if is_open_json c then (ks_depth st + 1)%Z
                           else if is_close_json c then (ks_depth st - 1)%Z
                           else ks_depth st;
               ks_count := ks_count st |}
  end.

Definition countTopLevelLiteralQueryKeys (text : jsstr) : Z :=
  default (-1)%Z
    (js_while keyScanStep (S (length text))
       {| ks_rest := text; ks_depth := 0; ks_count := 0 |}).

(** ** The document scanner *)

Definition is_name_start (c : N) : bool :=
  (N.eqb c 95 || (97 <=? c) && (c <=? 122) || (65 <=? c) && (c <=? 90))%N.
Definition is_name_part (c : N) : bool :=
  is_name_start c || ((48 <=? c) && (c <=? 57))%N.

(** The longest run of name characters. *)
Fixpoint name_run (s : jsstr) : jsstr :=
  match s with
  | c :: s' => if is_name_part c then c :: name_run s' else []
  | [] => []
  end.

(** [readName(src, start)] on the text from [start]. *)
Definition readName (s : jsstr) : option jsstr :=
  match s with
  | [] => None
  | c :: s' => if is_name_start c then Some (c :: name_run s') else None
  end.

Definition is_gql_ignored (c : N) : bool :=
  N.eqb c 32 || N.eqb c 9 || N.eqb c 10 || N.eqb c 13 || N.eqb c ch_comma || N.eqb c ch_bom.

(** To the end of the line. *)
Fixpoint skip_comment (s : jsstr) : jsstr :=
  match s with
  | c :: s' => if N.eqb c 10 || N.eqb c 13 then s else skip_comment s'
  | [] => []
  end.

(** The body of a block string: the text after its closing quotes. *)
Fixpoint skip_block (s : jsstr) : option jsstr :=
  match s with
  | [] => None
  | c :: s1 =>
      if starts_with [ch_quote; ch_quote; ch_quote] s then Some (drop 2 s1)
      else if N.eqb c ch_backslash && starts_with [ch_quote; ch_quote; ch_quote] s1 then
        match s1 with
        | _ :: _ :: _ :: s4 => skip_block s4
        | _ => None
        end
      else skip_block s1
  end.

(** The body of a string: the text after its closing quote. *)
Fixpoint skip_string (s : jsstr) : option jsstr :=
  match s with
  | [] => None
  | c :: s1 =>
      if N.eqb c ch_quote then Some s1
      else if N.eqb c ch_backslash then
        match s1 with
        | [] => None
        | _ :: s2 => skip_string s2
        end
      else skip_string s1
  end.

Definition is_open (c : N) : bool :=
  N.eqb c ch_lbrace || N.eqb c ch_lparen || N.eqb c ch_lbrack.
Definition is_close (c : N) : bool :=
  N.eqb c ch_rbrace || N.eqb c ch_rparen || N.eqb c ch_rbrack.

Record DocScan := {
  ds_rest : jsstr;
  ds_depth : Z;
  ds_expectingDefinition : bool;
  ds_sawQueryOperation : bool
}.

(** Skip to [rest], the rest of the state unchanged. *)
Definition ds_skip (st : DocScan) (rest : jsstr) : DocScan :=
  {| ds_rest := rest; ds_depth := ds_depth st;
     ds_expectingDefinition := ds_expectingDefinition st;
     ds_sawQueryOperation := ds_sawQueryOperation st |}.

(** What the scan returns at the end of the text. *)
Definition doc_verdict (st : DocScan) : GraphqlOpKind :=
  if negb (Z.eqb (ds_depth st) 0) then op_mutation
  else if negb (ds_expectingDefinition st) then op_mutation
  else if ds_sawQueryOperation st then op_query else op_mutation.

(** The first token of a definition, at depth 0. *)
Definition doc_first_token (st : DocScan) (c : N) (rest : jsstr) : DocScan + GraphqlOpKind :=
  if N.eqb c ch_lbrace then
    inl {| ds_rest := rest; ds_depth := ds_depth st + 1;
           ds_expectingDefinition := false; ds_sawQueryOperation := true |}
  else
    match readName (c :: rest) with
    | None => inr op_mutation
    | Some word =>
        let after := drop (length word) (c :: rest) in
        if bool_decide (word = js "query") then
          inl {| ds_rest := after; ds_depth := ds_depth st;
                 ds_expectingDefinition := false; ds_sawQueryOperation := true |}
        else if bool_decide (word = js "fragment") then
          inl {| ds_rest := after; ds_depth := ds_depth st;
                 ds_expectingDefinition := false;
                 ds_sawQueryOperation := ds_sawQueryOperation st |}
        else inr op_mutation
    end.

(** A character inside a definition: nesting only. *)
Definition doc_inside (st : DocScan) (c : N) (rest : jsstr) : DocScan + GraphqlOpKind :=
  if is_open c then
    inl {| ds_rest := rest; ds_depth := ds_depth st + 1;
           ds_expectingDefinition := ds_expectingDefinition st;
           ds_sawQueryOperation := ds_sawQueryOperation st |}
  else if is_close c then
    let depth := (ds_depth st - 1)%Z in
    if Z.ltb depth 0 then inr op_mutation
    else inl {| ds_rest := rest; ds_depth := depth;
                ds_expectingDefinition :=
                  if Z.eqb depth 0 && N.eqb c ch_rbrace then true
                  else ds_expectingDefinition st;
                ds_sawQueryOperation := ds_sawQueryOperation st |}
  else inl (ds_skip st rest).

Definition docScanStep (st : DocScan) : DocScan + GraphqlOpKind :=
  match ds_rest st with
  | [] => inr (doc_verdict st)
  | c :: rest =>
      if is_gql_ignored c then inl (ds_skip st rest)
      else if N.eqb c ch_hash then inl (ds_skip st (skip_comment rest))
      else if starts_with [ch_quote; ch_quote; ch_quote] (c :: rest) then
        match skip_block (drop 2 rest) with
        | None => inr op_mutation
        | Some r => inl (ds_skip st r)
        end
      else if N.eqb c ch_quote then
        match skip_string rest with
        | None => inr op_mutation
        | Some r => inl (ds_skip st r)
        end
      else if ds_expectingDefinition st && Z.eqb (ds_depth st) 0 then
        doc_first_token st c rest
      else doc_inside st c rest
  end.

Definition docScanStart (document : jsstr) : DocScan :=
  {| ds_rest := document; ds_depth := 0;
     ds_expectingDefinition := true; ds_sawQueryOperation := false |}.

Definition classifyGraphqlDocument (document : jsstr) : GraphqlOpKind :=
  default op_mutation
    (js_while docScanStep (S (length document)) (docScanStart document)).

(** ** Bodies *)

Definition classifyGraphqlBody (body : option jsstr) : GraphqlOpKind :=
  match body with
  | None | Some [] => op_mutation
  | Some body =>
      match json_parse body with
      | Some (JObj members) =>
          match obj_get (js "query") members with
          | Some (JStr document) =>
              if negb (Z.eqb (countTopLevelLiteralQueryKeys body) 1) then op_mutation
              else classifyGraphqlDocument document
          | _ => op_mutation
          end
      | _ => op_mutation
      end
  end.

Example classify_ex1 :
  classifyGraphqlBody (Some (jsq "{`query`:`query { viewer { login } }`}")) = op_query.
Proof. vm_compute. reflexivity. Qed.
Example classify_ex2 :
  classifyGraphqlBody (Some (jsq "{`query`:`query A {a} mutation {b}`}")) = op_mutation.
Proof. vm_compute. reflexivity. Qed.
Example classify_ex3 :
  classifyGraphqlBody (Some (jsq "{`query`:`{a}`,`query`:`{a}`}")) = op_mutation.
Proof. vm_compute. reflexivity. Qed.
