(* ===== verification/GraphqlSpec.v ===== *)
(** * What a query document is

    The lexical and definition-level grammar the document scanner decides, its
    equivalence with the scanner, and the agreement of every JSON reader on a
    body classified "query". *)
From S2P Require Import Prelude JsJson Graphql.

(** ** Lexemes

    White space, commas, comments and strings separate; names are longest
    runs; anything else is a one-character token. *)
Inductive gql_token :=
| TName (word : jsstr)
| TPunct (c : N).

(** The inside of a string: an escape is two characters. *)
Inductive StringBody : jsstr -> Prop :=
| string_end : StringBody []
| string_escape e s : StringBody s -> StringBody (ch_backslash :: e :: s)
| string_char c s : c <> ch_quote -> c <> ch_backslash -> StringBody s -> StringBody (c :: s).

Definition quotes3 : jsstr := [ch_quote; ch_quote; ch_quote].

(** The inside of a block string: only an escaped run of three quotes is
    skipped. *)
Inductive BlockBody : jsstr -> jsstr -> Prop :=
| block_end r : BlockBody (quotes3 ++ r) r
| block_escape s r : BlockBody s r -> BlockBody (ch_backslash :: quotes3 ++ s) r
| block_char c s r :
    starts_with quotes3 (c :: s) = false ->
    starts_with (ch_backslash :: quotes3) (c :: s) = false ->
    BlockBody s r -> BlockBody (c :: s) r.

Definition is_line_end (c : N) : Prop := c = 10%N \/ c = 13%N.

Inductive Lexes : jsstr -> list gql_token -> Prop :=
| lex_end : Lexes [] []
| lex_ignored c s ts : is_gql_ignored c = true -> Lexes s ts -> Lexes (c :: s) ts
| lex_comment line s ts :
    Forall (fun c => ~ is_line_end c) line ->
    (s = [] \/ exists c s', s = c :: s' /\ is_line_end c) ->
    Lexes s ts -> Lexes (ch_hash :: line ++ s) ts
| lex_block s r ts : BlockBody s r -> Lexes r ts -> Lexes (quotes3 ++ s) ts
| lex_string body s ts :
    starts_with quotes3 (ch_quote :: body ++ [ch_quote] ++ s) = false ->
    StringBody body -> Lexes s ts -> Lexes (ch_quote :: body ++ [ch_quote] ++ s) ts
| lex_name c w s ts :
    is_name_start c = true -> Forall (fun x => is_name_part x = true) w ->
    (s = [] \/ exists x s', s = x :: s' /\ is_name_part x = false) ->
    Lexes s ts -> Lexes (c :: w ++ s) (TName (c :: w) :: ts)
| lex_punct c s ts :
    is_gql_ignored c = false -> c <> ch_hash -> c <> ch_quote -> is_name_start c = false ->
    Lexes s ts -> Lexes (c :: s) (TPunct c :: ts).

(** ** Definitions *)

(** The rest of a definition, [depth] brackets open: it ends at the brace that
    closes the outermost bracket. *)
Inductive InDefinition : Z -> list gql_token -> list gql_token -> Prop :=
| def_end rest : InDefinition 1 (TPunct ch_rbrace :: rest) rest
| def_name d w ts rest : InDefinition d ts rest -> InDefinition d (TName w :: ts) rest
| def_open d c ts rest :
    is_open c = true -> InDefinition (d + 1) ts rest -> InDefinition d (TPunct c :: ts) rest
| def_close d c ts rest :
    is_close c = true -> (1 <= d)%Z -> ~ (d = 1%Z /\ c = ch_rbrace) ->
    InDefinition (d - 1) ts rest -> InDefinition d (TPunct c :: ts) rest
| def_other d c ts rest :
    is_open c = false -> is_close c = false -> InDefinition d ts rest ->
    InDefinition d (TPunct c :: ts) rest.

(** Queries and fragments only; the flag says whether one is an operation. *)
Inductive Definitions : bool -> list gql_token -> Prop :=
| defs_none : Definitions false []
| defs_shorthand q ts rest :
    InDefinition 1 ts rest -> Definitions q rest -> Definitions true (TPunct ch_lbrace :: ts)
| defs_query q ts rest :
    InDefinition 0 ts rest -> Definitions q rest -> Definitions true (TName (js "query") :: ts)
| defs_fragment q ts rest :
    InDefinition 0 ts rest -> Definitions q rest -> Definitions q (TName (js "fragment") :: ts).

(** A document of queries and fragments with at least one query. *)
Definition QueryDocument (document : jsstr) : Prop :=
  exists ts, Lexes document ts /\ Definitions true ts.

(** ** The lexical scanners *)

Lemma length_skip_comment s : (length (skip_comment s) <= length s)%nat.
Proof. induction s as [|c s IH]; simpl; [lia|]. destruct (_ || _); simpl; lia. Qed.

Lemma skip_comment_spec s line r :
  s = line ++ r -> Forall (fun c => ~ is_line_end c) line ->
  (r = [] \/ exists c s', r = c :: s' /\ is_line_end c) -> skip_comment s = r.
Proof.
  intros -> Hl Hr. induction Hl as [|c line Hc _ IH]; simpl.
  - destruct Hr as [->|(c & s' & -> & Hc)]; [done|]. simpl.
    by destruct Hc as [-> | ->].
  - rewrite IH. destruct (N.eqb_spec c 10), (N.eqb_spec c 13); simpl; try done;
      subst; destruct Hc; first [by left|by right].
Qed.

Lemma skip_comment_split s :
  exists line, s = line ++ skip_comment s /\ Forall (fun c => ~ is_line_end c) line /\
    (skip_comment s = [] \/ exists c s', skip_comment s = c :: s' /\ is_line_end c).
Proof.
  induction s as [|c s (line & E & Hl & Hr)]; [exists []; by auto|]. simpl.
  destruct (N.eqb_spec c 10) as [->|H1]; [exists []; split_and!; [done..|right; do 2 eexists; split; [done|by left]]|].
  destruct (N.eqb_spec c 13) as [->|H2]; [exists []; split_and!; [done..|right; do 2 eexists; split; [done|by right]]|].
  exists (c :: line). split_and!; [by rewrite E at 1|constructor; [by intros [?|?]|done]|done].
Qed.

Lemma skip_string_spec s r :
  skip_string s = Some r <-> exists body, s = body ++ [ch_quote] ++ r /\ StringBody body.
Proof.
  split.
  - revert s r. apply (well_founded_ind (Wf_nat.well_founded_ltof _ length) (fun s =>
      forall r, skip_string s = Some r -> exists body, s = body ++ [ch_quote] ++ r /\ StringBody body)).
    intros [|c s] IH r; [done|]. cbn [skip_string]. unfold Wf_nat.ltof in IH.
    destruct (N.eqb_spec c ch_quote) as [->|Hq]; [intros [= ->]; exists []; by repeat constructor|].
    destruct (N.eqb_spec c ch_backslash) as [->|Hb].
    + destruct s as [|e s]; [done|]. intros (body & -> & Hs)%IH; [|simpl; lia].
      exists (ch_backslash :: e :: body). by repeat constructor.
    + intros (body & -> & Hs)%IH; [|simpl; lia]. exists (c :: body). by repeat constructor.
  - intros (body & -> & Hs). induction Hs as [|e s Hs IH|c s Hq Hb Hs IH].
    + done.
    + cbn [app skip_string]. done.
    + cbn [app skip_string]. apply N.eqb_neq in Hq as ->, Hb as ->. done.
Qed.

Lemma skip_block_spec s r : skip_block s = Some r <-> BlockBody s r.
Proof.
  split.
  - revert s r. apply (well_founded_ind (Wf_nat.well_founded_ltof _ length) (fun s =>
      forall r, skip_block s = Some r -> BlockBody s r)).
    intros [|c s] IH r; [done|]. cbn [skip_block]. fold quotes3. unfold Wf_nat.ltof in IH.
    destruct (starts_with quotes3 (c :: s)) eqn:E.
    { apply starts_with_spec in E as (k & E). injection E as -> E. subst s.
      intros [= <-]. apply (block_end k). }
    destruct (N.eqb c ch_backslash && starts_with quotes3 s) eqn:E2.
    + apply andb_true_iff in E2 as [->%N.eqb_eq (k & ->)%starts_with_spec]. simpl.
      intros Hr%IH; [|simpl; lia]. by apply (block_escape k).
    + intros Hr%IH; [|simpl; lia]. apply block_char; [done| |done].
      cbn [starts_with]. by rewrite N.eqb_sym.
  - induction 1 as [r|s r _ IH|c s r H1 H2 _ IH]; [done|done|].
    cbn [skip_block]. fold quotes3. rewrite H1. cbn [starts_with] in H2.
    by rewrite N.eqb_sym, H2.
Qed.

Lemma name_run_spec s :
  exists r, s = name_run s ++ r /\ Forall (fun x => is_name_part x = true) (name_run s) /\
    (r = [] \/ exists x s', r = x :: s' /\ is_name_part x = false).
Proof.
  induction s as [|c s (r & E & Hw & Hr)]; [exists []; by auto|]. simpl.
  destruct (is_name_part c) eqn:Hc.
  - exists r. split_and!; [by rewrite E at 1|by constructor|done].
  - exists (c :: s). split_and!; [done..|]. right. eauto.
Qed.

Lemma name_run_app w r :
  Forall (fun x => is_name_part x = true) w ->
  (r = [] \/ exists x s', r = x :: s' /\ is_name_part x = false) -> name_run (w ++ r) = w.
Proof.
  intros Hw Hr. induction Hw as [|x w Hx _ IH]; simpl; [|by rewrite Hx, IH].
  destruct Hr as [->|(x & s' & -> & Hx)]; [done|]. simpl. by rewrite Hx.
Qed.

(** ** The document scan *)

Definition doc_measure (st : DocScan) : nat := length (ds_rest st).

Lemma length_skip_string s r : skip_string s = Some r -> (length r < length s)%nat.
Proof. intros (body & -> & _)%skip_string_spec. rewrite length_app. simpl. lia. Qed.

Lemma length_skip_block s r : skip_block s = Some r -> (length r < length s)%nat.
Proof. intros Hb%skip_block_spec. induction Hb; simpl in *; lia. Qed.

Lemma readName_length s w : readName s = Some w -> (0 < length w)%nat /\ s <> [].
Proof. destruct s as [|c s]; [done|]. simpl. destruct (is_name_start c); [|done]. intros [= <-]. simpl. split; [lia|done]. Qed.

(** Each iteration consumes at least one code unit. *)
Lemma docScanStep_decreases st st' :
  docScanStep st = inl st' -> (doc_measure st' < doc_measure st)%nat.
Proof.
  unfold docScanStep, doc_measure. destruct (ds_rest st) as [|c rest] eqn:E; [done|].
  destruct (is_gql_ignored c); [intros [= <-]; simpl; lia|].
  destruct (N.eqb c ch_hash); [intros [= <-]; simpl; pose proof (length_skip_comment rest); lia|].
  destruct (starts_with _ _) eqn:Es.
  { destruct (skip_block _) as [r|] eqn:Eb; [|done]. intros [= <-]. apply length_skip_block in Eb.
    rewrite length_drop in Eb. simpl. lia. }
  destruct (N.eqb c ch_quote).
  { destruct (skip_string rest) as [r|] eqn:Eb; [|done]. intros [= <-].
    apply length_skip_string in Eb. simpl. lia. }
  destruct (_ && _).
  - unfold doc_first_token. destruct (N.eqb c ch_lbrace); [intros [= <-]; simpl; lia|].
    destruct (readName _) as [w|] eqn:Ew; [|done]. apply readName_length in Ew as [Hw _].
    do 2 (case_bool_decide; [intros [= <-]; cbn [ds_rest]; rewrite length_drop; simpl; lia|]). done.
  - unfold doc_inside. destruct (is_open c); [intros [= <-]; simpl; lia|].
    destruct (is_close c); [|intros [= <-]; simpl; lia].
    destruct (Z.ltb _ 0); [done|]. intros [= <-]. simpl. lia.
Qed.

(** The scan from a state, with fuel for what is left. *)
Definition docrun (st : DocScan) : option GraphqlOpKind :=
  js_while docScanStep (S (doc_measure st)) st.

Lemma docrun_unfold st :
  docrun st = match docScanStep st with inl st' => docrun st' | inr r => Some r end.
Proof. apply (js_while_unfold _ doc_measure docScanStep_decreases). Qed.

(** Scanning at a definition boundary, and inside a definition. *)
Abbreviation at_boundary s saw := {| ds_rest := s; ds_depth := 0; ds_expectingDefinition := true; ds_sawQueryOperation := saw |}.
Abbreviation inside s d saw := {| ds_rest := s; ds_depth := d; ds_expectingDefinition := false; ds_sawQueryOperation := saw |}.

Definition separator_step (s r : jsstr) : Prop :=
  forall d e saw,
    docScanStep {| ds_rest := s; ds_depth := d; ds_expectingDefinition := e;
                   ds_sawQueryOperation := saw |} =
    inl {| ds_rest := r; ds_depth := d; ds_expectingDefinition := e;
           ds_sawQueryOperation := saw |}.

(** What the scanner does with a text: skip a separator, stop at an
    unterminated string, read a name or a punctuation. *)
Inductive TextCase : jsstr -> Prop :=
| text_end : TextCase []
| text_skip s r :
    (length r < length s)%nat -> separator_step s r ->
    (forall ts, Lexes s ts <-> Lexes r ts) -> TextCase s
| text_unterminated s :
    (forall st, ds_rest st = s -> docScanStep st = inr op_mutation) ->
    (forall ts, ~ Lexes s ts) -> TextCase s
| text_token c s :
    is_gql_ignored c = false -> c <> ch_hash -> c <> ch_quote -> TextCase (c :: s).

Lemma lexes_ignored_inv c s ts : is_gql_ignored c = true -> Lexes (c :: s) ts <-> Lexes s ts.
Proof.
  intros Hc. split; [|by constructor].
  inversion 1; subst; try done; try (by vm_compute in Hc); try congruence.
  exfalso. clear -Hc H2. unfold is_gql_ignored, is_name_start in *.
  repeat (apply orb_true_iff in Hc as [Hc|Hc]); apply N.eqb_eq in Hc; subst; by vm_compute in H2.
Qed.

Ltac inv_lexes H :=
  inversion H; subst; try done;
  try match goal with
      | Hx : is_gql_ignored _ = true |- _ => by vm_compute in Hx
      | Hx : is_name_start _ = true |- _ => by vm_compute in Hx
      end.

Lemma lexes_comment_inv s ts : Lexes (ch_hash :: s) ts <-> Lexes (skip_comment s) ts.
Proof.
  split.
  - intros H. inv_lexes H. by erewrite skip_comment_spec.
  - intros H. destruct (skip_comment_split s) as (line & E & Hl & Hr). rewrite E.
    by constructor.
Qed.

Lemma lexes_block_inv s ts :
  Lexes (quotes3 ++ s) ts <-> exists r, skip_block s = Some r /\ Lexes r ts.
Proof.
  setoid_rewrite skip_block_spec. split; [|intros (r & ? & ?); by econstructor].
  remember (quotes3 ++ s) as u eqn:E. intros H.
  destruct H as [|? ? ? Hi|? ? ? ? ?|s' r ts Hb Hr|body s' ts Hq|? ? ? ? Hn|? ? ? ? ? Hq]; try done.
  - injection E as -> ->. by vm_compute in Hi.
  - apply app_inv_head in E as ->. eauto.
  - rewrite E in Hq. by vm_compute in Hq.
  - injection E as -> _. by vm_compute in Hn.
  - by injection E as -> _.
Qed.

Lemma string_body_unique b b' r r' :
  StringBody b -> StringBody b' -> b ++ [ch_quote] ++ r = b' ++ [ch_quote] ++ r' -> b = b' /\ r = r'.
Proof.
  intros Hb Hb' E. assert (skip_string (b ++ [ch_quote] ++ r) = Some r) as H1
    by (apply skip_string_spec; eauto).
  rewrite E in H1. assert (skip_string (b' ++ [ch_quote] ++ r') = Some r') as H2
    by (apply skip_string_spec; eauto).
  rewrite H1 in H2. injection H2 as ->. by apply app_inv_tail in E.
Qed.

Lemma lexes_string_inv s ts :
  starts_with quotes3 (ch_quote :: s) = false ->
  Lexes (ch_quote :: s) ts <-> exists r, skip_string s = Some r /\ Lexes r ts.
Proof.
  intros Hs. setoid_rewrite skip_string_spec. split.
  - remember (ch_quote :: s) as u eqn:E. intros H.
    destruct H as [|? ? ? Hi|? ? ? ? ?|s' r ts Hb Hr|body s' ts Hq Hb Hl|? ? ? ? Hn|? ? ? ? ? Hq]; try done.
    + injection E as -> ->. by vm_compute in Hi.
    + injection E as <-. eauto.
    + injection E as -> _. by vm_compute in Hn.
    + by injection E as -> _.
  - intros (r & (body & -> & Hb) & Hl). by constructor.
Qed.

Lemma name_start_facts c :
  is_name_start c = true -> is_gql_ignored c = false /\ c <> ch_hash /\ c <> ch_quote /\ is_name_part c = true.
Proof.
  intros Hc. unfold is_name_part. rewrite Hc. split_and!; [|by intros ->..|done].
  apply not_true_iff_false. intros Hi. unfold is_gql_ignored in Hi.
  repeat (apply orb_true_iff in Hi as [Hi|Hi]); apply N.eqb_eq in Hi; subst; by vm_compute in Hc.
Qed.

Lemma lexes_name_inv c s ts :
  is_name_start c = true ->
  Lexes (c :: s) ts <-> exists ts', ts = TName (c :: name_run s) :: ts' /\
    Lexes (drop (length (name_run s)) s) ts'.
Proof.
  intros Hc. destruct (name_start_facts c Hc) as (Hi & Hh & Hq & _). split.
  - inversion 1 as [|? ? ? Hi'|? ? ? ? ?|? ? ? ? ?|? ? ? ? ?|? w r ts' _ Hw Hr Hl|]; subst; try congruence.
    rewrite (name_run_app w r) by done. rewrite drop_app_length. eauto.
  - intros (ts' & -> & Hl). destruct (name_run_spec s) as (r & E & Hw & Hr).
    rewrite E at 1. constructor; [done..|]. by rewrite E, name_run_app, drop_app_length in Hl.
Qed.

Lemma lexes_punct_inv c s ts :
  is_gql_ignored c = false -> c <> ch_hash -> c <> ch_quote -> is_name_start c = false ->
  Lexes (c :: s) ts <-> exists ts', ts = TPunct c :: ts' /\ Lexes s ts'.
Proof.
  intros Hi Hh Hq Hn. split.
  - inversion 1; subst; try congruence. eauto.
  - intros (ts' & -> & Hl). by constructor.
Qed.

Lemma lexes_nil_inv ts : Lexes [] ts <-> ts = [].
Proof. split; [by inversion 1|intros ->; constructor]. Qed.

(** Every text is one of the four cases. *)
Lemma text_case s : TextCase s.
Proof.
  destruct s as [|c s]; [constructor|].
  destruct (is_gql_ignored c) eqn:Hi.
  { apply (text_skip _ s); [simpl; lia| |intros ts; by apply lexes_ignored_inv].
    intros d e saw. unfold docScanStep. cbn [ds_rest]. by rewrite Hi. }
  destruct (N.eqb_spec c ch_hash) as [->|Hh].
  { apply (text_skip _ (skip_comment s)); [simpl; pose proof (length_skip_comment s); lia| |].
    - done.
    - intros ts. apply lexes_comment_inv. }
  destruct (starts_with quotes3 (c :: s)) eqn:Hs.
  { assert (Hs' := Hs). apply starts_with_spec in Hs' as (k & E). injection E as -> ->.
    assert (forall ts, Lexes (ch_quote :: ch_quote :: ch_quote :: k) ts <->
      exists r, skip_block k = Some r /\ Lexes r ts) as Hl by (intros ts; apply (lexes_block_inv k)).
    destruct (skip_block k) as [r|] eqn:Eb.
    - apply (text_skip _ r).
      + apply length_skip_block in Eb. simpl. lia.
      + intros d e saw. unfold docScanStep. cbn -[skip_block drop]. cbn [drop]. rewrite drop_0. by rewrite Eb.
      + intros ts. rewrite Hl. naive_solver.
    - apply text_unterminated; [|intros ts (r & [=] & _)%Hl].
      intros st E. unfold docScanStep. rewrite E. cbn -[skip_block drop]. cbn [drop]. rewrite drop_0. by rewrite Eb. }
  destruct (N.eqb_spec c ch_quote) as [->|Hq].
  { pose proof (fun ts => lexes_string_inv s ts Hs) as Hl.
    destruct (skip_string s) as [r|] eqn:Eb.
    - apply (text_skip _ r).
      + apply length_skip_string in Eb. simpl. lia.
      + intros d e saw. unfold docScanStep. cbn [ds_rest]. fold quotes3. rewrite Hs. simpl. by rewrite Eb.
      + intros ts. rewrite Hl. naive_solver.
    - apply text_unterminated; [|intros ts (r & [=] & _)%Hl].
      intros st E. unfold docScanStep. rewrite E. fold quotes3. rewrite Hs. simpl. by rewrite Eb. }
  by apply text_token.
Qed.

Lemma token_step c s st :
  is_gql_ignored c = false -> c <> ch_hash -> c <> ch_quote -> ds_rest st = c :: s ->
  docScanStep st =
  if ds_expectingDefinition st && Z.eqb (ds_depth st) 0
  then doc_first_token st c s else doc_inside st c s.
Proof.
  intros Hi Hh Hq E. unfold docScanStep. rewrite E, Hi.
  apply N.eqb_neq in Hh as ->, Hq as Hq'. rewrite Hq'.
  destruct (starts_with _ _) eqn:Es; [|done].
  apply starts_with_spec in Es as (k & Ek). by injection Ek as -> _.
Qed.

Lemma not_open_close c :
  is_name_part c = true -> is_open c = false /\ is_close c = false.
Proof.
  intros Hc. split; apply not_true_iff_false; intros H; unfold is_open, is_close in H;
    repeat (apply orb_true_iff in H as [H|H]); apply N.eqb_eq in H; subst; by vm_compute in Hc.
Qed.

Lemma name_part_facts c :
  is_name_part c = true -> is_gql_ignored c = false /\ c <> ch_hash /\ c <> ch_quote.
Proof.
  intros Hc. split_and!; [|by intros ->..].
  apply not_true_iff_false. intros Hi. unfold is_gql_ignored in Hi.
  repeat (apply orb_true_iff in Hi as [Hi|Hi]); apply N.eqb_eq in Hi; subst; by vm_compute in Hc.
Qed.

Lemma open_not_close c : is_open c = true -> is_close c = false.
Proof.
  unfold is_open. rewrite !orb_true_iff, !N.eqb_eq. by intros [[-> | ->]| ->].
Qed.

(** A name inside a definition is skipped, one character at a time. *)
Lemma docrun_inside_name w r d saw :
  Forall (fun x => is_name_part x = true) w -> docrun (inside (w ++ r) d saw) = docrun (inside r d saw).
Proof.
  induction 1 as [|c w Hc _ IH]; [done|]. cbn [app]. rewrite docrun_unfold.
  destruct (name_part_facts c Hc) as (? & ? & ?), (not_open_close c Hc) as (Ho & Hcl).
  rewrite (token_step c (w ++ r)) by done. cbn [ds_expectingDefinition andb].
  unfold doc_inside. by rewrite Ho, Hcl.
Qed.

Lemma name_run_drop s :
  s = name_run s ++ drop (length (name_run s)) s /\
  Forall (fun x => is_name_part x = true) (name_run s).
Proof.
  destruct (name_run_spec s) as (r & E & Hw & _). split; [|done].
  assert (drop (length (name_run s)) s = r) as ->; [|done].
  rewrite E at 2. by rewrite drop_app_length.
Qed.

(** The scanner accepts exactly the definition grammar, at a boundary and
    inside a definition. *)
Definition boundary_ok (s : jsstr) : Prop :=
  forall saw, docrun (at_boundary s saw) = Some op_query <->
    exists ts q, Lexes s ts /\ Definitions q ts /\ saw || q = true.

Definition inside_ok (s : jsstr) : Prop :=
  forall d saw, (0 <= d)%Z -> docrun (inside s d saw) = Some op_query <->
    exists ts rest q, Lexes s ts /\ InDefinition d ts rest /\ Definitions q rest /\ saw || q = true.

Lemma boundary_token c s :
  is_gql_ignored c = false -> c <> ch_hash -> c <> ch_quote ->
  (forall r, (length r <= length s)%nat -> inside_ok r) -> boundary_ok (c :: s).
Proof.
  intros Hi Hh Hq IH saw. rewrite docrun_unfold, (token_step c s) by done. simpl.
  unfold doc_first_token. destruct (N.eqb_spec c ch_lbrace) as [->|Hb].
  { rewrite (IH s (Nat.le_refl _) 1%Z true ltac:(lia)). setoid_rewrite lexes_punct_inv; [|done..]. split.
    - intros (ts & rest & q & Hl & Hd & Hds & _). exists (TPunct ch_lbrace :: ts), true.
      split_and!; [eauto|by econstructor|by rewrite orb_true_r].
    - intros (ts & q & (ts' & -> & Hl) & Hds & _). inversion Hds; subst. eauto 8. }
  unfold readName. destruct (is_name_start c) eqn:Hn.
  2: { split; [done|]. intros (ts & q & Hl & Hds & _).
       apply lexes_punct_inv in Hl as (ts' & -> & _); [|done..]. inversion Hds; subst; done. }
  setoid_rewrite lexes_name_inv; [|done]. cbn [length drop].
  pose proof (IH (drop (length (name_run s)) s)) as IHr.
  rewrite length_drop in IHr. specialize (IHr ltac:(lia)).
  case_bool_decide as Hw.
  { rewrite (IHr 0%Z true ltac:(lia)). rewrite Hw. split.
    - intros (ts & rest & q & Hl & Hd & Hds & _). exists (TName (js "query") :: ts), true.
      split_and!; [eauto|by econstructor|by rewrite orb_true_r].
    - intros (ts & q & (ts' & -> & Hl) & Hds & _). inversion Hds; subst. eauto 8. }
  case_bool_decide as Hf.
  { rewrite (IHr 0%Z saw ltac:(lia)). rewrite Hf. split.
    - intros (ts & rest & q & Hl & Hd & Hds & Hs). exists (TName (js "fragment") :: ts), q.
      split_and!; [eauto|by econstructor|done].
    - intros (ts & q & (ts' & -> & Hl) & Hds & Hs). inversion Hds; subst. eauto 8. }
  split; [done|]. intros (ts & q & (ts' & -> & Hl) & Hds & _).
  revert Hw Hf Hds. generalize (c :: name_run s). intros w Hw Hf Hds. by inversion Hds; subst.
Qed.

Lemma inside_token c s :
  is_gql_ignored c = false -> c <> ch_hash -> c <> ch_quote ->
  (forall r, (length r <= length s)%nat -> boundary_ok r /\ inside_ok r) -> inside_ok (c :: s).
Proof.
  intros Hi Hh Hq IH d saw Hd. destruct (is_name_start c) eqn:Hn.
  { setoid_rewrite lexes_name_inv; [|done]. destruct (name_run_drop s) as [E Hw].
    destruct (name_start_facts c Hn) as (_ & _ & _ & Hc).
    assert (docrun (inside (c :: s) d saw) =
      docrun (inside (drop (length (name_run s)) s) d saw)) as ->.
    { rewrite E at 1. apply (docrun_inside_name (c :: name_run s)). by constructor. }
    destruct (IH (drop (length (name_run s)) s)) as [_ IHr]; [rewrite length_drop; lia|].
    rewrite (IHr d saw Hd).
    split.
    - intros (ts & rest & q & Hl & Hdf & ?). exists (TName (c :: name_run s) :: ts), rest, q.
      split_and!; [eauto|by constructor|naive_solver..].
    - intros (ts & rest & q & (ts' & -> & Hl) & Hdf & ?). inversion Hdf; subst. eauto 8. }
  destruct (IH s (Nat.le_refl _)) as [IHb IHi].
  setoid_rewrite lexes_punct_inv; [|done..].
  rewrite docrun_unfold, (token_step c s) by done. simpl. unfold doc_inside.
  destruct (is_open c) eqn:Ho; simpl.
  { rewrite (IHi _ saw) by lia. split.
    - intros (ts & rest & q & Hl & Hdf & ?). exists (TPunct c :: ts), rest, q.
      split_and!; [eauto|by apply def_open|naive_solver..].
    - intros (ts & rest & q & (ts' & -> & Hl) & Hdf & ?). pose proof (open_not_close c Ho) as Hnc.
      inversion Hdf; subst; try congruence; [by vm_compute in Hnc|eauto 8]. }
  destruct (is_close c) eqn:Hc; simpl.
  2: { unfold ds_skip; cbn [ds_depth ds_expectingDefinition ds_sawQueryOperation]. rewrite (IHi _ saw) by lia. split.
    - intros (ts & rest & q & Hl & Hdf & ?). exists (TPunct c :: ts), rest, q.
      split_and!; [eauto|by apply def_other|naive_solver..].
    - intros (ts & rest & q & (ts' & -> & Hl) & Hdf & ?). inversion Hdf; subst; try congruence; [by vm_compute in Hc|eauto 8]. }
  destruct (Z.ltb_spec (d - 1) 0) as [Hlt|Hge].
  { split; [done|]. intros (ts & rest & q & (ts' & -> & Hl) & Hdf & ?).
    inversion Hdf; subst; try lia; congruence. }
  destruct (Z.eqb_spec (d - 1) 0) as [Hz|Hz]; [destruct (N.eqb_spec c ch_rbrace) as [->|Hne]|]; simpl.
  - assert (d = 1%Z) as -> by lia. rewrite (IHb saw). split.
    + intros (ts & q & Hl & Hds & ?). exists (TPunct ch_rbrace :: ts), ts, q.
      split_and!; [eauto|constructor|done..].
    + intros (ts & rest & q & (ts' & -> & Hl) & Hdf & ?).
      inversion Hdf; subst; try done; [naive_solver|tauto].
  - rewrite (IHi (d - 1)%Z) by lia. split.
    + intros (ts & rest & q & Hl & Hdf & ?). exists (TPunct c :: ts), rest, q.
      split_and!; [eauto|apply def_close; [done|lia|naive_solver|done]|naive_solver..].
    + intros (ts & rest & q & (ts' & -> & Hl) & Hdf & ?).
      inversion Hdf; subst; try congruence. eauto 8.
  - rewrite (IHi (d - 1)%Z) by lia. split.
    + intros (ts & rest & q & Hl & Hdf & ?). exists (TPunct c :: ts), rest, q.
      split_and!; [eauto|apply def_close; [done|lia|lia|done]|naive_solver..].
    + intros (ts & rest & q & (ts' & -> & Hl) & Hdf & ?).
      inversion Hdf; subst; try congruence; [lia|]. eauto 8.
Qed.

Lemma docrun_spec s : boundary_ok s /\ inside_ok s.
Proof.
  induction s as [s IH] using (well_founded_ind (Wf_nat.well_founded_ltof _ length)).
  unfold Wf_nat.ltof in IH.
  destruct (text_case s) as [|s r Hlt Hstep Hlex|s Hstop Hno|c s Hi Hh Hq].
  - split.
    + intros saw. rewrite docrun_unfold. setoid_rewrite lexes_nil_inv. simpl. split.
      * intros E. exists [], false. destruct saw; [|done]. split_and!; [done|constructor|done].
      * intros (ts & q & -> & Hds & Hs). inversion Hds; subst. by destruct saw.
    + intros d saw Hd. rewrite docrun_unfold. setoid_rewrite lexes_nil_inv. simpl.
      unfold doc_verdict. simpl. split.
      * by destruct (negb _).
      * intros (ts & rest & q & -> & Hdf & _). inversion Hdf.
  - destruct (IH r Hlt) as [IHb IHi]. split.
    + intros saw. rewrite docrun_unfold, Hstep. setoid_rewrite Hlex. apply IHb.
    + intros d saw Hd. rewrite docrun_unfold, Hstep. setoid_rewrite Hlex. by apply IHi.
  - split.
    + intros saw. rewrite docrun_unfold, Hstop by done. split; [done|].
      by intros (ts & q & Hl%Hno & _).
    + intros d saw Hd. rewrite docrun_unfold, Hstop by done. split; [done|].
      by intros (ts & rest & q & Hl%Hno & _).
  - assert (forall r, (length r <= length s)%nat -> boundary_ok r /\ inside_ok r) as IH'
      by (intros r Hr; apply IH; simpl; lia).
    split; [apply boundary_token|apply inside_token]; try done. intros r Hr. by apply IH'.
Qed.

Lemma classifyGraphqlDocument_run document :
  classifyGraphqlDocument document = op_query <->
  docrun (docScanStart document) = Some op_query.
Proof.
  unfold classifyGraphqlDocument, docrun, doc_measure. cbn [docScanStart ds_rest].
  destruct (js_while _ _ _) as [[]|]; naive_solver.
Qed.

(** The document scanner accepts exactly the query documents: the text
    splits into lexemes (with every string and block string closed), and these
    into definitions that are queries or fragments, each ending where its
    outermost brace closes, with at least one query. A mutation, a
    subscription, an unknown definition, an open bracket or a header without a
    body anywhere in the document make it a mutation. *)
Theorem classifyGraphqlDocument_spec document :
  classifyGraphqlDocument document = op_query <-> QueryDocument document.
Proof.
  rewrite classifyGraphqlDocument_run. rewrite (proj1 (docrun_spec document) false).
  unfold QueryDocument. cbn [orb]. split; [intros (ts & q & ? & ? & ->)|intros (ts & ? & ?)]; eauto.
Qed.

(** The scan returns: fuel for one iteration per code unit is enough,
    whatever the document. *)
Theorem classifyGraphqlDocument_terminates document fuel :
  (length document < fuel)%nat ->
  js_while docScanStep fuel (docScanStart document) = Some (classifyGraphqlDocument document).
Proof.
  intros Hf. unfold classifyGraphqlDocument.
  destruct (js_while_total _ doc_measure docScanStep_decreases fuel (docScanStart document) Hf) as [r Hr].
  rewrite Hr. rewrite (js_while_fuel _ doc_measure docScanStep_decreases _ fuel), Hr; [done|unfold doc_measure; simpl; lia|done].
Qed.

Lemma classifyGraphqlDocument_terminates_witness :
  js_while docScanStep 20 (docScanStart (js "{ a }")) = Some (classifyGraphqlDocument (js "{ a }")).
Proof. apply (classifyGraphqlDocument_terminates (js "{ a }") 20). vm_compute. lia. Defined.
