(* ===== verification/GraphqlBody.v ===== *)
(** * One document for every JSON reader

    A body classified "query" is a JSON object with exactly one [query] member,
    so a reader that keeps the first of two duplicates and one that keeps the
    last extract the same document: the raw key scan is related to the parse of
    the same text. *)
From S2P Require Import Prelude JsJson Graphql GraphqlSpec.

(** ** The key scan *)

Definition key_measure (st : KeyScan) : nat := length (ks_rest st).

Lemma scanString_length s : forall v e r, scanString s = Some (v, e, r) -> (length r < length s)%nat.
Proof.
  induction s as [s IH] using (well_founded_ind (Wf_nat.well_founded_ltof _ length)).
  unfold Wf_nat.ltof in IH. intros v e r. destruct s as [|c s]; [done|]. cbn [scanString].
  destruct (N.eqb c ch_quote); [intros [= _ _ <-]; simpl; lia|].
  destruct (N.eqb c ch_backslash).
  - destruct s as [|x s]; [done|]. destruct (scanString s) as [[[v' e'] r']|] eqn:E; [|done].
    intros [= _ _ <-]. apply IH in E; simpl in *; lia.
  - destruct (scanString s) as [[[v' e'] r']|] eqn:E; [|done].
    intros [= _ _ <-]. apply IH in E; simpl in *; lia.
Qed.

Lemma keyScanStep_decreases st st' :
  keyScanStep st = inl st' -> (key_measure st' < key_measure st)%nat.
Proof.
  unfold keyScanStep, key_measure. destruct (ks_rest st) as [|c rest]; [done|].
  destruct (N.eqb c ch_quote); [|intros [= <-]; simpl; lia].
  destruct (scanString rest) as [[[v e] r]|] eqn:E; [|done]. apply scanString_length in E.
  destruct (_ && _); [destruct e; [done|]|]; intros [= <-]; simpl; lia.
Qed.

Definition keyrun (s : jsstr) (d k : Z) : option Z :=
  let st := {| ks_rest := s; ks_depth := d; ks_count := k |} in
  js_while keyScanStep (S (key_measure st)) st.

Lemma keyrun_unfold s d k :
  keyrun s d k =
  match keyScanStep {| ks_rest := s; ks_depth := d; ks_count := k |} with
  | inl st => keyrun (ks_rest st) (ks_depth st) (ks_count st)
  | inr r => Some r
  end.
Proof.
  unfold keyrun at 1. cbn zeta.
  rewrite (js_while_unfold _ key_measure keyScanStep_decreases).
  by destruct (keyScanStep _) as [[]|].
Qed.

(** A character that neither opens a string nor changes the depth. *)
Definition inert (c : N) : bool :=
  negb (N.eqb c ch_quote || is_open_json c || is_close_json c).

Lemma keyrun_inert w r d k :
  forallb inert w = true -> keyrun (w ++ r) d k = keyrun r d k.
Proof.
  induction w as [|c w IH]; [done|]. cbn [forallb app]. intros [Hc Hw]%andb_true_iff.
  rewrite keyrun_unfold. unfold inert in Hc. apply negb_true_iff, orb_false_iff in Hc as [[Hq Ho]%orb_false_iff Hcl].
  unfold keyScanStep. cbn [ks_rest ks_depth ks_count]. rewrite Hq, Ho, Hcl. by apply IH.
Qed.

Lemma skip_ws_split s : exists w, s = w ++ skip_ws s /\ forallb is_json_ws w = true.
Proof.
  induction s as [|c s (w & E & Hw)]; [by exists []|]. simpl. destruct (is_json_ws c) eqn:Hc.
  - exists (c :: w). simpl. by rewrite Hc, <- E.
  - by exists [].
Qed.

Lemma forallb_impl {A} (f g : A -> bool) l :
  (forall x, f x = true -> g x = true) -> forallb f l = true -> forallb g l = true.
Proof. rewrite !forallb_In. auto. Qed.

Lemma ws_inert c : is_json_ws c = true -> inert c = true.
Proof. unfold is_json_ws. rewrite !orb_true_iff, !N.eqb_eq. by intros [[[->| ->]| ->]| ->]. Qed.

Lemma keyrun_skip_ws s d k : keyrun s d k = keyrun (skip_ws s) d k.
Proof.
  destruct (skip_ws_split s) as (w & E & Hw). rewrite E at 1.
  apply keyrun_inert. revert Hw. apply forallb_impl, ws_inert.
Qed.

Lemma skip_ws_idem s : skip_ws (skip_ws s) = skip_ws s.
Proof.
  induction s as [|c s IH]; [done|]. simpl. destruct (is_json_ws c) eqn:Hc; [done|].
  simpl. by rewrite Hc.
Qed.

(** ** Parsed text, scanned *)

Lemma hex_plain c v : hex_val c = Some v -> N.eqb c ch_quote = false /\ N.eqb c ch_backslash = false.
Proof.
  unfold hex_val. intros H. split; apply N.eqb_neq; intros ->; by vm_compute in H.
Qed.

Lemma scan_parsed_string s : forall v r,
  parse_string s = Some (v, r) ->
  exists raw esc, scanString s = Some (raw, esc, r) /\ (esc = false -> raw = v).
Proof.
  induction s as [s IH] using (well_founded_ind (Wf_nat.well_founded_ltof _ length)).
  unfold Wf_nat.ltof in IH. intros v r. destruct s as [|c s]; [done|].
  cbn [parse_string scanString].
  destruct (N.eqb c ch_quote); [intros [= <- <-]; eauto|].
  destruct (N.eqb c ch_backslash).
  - destruct s as [|e s]; [done|]. destruct (N.eqb e 117).
    + destruct s as [|h1 [|h2 [|h3 [|h4 s]]]]; try done.
      destruct (hex_val h1) eqn:E1; [|done]. destruct (hex_val h2) eqn:E2; [|done].
      destruct (hex_val h3) eqn:E3; [|done]. destruct (hex_val h4) eqn:E4; [|done].
      destruct (parse_string s) as [[v' r']|] eqn:E; [|done]. intros [= _ <-].
      apply IH in E as (raw & esc & E & _); [|simpl; lia].
      apply hex_plain in E1 as [A1 B1], E2 as [A2 B2], E3 as [A3 B3], E4 as [A4 B4].
      cbn [scanString]. rewrite A1, B1, A2, B2, A3, B3, A4, B4, E. by do 2 eexists.
    + destruct (simple_escape e); [|done].
      destruct (parse_string s) as [[v' r']|] eqn:E; [|done]. intros [= _ <-].
      apply IH in E as (raw & esc & E & _); [|simpl; lia]. rewrite E. by do 2 eexists.
  - destruct (N.ltb c 32); [done|].
    destruct (parse_string s) as [[v' r']|] eqn:E; [|done]. intros [= <- <-].
    apply IH in E as (raw & esc & E & Hv); [|simpl; lia]. rewrite E.
    do 2 eexists. split; [done|]. intros ->. by rewrite Hv.
Qed.

Lemma digits_split s d r :
  take_digits s = (d, r) -> s = d ++ r /\ forallb is_digit d = true.
Proof.
  revert d r. induction s as [|c s IH]; intros d r; simpl; [by intros [= <- <-]|].
  destruct (is_digit c) eqn:Hc; [|by intros [= <- <-]].
  destruct (take_digits s) as [d' r']. intros [= <- <-].
  destruct (IH _ _ eq_refl) as [-> Hd]. simpl. by rewrite Hc.
Qed.

Lemma digit_inert c : is_digit c = true -> inert c = true.
Proof.
  unfold is_digit. intros [H1%N.leb_le H2%N.leb_le]%andb_true_iff.
  unfold inert, is_open_json, is_close_json. apply negb_true_iff.
  rewrite !orb_false_iff, !N.eqb_neq. unfold ch_quote, ch_lbrace, ch_lbrack, ch_rbrace, ch_rbrack. lia.
Qed.

(** A number is made of inert characters. *)
Lemma number_split s t r :
  parse_number s = Some (t, r) -> exists w, s = w ++ r /\ forallb inert w = true.
Proof.
  assert (forall s d r, take_digits s = (d, r) -> exists w, s = w ++ r /\ forallb inert w = true) as Hdig.
  { intros s' d r' [-> Hd]%digits_split. exists d. split; [done|]. revert Hd. apply forallb_impl, digit_inert. }
  assert (forall s t r, parse_int s = Some (t, r) -> exists w, s = w ++ r /\ forallb inert w = true) as Hint.
  { intros [|c s'] t' r'; simpl; [done|]. destruct (N.eqb_spec c ch_zero) as [->|].
    - intros [= _ <-]. by exists [ch_zero].
    - destruct (is_digit c) eqn:Hc; [|done]. destruct (take_digits s') as [d r''] eqn:E.
      intros [= _ <-]. apply Hdig in E as (w & -> & Hw). exists (c :: w). simpl.
      by rewrite (digit_inert c Hc). }
  assert (forall s t r, parse_frac s = Some (t, r) -> exists w, s = w ++ r /\ forallb inert w = true) as Hfrac.
  { intros [|c s'] t' r'; simpl; [intros [= _ <-]; by exists []|].
    destruct (N.eqb_spec c ch_dot) as [->|]; [|intros [= _ <-]; by exists []].
    destruct (take_digits s') as [[|d ds] r''] eqn:E; [done|]. intros [= _ <-].
    apply Hdig in E as (w & -> & Hw). by exists (ch_dot :: w). }
  assert (forall s t r, parse_exp s = Some (t, r) -> exists w, s = w ++ r /\ forallb inert w = true) as Hexp.
  { intros [|c s'] t' r'; simpl; [intros [= _ <-]; by exists []|].
    destruct (N.eqb c 101 || N.eqb c 69) eqn:Hc; [|intros [= _ <-]; by exists []].
    assert (inert c = true) as Hci.
    { apply orb_true_iff in Hc as [->%N.eqb_eq| ->%N.eqb_eq]; done. }
    destruct s' as [|x s2]; [done|].
    destruct (N.eqb x ch_plus || N.eqb x ch_minus) eqn:Hx.
    - assert (inert x = true) as Hxi by (apply orb_true_iff in Hx as [->%N.eqb_eq| ->%N.eqb_eq]; done).
      destruct (take_digits s2) as [[|d ds] r''] eqn:E; [done|]. intros [= _ <-].
      apply Hdig in E as (w & -> & Hw). exists (c :: x :: w). simpl. by rewrite Hci, Hxi.
    - destruct (take_digits (x :: s2)) as [[|d ds] r''] eqn:E; [done|]. intros [= _ <-].
      apply Hdig in E as (w & -> & Hw). exists (c :: w). simpl. by rewrite Hci. }
  unfold parse_number.
  destruct (match s with [] => _ | _ => _ end) as [sign s0] eqn:Es.
  assert (exists w, s = w ++ s0 /\ forallb inert w = true) as (w0 & -> & H0).
  { destruct s as [|c s']; [injection Es as <- <-; by exists []|].
    destruct (N.eqb_spec c ch_minus) as [->|]; injection Es as <- <-; [by exists [ch_minus]|by exists []]. }
  destruct (parse_int s0) as [[i s1]|] eqn:E1; [|done]. apply Hint in E1 as (w1 & -> & H1).
  destruct (parse_frac s1) as [[f s2]|] eqn:E2; [|done]. apply Hfrac in E2 as (w2 & -> & H2).
  destruct (parse_exp s2) as [[e s3]|] eqn:E3; [|done]. apply Hexp in E3 as (w3 & -> & H3).
  intros [= _ <-]. exists (w0 ++ w1 ++ w2 ++ w3). split; [by rewrite <- !app_assoc|].
  by rewrite !forallb_app, H0, H1, H2, H3.
Qed.

Definition is_query_member (m : jsstr * json) : bool := bool_decide (m.1 = js "query").

Lemma keyrun_string s v r d k :
  parse_string s = Some (v, r) -> Z.eqb d 1 && colon_next r = false ->
  keyrun (ch_quote :: s) d k = keyrun r d k.
Proof.
  intros (raw & esc & Hs & _)%scan_parsed_string Hd. rewrite keyrun_unfold.
  unfold keyScanStep. cbn [ks_rest ks_depth ks_count N.eqb ch_quote Pos.eqb]. by rewrite Hs, Hd.
Qed.

Lemma keyrun_open c s d k :
  is_open_json c = true -> keyrun (c :: s) d k = keyrun s (d + 1) k.
Proof.
  intros Ho. rewrite keyrun_unfold. unfold keyScanStep. cbn [ks_rest ks_depth ks_count].
  rewrite Ho. apply orb_true_iff in Ho as [->%N.eqb_eq| ->%N.eqb_eq]; done.
Qed.

Lemma keyrun_close c s d k :
  is_close_json c = true -> keyrun (c :: s) d k = keyrun s (d - 1) k.
Proof.
  intros Hc. rewrite keyrun_unfold. unfold keyScanStep. cbn [ks_rest ks_depth ks_count].
  rewrite Hc. apply orb_true_iff in Hc as [->%N.eqb_eq| ->%N.eqb_eq]; done.
Qed.

Lemma keyrun_char c s d k : inert c = true -> keyrun (c :: s) d k = keyrun s d k.
Proof. intros Hc. apply (keyrun_inert [c] s). simpl. by rewrite Hc. Qed.

Lemma not_colon_next s c r : skip_ws s = c :: r -> N.eqb c ch_colon = false -> colon_next s = false.
Proof. intros E H. unfold colon_next. by rewrite E. Qed.

Lemma starts_with_drop p s : starts_with p s = true -> s = p ++ drop (length p) s.
Proof. intros (k & ->)%starts_with_spec. by rewrite drop_app_length. Qed.

Definition value_ok (n : nat) : Prop := forall s v r d k,
  parse_value n s = Some (v, r) -> (1 <= d)%Z -> colon_next r = false ->
  keyrun s d k = keyrun r d k.
Definition members_ok (n : nat) : Prop := forall s ms r d k,
  parse_members n s = Some (ms, r) -> (2 <= d)%Z -> keyrun s d k = keyrun r (d - 1) k.
Definition items_ok (n : nat) : Prop := forall s vs r d k,
  parse_items n s = Some (vs, r) -> (2 <= d)%Z -> keyrun s d k = keyrun r (d - 1) k.

Lemma value_step n : members_ok n -> items_ok n -> value_ok (S n).
Proof.
  intros IHm IHi s v r d k E Hd Hc. cbn [parse_value] in E.
  destruct s as [|c s]; [done|].
  destruct (N.eqb_spec c ch_quote) as [->|_].
  { destruct (parse_string s) as [[w r']|] eqn:Es; [|done]. injection E as <- <-.
    eapply keyrun_string; [done|]. by rewrite Hc, andb_false_r. }
  destruct (N.eqb_spec c ch_lbrace) as [->|_].
  { rewrite keyrun_open, keyrun_skip_ws by done.
    destruct (skip_ws s) as [|x s2]; [done|].
    destruct (N.eqb_spec x ch_rbrace) as [->|_].
    - injection E as <- <-. rewrite keyrun_close by done. f_equal. lia.
    - destruct (parse_members n (x :: s2)) as [[ms r']|] eqn:Em; [|done]. injection E as <- <-.
      rewrite (IHm _ _ _ _ _ Em) by lia. f_equal. lia. }
  destruct (N.eqb_spec c ch_lbrack) as [->|_].
  { rewrite keyrun_open, keyrun_skip_ws by done.
    destruct (skip_ws s) as [|x s2]; [done|].
    destruct (N.eqb_spec x ch_rbrack) as [->|_].
    - injection E as <- <-. rewrite keyrun_close by done. f_equal. lia.
    - destruct (parse_items n (x :: s2)) as [[vs r']|] eqn:Em; [|done]. injection E as <- <-.
      rewrite (IHi _ _ _ _ _ Em) by lia. f_equal. lia. }
  assert (forall p, forallb inert p = true -> starts_with p (c :: s) = true ->
    keyrun (c :: s) d k = keyrun (drop (length p) (c :: s)) d k) as Hlit.
  { intros p Hp Hsw. rewrite (starts_with_drop _ _ Hsw) at 1. by apply keyrun_inert. }
  destruct (starts_with (js "true") _) eqn:E1; [injection E as _ <-; by apply (Hlit (js "true"))|].
  destruct (starts_with (js "false") _) eqn:E2; [injection E as _ <-; by apply (Hlit (js "false"))|].
  destruct (starts_with (js "null") _) eqn:E3; [injection E as _ <-; by apply (Hlit (js "null"))|].
  destruct (parse_number _) as [[t r']|] eqn:En; [|done]. injection E as _ <-.
  apply number_split in En as (w & -> & Hw). by apply keyrun_inert.
Qed.

(** A member after its key's colon: the value, then a comma or the brace. *)
Lemma member_value n s3 v s4 e s5 d k :
  value_ok n -> parse_value n (skip_ws s3) = Some (v, s4) -> skip_ws s4 = e :: s5 ->
  N.eqb e ch_colon = false -> (1 <= d)%Z ->
  keyrun (ch_colon :: s3) d k = keyrun (e :: s5) d k.
Proof.
  intros IHv Ev Ee He Hd. rewrite keyrun_char, keyrun_skip_ws by done.
  rewrite (IHv _ _ _ _ _ Ev Hd) by by eapply not_colon_next.
  by rewrite keyrun_skip_ws, Ee.
Qed.

(** The parse of one member list, taken apart. *)
Lemma parse_members_inv n s ms r :
  parse_members (S n) s = Some (ms, r) ->
  exists s1 key s2 s3 v s4 e s5,
    s = ch_quote :: s1 /\ parse_string s1 = Some (key, s2) /\ skip_ws s2 = ch_colon :: s3 /\
    parse_value n (skip_ws s3) = Some (v, s4) /\ skip_ws s4 = e :: s5 /\
    ((e = ch_rbrace /\ ms = [(key, v)] /\ r = s5) \/
     exists ms', e = ch_comma /\ ms = (key, v) :: ms' /\
       parse_members n (skip_ws s5) = Some (ms', r)).
Proof.
  cbn [parse_members]. destruct s as [|c s1]; [done|].
  destruct (N.eqb_spec c ch_quote) as [->|]; [|done]. cbn [negb].
  destruct (parse_string s1) as [[key s2]|] eqn:Ek; [|done].
  destruct (skip_ws s2) as [|x s3] eqn:Ex; [done|].
  destruct (N.eqb_spec x ch_colon) as [->|]; [|done]. cbn [negb].
  destruct (parse_value n (skip_ws s3)) as [[v s4]|] eqn:Ev; [|done].
  destruct (skip_ws s4) as [|e s5] eqn:Ee; [done|]. intros E.
  exists s1, key, s2, s3, v, s4, e, s5. split_and!; try done.
  destruct (N.eqb_spec e ch_comma) as [->|].
  - right. destruct (parse_members n _) as [[ms' r']|] eqn:Em; [|done].
    injection E as <- <-. eauto.
  - left. destruct (N.eqb_spec e ch_rbrace) as [->|]; [|done]. by injection E as <- <-.
Qed.

Lemma members_step n : value_ok n -> members_ok n -> members_ok (S n).
Proof.
  intros IHv IHm s ms r d k E Hd.
  apply parse_members_inv in E as (s1 & key & s2 & s3 & v & s4 & e & s5 & -> & Ek & Ec & Ev & Ee & E).
  rewrite (keyrun_string _ _ _ d k Ek) by (apply andb_false_intro1, Z.eqb_neq; lia).
  rewrite keyrun_skip_ws, Ec.
  destruct E as [(-> & -> & ->)|(ms' & -> & -> & Em)].
  - rewrite (member_value _ _ _ _ _ _ _ _ IHv Ev Ee) by (done || lia). by apply keyrun_close.
  - rewrite (member_value _ _ _ _ _ _ _ _ IHv Ev Ee) by (done || lia).
    rewrite keyrun_char, keyrun_skip_ws by done. by apply (IHm _ _ _ _ _ Em).
Qed.

Lemma items_step n : value_ok n -> items_ok n -> items_ok (S n).
Proof.
  intros IHv IHi s vs r d k E Hd. cbn [parse_items] in E.
  destruct (parse_value n s) as [[v s1]|] eqn:Ev; [|done].
  destruct (skip_ws s1) as [|e s2] eqn:Ee; [done|].
  assert (N.eqb e ch_colon = false) as He.
  { destruct (N.eqb_spec e ch_comma) as [->|]; [done|]. by destruct (N.eqb_spec e ch_rbrack) as [->|]. }
  rewrite (IHv _ _ _ _ _ Ev) by (lia || by eapply not_colon_next). rewrite keyrun_skip_ws, Ee.
  destruct (N.eqb_spec e ch_comma) as [->|].
  - destruct (parse_items n (skip_ws s2)) as [[vs' r']|] eqn:Ei; [|done]. injection E as <- <-.
    rewrite keyrun_char, keyrun_skip_ws by done. by apply (IHi _ _ _ _ _ Ei).
  - destruct (N.eqb_spec e ch_rbrack) as [->|]; [|done]. injection E as <- <-.
    by apply keyrun_close.
Qed.

Lemma parsed_ok n : value_ok n /\ members_ok n /\ items_ok n.
Proof.
  induction n as [|n (IHv & IHm & IHi)]; [by split_and!|].
  split_and!; [by apply value_step|by apply members_step|by apply items_step].
Qed.

(** At the top level the scan fails closed on an escaped key, or counts the
    [query] members. *)
Lemma members_counted n : forall s ms r k,
  parse_members n s = Some (ms, r) ->
  keyrun s 1 k = Some (-1)%Z \/
  keyrun s 1 k = keyrun r 0 (k + Z.of_nat (length (List.filter is_query_member ms))).
Proof.
  induction n as [|n IH]; intros s ms r k E; [done|].
  apply parse_members_inv in E as (s1 & key & s2 & s3 & v & s4 & e & s5 & -> & Ek & Ec & Ev & Ee & E).
  apply scan_parsed_string in Ek as (raw & esc & Es & Hraw).
  rewrite keyrun_unfold. unfold keyScanStep.
  cbn [ks_rest ks_depth ks_count N.eqb ch_quote Pos.eqb]. rewrite Es.
  assert (colon_next s2 = true) as -> by (unfold colon_next; by rewrite Ec).
  change ((1 =? 1)%Z && true) with true. cbn iota.
  destruct esc; [by left|]. rewrite (Hraw eq_refl). cbn [ks_rest ks_depth ks_count].
  rewrite keyrun_skip_ws, Ec. set (k' := if bool_decide (key = _) then _ else _).
  assert (k' = k + Z.of_nat (length (List.filter is_query_member [(key, v)])))%Z as Hk.
  { subst k'. simpl. unfold is_query_member. simpl. case_bool_decide; simpl; lia. }
  destruct (parsed_ok n) as (IHv & _ & _).
  destruct E as [(-> & -> & ->)|(ms' & -> & -> & Em)].
  - right. rewrite (member_value _ _ _ _ _ _ _ _ IHv Ev Ee) by done.
    rewrite keyrun_close by done. by rewrite Hk.
  - rewrite (member_value _ _ _ _ _ _ _ _ IHv Ev Ee) by done.
    rewrite keyrun_char, keyrun_skip_ws by done.
    destruct (IH _ _ _ k' Em) as [->| ->]; [by left|right]. f_equal. rewrite Hk.
    change ((key, v) :: ms') with ([(key, v)] ++ ms'). rewrite List.filter_app, length_app. lia.
Qed.

Lemma countTopLevel_run text : countTopLevelLiteralQueryKeys text = default (-1)%Z (keyrun text 0 0).
Proof. done. Qed.

Lemma count_members text ms :
  json_parse text = Some (JObj ms) -> countTopLevelLiteralQueryKeys text <> (-1)%Z ->
  countTopLevelLiteralQueryKeys text = Z.of_nat (length (List.filter is_query_member ms)).
Proof.
  rewrite countTopLevel_run, keyrun_skip_ws. unfold json_parse.
  destruct (parse_value _ _) as [[v rest]|] eqn:E; [|done].
  destruct (skip_ws rest) eqn:Er; [|done]. intros [= ->].
  unfold json_fuel in E. cbn [parse_value] in E.
  destruct (skip_ws text) as [|c s]; [done|].
  destruct (N.eqb_spec c ch_quote) as [->|_]; [by destruct (parse_string s) as [[]|]|].
  destruct (N.eqb_spec c ch_lbrace) as [->|_].
  - rewrite keyrun_open, keyrun_skip_ws by done.
    destruct (skip_ws s) as [|x s2]; [done|].
    assert (forall k, keyrun rest 0 k = Some k) as Hrest by (intros k; by rewrite keyrun_skip_ws, Er).
    destruct (N.eqb_spec x ch_rbrace) as [->|_].
    + injection E as <- <-. by rewrite keyrun_close, Hrest by done.
    + destruct (parse_members _ _) as [[ms' r']|] eqn:Em; [|done]. injection E as -> ->.
      change (0 + 1)%Z with 1%Z.
      destruct (members_counted _ _ _ _ 0%Z Em) as [->| ->]; [done|]. by rewrite Hrest.
  - destruct (N.eqb c ch_lbrack).
    { destruct (skip_ws s) as [|x s2]; [done|]. destruct (N.eqb x ch_rbrack); [done|].
      by destruct (parse_items _ _) as [[]|]. }
    repeat destruct (starts_with _ _); try done. by destruct (parse_number _) as [[]|].
Qed.

(** C14: a body is classified a query only when every JSON reader runs the
    classified document: it parses as an object, exactly one of its members is
    named [query] (so the first and the last of duplicates are the same), that
    member is a string, and the string is a query document. A missing, empty,
    truncated, duplicated or non-string body is a mutation. *)
Theorem classifyGraphqlBody_query body :
  classifyGraphqlBody body = op_query ->
  exists text members document,
    body = Some text /\ json_parse text = Some (JObj members) /\
    List.filter is_query_member members = [(js "query", JStr document)] /\
    QueryDocument document.
Proof.
  destruct body as [[|c text]|]; [done| |done]. cbn [classifyGraphqlBody].
  set (body := c :: text). destruct (json_parse body) as [v|] eqn:Ep; [|done].
  destruct v as [| | | | |members]; try done.
  destruct (obj_get _ members) as [v|] eqn:Eg; [|done]. destruct v as [| | |document| |]; try done.
  destruct (Z.eqb_spec (countTopLevelLiteralQueryKeys body) 1) as [Ec|]; [|done]. cbn [negb].
  intros Hd. exists body, members, document. split_and!; [done..| |].
  - rewrite (count_members _ _ Ep) in Ec by lia.
    assert (exists m, List.filter is_query_member members = [m]) as (m & Em).
    { destruct (List.filter _ members) as [|m [|]]; simpl in Ec; try lia. eauto. }
    unfold obj_get in Eg. apply fmap_Some in Eg as ([key v] & Ef & Ev). simpl in Ev. subst v.
    apply find_some in Ef as [Hin Hk]. apply bool_decide_eq_true in Hk. simpl in Hk. subst key.
    apply in_rev in Hin.
    assert (In (js "query", JStr document) (List.filter is_query_member members)) as Hf
      by (apply filter_In; by split).
    rewrite Em in Hf. destruct Hf as [->|[]]. done.
  - rewrite classifyGraphqlDocument_run in Hd. rewrite (proj1 (docrun_spec document) false) in Hd.
    destruct Hd as (ts & q & ? & ? & Hq). cbn [orb] in Hq. subst q. by exists ts.
Qed.

Lemma classifyGraphqlBody_query_witness :
  exists text members document,
    Some (jsq "{`query`:`query { a }`}") = Some text /\ json_parse text = Some (JObj members) /\
    List.filter is_query_member members = [(js "query", JStr document)] /\
    QueryDocument document.
Proof. apply (classifyGraphqlBody_query (Some (jsq "{`query`:`query { a }`}"))). vm_compute. reflexivity. Defined.
