(* ===== verification/Catalog.v ===== *)
(** * The app-permission catalog

    [packages/api/src/apps/app-permissions/types.ts], [index.ts],
    [validate.ts] and
    [packages/api/src/services/policy-translation/translate/app-catalog.ts]:
    the tools of every app, the registry they are looked up in, and how a
    request is matched against a tool or a whole app. *)
From S2P Require Import Prelude PathMatch PolicyTypes EndpointMatch JsJson Graphql.

(** ** Catalog data *)

Record AppTool := {
  at_id : jsstr;
  at_name : jsstr;
  at_description : jsstr;
  at_hostPattern : jsstr;
  at_hostAliasPatterns : option (list jsstr);
  at_pathPattern : jsstr;
  at_aliasPatterns : option (list jsstr);
  at_method : option jsstr;
  at_methods : option (list jsstr);
  at_graphqlOps : option GraphqlOpKind
}.

Inductive Category := cat_read | cat_write.

#[export] Instance Category_eq_dec : EqDecision Category.
Proof. solve_decision. Defined.

Record AppToolGroup := {
  ag_category : Category;
  ag_tools : list AppTool;
  ag_wildcard : option AppTool
}.

(** [unlisted], [exhaustive] and [unlistedReads] each have one value or are
    absent: present is [true]. *)
Record AppPermissionDefinition := {
  ad_provider : jsstr;
  ad_groups : list AppToolGroup;
  ad_unlisted_block : bool;
  ad_exhaustive : bool;
  ad_unlistedReads_allow : bool
}.

Definition allGroupTools (group : AppToolGroup) : list AppTool :=
  match ag_wildcard group with Some w => [w] | None => [] end ++ ag_tools group.

(** A tool's HTTP methods; empty = any method. *)
Definition methodsOf (tool : AppTool) : list jsstr :=
  match at_methods tool with
  | Some ms => ms
  | None => match at_method tool with
            | Some [] | None => []
            | Some m => [m]
            end
  end.

Definition hostPatternsOf (tool : AppTool) : list jsstr :=
  at_hostPattern tool :: default [] (at_hostAliasPatterns tool).

Definition toolFactory (hostPattern : jsstr) (hostAliasPatterns : option (list jsstr))
    (id name description pathPattern : jsstr) (methods : list jsstr)
    (aliasPatterns : option (list jsstr)) : AppTool :=
  {| at_id := id; at_name := name; at_description := description;
     at_hostPattern := hostPattern; at_hostAliasPatterns := hostAliasPatterns;
     at_pathPattern := pathPattern; at_aliasPatterns := aliasPatterns;
     at_method := match methods with [m] => Some m | _ => None end;
     at_methods := match methods with [_] => None | ms => Some ms end;
     at_graphqlOps := None |}.

Definition prefixOf (pattern : jsstr) : jsstr :=
  if ends_with (js "*") pattern then drop_last 1 pattern else pattern.

(** Is a group's wildcard a superset of every tool in the group? *)
Definition wildcardCoversGroup (wildcard : AppTool) (tools : list AppTool) : bool :=
  let prefixes :=
    map prefixOf (at_pathPattern wildcard :: default [] (at_aliasPatterns wildcard)) in
  let wildcardMethods := methodsOf wildcard in
  let wildcardHosts := hostPatternsOf wildcard in
  forallb (fun tool =>
    forallb (fun host => bool_decide (host ∈ wildcardHosts)) (hostPatternsOf tool) &&
    forallb (fun pattern => existsb (fun prefix => starts_with prefix pattern) prefixes)
      (at_pathPattern tool :: default [] (at_aliasPatterns tool)) &&
    forallb (fun method => bool_decide (method ∈ wildcardMethods)) (methodsOf tool)) tools.

Inductive AppPermissionLevel := lvl_allow | lvl_manual_approval | lvl_block.

Definition mapRuleActionToPermission (action : jsstr) : AppPermissionLevel :=
  if bool_decide (action = js "block") then lvl_block
  else if bool_decide (action = js "allow") then lvl_allow
  else lvl_manual_approval.

(** ** The public projection *)

Record AppToolSummary := { ts_id : jsstr; ts_name : jsstr; ts_description : jsstr }.

(** [gs_wildcardComplete] is absent with the wildcard. *)
Record AppToolGroupSummary := {
  gs_category : Category;
  gs_tools : list AppToolSummary;
  gs_wildcard : option AppToolSummary;
  gs_wildcardComplete : option bool
}.

Record AppPermissionDefinitionSummary := {
  sum_provider : jsstr;
  sum_groups : list AppToolGroupSummary;
  sum_unlisted_block : bool;
  sum_exhaustive : bool;
  sum_unlistedReads_allow : bool
}.

Definition toToolSummary (tool : AppTool) : AppToolSummary :=
  {| ts_id := at_id tool; ts_name := at_name tool; ts_description := at_description tool |}.

Definition toAppPermissionDefinitionSummary (def : AppPermissionDefinition)
  : AppPermissionDefinitionSummary :=
  {| sum_provider := ad_provider def;
     sum_groups := map (fun group =>
       {| gs_category := ag_category group;
          gs_tools := map toToolSummary (ag_tools group);
          gs_wildcard := toToolSummary <$> ag_wildcard group;
          gs_wildcardComplete :=
            (fun w => wildcardCoversGroup w (ag_tools group)) <$> ag_wildcard group |})
       (ad_groups def);
     sum_unlisted_block := ad_unlisted_block def;
     sum_exhaustive := ad_exhaustive def;
     sum_unlistedReads_allow := ad_unlistedReads_allow def |}.

(** ** The registry *)

(** [permissionRegistry]: provider to definition. *)
Abbreviation Registry := (gmap jsstr AppPermissionDefinition).

Definition register (reg : Registry) (def : AppPermissionDefinition) : Registry :=
  <[ad_provider def := def]> reg.

Definition getAppPermissionDefinition (reg : Registry) (provider : jsstr)
  : option AppPermissionDefinition := reg !! provider.

(** ** Service errors *)

Inductive ServiceErrorCode :=
| NOT_FOUND | BAD_REQUEST | UNPROCESSABLE | CONFLICT | FORBIDDEN | GONE | RATE_LIMITED.

Record ServiceError := { se_code : ServiceErrorCode; se_message : jsstr }.

(** A fallible operation: [inl] is the thrown error. *)
Abbreviation outcome A := (ServiceError + A)%type.

Inductive UnlistedChoice := un_allow | un_ask | un_never.

#[export] Instance UnlistedChoice_eq_dec : EqDecision UnlistedChoice.
Proof. solve_decision. Defined.

(** What a new attach's other reads default to. *)
Definition defaultOtherReads (catalog : option AppPermissionDefinition) : UnlistedChoice :=
  match catalog with
  | Some def => if ad_unlistedReads_allow def then un_allow else un_ask
  | None => un_ask
  end.

Section WithRegistry.
Context (reg : Registry).

(** ** Validation *)

Definition catalogToolIds (provider : jsstr) : list jsstr :=
  match getAppPermissionDefinition reg provider with
  | None => []
  | Some def => flat_map (fun g => map at_id (ag_tools g)) (ad_groups def)
  end.

Definition assertToolIdsValid (provider : jsstr) (toolIds : list jsstr) : outcome unit :=
  match toolIds with
  | [] => inr tt
  | _ =>
      match getAppPermissionDefinition reg provider with
      | None =>
          inl {| se_code := UNPROCESSABLE;
                 se_message := jsq "Per-tool permissions need a permission catalog; `"
                               ++ provider ++ jsq "` has none." |}
      | Some def =>
          let known := flat_map (fun g => map at_id (ag_tools g)) (ad_groups def) in
          let unknown := List.filter (fun id => negb (bool_decide (id ∈ known)))
                           (js_dedup toolIds) in
          match unknown with
          | [] => inr tt
          | _ => inl {| se_code := UNPROCESSABLE;
                        se_message := jsq "Unknown tool id(s) for `" ++ provider
                                      ++ jsq "`: " ++ join (js ", ") unknown |}
          end
      end
  end.

Definition catalogBlocksUnlisted (provider : jsstr) : bool :=
  match getAppPermissionDefinition reg provider with
  | Some def => ad_unlisted_block def
  | None => false
  end.

Definition assertUnlistedChoicesValid (provider : jsstr)
    (choices : list (option UnlistedChoice)) : outcome unit :=
  if catalogBlocksUnlisted provider && bool_decide (Some un_allow ∈ choices) then
    inl {| se_code := UNPROCESSABLE;
           se_message := jsq "`" ++ provider ++
             jsq "` keeps requests outside its tool list closed: `Not listed above` can be Needs approval or Never, not Always allow. Give full access to allow everything." |}
  else inr tt.

(** ** Matching a request against the catalog *)

Definition getAppTool (provider toolId : jsstr) : option AppTool :=
  match getAppPermissionDefinition reg provider with
  | None => None
  | Some def =>
      List.find (fun tool => bool_decide (at_id tool = toolId))
        (flat_map allGroupTools (ad_groups def))
  end.

(** A tool's paths times its methods ([None] = any method). *)
Definition allRuleVariants (tool : AppTool) : list (jsstr * option jsstr) :=
  let paths := at_pathPattern tool :: default [] (at_aliasPatterns tool) in
  let methods := match at_methods tool with
                 | Some ms => map Some ms
                 | None => [at_method tool]
                 end in
  flat_map (fun p => map (fun m => (p, m)) methods) paths.

(** The fail-closed body test of a [graphqlOps]-tagged tool. *)
Definition graphqlOpsAgree (tool : AppTool) (request : PolicyRequest) : bool :=
  match at_graphqlOps tool with
  | None => true
  | Some ops =>
      let classified :=
        if has_char ch_qmark (rq_path request) then op_mutation
        else classifyGraphqlBody (rq_body request) in
      bool_decide (classified = ops)
  end.

Definition toolMatches (request : PolicyRequest) (tool : AppTool)
    (conditions : option (list OldCondition)) : bool :=
  if negb (existsb (fun h => hostMatches (rq_host request) h) (hostPatternsOf tool))
  then false
  else if negb (graphqlOpsAgree tool request) then false
  else existsb (fun v =>
         endpointMatches request
           {| ep_pathPattern := v.1; ep_method := v.2; ep_conditions := conditions |})
         (allRuleVariants tool).

Definition appTargetMatches (request : PolicyRequest) (provider : jsstr)
    (toolIds : list jsstr) (conditions : option (list OldCondition)) : bool :=
  existsb (fun toolId =>
    match getAppTool provider toolId with
    | None => false
    | Some tool => toolMatches request tool conditions
    end) toolIds.

Definition providerHostMatches (host provider : jsstr) : bool :=
  match getAppPermissionDefinition reg provider with
  | None => false
  | Some def =>
      existsb (fun group =>
        existsb (fun tool => existsb (fun pattern => hostMatches host pattern)
                               (hostPatternsOf tool))
          (allGroupTools group))
        (ad_groups def)
  end.

(** ** Lemmas *)

Lemma getAppTool_Some provider toolId tool :
  getAppTool provider toolId = Some tool ->
  at_id tool = toolId /\
  exists def group, getAppPermissionDefinition reg provider = Some def /\
    group ∈ ad_groups def /\ tool ∈ allGroupTools group.
Proof.
  unfold getAppTool. destruct (getAppPermissionDefinition reg provider) as [def|]; [|done].
  intros [Hin Hid]%find_some. apply bool_decide_eq_true in Hid.
  apply in_flat_map in Hin as (group & Hg & Ht). split; [done|].
  exists def, group. by rewrite !list_elem_of_In.
Qed.

(** The conditions factor out of a tool match. *)
Lemma toolMatches_factor request tool cs :
  toolMatches request tool cs =
  toolMatches request tool None && conditionsMatch cs (rq_body request).
Proof.
  unfold toolMatches. destruct (negb (existsb _ _)); [done|].
  destruct (negb _); [done|].
  induction (allRuleVariants tool) as [|v vs IH]; simpl; [done|].
  rewrite IH, (endpointMatches_factor _ _ _ cs), (endpointMatches_factor _ _ _ None).
  change (conditionsMatch None (rq_body request)) with true. rewrite andb_true_r.
  by rewrite andb_orb_distrib_l.
Qed.

Lemma appTargetMatches_iff request provider toolIds cs :
  appTargetMatches request provider toolIds cs = true <->
  exists toolId tool, toolId ∈ toolIds /\ getAppTool provider toolId = Some tool /\
    toolMatches request tool cs = true.
Proof.
  unfold appTargetMatches. rewrite existsb_In. split.
  - intros (id & Hid & H). destruct (getAppTool provider id) as [tool|] eqn:E; [|done].
    eauto.
  - intros (id & tool & Hid & E & H). exists id. by rewrite E.
Qed.

(** More tools and fewer conditions match more requests. *)
Lemma appTargetMatches_mono request provider ids1 ids2 cs1 cs2 :
  (forall id, id ∈ ids2 -> id ∈ ids1) ->
  (conditionsMatch cs2 (rq_body request) = true ->
   conditionsMatch cs1 (rq_body request) = true) ->
  appTargetMatches request provider ids2 cs2 = true ->
  appTargetMatches request provider ids1 cs1 = true.
Proof.
  intros Hids Hcs. rewrite !appTargetMatches_iff.
  intros (id & tool & Hid & E & H). exists id, tool. split_and!; auto.
  rewrite toolMatches_factor in H |- *. apply andb_true_iff in H as [-> H].
  by rewrite Hcs.
Qed.

Lemma providerHostMatches_iff host provider :
  providerHostMatches host provider = true <->
  exists def group tool pattern,
    getAppPermissionDefinition reg provider = Some def /\ group ∈ ad_groups def /\
    tool ∈ allGroupTools group /\ pattern ∈ hostPatternsOf tool /\
    hostMatches host pattern = true.
Proof.
  unfold providerHostMatches.
  destruct (getAppPermissionDefinition reg provider) as [def|]; [|naive_solver].
  rewrite existsb_In. split.
  - intros (group & Hg & (tool & Ht & (pattern & Hp & Hm)%existsb_In)%existsb_In).
    by exists def, group, tool, pattern.
  - intros (def' & group & tool & pattern & [= <-] & Hg & Ht & Hp & Hm).
    exists group. split; [done|]. apply existsb_In. exists tool. split; [done|].
    apply existsb_In. eauto.
Qed.

(** The permit surface of a tool never exceeds the catalog's hosts. *)
Lemma appTargetMatches_provider request provider toolIds cs :
  appTargetMatches request provider toolIds cs = true ->
  providerHostMatches (rq_host request) provider = true.
Proof.
  rewrite appTargetMatches_iff, providerHostMatches_iff.
  intros (id & tool & _ & E & H).
  apply getAppTool_Some in E as (_ & def & group & Hdef & Hg & Ht).
  unfold toolMatches in H. destruct (existsb _ (hostPatternsOf tool)) eqn:Eh; [|done].
  apply existsb_In in Eh as (p & Hp & Hm). by exists def, group, tool, p.
Qed.
End WithRegistry.
