(* ===== verification/Evaluator.v ===== *)
(** * The first-match policy engine

    [packages/api/src/services/policy-translation/evaluator.ts]: rule matching,
    first match per scope, and the two-level composition of the organization's
    and the workspace's verdicts. *)
From S2P Require Import Prelude PathMatch PolicyTypes EndpointMatch JsJson Graphql Catalog.

Section Evaluator.
Context (reg : Registry) `{JsCase}.

(** ** Matching *)

Definition identityMatches (rule : NewRule) (request : PolicyRequest) : bool :=
  bool_decide (rl_identities rule = []) ||
  existsb (fun i =>
    match i with
    | IdAgent id => bool_decide (id = rq_agentId request)
    | IdUser id => bool_decide (id ∈ default [] (rq_userIds request))
    | IdGroup id => bool_decide (id ∈ default [] (rq_groupIds request))
    end) (rl_identities rule).

(** [GET,HEAD] = only those, [!GET,HEAD] = every other, empty = any. *)
Definition methodAllows (raw : option jsstr) (method : jsstr) : bool :=
  let trimmed := trim (default [] raw) in
  let except := starts_with (js "!") trimmed in
  let listed :=
    List.filter (fun m => (0 <? length m)%nat)
      (map (fun m => to_upper_case (trim m))
         (split_on ch_comma (if except then drop 1 trimmed else trimmed))) in
  match listed with
  | [] => true
  | _ => xorb (bool_decide (to_upper_case method ∈ listed)) except
  end.

Definition targetMatches (target : NewTarget) (rule : NewRule)
    (request : PolicyRequest) : bool :=
  match target with
  | TNetwork hostPattern pathPattern method =>
      hostMatches (rq_host request) hostPattern &&
      endpointMatches request
        {| ep_pathPattern := default (js "*") pathPattern;
           ep_method := method;
           ep_conditions := rl_conditions rule |}
  | TApp provider tools _ =>
      match tools with
      | [] => providerHostMatches reg (rq_host request) provider
      | _ => appTargetMatches reg request provider tools (rl_conditions rule)
      end
  | TConnection connectionId provider tools method =>
      match provider, rq_winningConnectionId request with
      | Some provider, Some winner =>
          if negb (bool_decide (winner = connectionId)) then false
          else match tools with
          | [] =>
              if negb (methodAllows method (rq_method request)) then false
              else providerHostMatches reg (rq_host request) provider
          | _ => appTargetMatches reg request provider tools (rl_conditions rule)
          end
      | _, _ => false
      end
  | TSecret hostPatterns =>
      existsb (fun h => hostMatches (rq_host request) h) hostPatterns
  end.

Definition ruleMatches (rule : NewRule) (request : PolicyRequest) : bool :=
  identityMatches rule request &&
  (0 <? length (rl_targets rule))%nat &&
  existsb (fun t => targetMatches t rule request) (rl_targets rule).

(** ** First match in one scope *)

Definition is_none {A} (o : option A) : bool :=
  match o with None => true | Some _ => false end.

Record LevelMatch := { lm_rank : nat; lm_rule : NewRule }.

(** [(a, b) => a.priority - b.priority] *)
Definition priority_leb (a b : NewRule) : bool := (rl_priority a <=? rl_priority b)%Z.

Definition firstMatch (rules : list NewRule) (request : PolicyRequest) : option LevelMatch :=
  (fun rule => {| lm_rank := strictnessRank rule; lm_rule := rule |}) <$>
  List.find (fun rule => ruleMatches rule request) (js_sort priority_leb rules).

(** ** Decisions *)

Definition toDecision (rule : NewRule) : Decision :=
  let plain a := {| dec_action := a; dec_requireApproval := None; dec_rateLimit := None;
                    dec_rateLimitWindow := None; dec_byDefault := None |} in
  match rl_action rule with
  | block => plain block
  | allow =>
      if rl_requireApproval rule then
        {| dec_action := allow; dec_requireApproval := Some true; dec_rateLimit := None;
           dec_rateLimitWindow := None; dec_byDefault := None |}
      else match rl_rateLimit rule, rl_rateLimitWindow rule with
      | Some limit, Some window =>
          {| dec_action := allow; dec_requireApproval := None; dec_rateLimit := Some limit;
             dec_rateLimitWindow := Some window; dec_byDefault := None |}
      | _, _ => plain allow
      end
  end.

Definition is_default_of (s : Scope) (r : NewRule) : bool :=
  rl_isDefault r && bool_decide (rl_scope r = s).
Definition is_explicit_of (s : Scope) (r : NewRule) : bool :=
  negb (rl_isDefault r) && bool_decide (rl_scope r = s).

Definition blocks (r : option NewRule) : bool :=
  match r with Some r => is_block (rl_action r) | None => false end.
Definition allows_match (m : option LevelMatch) : bool :=
  match m with Some m => bool_decide (rl_action (lm_rule m) = allow) | None => false end.

Definition evaluatePolicyOutcome (rules : list NewRule) (request : PolicyRequest)
  : PolicyOutcome :=
  let orgDefault := List.find (is_default_of organization) rules in
  let workspaceDefault := List.find (is_default_of workspace) rules in
  let orgExplicit := List.filter (is_explicit_of organization) rules in
  let workspaceExplicit := List.filter (is_explicit_of workspace) rules in
  let orgMatch := firstMatch orgExplicit request in
  let workspaceMatch := firstMatch workspaceExplicit request in
  let enforceDeny := rq_hasInjections request && negb (rq_isLlmHost request) in
  let orgDefaultBlocks := blocks orgDefault && enforceDeny in
  let workspaceDefaultBlocks := blocks workspaceDefault && enforceDeny in
  let effectiveOrg :=
    if is_none workspaceMatch && allows_match orgMatch && workspaceDefaultBlocks
    then None else orgMatch in
  let effectiveWorkspace :=
    if is_none orgMatch && allows_match workspaceMatch && orgDefaultBlocks
    then None else workspaceMatch in
  let candidates := omap id [effectiveOrg; effectiveWorkspace] in
  match candidates with
  | first :: others =>
      let best := fold_left (fun a b => if (lm_rank b <? lm_rank a)%nat then b else a)
                    others first in
      OutRule (lm_rule best)
  | [] =>
      if orgDefaultBlocks then OutDenyDefault organization orgDefault
      else if workspaceDefaultBlocks then OutDenyDefault workspace workspaceDefault
      else OutAllow enforceDeny
  end.

Definition outcomeToDecision (outcome : PolicyOutcome) : Decision :=
  match outcome with
  | OutRule rule => toDecision rule
  | OutDenyDefault _ _ =>
      {| dec_action := block; dec_requireApproval := None; dec_rateLimit := None;
         dec_rateLimitWindow := None; dec_byDefault := Some true |}
  | OutAllow _ =>
      {| dec_action := allow; dec_requireApproval := None; dec_rateLimit := None;
         dec_rateLimitWindow := None; dec_byDefault := None |}
  end.

Definition evaluateNew (rules : list NewRule) (request : PolicyRequest) : Decision :=
  outcomeToDecision (evaluatePolicyOutcome rules request).
End Evaluator.

(** ** The uniform per-level law

    Each level's verdict is its first matching rule, else its armed Default
    Rule; the stricter verdict wins. *)

(** [rule] is the first match of [scope]: it matches, every matching rule before
    it has a later priority, and no matching rule after it an earlier one. *)
Inductive FirstMatch (matches : NewRule -> bool) (scope : Scope)
  : list NewRule -> NewRule -> Prop :=
| first_match before rule after :
    is_explicit_of scope rule = true -> matches rule = true ->
    (forall r, r ∈ before -> is_explicit_of scope r = true -> matches r = true ->
       (rl_priority rule < rl_priority r)%Z) ->
    (forall r, r ∈ after -> is_explicit_of scope r = true -> matches r = true ->
       (rl_priority rule <= rl_priority r)%Z) ->
    FirstMatch matches scope (before ++ rule :: after) rule.

(** What one level says of a request. *)
Inductive LevelVerdict :=
| LvRule (rule : NewRule)
| LvDefaultBlock
| LvSilent.

(** The order verdicts combine by: an explicit block, then a Default Rule's
    block, then the allows by strictness, then silence. *)
Definition verdict_rank (v : LevelVerdict) : nat :=
  match v with
  | LvRule r => 2 * strictnessRank r
  | LvDefaultBlock => 1
  | LvSilent => 8
  end.

(** The stricter of the two; the organization's on a tie. A winning Default Rule
    block is [deny]. *)
Definition combine_levels (managed : bool) (deny : PolicyOutcome) (org ws : LevelVerdict)
  : PolicyOutcome :=
  match (if (verdict_rank ws <? verdict_rank org)%nat then ws else org) with
  | LvRule r => OutRule r
  | LvDefaultBlock => deny
  | LvSilent => OutAllow managed
  end.

(** How restrictive an outcome is: lower is stricter, and a deny-default
    counts as a block. *)
Definition outcome_rank (o : PolicyOutcome) : nat :=
  match o with
  | OutRule r => strictnessRank r
  | OutDenyDefault _ _ => 0
  | OutAllow _ => 4
  end.

Lemma priority_leb_total a b : priority_leb a b = true \/ priority_leb b a = true.
Proof. unfold priority_leb. rewrite !Z.leb_le. lia. Qed.

Lemma priority_leb_trans a b c :
  priority_leb a b = true -> priority_leb b c = true -> priority_leb a c = true.
Proof. unfold priority_leb. rewrite !Z.leb_le. lia. Qed.

Section EvaluatorLemmas.
Context (reg : Registry) `{JsCase}.
Implicit Types (rules : list NewRule) (rq : PolicyRequest) (r : NewRule).

(** The deny-default carve: managed, non-LLM traffic. *)
Definition enforce_deny rq : bool := rq_hasInjections rq && negb (rq_isLlmHost rq).

(** A level's Default Rule blocks this request. *)
Definition default_armed rules rq (s : Scope) : bool :=
  blocks (List.find (is_default_of s) rules) && enforce_deny rq.

Definition level_verdict rules rq (s : Scope) : LevelVerdict :=
  match firstMatch reg (List.filter (is_explicit_of s) rules) rq with
  | Some m => LvRule (lm_rule m)
  | None => if default_armed rules rq s then LvDefaultBlock else LvSilent
  end.

(** A deny-default names the organization's Default Rule whenever that one
    is armed. *)
Definition deny_default rules rq : PolicyOutcome :=
  let s := if default_armed rules rq organization then organization else workspace in
  OutDenyDefault s (List.find (is_default_of s) rules).

Lemma firstMatch_rank rules rq m :
  firstMatch reg rules rq = Some m -> lm_rank m = strictnessRank (lm_rule m).
Proof. unfold firstMatch. by intros (r & _ & ->)%fmap_Some. Qed.

Lemma strictnessRank_bounds r :
  (strictnessRank r <= 3)%nat /\
  (rl_action r = allow -> (1 <= strictnessRank r)%nat) /\
  (rl_action r <> allow -> strictnessRank r = 0%nat).
Proof.
  unfold strictnessRank.
  destruct (rl_action r), (rl_requireApproval r), (rl_rateLimit r); split_and!;
    intros; done || lia.
Qed.

(** The engine's fall-through code is the uniform law. *)
Lemma evaluate_levels rules rq :
  evaluatePolicyOutcome reg rules rq =
  combine_levels (enforce_deny rq) (deny_default rules rq)
    (level_verdict rules rq organization) (level_verdict rules rq workspace).
Proof.
  unfold evaluatePolicyOutcome, level_verdict, deny_default, default_armed. cbn zeta.
  fold (enforce_deny rq).
  destruct (firstMatch reg (List.filter (is_explicit_of organization) rules) rq)
    as [om|] eqn:Eo; [apply firstMatch_rank in Eo|];
  destruct (firstMatch reg (List.filter (is_explicit_of workspace) rules) rq)
    as [wm|] eqn:Ew; try apply firstMatch_rank in Ew;
  destruct (blocks (List.find (is_default_of organization) rules) && enforce_deny rq) eqn:Eod;
  destruct (blocks (List.find (is_default_of workspace) rules) && enforce_deny rq) eqn:Ewd;
  cbn [is_none andb allows_match omap list_omap id fold_left];
  try case_bool_decide as Ha; try case_bool_decide as Hb;
  cbn [andb omap list_omap id fold_left]; unfold combine_levels, verdict_rank;
  repeat match goal with
  | H : lm_rank ?m = _ |- _ => rewrite ?H; clear H;
      destruct (strictnessRank_bounds (lm_rule m)) as (? & ? & ?)
  | |- context [(?a <? ?b)%nat] => destruct (Nat.ltb_spec a b)
  end; try reflexivity; exfalso; intuition lia.
Qed.

(** The level's walk, over all rules at once. *)
Lemma firstMatch_find rules rq s :
  firstMatch reg (List.filter (is_explicit_of s) rules) rq =
  (fun r => {| lm_rank := strictnessRank r; lm_rule := r |}) <$>
  List.find (fun r => is_explicit_of s r && ruleMatches reg r rq)
    (js_sort priority_leb rules).
Proof.
  unfold firstMatch. rewrite (js_sort_filter _ priority_leb_total priority_leb_trans).
  by rewrite find_filter.
Qed.

(** The first match in priority order, ties by position. *)
Lemma find_FirstMatch (matches : NewRule -> bool) s rules r :
  List.find (fun r => is_explicit_of s r && matches r) (js_sort priority_leb rules) = Some r
  <-> FirstMatch matches s rules r.
Proof.
  rewrite (find_js_sort_iff _ priority_leb_total priority_leb_trans).
  setoid_rewrite andb_true_iff. unfold priority_leb.
  setoid_rewrite Z.leb_gt. setoid_rewrite Z.leb_le. split.
  - intros (l1 & l2 & -> & [? ?] & ? & ?). constructor; naive_solver.
  - intros [l1 r' l2 ? ? ? ?]. exists l1, l2. naive_solver.
Qed.

Lemma level_verdict_rule rules rq s r :
  level_verdict rules rq s = LvRule r <->
  FirstMatch (fun r => ruleMatches reg r rq) s rules r.
Proof.
  unfold level_verdict. rewrite firstMatch_find, <- find_FirstMatch.
  destruct (List.find _ _) as [r'|]; simpl; [naive_solver|].
  by destruct (default_armed _ _ _).
Qed.

(** A level verdict depends on the level's own rules only. *)
Lemma level_verdict_filter rules rq s (K : NewRule -> bool) :
  (forall r, rl_scope r = s -> K r = true) ->
  level_verdict (List.filter K rules) rq s = level_verdict rules rq s.
Proof.
  intros HK. unfold level_verdict, default_armed. rewrite find_filter.
  assert (forall r, K r && is_default_of s r = is_default_of s r) as Hd.
  { intros r. unfold is_default_of. destruct (rl_isDefault r); [|by rewrite andb_false_r].
    case_bool_decide as E; [by rewrite HK|by rewrite andb_false_r]. }
  assert (forall r, K r && is_explicit_of s r = is_explicit_of s r) as He.
  { intros r. unfold is_explicit_of. destruct (rl_isDefault r); [by rewrite andb_false_r|].
    case_bool_decide as E; [by rewrite HK|by rewrite andb_false_r]. }
  rewrite filter_filter_comp. by rewrite (find_ext_eq _ _ _ Hd), (filter_ext _ _ He).
Qed.

(** Removing from a level rules that never win there keeps its verdict. *)
Lemma level_verdict_dead rules rq s (K : NewRule -> bool) :
  (forall r, rl_isDefault r = true -> K r = true) ->
  (forall r, FirstMatch (fun r => ruleMatches reg r rq) s rules r -> K r = true) ->
  level_verdict (List.filter K rules) rq s = level_verdict rules rq s.
Proof.
  intros HD HK. unfold level_verdict, default_armed. rewrite find_filter.
  assert (forall r, K r && is_default_of s r = is_default_of s r) as Hd.
  { intros r. unfold is_default_of. destruct (rl_isDefault r) eqn:E;
      [by rewrite HD|by rewrite andb_false_r]. }
  rewrite (find_ext_eq _ _ _ Hd), !firstMatch_find.
  rewrite (js_sort_filter _ priority_leb_total priority_leb_trans), find_filter_keep; [done|].
  intros r Hr. by apply HK, find_FirstMatch.
Qed.

(** An evaluation reads a rule set through each level's Default Rule and first
    match only. *)
Lemma evaluate_ext rules rules' rq :
  (forall s, List.find (is_default_of s) rules = List.find (is_default_of s) rules') ->
  (forall s, List.find (fun r => is_explicit_of s r && ruleMatches reg r rq)
               (js_sort priority_leb rules) =
             List.find (fun r => is_explicit_of s r && ruleMatches reg r rq)
               (js_sort priority_leb rules')) ->
  evaluatePolicyOutcome reg rules rq = evaluatePolicyOutcome reg rules' rq.
Proof.
  intros Hd Hf. rewrite !evaluate_levels. unfold deny_default, level_verdict, default_armed.
  by rewrite !firstMatch_find, !Hf, !Hd.
Qed.

(** ** The organization ceiling *)

Definition of_scope (s : Scope) (r : NewRule) : bool := bool_decide (rl_scope r = s).

Lemma level_verdict_own rules rq s :
  level_verdict (List.filter (of_scope s) rules) rq s = level_verdict rules rq s.
Proof. apply level_verdict_filter. intros r. apply bool_decide_eq_true. Qed.

Lemma level_verdict_other rules rq s s' :
  s <> s' -> level_verdict (List.filter (of_scope s) rules) rq s' = LvSilent.
Proof.
  intros Hne. unfold level_verdict, default_armed. rewrite find_filter, firstMatch_find.
  rewrite (js_sort_filter _ priority_leb_total priority_leb_trans), find_filter.
  rewrite (find_ext_eq _ (fun _ => false)), find_false.
  - rewrite (find_ext_eq _ (fun _ => false)), find_false; [done|].
    intros r. unfold is_default_of, of_scope. repeat case_bool_decide; by try (subst; destruct (rl_isDefault r)).
  - intros r. unfold is_explicit_of, of_scope. repeat case_bool_decide; by try (subst; destruct (rl_isDefault r)).
Qed.

Lemma decision_block o : dec_action (outcomeToDecision o) = block <-> outcome_rank o = 0%nat.
Proof.
  destruct o as [r| |]; simpl; [|done..]. rewrite strictnessRank_block. unfold toDecision.
  destruct (rl_action r); [|done]. by destruct (rl_requireApproval r), (rl_rateLimit r), (rl_rateLimitWindow r).
Qed.

Lemma outcome_rank_combine managed d org ws :
  outcome_rank d = 0%nat ->
  outcome_rank (combine_levels managed d org ws) =
  (let rank v := match v with LvRule r => strictnessRank r | LvDefaultBlock => 0 | LvSilent => 4 end
   in Nat.min (rank org) (rank ws))%nat.
Proof.
  intros Hd. unfold combine_levels, verdict_rank.
  destruct org as [r1| |], ws as [r2| |];
    try destruct (strictnessRank_bounds r1) as (? & _ & _);
    try destruct (strictnessRank_bounds r2) as (? & _ & _); cbn zeta;
    match goal with |- context [(?a <? ?b)%nat] => destruct (Nat.ltb_spec a b) end;
    cbn [outcome_rank]; rewrite ?Hd; lia.
Qed.

Lemma outcome_rank_evaluate rules rq :
  outcome_rank (evaluatePolicyOutcome reg rules rq) =
  (let rank v := match v with LvRule r => strictnessRank r | LvDefaultBlock => 0 | LvSilent => 4 end
   in Nat.min (rank (level_verdict rules rq organization))
              (rank (level_verdict rules rq workspace)))%nat.
Proof. rewrite evaluate_levels. by apply outcome_rank_combine. Qed.
End EvaluatorLemmas.

(** ** What a rule matches *)

Section RuleSpecs.
Context (reg : Registry) `{JsCase} (rq : PolicyRequest).

(** The principal a rule names is one of the request's. *)
Inductive IdentitySpec : NewIdentity -> Prop :=
| identity_agent : IdentitySpec (IdAgent (rq_agentId rq))
| identity_user ids id : rq_userIds rq = Some ids -> id ∈ ids -> IdentitySpec (IdUser id)
| identity_group ids id : rq_groupIds rq = Some ids -> id ∈ ids -> IdentitySpec (IdGroup id).

(** One catalog tool covers the request: host, GraphQL body class, and one of
    its endpoints. *)
Definition ToolSpec (provider : jsstr) (cs : option (list OldCondition)) (toolId : jsstr)
  : Prop :=
  exists tool, getAppTool reg provider toolId = Some tool /\
    (exists host, host ∈ hostPatternsOf tool /\ HostSpec (rq_host rq) host) /\
    graphqlOpsAgree tool rq = true /\
    exists v, v ∈ allRuleVariants tool /\
      EndpointSpec rq {| ep_pathPattern := v.1; ep_method := v.2; ep_conditions := cs |}.

(** Some host of the provider's catalog covers the request's. *)
Definition ProviderSpec (provider : jsstr) : Prop :=
  exists def group tool host,
    getAppPermissionDefinition reg provider = Some def /\ group ∈ ad_groups def /\
    tool ∈ allGroupTools group /\ host ∈ hostPatternsOf tool /\ HostSpec (rq_host rq) host.

Inductive TargetSpec (cs : option (list OldCondition)) : NewTarget -> Prop :=
| target_network host path method :
    HostSpec (rq_host rq) host ->
    EndpointSpec rq {| ep_pathPattern := default (js "*") path; ep_method := method;
                       ep_conditions := cs |} ->
    TargetSpec cs (TNetwork host path method)
| target_whole_app provider sc : ProviderSpec provider -> TargetSpec cs (TApp provider [] sc)
| target_app_tools provider tools sc id :
    id ∈ tools -> ToolSpec provider cs id -> TargetSpec cs (TApp provider tools sc)
| target_whole_connection winner provider method :
    rq_winningConnectionId rq = Some winner -> ProviderSpec provider ->
    methodAllows method (rq_method rq) = true ->
    TargetSpec cs (TConnection winner (Some provider) [] method)
| target_connection_tools winner provider tools method id :
    rq_winningConnectionId rq = Some winner ->
    id ∈ tools -> ToolSpec provider cs id ->
    TargetSpec cs (TConnection winner (Some provider) tools method)
| target_secret hosts host :
    host ∈ hosts -> HostSpec (rq_host rq) host -> TargetSpec cs (TSecret hosts).

(** A rule naming no principal is for everyone; one naming no target is for
    nothing. *)
Definition RuleSpec (rule : NewRule) : Prop :=
  (rl_identities rule = [] \/ Exists IdentitySpec (rl_identities rule)) /\
  Exists (TargetSpec (rl_conditions rule)) (rl_targets rule).

Lemma identityMatches_iff rule :
  identityMatches rule rq = true <->
  rl_identities rule = [] \/ Exists IdentitySpec (rl_identities rule).
Proof.
  unfold identityMatches. rewrite orb_true_iff, bool_decide_eq_true, existsb_In, Exists_exists.
  apply or_iff_compat_l. split; intros (i & Hi & Hm); exists i; (split; [done|]).
  - destruct i as [id|id|id]; apply bool_decide_eq_true in Hm.
    + subst. constructor.
    + destruct (rq_userIds rq) eqn:E; [by econstructor|set_solver].
    + destruct (rq_groupIds rq) eqn:E; [by econstructor|set_solver].
  - destruct Hm as [|ids id E ?|ids id E ?]; rewrite ?E; by apply bool_decide_eq_true.
Qed.

Lemma appTargetMatches_spec provider tools cs :
  appTargetMatches reg rq provider tools cs = true <->
  exists id, id ∈ tools /\ ToolSpec provider cs id.
Proof.
  rewrite appTargetMatches_iff. unfold ToolSpec, toolMatches.
  setoid_rewrite <- hostMatches_iff. setoid_rewrite <- endpointMatches_iff.
  split.
  - intros (id & tool & Hid & E & Hm).
    destruct (existsb _ (hostPatternsOf tool)) eqn:Eh; [|done].
    destruct (graphqlOpsAgree tool rq) eqn:Eg; [|done].
    apply existsb_In in Eh, Hm. naive_solver.
  - intros (id & Hid & tool & E & Hh & Hg & Hv). exists id, tool.
    assert (existsb (fun h => hostMatches (rq_host rq) h) (hostPatternsOf tool) = true) as ->
      by by apply existsb_In.
    rewrite Hg. cbn [negb]. split_and!; [done..|]. by apply existsb_In.
Qed.

Lemma providerHostMatches_spec provider :
  providerHostMatches reg (rq_host rq) provider = true <-> ProviderSpec provider.
Proof. rewrite providerHostMatches_iff. by setoid_rewrite hostMatches_iff. Qed.

Lemma targetMatches_iff rule t :
  targetMatches reg t rule rq = true <-> TargetSpec (rl_conditions rule) t.
Proof.
  destruct t as [host path method|provider tools sc|cid provider tools method|hosts]; simpl.
  - rewrite andb_true_iff, hostMatches_iff, endpointMatches_iff.
    split; [intros []; by constructor|by inversion 1].
  - transitivity (tools = [] /\ ProviderSpec provider \/
      exists id, id ∈ tools /\ ToolSpec provider (rl_conditions rule) id).
    + destruct tools; [rewrite providerHostMatches_spec|rewrite appTargetMatches_spec];
        set_solver.
    + split; [intros [[-> ?]|(id & ? & ?)]; by econstructor|inversion 1; eauto].
  - destruct provider as [provider|]; [|split; [done|inversion 1]].
    destruct (rq_winningConnectionId rq) as [winner|] eqn:Ew; [|split; [done|inversion 1; congruence]].
    case_bool_decide as Hw; [subst winner|split; [done|inversion 1; congruence]]. cbn [negb].
    transitivity (tools = [] /\ methodAllows method (rq_method rq) = true /\ ProviderSpec provider
      \/ exists id, id ∈ tools /\ ToolSpec provider (rl_conditions rule) id).
    + destruct tools; [rewrite <- providerHostMatches_spec|rewrite appTargetMatches_spec];
        [destruct (methodAllows _ _)|]; set_solver.
    + split; [intros [(-> & ? & ?)|(id & ? & ?)]|inversion 1; eauto].
      * by apply target_whole_connection.
      * by eapply target_connection_tools.
  - rewrite existsb_In. setoid_rewrite hostMatches_iff.
    split; [intros (h & ? & ?); by econstructor|inversion 1; eauto].
Qed.

Lemma ruleMatches_iff rule : ruleMatches reg rule rq = true <-> RuleSpec rule.
Proof.
  unfold ruleMatches, RuleSpec.
  rewrite !andb_true_iff, identityMatches_iff, Nat.ltb_lt, existsb_In, !Exists_exists.
  setoid_rewrite targetMatches_iff. split; [tauto|]. intros [Hi (t & Ht & Hm)].
  split; [split; [done|]|eauto]. destruct (rl_targets rule); [set_solver|simpl; lia].
Qed.
End RuleSpecs.

(** ** The engine's theorems *)

Section EngineTheorems.
Context (reg : Registry) `{JsCase}.

(** What a level says: its first matching explicit rule; else the block of an
    armed Default Rule; else nothing. *)
Inductive LevelSays (rules : list NewRule) (rq : PolicyRequest) (s : Scope)
  : LevelVerdict -> Prop :=
| says_rule r :
    FirstMatch (fun r => ruleMatches reg r rq) s rules r ->
    LevelSays rules rq s (LvRule r)
| says_default :
    (forall r, r ∈ rules -> is_explicit_of s r = true -> ~ RuleSpec reg rq r) ->
    default_armed rules rq s = true -> LevelSays rules rq s LvDefaultBlock
| says_silent :
    (forall r, r ∈ rules -> is_explicit_of s r = true -> ~ RuleSpec reg rq r) ->
    default_armed rules rq s = false -> LevelSays rules rq s LvSilent.

Lemma no_first_match rules rq s :
  firstMatch reg (List.filter (is_explicit_of s) rules) rq = None <->
  forall r, r ∈ rules -> is_explicit_of s r = true -> ~ RuleSpec reg rq r.
Proof.
  rewrite firstMatch_find. split.
  - intros Hn r Hr He Hs%ruleMatches_iff. apply fmap_None in Hn.
    apply (find_none _ _) with (x := r) in Hn.
    + by rewrite He, Hs in Hn.
    + by apply list_elem_of_In, js_sort_elem_of.
  - intros Hno. destruct (List.find _ _) as [r|] eqn:E; [|done].
    apply find_some in E as [Hin [He Hm]%andb_true_iff].
    apply list_elem_of_In, js_sort_elem_of in Hin. apply ruleMatches_iff in Hm.
    by destruct (Hno r).
Qed.

Lemma level_verdict_says rules rq s v :
  LevelSays rules rq s v <-> level_verdict reg rules rq s = v.
Proof.
  split.
  - destruct 1 as [r Hf|Hno Hd|Hno Hd]; [by apply level_verdict_rule|..];
      apply no_first_match in Hno; unfold level_verdict; by rewrite Hno, Hd.
  - intros <-. destruct (level_verdict reg rules rq s) eqn:E.
    + by apply says_rule, level_verdict_rule.
    + unfold level_verdict in E.
      destruct (firstMatch _ _ _) eqn:Ef; [done|]. destruct (default_armed _ _ _) eqn:Ed; [|done].
      apply says_default; [by apply no_first_match|done].
    + unfold level_verdict in E.
      destruct (firstMatch _ _ _) eqn:Ef; [done|]. destruct (default_armed _ _ _) eqn:Ed; [done|].
      apply says_silent; [by apply no_first_match|done].
Qed.

(** C7: the engine's fall-through code is the uniform per-level law. Each level
    says its first matching rule in priority order (ties by position), else
    the block of its Default Rule when the deny carve is armed, else nothing,
    and the outcome is the stricter of the two verdicts, the organization's
    on a tie. *)
Theorem evaluator_uniform_law rules rq o :
  evaluatePolicyOutcome reg rules rq = o <->
  exists vo vw,
    LevelSays rules rq organization vo /\ LevelSays rules rq workspace vw /\
    o = combine_levels (enforce_deny rq) (deny_default rules rq) vo vw.
Proof.
  setoid_rewrite level_verdict_says. rewrite evaluate_levels. split; [by intros <-; eauto|].
  by intros (vo & vw & -> & -> & ->).
Qed.

(** The outcome ranks as the stricter of the two levels alone. *)
Lemma outcome_rank_min rules rq :
  let alone s := evaluatePolicyOutcome reg (List.filter (of_scope s) rules) rq in
  outcome_rank (evaluatePolicyOutcome reg rules rq) =
    Nat.min (outcome_rank (alone organization)) (outcome_rank (alone workspace)).
Proof.
  intros alone. unfold alone. rewrite !outcome_rank_evaluate, !level_verdict_own.
  rewrite !level_verdict_other by done. cbn zeta.
  destruct (level_verdict reg rules rq organization) as [r1| |],
    (level_verdict reg rules rq workspace) as [r2| |];
    try destruct (strictnessRank_bounds r1) as (? & _ & _);
    try destruct (strictnessRank_bounds r2) as (? & _ & _); lia.
Qed.

(** C8: the organization is a ceiling. The outcome is as restrictive as the
    stricter of what the organization's rules and the workspace's rules
    decide alone, so no workspace rule loosens the organization's decision;
    a request is refused iff one of the two refuses it. *)
Theorem organization_ceiling rules rq :
  let alone s := evaluatePolicyOutcome reg (List.filter (of_scope s) rules) rq in
  outcome_rank (evaluatePolicyOutcome reg rules rq) =
    Nat.min (outcome_rank (alone organization)) (outcome_rank (alone workspace)) /\
  (dec_action (evaluateNew reg rules rq) = block <->
   dec_action (outcomeToDecision (alone organization)) = block \/
   dec_action (outcomeToDecision (alone workspace)) = block).
Proof.
  intros alone. assert (outcome_rank (evaluatePolicyOutcome reg rules rq) =
    Nat.min (outcome_rank (alone organization)) (outcome_rank (alone workspace))) as Hmin by apply outcome_rank_min.
  split; [done|]. unfold evaluateNew. rewrite !decision_block, Hmin. lia.
Qed.

(** A rule matches exactly when it is for everyone or names one of the
    request's principals, and one of its targets covers the request. So a
    rule without targets matches nothing, and a connection target matches
    only when that connection won the injection and its provider is known. *)
Theorem ruleMatches_spec rule rq :
  ruleMatches reg rule rq = true <-> RuleSpec reg rq rule.
Proof. apply ruleMatches_iff. Qed.
End EngineTheorems.
