(* ===== verification/PolicyRows.v ===== *)
(** * Policy rows

    The rows of [policy_rules_v2] and the two readings the sources make of
    them: the editor's DTO ([packages/api/src/services/policy-service.ts],
    [toRuleDto] and its parts) and the engine's rule
    ([packages/api/src/services/policy-simulate/sim-rule.ts], [toSimRule] and
    its parts), with the fenced look-up tables the second one resolves against
    ([secret-hosts.ts], [connection-providers.ts]). A [findMany] is the filter
    of a table, a list of rows, by its [where] clause. *)
From S2P Require Import Prelude PolicyTypes JsJson.

(** ** Rows *)

Record IdentityRow := {
  ir_agentId : option jsstr;
  ir_userId : option jsstr;
  ir_groupId : option jsstr
}.

Record TargetRow := {
  tr_kind : jsstr;
  tr_appProvider : option jsstr;
  tr_appTools : list jsstr;
  tr_appConnectionScope : option jsstr;
  tr_appConnectionId : option jsstr;
  tr_secretId : option jsstr;
  tr_secretScope : option jsstr;
  tr_hostPattern : option jsstr;
  tr_pathPattern : option jsstr;
  tr_method : option jsstr
}.

(** A rule row with its identities and targets included. *)
Record RuleRow := {
  row_id : jsstr;
  row_scope : jsstr;
  row_organizationId : option jsstr;
  row_workspaceId : option jsstr;
  row_status : jsstr;
  row_generation : Z;
  row_priority : Z;
  row_enabled : bool;
  row_isDefault : bool;
  row_logicalId : jsstr;
  row_source : jsstr;
  row_name : jsstr;
  row_action : jsstr;
  row_rateLimit : option Z;
  row_rateLimitWindow : option jsstr;
  row_requireApproval : bool;
  row_conditions : json;
  row_identities : list IdentityRow;
  row_targets : list TargetRow
}.

(** The level a [scope] column names, when it names one. *)
Definition scope_of (s : option jsstr) : option Scope :=
  if bool_decide (s = Some (js "organization")) then Some organization
  else if bool_decide (s = Some (js "workspace")) then Some workspace
  else None.

(** ** The editor's DTO *)

Inductive IdentityDto :=
| DtoAgent (id : jsstr)
| DtoUser (id : jsstr)
| DtoGroup (id : jsstr).

Inductive OverlapTarget :=
| OtApp (provider : jsstr) (tools : list jsstr) (connectionScope : option Scope)
| OtConnection (connectionId : jsstr) (tools : list jsstr)
| OtSecret (secretId : option jsstr) (secretScope : option Scope)
| OtNetwork (hostPattern : jsstr) (pathPattern : option jsstr) (method : option jsstr).

(** The DTO, as far as the policy code reads it: [PolicyRuleDto] is used as an
    [OverlapRule]. *)
Record OverlapRule := {
  or_logicalId : jsstr;
  or_isDefault : bool;
  or_enabled : bool;
  or_priority : Z;
  or_name : jsstr;
  or_action : jsstr;
  or_requireApproval : bool;
  or_rateLimit : option Z;
  or_rateLimitWindow : option jsstr;
  or_identities : list IdentityDto;
  or_targets : list OverlapTarget;
  or_conditions : json
}.

(** [None]: the function throws. *)
Definition toIdentityDto (row : IdentityRow) : option IdentityDto :=
  match truthy (ir_agentId row), truthy (ir_userId row), truthy (ir_groupId row) with
  | Some id, _, _ => Some (DtoAgent id)
  | None, Some id, _ => Some (DtoUser id)
  | None, None, Some id => Some (DtoGroup id)
  | None, None, None => None
  end.

Definition toTargetDto (row : TargetRow) : option OverlapTarget :=
  if bool_decide (tr_kind row = js "app") then
    match truthy (tr_appProvider row) with
    | None => None
    | Some provider =>
        Some (OtApp provider (tr_appTools row) (scope_of (tr_appConnectionScope row)))
    end
  else if bool_decide (tr_kind row = js "connection") then
    match truthy (tr_appConnectionId row) with
    | None => None
    | Some id => Some (OtConnection id (tr_appTools row))
    end
  else if bool_decide (tr_kind row = js "secret") then
    match scope_of (tr_secretScope row) with
    | Some sc => Some (OtSecret None (Some sc))
    | None => match truthy (tr_secretId row) with
              | None => None
              | Some id => Some (OtSecret (Some id) None)
              end
    end
  else if bool_decide (tr_kind row = js "network") then
    match truthy (tr_hostPattern row) with
    | None => None
    | Some host => Some (OtNetwork host (tr_pathPattern row) (tr_method row))
    end
  else None.

Definition toRuleDto (rule : RuleRow) : option OverlapRule :=
  identities ← mapM toIdentityDto (row_identities rule);
  targets ← mapM toTargetDto (row_targets rule);
  Some {| or_logicalId := row_logicalId rule; or_isDefault := row_isDefault rule;
          or_enabled := row_enabled rule; or_priority := row_priority rule;
          or_name := row_name rule; or_action := row_action rule;
          or_requireApproval := row_requireApproval rule;
          or_rateLimit := row_rateLimit rule;
          or_rateLimitWindow := row_rateLimitWindow rule;
          or_identities := identities; or_targets := targets;
          or_conditions := row_conditions rule |}.

(** ** The look-up tables *)

Record SecretRow := {
  sr_id : jsstr;
  sr_name : jsstr;
  sr_hostPattern : jsstr;
  sr_scope : jsstr;
  sr_organizationId : option jsstr;
  sr_workspaceId : option jsstr
}.

Record SecretHostSet := {
  shs_byId : gmap jsstr jsstr;
  shs_workspaceHosts : list jsstr;
  shs_orgHosts : list jsstr
}.

(** The workspace's own rows and the organization-level ones. *)
Definition level_fence (organizationId workspaceId : jsstr)
    (row_org row_ws : option jsstr) (row_scope : jsstr) : bool :=
  bool_decide (row_ws = Some workspaceId) ||
  bool_decide (row_org = Some organizationId) && bool_decide (row_scope = js "organization").

Definition addSecretHost (set : SecretHostSet) (row : SecretRow) : SecretHostSet :=
  {| shs_byId := <[sr_id row := sr_hostPattern row]> (shs_byId set);
     shs_workspaceHosts :=
       if bool_decide (sr_scope row = js "workspace")
       then shs_workspaceHosts set ++ [sr_hostPattern row] else shs_workspaceHosts set;
     shs_orgHosts :=
       if bool_decide (sr_scope row = js "organization")
       then shs_orgHosts set ++ [sr_hostPattern row] else shs_orgHosts set |}.

Definition loadSecretHosts (secrets : list SecretRow) (organizationId workspaceId : jsstr)
  : SecretHostSet :=
  let rows := List.filter (fun r => level_fence organizationId workspaceId
                (sr_organizationId r) (sr_workspaceId r) (sr_scope r)) secrets in
  fold_left addSecretHost rows
    {| shs_byId := ∅; shs_workspaceHosts := []; shs_orgHosts := [] |}.

Record ConnectionRow := {
  cr_id : jsstr;
  cr_provider : jsstr;
  cr_scope : jsstr;
  cr_organizationId : option jsstr;
  cr_workspaceId : option jsstr;
  cr_status : jsstr;
  cr_label : option jsstr
}.

Definition loadConnectionProviders (connections : list ConnectionRow)
    (organizationId workspaceId : jsstr) : gmap jsstr jsstr :=
  let rows := List.filter (fun r => level_fence organizationId workspaceId
                (cr_organizationId r) (cr_workspaceId r) (cr_scope r)) connections in
  fold_left (fun m r => <[cr_id r := cr_provider r]> m) rows ∅.

(** ** The engine's rule *)

Record SimRuleMeta := {
  sm_id : jsstr;
  sm_logicalId : jsstr;
  sm_name : jsstr;
  sm_scope : Scope;
  sm_source : jsstr
}.

Record SimRule := { sim_meta : SimRuleMeta; sim_rule : NewRule }.

Definition decodeIdentity (i : IdentityRow) : NewIdentity :=
  match ir_agentId i, ir_userId i, ir_groupId i with
  | Some id, _, _ => IdAgent id
  | None, Some id, _ => IdUser id
  | None, None, Some id => IdGroup id
  | None, None, None => IdAgent []
  end.

Definition decodeIdentities (row : RuleRow) : list NewIdentity :=
  map decodeIdentity (row_identities row).

Section Decode.
Context (secretHosts : SecretHostSet) (connectionProviders : gmap jsstr jsstr).

Definition secretTargetHosts (target : TargetRow) : list jsstr :=
  match truthy (tr_secretId target) with
  | Some id => match shs_byId secretHosts !! id with
               | None => []
               | Some host => [host]
               end
  | None =>
      if bool_decide (tr_secretScope target = Some (js "workspace"))
      then shs_workspaceHosts secretHosts
      else if bool_decide (tr_secretScope target = Some (js "organization"))
      then shs_orgHosts secretHosts
      else []
  end.

Definition inert_target : NewTarget := TConnection [] None [] None.

Definition decodeTarget (target : TargetRow) : NewTarget :=
  if bool_decide (tr_kind target = js "app") then
    match truthy (tr_appProvider target) with
    | None => inert_target
    | Some provider =>
        TApp provider (tr_appTools target) (scope_of (tr_appConnectionScope target))
    end
  else if bool_decide (tr_kind target = js "connection") then
    match truthy (tr_appConnectionId target) with
    | Some id =>
        match connectionProviders !! id with
        | Some provider =>
            TConnection id (Some provider) (tr_appTools target) (truthy (tr_method target))
        | None => TConnection id None [] None
        end
    | None => TConnection (default [] (tr_appConnectionId target)) None [] None
    end
  else if bool_decide (tr_kind target = js "secret") then
    TSecret (secretTargetHosts target)
  else if bool_decide (tr_kind target = js "network") then
    TNetwork (default [] (tr_hostPattern target)) (tr_pathPattern target) (tr_method target)
  else inert_target.

(** An object with string [target], [operator] and [value]. *)
Definition decodeCondition (c : json) : option OldCondition :=
  match json_prop (js "target") c, json_prop (js "operator") c, json_prop (js "value") c with
  | Some (JStr t), Some (JStr o), Some (JStr v) =>
      Some {| cond_target := t; cond_operator := o; cond_value := v; cond_key := None |}
  | _, _, _ => None
  end.

(** All or nothing: one malformed element, or a non-array, is [null]. *)
Definition decodeConditions (conditions : json) : option (list OldCondition) :=
  match conditions with
  | JArr cs => mapM decodeCondition cs
  | _ => None
  end.

Definition source_of (s : jsstr) : RuleSource :=
  if bool_decide (s = js "app_permission") then src_app_permission
  else if bool_decide (s = js "blocklist") then src_blocklist
  else if bool_decide (s = js "default") then src_default
  else if bool_decide (s = js "equipment") then src_equipment
  else if bool_decide (s = js "grant") then src_grant
  else src_custom.

Definition window_of (w : option jsstr) : option RateWindow :=
  if bool_decide (w = Some (js "minute")) then Some minute
  else if bool_decide (w = Some (js "hour")) then Some hour
  else if bool_decide (w = Some (js "day")) then Some day
  else None.

Definition level_of (s : jsstr) : Scope :=
  if bool_decide (s = js "organization") then organization else workspace.

Definition toSimRule (row : RuleRow) : SimRule :=
  {| sim_meta :=
       {| sm_id := row_id row; sm_logicalId := row_logicalId row; sm_name := row_name row;
          sm_scope := level_of (row_scope row); sm_source := row_source row |};
     sim_rule :=
       {| rl_scope := level_of (row_scope row);
          rl_priority := row_priority row;
          rl_isDefault := row_isDefault row;
          rl_source := source_of (row_source row);
          rl_name := row_name row;
          rl_identities := decodeIdentities row;
          rl_targets := map decodeTarget (row_targets row);
          rl_action := if bool_decide (row_action row = js "block") then block else allow;
          rl_requireApproval := row_requireApproval row;
          rl_rateLimit := row_rateLimit row;
          rl_rateLimitWindow := window_of (row_rateLimitWindow row);
          rl_conditions := decodeConditions (row_conditions row) |} |}.
End Decode.

Lemma truthy_Some o s : truthy o = Some s <-> o = Some s /\ s <> [].
Proof. destruct o as [[|c w]|]; simpl; naive_solver. Qed.
