(* ===== verification/Overlap.v ===== *)
(** * Overlap analysis of one level's rules

    [packages/api/src/lib/policy-overlap.ts]: which rules of an ordered
    first-match list can never take effect, from match signatures (duplicates,
    conflicts) and sound cover tests (shadows). *)
From stdpp Require Import pretty.
From S2P Require Import Prelude PathMatch PolicyTypes JsJson PolicyRows.

Inductive OverlapKind := ov_duplicate | ov_conflict | ov_shadowed.

Record OverlapWarning := {
  ow_logicalId : jsstr;
  ow_kind : OverlapKind;
  ow_byLogicalId : jsstr;
  ow_byName : jsstr
}.

(** ** Canonical signatures *)

Definition pipe : jsstr := js "|".

(** [s ?? ""] *)
Definition or_empty (s : option jsstr) : jsstr := default [] s.

Definition scope_name (s : Scope) : jsstr :=
  match s with organization => js "organization" | workspace => js "workspace" end.

Definition identityEntry (i : IdentityDto) : jsstr :=
  match i with
  | DtoAgent id => js "agent" ++ js ":" ++ id
  | DtoUser id => js "user" ++ js ":" ++ id
  | DtoGroup id => js "group" ++ js ":" ++ id
  end.

Definition identitySig (r : OverlapRule) : jsstr :=
  join (js ",") (str_sort (map identityEntry (or_identities r))).

Definition targetEntry (t : OverlapTarget) : jsstr :=
  match t with
  | OtApp provider tools sc =>
      js "app|" ++ provider ++ pipe ++ join (js "+") (str_sort tools) ++ pipe
      ++ or_empty (scope_name <$> sc)
  | OtConnection id tools =>
      js "connection|" ++ id ++ pipe ++ join (js "+") (str_sort tools)
  | OtSecret id sc =>
      js "secret|" ++ or_empty id ++ pipe ++ or_empty (scope_name <$> sc)
  | OtNetwork host path method =>
      js "network|" ++ host ++ pipe ++ or_empty path ++ pipe ++ or_empty method
  end.

Definition targetSig (r : OverlapRule) : jsstr :=
  join (js ",") (str_sort (map targetEntry (or_targets r))).

Definition conditionEntry (c : OldCondition) : jsstr :=
  cond_target c ++ pipe ++ cond_operator c ++ pipe ++ cond_value c.

(** A JavaScript [Set] is its elements in insertion order. *)
Definition conditionSet (conditions : json) : list jsstr :=
  match conditions with
  | JArr cs =>
      match mapM decodeCondition cs with
      | None => []
      | Some es => js_dedup (map conditionEntry es)
      end
  | _ => []
  end.

Definition conditionSig (r : OverlapRule) : jsstr :=
  join (js ",") (str_sort (conditionSet (or_conditions r))).

Definition matchSig (r : OverlapRule) : jsstr :=
  identitySig r ++ [ch_nl] ++ targetSig r ++ [ch_nl] ++ conditionSig r.

Definition verdictSig (r : OverlapRule) : jsstr :=
  or_action r ++ pipe ++ (if or_requireApproval r then js "true" else js "false") ++ pipe
  ++ or_empty ((fun n => js (pretty n)) <$> or_rateLimit r) ++ pipe
  ++ or_empty (or_rateLimitWindow r).

(** ** Cover rules *)

Definition conditionsCover (r1 r2 : OverlapRule) : bool :=
  let c1 := conditionSet (or_conditions r1) in
  let c2 := conditionSet (or_conditions r2) in
  forallb (fun e => bool_decide (e ∈ c2)) c1.

Definition identitiesCover (r1 r2 : OverlapRule) : bool :=
  if (length (or_identities r1) =? 0)%nat then true
  else if (length (or_identities r2) =? 0)%nat then false
  else
    let set1 := map identityEntry (or_identities r1) in
    forallb (fun i => bool_decide (identityEntry i ∈ set1)) (or_identities r2).

Definition isLive (t : OverlapTarget) : bool :=
  match t with
  | OtConnection _ _ | OtApp _ _ _ | OtSecret _ _ | OtNetwork _ _ _ => true
  end.

Definition hasInjectionEffect (r : OverlapRule) : bool :=
  bool_decide (or_action r = js "allow") &&
  existsb (fun t =>
    match t with
    | OtConnection _ _ | OtSecret _ _ => true
    | OtApp _ _ sc => match sc with Some _ => true | None => false end
    | OtNetwork _ _ _ => false
    end) (or_targets r).

Definition ignoresConditions (t : OverlapTarget) : bool :=
  match t with
  | OtApp _ tools _ => (length tools =? 0)%nat
  | OtSecret _ _ | OtConnection _ _ => true
  | OtNetwork _ _ _ => false
  end.

(** [p === null || p === "*"] *)
Definition any_path (p : option jsstr) : bool :=
  match p with None => true | Some p => bool_decide (p = js "*") end.

Definition any_method (m : option jsstr) : bool :=
  match m with None => true | Some _ => false end.

Definition isUniversal (t : OverlapTarget) : bool :=
  match t with
  | OtNetwork host path method =>
      bool_decide (host = js "*") && any_path path && any_method method
  | _ => false
  end.

Definition hostCover (pattern1 pattern2 : jsstr) : bool :=
  if bool_decide (pattern1 = js "*") then true
  else if bool_decide (asciiLower pattern1 = asciiLower pattern2) then true
  else negb (has_char ch_star pattern2) && hostMatches pattern2 pattern1.

Definition GIT_PACK_SUFFIXES : list jsstr := [js "/git-receive-pack"; js "/git-upload-pack"].

Definition isGitPackPattern (p : jsstr) : bool :=
  existsb (fun suffix => ends_with suffix p) GIT_PACK_SUFFIXES.

Definition methodEq (m1 : jsstr) (m2 : option jsstr) : bool :=
  match m2 with
  | None => false
  | Some m2 => bool_decide (asciiLower m1 = asciiLower m2)
  end.

(** [m1 === null || methodEq(m1, m2)] *)
Definition methodCover (m1 m2 : option jsstr) : bool :=
  match m1 with None => true | Some m1 => methodEq m1 m2 end.

Definition networkCover (host1 : jsstr) (p1 m1 : option jsstr)
    (host2 : jsstr) (p2 m2 : option jsstr) : bool :=
  if negb (hostCover host1 host2) then false
  else if (match p2 with Some p2 => isGitPackPattern p2 | None => false end) then
    let universalPath := any_path p1 && any_method m1 in
    let samePath := bool_decide (p1 = p2) && methodCover m1 m2 in
    universalPath || samePath
  else
    let pathOk :=
      any_path p1 ||
      match p1, p2 with
      | Some p1, Some p2 =>
          bool_decide (p1 = p2) ||
          negb (has_char ch_star p2) && negb (isGitPackPattern p1) && pathMatches p2 p1
      | _, _ => false
      end in
    if negb pathOk then false else methodCover m1 m2.

Definition targetCover (t1 t2 : OverlapTarget) : bool :=
  if isUniversal t1 then true
  else match t1, t2 with
  | OtNetwork h1 p1 m1, OtNetwork h2 p2 m2 => networkCover h1 p1 m1 h2 p2 m2
  | OtApp provider1 tools1 _, OtApp provider2 tools2 _ =>
      bool_decide (provider1 = provider2) &&
      ((length tools1 =? 0)%nat ||
       (0 <? length tools2)%nat && forallb (fun tool => bool_decide (tool ∈ tools1)) tools2)
  | _, _ => false
  end.

Definition ruleCovers (r1 r2 : OverlapRule) : bool :=
  if negb (identitiesCover r1 r2) then false
  else if negb (conditionsCover r1 r2) then false
  else
    let liveTargets := List.filter isLive (or_targets r2) in
    if (length liveTargets =? 0)%nat then false
    else if existsb ignoresConditions liveTargets &&
            (0 <? length (conditionSet (or_conditions r1)))%nat then false
    else
      let coverers := List.filter isLive (or_targets r1) in
      forallb (fun t2 => existsb (fun t1 => targetCover t1 t2) coverers) liveTargets.

(** ** The analysis *)

Record OverlapState := {
  os_warnings : list OverlapWarning;
  os_warned : list jsstr;
  os_firstBySig : gmap jsstr OverlapRule
}.

(** The body of the duplicate loop. *)
Definition twinStep (st : OverlapState) (r : OverlapRule) : OverlapState :=
  let sig := matchSig r in
  match os_firstBySig st !! sig with
  | None =>
      {| os_warnings := os_warnings st; os_warned := os_warned st;
         os_firstBySig := <[sig := r]> (os_firstBySig st) |}
  | Some head =>
      let kind := if bool_decide (verdictSig head = verdictSig r)
                  then ov_duplicate else ov_conflict in
      if (match kind with ov_conflict => true | _ => false end) &&
         negb (bool_decide (or_action head = or_action r)) && hasInjectionEffect r
      then st
      else
        {| os_warnings := os_warnings st ++
             [{| ow_logicalId := or_logicalId r; ow_kind := kind;
                 ow_byLogicalId := or_logicalId head; ow_byName := or_name head |}];
           os_warned := or_logicalId r :: os_warned st;
           os_firstBySig := os_firstBySig st |}
  end.

(** The body of the shadow loop: [r2] against the rules before it. *)
Definition shadowStep (ordered : list OverlapRule) (st : OverlapState) (i : nat)
  : OverlapState :=
  match ordered !! i with
  | None => st
  | Some r2 =>
      if bool_decide (or_logicalId r2 ∈ os_warned st) || hasInjectionEffect r2 then st
      else match List.find (fun r1 => ruleCovers r1 r2) (take i ordered) with
      | None => st
      | Some r1 =>
          {| os_warnings := os_warnings st ++
               [{| ow_logicalId := or_logicalId r2; ow_kind := ov_shadowed;
                   ow_byLogicalId := or_logicalId r1; ow_byName := or_name r1 |}];
             os_warned := or_logicalId r2 :: os_warned st;
             os_firstBySig := os_firstBySig st |}
      end
  end.

Definition overlap_leb (a b : OverlapRule) : bool := (or_priority a <=? or_priority b)%Z.

Definition overlapOrder (rules : list OverlapRule) : list OverlapRule :=
  js_sort overlap_leb (List.filter (fun r => or_enabled r && negb (or_isDefault r)) rules).

Definition findPolicyOverlaps (rules : list OverlapRule) : list OverlapWarning :=
  let ordered := overlapOrder rules in
  let twins := fold_left twinStep ordered
                 {| os_warnings := []; os_warned := []; os_firstBySig := ∅ |} in
  os_warnings (fold_left (shadowStep ordered) (seq 1 (length ordered - 1)) twins).
