(* ===== verification/OverlapSound.v ===== *)
(** * The overlap analysis never flags a live rule

    The soundness of [findPolicyOverlaps] against the engine: signatures are
    injective on delimiter-free rows, every cover test is a semantic inclusion,
    and so no flagged row is ever the first match of its level. *)
From S2P Require Import Prelude PathMatch PolicyTypes EndpointMatch JsJson Graphql Catalog.
From S2P Require Import Evaluator PolicyRows Overlap.

(** ** Rows the signatures separate *)

(** A field that holds none of the signatures' separators. *)
Definition plain (s : jsstr) : Prop := (ch_pipe ∉ s) /\ (ch_comma ∉ s) /\ ch_nl ∉ s.

Definition plain_opt (s : option jsstr) : Prop := forall v, s = Some v -> v <> [] /\ plain v.

Definition tool_plain (s : jsstr) : Prop := s <> [] /\ plain s /\ ch_plus ∉ s.

(** What the columns of an identity row satisfy: one principal (the
    [one_principal] constraint), with a separator-free id. *)
Definition identity_clean (i : IdentityRow) : Prop :=
  exists id, plain id /\ id <> [] /\
    (i = {| ir_agentId := Some id; ir_userId := None; ir_groupId := None |} \/
     i = {| ir_agentId := None; ir_userId := Some id; ir_groupId := None |} \/
     i = {| ir_agentId := None; ir_userId := None; ir_groupId := Some id |}).

(** A target row: separator-free fields, no empty string where the signature
    writes [null] as one, one of secret id and scope (the [kind_shape]
    constraint), and no method on a connection, which the DTO drops. *)
Definition target_clean (t : TargetRow) : Prop :=
  plain_opt (tr_appProvider t) /\ Forall tool_plain (tr_appTools t) /\
  plain_opt (tr_appConnectionId t) /\ plain_opt (tr_secretId t) /\
  plain_opt (tr_hostPattern t) /\ plain_opt (tr_pathPattern t) /\ plain_opt (tr_method t) /\
  (tr_secretId t = None \/ tr_secretScope t = None) /\
  (tr_kind t = js "connection" -> tr_method t = None).

(** A body condition: the value may hold anything but the field separator. *)
Definition condition_clean (c : OldCondition) : Prop :=
  plain (cond_target c) /\ plain (cond_operator c) /\ ch_pipe ∉ cond_value c.

Definition row_clean (r : RuleRow) : Prop :=
  Forall identity_clean (row_identities r) /\ Forall target_clean (row_targets r) /\
  Forall condition_clean (default [] (decodeConditions (row_conditions r))).

(** ** Signatures are injective *)

Lemma pipe_split_inj a b a' b' :
  ch_pipe ∉ a -> ch_pipe ∉ a' -> a ++ pipe ++ b = a' ++ pipe ++ b' -> a = a' /\ b = b'.
Proof. intros ? ? E. by apply split_first_inj in E. Qed.

Lemma conditionEntry_inj c c' :
  condition_clean c -> condition_clean c' -> conditionEntry c = conditionEntry c' ->
  cond_target c = cond_target c' /\ cond_operator c = cond_operator c' /\
  cond_value c = cond_value c'.
Proof.
  intros ([Ht _] & [Ho _] & _) ([Ht' _] & [Ho' _] & _) E. unfold conditionEntry in E.
  apply pipe_split_inj in E as [? E]; [|done..].
  by apply pipe_split_inj in E as [? ?].
Qed.

(** An entry with a comma-free head, so that the comma that starts the next
    entry is found. *)
Definition entry_like (s : jsstr) : Prop :=
  exists c, condition_clean c /\ s = conditionEntry c.

Lemma join_entry_shape e l :
  entry_like e -> exists t tail, (ch_comma ∉ t) /\ (ch_pipe ∉ t) /\
    join [ch_comma] (e :: l) = t ++ ch_pipe :: tail.
Proof.
  intros (c & ((?&?&_) & _ & _) & ->). destruct l as [|e' l].
  - eexists (cond_target c), _. split_and!; done.
  - exists (cond_target c), (cond_operator c ++ pipe ++ cond_value c ++ [ch_comma] ++ join [ch_comma] (e' :: l)).
    split_and!; [done..|]. change (join [ch_comma] (conditionEntry c :: e' :: l))
      with (conditionEntry c ++ [ch_comma] ++ join [ch_comma] (e' :: l)).
    unfold conditionEntry. by rewrite <- !app_assoc.
Qed.

(** Condition entries joined by commas are recovered, although their values
    may hold commas. *)
Lemma join_entries_inj l l' :
  Forall entry_like l -> Forall entry_like l' ->
  join [ch_comma] l = join [ch_comma] l' -> l = l'.
Proof.
  intros Hl. revert l'. induction Hl as [|e l He Hl IH]; intros l' Hl' E.
  { destruct Hl' as [|e' l' He' _]; [done|].
    destruct (join_entry_shape e' l' He') as (t & tail & _ & _ & E'). rewrite E' in E.
    by destruct t. }
  destruct Hl' as [|e' l' He' Hl'].
  { destruct (join_entry_shape e l He) as (t & tail & _ & _ & E'). rewrite E' in E.
    by destruct t. }
  assert (forall e l, exists tl, join [ch_comma] (e :: l) = e ++ tl /\
    (l = [] /\ tl = [] \/ l <> [] /\ tl = ch_comma :: join [ch_comma] l)) as Hjoin.
  { intros x [|y k]; [exists []; rewrite app_nil_r; auto|]. eexists. split; [done|]. by right. }
  destruct (Hjoin e l) as (tl & E1 & Htl). destruct (Hjoin e' l') as (tl' & E2 & Htl').
  rewrite E1, E2 in E. clear E1 E2 Hjoin.
  destruct He as (c & ([Ht _] & [Ho _] & Hv) & ->), He' as (c' & ([Ht' _] & [Ho' _] & Hv') & ->).
  unfold conditionEntry in E. rewrite <- !app_assoc in E.
  apply pipe_split_inj in E as [Et E]; [|done..]. apply pipe_split_inj in E as [Eo E]; [|done..].
  assert (cond_value c = cond_value c' /\ l = l') as [Ev ->];
    [|f_equal; unfold conditionEntry; by rewrite Et, Eo, Ev].
  destruct Htl as [[-> ->]|[Hne ->]], Htl' as [[-> ->]|[Hne' ->]].
  - rewrite !app_nil_r in E. done.
  - exfalso. destruct l' as [|e' l']; [done|]. apply Forall_cons in Hl' as [He' _].
    destruct (join_entry_shape e' l' He') as (t & tail & _ & _ & E'). rewrite E' in E.
    apply Hv. rewrite app_nil_r in E. rewrite E. set_solver.
  - exfalso. destruct l as [|e l]; [done|]. apply Forall_cons in Hl as [He _].
    destruct (join_entry_shape e l He) as (t & tail & _ & _ & E'). rewrite E' in E.
    apply Hv'. rewrite app_nil_r in E. rewrite <- E. set_solver.
  - destruct l as [|e l]; [done|]. destruct l' as [|e' l']; [done|].
    pose proof (Forall_inv Hl) as He. pose proof (Forall_inv Hl') as He'.
    destruct (join_entry_shape e l He) as (t & tail & Hc & Hp & E1).
    destruct (join_entry_shape e' l' He') as (t' & tail' & Hc' & Hp' & E2).
    assert (cond_value c ++ ch_comma :: t = cond_value c' ++ ch_comma :: t' /\ tail = tail') as [Ex ->].
    { apply (split_first_inj ch_pipe); [set_solver by vm_compute..|].
      rewrite <- !app_assoc. cbn [app]. by rewrite <- E1, <- E2. }
    apply split_last_inj in Ex as [-> ->]; [|done..]. split; [done|].
    apply IH; [done|]. by rewrite E1, E2.
Qed.

(** What a stored target means to the signature: its kind's fields, the tools
    up to their order. *)
Definition target_equiv (t t' : OverlapTarget) : Prop :=
  match t, t' with
  | OtApp p tools sc, OtApp p' tools' sc' => p = p' /\ tools ≡ₚ tools' /\ sc = sc'
  | OtConnection id tools, OtConnection id' tools' => id = id' /\ tools ≡ₚ tools'
  | OtSecret id sc, OtSecret id' sc' => id = id' /\ sc = sc'
  | OtNetwork h p m, OtNetwork h' p' m' => h = h' /\ p = p' /\ m = m'
  | _, _ => False
  end.

Definition dto_clean (t : OverlapTarget) : Prop :=
  match t with
  | OtApp p tools _ => plain p /\ Forall tool_plain tools
  | OtConnection id tools => plain id /\ Forall tool_plain tools
  | OtSecret id _ => plain_opt id
  | OtNetwork h p m => plain h /\ plain_opt p /\ plain_opt m
  end.

Lemma join_In_chars c ws x : x ∈ join [c] ws -> x = c \/ exists w, w ∈ ws /\ x ∈ w.
Proof.
  induction ws as [|w [|w' ws] IH]; [set_solver|set_solver|].
  change (join [c] (w :: w' :: ws)) with (w ++ [c] ++ join [c] (w' :: ws)).
  rewrite !elem_of_app, list_elem_of_singleton. set_solver.
Qed.

Lemma tools_sig_inj tools tools' :
  Forall tool_plain tools -> Forall tool_plain tools' ->
  join (js "+") (str_sort tools) = join (js "+") (str_sort tools') -> tools ≡ₚ tools'.
Proof.
  intros H H' E. rewrite <- (str_sort_Permutation tools), <- (str_sort_Permutation tools').
  apply join_inj in E as ->; [done|..]; rewrite str_sort_Permutation;
    (eapply Forall_impl; [eassumption|]); by intros x (? & _ & ?).
Qed.

(** Separator-free pieces of a signature. *)
Lemma tools_sig_plain tools : Forall tool_plain tools -> plain (join (js "+") (str_sort tools)).
Proof.
  intros H. assert (forall c, c <> ch_plus -> (forall w, w ∈ tools -> c ∉ w) ->
    c ∉ join (js "+") (str_sort tools)) as Hc.
  { intros c Hne Hw Hin. apply (join_In_chars ch_plus) in Hin as [?|(w & Hw' & ?)]; [done|].
    rewrite str_sort_elem_of in Hw'. by apply (Hw w). }
  rewrite Forall_forall in H.
  split_and!; apply Hc; try done; intros w Hw; by destruct (H w Hw) as (_ & (? & ? & ?) & _).
Qed.

Lemma plain_no_pipe s : plain s -> ch_pipe ∉ s.
Proof. by intros (? & _). Qed.

Lemma plain_or_empty s : plain_opt s -> plain (or_empty s).
Proof. destruct s as [v|]; intros H; [by apply (H v)|]. split_and!; apply not_elem_of_nil. Qed.

(** Separator-freedom of a concrete text, by computation. *)
Lemma plain_literal x :
  forallb (fun c => negb (N.eqb c ch_pipe || N.eqb c ch_comma || N.eqb c ch_nl)) x = true -> plain x.
Proof.
  intros Hx. rewrite forallb_In in Hx.
  split_and!; intros Hin; specialize (Hx _ Hin); by vm_compute in Hx.
Qed.

Lemma plain_scope_name sc : plain (or_empty (scope_name <$> sc)).
Proof. by destruct sc as [[]|]; apply plain_literal. Qed.

Lemma or_empty_inj s s' : plain_opt s -> plain_opt s' -> or_empty s = or_empty s' -> s = s'.
Proof.
  destruct s as [v|], s' as [v'|]; simpl; intros H H' E; try done; [by rewrite E|..].
  - by destruct (H v).
  - by destruct (H' v').
Qed.

Lemma scope_sig_inj (sc sc' : option Scope) :
  or_empty (scope_name <$> sc) = or_empty (scope_name <$> sc') -> sc = sc'.
Proof. by destruct sc as [[]|], sc' as [[]|]. Qed.

#[local] Hint Resolve plain_no_pipe plain_or_empty plain_scope_name tools_sig_plain : jsdb.

Lemma targetEntry_inj t t' :
  dto_clean t -> dto_clean t' -> targetEntry t = targetEntry t' -> target_equiv t t'.
Proof.
  intros Hc Hc' E.
  destruct t as [p tools sc|id tools|id sc|h p m], t' as [p' tools' sc'|id' tools'|id' sc'|h' p' m'];
    try discriminate E; simpl in Hc, Hc' |- *; destruct_and?; unfold targetEntry in E;
    apply app_inv_head in E.
  - apply pipe_split_inj in E as [-> E]; [|by auto with jsdb..].
    apply pipe_split_inj in E as [Et E]; [|by auto with jsdb..].
    split_and!; [done|by apply tools_sig_inj|by apply scope_sig_inj].
  - apply pipe_split_inj in E as [-> E]; [|by auto with jsdb..].
    split; [done|by apply tools_sig_inj].
  - apply pipe_split_inj in E as [Ei E]; [|by auto with jsdb..].
    split; [by apply or_empty_inj|by apply scope_sig_inj].
  - apply pipe_split_inj in E as [-> E]; [|by auto with jsdb..].
    apply pipe_split_inj in E as [Ep Em]; [|by auto with jsdb..].
    split_and!; [done|by apply or_empty_inj..].
Qed.

(** Text without the separators that join entries and sections. *)
Definition safe (s : jsstr) : Prop := (ch_comma ∉ s) /\ ch_nl ∉ s.

Lemma safe_app s s' : safe s -> safe s' -> safe (s ++ s').
Proof. intros [] []. split; rewrite elem_of_app; tauto. Qed.

Lemma safe_plain s : plain s -> safe s.
Proof. by intros (?&?&?). Qed.

Lemma safe_literal s :
  forallb (fun c => negb (N.eqb ch_comma c || N.eqb ch_nl c)) s = true -> safe s.
Proof. intros Hs. rewrite forallb_In in Hs. by split; intros Hx%Hs. Qed.

Ltac solve_safe := repeat apply safe_app; first [by apply safe_literal | apply safe_plain; by auto with jsdb].

Lemma targetEntry_safe t : dto_clean t -> targetEntry t <> [] /\ safe (targetEntry t).
Proof.
  intros Hc. split; [by destruct t|].
  destruct t; simpl in Hc; destruct_and?; unfold targetEntry; solve_safe.
Qed.

Definition identity_dto_id (i : IdentityDto) : jsstr :=
  match i with DtoAgent id | DtoUser id | DtoGroup id => id end.

Lemma identityEntry_inj i i' : identityEntry i = identityEntry i' -> i = i'.
Proof.
  destruct i as [id|id|id], i' as [id'|id'|id']; try discriminate; unfold identityEntry;
    intros E; apply app_inv_head in E; apply app_inv_head in E; by subst.
Qed.

Lemma identityEntry_safe i :
  plain (identity_dto_id i) -> identityEntry i <> [] /\ safe (identityEntry i).
Proof.
  intros Hp. split; [by destruct i|]. destruct i; simpl in Hp; unfold identityEntry; solve_safe.
Qed.

(** A DTO rule the signatures are injective on. *)
Definition dto_rule_clean (r : OverlapRule) : Prop :=
  Forall (fun i => plain (identity_dto_id i)) (or_identities r) /\
  Forall dto_clean (or_targets r) /\
  Forall condition_clean (default [] (decodeConditions (or_conditions r))).

Lemma safe_join ws : Forall safe ws -> ch_nl ∉ join (js ",") ws.
Proof.
  intros H Hin. rewrite Forall_forall in H.
  apply (join_In_chars ch_comma) in Hin as [?|(w & Hw & ?)]; [done|]. by destruct (H w Hw).
Qed.

Lemma sorted_entries_safe {A} (f : A -> jsstr) (l : list A) :
  Forall (fun x => f x <> [] /\ safe (f x)) l ->
  Forall safe (str_sort (map f l)) /\
  Forall (fun w => w <> [] /\ ch_comma ∉ w) (str_sort (map f l)).
Proof.
  intros H. rewrite str_sort_Permutation, !Forall_map.
  split; (eapply Forall_impl; [exact H|]); by intros x [? []].
Qed.

Lemma conditionSet_entries r :
  Forall condition_clean (default [] (decodeConditions (or_conditions r))) ->
  Forall entry_like (conditionSet (or_conditions r)).
Proof.
  unfold conditionSet, decodeConditions. destruct (or_conditions r) as [| | | |cs|]; try constructor.
  destruct (mapM decodeCondition cs) as [es|]; [|constructor]. simpl. intros H.
  apply Forall_forall. intros e He. rewrite js_dedup_elem_of in He.
  rewrite Forall_forall in H.
  apply list_elem_of_fmap in He as (c & -> & Hc). exists c. auto.
Qed.

(** Entries that sort alike are a permutation's. *)
Lemma sort_map_inv {A} (f : A -> jsstr) l l' :
  str_sort (map f l) = str_sort (map f l') -> exists l3, map f l = map f l3 /\ l3 ≡ₚ l'.
Proof.
  intros E. assert (map f l ≡ₚ map f l') as HP.
  { by rewrite <- (str_sort_Permutation (map f l)), E, str_sort_Permutation. }
  apply Permutation_map_inv in HP as (l3 & ? & ?). by exists l3.
Qed.

(** Equal match signatures: the same principals, targets and conditions. *)
Lemma matchSig_inj r r' :
  dto_rule_clean r -> dto_rule_clean r' -> matchSig r = matchSig r' ->
  or_identities r ≡ₚ or_identities r' /\
  (exists ts, ts ≡ₚ or_targets r' /\ Forall2 target_equiv (or_targets r) ts) /\
  (forall e, e ∈ conditionSet (or_conditions r) <-> e ∈ conditionSet (or_conditions r')).
Proof.
  intros (Hi & Ht & Hc) (Hi' & Ht' & Hc') E. unfold matchSig in E.
  assert (forall q, Forall (fun i => plain (identity_dto_id i)) (or_identities q) ->
    Forall (fun i => identityEntry i <> [] /\ safe (identityEntry i)) (or_identities q)) as HI.
  { intros q Hq. eapply Forall_impl; [exact Hq|]. apply identityEntry_safe. }
  assert (forall q, Forall dto_clean (or_targets q) ->
    Forall (fun t => targetEntry t <> [] /\ safe (targetEntry t)) (or_targets q)) as HT.
  { intros q Hq. eapply Forall_impl; [exact Hq|]. apply targetEntry_safe. }
  apply HI, sorted_entries_safe in Hi as [Hin Hij], Hi' as [Hin' Hij'].
  pose proof (HT _ Ht) as [Htn Htj]%sorted_entries_safe.
  pose proof (HT _ Ht') as [Htn' Htj']%sorted_entries_safe.
  apply split_first_inj in E as [Ei E]; [|by apply safe_join..].
  apply split_first_inj in E as [Et Ec]; [|by apply safe_join..].
  split_and!.
  - apply join_inj in Ei; [|done..].
    apply sort_map_inv in Ei as (l3 & El & <-).
    assert (or_identities r = l3) as ->; [|done].
    revert El. generalize (or_identities r). clear. intros l. revert l3.
    induction l as [|i l IH]; intros [|i' l'] E; try done. injection E as E1 E2.
    f_equal; [by apply identityEntry_inj|auto].
  - apply join_inj in Et; [|done..].
    apply sort_map_inv in Et as (l3 & El & HP). exists l3. split; [done|].
    rewrite <- HP in Ht'. revert El Ht Ht'. generalize (or_targets r). clear. intros l. revert l3.
    induction l as [|t l IH]; intros [|t' l'] E Ht Ht'; try done. injection E as E1 E2.
    apply Forall_cons in Ht as [? ?], Ht' as [? ?].
    constructor; [by apply targetEntry_inj|auto].
  - intros e. unfold conditionSig in Ec. apply join_entries_inj in Ec;
      [|rewrite str_sort_Permutation; by apply conditionSet_entries..].
    by rewrite <- (str_sort_elem_of e (conditionSet (or_conditions r))), Ec, str_sort_elem_of.
Qed.

(** ** What a DTO target matches *)

(** Does the arm of this target honour the rule's conditions? *)
Definition conditioned (t : NewTarget) : bool :=
  match t with
  | TNetwork _ _ _ => true
  | TApp _ tools _ | TConnection _ _ tools _ => negb (length tools =? 0)%nat
  | TSecret _ => false
  end.

Definition bare_rule : NewRule :=
  {| rl_scope := workspace; rl_priority := 0; rl_isDefault := false; rl_source := src_custom;
     rl_name := []; rl_identities := []; rl_targets := []; rl_action := allow;
     rl_requireApproval := false; rl_rateLimit := None; rl_rateLimitWindow := None;
     rl_conditions := None |}.

Section Surface.
Context (reg : Registry) `{JsCase} (rq : PolicyRequest).
Context (sh : SecretHostSet) (cp : gmap jsstr jsstr).

(** What a target matches with the rule's conditions set aside. *)
Definition surface (t : NewTarget) : bool := targetMatches reg t bare_rule rq.

Lemma appTargetMatches_factor provider tools cs :
  appTargetMatches reg rq provider tools cs =
  appTargetMatches reg rq provider tools None && conditionsMatch cs (rq_body rq).
Proof.
  apply eq_true_iff_eq. rewrite andb_true_iff, !appTargetMatches_iff.
  setoid_rewrite toolMatches_factor at 1. setoid_rewrite andb_true_iff. naive_solver.
Qed.

Lemma targetMatches_factor rule t :
  targetMatches reg t rule rq =
  surface t && (negb (conditioned t) || conditionsMatch (rl_conditions rule) (rq_body rq)).
Proof.
  unfold surface. destruct t as [h p m|pr [|tl tools] sc|cid pr tools m|hs]; cbn -[appTargetMatches].
  - rewrite (endpointMatches_factor _ _ _ (rl_conditions rule)), (endpointMatches_factor _ _ _ None).
    change (conditionsMatch None (rq_body rq)) with true. by rewrite andb_true_r, andb_assoc.
  - by rewrite andb_true_r.
  - apply appTargetMatches_factor.
  - destruct pr as [pr|]; [|done]. destruct (rq_winningConnectionId rq); [|done].
    destruct (negb _); [done|]. destruct tools; cbn -[appTargetMatches].
    + by rewrite andb_true_r.
    + apply appTargetMatches_factor.
  - by rewrite andb_true_r.
Qed.

(** The engine target a DTO target stands for. *)
Definition decode_dto (t : OverlapTarget) : NewTarget :=
  match t with
  | OtApp provider tools sc => TApp provider tools sc
  | OtConnection id tools =>
      match cp !! id with
      | Some provider => TConnection id (Some provider) tools None
      | None => TConnection id None [] None
      end
  | OtSecret id sc =>
      TSecret (match id, sc with
               | Some id, _ => match shs_byId sh !! id with None => [] | Some h => [h] end
               | None, Some workspace => shs_workspaceHosts sh
               | None, Some organization => shs_orgHosts sh
               | None, None => []
               end)
  | OtNetwork host path method => TNetwork host path method
  end.

Lemma toTargetDto_decode t d :
  target_clean t -> toTargetDto t = Some d ->
  dto_clean d /\ decodeTarget sh cp t = decode_dto d.
Proof.
  intros (Hp & Htools & Hcid & Hsid & Hh & Hpath & Hm & Hex & Hconn). unfold toTargetDto, decodeTarget.
  destruct (bool_decide (tr_kind t = js "app")).
  { destruct (truthy (tr_appProvider t)) as [p|] eqn:E; [|done]. intros [= <-].
    apply truthy_Some in E as [E _]. by destruct (Hp p E). }
  case_bool_decide as Hk.
  { rewrite Hconn by done. destruct (truthy (tr_appConnectionId t)) as [id|] eqn:E; [|done].
    intros [= <-]. apply truthy_Some in E as [E _]. by destruct (Hcid id E). }
  destruct (bool_decide (tr_kind t = js "secret")).
  { unfold secretTargetHosts, scope_of. intros Hd. destruct Hex as [Hs|Hs]; rewrite Hs in *; simpl in *.
    - destruct (decide (tr_secretScope t = Some (js "organization"))) as [E|E].
      + rewrite E in *. injection Hd as <-. split; [by intros ? ?|done].
      + rewrite bool_decide_eq_false_2 in Hd by done. case_bool_decide; [|done].
        injection Hd as <-. split; [by intros ? ?|done].
    - destruct (truthy (tr_secretId t)) as [id|] eqn:E; [|done].
      injection Hd as <-. apply truthy_Some in E as [E _]. split; [|done].
      intros v [= <-]. by apply Hsid. }
  destruct (bool_decide (tr_kind t = js "network")); [|done].
  destruct (truthy (tr_hostPattern t)) as [h|] eqn:E; [|done]. intros [= <-].
  apply truthy_Some in E as [E _]. rewrite E. by destruct (Hh h E).
Qed.

(** Targets with the same signature match alike. *)
Lemma target_equiv_surface t t' :
  target_equiv t t' ->
  surface (decode_dto t) = surface (decode_dto t') /\
  conditioned (decode_dto t) = conditioned (decode_dto t').
Proof.
  assert (forall p tools tools' cs, tools ≡ₚ tools' ->
    appTargetMatches reg rq p tools cs = appTargetMatches reg rq p tools' cs) as Happ.
  { intros p tools tools' cs HP. apply eq_true_iff_eq. rewrite !appTargetMatches_iff.
    by setoid_rewrite HP. }
  assert (forall tools tools' : list jsstr, tools ≡ₚ tools' ->
    tools = [] /\ tools' = [] \/ exists a b a' b', tools = a :: b /\ tools' = a' :: b') as Hcase.
  { intros [|a b] [|a' b'] HP; [by left|..|naive_solver]; apply Permutation_length in HP; done. }
  destruct t as [p tools sc|id tools|id sc|h p m], t' as [p' tools' sc'|id' tools'|id' sc'|h' p' m'];
    try done; simpl.
  - intros (<- & HP & <-). specialize (Happ p _ _ None HP). unfold surface. revert Happ.
    by destruct (Hcase _ _ HP) as [[-> ->]|(? & ? & ? & ? & -> & ->)].
  - intros (<- & HP). destruct (cp !! id) as [p|]; [|done].
    specialize (Happ p _ _ None HP). unfold surface. revert Happ.
    destruct (Hcase _ _ HP) as [[-> ->]|(? & ? & ? & ? & -> & ->)]; [done|].
    intros Happ. cbn -[appTargetMatches]. by rewrite Happ.
  - by intros [<- <-].
  - by intros (<- & <- & <-).
Qed.
End Surface.

(** ** Cover tests are inclusions *)

Lemma hostMatches_concrete h p :
  ch_star ∉ p -> hostMatches h p = true <-> asciiLower h = asciiLower p.
Proof.
  intros Hp. rewrite hostMatches_iff. split; [|by constructor].
  inversion 1 as [|? pre mid suf|? ? Hc]; subst; [done|set_solver|].
  apply count_char_0 in Hp. lia.
Qed.

Lemma hostCover_sound h p1 p2 :
  hostCover p1 p2 = true -> hostMatches h p2 = true -> hostMatches h p1 = true.
Proof.
  unfold hostCover. case_bool_decide as E1; [subst; intros _ _; apply hostMatches_star|].
  case_bool_decide as E2; [intros _; by rewrite (hostMatches_fold h h p1 p2)|].
  intros [Hn%negb_true_iff%has_char_false Hm]%andb_true_iff Hh.
  apply hostMatches_concrete in Hh; [|done]. by rewrite (hostMatches_fold h p2 p1 p1).
Qed.

Lemma pathMatches_concrete path p :
  ch_star ∉ p -> pathMatches path p = true <-> stripQuery path = p.
Proof.
  intros Hp. unfold pathMatches. rewrite bool_decide_eq_false_2 by (intros ->; apply Hp, star_in_star).
  assert (hasMidPathWildcard p = false) as ->.
  { unfold hasMidPathWildcard. apply andb_false_intro2. apply has_char_false.
    unfold drop_last. intros (i & Hi & _)%elem_of_take. by apply list_elem_of_lookup_2 in Hi. }
  assert (forall q, ends_with (q ++ js "*") p = false) as He.
  { intros q. apply not_true_iff_false. rewrite ends_with_spec. intros (k & ->).
    apply Hp. rewrite !elem_of_app. right. right. by left. }
  change (js "/*") with (js "/" ++ js "*"). rewrite He.
  change (js "*") with ([] ++ js "*"). rewrite He. apply bool_decide_eq_true.
Qed.

Lemma stripQuery_spec path : ch_qmark ∉ stripQuery path.
Proof.
  unfold stripQuery. destruct (split_on_cons ch_qmark path) as (w & ws & E). rewrite E.
  apply (split_on_pieces ch_qmark path). rewrite E. by left.
Qed.

(** A path pattern that covers a concrete later pattern. *)
Lemma pathCover_concrete path p1 p2 :
  ch_star ∉ p2 -> pathMatches p2 p1 = true -> pathMatches path p2 = true ->
  pathMatches path p1 = true.
Proof.
  intros Hs Hc Hp. apply pathMatches_concrete in Hp; [|done]. subst p2.
  rewrite pathMatches_iff in Hc |- *. by rewrite stripQuery_no in Hc by apply stripQuery_spec.
Qed.

(** The two halves of an endpoint: the direct match and the git bridge. *)
Definition method_ok (rq : PolicyRequest) (m : option jsstr) : bool :=
  match m with None => true | Some m => bool_decide (asciiLower m = asciiLower (rq_method rq)) end.

Definition git_bridge (rq : PolicyRequest) (p : jsstr) : bool :=
  bool_decide (asciiLower (rq_method rq) = js "get") &&
  existsb (fun service => ends_with (js "/" ++ service) p && isGitDiscovery (rq_path rq) service)
    GIT_PACK_SERVICES.

Lemma endpoint_surface_split rq p m :
  endpoint_surface rq p m = (pathMatches (rq_path rq) p && method_ok rq m) || git_bridge rq p.
Proof.
  unfold endpoint_surface, endpointMatches, git_bridge, method_ok.
  cbn [ep_pathPattern ep_method ep_conditions conditionsMatch]. rewrite andb_true_r.
  destruct (_ && _); [done|]. cbn [orb]. case_bool_decide; [|done]. cbn [andb].
  cbn [existsb GIT_PACK_SERVICES List.find].
  by destruct (_ && isGitDiscovery _ (js "git-receive-pack")), (_ && isGitDiscovery _ (js "git-upload-pack")).
Qed.

Lemma git_bridge_pattern rq p : git_bridge rq p = true -> isGitPackPattern p = true.
Proof.
  unfold git_bridge, isGitPackPattern. intros [_ (s & Hs & [He _]%andb_true_iff)%existsb_In]%andb_true_iff.
  apply existsb_In. exists (js "/" ++ s). split; [|done].
  unfold GIT_PACK_SERVICES in Hs. rewrite !elem_of_cons, elem_of_nil in Hs.
  destruct Hs as [->|[->|[]]]; [by left|by right; left].
Qed.

Lemma any_path_spec p : any_path p = true -> default (js "*") p = js "*".
Proof. destruct p as [p|]; [|done]. apply bool_decide_eq_true. Qed.

Lemma methodCover_sound rq m1 m2 :
  methodCover m1 m2 = true -> method_ok rq m2 = true -> method_ok rq m1 = true.
Proof.
  destruct m1 as [m1|], m2 as [m2|]; simpl; try done.
  rewrite !bool_decide_eq_true. congruence.
Qed.

Lemma networkCover_sound rq h1 p1 m1 h2 p2 m2 :
  networkCover h1 p1 m1 h2 p2 m2 = true ->
  hostMatches (rq_host rq) h2 && endpoint_surface rq (default (js "*") p2) m2 = true ->
  hostMatches (rq_host rq) h1 && endpoint_surface rq (default (js "*") p1) m1 = true.
Proof.
  unfold networkCover. destruct (hostCover h1 h2) eqn:Hh; [|done]. cbn [negb].
  intros Hc [Hh2 He]%andb_true_iff. apply andb_true_iff. split; [by eapply hostCover_sound|].
  rewrite endpoint_surface_split in He |- *. apply orb_true_iff.
  destruct (match p2 with Some _ => _ | None => _ end) eqn:Hg.
  - apply orb_true_iff in Hc as [[Hp Hm]%andb_true_iff|[->%bool_decide_eq_true Hm]%andb_true_iff].
    + left. by rewrite (any_path_spec p1 Hp), pathMatches_star; destruct m1.
    + apply orb_true_iff in He as [[-> He]%andb_true_iff|He]; [left|by right].
      by rewrite (methodCover_sound rq m1 m2).
  - left. apply orb_true_iff in He as [[Hp2 Hm2]%andb_true_iff|Hb].
    + destruct (_ || _) eqn:Hp; [|done]. cbn [negb] in Hc.
      rewrite (methodCover_sound rq m1 m2), andb_true_r by done.
      apply orb_true_iff in Hp as [Hp|Hp]; [by rewrite any_path_spec|].
      destruct p1 as [p1|], p2 as [p2|]; try done. simpl in *.
      apply orb_true_iff in Hp as [->%bool_decide_eq_true|Hp]; [done|].
      apply andb_true_iff in Hp as [[Hs%negb_true_iff%has_char_false _]%andb_true_iff Hp].
      by eapply pathCover_concrete.
    + apply git_bridge_pattern in Hb. destruct p2 as [p2|]; [simpl in *; congruence|done].
Qed.

Section Cover.
Context (reg : Registry) `{JsCase} (rq : PolicyRequest).
Context (sh : SecretHostSet) (cp : gmap jsstr jsstr).

Abbreviation surf t := (surface reg rq (decode_dto sh cp t)).

Lemma surface_network h p m :
  surf (OtNetwork h p m) = hostMatches (rq_host rq) h && endpoint_surface rq (default (js "*") p) m.
Proof. done. Qed.

Lemma targetCover_sound t1 t2 :
  targetCover t1 t2 = true -> surf t2 = true -> surf t1 = true.
Proof.
  unfold targetCover. destruct (isUniversal t1) eqn:Hu.
  - intros _ _. destruct t1 as [| | |h p m]; try done. simpl in Hu.
    apply andb_true_iff in Hu as [[->%bool_decide_eq_true Hp]%andb_true_iff Hm].
    rewrite surface_network, hostMatches_star, endpoint_surface_split, any_path_spec, pathMatches_star by done.
    by destruct m.
  - clear Hu. destruct t1 as [p1 tools1 sc1|id1 tools1|id1 sc1|h1 p1 m1],
      t2 as [p2 tools2 sc2|id2 tools2|id2 sc2|h2 p2 m2]; try done.
    + intros [->%bool_decide_eq_true Ht]%andb_true_iff Hs.
      destruct tools1 as [|a tools1].
      * destruct tools2; [done|]. by apply appTargetMatches_provider in Hs.
      * apply orb_true_iff in Ht as [Ht|Ht]; [done|].
        destruct tools2 as [|b tools2]; [done|]. apply andb_true_iff in Ht as [_ Ht].
        revert Hs. apply appTargetMatches_mono; [|done].
        intros id Hid. rewrite forallb_In in Ht. by apply Ht, bool_decide_eq_true in Hid.
    + rewrite !surface_network. apply networkCover_sound.
Qed.

Lemma not_conditioned_ignores t :
  conditioned (decode_dto sh cp t) = false -> ignoresConditions t = true.
Proof. by destruct t as [? [|]| | |]. Qed.
End Cover.

(** ** Conditions *)

Lemma conditionSet_decode j e :
  e ∈ conditionSet j <-> exists c, c ∈ default [] (decodeConditions j) /\ e = conditionEntry c.
Proof.
  unfold conditionSet, decodeConditions. destruct j as [| | | |cs|]; simpl; try set_solver.
  destruct (mapM decodeCondition cs) as [es|]; simpl; [|set_solver].
  rewrite js_dedup_elem_of, list_elem_of_fmap. naive_solver.
Qed.

(** Fewer condition entries accept more bodies. *)
Lemma conditionSet_mono j1 j2 body :
  Forall condition_clean (default [] (decodeConditions j1)) ->
  Forall condition_clean (default [] (decodeConditions j2)) ->
  (forall e, e ∈ conditionSet j1 -> e ∈ conditionSet j2) ->
  conditionsMatch (decodeConditions j2) body = true ->
  conditionsMatch (decodeConditions j1) body = true.
Proof.
  intros H1 H2 Hsub. rewrite !conditionsMatch_iff. intros Hb c Hc.
  assert (conditionEntry c ∈ conditionSet j2) as (c' & Hc' & E)%conditionSet_decode
    by (apply Hsub, conditionSet_decode; eauto).
  rewrite Forall_forall in H1, H2.
  apply conditionEntry_inj in E as (Et & Eo & Ev); [|by auto..].
  specialize (Hb c' Hc'). unfold conditionMatches in *. by rewrite Et, Eo, Ev.
Qed.

(** ** Rules *)

Section Rules.
Context (reg : Registry) `{JsCase} (rq : PolicyRequest).
Context (sh : SecretHostSet) (cp : gmap jsstr jsstr).

Definition decode_identity_dto (i : IdentityDto) : NewIdentity :=
  match i with
  | DtoAgent id => IdAgent id
  | DtoUser id => IdUser id
  | DtoGroup id => IdGroup id
  end.

(** What a DTO rule matches, read off its DTO. *)
Definition dto_matches (r : OverlapRule) : bool :=
  (bool_decide (or_identities r = []) ||
   existsb (fun i => match i with
     | DtoAgent id => bool_decide (id = rq_agentId rq)
     | DtoUser id => bool_decide (id ∈ default [] (rq_userIds rq))
     | DtoGroup id => bool_decide (id ∈ default [] (rq_groupIds rq))
     end) (or_identities r)) &&
  existsb (fun t => surface reg rq (decode_dto sh cp t) &&
    (negb (conditioned (decode_dto sh cp t)) ||
     conditionsMatch (decodeConditions (or_conditions r)) (rq_body rq))) (or_targets r).

Abbreviation sim row := (sim_rule (toSimRule sh cp row)).

Lemma toIdentityDto_decode i d :
  identity_clean i -> toIdentityDto i = Some d ->
  plain (identity_dto_id d) /\ decodeIdentity i = decode_identity_dto d.
Proof.
  intros (id & Hp & Hne & [-> | [-> | ->]]); unfold toIdentityDto; simpl;
    destruct id as [|c id]; try done; intros [= <-]; done.
Qed.

Lemma mapM_decode {A B C} (f : A -> option B) (g : A -> C) (h : B -> C) (P : A -> Prop) (Q : B -> Prop) l k :
  (forall x y, P x -> f x = Some y -> Q y /\ g x = h y) ->
  Forall P l -> mapM f l = Some k -> Forall Q k /\ map g l = map h k.
Proof.
  intros Hf Hl E. apply mapM_Some in E. revert Hl.
  induction E as [|x y l k E _ IH]; intros Hl; [done|].
  apply Forall_cons in Hl as [Hx Hl]. destruct (Hf _ _ Hx E) as [Hq Hg].
  destruct (IH Hl) as [HQ HG]. split; [by constructor|]. simpl. by rewrite Hg, HG.
Qed.

(** The engine's reading of a clean row is the DTO's. *)
Lemma toRuleDto_matches row d :
  row_clean row -> toRuleDto row = Some d ->
  dto_rule_clean d /\ ruleMatches reg (sim row) rq = dto_matches d.
Proof.
  intros (Hi & Ht & Hc) E. unfold toRuleDto in E.
  destruct (mapM toIdentityDto (row_identities row)) as [ids|] eqn:Ei; [|done]. simpl in E.
  destruct (mapM toTargetDto (row_targets row)) as [ts|] eqn:Et; [|done]. injection E as <-.
  destruct (mapM_decode _ decodeIdentity decode_identity_dto _ _ _ _ toIdentityDto_decode Hi Ei)
    as [Hi' Ei'].
  destruct (mapM_decode _ (decodeTarget sh cp) (decode_dto sh cp) _ _ _ _
    (toTargetDto_decode sh cp) Ht Et) as [Ht' Et'].
  split; [split_and!; done|]. unfold ruleMatches, dto_matches, identityMatches. simpl.
  unfold decodeIdentities. rewrite Ei', Et', <- andb_assoc, existsb_nonempty, !existsb_map_comp.
  f_equal.
  - f_equal; [apply bool_decide_ext; by destruct ids|].
    apply existsb_ext_In. intros i _. by destruct i.
  - apply existsb_ext_In. intros t _. by rewrite targetMatches_factor.
Qed.

(** Twins match alike. *)
Lemma matchSig_sound r r' :
  dto_rule_clean r -> dto_rule_clean r' -> matchSig r = matchSig r' ->
  dto_matches r = dto_matches r'.
Proof.
  intros Hr Hr' E. destruct (matchSig_inj r r' Hr Hr' E) as (Hi & (ts & Hts & Ht) & Hc).
  destruct Hr as (_ & _ & Hcr), Hr' as (_ & _ & Hcr').
  unfold dto_matches. f_equal.
  - f_equal; [apply bool_decide_ext; split; intros E'; rewrite E' in Hi;
      [by apply Permutation_nil_l in Hi|by apply Permutation_nil_r in Hi]|].
    by apply existsb_Permutation.
  - rewrite <- (existsb_Permutation _ _ _ Hts).
    assert (conditionsMatch (decodeConditions (or_conditions r)) (rq_body rq) =
      conditionsMatch (decodeConditions (or_conditions r')) (rq_body rq)) as ->.
    { apply eq_true_iff_eq. split; apply conditionSet_mono; try done; intros e; apply Hc. }
    apply (existsb_Forall2 target_equiv); [|done].
    intros t t' Htt. by destruct (target_equiv_surface reg rq sh cp t t' Htt) as [-> ->].
Qed.

(** A covering rule matches whatever the covered one does. *)
Lemma ruleCovers_sound r1 r2 :
  dto_rule_clean r1 -> dto_rule_clean r2 -> ruleCovers r1 r2 = true ->
  dto_matches r2 = true -> dto_matches r1 = true.
Proof.
  intros (_ & _ & Hc1) (_ & _ & Hc2). unfold ruleCovers.
  destruct (identitiesCover r1 r2) eqn:Hi; [|done].
  destruct (conditionsCover r1 r2) eqn:Hc; [|done]. cbn [negb].
  assert (forall l, List.filter isLive l = l) as Hlive.
  { induction l as [|[] l IH]; simpl; by rewrite ?IH. }
  rewrite !Hlive. destruct (_ =? 0)%nat; [done|].
  destruct (existsb ignoresConditions _ && _) eqn:Hig; [done|]. intros Hcov.
  unfold dto_matches. intros [Hid (t2 & Ht2 & [Hs Hcond]%andb_true_iff)%existsb_In]%andb_true_iff.
  apply andb_true_iff. split.
  - unfold identitiesCover in Hi. destruct (Nat.eqb_spec (length (or_identities r1)) 0) as [E1|E1].
    { apply length_zero_iff_nil in E1. by rewrite E1. }
    destruct (Nat.eqb_spec (length (or_identities r2)) 0) as [E2|E2]; [done|].
    apply orb_true_iff in Hid as [Hid%bool_decide_eq_true|(i & Hin & Hm)%existsb_In];
      [by rewrite Hid in E2|].
    apply orb_true_iff. right. apply existsb_In. exists i. split; [|done].
    rewrite forallb_In in Hi. apply Hi, bool_decide_eq_true in Hin.
    by apply list_elem_of_fmap in Hin as (i' & ->%identityEntry_inj & ?).
  - rewrite forallb_In in Hcov. apply Hcov in Ht2 as Hex. apply existsb_In in Hex as (t1 & Ht1 & Htc).
    apply existsb_In. exists t1. split; [done|].
    rewrite (targetCover_sound reg rq sh cp t1 t2) by done. cbn [andb].
    apply orb_true_iff in Hcond as [Hcond|Hcond]; apply orb_true_iff; right.
    + apply negb_true_iff, not_conditioned_ignores in Hcond.
      apply andb_false_iff in Hig as [Hig|Hig].
      * rewrite existsb_not_In in Hig. by rewrite Hig in Hcond.
      * apply Nat.ltb_ge in Hig. apply conditionsMatch_iff. intros c Hin.
        assert (conditionEntry c ∈ conditionSet (or_conditions r1)) as He
          by (apply conditionSet_decode; eauto).
        destruct (conditionSet (or_conditions r1)); [set_solver|simpl in Hig; lia].
    + revert Hcond. apply conditionSet_mono; [done..|]. intros e He.
      unfold conditionsCover in Hc. rewrite forallb_In in Hc. by apply Hc, bool_decide_eq_true in He.
Qed.
End Rules.

(** ** The loops *)

(** [w] flags a rule that a rule before it covers. *)
Definition flagged (l : list OverlapRule) (w : OverlapWarning) : Prop :=
  exists a h b r c, l = a ++ h :: b ++ r :: c /\
    (matchSig h = matchSig r \/ ruleCovers h r = true) /\
    ow_logicalId w = or_logicalId r /\ ow_byLogicalId w = or_logicalId h.

Lemma flagged_app l k w : flagged l w -> flagged (l ++ k) w.
Proof.
  intros (a & h & b & r & c & -> & Hc & Hr & Hh). exists a, h, b, r, (c ++ k).
  split_and!; try done. by rewrite <- !app_assoc, <- !app_comm_cons, <- app_assoc.
Qed.

Lemma twins_flagged l :
  forall w, w ∈ os_warnings (fold_left twinStep l
    {| os_warnings := []; os_warned := []; os_firstBySig := ∅ |}) -> flagged l w.
Proof.
  apply (fold_left_prefix_inv twinStep (fun pre st =>
    (forall s h, os_firstBySig st !! s = Some h -> matchSig h = s /\ h ∈ pre) /\
    forall w, w ∈ os_warnings st -> flagged pre w)).
  - split; [by intros ? ? [=]|set_solver].
  - intros pre r post st _ [Hsig Hw]. unfold twinStep.
    destruct (os_firstBySig st !! matchSig r) as [h|] eqn:Eh.
    + assert (forall w, w ∈ os_warnings st -> flagged (pre ++ [r]) w) as Hw'
        by (intros; by apply flagged_app, Hw).
      assert (forall s h, os_firstBySig st !! s = Some h -> matchSig h = s /\ h ∈ pre ++ [r]) as Hsig'
        by (intros s h' [? ?]%Hsig; set_solver).
      destruct (_ && _ && _); [done|]. split; [done|]. simpl.
      intros w [Hin|Hin%list_elem_of_singleton]%elem_of_app; [by apply Hw'|]. subst w.
      apply Hsig in Eh as [Es (a & b & ->)%list_elem_of_split].
      exists a, h, b, r, []. split_and!; [by rewrite <- app_assoc|by left|done..].
    + split; simpl.
      * intros s h. destruct (decide (s = matchSig r)) as [->|Hne].
        -- rewrite lookup_insert_eq. intros [= <-]. set_solver.
        -- rewrite lookup_insert_ne by done. intros [? ?]%Hsig. set_solver.
      * intros w Hin. by apply flagged_app, Hw.
Qed.

Lemma shadows_flagged ordered idx st :
  (forall w, w ∈ os_warnings st -> flagged ordered w) ->
  forall w, w ∈ os_warnings (fold_left (shadowStep ordered) idx st) -> flagged ordered w.
Proof.
  revert st. induction idx as [|i idx IH]; intros st Hst; simpl; [done|].
  apply IH. unfold shadowStep. destruct (ordered !! i) as [r2|] eqn:E; [|done].
  destruct (_ || _); [done|]. destruct (List.find _ _) as [r1|] eqn:Ef; [|done]. simpl.
  intros w [Hin|Hin%list_elem_of_singleton]%elem_of_app; [by apply Hst|]. subst w. clear Hst.
  apply find_some in Ef as [Hin Hcov]. apply list_elem_of_In, list_elem_of_split in Hin as (a & b & Ht).
  exists a, r1, b, r2, (drop (S i) ordered). split_and!; try done; [|by right].
  rewrite <- (take_drop_middle _ _ _ E), Ht at 1. by rewrite <- app_assoc.
Qed.

Lemma findPolicyOverlaps_flagged rules w :
  w ∈ findPolicyOverlaps rules -> flagged (overlapOrder rules) w.
Proof. apply shadows_flagged, twins_flagged. Qed.

(** ** No flagged row ever decides *)

(** The rows the editor analyses: one level's rules, without its Default Rule
    and the injection-only equipment rows. *)
Definition analysed (s : Scope) (row : RuleRow) : bool :=
  bool_decide (level_of (row_scope row) = s) && negb (row_isDefault row) &&
  negb (bool_decide (row_source row = js "equipment")).

(** The rows the engine loads ([loadRulesForSimulation]). *)
Definition decides (row : RuleRow) : bool :=
  row_enabled row && negb (bool_decide (row_source row = js "equipment")).

Section Soundness.
Context (reg : Registry) `{JsCase}.
Context (sh : SecretHostSet) (cp : gmap jsstr jsstr).

Abbreviation sim row := (sim_rule (toSimRule sh cp row)).

Definition decisionRules (rows : list RuleRow) : list NewRule :=
  map (fun row => sim row) (List.filter decides rows).

(** Delete from a level the rows with these logical ids. *)
Definition without (s : Scope) (dead : list jsstr) (rows : list RuleRow) : list RuleRow :=
  List.filter (fun row => negb (analysed s row && bool_decide (row_logicalId row ∈ dead))) rows.

(** The DTO where there is one, with the fields the walk orders by. *)
Definition dto_of (row : RuleRow) : OverlapRule :=
  match toRuleDto row with
  | Some d => d
  | None =>
      {| or_logicalId := row_logicalId row; or_isDefault := row_isDefault row;
         or_enabled := row_enabled row; or_priority := row_priority row;
         or_name := []; or_action := []; or_requireApproval := false; or_rateLimit := None;
         or_rateLimitWindow := None; or_identities := []; or_targets := [];
         or_conditions := JNull |}
  end.

Lemma dto_of_fields row :
  or_logicalId (dto_of row) = row_logicalId row /\ or_isDefault (dto_of row) = row_isDefault row /\
  or_enabled (dto_of row) = row_enabled row /\ or_priority (dto_of row) = row_priority row.
Proof.
  unfold dto_of. destruct (toRuleDto row) as [d|] eqn:E; [|done]. unfold toRuleDto in E.
  destruct (mapM toIdentityDto _); [|done]. simpl in E.
  destruct (mapM toTargetDto _); [|done]. by injection E as <-.
Qed.

Lemma mapM_dto_of rows dtos :
  mapM toRuleDto rows = Some dtos ->
  dtos = map dto_of rows /\ forall row, row ∈ rows -> toRuleDto row = Some (dto_of row).
Proof.
  intros E%mapM_Some. unfold dto_of. induction E as [|row d rows dtos E _ [-> IH]]; [set_solver|].
  split; [simpl; by rewrite E|]. intros row' [->|Hr]%elem_of_cons; [by rewrite E|auto].
Qed.

(** The rows of a level in the order the engine walks them. *)
Definition walk (s : Scope) (rows : list RuleRow) : list RuleRow :=
  js_sort (fun a b => row_priority a <=? row_priority b)%Z
    (List.filter (fun row => row_enabled row) (List.filter (analysed s) rows)).

Lemma overlapOrder_walk s rows :
  overlapOrder (map dto_of (List.filter (analysed s) rows)) = map dto_of (walk s rows).
Proof.
  unfold overlapOrder, walk. rewrite filter_map_comp, js_sort_map. f_equal.
  assert (forall x y, overlap_leb (dto_of x) (dto_of y) = (row_priority x <=? row_priority y)%Z) as Hle.
  { intros x y. unfold overlap_leb. destruct (dto_of_fields x) as (_ & _ & _ & ->).
    by destruct (dto_of_fields y) as (_ & _ & _ & ->). }
  rewrite (js_sort_ext _ _ _ Hle). f_equal. rewrite !filter_filter_comp. apply filter_ext.
  intros row. destruct (dto_of_fields row) as (_ & -> & -> & _). unfold analysed.
  by destruct (bool_decide (level_of _ = s)), (row_isDefault row), (row_enabled row),
    (bool_decide (row_source row = _)).
Qed.

(** One level's first match, as a walk over its rows. *)
Lemma firstMatch_walk s rows rq :
  List.find (fun r => is_explicit_of s r && ruleMatches reg r rq)
    (js_sort priority_leb (decisionRules rows)) =
  (fun row => sim row) <$> List.find (fun row => ruleMatches reg (sim row) rq) (walk s rows).
Proof.
  unfold decisionRules, walk. rewrite js_sort_map, find_map_comp. f_equal.
  rewrite <- find_filter.
  assert (forall a b, priority_leb (sim a) (sim b) = (row_priority a <=? row_priority b)%Z) as Hle
    by done.
  rewrite (js_sort_ext _ _ _ Hle), <- js_sort_filter.
  - f_equal. f_equal. rewrite !filter_filter_comp. apply filter_ext. intros row.
    unfold analysed, decides, is_explicit_of. simpl.
    by destruct (bool_decide (level_of _ = s)), (row_isDefault row), (row_enabled row),
      (bool_decide (row_source row = _)).
  - intros x y. rewrite !Z.leb_le. lia.
  - intros x y z. rewrite !Z.leb_le. lia.
Qed.

Lemma walk_In s rows x : x ∈ walk s rows -> x ∈ List.filter (analysed s) rows.
Proof.
  unfold walk. rewrite js_sort_elem_of, !list_elem_of_In.
  by intros [? _]%filter_In.
Qed.

Lemma walk_NoDup s rows :
  NoDup (map row_logicalId (List.filter (analysed s) rows)) -> NoDup (walk s rows).
Proof.
  intros Hnd%NoDup_fmap_1. unfold walk. rewrite js_sort_Permutation.
  apply NoDup_ListNoDup, List.NoDup_filter. by apply NoDup_ListNoDup.
Qed.

(** The first match of a level is never flagged. *)
Lemma flagged_not_first s rows dtos rq w x :
  mapM toRuleDto (List.filter (analysed s) rows) = Some dtos ->
  Forall row_clean (List.filter (analysed s) rows) ->
  NoDup (map row_logicalId (List.filter (analysed s) rows)) ->
  w ∈ findPolicyOverlaps dtos ->
  List.find (fun row => ruleMatches reg (sim row) rq) (walk s rows) = Some x ->
  ow_logicalId w <> row_logicalId x.
Proof.
  intros Hdto Hclean Hnd Hw Hx Eid.
  apply mapM_dto_of in Hdto as [-> Hdto].
  apply findPolicyOverlaps_flagged in Hw as (a & h & b & r & c & El & Hc & Hr & _).
  rewrite overlapOrder_walk in El.
  apply map_eq_app in El as (a' & l1 & Ea & <- & El).
  apply map_eq_cons in El as (h' & l2 & -> & <- & El).
  apply map_eq_app in El as (b' & l3 & -> & <- & El).
  apply map_eq_cons in El as (r' & c' & -> & <- & <-).
  assert (forall y, y ∈ walk s rows -> y ∈ List.filter (analysed s) rows) as Hin by apply walk_In.
  assert (x ∈ walk s rows) as Hxin by (apply find_some in Hx as [? _]; by apply list_elem_of_In).
  assert (r' = x) as ->.
  { assert (r' ∈ walk s rows) as Hr' by (rewrite Ea; set_solver).
    destruct (dto_of_fields r') as (Er & _). rewrite Er, Eid in Hr.
    eapply (NoDup_fmap_elem_eq row_logicalId); eauto. }
  assert (Forall row_clean [h'; x] /\ forall y, y ∈ [h'; x] -> toRuleDto y = Some (dto_of y)) as [Hcl Hd].
  { assert (forall y, y ∈ [h'; x] -> y ∈ List.filter (analysed s) rows) as Hy
      by (intros y Hy; apply Hin; rewrite Ea; set_solver).
    split; [|auto]. rewrite Forall_forall in Hclean |- *. auto. }
  apply Forall_cons in Hcl as [Hch [Hcx _]%Forall_cons].
  destruct (toRuleDto_matches reg rq sh cp _ _ Hch (Hd h' ltac:(set_solver))) as [Hdh Eh].
  destruct (toRuleDto_matches reg rq sh cp _ _ Hcx (Hd x ltac:(set_solver))) as [Hdx Ex].
  assert (ruleMatches reg (sim x) rq = true) as Hmx by by apply find_some in Hx as [_ ?].
  assert (ruleMatches reg (sim h') rq = true) as Hmh.
  { rewrite Eh. rewrite Ex in Hmx. destruct Hc as [Hc|Hc].
    - by rewrite (matchSig_sound reg rq sh cp _ _ Hdh Hdx Hc).
    - by apply (ruleCovers_sound reg rq sh cp _ _ Hdh Hdx Hc). }
  rewrite Ea in Hx. revert Hx. apply find_later; [|done]. rewrite <- Ea. by apply walk_NoDup.
Qed.

Lemma walk_without s s' dead rows :
  walk s' (without s dead rows) =
  List.filter (fun row => negb (analysed s row && bool_decide (row_logicalId row ∈ dead)))
    (walk s' rows).
Proof.
  unfold walk, without. rewrite <- js_sort_filter.
  - f_equal. rewrite !filter_filter_comp. apply filter_ext. intros row.
    by destruct (negb _), (analysed s' row), (row_enabled row).
  - intros x y. rewrite !Z.leb_le. lia.
  - intros x y z. rewrite !Z.leb_le. lia.
Qed.

(** C1: The overlap analysis is sound. Deleting from a level any set of the
    rules it flags, duplicates, conflicts and shadows alike, changes no
    evaluation: not the decision, not the deciding rule, for no request. The
    analysis reads the editor's DTOs of one level's rules; the engine reads the
    stored rows of both levels. Assumed of the level's rows ([row_clean]): each
    has a DTO, and a logical id of its own; an identity row names exactly one
    principal, by an id that is not empty; no field holds a separator the match
    signature joins by; an optional field of a target that is present is not
    empty; a target has not both a secret's id and a scope; and a connection
    target carries no method. [Limits] has rows outside these where a live rule
    is flagged. *)
Theorem overlap_sound s rows dtos dead rq :
  mapM toRuleDto (List.filter (analysed s) rows) = Some dtos ->
  Forall row_clean (List.filter (analysed s) rows) ->
  NoDup (map row_logicalId (List.filter (analysed s) rows)) ->
  (forall id, id ∈ dead -> exists w, w ∈ findPolicyOverlaps dtos /\ ow_logicalId w = id) ->
  evaluatePolicyOutcome reg (decisionRules (without s dead rows)) rq =
  evaluatePolicyOutcome reg (decisionRules rows) rq.
Proof.
  intros Hdto Hclean Hnd Hdead. apply evaluate_ext; intros s'.
  - unfold decisionRules, without. rewrite !find_map_comp, filter_filter_comp, !find_filter.
    f_equal. apply find_ext_eq. intros row. unfold is_default_of, analysed. simpl.
    by destruct (row_isDefault row); rewrite ?andb_false_r.
  - rewrite !firstMatch_walk, walk_without, find_filter_keep; [done|].
    intros x Hx. apply negb_true_iff, andb_false_iff.
    destruct (analysed s x) eqn:Ea; [right|by left]. apply bool_decide_eq_false.
    intros (w & Hw & Eid)%Hdead. revert Eid. eapply flagged_not_first; eauto.
    assert (s' = s) as <-; [|done].
    apply find_some in Hx as [Hx _]. apply list_elem_of_In, walk_In, list_elem_of_In, filter_In in Hx as [_ Hx].
    unfold analysed in Ea, Hx. by repeat (apply andb_true_iff in Ea as [Ea _]; apply andb_true_iff in Hx as [Hx _]); to_prop; subst.
Qed.
End Soundness.

(** ** Concrete runs *)

Module Examples.
Definition network_row (host : jsstr) (path method : option jsstr) : TargetRow :=
  {| tr_kind := js "network"; tr_appProvider := None; tr_appTools := [];
     tr_appConnectionScope := None; tr_appConnectionId := None; tr_secretId := None;
     tr_secretScope := None; tr_hostPattern := Some host; tr_pathPattern := path;
     tr_method := method |}.

Definition connection_row (id : jsstr) (method : option jsstr) : TargetRow :=
  {| tr_kind := js "connection"; tr_appProvider := None; tr_appTools := [];
     tr_appConnectionScope := None; tr_appConnectionId := Some id; tr_secretId := None;
     tr_secretScope := None; tr_hostPattern := None; tr_pathPattern := None;
     tr_method := method |}.

Definition workspace_row (id : jsstr) (priority : Z) (action : jsstr) (t : TargetRow) : RuleRow :=
  {| row_id := id; row_scope := js "workspace"; row_organizationId := None;
     row_workspaceId := Some (js "ws"); row_status := js "draft"; row_generation := 0;
     row_priority := priority; row_enabled := true; row_isDefault := false;
     row_logicalId := id; row_source := js "custom"; row_name := id; row_action := action;
     row_rateLimit := None; row_rateLimitWindow := None; row_requireApproval := false;
     row_conditions := JNull; row_identities := []; row_targets := [t] |}.

(** A later rule under an earlier host wildcard, and a later twin. *)
Definition rows : list RuleRow :=
  [workspace_row (js "a") 1 (js "block") (network_row (js "*.example.com") None None);
   workspace_row (js "b") 2 (js "allow")
     (network_row (js "api.example.com") (Some (js "/v1/*")) (Some (js "GET")));
   workspace_row (js "c") 3 (js "allow") (network_row (js "*.example.com") None None);
   workspace_row (js "d") 4 (js "allow") (network_row (js "other.test") None None)].

Definition request (host path method : jsstr) (winner : option jsstr) : PolicyRequest :=
  {| rq_host := host; rq_path := path; rq_method := method; rq_body := None;
     rq_agentId := js "agent-1"; rq_userIds := None; rq_groupIds := None;
     rq_hasInjections := false; rq_isLlmHost := false; rq_winningConnectionId := winner |}.

Definition no_secrets : SecretHostSet :=
  {| shs_byId := ∅; shs_workspaceHosts := []; shs_orgHosts := [] |}.
End Examples.

(** Clean a concrete row, field by field. *)
Ltac solve_clean :=
  lazymatch goal with
  | |- Forall ?P ?l =>
      let l' := eval hnf in l in change (Forall P l');
      (apply Forall_nil_2 || (apply Forall_cons_2; solve_clean))
  | |- row_clean _ => split_and!; cbn; solve_clean
  | |- target_clean _ => split_and!; cbn; solve_clean
  | |- plain_opt _ => intros ? [=]; subst; (split; [done | by apply plain_literal])
  | |- _ \/ _ => by left
  | |- _ -> _ => done
  | |- plain _ => by apply plain_literal
  end.

Lemma overlap_sound_witness :
  @evaluatePolicyOutcome ∅ ascii_case
    (decisionRules Examples.no_secrets ∅
       (without workspace [js "b"; js "c"] Examples.rows))
    (Examples.request (js "api.example.com") (js "/v1/x") (js "GET") None) =
  @evaluatePolicyOutcome ∅ ascii_case
    (decisionRules Examples.no_secrets ∅ Examples.rows)
    (Examples.request (js "api.example.com") (js "/v1/x") (js "GET") None).
Proof.
  eapply overlap_sound.
  - vm_compute. reflexivity.
  - change (Forall row_clean Examples.rows). solve_clean.
  - apply (bool_decide_unpack _). vm_compute. exact I.
  - intros id [->|[->|[]%elem_of_nil]%elem_of_cons]%elem_of_cons.
    + eexists. vm_compute. split; [right; left|reflexivity].
    + eexists. vm_compute. split; [left|reflexivity].
Defined.

(** ** Flagged and live: what the hypotheses leave out *)

Module Limits.
Definition tool : AppTool :=
  {| at_id := js "t"; at_name := js "t"; at_description := []; at_hostPattern := js "api.github.com";
     at_hostAliasPatterns := None; at_pathPattern := js "/*"; at_aliasPatterns := None;
     at_method := None; at_methods := None; at_graphqlOps := None |}.

Definition registry : Registry :=
  register ∅ {| ad_provider := js "github";
                ad_groups := [{| ag_category := cat_write; ag_tools := [tool]; ag_wildcard := None |}];
                ad_unlisted_block := false; ad_exhaustive := false;
                ad_unlistedReads_allow := false |}.

(** The flagged ids of a level's rows. *)
Definition flagged_ids (rows : list RuleRow) : option (list jsstr) :=
  map ow_logicalId ∘ findPolicyOverlaps <$> mapM toRuleDto (List.filter (analysed workspace) rows).

(** An allow narrowed to reads, then a block of the same connection. *)
Definition narrowed_rows : list RuleRow :=
  [Examples.workspace_row (js "reads") 1 (js "allow")
     (Examples.connection_row (js "c") (Some (js "GET,HEAD")));
   Examples.workspace_row (js "rest") 2 (js "block") (Examples.connection_row (js "c") None)].

(** A pattern for the empty path only, then one for every path. *)
Definition path_rows : list RuleRow :=
  [Examples.workspace_row (js "none") 1 (js "block")
     (Examples.network_row (js "api.example.com") (Some []) None);
   Examples.workspace_row (js "all") 2 (js "block")
     (Examples.network_row (js "api.example.com") None None)].
End Limits.

(** The DTO drops the method of a connection target, so the block behind a
    read-only allow of the same connection is flagged as a conflict although it
    decides every write. *)
Lemma connection_method_flagged :
  Limits.flagged_ids Limits.narrowed_rows = Some [js "rest"] /\
  let rq := Examples.request (js "api.github.com") (js "/x") (js "POST") (Some (js "c")) in
  let decide rows := @evaluateNew Limits.registry ascii_case
    (decisionRules Examples.no_secrets {[js "c" := js "github"]} rows) rq in
  dec_action (decide Limits.narrowed_rows) = block /\
  dec_action (decide (without workspace [js "rest"] Limits.narrowed_rows)) = allow.
Proof. by vm_compute. Qed.

(** The signature writes a missing path pattern and an empty one alike, so the
    block of a whole host is flagged as the duplicate of a rule that matches
    nothing there. *)
Lemma empty_path_flagged :
  Limits.flagged_ids Limits.path_rows = Some [js "all"] /\
  let rq := Examples.request (js "api.example.com") (js "/x") (js "POST") None in
  let decide rows := @evaluateNew ∅ ascii_case
    (decisionRules Examples.no_secrets ∅ rows) rq in
  dec_action (decide Limits.path_rows) = block /\
  dec_action (decide (without workspace [js "all"] Limits.path_rows)) = allow.
Proof. by vm_compute. Qed.
