(* ===== verification/Grants.v ===== *)
(** * The grants compiler

    [packages/api/src/services/grants-compile.ts]: the rule stack one
    (agent, connection) grant compiles to, the comparison that makes a save
    idempotent, and the fold of a stored stack back to the grant. *)
From S2P Require Import Prelude PolicyTypes JsJson Graphql Catalog PolicyRows.

(** One rule of a desired stack; [cr_conditions] and [cr_method] may be
    absent. *)
Record CompiledRule := {
  cmp_name : jsstr;
  cmp_action : Action;
  cmp_requireApproval : bool;
  cmp_tools : list jsstr;
  cmp_method : option jsstr;
  cmp_conditions : option json
}.

(** A grant as the compiler sees it; [resources] is absent, [null] or an
    object. *)
Inductive ConnectionGrantInput :=
| GrantFull (resources : option json)
| GrantCustom (allowed ask : list jsstr) (otherReads otherWrites : option UnlistedChoice)
    (resources : option json).

Definition sorted (ids : list jsstr) : list jsstr := str_sort ids.

Definition READS_ONLY : jsstr := js "GET,HEAD".
Definition ALL_BUT_READS : jsstr := js "!" ++ READS_ONLY.

(** How restrictive a catch-all choice is. *)
Definition strictness (choice : UnlistedChoice) : nat :=
  match choice with un_never => 2 | un_ask => 1 | un_allow => 0 end.

Definition unlistedRule (name : jsstr) (choice : UnlistedChoice) (conditions : json)
    (method : option jsstr) : CompiledRule :=
  match choice with
  | un_never =>
      {| cmp_name := name; cmp_action := block; cmp_requireApproval := false; cmp_tools := [];
         cmp_method := truthy method; cmp_conditions := None |}
  | _ =>
      {| cmp_name := name; cmp_action := allow;
         cmp_requireApproval := bool_decide (choice = un_ask); cmp_tools := [];
         cmp_method := truthy method; cmp_conditions := Some conditions |}
  end.

Section Compile.
Context (reg : Registry).

Definition defaultUnlisted (provider : jsstr) : UnlistedChoice :=
  if catalogBlocksUnlisted reg provider then un_never else un_ask.

(** The tool ids of the groups of a category. *)
Definition toolsOf (groups : list AppToolGroup) (category : Category) : list jsstr :=
  sorted (flat_map (fun g => map at_id (ag_tools g))
    (List.filter (fun g => bool_decide (ag_category g = category)) groups)).

(** What a new attach writes. *)
Definition defaultConnectionGrant (provider : jsstr) : ConnectionGrantInput :=
  let def := getAppPermissionDefinition reg provider in
  let groups := match def with Some d => ad_groups d | None => [] end in
  let ask := toolsOf groups cat_write in
  let allowed := List.filter (fun t => negb (bool_decide (t ∈ ask))) (toolsOf groups cat_read) in
  if (length allowed + length ask =? 0)%nat then GrantFull None
  else GrantCustom allowed ask (Some (defaultOtherReads def)) (Some un_ask) None.

(** The whole-app or per-tool row of a stack. *)
Definition toolRow (name : jsstr) (action : Action) (approval : bool) (tools : list jsstr)
    (conditions : option json) : CompiledRule :=
  {| cmp_name := name; cmp_action := action; cmp_requireApproval := approval;
     cmp_tools := tools; cmp_method := None; cmp_conditions := conditions |}.

(** [if (tools.length > 0) stack.push(row)] *)
Definition pushed (row : CompiledRule) : list CompiledRule :=
  match cmp_tools row with [] => [] | _ => [row] end.

(** The catch-all rows: one when the two choices agree, else the stricter one
    narrowed by method and the looser one behind it. *)
Definition catchAlls (nameBase : jsstr) (otherReads otherWrites : UnlistedChoice)
    (conditions : json) : list CompiledRule :=
  if bool_decide (otherReads = otherWrites) then
    [unlistedRule (nameBase ++ js ": everything else") otherWrites conditions None]
  else
    let reads := nameBase ++ js ": all other reads" in
    let writes := nameBase ++ js ": all other writes" in
    if (strictness otherWrites <? strictness otherReads)%nat then
      [unlistedRule reads otherReads conditions (Some READS_ONLY);
       unlistedRule writes otherWrites conditions None]
    else
      [unlistedRule writes otherWrites conditions (Some ALL_BUT_READS);
       unlistedRule reads otherReads conditions None].

Definition compileConnectionStack (nameBase provider : jsstr) (input : ConnectionGrantInput)
    (conditions : json) : list CompiledRule :=
  match input with
  | GrantFull _ => [toolRow nameBase allow false [] (Some conditions)]
  | GrantCustom allow0 ask0 otherReads otherWrites _ =>
      let allowed := sorted allow0 in
      let ask := sorted ask0 in
      let chosen := allowed ++ ask in
      let blocked := sorted (List.filter (fun t => negb (bool_decide (t ∈ chosen)))
                               (catalogToolIds reg provider)) in
      let fallback := defaultUnlisted provider in
      pushed (toolRow (nameBase ++ js ": allowed") allow false allowed (Some conditions)) ++
      pushed (toolRow (nameBase ++ js ": needs approval") allow true ask (Some conditions)) ++
      pushed (toolRow (nameBase ++ js ": blocked") block false blocked None) ++
      catchAlls nameBase (default fallback otherReads) (default fallback otherWrites) conditions
  end.
End Compile.

Definition compileSecretGrant (nameBase : jsstr) : list CompiledRule :=
  [toolRow nameBase allow false [] None].

(** ** Comparing stacks *)

Definition hex_digit (n : N) : N := (if n <? 10 then 48 + n else 87 + n)%N.

(** [\uXXXX] *)
Definition unicode_escape (c : N) : jsstr :=
  [ch_backslash; 117; hex_digit (c / 4096); hex_digit (c / 256 mod 16);
   hex_digit (c / 16 mod 16); hex_digit (c mod 16)]%N.

Definition escape_char (c : N) : jsstr :=
  (if (c =? 34) || (c =? 92) then [ch_backslash; c]
   else if c =? 8 then [ch_backslash; 98]
   else if c =? 9 then [ch_backslash; 116]
   else if c =? 10 then [ch_backslash; 110]
   else if c =? 12 then [ch_backslash; 102]
   else if c =? 13 then [ch_backslash; 114]
   else if c <? 32 then unicode_escape c
   else [c])%N.

Definition is_high_surrogate (c : N) : bool := ((55296 <=? c) && (c <=? 56319))%N.
Definition is_low_surrogate (c : N) : bool := ((56320 <=? c) && (c <=? 57343))%N.

(** A string as [JSON.stringify] writes it: a surrogate without its partner is
    escaped. *)
Fixpoint escape_string (s : jsstr) : jsstr :=
  match s with
  | [] => []
  | c :: s' =>
      if is_high_surrogate c then
        match s' with
        | d :: s'' => if is_low_surrogate d then c :: d :: escape_string s''
                      else unicode_escape c ++ escape_string s'
        | [] => unicode_escape c
        end
      else if is_low_surrogate c then unicode_escape c ++ escape_string s'
      else escape_char c ++ escape_string s'
  end.

Definition json_quote (s : jsstr) : jsstr := [ch_quote] ++ escape_string s ++ [ch_quote].

Fixpoint json_stringify (v : json) : jsstr :=
  match v with
  | JNull => js "null"
  | JBool true => js "true"
  | JBool false => js "false"
  | JNum raw => raw
  | JStr s => json_quote s
  | JArr items => js "[" ++ join (js ",") (map json_stringify items) ++ js "]"
  | JObj members =>
      js "{" ++ join (js ",")
        (map (fun '(key, x) => json_quote key ++ js ":" ++ json_stringify x) members) ++ js "}"
  end.

Definition key_leb (a b : jsstr * json) : bool := str_leb a.1 b.1.

Fixpoint sortKeysDeep (v : json) : json :=
  match v with
  | JArr items => JArr (map sortKeysDeep items)
  | JObj members =>
      JObj (js_sort key_leb (map (fun '(key, x) => (key, sortKeysDeep x)) members))
  | _ => v
  end.

(** [None] is [undefined]. *)
Definition canonicalJson (value : option json) : jsstr :=
  match value with
  | None | Some JNull => js "null"
  | Some v => json_stringify (sortKeysDeep v)
  end.

Definition conditionsEqual (a b : option json) : bool :=
  bool_decide (canonicalJson a = canonicalJson b).

(** [row.targets[0]?.appTools ?? []] and [row.targets[0]?.method ?? ""] *)
Definition row_tools (row : RuleRow) : list jsstr :=
  match row_targets row with t :: _ => tr_appTools t | [] => [] end.
Definition row_method (row : RuleRow) : jsstr :=
  match row_targets row with t :: _ => default [] (tr_method t) | [] => [] end.

Definition action_name (a : Action) : jsstr :=
  match a with allow => js "allow" | block => js "block" end.

Definition rowEquals (row : RuleRow) (want : CompiledRule) : bool :=
  row_enabled row && bool_decide (row_action row = action_name (cmp_action want)) &&
  Bool.eqb (row_requireApproval row) (cmp_requireApproval want) &&
  bool_decide (row_name row = cmp_name want) &&
  conditionsEqual (Some (row_conditions row)) (cmp_conditions want) &&
  bool_decide (row_method row = default [] (cmp_method want)) &&
  bool_decide (join [ch_nl] (sorted (row_tools row)) = join [ch_nl] (cmp_tools want)).

Definition stackEquals (existing : list RuleRow) (desired : list CompiledRule) : bool :=
  (length existing =? length desired)%nat &&
  forallb (fun '(i, row) =>
    match desired !! i with None => false | Some want => rowEquals row want end)
    (imap (fun i row => (i, row)) existing).

(** ** Folding a stack back *)

Definition unlistedChoiceOf (row : RuleRow) : UnlistedChoice :=
  if bool_decide (row_action row = js "block") then un_never
  else if row_requireApproval row then un_ask else un_allow.

Definition READ_METHODS : list jsstr := split_on ch_comma READS_ONLY.

Inductive GrantAccess := access_full | access_custom.

Record StackGrant := {
  sg_access : GrantAccess;
  sg_allow : list jsstr;
  sg_ask : list jsstr;
  sg_otherReads : UnlistedChoice;
  sg_otherWrites : UnlistedChoice
}.

Section Fold.
Context (reg : Registry) `{JsCase}.

Definition unlistedChoiceForTool (tool : AppTool) (otherReads otherWrites : UnlistedChoice)
  : UnlistedChoice :=
  let methods := map to_upper_case (methodsOf tool) in
  if (0 <? length methods)%nat && forallb (fun m => bool_decide (m ∈ READ_METHODS)) methods
  then otherReads
  else if (0 <? length methods)%nat &&
          forallb (fun m => negb (bool_decide (m ∈ READ_METHODS))) methods
  then otherWrites
  else if (strictness otherWrites <=? strictness otherReads)%nat then otherReads
  else otherWrites.

Definition isFullStack (rows : list RuleRow) : bool :=
  match rows with
  | [row] => bool_decide (row_action row = js "allow") && negb (row_requireApproval row) &&
             (length (row_tools row) =? 0)%nat
  | _ => false
  end.

(** The two catch-all choices a stack's whole-app rows say. *)
Definition storedCatchAlls (rows : list RuleRow) : UnlistedChoice * UnlistedChoice :=
  let wholeApp := List.filter (fun r => (length (row_tools r) =? 0)%nat) rows in
  let narrowed := List.find (fun r => negb (bool_decide (row_method r = []))) wholeApp in
  let plain := List.find (fun r => bool_decide (row_method r = [])) wholeApp in
  let plainChoice := match plain with Some r => unlistedChoiceOf r | None => un_ask end in
  let narrowedChoice := match narrowed with Some r => unlistedChoiceOf r | None => plainChoice end in
  let readsNarrowed :=
    match narrowed with Some r => bool_decide (row_method r = READS_ONLY) | None => false end in
  if readsNarrowed then (narrowedChoice, plainChoice) else (plainChoice, narrowedChoice).

Definition stackToGrant (rows : list RuleRow) (provider : jsstr) : StackGrant :=
  if isFullStack rows then
    {| sg_access := access_full; sg_allow := []; sg_ask := [];
       sg_otherReads := un_allow; sg_otherWrites := un_allow |}
  else
    let '(otherReads, otherWrites) := storedCatchAlls rows in
    let named := flat_map row_tools rows in
    let groups := match getAppPermissionDefinition reg provider with
                  | Some d => ad_groups d | None => [] end in
    let addedLater := List.filter (fun tool => negb (bool_decide (at_id tool ∈ named)))
                        (flat_map ag_tools groups) in
    let addedAs choice :=
      map at_id (List.filter (fun tool =>
        bool_decide (unlistedChoiceForTool tool otherReads otherWrites = choice)) addedLater) in
    let allowed := flat_map row_tools (List.filter (fun r =>
        bool_decide (row_action r = js "allow") && negb (row_requireApproval r)) rows)
      ++ addedAs un_allow in
    let ask := flat_map row_tools (List.filter (fun r =>
        bool_decide (row_action r = js "allow") && row_requireApproval r) rows)
      ++ addedAs un_ask in
    {| sg_access := access_custom; sg_allow := sorted allowed; sg_ask := sorted ask;
       sg_otherReads := otherReads; sg_otherWrites := otherWrites |}.

(** A customized input with its absent catch-alls filled from the stored
    stack. *)
Definition withStoredUnlisted (input : ConnectionGrantInput) (existing : list RuleRow)
    (provider : jsstr) : ConnectionGrantInput :=
  match input with
  | GrantFull _ => input
  | GrantCustom allowed ask otherReads otherWrites resources =>
      if (length existing =? 0)%nat then input
      else
        let stored := stackToGrant existing provider in
        match sg_access stored with
        | access_full => input
        | access_custom =>
            GrantCustom allowed ask
              (Some (default (sg_otherReads stored) otherReads))
              (Some (default (sg_otherWrites stored) otherWrites)) resources
        end
  end.
End Fold.

Definition json_not_null (v : json) : bool := match v with JNull => false | _ => true end.

(** The session policy a stack carries: the first allow row's. *)
Definition stackConditions (rows : list RuleRow) : json :=
  match List.find (fun r => bool_decide (row_action r = js "allow") &&
                            json_not_null (row_conditions r)) rows with
  | Some r => row_conditions r
  | None => JNull
  end.

(** ** Storing a stack

    [packages/api/src/services/grants-service.ts]: the rows [appendGrantRules]
    creates from a stack. *)

(** [`Grant: ${agentName} · ${resourceLabel}`] *)
Definition grantName (agentName resourceLabel : jsstr) : jsstr :=
  js "Grant: " ++ agentName ++ [32; 183; 32]%N ++ resourceLabel.

Definition connectionTarget (connectionId : jsstr) (rule : CompiledRule) : TargetRow :=
  {| tr_kind := js "connection"; tr_appProvider := None; tr_appTools := cmp_tools rule;
     tr_appConnectionScope := None; tr_appConnectionId := Some connectionId;
     tr_secretId := None; tr_secretScope := None; tr_hostPattern := None;
     tr_pathPattern := None; tr_method := truthy (cmp_method rule) |}.

Definition secretTarget (secretId : jsstr) : TargetRow :=
  {| tr_kind := js "secret"; tr_appProvider := None; tr_appTools := [];
     tr_appConnectionScope := None; tr_appConnectionId := None;
     tr_secretId := Some secretId; tr_secretScope := None; tr_hostPattern := None;
     tr_pathPattern := None; tr_method := None |}.

(** [rule.conditions == null ? undefined : rule.conditions], stored. *)
Definition storedConditions (conditions : option json) : json :=
  match conditions with None => JNull | Some v => v end.

Definition GRANT_SOURCE : jsstr := js "grant".

(** The workspace's draft rows. *)
Definition draftOf (workspaceId : jsstr) (row : RuleRow) : bool :=
  bool_decide (row_scope row = js "workspace") &&
  bool_decide (row_workspaceId row = Some workspaceId) &&
  bool_decide (row_status row = js "draft").

(** [identities: { some: { agentId } }, targets: { some: { appConnectionId } }] *)
Definition namesAgent (agentId : jsstr) (row : RuleRow) : bool :=
  existsb (fun i => bool_decide (ir_agentId i = Some agentId)) (row_identities row).
Definition namesConnection (connectionId : jsstr) (row : RuleRow) : bool :=
  existsb (fun t => bool_decide (tr_appConnectionId t = Some connectionId)) (row_targets row).

Definition isGrantRow (workspaceId agentId connectionId : jsstr) (row : RuleRow) : bool :=
  draftOf workspaceId row && bool_decide (row_source row = GRANT_SOURCE) &&
  namesAgent agentId row && namesConnection connectionId row.

Definition grantRow (workspaceId agentId : jsstr) (priority : Z) (ids : jsstr * jsstr)
    (rule : CompiledRule) (target : TargetRow) : RuleRow :=
  {| row_id := ids.1; row_scope := js "workspace"; row_organizationId := None;
     row_workspaceId := Some workspaceId; row_status := js "draft"; row_generation := 0;
     row_priority := priority; row_enabled := true; row_isDefault := false;
     row_logicalId := ids.2; row_source := GRANT_SOURCE; row_name := cmp_name rule;
     row_action := action_name (cmp_action rule); row_rateLimit := None;
     row_rateLimitWindow := None; row_requireApproval := cmp_requireApproval rule;
     row_conditions := storedConditions (cmp_conditions rule);
     row_identities :=
       [{| ir_agentId := Some agentId; ir_userId := None; ir_groupId := None |}];
     row_targets := [target] |}.

(** The tail priority of the workspace's draft, [_max.priority ?? 0]. *)
Definition tailPriority (workspaceId : jsstr) (table : list RuleRow) : Z :=
  match map row_priority
    (List.filter (fun r => draftOf workspaceId r && negb (row_isDefault r)) table) with
  | [] => 0
  | p :: ps => fold_left Z.max ps p
  end.

Fixpoint grantRows (workspaceId agentId : jsstr) (priority : Z)
    (creates : list (CompiledRule * TargetRow)) (ids : nat -> jsstr * jsstr) : list RuleRow :=
  match creates with
  | [] => []
  | (rule, target) :: creates' =>
      grantRow workspaceId agentId priority (ids 0%nat) rule target
      :: grantRows workspaceId agentId (priority + 1) creates' (fun i => ids (S i))
  end.

(** [ids] are the fresh identifiers of the created rows, the row's and the
    logical one. *)
Definition appendGrantRules (table : list RuleRow) (workspaceId agentId : jsstr)
    (creates : list (CompiledRule * TargetRow)) (ids : nat -> jsstr * jsstr) : list RuleRow :=
  table ++ grantRows workspaceId agentId (tailPriority workspaceId table + 1) creates ids.

(** The draft half of [replaceAndPublish]: delete the old stack, append the
    new one. *)
Definition replaceStack (table : list RuleRow) (workspaceId agentId connectionId : jsstr)
    (desired : list CompiledRule) (ids : nat -> jsstr * jsstr) : list RuleRow :=
  appendGrantRules
    (List.filter (fun r => negb (isGrantRow workspaceId agentId connectionId r)) table)
    workspaceId agentId
    (map (fun rule => (rule, connectionTarget connectionId rule)) desired) ids.

(** [orderBy: [{ priority: "asc" }, { id: "asc" }]] *)
Definition row_leb (a b : RuleRow) : bool :=
  (row_priority a <? row_priority b)%Z ||
  (row_priority a =? row_priority b)%Z && str_leb (row_id a) (row_id b).

Definition readGrantRows (table : list RuleRow) (workspaceId agentId connectionId : jsstr)
  : list RuleRow :=
  js_sort row_leb (List.filter (isGrantRow workspaceId agentId connectionId) table).
