(* ===== verification/GrantsSpec.v ===== *)
(** * What a grant stack decides and stores

    Round trip, idempotence and the decisions of a compiled stack, against the
    rows the service writes and the engine that reads them. *)
From S2P Require Import Prelude PathMatch PolicyTypes EndpointMatch JsJson Graphql Catalog.
From S2P Require Import Evaluator PolicyRows Grants.

(** ** Reading back what was written *)

(** A stored row holds a compiled rule. *)
Definition holds (connectionId : jsstr) (row : RuleRow) (rule : CompiledRule) : Prop :=
  row_targets row = [connectionTarget connectionId rule] /\
  row_action row = action_name (cmp_action rule) /\
  row_requireApproval row = cmp_requireApproval rule /\ row_name row = cmp_name rule /\
  row_enabled row = true /\ row_conditions row = storedConditions (cmp_conditions rule).

Section Store.
Context (workspaceId agentId connectionId : jsstr).

Abbreviation creates desired := (map (fun rule => (rule, connectionTarget connectionId rule)) desired).

Lemma grantRows_holds desired p ids :
  Forall2 (holds connectionId) (grantRows workspaceId agentId p (creates desired) ids) desired.
Proof.
  revert p ids. induction desired as [|rule desired IH]; intros p ids; simpl; constructor; [done|auto].
Qed.

Lemma grantRows_priority desired p ids row :
  row ∈ grantRows workspaceId agentId p (creates desired) ids -> (p <= row_priority row)%Z.
Proof.
  revert p ids. induction desired as [|rule desired IH]; intros p ids; simpl; [set_solver|].
  rewrite elem_of_cons. intros [->|Hr]; [simpl; lia|]. apply IH in Hr. lia.
Qed.

Lemma grantRows_sorted desired p ids :
  StronglySorted row_leb (grantRows workspaceId agentId p (creates desired) ids).
Proof.
  revert p ids. induction desired as [|rule desired IH]; intros p ids; simpl; [constructor|].
  constructor; [apply IH|]. apply Forall_forall. intros row Hr.
  apply grantRows_priority in Hr. apply Is_true_eq_left. unfold row_leb. simpl.
  apply orb_true_iff. left. apply Z.ltb_lt. lia.
Qed.

Lemma grantRows_match desired p ids row :
  row ∈ grantRows workspaceId agentId p (creates desired) ids ->
  isGrantRow workspaceId agentId connectionId row = true.
Proof.
  revert p ids. induction desired as [|rule desired IH]; intros p ids; simpl; [set_solver|].
  rewrite elem_of_cons. intros [->|Hr]; [|by eapply IH].
  unfold isGrantRow, draftOf, namesAgent, namesConnection. simpl.
  rewrite !bool_decide_eq_true_2 by done. done.
Qed.

(** A read after the write gives the written rows, in stack order. *)
Lemma readGrantRows_replace table desired ids :
  readGrantRows (replaceStack table workspaceId agentId connectionId desired ids)
    workspaceId agentId connectionId =
  grantRows workspaceId agentId
    (tailPriority workspaceId
      (List.filter (fun r => negb (isGrantRow workspaceId agentId connectionId r)) table) + 1)
    (creates desired) ids.
Proof.
  unfold readGrantRows, replaceStack, appendGrantRules.
  set (rest := List.filter _ table). set (p := (_ + 1)%Z).
  rewrite List.filter_app.
  assert (List.filter (isGrantRow workspaceId agentId connectionId) rest = []) as ->.
  { unfold rest. rewrite filter_filter_comp. apply filter_none. intros r _.
    by destruct (isGrantRow _ _ _ r). }
  rewrite filter_all by apply grantRows_match. apply js_sort_id, grantRows_sorted.
Qed.

Lemma readGrantRows_holds table desired ids :
  Forall2 (holds connectionId)
    (readGrantRows (replaceStack table workspaceId agentId connectionId desired ids)
       workspaceId agentId connectionId) desired.
Proof. rewrite readGrantRows_replace. apply grantRows_holds. Qed.

(** Rows of other grants are left alone. *)
Lemma replaceStack_others table desired ids row :
  row ∈ table -> isGrantRow workspaceId agentId connectionId row = false ->
  row ∈ replaceStack table workspaceId agentId connectionId desired ids.
Proof.
  intros Hin Hg. unfold replaceStack, appendGrantRules. apply elem_of_app. left.
  apply list_elem_of_In, filter_In. rewrite Hg. by rewrite <- list_elem_of_In.
Qed.
End Store.

Lemma holds_tools c row rule : holds c row rule -> row_tools row = cmp_tools rule.
Proof. intros (Ht & _). unfold row_tools. by rewrite Ht. Qed.

Lemma default_truthy m : default [] (truthy m) = default [] m.
Proof. by destruct m as [[|]|]. Qed.

Lemma holds_method c row rule : holds c row rule -> row_method row = default [] (cmp_method rule).
Proof. intros (Ht & _). unfold row_method. rewrite Ht. apply default_truthy. Qed.

(** ** Idempotence *)

Lemma conditionsEqual_stored c : conditionsEqual (Some (storedConditions c)) c = true.
Proof. apply bool_decide_eq_true. by destruct c as [[]|]. Qed.

Lemma holds_rowEquals c row rule :
  sorted (cmp_tools rule) = cmp_tools rule -> holds c row rule -> rowEquals row rule = true.
Proof.
  intros Hs Hh. unfold rowEquals. rewrite (holds_tools _ _ _ Hh), (holds_method _ _ _ Hh), Hs.
  destruct Hh as (_ & -> & -> & -> & -> & ->).
  rewrite !bool_decide_eq_true_2, conditionsEqual_stored by done.
  by destruct (cmp_requireApproval rule).
Qed.

Lemma stackEquals_Forall2 rows desired :
  Forall2 (fun row rule => rowEquals row rule = true) rows desired -> stackEquals rows desired = true.
Proof.
  intros HF. unfold stackEquals. rewrite (Forall2_length _ _ _ HF), Nat.eqb_refl. cbn [andb].
  apply forallb_In. intros [i row] Hin. apply elem_of_lookup_imap in Hin as (j & row' & [= -> ->] & Hj).
  destruct (Forall2_lookup_l _ _ _ _ _ HF Hj) as (want & -> & Hw). done.
Qed.

Lemma sorted_idem ids : sorted (sorted ids) = sorted ids.
Proof. apply str_sort_idem. Qed.

Lemma unlistedRule_tools name choice conditions method :
  cmp_tools (unlistedRule name choice conditions method) = [].
Proof. by destruct choice. Qed.

Lemma compile_sorted reg nameBase provider input conditions rule :
  rule ∈ compileConnectionStack reg nameBase provider input conditions ->
  sorted (cmp_tools rule) = cmp_tools rule.
Proof.
  assert (forall n a ap ids c rule, rule ∈ pushed (toolRow n a ap (sorted ids) c) ->
    sorted (cmp_tools rule) = cmp_tools rule) as Hp.
  { intros n a ap ids c r. unfold pushed. cbn [cmp_tools toolRow].
    destruct (sorted ids) as [|x xs] eqn:E; [set_solver|].
    intros ->%list_elem_of_singleton. cbn [cmp_tools]. rewrite <- E. apply sorted_idem. }
  assert (forall r w rule, rule ∈ catchAlls nameBase r w conditions -> cmp_tools rule = []) as Hc.
  { intros r w rule0. unfold catchAlls. destruct (bool_decide _); [|destruct (_ <? _)%nat];
      rewrite ?elem_of_cons, elem_of_nil;
      intros H; repeat (destruct H as [->|H]; [by apply unlistedRule_tools|]); done. }
  destruct input as [res|al ask r w res]; simpl.
  - intros ->%list_elem_of_singleton. done.
  - rewrite !elem_of_app. intros [H|[H|[H|H]]]; [by eapply Hp..|]. by rewrite (Hc _ _ _ H).
Qed.

(** ** Round trip *)

Section RoundTrip.
Context (reg : Registry) `{JsCase}.

(** The fold reads a stack through its tools, actions and methods only. *)
Definition rule_choice (rule : CompiledRule) : UnlistedChoice :=
  match cmp_action rule with
  | block => un_never
  | allow => if cmp_requireApproval rule then un_ask else un_allow
  end.

Lemma holds_choice c row rule : holds c row rule -> unlistedChoiceOf row = rule_choice rule.
Proof. intros (_ & Ha & Hr & _). unfold unlistedChoiceOf, rule_choice. rewrite Ha, Hr. by destruct (cmp_action rule). Qed.

Definition no_tools (rule : CompiledRule) : bool := (length (cmp_tools rule) =? 0)%nat.

Lemma pushed_filter (q : CompiledRule -> bool) row :
  flat_map cmp_tools (List.filter q (pushed row)) = if q row then cmp_tools row else [].
Proof.
  unfold pushed. destruct (cmp_tools row) as [|t ts] eqn:E; [by destruct (q row)|].
  simpl. destruct (q row); [|done]. simpl. by rewrite E, app_nil_r.
Qed.

Lemma pushed_whole row : List.filter no_tools (pushed row) = [].
Proof.
  unfold pushed. destruct (cmp_tools row) as [|t ts] eqn:E; [done|].
  simpl. unfold no_tools. by rewrite E.
Qed.

Lemma catchAlls_tools nameBase r w conditions (q : CompiledRule -> bool) :
  flat_map cmp_tools (List.filter q (catchAlls nameBase r w conditions)) = [].
Proof.
  unfold catchAlls. destruct (bool_decide _); [|destruct (_ <? _)%nat]; simpl;
    repeat (case_match; simpl; rewrite ?unlistedRule_tools); done.
Qed.

Lemma catchAlls_whole nameBase r w conditions :
  List.filter no_tools (catchAlls nameBase r w conditions) = catchAlls nameBase r w conditions.
Proof.
  unfold catchAlls, no_tools. destruct (bool_decide _); [|destruct (_ <? _)%nat]; simpl;
    by rewrite ?unlistedRule_tools.
Qed.

(** The two choices the catch-all rows say. *)
Definition saidCatchAlls (rules : list CompiledRule) : UnlistedChoice * UnlistedChoice :=
  let narrowed := List.find (fun r => negb (bool_decide (default [] (cmp_method r) = []))) rules in
  let plain := List.find (fun r => bool_decide (default [] (cmp_method r) = [])) rules in
  let plainChoice := match plain with Some r => rule_choice r | None => un_ask end in
  let narrowedChoice := match narrowed with Some r => rule_choice r | None => plainChoice end in
  let readsNarrowed :=
    match narrowed with Some r => bool_decide (default [] (cmp_method r) = READS_ONLY) | None => false end in
  if readsNarrowed then (narrowedChoice, plainChoice) else (plainChoice, narrowedChoice).

Lemma saidCatchAlls_catchAlls nameBase r w conditions :
  saidCatchAlls (catchAlls nameBase r w conditions) = (r, w).
Proof. by destruct r, w. Qed.

Lemma holds_storedCatchAlls c rows rules :
  Forall2 (holds c) rows rules ->
  storedCatchAlls rows = saidCatchAlls (List.filter no_tools rules).
Proof.
  intros HF. unfold storedCatchAlls, saidCatchAlls.
  apply (Forall2_filter (holds c) (fun r => (length (row_tools r) =? 0)%nat) no_tools) in HF;
    [|intros x y Hxy; unfold no_tools; by rewrite (holds_tools _ _ _ Hxy)].
  assert (forall x y, holds c x y ->
    bool_decide (row_method x = []) = bool_decide (default [] (cmp_method y) = [])) as Hm.
  { intros x y Hxy. by rewrite (holds_method _ _ _ Hxy). }
  pose proof (Forall2_find (holds c) (fun r => negb (bool_decide (row_method r = [])))
    (fun r => negb (bool_decide (default [] (cmp_method r) = []))) _ _
    (fun x y Hxy => f_equal negb (Hm x y Hxy)) HF) as Hn.
  pose proof (Forall2_find (holds c) _ _ _ _ Hm HF) as Hp.
  destruct Hn as [x y Hxy|], Hp as [x' y' Hxy'|];
    rewrite ?(holds_choice _ _ _ Hxy), ?(holds_method _ _ _ Hxy), ?(holds_choice _ _ _ Hxy'); done.
Qed.

Lemma catalogToolIds_tools provider :
  catalogToolIds reg provider =
  map at_id (flat_map ag_tools (match getAppPermissionDefinition reg provider with
                                | Some d => ad_groups d | None => [] end)).
Proof.
  unfold catalogToolIds. destruct (getAppPermissionDefinition reg provider) as [d|]; [|done].
  induction (ad_groups d) as [|g gs IH]; simpl; [done|]. by rewrite map_app, IH.
Qed.

(** The compiled stack, by its rules' tools. *)
Lemma fold_custom c rows nameBase provider al ask r w res conditions :
  Forall2 (holds c) rows
    (compileConnectionStack reg nameBase provider (GrantCustom al ask r w res) conditions) ->
  al ++ ask <> [] ->
  stackToGrant reg rows provider =
    {| sg_access := access_custom; sg_allow := sorted al; sg_ask := sorted ask;
       sg_otherReads := default (defaultUnlisted reg provider) r;
       sg_otherWrites := default (defaultUnlisted reg provider) w |}.
Proof.
  intros HF Hne. unfold stackToGrant.
  assert (isFullStack rows = false) as ->.
  { apply Forall2_length in HF. destruct rows as [|x [|y rows]]; [done| |done]. exfalso.
    simpl in HF. rewrite !length_app in HF.
    assert (1 <= length (catchAlls nameBase (default (defaultUnlisted reg provider) r)
      (default (defaultUnlisted reg provider) w) conditions))%nat.
    { unfold catchAlls. destruct (bool_decide _); [|destruct (_ <? _)%nat]; simpl; lia. }
    assert (forall n a ap ids k, ids <> [] -> length (pushed (toolRow n a ap (sorted ids) k)) = 1%nat) as Hp.
    { intros n a ap ids k Hi. unfold pushed. cbn [cmp_tools toolRow].
      destruct (sorted ids) eqn:E; [|done]. pose proof (str_sort_Permutation ids) as HP.
      unfold sorted in E. rewrite E in HP. by apply Permutation_nil_l in HP. }
    destruct al as [|a al]; [destruct ask as [|b ask]; [done|]|]; rewrite ?(Hp _ _ _ (_ :: _)) in HF; lia || done. }
  rewrite (holds_storedCatchAlls _ _ _ HF).
  assert (forall (p : RuleRow -> bool) (q : CompiledRule -> bool),
    (forall x y, holds c x y -> p x = q y) ->
    flat_map row_tools (List.filter p rows) =
    flat_map cmp_tools (List.filter q (compileConnectionStack reg nameBase provider
      (GrantCustom al ask r w res) conditions))) as Hflat.
  { intros p q Hpq. eapply Forall2_flat_map; [intros x y; apply holds_tools|].
    by eapply Forall2_filter. }
  assert (flat_map row_tools rows = flat_map row_tools (List.filter (fun _ => true) rows)) as ->
    by (by rewrite filter_all).
  rewrite (Hflat (fun _ => true) (fun _ => true)) by done.
  rewrite (Hflat _ (fun rule => match rule_choice rule with un_allow => true | _ => false end)).
  2: { intros x y (_ & Ha & Hr & _). unfold rule_choice. rewrite Ha, Hr.
       by destruct (cmp_action y), (cmp_requireApproval y). }
  rewrite (Hflat _ (fun rule => match rule_choice rule with un_ask => true | _ => false end)).
  2: { intros x y (_ & Ha & Hr & _). unfold rule_choice. rewrite Ha, Hr.
       by destruct (cmp_action y), (cmp_requireApproval y). }
  clear Hflat HF. cbn [compileConnectionStack].
  rewrite !List.filter_app, !flat_map_app, !pushed_filter, !pushed_whole, !catchAlls_tools, catchAlls_whole.
  cbn [app]. rewrite saidCatchAlls_catchAlls. cbn [rule_choice toolRow cmp_action cmp_requireApproval cmp_tools].
  rewrite !app_nil_r.
  set (chosen := sorted al ++ sorted ask).
  assert (List.filter (fun tool => negb (bool_decide (at_id tool ∈ sorted al ++ sorted ask ++
     sorted (List.filter (fun t => negb (bool_decide (t ∈ chosen))) (catalogToolIds reg provider)))))
     (flat_map ag_tools match getAppPermissionDefinition reg provider with
        | Some d => ad_groups d | None => [] end) = []) as ->.
  { apply filter_none. intros tool Ht. apply negb_false_iff, bool_decide_eq_true.
    rewrite app_assoc. fold chosen. apply elem_of_app.
    destruct (decide (at_id tool ∈ chosen)) as [Hc|Hc]; [by left|right].
    apply str_sort_elem_of, list_elem_of_In, filter_In. rewrite bool_decide_eq_false_2 by done.
    split; [|done]. rewrite catalogToolIds_tools. apply in_map. by apply list_elem_of_In. }
  simpl. rewrite !app_nil_r. by rewrite !sorted_idem.
Qed.

(** Saving a grant and reading it back gives the grant. Whatever else the
    draft holds, the rows [replaceStack] writes for an (agent, connection) are
    the ones [readGrantRows] reads, in stack order, and fold back to the same
    choices: full access, or the sorted tools allowed and held for approval,
    and both catch-alls with the provider's default filled in. *)
Theorem grant_roundtrip table workspaceId agentId connectionId nameBase provider input conditions ids :
  (match input with GrantFull _ => True | GrantCustom al ask _ _ _ => al ++ ask <> [] end) ->
  stackToGrant reg
    (readGrantRows
       (replaceStack table workspaceId agentId connectionId
          (compileConnectionStack reg nameBase provider input conditions) ids)
       workspaceId agentId connectionId) provider =
  match input with
  | GrantFull _ =>
      {| sg_access := access_full; sg_allow := []; sg_ask := [];
         sg_otherReads := un_allow; sg_otherWrites := un_allow |}
  | GrantCustom al ask r w _ =>
      {| sg_access := access_custom; sg_allow := sorted al; sg_ask := sorted ask;
         sg_otherReads := default (defaultUnlisted reg provider) r;
         sg_otherWrites := default (defaultUnlisted reg provider) w |}
  end.
Proof.
  intros Hin. pose proof (readGrantRows_holds workspaceId agentId connectionId table
    (compileConnectionStack reg nameBase provider input conditions) ids) as HF.
  destruct input as [res|al ask r w res]; [|by eapply fold_custom].
  cbn [compileConnectionStack] in *.
  apply Forall2_cons_inv_r in HF as (row & rows & (Ht & Ha & Hr & _) & Hrows & ->).
  apply Forall2_nil_inv_r in Hrows as ->.
  unfold stackToGrant, isFullStack, row_tools. by rewrite Ht, Ha, Hr.
Qed.
End RoundTrip.

(** Saving is idempotent: the stack just written compares equal to the one
    compiled from the same input, so an unchanged save writes and publishes
    nothing, and writing a stack touches no other row. *)
Theorem grant_idempotent reg table workspaceId agentId connectionId nameBase provider input
    conditions ids :
  let desired := compileConnectionStack reg nameBase provider input conditions in
  let table' := replaceStack table workspaceId agentId connectionId desired ids in
  stackEquals (readGrantRows table' workspaceId agentId connectionId) desired = true /\
  (forall row, row ∈ table -> isGrantRow workspaceId agentId connectionId row = false -> row ∈ table').
Proof.
  intros desired table'. split; [|by apply replaceStack_others].
  apply stackEquals_Forall2. pose proof (readGrantRows_holds workspaceId agentId connectionId
    table desired ids) as HF. fold table' in HF.
  assert (forall rule, rule ∈ desired -> sorted (cmp_tools rule) = cmp_tools rule) as Hs
    by apply compile_sorted.
  revert Hs. clearbody table' desired. induction HF as [|row rule rows rules Hh _ IH]; intros Hs; [done|].
  constructor; [apply (holds_rowEquals connectionId)|apply IH]; set_solver.
Qed.

(** ** What the engine decides on a stack *)

(** How a deciding rule reads as a grant choice. *)
Definition decided_choice (rule : NewRule) : UnlistedChoice :=
  match rl_action rule with
  | block => un_never
  | allow => if rl_requireApproval rule then un_ask else un_allow
  end.

Definition row_agent (agentId : jsstr) (row : RuleRow) : Prop :=
  row_identities row = [{| ir_agentId := Some agentId; ir_userId := None; ir_groupId := None |}].

(** A gateway that predates method narrowing reads the row without it. *)
Definition eraseTarget (t : TargetRow) : TargetRow :=
  {| tr_kind := tr_kind t; tr_appProvider := tr_appProvider t; tr_appTools := tr_appTools t;
     tr_appConnectionScope := tr_appConnectionScope t; tr_appConnectionId := tr_appConnectionId t;
     tr_secretId := tr_secretId t; tr_secretScope := tr_secretScope t;
     tr_hostPattern := tr_hostPattern t; tr_pathPattern := tr_pathPattern t; tr_method := None |}.

Definition eraseMethod (row : RuleRow) : RuleRow :=
  {| row_id := row_id row; row_scope := row_scope row;
     row_organizationId := row_organizationId row; row_workspaceId := row_workspaceId row;
     row_status := row_status row; row_generation := row_generation row;
     row_priority := row_priority row; row_enabled := row_enabled row;
     row_isDefault := row_isDefault row; row_logicalId := row_logicalId row;
     row_source := row_source row; row_name := row_name row; row_action := row_action row;
     row_rateLimit := row_rateLimit row; row_rateLimitWindow := row_rateLimitWindow row;
     row_requireApproval := row_requireApproval row; row_conditions := row_conditions row;
     row_identities := row_identities row; row_targets := map eraseTarget (row_targets row) |}.

Definition dropMethod (rule : CompiledRule) : CompiledRule :=
  {| cmp_name := cmp_name rule; cmp_action := cmp_action rule;
     cmp_requireApproval := cmp_requireApproval rule; cmp_tools := cmp_tools rule;
     cmp_method := None; cmp_conditions := cmp_conditions rule |}.

Lemma holds_erase c row rule : holds c row rule -> holds c (eraseMethod row) (dropMethod rule).
Proof. intros (Ht & ? & ? & ? & ? & ?). split_and!; simpl; try done. by rewrite Ht. Qed.

Lemma grantRows_agent ws ag p creates ids row :
  row ∈ grantRows ws ag p creates ids -> row_agent ag row.
Proof.
  revert p ids. induction creates as [|[rule t] creates IH]; intros p ids; simpl; [set_solver|].
  rewrite elem_of_cons. intros [->|Hr]; [done|by eapply IH].
Qed.

Lemma readGrantRows_order table ws ag c desired ids :
  StronglySorted (fun a b => row_priority a <=? row_priority b)%Z
    (readGrantRows (replaceStack table ws ag c desired ids) ws ag c) /\
  Forall (row_agent ag) (readGrantRows (replaceStack table ws ag c desired ids) ws ag c).
Proof.
  rewrite readGrantRows_replace. split.
  - pose proof (grantRows_sorted ws ag c desired (tailPriority ws
      (List.filter (fun r => negb (isGrantRow ws ag c r)) table) + 1) ids) as Hs.
    induction Hs as [|row rows Hs IH Hf]; constructor; [done|].
    eapply Forall_impl; [exact Hf|]. intros r. unfold row_leb. intros Hr%Is_true_eq_true.
    apply Is_true_eq_left. apply orb_true_iff in Hr as [?%Z.ltb_lt|[?%Z.eqb_eq _]%andb_true_iff];
      apply Z.leb_le; lia.
  - apply Forall_forall. intros row. apply grantRows_agent.
Qed.

Section Decision.
Context (reg : Registry) `{JsCase}.
Context (sh : SecretHostSet) (cp : gmap jsstr jsstr) (connectionId provider agentId : jsstr).
Context (rq : PolicyRequest).
Context (Hagent : rq_agentId rq = agentId) (Hwin : rq_winningConnectionId rq = Some connectionId).
Context (Hid : connectionId <> []) (Hcp : cp !! connectionId = Some provider).

Abbreviation sim row := (sim_rule (toSimRule sh cp row)).

(** The session policies a grant carries are no body conditions. *)
Definition policy_shaped (conditions : json) : Prop :=
  conditions = JNull \/ exists members, conditions = JObj members.

Definition rule_hits (rule : CompiledRule) : bool :=
  match cmp_tools rule with
  | [] => methodAllows (truthy (cmp_method rule)) (rq_method rq) &&
          providerHostMatches reg (rq_host rq) provider
  | tools => appTargetMatches reg rq provider tools None
  end.

Definition rule_plain (rule : CompiledRule) : Prop :=
  policy_shaped (storedConditions (cmp_conditions rule)).

Lemma truthy_idem m : truthy (truthy m) = truthy m.
Proof. by destruct m as [[|]|]. Qed.

Lemma holds_hits row rule :
  holds connectionId row rule -> row_agent agentId row -> rule_plain rule ->
  ruleMatches reg (sim row) rq = rule_hits rule.
Proof.
  intros (Ht & _ & _ & _ & _ & Hc) Hi Hp. unfold ruleMatches, identityMatches, rule_hits.
  cbn [sim_rule toSimRule rl_identities rl_targets rl_conditions].
  assert (decodeConditions (row_conditions row) = None) as Hdc.
  { rewrite Hc. by destruct Hp as [-> | [ms ->]]. }
  unfold decodeIdentities. rewrite Hi, Ht. simpl.
  rewrite (bool_decide_eq_true_2 (agentId = rq_agentId rq)) by done. cbn [orb andb].
  rewrite orb_false_r. unfold decodeTarget. cbn [tr_kind connectionTarget tr_appConnectionId tr_appTools tr_method].
  rewrite bool_decide_eq_false_2 by done. rewrite bool_decide_eq_true_2 by done.
  assert (truthy (Some connectionId) = Some connectionId) as -> by by destruct connectionId.
  rewrite Hcp, truthy_idem. unfold targetMatches. rewrite Hwin, bool_decide_eq_true_2 by done.
  cbn [negb]. destruct (cmp_tools rule) as [|t ts].
  - by destruct (methodAllows _ _).
  - cbn [rl_conditions]. by rewrite Hdc.
Qed.

(** The engine walks a stored stack as its rules are listed. *)
Lemma firstMatch_stack rows rules :
  StronglySorted (fun a b => row_priority a <=? row_priority b)%Z rows ->
  Forall (row_agent agentId) rows -> Forall rule_plain rules ->
  Forall2 (holds connectionId) rows rules ->
  (fun m => decided_choice (lm_rule m)) <$> firstMatch reg (map (fun row => sim row) rows) rq =
  rule_choice <$> List.find rule_hits rules.
Proof.
  intros Hs Ha Hp HF. unfold firstMatch. rewrite js_sort_map, find_map_comp, js_sort_id by done.
  rewrite <- !option_fmap_compose. clear Hs.
  induction HF as [|row rule rows rules Hh _ IH]; [done|].
  apply Forall_cons in Ha as [Har Ha], Hp as [Hpr Hp]. cbn [List.find].
  rewrite (holds_hits row rule Hh Har Hpr). destruct (rule_hits rule); [|by apply IH].
  simpl. f_equal. destruct Hh as (_ & Hact & Happ & _).
  unfold decided_choice, rule_choice. simpl. rewrite Hact, Happ. by destruct (cmp_action rule).
Qed.

Lemma find_app_choice {A} (p : A -> bool) l k :
  List.find p (l ++ k) = match List.find p l with Some x => Some x | None => List.find p k end.
Proof. induction l as [|x l IH]; simpl; [done|]. by destruct (p x). Qed.

Lemma find_pushed name action approval tools k :
  List.find rule_hits (pushed (toolRow name action approval tools k)) =
  if appTargetMatches reg rq provider tools None
  then Some (toolRow name action approval tools k) else None.
Proof. unfold pushed. cbn [cmp_tools toolRow]. by destruct tools. Qed.

Lemma appTargetMatches_sorted ids :
  appTargetMatches reg rq provider (sorted ids) None = appTargetMatches reg rq provider ids None.
Proof. apply existsb_Permutation, str_sort_Permutation. Qed.

(** GET and HEAD, up to case. *)
Definition is_read_method (method : jsstr) : bool := bool_decide (to_upper_case method ∈ READ_METHODS).

Lemma methodAllows_reads method : methodAllows (Some READS_ONLY) method = is_read_method method.
Proof.
  unfold methodAllows, is_read_method. change (trim (default [] (Some READS_ONLY))) with READS_ONLY.
  change (starts_with (js "!") READS_ONLY) with false. cbn iota.
  change (split_on ch_comma READS_ONLY) with [js "GET"; js "HEAD"]. cbn [map].
  change (trim (js "GET")) with (js "GET"). change (trim (js "HEAD")) with (js "HEAD").
  rewrite !to_upper_case_ascii by (repeat constructor). simpl. by rewrite xorb_false_r.
Qed.

Lemma methodAllows_writes method : methodAllows (Some ALL_BUT_READS) method = negb (is_read_method method).
Proof.
  unfold methodAllows, is_read_method. change (trim (default [] (Some ALL_BUT_READS))) with ALL_BUT_READS.
  change (starts_with (js "!") ALL_BUT_READS) with true. cbn iota.
  change (split_on ch_comma (drop 1 ALL_BUT_READS)) with [js "GET"; js "HEAD"]. cbn [map].
  change (trim (js "GET")) with (js "GET"). change (trim (js "HEAD")) with (js "HEAD").
  rewrite !to_upper_case_ascii by (repeat constructor). simpl. by rewrite xorb_true_r.
Qed.

Lemma methodAllows_any method : methodAllows None method = true.
Proof. unfold methodAllows. simpl. by rewrite to_upper_case_ascii by constructor. Qed.

(** The choice a grant makes for a request. *)
Definition grant_choice (al ask : list jsstr) (r w : UnlistedChoice) : option UnlistedChoice :=
  let others := List.filter (fun t => negb (bool_decide (t ∈ al ++ ask))) (catalogToolIds reg provider) in
  if appTargetMatches reg rq provider al None then Some un_allow
  else if appTargetMatches reg rq provider ask None then Some un_ask
  else if appTargetMatches reg rq provider others None then Some un_never
  else if providerHostMatches reg (rq_host rq) provider
  then Some (if is_read_method (rq_method rq) then r else w) else None.

Lemma unlistedRule_hits name choice conditions m :
  rule_hits (unlistedRule name choice conditions m) =
  methodAllows (truthy m) (rq_method rq) && providerHostMatches reg (rq_host rq) provider.
Proof. unfold rule_hits. by destruct choice; simpl; rewrite truthy_idem. Qed.

Lemma unlistedRule_choice name choice conditions m :
  rule_choice (unlistedRule name choice conditions m) = choice.
Proof. by destruct choice. Qed.

Lemma find_catchAlls nameBase r w conditions :
  rule_choice <$> List.find rule_hits (catchAlls nameBase r w conditions) =
  if providerHostMatches reg (rq_host rq) provider
  then Some (if is_read_method (rq_method rq) then r else w) else None.
Proof.
  unfold catchAlls. destruct (decide (r = w)) as [->|Hne].
  - rewrite bool_decide_eq_true_2 by done. cbn [List.find].
    rewrite unlistedRule_hits, methodAllows_any. cbn [andb].
    destruct (providerHostMatches _ _ _); [|done]. cbn [fmap option_fmap option_map].
    rewrite unlistedRule_choice. by destruct (is_read_method _).
  - rewrite bool_decide_eq_false_2 by done.
    destruct (_ <? _)%nat; cbn [List.find]; rewrite !unlistedRule_hits, methodAllows_any;
      [change (truthy (Some READS_ONLY)) with (Some READS_ONLY); rewrite methodAllows_reads
      |change (truthy (Some ALL_BUT_READS)) with (Some ALL_BUT_READS); rewrite methodAllows_writes];
      destruct (is_read_method _), (providerHostMatches _ _ _); cbn;
      by rewrite ?unlistedRule_choice.
Qed.

Lemma find_custom nameBase al ask r w res conditions :
  rule_choice <$> List.find rule_hits
    (compileConnectionStack reg nameBase provider (GrantCustom al ask r w res) conditions) =
  grant_choice al ask (default (defaultUnlisted reg provider) r) (default (defaultUnlisted reg provider) w).
Proof.
  cbn [compileConnectionStack]. unfold grant_choice.
  rewrite !find_app_choice, !find_pushed, !appTargetMatches_sorted.
  assert (forall t, bool_decide (t ∈ sorted al ++ sorted ask) = bool_decide (t ∈ al ++ ask)) as Hch.
  { intros t. apply bool_decide_ext. rewrite !elem_of_app. unfold sorted. by rewrite !str_sort_elem_of. }
  rewrite (filter_ext _ (fun t => negb (bool_decide (t ∈ al ++ ask)))) by (intros t; by rewrite Hch).
  destruct (appTargetMatches _ _ _ al _); [done|].
  destruct (appTargetMatches _ _ _ ask _); [done|].
  destruct (appTargetMatches _ _ _ (List.filter _ _) _); [done|].
  apply find_catchAlls.
Qed.

Lemma compile_plain nameBase input conditions :
  policy_shaped conditions ->
  Forall rule_plain (compileConnectionStack reg nameBase provider input conditions).
Proof.
  intros Hp. assert (forall n a ap t, rule_plain (toolRow n a ap t (Some conditions))) as H1 by done.
  assert (forall n a ap t, rule_plain (toolRow n a ap t None)) as H2 by (by left).
  assert (forall n c m, rule_plain (unlistedRule n c conditions m)) as H3 by (intros ? [] ?; done || by left).
  assert (forall r, rule_plain r -> Forall rule_plain (pushed r)) as H4.
  { intros r Hr. unfold pushed. destruct (cmp_tools r); [constructor|by apply Forall_singleton]. }
  destruct input as [res|al ask r w res]; [by apply Forall_singleton|].
  cbn [compileConnectionStack]. rewrite !Forall_app. split_and!; auto.
  unfold catchAlls. destruct (bool_decide _); [|destruct (_ <? _)%nat];
    rewrite ?Forall_cons; split_and?; auto.
Qed.

Section Stack.
Context (table : list RuleRow) (workspaceId nameBase : jsstr) (conditions : json).
Context (ids : nat -> jsstr * jsstr).
Context (Hconds : policy_shaped conditions).

(** The rows of a freshly written grant. *)
Definition written (input : ConnectionGrantInput) : list RuleRow :=
  readGrantRows
    (replaceStack table workspaceId agentId connectionId
       (compileConnectionStack reg nameBase provider input conditions) ids)
    workspaceId agentId connectionId.

Definition stack_choice (rows : list RuleRow) : option UnlistedChoice :=
  (fun m => decided_choice (lm_rule m)) <$> firstMatch reg (map (fun row => sim row) rows) rq.

Lemma stack_choice_written input :
  stack_choice (written input) =
  rule_choice <$> List.find rule_hits (compileConnectionStack reg nameBase provider input conditions).
Proof.
  destruct (readGrantRows_order table workspaceId agentId connectionId
    (compileConnectionStack reg nameBase provider input conditions) ids) as [Hs Ha].
  apply firstMatch_stack; [done|done|by apply compile_plain|apply readGrantRows_holds].
Qed.

Lemma stack_choice_erased input :
  stack_choice (map eraseMethod (written input)) =
  rule_choice <$> List.find rule_hits
    (map dropMethod (compileConnectionStack reg nameBase provider input conditions)).
Proof.
  destruct (readGrantRows_order table workspaceId agentId connectionId
    (compileConnectionStack reg nameBase provider input conditions) ids) as [Hs Ha].
  apply firstMatch_stack.
  - unfold written. induction Hs as [|row rows Hs IH Hf]; simpl; constructor; [by apply IH; inversion Ha|].
    by apply Forall_map.
  - apply Forall_map. eapply Forall_impl; [exact Ha|done].
  - apply Forall_map. eapply Forall_impl; [by apply compile_plain|done].
  - apply Forall2_fmap. eapply Forall2_impl; [apply readGrantRows_holds|]. intros row rule. apply holds_erase.
Qed.

Lemma rule_hits_drop rule : rule_hits rule = true -> rule_hits (dropMethod rule) = true.
Proof.
  unfold rule_hits. cbn [dropMethod cmp_tools cmp_method]. destruct (cmp_tools rule); [|done].
  change (truthy None) with (@None jsstr). rewrite methodAllows_any. by intros [_ ->]%andb_true_iff.
Qed.

Lemma find_pushed_drop row :
  cmp_method row = None ->
  rule_choice <$> List.find rule_hits (map dropMethod (pushed row)) =
  rule_choice <$> List.find rule_hits (pushed row).
Proof.
  intros Hm. assert (dropMethod row = row) as E by (destruct row; simpl in *; by rewrite Hm).
  unfold pushed. by destruct (cmp_tools row); simpl; rewrite ?E.
Qed.

(** Without the method narrowing, the stricter catch-all covers everything. *)
Lemma find_catchAlls_drop r w :
  rule_choice <$> List.find rule_hits (map dropMethod (catchAlls nameBase r w conditions)) =
  if providerHostMatches reg (rq_host rq) provider
  then Some (if (strictness w <? strictness r)%nat then r else w) else None.
Proof.
  assert (forall n c m, dropMethod (unlistedRule n c conditions m) = unlistedRule n c conditions None) as E
    by by intros ? [].
  unfold catchAlls. destruct (decide (r = w)) as [->|Hne].
  - rewrite bool_decide_eq_true_2 by done. cbn [map List.find].
    rewrite E, unlistedRule_hits, methodAllows_any. cbn [andb]. rewrite Nat.ltb_irrefl.
    destruct (providerHostMatches _ _ _); [|done]. cbn. by rewrite unlistedRule_choice.
  - rewrite bool_decide_eq_false_2 by done.
    destruct (strictness w <? strictness r)%nat; cbn [map List.find];
      rewrite !E, !unlistedRule_hits, methodAllows_any; cbn [andb];
      destruct (providerHostMatches _ _ _); cbn; by rewrite ?unlistedRule_choice.
Qed.

Lemma find_fmap_app (l k : list CompiledRule) :
  rule_choice <$> List.find rule_hits (l ++ k) =
  match rule_choice <$> List.find rule_hits l with
  | Some x => Some x
  | None => rule_choice <$> List.find rule_hits k
  end.
Proof. rewrite find_app_choice. by destruct (List.find rule_hits l). Qed.

Lemma find_custom_drop al ask r w res :
  let others := List.filter (fun t => negb (bool_decide (t ∈ al ++ ask))) (catalogToolIds reg provider) in
  let r' := default (defaultUnlisted reg provider) r in
  let w' := default (defaultUnlisted reg provider) w in
  rule_choice <$> List.find rule_hits
    (map dropMethod (compileConnectionStack reg nameBase provider (GrantCustom al ask r w res) conditions)) =
  if appTargetMatches reg rq provider al None then Some un_allow
  else if appTargetMatches reg rq provider ask None then Some un_ask
  else if appTargetMatches reg rq provider others None then Some un_never
  else if providerHostMatches reg (rq_host rq) provider
  then Some (if (strictness w' <? strictness r')%nat then r' else w') else None.
Proof.
  cbn zeta. cbn [compileConnectionStack]. rewrite !map_app, !find_fmap_app, !find_pushed_drop by done.
  rewrite find_catchAlls_drop, !find_pushed, !appTargetMatches_sorted.
  assert (forall t, bool_decide (t ∈ sorted al ++ sorted ask) = bool_decide (t ∈ al ++ ask)) as Hch.
  { intros t. apply bool_decide_ext. rewrite !elem_of_app. unfold sorted. by rewrite !str_sort_elem_of. }
  rewrite (filter_ext _ (fun t => negb (bool_decide (t ∈ al ++ ask)))) by (intros t; by rewrite Hch).
  destruct (appTargetMatches _ _ _ al _); [done|].
  destruct (appTargetMatches _ _ _ ask _); [done|].
  by destruct (appTargetMatches _ _ _ (List.filter _ _) _).
Qed.
End Stack.
End Decision.

(** C23: a customized grant decides as chosen. For a request the granted
    connection serves, the engine's first match on the written rows allows an
    allowed tool's endpoint, holds an approval tool's, refuses every other
    catalogued tool's, and gives any other request on the provider's hosts the
    catch-all of its method family: GET and HEAD read, the rest write. *)
Theorem grant_decision (reg : Registry) `{JsCase} sh cp connectionId provider agentId rq
    table workspaceId nameBase al ask r w res conditions ids :
  rq_agentId rq = agentId -> rq_winningConnectionId rq = Some connectionId ->
  connectionId <> [] -> cp !! connectionId = Some provider -> policy_shaped conditions ->
  stack_choice reg sh cp rq
    (written reg connectionId provider agentId table workspaceId nameBase conditions ids
       (GrantCustom al ask r w res)) =
  grant_choice reg provider rq al ask
    (default (defaultUnlisted reg provider) r) (default (defaultUnlisted reg provider) w).
Proof.
  intros Ha Hw Hid Hcp Hc.
  rewrite (stack_choice_written reg sh cp connectionId provider agentId rq Ha Hw Hid Hcp) by done.
  apply find_custom.
Qed.

(** The split catch-all is never looser where its method narrowing is not
    read. On rows whose methods are dropped, as a gateway that predates them
    sees the stack, the same requests are decided, each at least as strictly. *)
Theorem grant_rollout_never_looser (reg : Registry) `{JsCase} sh cp connectionId provider agentId rq
    table workspaceId nameBase al ask r w res conditions ids :
  rq_agentId rq = agentId -> rq_winningConnectionId rq = Some connectionId ->
  connectionId <> [] -> cp !! connectionId = Some provider -> policy_shaped conditions ->
  let rows := written reg connectionId provider agentId table workspaceId nameBase conditions ids
                (GrantCustom al ask r w res) in
  match stack_choice reg sh cp rq (map eraseMethod rows), stack_choice reg sh cp rq rows with
  | Some old, Some new => (strictness new <= strictness old)%nat
  | None, None => True
  | _, _ => False
  end.
Proof.
  intros Ha Hw Hid Hcp Hc. cbn zeta.
  rewrite (stack_choice_erased reg sh cp connectionId provider agentId rq Ha Hw Hid Hcp) by done.
  rewrite (stack_choice_written reg sh cp connectionId provider agentId rq Ha Hw Hid Hcp) by done.
  rewrite find_custom, find_custom_drop. unfold grant_choice.
  destruct (appTargetMatches _ _ _ al _); [done|].
  destruct (appTargetMatches _ _ _ ask _); [done|].
  destruct (appTargetMatches _ _ _ (List.filter _ _) _); [done|].
  destruct (providerHostMatches _ _ _); [|done].
  destruct (Nat.ltb_spec (strictness (default (defaultUnlisted reg provider) w))
    (strictness (default (defaultUnlisted reg provider) r))), (is_read_method _); lia.
Qed.

(** The tool ids of one category. *)
Lemma toolsOf_elem groups c t :
  t ∈ toolsOf groups c <->
  exists group tool, group ∈ groups /\ ag_category group = c /\
    tool ∈ ag_tools group /\ t = at_id tool.
Proof.
  unfold toolsOf, sorted. rewrite str_sort_elem_of, list_elem_of_In, in_flat_map. split.
  - intros (g & [Hg Hc%bool_decide_eq_true]%filter_In & (tool & <- & Ht)%in_map_iff).
    exists g, tool. by rewrite !list_elem_of_In.
  - intros (g & tool & Hg & Hc & Ht & ->). exists g.
    apply list_elem_of_In in Hg; apply list_elem_of_In in Ht. split.
    + apply filter_In. by rewrite bool_decide_eq_true_2.
    + by apply in_map.
Qed.

(** What a new attach writes is safe. It is full access only for a provider
    whose catalog lists no tool; else the tools allowed and those held for
    approval are disjoint and are exactly the catalogued ones (so the id check
    passes and nothing is blocked by omission), every write tool is held, other
    writes are held, and other reads are allowed only where the catalog says
    so. *)
Theorem defaultConnectionGrant_safe (reg : Registry) provider :
  match defaultConnectionGrant reg provider with
  | GrantFull res => res = None /\ catalogToolIds reg provider = []
  | GrantCustom al ask r w res =>
      res = None /\ w = Some un_ask /\
      (r = Some un_allow <-> exists def, getAppPermissionDefinition reg provider = Some def /\
         ad_unlistedReads_allow def = true) /\ (r = Some un_allow \/ r = Some un_ask) /\
      (forall t, t ∈ al -> t ∉ ask) /\
      (forall t, t ∈ al ++ ask <-> t ∈ catalogToolIds reg provider) /\
      (forall def group tool, getAppPermissionDefinition reg provider = Some def ->
         group ∈ ad_groups def -> ag_category group = cat_write -> tool ∈ ag_tools group ->
         at_id tool ∈ ask) /\
      assertToolIdsValid reg provider (al ++ ask) = inr tt
  end.
Proof.
  unfold defaultConnectionGrant.
  destruct (getAppPermissionDefinition reg provider) as [def|] eqn:E.
  2: { simpl. split; [done|]. unfold catalogToolIds. by rewrite E. }
  set (R := toolsOf (ad_groups def) cat_read). set (Wr := toolsOf (ad_groups def) cat_write).
  set (al := List.filter _ R).
  assert (forall t, t ∈ al <-> t ∈ R /\ t ∉ Wr) as Hal.
  { intros t. unfold al. rewrite list_elem_of_In, filter_In, negb_true_iff, bool_decide_eq_false.
    by rewrite <- list_elem_of_In. }
  assert (forall t, t ∈ al ++ Wr <-> t ∈ catalogToolIds reg provider) as Hall.
  { intros t. rewrite elem_of_app, Hal. unfold catalogToolIds. rewrite E.
    transitivity (t ∈ R \/ t ∈ Wr).
    { destruct (decide (t ∈ Wr)); naive_solver. }
    unfold R, Wr. rewrite !toolsOf_elem, list_elem_of_In, in_flat_map. split.
    - intros [(g & tool & Hg & _ & Ht & ->)|(g & tool & Hg & _ & Ht & ->)]; exists g;
        apply list_elem_of_In in Hg; apply list_elem_of_In in Ht; (split; [done|by apply in_map]).
    - intros (g & Hg & (tool & <- & Ht)%in_map_iff). apply list_elem_of_In in Hg; apply list_elem_of_In in Ht.
      destruct (ag_category g) eqn:Ec; [left|right]; exists g, tool; done. }
  destruct (Nat.eqb_spec (length al + length (Wr)) 0) as [Hz|Hz].
  { split; [done|]. destruct (catalogToolIds reg provider) as [|t ts] eqn:Ec; [done|].
    assert (t ∈ al ++ Wr) as Ht by (apply Hall; by left).
    destruct al, (Wr); simpl in *; [set_solver|lia..]. }
  split_and!; try done.
  - simpl. destruct (ad_unlistedReads_allow def) eqn:Eu; split; [by intros; exists def|done|done|].
    intros (d & [= <-] & Hd). congruence.
  - simpl. destruct (ad_unlistedReads_allow def); [by left|by right].
  - intros t Ht. by apply Hal in Ht as [_ ?].
  - intros d g tool [= <-] Hg Hc Ht. apply toolsOf_elem. exists g, tool. done.
  - unfold assertToolIdsValid. rewrite E.
    destruct (al ++ Wr) as [|t ts] eqn:Ea; [done|].
    rewrite filter_none; [done|]. intros x Hx. rewrite js_dedup_elem_of in Hx.
    apply negb_false_iff, bool_decide_eq_true. apply Hall in Hx.
    unfold catalogToolIds in Hx. by rewrite E in Hx.
Qed.

(** A tools-only save keeps the catch-alls. Merged with a stored customized
    stack, an input that leaves both catch-alls out takes exactly the two the
    stack was compiled with, an input that names them is unchanged, and full
    access is untouched. *)
Theorem withStoredUnlisted_preserves (reg : Registry) `{JsCase} table workspaceId agentId
    connectionId nameBase provider al ask r w res conditions ids :
  al ++ ask <> [] ->
  let rows := readGrantRows
    (replaceStack table workspaceId agentId connectionId
       (compileConnectionStack reg nameBase provider (GrantCustom al ask r w res) conditions) ids)
    workspaceId agentId connectionId in
  (forall al' ask' res',
     withStoredUnlisted reg (GrantCustom al' ask' None None res') rows provider =
     GrantCustom al' ask' (Some (default (defaultUnlisted reg provider) r))
       (Some (default (defaultUnlisted reg provider) w)) res') /\
  (forall al' ask' r' w' res',
     withStoredUnlisted reg (GrantCustom al' ask' (Some r') (Some w') res') rows provider =
     GrantCustom al' ask' (Some r') (Some w') res') /\
  (forall res', withStoredUnlisted reg (GrantFull res') rows provider = GrantFull res').
Proof.
  intros Hne rows.
  pose proof (readGrantRows_holds workspaceId agentId connectionId table
    (compileConnectionStack reg nameBase provider (GrantCustom al ask r w res) conditions) ids) as HF.
  fold rows in HF. pose proof (fold_custom _ _ _ _ _ _ _ _ _ _ _ HF Hne) as Hfold.
  assert (length rows <> 0)%nat as Hlen.
  { intros Hz. apply length_zero_iff_nil in Hz. rewrite Hz in HF.
    apply Forall2_nil_inv_l in HF. cbn [compileConnectionStack] in HF.
    rewrite !app_assoc in HF. apply app_nil in HF as [_ HF]. revert HF.
    unfold catchAlls. destruct (bool_decide _); [done|]. by destruct (_ <? _)%nat. }
  unfold withStoredUnlisted. apply Nat.eqb_neq in Hlen as ->. rewrite Hfold. cbn.
  by split_and!; intros.
Qed.

(** A tool added to the catalog after a stack was written reads back at
    least as restricted as the catch-all that decides its requests: for every
    method the tool lists (any method, when it lists none), the choice it reads
    as is no looser than that method's catch-all. *)
Theorem added_tool_never_looser `{JsCase} tool r w method :
  (methodsOf tool = [] \/ to_upper_case method ∈ map to_upper_case (methodsOf tool)) ->
  (strictness (if is_read_method method then r else w)
   <= strictness (unlistedChoiceForTool tool r w))%nat.
Proof.
  intros Hm. unfold unlistedChoiceForTool, is_read_method.
  set (methods := map to_upper_case (methodsOf tool)) in *.
  destruct ((0 <? length methods)%nat && forallb _ methods) eqn:Hr.
  { apply andb_true_iff in Hr as [Hl Hr]. rewrite forallb_In in Hr.
    destruct Hm as [Hm|Hm]; [subst methods; by rewrite Hm in Hl|].
    apply Hr, bool_decide_eq_true in Hm. by rewrite bool_decide_eq_true_2. }
  destruct ((0 <? length methods)%nat && forallb (fun m => negb _) methods) eqn:Hw.
  { apply andb_true_iff in Hw as [Hl Hw]. rewrite forallb_In in Hw.
    destruct Hm as [Hm|Hm]; [subst methods; by rewrite Hm in Hl|].
    apply Hw, negb_true_iff in Hm. by rewrite Hm. }
  destruct (Nat.leb_spec (strictness w) (strictness r)); case_bool_decide; lia.
Qed.

(** ** Concrete runs *)

Module Examples.
Definition tool (id path : jsstr) (method : jsstr) : AppTool :=
  {| at_id := id; at_name := id; at_description := []; at_hostPattern := js "api.example.com";
     at_hostAliasPatterns := None; at_pathPattern := path; at_aliasPatterns := None;
     at_method := Some method; at_methods := None; at_graphqlOps := None |}.

Definition registry : Registry :=
  register ∅ {| ad_provider := js "example";
                ad_groups :=
                  [{| ag_category := cat_read;
                      ag_tools := [tool (js "list") (js "/items") (js "GET")]; ag_wildcard := None |};
                   {| ag_category := cat_write;
                      ag_tools := [tool (js "create") (js "/items") (js "POST");
                                   tool (js "delete") (js "/items/*") (js "DELETE")];
                      ag_wildcard := None |}];
                ad_unlisted_block := false; ad_exhaustive := false;
                ad_unlistedReads_allow := false |}.

Definition ids (i : nat) : jsstr * jsstr := ([N.of_nat i], [N.of_nat i]).

Definition input : ConnectionGrantInput :=
  GrantCustom [js "list"] [js "create"] (Some un_allow) (Some un_never) None.

Definition request (path method : jsstr) : PolicyRequest :=
  {| rq_host := js "api.example.com"; rq_path := path; rq_method := method; rq_body := None;
     rq_agentId := js "agent"; rq_userIds := None; rq_groupIds := None;
     rq_hasInjections := true; rq_isLlmHost := false; rq_winningConnectionId := Some (js "conn") |}.

Definition no_secrets : SecretHostSet :=
  {| shs_byId := ∅; shs_workspaceHosts := []; shs_orgHosts := [] |}.
End Examples.

Lemma grant_roundtrip_witness :
  @stackToGrant Examples.registry ascii_case
    (readGrantRows
       (replaceStack [] (js "ws") (js "agent") (js "conn")
          (compileConnectionStack Examples.registry (js "Grant") (js "example") Examples.input JNull)
          Examples.ids)
       (js "ws") (js "agent") (js "conn")) (js "example") =
  {| sg_access := access_custom; sg_allow := [js "list"]; sg_ask := [js "create"];
     sg_otherReads := un_allow; sg_otherWrites := un_never |}.
Proof.
  apply (@grant_roundtrip Examples.registry ascii_case [] (js "ws") (js "agent") (js "conn")
    (js "Grant") (js "example") Examples.input JNull Examples.ids). done.
Defined.

Lemma grant_decision_witness :
  @stack_choice Examples.registry ascii_case Examples.no_secrets {[js "conn" := js "example"]}
    (Examples.request (js "/other") (js "POST"))
    (written Examples.registry (js "conn") (js "example") (js "agent") [] (js "ws") (js "Grant")
       JNull Examples.ids Examples.input) = Some un_never.
Proof.
  unfold Examples.input.
  rewrite (@grant_decision Examples.registry ascii_case); [|reflexivity|reflexivity|done|reflexivity|by left].
  vm_compute. reflexivity.
Defined.

Lemma grant_rollout_never_looser_witness :
  let rows := written Examples.registry (js "conn") (js "example") (js "agent") [] (js "ws")
                (js "Grant") JNull Examples.ids Examples.input in
  match @stack_choice Examples.registry ascii_case Examples.no_secrets {[js "conn" := js "example"]}
          (Examples.request (js "/other") (js "GET")) (map eraseMethod rows),
        @stack_choice Examples.registry ascii_case Examples.no_secrets {[js "conn" := js "example"]}
          (Examples.request (js "/other") (js "GET")) rows with
  | Some old, Some new => (strictness new <= strictness old)%nat
  | None, None => True
  | _, _ => False
  end.
Proof.
  unfold Examples.input.
  apply (@grant_rollout_never_looser Examples.registry ascii_case); [reflexivity|reflexivity|done|reflexivity|by left].
Defined.

Lemma withStoredUnlisted_preserves_witness :
  @withStoredUnlisted Examples.registry ascii_case
    (GrantCustom [js "list"] [] None None None)
    (readGrantRows
       (replaceStack [] (js "ws") (js "agent") (js "conn")
          (compileConnectionStack Examples.registry (js "Grant") (js "example") Examples.input JNull)
          Examples.ids)
       (js "ws") (js "agent") (js "conn")) (js "example") =
  GrantCustom [js "list"] [] (Some un_allow) (Some un_never) None.
Proof.
  destruct (@withStoredUnlisted_preserves Examples.registry ascii_case [] (js "ws") (js "agent")
    (js "conn") (js "Grant") (js "example") [js "list"] [js "create"] (Some un_allow)
    (Some un_never) None JNull Examples.ids) as [Hp _]; [done|]. apply Hp.
Defined.

Lemma added_tool_never_looser_witness :
  (strictness (if @is_read_method ascii_case (js "post") then un_allow else un_ask)
   <= strictness (@unlistedChoiceForTool ascii_case
        (Examples.tool (js "x") (js "/x") (js "POST")) un_allow un_ask))%nat.
Proof.
  apply (@added_tool_never_looser ascii_case). right. vm_compute. left.
Defined.
