(* ===== verification/ResourceAxis.v ===== *)
(** * Resource axes

    [packages/api/src/lib/resource-axis.ts]: what a session policy restricts a
    credential to (repositories, Dropbox folders, Drive folder chains), when
    one resource is inside another, and the composition of two policies. A
    policy is a JSON value, as the sources read it ([unknown]); [isSessionPolicy]
    is that of [validations/policy.ts]. *)
From S2P Require Import Prelude JsJson.

Definition isSessionPolicy (c : json) : bool :=
  match c with JObj _ => true | _ => false end.

(** [value.replace(/[A-Z]/g, ...)] *)
Definition ra_asciiLower (value : jsstr) : jsstr := map ascii_lower_char value.

Fixpoint strip_leading (c : N) (s : jsstr) : jsstr :=
  match s with
  | x :: s' => if N.eqb x c then strip_leading c s' else s
  | [] => []
  end.

(** [s.replace(/\/+$/, "")] *)
Definition strip_trailing (c : N) (s : jsstr) : jsstr := rev (strip_leading c (rev s)).

Record ResourceAxis := {
  axis_key : jsstr;
  axis_normalize : jsstr -> jsstr;
  axis_coveredBy : jsstr -> list jsstr -> bool;
  axis_entriesOf : json -> option json;
  axis_build : list jsstr -> json
}.

(** [{ [key]: entries }] *)
Definition build_entries (key : jsstr) (entries : list jsstr) : json :=
  JObj [(key, JArr (map JStr entries))].

Definition repositories : ResourceAxis :=
  {| axis_key := js "repositories";
     axis_normalize := ra_asciiLower;
     axis_coveredBy := fun entry boundary =>
       let target := ra_asciiLower entry in
       existsb (fun b => bool_decide (ra_asciiLower b = target)) boundary;
     axis_entriesOf := json_prop (js "repositories");
     axis_build := build_entries (js "repositories") |}.

Definition folders_normalize (entry : jsstr) : jsstr :=
  strip_trailing ch_slash (ra_asciiLower entry).

Definition folders_coveredBy (entry : jsstr) (boundary : list jsstr) : bool :=
  let normalized := map folders_normalize boundary in
  if existsb (fun b => bool_decide (b = [])) normalized then true
  else if negb (starts_with (js "/") entry) then false
  else
    let target := folders_normalize entry in
    if bool_decide (target = []) then false
    else existsb (fun b => bool_decide (target = b)
                           || starts_with (b ++ js "/") target) normalized.

Definition folders : ResourceAxis :=
  {| axis_key := js "folders";
     axis_normalize := folders_normalize;
     axis_coveredBy := folders_coveredBy;
     axis_entriesOf := json_prop (js "folders");
     axis_build := build_entries (js "folders") |}.

(** [entry.split("/").filter(Boolean)] *)
Definition chainIds (entry : jsstr) : list jsstr :=
  List.filter (fun id => negb (bool_decide (id = []))) (split_on ch_slash entry).

Definition driveFolders_coveredBy (entry : jsstr) (boundary : list jsstr) : bool :=
  let required := js_dedup (chainIds entry) in
  if (length required =? 0)%nat
  then existsb (fun b => (length (chainIds b) =? 0)%nat) boundary
  else existsb (fun b => forallb (fun id => bool_decide (id ∈ required)) (chainIds b))
         boundary.

Definition driveFolders : ResourceAxis :=
  {| axis_key := js "driveFolders";
     axis_normalize := fun entry => join (js "/") (chainIds entry);
     axis_coveredBy := driveFolders_coveredBy;
     axis_entriesOf := json_prop (js "driveFolders");
     axis_build := build_entries (js "driveFolders") |}.

Definition AXES : list ResourceAxis := [repositories; folders; driveFolders].

(** [key in policy] *)
Definition has_key (key : jsstr) (policy : json) : bool :=
  match json_prop key policy with Some _ => true | None => false end.

Definition axisOf (policy : json) : option ResourceAxis :=
  if negb (isSessionPolicy policy) then None
  else List.find (fun axis => has_key (axis_key axis) policy) AXES.

Definition string_items (items : list json) : list jsstr :=
  omap (fun e => match e with JStr s => Some s | _ => None end) items.

(** [None] is [undefined]. *)
Definition rawEntries (policy : json) (axis : ResourceAxis) : option (list jsstr) :=
  match axis_entriesOf axis policy with
  | Some (JArr items) => Some (string_items items)
  | _ => None
  end.

(** [None] is [null]. *)
Definition canonicalPolicy (policy : json) : option json :=
  match axisOf policy with
  | None => None
  | Some axis =>
      match rawEntries policy axis with
      | Some (e :: es) => Some (axis_build axis (str_sort (e :: es)))
      | _ => None
      end
  end.

Definition deniesEverything (policy : json) : bool :=
  match axisOf policy with
  | None => false
  | Some axis =>
      match rawEntries policy axis with Some [] => true | _ => false end
  end.

Definition coveredBy (entry : jsstr) (boundary : json) : bool :=
  match axisOf boundary with
  | None => true
  | Some axis => axis_coveredBy axis entry (default [] (rawEntries boundary axis))
  end.

Definition entriesOutside (policy boundary : json) : list jsstr :=
  match axisOf policy, axisOf boundary with
  | Some axis, Some boundaryAxis =>
      let entries := default [] (rawEntries policy axis) in
      if bool_decide (axis_key boundaryAxis <> axis_key axis) then entries
      else List.filter (fun entry => negb (coveredBy entry boundary)) entries
  | _, _ => []
  end.

(** The entries [intersectPolicies] keeps of two lists on one axis. *)
Definition keptEntries (axis : ResourceAxis) (entriesA entriesB : list jsstr) : list jsstr :=
  map (axis_normalize axis)
    (List.filter (fun entry => axis_coveredBy axis entry entriesB) entriesA
     ++ List.filter (fun entry => axis_coveredBy axis entry entriesA) entriesB).

Definition intersectPolicies (a b : json) : option json :=
  match axisOf a, axisOf b with
  | None, None => None
  | None, Some _ => Some b
  | Some _, None => Some a
  | Some axisA, Some axisB =>
      if bool_decide (axis_key axisA <> axis_key axisB) then Some (axis_build axisA [])
      else
        let entriesA := default [] (rawEntries a axisA) in
        let entriesB := default [] (rawEntries b axisB) in
        Some (axis_build axisA (str_sort (js_dedup (keptEntries axisA entriesA entriesB))))
  end.

(** ** The laws of an axis

    What the composition needs of an axis: covering is being inside one of the
    boundary's entries, inside is transitive and blind to normalization of the
    boundary, and a built policy reads back. *)
Class AxisLaws (axis : ResourceAxis) := {
  inside : jsstr -> jsstr -> Prop;
  coveredBy_iff e boundary :
    axis_coveredBy axis e boundary = true <-> exists b, b ∈ boundary /\ inside e b;
  inside_trans a b c : inside a b -> inside b c -> inside a c;
  inside_normalize a b : inside a (axis_normalize axis b) <-> inside a b;
  axisOf_build entries : axisOf (axis_build axis entries) = Some axis;
  entriesOf_build entries :
    axis_entriesOf axis (axis_build axis entries) = Some (JArr (map JStr entries))
}.
Arguments inside axis {_} _ _.

(** On a nesting axis two resources that share a point are one inside the
    other. *)
Class Nesting (axis : ResourceAxis) `{!AxisLaws axis} :=
  nested t a b : inside axis t a -> inside axis t b -> inside axis a b \/ inside axis b a.

(** *** Repositories *)

#[export] Instance repositories_laws : AxisLaws repositories.
Proof.
  refine {| inside := fun a b => ra_asciiLower b = ra_asciiLower a |}; simpl.
  - intros e B. rewrite existsb_In. by setoid_rewrite bool_decide_eq_true.
  - congruence.
  - intros a b. unfold ra_asciiLower. rewrite map_map.
    by rewrite (map_ext _ _ ascii_lower_char_idem).
  - done.
  - done.
Defined.

#[export] Instance repositories_nesting : Nesting repositories.
Proof. intros t a b. simpl. left. congruence. Qed.

(** *** Folders *)

Section Strip.
Context (c : N).

Lemma strip_leading_split s :
  exists n, s = replicate n c ++ strip_leading c s.
Proof.
  induction s as [|x s [n IH]]; simpl; [by exists 0%nat|].
  destruct (N.eqb_spec x c) as [->|]; [|by exists 0%nat].
  exists (S n). simpl. by rewrite <- IH.
Qed.

Lemma strip_leading_idem s : strip_leading c (strip_leading c s) = strip_leading c s.
Proof.
  induction s as [|x s IH]; simpl; [done|].
  destruct (N.eqb x c) eqn:E; [done|]. simpl. by rewrite E.
Qed.

Lemma strip_trailing_split s : exists n, s = strip_trailing c s ++ replicate n c.
Proof.
  destruct (strip_leading_split (rev s)) as [n Hn]. exists n. unfold strip_trailing.
  apply (f_equal (@rev N)) in Hn. rewrite rev_involutive, rev_app_distr in Hn. rewrite Hn at 1.
  f_equal. rewrite rev_alt. apply (reverse_replicate n c).
Qed.

Lemma strip_trailing_idem s : strip_trailing c (strip_trailing c s) = strip_trailing c s.
Proof. unfold strip_trailing. by rewrite rev_involutive, strip_leading_idem. Qed.
End Strip.

Lemma strip_leading_map f c s :
  (forall x, f x = c <-> x = c) -> strip_leading c (map f s) = map f (strip_leading c s).
Proof.
  intros Hf. induction s as [|x s IH]; simpl; [done|].
  rewrite (eqb_fold f c Hf), IH. by destruct (N.eqb x c).
Qed.

Lemma ra_asciiLower_idem s : ra_asciiLower (ra_asciiLower s) = ra_asciiLower s.
Proof. unfold ra_asciiLower. rewrite map_map. by rewrite (map_ext _ _ ascii_lower_char_idem). Qed.

Lemma ra_asciiLower_strip s :
  ra_asciiLower (strip_trailing ch_slash s) = strip_trailing ch_slash (ra_asciiLower s).
Proof.
  unfold ra_asciiLower, strip_trailing. rewrite map_rev, <- (map_rev _ s), strip_leading_map; [done|].
  intros x. apply ascii_lower_char_fix. unfold ch_slash. lia.
Qed.

Lemma folders_normalize_idem e : folders_normalize (folders_normalize e) = folders_normalize e.
Proof.
  unfold folders_normalize.
  by rewrite ra_asciiLower_strip, ra_asciiLower_idem, strip_trailing_idem.
Qed.

(** An entry whose normal form is not empty is absolute with it. *)
Lemma folders_normalize_absolute e :
  folders_normalize e <> [] ->
  starts_with (js "/") (folders_normalize e) = starts_with (js "/") e.
Proof.
  intros Hne. destruct (strip_trailing_split ch_slash (ra_asciiLower e)) as [n Hn].
  fold (folders_normalize e) in Hn.
  destruct (folders_normalize e) as [|x l]; [done|]. destruct e as [|y e]; [done|].
  simpl in Hn. injection Hn as Hx _. subst x.
  change (js "/") with [ch_slash]. cbn [starts_with]. rewrite !andb_true_r, !(N.eqb_sym ch_slash).
  apply eqb_fold. intros. apply ascii_lower_char_fix. unfold ch_slash. lia.
Qed.

(** [t] is the folder [b] or below it, on normal forms. *)
Definition folder_under (t b : jsstr) : Prop := t = b \/ exists k, t = b ++ ch_slash :: k.

Lemma folder_under_trans a b c : folder_under a b -> folder_under b c -> folder_under a c.
Proof.
  intros [->|[k ->]] [->|[k' ->]]; [by left|right; eauto..|].
  right. exists (k' ++ ch_slash :: k). by rewrite <- app_assoc.
Qed.

Lemma folder_under_nested t a b :
  folder_under t a -> folder_under t b -> folder_under a b \/ folder_under b a.
Proof.
  intros [->|[k ->]] Hb; [by left|]. destruct Hb as [<-|[k' E]]; [right; right; eauto|].
  destruct (app_eq_inv _ _ _ _ E) as [(l & -> & E')|(l & -> & E')];
    (destruct l as [|x l]; simpl in E'; [rewrite app_nil_r; by left; left|]);
    injection E' as <- _; [left|right]; right; eauto.
Qed.

(** A folder inside another: a root boundary holds everything, any other one
    the absolute paths at or below it. *)
Definition folder_inside (e b : jsstr) : Prop :=
  folders_normalize b = [] \/
  starts_with (js "/") e = true /\ folders_normalize e <> [] /\
  folder_under (folders_normalize e) (folders_normalize b).

Lemma folder_under_test t b :
  bool_decide (t = b) || starts_with (b ++ js "/") t = true <-> folder_under t b.
Proof.
  rewrite orb_true_iff, bool_decide_eq_true, starts_with_spec. unfold folder_under.
  by setoid_rewrite <- app_assoc.
Qed.

Lemma folders_coveredBy_iff e B :
  folders_coveredBy e B = true <-> exists b, b ∈ B /\ folder_inside e b.
Proof.
  unfold folders_coveredBy, folder_inside. rewrite !existsb_map_comp.
  destruct (existsb _ B) eqn:Er.
  { split; [intros _|done]. apply existsb_In in Er as (b & Hb & Hr%bool_decide_eq_true).
    exists b. auto. }
  rewrite existsb_not_In in Er.
  assert (forall b, b ∈ B -> folders_normalize b <> []) as Hr.
  { intros b Hb. by apply Er, bool_decide_eq_false in Hb. }
  destruct (starts_with (js "/") e) eqn:Ea; simpl; [|naive_solver].
  case_bool_decide as Hn; [naive_solver|].
  rewrite existsb_In. setoid_rewrite folder_under_test. naive_solver.
Qed.

#[export] Instance folders_laws : AxisLaws folders.
Proof.
  refine {| inside := folder_inside |}; simpl.
  - apply folders_coveredBy_iff.
  - unfold folder_inside. intros a b c Hab [Hc|(Hb & Hbn & Hbc)]; [by left|right].
    destruct Hab as [Hb0|(Ha & Han & Hab)]; [done|].
    split_and!; [done..|]. by eapply folder_under_trans.
  - intros a b. unfold folder_inside. by rewrite folders_normalize_idem.
  - done.
  - done.
Defined.

Lemma folder_inside_below t a b :
  folder_under (folders_normalize t) (folders_normalize a) ->
  starts_with (js "/") t = true -> folders_normalize t <> [] -> folders_normalize a <> [] ->
  folder_under (folders_normalize a) (folders_normalize b) -> folder_inside a b.
Proof.
  intros Hta Ht Htn Han Hab. right. split_and!; [|done..].
  rewrite <- folders_normalize_absolute in Ht |- * by done.
  destruct (folders_normalize a) as [|x l]; [done|].
  destruct Hta as [E|[k E]]; rewrite E in Ht; exact Ht.
Qed.

#[export] Instance folders_nesting : Nesting folders.
Proof.
  intros t a b [Ha|(Ht & Htn & Hta)] [Hb|(_ & _ & Htb)]; simpl;
    [by left; left|by right; left|by left; left|].
  destruct (decide (folders_normalize a = [])) as [Ha|Ha]; [by right; left|].
  destruct (decide (folders_normalize b = [])) as [Hb|Hb]; [by left; left|].
  destruct (folder_under_nested _ _ _ Hta Htb) as [H|H]; [left|right];
    eauto using folder_inside_below.
Qed.

(** *** Drive folder chains *)

Lemma chainIds_pieces e : Forall (fun id => id <> [] /\ ch_slash ∉ id) (chainIds e).
Proof.
  apply Forall_forall. intros id [Hid Hne]%list_elem_of_In%filter_In.
  apply list_elem_of_In, split_on_pieces in Hid. by to_prop.
Qed.

Lemma chainIds_join ids :
  Forall (fun id => id <> [] /\ ch_slash ∉ id) ids -> chainIds (join (js "/") ids) = ids.
Proof.
  intros HF. destruct (decide (ids = [])) as [->|Hne]; [done|].
  unfold chainIds. change (js "/") with [ch_slash]. rewrite split_join; [|done|].
  - apply filter_all. intros id Hid. rewrite Forall_forall in HF.
    apply negb_true_iff, bool_decide_eq_false. by apply HF.
  - eapply Forall_impl; [exact HF|]. by intros ? [].
Qed.

Lemma driveFolders_coveredBy_iff e B :
  driveFolders_coveredBy e B = true <->
  exists b, b ∈ B /\ forall id, id ∈ chainIds b -> id ∈ chainIds e.
Proof.
  unfold driveFolders_coveredBy. pose proof (fun x => js_dedup_elem_of x (chainIds e)) as Hd.
  destruct (js_dedup (chainIds e)) as [|x l] eqn:E; simpl; rewrite existsb_In.
  - assert (forall x, x ∉ chainIds e) as He by set_solver.
    apply exist_proper. intros b. apply and_iff_compat_l.
    destruct (chainIds b) as [|y k]; simpl; set_solver.
  - apply exist_proper. intros b. apply and_iff_compat_l. rewrite forallb_In.
    setoid_rewrite bool_decide_eq_true. by setoid_rewrite Hd.
Qed.

#[export] Instance driveFolders_laws : AxisLaws driveFolders.
Proof.
  refine {| inside := fun a b => forall id, id ∈ chainIds b -> id ∈ chainIds a |}; simpl.
  - apply driveFolders_coveredBy_iff.
  - auto.
  - intros a b. by rewrite chainIds_join by apply chainIds_pieces.
  - done.
  - done.
Defined.

#[export] Hint Resolve inside_trans : jsdb.

(** ** Policies read through the laws *)

Lemma axisOf_cases p axis :
  axisOf p = Some axis -> axis = repositories \/ axis = folders \/ axis = driveFolders.
Proof.
  unfold axisOf. destruct (negb (isSessionPolicy p)); [done|].
  intros [H _]%find_some. simpl in H. naive_solver.
Qed.

(** Case on the axis of a policy, whose laws are then an instance. *)
Ltac axis_cases H :=
  let E := fresh in pose proof (axisOf_cases _ _ H) as E; destruct E as [->|[->| ->]].

Lemma axisOf_key_inj p q x y :
  axisOf p = Some x -> axisOf q = Some y -> axis_key x = axis_key y -> x = y.
Proof. intros Hp Hq. axis_cases Hp; axis_cases Hq; done. Qed.

(** The entries of a policy on its axis; none when the value is no list. *)
Definition entries_of (p : json) (axis : ResourceAxis) : list jsstr :=
  default [] (rawEntries p axis).

Lemma string_items_JStr es : string_items (map JStr es) = es.
Proof. induction es as [|e es IH]; simpl; [done|]. unfold string_items in *. simpl. by rewrite IH. Qed.

(** What a composed policy covers; [null] is no restriction. *)
Definition allows (p : option json) (t : jsstr) : bool := coveredBy t (default JNull p).

Section Axis.
Context (axis : ResourceAxis) `{!AxisLaws axis}.
Implicit Types (t : jsstr) (A B : list jsstr) (p : json).

Lemma rawEntries_build es : rawEntries (axis_build axis es) axis = Some es.
Proof. unfold rawEntries. by rewrite entriesOf_build, string_items_JStr. Qed.

Lemma coveredBy_axis p t :
  axisOf p = Some axis ->
  coveredBy t p = true <-> exists b, b ∈ entries_of p axis /\ inside axis t b.
Proof. unfold coveredBy, entries_of. intros ->. apply coveredBy_iff. Qed.

Lemma coveredBy_build es t :
  coveredBy t (axis_build axis es) = true <-> exists b, b ∈ es /\ inside axis t b.
Proof.
  rewrite coveredBy_axis by apply axisOf_build. unfold entries_of. by rewrite rawEntries_build.
Qed.

Lemma keptEntries_elem k A B :
  k ∈ keptEntries axis A B <->
  exists e, k = axis_normalize axis e /\
    (e ∈ A /\ (exists b, b ∈ B /\ inside axis e b) \/
     e ∈ B /\ (exists a, a ∈ A /\ inside axis e a)).
Proof.
  unfold keptEntries. rewrite list_elem_of_In, in_map_iff.
  setoid_rewrite in_app_iff. setoid_rewrite filter_In. setoid_rewrite <- list_elem_of_In.
  setoid_rewrite coveredBy_iff. naive_solver.
Qed.

(** The composed policy allows what both sides allow, and no more. *)
Lemma keptEntries_sound t A B k :
  k ∈ keptEntries axis A B -> inside axis t k ->
  (exists a, a ∈ A /\ inside axis t a) /\ (exists b, b ∈ B /\ inside axis t b).
Proof.
  intros (e & -> & He)%keptEntries_elem Ht. rewrite inside_normalize in Ht.
  destruct He as [(He & x & Hx & Hex)|(He & x & Hx & Hex)]; split;
    first [by exists e | by exists x; split; [|exact (inside_trans _ _ _ Ht Hex)]].
Qed.

Lemma keptEntries_complete t A B a b :
  a ∈ A -> b ∈ B -> inside axis t a -> inside axis t b ->
  inside axis a b \/ inside axis b a ->
  exists k, k ∈ keptEntries axis A B /\ inside axis t k.
Proof.
  intros Ha Hb Hta Htb [H|H].
  - exists (axis_normalize axis a). rewrite inside_normalize. split; [|done].
    apply keptEntries_elem. exists a. split; [done|]. left. eauto.
  - exists (axis_normalize axis b). rewrite inside_normalize. split; [|done].
    apply keptEntries_elem. exists b. split; [done|]. right. eauto.
Qed.

Lemma keptEntries_comm k A B : k ∈ keptEntries axis A B <-> k ∈ keptEntries axis B A.
Proof. rewrite !keptEntries_elem. naive_solver. Qed.

Lemma intersectPolicies_axis a b :
  axisOf a = Some axis -> axisOf b = Some axis ->
  intersectPolicies a b =
  Some (axis_build axis
    (str_sort (js_dedup (keptEntries axis (entries_of a axis) (entries_of b axis))))).
Proof.
  unfold intersectPolicies. intros -> ->. rewrite bool_decide_eq_false_2 by (intros H; by apply H).
  done.
Qed.

Lemma allows_intersect a b t :
  axisOf a = Some axis -> axisOf b = Some axis ->
  allows (intersectPolicies a b) t = true <->
  exists k, k ∈ keptEntries axis (entries_of a axis) (entries_of b axis) /\ inside axis t k.
Proof.
  intros Ha Hb. unfold allows. rewrite intersectPolicies_axis by done.
  cbn [default from_option id]. rewrite coveredBy_build.
  setoid_rewrite str_sort_elem_of. by setoid_rewrite js_dedup_elem_of.
Qed.

Lemma allows_intersect_sound a b t :
  axisOf a = Some axis -> axisOf b = Some axis ->
  allows (intersectPolicies a b) t = true -> coveredBy t a = true /\ coveredBy t b = true.
Proof.
  intros Ha Hb. rewrite allows_intersect, !coveredBy_axis by done.
  intros (k & Hk & Htk). by eapply keptEntries_sound.
Qed.

Lemma deniesEverything_build es : deniesEverything (axis_build axis es) = bool_decide (es = []).
Proof. unfold deniesEverything. rewrite axisOf_build, rawEntries_build. by destruct es. Qed.
End Axis.

(** ** Properties *)

(** The composition never lets through more than either side. *)
Lemma intersect_within a b t :
  allows (intersectPolicies a b) t = true -> coveredBy t a = true /\ coveredBy t b = true.
Proof.
  unfold allows. destruct (axisOf a) as [x|] eqn:Ea, (axisOf b) as [y|] eqn:Eb.
  - destruct (decide (axis_key x = axis_key y)) as [Hk|Hk].
    + assert (x = y) as <- by eauto using axisOf_key_inj.
      axis_cases Ea; exact (allows_intersect_sound _ a b t Ea Eb).
    + unfold intersectPolicies. rewrite Ea, Eb, bool_decide_eq_true_2 by done.
      cbn [default from_option id]. axis_cases Ea;
        match goal with |- context [axis_build ?ax _] => rewrite (coveredBy_build ax) end;
        intros (? & ? & _); set_solver.
  - unfold intersectPolicies. rewrite Ea, Eb. simpl. intros H. split; [done|].
    unfold coveredBy. by rewrite Eb.
  - unfold intersectPolicies. rewrite Ea, Eb. simpl. intros H. split; [|done].
    unfold coveredBy. by rewrite Ea.
  - intros _. unfold coveredBy. by rewrite Ea, Eb.
Qed.

(** Policies on different axes compose to one that reaches nothing. *)
Lemma intersect_axes_differ a b t x y :
  axisOf a = Some x -> axisOf b = Some y -> axis_key x <> axis_key y ->
  allows (intersectPolicies a b) t = false.
Proof.
  intros Ea Eb Hk. unfold allows, intersectPolicies. rewrite Ea, Eb, bool_decide_eq_true_2 by done.
  cbn [default from_option id]. apply not_true_iff_false.
  axis_cases Ea; match goal with |- context [axis_build ?ax _] => rewrite (coveredBy_build ax) end;
    intros (? & ? & _); set_solver.
Qed.

(** C28: composing two session policies never widens either: whatever the
    composed policy lets a credential reach, each side lets it reach, for any
    stored JSON on either side; policies on different axes compose to one that
    reaches nothing; and a side that restricts nothing leaves the other one's
    reach as it is. *)
Theorem intersectPolicies_never_widens a b t :
  (allows (intersectPolicies a b) t = true -> coveredBy t a = true /\ coveredBy t b = true) /\
  (forall x y, axisOf a = Some x -> axisOf b = Some y -> axis_key x <> axis_key y ->
     allows (intersectPolicies a b) t = false) /\
  (axisOf a = None -> allows (intersectPolicies a b) t = coveredBy t b) /\
  (axisOf b = None -> allows (intersectPolicies a b) t = coveredBy t a).
Proof.
  split; [apply intersect_within|]. split; [by apply intersect_axes_differ|].
  unfold allows, intersectPolicies.
  split; intros E; rewrite E; [destruct (axisOf b) eqn:Eb|destruct (axisOf a) eqn:Ea]; cbn; try done.
  - unfold coveredBy. by rewrite Eb.
  - unfold coveredBy. by rewrite Ea.
Qed.

(** The parent links of a drive, which [driveFolders] entries are chains of:
    the chain of an ID, from the top of its drive down to it. *)
Class DriveTree := {
  chainOf : jsstr -> list jsstr;
  chainOf_self x : x ∈ chainOf x;
  chainOf_prefix x y : y ∈ chainOf x -> chainOf y `prefix_of` chainOf x
}.

(** An entry that is a chain of the drive (or names nothing). *)
Definition tree_entry `{DriveTree} (e : jsstr) : Prop :=
  chainIds e = [] \/ exists x, chainIds e = chainOf x.

Lemma driveFolders_nested `{DriveTree} t a b :
  tree_entry t -> tree_entry a -> tree_entry b ->
  inside driveFolders t a -> inside driveFolders t b ->
  inside driveFolders a b \/ inside driveFolders b a.
Proof.
  intros Ht [Ea|[x Ea]] [Eb|[y Eb]] Hta Htb; simpl in *; rewrite ?Ea, ?Eb in *;
    try (by left; set_solver); try (by right; set_solver).
  destruct Ht as [Et|[z Et]]; rewrite Et in *.
  { exfalso. specialize (Hta x (chainOf_self x)). set_solver. }
  pose proof (chainOf_prefix z x (Hta x (chainOf_self x))) as Px.
  pose proof (chainOf_prefix z y (Htb y (chainOf_self y))) as Py.
  destruct (prefix_weak_total _ _ _ Px Py) as [[k ->]|[k ->]]; [right|left];
    intros id; set_solver.
Qed.

Section Exact.
Context (axis : ResourceAxis) `{!AxisLaws axis} (a b : json) (t : jsstr).
Context (Ha : axisOf a = Some axis) (Hb : axisOf b = Some axis).

Lemma allows_intersect_exact :
  (forall x y, x ∈ entries_of a axis -> y ∈ entries_of b axis ->
     inside axis t x -> inside axis t y -> inside axis x y \/ inside axis y x) ->
  allows (intersectPolicies a b) t = coveredBy t a && coveredBy t b.
Proof.
  intros Hn. apply eq_true_iff_eq. rewrite andb_true_iff. split.
  - by apply (allows_intersect_sound axis).
  - rewrite (allows_intersect axis), !(coveredBy_axis axis) by done.
    intros [(x & Hx & Htx) (y & Hy & Hty)]. eapply keptEntries_complete; eauto.
Qed.

Lemma intersectPolicies_comm_axis : intersectPolicies a b = intersectPolicies b a.
Proof.
  rewrite !(intersectPolicies_axis axis) by done. do 2 f_equal.
  apply str_sort_set_eq; [apply js_dedup_NoDup..|].
  intros k. rewrite !js_dedup_elem_of. apply (keptEntries_comm axis).
Qed.

Lemma intersectPolicies_empty_axis :
  exists p, intersectPolicies a b = Some p /\ axisOf p = Some axis /\
    (deniesEverything p = true <->
     (forall e, e ∈ entries_of a axis -> coveredBy e b = false) /\
     (forall e, e ∈ entries_of b axis -> coveredBy e a = false)).
Proof.
  rewrite (intersectPolicies_axis axis) by done. eexists. split; [done|].
  split; [apply axisOf_build|].
  rewrite (deniesEverything_build axis), bool_decide_eq_true.
  unfold coveredBy. rewrite Ha, Hb. fold (entries_of a axis) (entries_of b axis).
  split.
  - intros E.
    assert (forall k, k ∉ keptEntries axis (entries_of a axis) (entries_of b axis)) as Hk.
    { intros k Hk. apply js_dedup_elem_of, str_sort_elem_of in Hk. rewrite E in Hk. set_solver. }
    split; intros e He; apply not_true_iff_false; intros Hc%coveredBy_iff;
      apply (Hk (axis_normalize axis e)); rewrite keptEntries_elem;
      exists e; (split; [done|]); [left|right]; by split.
  - intros [H1 H2]. unfold keptEntries.
    by rewrite (filter_none _ _ H1), (filter_none _ _ H2).
Qed.
End Exact.

(** On one axis the composition is exact: the composed policy covers a
    resource precisely when both sides do. For repositories and folders this
    needs nothing; for Drive it needs the entries to be chains of one drive,
    as the pickers write them. An unrestricted side leaves the other one. *)
Theorem intersectPolicies_exact `{DriveTree} a b t
  (Hsame : forall x y, axisOf a = Some x -> axisOf b = Some y -> axis_key x = axis_key y)
  (Hdrive : axisOf a = Some driveFolders -> axisOf b = Some driveFolders ->
     tree_entry t /\ forall e, e ∈ entries_of a driveFolders ++ entries_of b driveFolders ->
       tree_entry e) :
  allows (intersectPolicies a b) t = coveredBy t a && coveredBy t b.
Proof.
  destruct (axisOf a) as [x|] eqn:Ea, (axisOf b) as [y|] eqn:Eb.
  - assert (x = y) as <- by eauto using axisOf_key_inj.
    axis_cases Ea; apply (allows_intersect_exact _ a b t Ea Eb); intros e f He Hf.
    + apply repositories_nesting.
    + apply folders_nesting.
    + destruct (Hdrive eq_refl eq_refl) as [Ht Hes].
      apply driveFolders_nested; [done|apply Hes; set_solver..].
  - unfold allows, intersectPolicies. rewrite Ea, Eb. cbn [default from_option id].
    unfold coveredBy at 3. by rewrite Eb, andb_true_r.
  - unfold allows, intersectPolicies. rewrite Ea, Eb. cbn [default from_option id].
    unfold coveredBy at 2. by rewrite Ea.
  - unfold allows, intersectPolicies. rewrite Ea, Eb. unfold coveredBy. by rewrite Ea, Eb.
Qed.

(** The composition is symmetric. Swapping the sides gives the same stored
    value, byte for byte; only when the two policies are on different axes do
    the results differ, and then both of them deny everything. *)
Theorem intersectPolicies_symmetric a b :
  intersectPolicies a b = intersectPolicies b a \/
  exists x y p q, axisOf a = Some x /\ axisOf b = Some y /\ axis_key x <> axis_key y /\
    intersectPolicies a b = Some p /\ intersectPolicies b a = Some q /\
    deniesEverything p = true /\ deniesEverything q = true.
Proof.
  destruct (axisOf a) as [x|] eqn:Ea, (axisOf b) as [y|] eqn:Eb.
  - destruct (decide (axis_key x = axis_key y)) as [Hk|Hk].
    + left. assert (x = y) as <- by eauto using axisOf_key_inj.
      axis_cases Ea; exact (intersectPolicies_comm_axis _ a b Ea Eb).
    + right. exists x, y, (axis_build x []), (axis_build y []).
      unfold intersectPolicies. rewrite Ea, Eb, !bool_decide_eq_true_2 by congruence.
      by axis_cases Ea; axis_cases Eb.
  - left. unfold intersectPolicies. by rewrite Ea, Eb.
  - left. unfold intersectPolicies. by rewrite Ea, Eb.
  - left. unfold intersectPolicies. by rewrite Ea, Eb.
Qed.

(** An empty composition is never read as "unrestricted". [null] comes out
    only when neither side restricts anything; two policies on one axis compose
    to a policy on it, which denies everything exactly when no entry of either
    side lies inside the other. *)
Theorem intersectPolicies_empty a b :
  (intersectPolicies a b = None <-> axisOf a = None /\ axisOf b = None) /\
  (forall axis, axisOf a = Some axis -> axisOf b = Some axis ->
     exists p, intersectPolicies a b = Some p /\ axisOf p = Some axis /\
       (deniesEverything p = true <->
        (forall e, e ∈ entries_of a axis -> coveredBy e b = false) /\
        (forall e, e ∈ entries_of b axis -> coveredBy e a = false))).
Proof.
  split.
  - unfold intersectPolicies.
    destruct (axisOf a), (axisOf b); try case_bool_decide; naive_solver.
  - intros axis Ha Hb.
    axis_cases Ha; exact (intersectPolicies_empty_axis _ a b Ha Hb).
Qed.

(** A scope whose write-time check finds no entry outside the boundary is
    inside it: every resource the scope covers, the boundary covers, on any
    axis; and entries the check does report are ones the boundary leaves out
    (all of them when the axes differ). *)
Theorem entriesOutside_sound policy boundary axis
  (Hp : axisOf policy = Some axis) :
  (entriesOutside policy boundary = [] ->
   forall t, coveredBy t policy = true -> coveredBy t boundary = true) /\
  (forall e, e ∈ entriesOutside policy boundary ->
     e ∈ entries_of policy axis /\
     (coveredBy e boundary = false \/
      exists y, axisOf boundary = Some y /\ axis_key y <> axis_key axis)).
Proof.
  unfold entriesOutside. rewrite Hp. destruct (axisOf boundary) as [y|] eqn:Ey.
  2: { split; [|set_solver]. intros _ t _. unfold coveredBy. by rewrite Ey. }
  fold (entries_of policy axis). case_bool_decide as Hk.
  - split.
    + intros E t. unfold coveredBy at 1. rewrite Hp. fold (entries_of policy axis).
      rewrite E. axis_cases Hp; intros (b & Hb & _)%coveredBy_iff; set_solver.
    + eauto.
  - assert (axis = y) as <- by eauto using axisOf_key_inj.
    split.
    + intros E t.
      assert (forall e, e ∈ entries_of policy axis -> coveredBy e boundary = true) as Hall.
      { intros e He. apply not_false_iff_true. intros Hf.
        assert (e ∈ List.filter (fun e => negb (coveredBy e boundary)) (entries_of policy axis))
          as Hin by (rewrite elem_of_lfilter, Hf; auto).
        rewrite E in Hin. set_solver. }
      axis_cases Hp; rewrite (coveredBy_axis _ policy t Hp), (coveredBy_axis _ boundary t Ey);
        intros (e & He & Hte); apply Hall in He; rewrite (coveredBy_axis _ boundary e Ey) in He;
        destruct He as (b & Hb & Heb); exists b; split; eauto using inside_trans.
    + intros e. rewrite elem_of_lfilter, negb_true_iff. intros [He Hc]. auto.
Qed.

Lemma entriesOutside_sound_witness :
  let policy := axis_build folders [js "/clients/acme"] in
  let boundary := axis_build folders [js "/Clients/"] in
  axisOf policy = Some folders /\ entriesOutside policy boundary = [] /\
  coveredBy (js "/clients/acme/x") boundary = true.
Proof.
  intros policy boundary. split; [done|]. split; [by vm_compute|].
  apply (proj1 (entriesOutside_sound policy boundary folders eq_refl)); by vm_compute.
Defined.

Section Canonical.
Context (axis : ResourceAxis) `{!AxisLaws axis} (p : json) (Hp : axisOf p = Some axis).

Lemma canonicalPolicy_axis q :
  canonicalPolicy p = Some q ->
  exists es, rawEntries p axis = Some es /\ es <> [] /\ q = axis_build axis (str_sort es).
Proof.
  unfold canonicalPolicy. rewrite Hp. destruct (rawEntries p axis) as [[|e es]|]; [done| |done].
  intros [= <-]. by exists (e :: es).
Qed.

Lemma canonicalPolicy_build es :
  es <> [] -> canonicalPolicy (axis_build axis es) = Some (axis_build axis (str_sort es)).
Proof.
  unfold canonicalPolicy. rewrite axisOf_build, (rawEntries_build axis). by destruct es.
Qed.

Lemma canonicalPolicy_props q :
  canonicalPolicy p = Some q ->
  axisOf q = Some axis /\ deniesEverything q = false /\
  (forall t, coveredBy t q = coveredBy t p) /\ canonicalPolicy q = Some q.
Proof.
  intros (es & Hes & Hne & ->)%canonicalPolicy_axis.
  assert (str_sort es <> []) as Hs.
  { intros E. apply Hne, Permutation_nil_r. by rewrite <- E, str_sort_Permutation. }
  split_and!.
  - apply axisOf_build.
  - rewrite (deniesEverything_build axis). by apply bool_decide_eq_false.
  - intros t. apply eq_true_iff_eq. rewrite (coveredBy_build axis), (coveredBy_axis axis) by done.
    unfold entries_of. rewrite Hes. simpl. by setoid_rewrite str_sort_elem_of.
  - by rewrite canonicalPolicy_build, str_sort_idem by done.
Qed.
End Canonical.

(** The stored form of a policy is canonical. It stays on the policy's
    axis, covers exactly what the policy covers, is never the deny-all
    sentinel, and is its own canonical form; what has none is exactly what the
    pickers mean by "all" (no axis, no list, or an empty list). *)
Theorem canonicalPolicy_spec p :
  match canonicalPolicy p with
  | Some q =>
      axisOf q = axisOf p /\ deniesEverything q = false /\
      (forall t, coveredBy t q = coveredBy t p) /\ canonicalPolicy q = Some q
  | None =>
      axisOf p = None \/
      exists axis, axisOf p = Some axis /\
        (rawEntries p axis = None \/ deniesEverything p = true)
  end.
Proof.
  destruct (canonicalPolicy p) as [q|] eqn:Ec.
  - destruct (axisOf p) as [axis|] eqn:Hp;
      [|by unfold canonicalPolicy in Ec; rewrite Hp in Ec].
    axis_cases Hp; exact (canonicalPolicy_props _ p Hp q Ec).
  - unfold canonicalPolicy, deniesEverything in *.
    destruct (axisOf p) as [axis|]; [right|by left]. exists axis. split; [done|].
    destruct (rawEntries p axis) as [[|]|]; auto; done.
Qed.

(** The order the entries were picked in does not reach storage. *)
Lemma canonicalPolicy_order axis es es' `{!AxisLaws axis} :
  es ≡ₚ es' ->
  canonicalPolicy (axis_build axis es) = canonicalPolicy (axis_build axis es').
Proof.
  intros HP. destruct (decide (es = [])) as [->|Hne].
  { apply Permutation_nil_l in HP. by subst. }
  rewrite !canonicalPolicy_build; [by rewrite (str_sort_Permutation_eq _ _ HP)|auto..|done].
  intros ->. by apply Permutation_nil_r in HP.
Qed.

(** A value that is no list is read two ways: [canonicalPolicy] and
    [deniesEverything] take it for no restriction, [coveredBy] and a
    composition with another policy for a restriction to nothing. *)
Lemma non_list_axis_value :
  let p := JObj [(js "repositories", JStr (js "org/a"))] in
  let q := axis_build repositories [js "org/a"] in
  canonicalPolicy p = None /\ deniesEverything p = false /\
  coveredBy (js "org/a") p = false /\
  intersectPolicies p JNull = Some p /\
  intersectPolicies p q = Some (axis_build repositories []).
Proof. by vm_compute. Qed.

(** The source's own cases. *)
Module Examples.
Definition repos (es : list jsstr) : json := axis_build repositories es.
Definition dirs (es : list jsstr) : json := axis_build folders es.
Definition drive (es : list jsstr) : json := axis_build driveFolders es.

Example sorted_and_deduped :
  intersectPolicies (repos [js "org/b"; js "org/a"]) (repos [js "ORG/A"; js "org/a"; js "org/c"])
  = Some (repos [js "org/a"]).
Proof. by vm_compute. Qed.

Example deeper_folder :
  intersectPolicies (dirs [js "/clients"]) (dirs [js "/clients/acme"])
  = Some (dirs [js "/clients/acme"]).
Proof. by vm_compute. Qed.

Example segment_boundary :
  coveredBy (js "/clientsfoo") (dirs [js "/clients"]) = false /\
  coveredBy (js "id:abc") (dirs [js "id:abc"]) = false /\
  coveredBy (js "/anything") (dirs [js "/"]) = true.
Proof. by vm_compute. Qed.

Example narrower_chain :
  intersectPolicies (drive [js "A"]) (drive [js "A/B"; js "C"]) = Some (drive [js "A/B"]).
Proof. by vm_compute. Qed.

Example mismatched_axes :
  intersectPolicies (repos [js "org/a"]) (dirs [js "/x"]) = Some (repos []).
Proof. by vm_compute. Qed.
End Examples.

(** ** Witnesses *)

Lemma intersectPolicies_never_widens_witness :
  let a := Examples.dirs [js "/clients"] in
  let b := Examples.dirs [js "/clients/acme"; js "/other"] in
  allows (intersectPolicies a b) (js "/clients/acme/x") = true /\
  coveredBy (js "/clients/acme/x") a = true /\ coveredBy (js "/clients/acme/x") b = true.
Proof.
  intros a b. split; [by vm_compute|].
  apply (proj1 (intersectPolicies_never_widens a b (js "/clients/acme/x"))). by vm_compute.
Defined.

(** A drive where [B] lies in [A] and every other folder is at the top. *)
Definition example_tree : DriveTree.
Proof.
  refine {| chainOf := fun x => if bool_decide (x = js "B") then [js "A"; js "B"] else [x] |}.
  - intros x. case_bool_decide; subst; set_solver.
  - intros x y. case_bool_decide as Hx; case_bool_decide as Hy; subst; [done| |set_solver|].
    + intros [->|[->|[]%not_elem_of_nil]%elem_of_cons]%elem_of_cons; [by exists [js "B"]|done].
    + by intros ->%list_elem_of_singleton.
Defined.

Lemma intersectPolicies_exact_witness :
  let a := Examples.drive [js "A"] in
  let b := Examples.drive [js "A/B"; js "C"] in
  allows (intersectPolicies a b) (js "A/B") = coveredBy (js "A/B") a && coveredBy (js "A/B") b.
Proof.
  intros a b. apply (@intersectPolicies_exact example_tree).
  - intros x y Hx Hy. vm_compute in Hx, Hy. by injection Hx as <-; injection Hy as <-.
  - intros _ _. split.
    + right. exists (js "B"). by vm_compute.
    + assert (entries_of a driveFolders ++ entries_of b driveFolders
              = [js "A"; js "A/B"; js "C"]) as -> by by vm_compute.
      intros e [->|[->|[->|[]%not_elem_of_nil]%elem_of_cons]%elem_of_cons]%elem_of_cons;
        right; [exists (js "A")|exists (js "B")|exists (js "C")]; by vm_compute.
Defined.

Lemma intersectPolicies_empty_witness :
  let a := Examples.repos [js "org/a"] in
  let b := Examples.repos [js "org/z"] in
  axisOf a = Some repositories /\ axisOf b = Some repositories /\
  exists p, intersectPolicies a b = Some p /\ deniesEverything p = true.
Proof.
  intros a b. split; [done|]. split; [done|].
  destruct (proj2 (intersectPolicies_empty a b) repositories eq_refl eq_refl)
    as (p & Hp & _ & Hd).
  exists p. split; [exact Hp|]. apply Hd.
  split; intros e ->%list_elem_of_singleton; by vm_compute.
Defined.
