(* ===== verification/LoadRules.v ===== *)
(** * Rule and principal reads

    [packages/api/src/services/policy-simulate/load-rules.ts] and
    [principal-set.ts]: the rules a reflection reads for the decision and for
    the injection question, and the principals an agent inherits from its
    workspace. A table is the list of its rows, a [findMany] the filter of it
    by its [where] clause, sorted by its [orderBy]. *)
From S2P Require Import Prelude PolicyTypes JsJson PolicyRows Catalog Evaluator.

(** ** Rules *)

(** [PolicyScopeBase]: the two shapes [policyScope] returns. *)
Inductive PolicyScopeBase :=
| OrgBase (organizationId : jsstr)
| WsBase (workspaceId : jsstr).

Definition in_base (base : PolicyScopeBase) (row : RuleRow) : bool :=
  match base with
  | OrgBase id =>
      bool_decide (row_scope row = js "organization") &&
      bool_decide (row_organizationId row = Some id)
  | WsBase id =>
      bool_decide (row_scope row = js "workspace") &&
      bool_decide (row_workspaceId row = Some id)
  end.

(** [_max: { generation: true }]: [None] is [null], no row. *)
Definition max_generation (rows : list RuleRow) : option Z :=
  fold_left (fun m r =>
    match m with None => Some (row_generation r) | Some g => Some (Z.max g (row_generation r)) end)
    rows None.

(** [orderBy: [{ priority: "asc" }, { id: "asc" }]] *)
Definition row_leb (a b : RuleRow) : bool :=
  (row_priority a <? row_priority b)%Z ||
  (row_priority a =? row_priority b)%Z && str_leb (row_id a) (row_id b).

Definition load_where (base : PolicyScopeBase) (status : jsstr) (includeEquipment : bool)
    (generation : option Z) (row : RuleRow) : bool :=
  in_base base row && bool_decide (row_status row = status) && row_enabled row &&
  (if includeEquipment then true else negb (bool_decide (row_source row = js "equipment"))) &&
  match generation with Some g => (row_generation row =? g)%Z | None => true end.

Definition loadRules (table : list RuleRow) (base : PolicyScopeBase) (status : jsstr)
    (includeEquipment : bool) : list RuleRow :=
  let find generation :=
    js_sort row_leb (List.filter (load_where base status includeEquipment generation) table) in
  if bool_decide (status = js "published") then
    match max_generation
            (List.filter (fun r => in_base base r && bool_decide (row_status r = js "published"))
               table) with
    | None => []
    | Some g => find (Some g)
    end
  else find None.

Definition loadRulesForSimulation (table : list RuleRow) (base : PolicyScopeBase)
    (status : jsstr) : list RuleRow := loadRules table base status false.

Definition loadInjectionRules (table : list RuleRow) (base : PolicyScopeBase)
    (status : jsstr) : list RuleRow := loadRules table base status true.

(** ** Principals *)

Record AccessRow := {
  ac_workspaceId : jsstr;
  ac_userId : option jsstr;
  ac_groupId : option jsstr
}.
Record GroupRow := { gr_id : jsstr; gr_organizationId : jsstr }.
Record GroupMemberRow := { gm_groupId : jsstr; gm_userId : jsstr }.
Record OrganizationMemberRow := {
  om_userId : jsstr;
  om_organizationId : jsstr;
  om_status : jsstr
}.

(** The directory tables. *)
Record Directory := {
  dir_access : list AccessRow;
  dir_groups : list GroupRow;
  dir_groupMembers : list GroupMemberRow;
  dir_members : list OrganizationMemberRow
}.

Record PrincipalSet := { userIds : list jsstr; groupIds : list jsstr }.

(** [group: { organizationId }]: the membership's group is the organization's. *)
Definition group_in_org (d : Directory) (organizationId groupId : jsstr) : bool :=
  existsb (fun g => bool_decide (gr_id g = groupId) &&
                    bool_decide (gr_organizationId g = organizationId)) (dir_groups d).

Definition resolvePrincipalSet (d : Directory) (workspaceId organizationId : jsstr)
  : PrincipalSet :=
  let accessRows :=
    List.filter (fun r => bool_decide (ac_workspaceId r = workspaceId)) (dir_access d) in
  let directUserIds := omap (fun r => truthy (ac_userId r)) accessRows in
  let groupCandidates := omap (fun r => truthy (ac_groupId r)) accessRows in
  let directGroups :=
    match groupCandidates with
    | [] => []
    | _ => map gr_id (List.filter (fun g => bool_decide (gr_id g ∈ groupCandidates) &&
             bool_decide (gr_organizationId g = organizationId)) (dir_groups d))
    end in
  let groupMemberUserIds :=
    match directGroups with
    | [] => []
    | _ => map gm_userId (List.filter (fun m => bool_decide (gm_groupId m ∈ directGroups))
             (dir_groupMembers d))
    end in
  let candidateUserIds := js_dedup (directUserIds ++ groupMemberUserIds) in
  let users :=
    match candidateUserIds with
    | [] => []
    | _ => map om_userId (List.filter (fun m => bool_decide (om_userId m ∈ candidateUserIds) &&
             bool_decide (om_organizationId m = organizationId) &&
             negb (bool_decide (om_status m = js "suspended"))) (dir_members d))
    end in
  let userGroupIds :=
    match users with
    | [] => []
    | _ => map gm_groupId (List.filter (fun m => bool_decide (gm_userId m ∈ users) &&
             group_in_org d organizationId (gm_groupId m)) (dir_groupMembers d))
    end in
  {| userIds := users; groupIds := js_dedup (directGroups ++ userGroupIds) |}.

(** ** Properties of the rule reads *)

Lemma row_leb_total a b : row_leb a b = true \/ row_leb b a = true.
Proof.
  unfold row_leb.
  destruct (Z.ltb_spec (row_priority a) (row_priority b)); [by left|].
  destruct (Z.ltb_spec (row_priority b) (row_priority a)); [by right|].
  rewrite !(proj2 (Z.eqb_eq _ _)) by lia. apply str_leb_total.
Qed.

Lemma row_leb_trans a b c : row_leb a b = true -> row_leb b c = true -> row_leb a c = true.
Proof.
  unfold row_leb. rewrite !orb_true_iff, !andb_true_iff, !Z.ltb_lt, !Z.eqb_eq.
  intros [?|[? H1]] [?|[? H2]]; try (left; lia). right. split; [lia|by eapply str_leb_trans].
Qed.

Lemma max_generation_fold rows m :
  fold_left (fun m r =>
    match m with None => Some (row_generation r) | Some g => Some (Z.max g (row_generation r)) end)
    rows m =
  match max_generation rows, m with
  | None, _ => m
  | Some g, None => Some g
  | Some g, Some h => Some (Z.max h g)
  end.
Proof.
  unfold max_generation. revert m. induction rows as [|r rows IH]; intros m; [by destruct m|].
  simpl. rewrite IH, (IH (Some (row_generation r))).
  destruct (fold_left _ rows None), m; simpl; f_equal; lia.
Qed.

Lemma max_generation_cons r rows :
  max_generation (r :: rows) =
  Some (match max_generation rows with
        | None => row_generation r
        | Some g => Z.max (row_generation r) g
        end).
Proof.
  unfold max_generation at 1. simpl. rewrite max_generation_fold.
  by destruct (max_generation rows).
Qed.

Lemma max_generation_spec rows g :
  max_generation rows = Some g <->
  (exists r, r ∈ rows /\ row_generation r = g) /\
  (forall r, r ∈ rows -> (row_generation r <= g)%Z).
Proof.
  revert g. induction rows as [|r rows IH]; intros g.
  { split; [done|]. intros [(r & Hr & _) _]. set_solver. }
  rewrite max_generation_cons. setoid_rewrite elem_of_cons.
  destruct (max_generation rows) as [h|] eqn:E.
  - destruct (proj1 (IH h) eq_refl) as [(r1 & Hr1 & <-) Hmax]. split.
    + intros [= <-]. split; [|intros r' [->|Hr']; [lia|specialize (Hmax _ Hr'); lia]].
      destruct (Z.max_spec (row_generation r) (row_generation r1)) as [[_ ->]|[_ ->]]; eauto.
    + intros [(r' & [->|Hr'] & <-) Hle]; f_equal.
      * specialize (Hle r1 (or_intror Hr1)). lia.
      * specialize (Hmax _ Hr'). pose proof (Hle r1 (or_intror Hr1)).
        pose proof (Hle r (or_introl eq_refl)). lia.
  - destruct rows as [|r1 rows]; [|by rewrite max_generation_cons in E].
    split; [intros [= <-]|].
    + split; [eauto|]. intros r' [->|Hr']; [lia|set_solver].
    + intros [(r' & [->|Hr'] & <-) _]; [done|set_solver].
Qed.

Definition published_in (base : PolicyScopeBase) (r : RuleRow) : bool :=
  in_base base r && bool_decide (row_status r = js "published").

Lemma loadRules_elem table base st eq r :
  r ∈ loadRules table base st eq <->
  exists g, (st <> js "published" /\ g = None \/
             st = js "published" /\ exists k, g = Some k /\
               max_generation (List.filter (published_in base) table) = Some k) /\
    r ∈ table /\ load_where base st eq g r = true.
Proof.
  unfold loadRules. fold (published_in base). case_bool_decide as Hst.
  - destruct (max_generation _) as [g|] eqn:E.
    + rewrite js_sort_elem_of, elem_of_lfilter. split.
      * intros []. eauto 10.
      * intros (g' & [[? _]|(_ & k & -> & [= <-])] & ?); done.
    + split; [set_solver|]. intros (g' & [[? _]|(_ & k & -> & [=])] & ?). done.
  - rewrite js_sort_elem_of, elem_of_lfilter. split.
    + intros []. exists None. auto.
    + intros (g' & [[_ ->]|[? _]] & ?); done.
Qed.

Lemma load_where_iff base st eq g r :
  load_where base st eq g r = true <->
  in_base base r = true /\ row_status r = st /\ row_enabled r = true /\
  (eq = true \/ row_source r <> js "equipment") /\
  match g with Some g => row_generation r = g | None => True end.
Proof.
  unfold load_where. rewrite !andb_true_iff, bool_decide_eq_true.
  assert ((if eq then true else negb (bool_decide (row_source r = js "equipment"))) = true
          <-> eq = true \/ row_source r <> js "equipment") as ->.
  { destruct eq; [naive_solver|]. rewrite negb_true_iff, bool_decide_eq_false. naive_solver. }
  destruct g; [rewrite Z.eqb_eq|]; naive_solver.
Qed.

(** A rule read returns exactly the level's enabled rules of the asked
    status, pinned, when published, to the newest generation the level has
    published, without the equipment rules unless it is the injection read; it
    is ordered by priority, and the decision read is the injection read with
    its equipment rules dropped. *)
Theorem loadRules_spec table base st :
  (forall eq r, r ∈ loadRules table base st eq <->
     r ∈ table /\ in_base base r = true /\ row_status r = st /\ row_enabled r = true /\
     (eq = true \/ row_source r <> js "equipment") /\
     (st = js "published" -> forall r', r' ∈ table -> published_in base r' = true ->
        (row_generation r' <= row_generation r)%Z)) /\
  (forall eq, StronglySorted row_leb (loadRules table base st eq)) /\
  loadRulesForSimulation table base st =
  List.filter (fun r => negb (bool_decide (row_source r = js "equipment")))
    (loadInjectionRules table base st).
Proof.
  split_and!.
  - intros eq r. rewrite loadRules_elem. setoid_rewrite load_where_iff. split.
    + intros (g & Hg & Hr & Hb & Hs & He & Hq & Hgen). split_and!; try done.
      intros -> r' Hr' Hp. destruct Hg as [[? _]|(_ & k & -> & Hm)]; [done|].
      apply max_generation_spec in Hm as [_ Hm]. subst k.
      apply Hm. by rewrite elem_of_lfilter.
    + intros (Hr & Hb & Hs & He & Hq & Hgen).
      destruct (decide (st = js "published")) as [E|E].
      * exists (Some (row_generation r)). split; [right; split; [done|]|].
        -- exists (row_generation r). split; [done|]. apply max_generation_spec. split.
           ++ exists r. split; [|done]. rewrite elem_of_lfilter. split; [done|].
              unfold published_in. rewrite Hb, Hs, E. by apply bool_decide_eq_true.
           ++ intros r'. rewrite elem_of_lfilter. intros [Hr' Hp]. by apply Hgen.
        -- by split_and!.
      * exists None. split; [by left|]. by split_and!.
  - intros eq. unfold loadRules. case_bool_decide; [destruct (max_generation _)|];
      try apply js_sort_sorted; eauto using row_leb_total, row_leb_trans; constructor.
  - unfold loadRulesForSimulation, loadInjectionRules, loadRules.
    assert (forall g l,
      List.filter (load_where base st false g) l =
      List.filter (fun r => negb (bool_decide (row_source r = js "equipment")))
        (List.filter (load_where base st true g) l)) as Hf.
    { intros g l. rewrite filter_filter_comp. apply filter_ext. intros r. unfold load_where.
      destruct (in_base base r), (bool_decide (row_status r = st)), (row_enabled r); simpl; try done.
      by rewrite andb_comm. }
    case_bool_decide; [destruct (max_generation _); [|done]|];
      by rewrite Hf, (js_sort_filter _ row_leb_total row_leb_trans).
Qed.

(** ** Properties of the principal set *)

Section Principals.
Context (d : Directory) (workspaceId organizationId : jsstr).

(** The workspace grants the user access, by name. *)
Definition direct_user (u : jsstr) : Prop :=
  u <> [] /\ exists r, r ∈ dir_access d /\ ac_workspaceId r = workspaceId /\ ac_userId r = Some u.

(** The workspace grants the group access, and the group is the
    organization's. *)
Definition granted_group (g : jsstr) : Prop :=
  g <> [] /\ (exists r, r ∈ dir_access d /\ ac_workspaceId r = workspaceId /\ ac_groupId r = Some g)
  /\ group_in_org d organizationId g = true.

Definition group_member (g u : jsstr) : Prop :=
  exists m, m ∈ dir_groupMembers d /\ gm_groupId m = g /\ gm_userId m = u.

(** A member of the organization that is not suspended. *)
Definition active_member (u : jsstr) : Prop :=
  exists m, m ∈ dir_members d /\ om_userId m = u /\ om_organizationId m = organizationId /\
    om_status m <> js "suspended".

Lemma group_in_org_iff g :
  group_in_org d organizationId g = true <->
  exists r, r ∈ dir_groups d /\ gr_id r = g /\ gr_organizationId r = organizationId.
Proof.
  unfold group_in_org. rewrite existsb_In. setoid_rewrite andb_true_iff.
  by setoid_rewrite bool_decide_eq_true.
Qed.

(** A guarded query: [ids.length ? query : []]. *)
Lemma elem_of_guarded {A B} (ids : list A) (q : list B) x :
  (x ∈ q -> ids <> []) -> x ∈ match ids with [] => [] | _ => q end <-> x ∈ q.
Proof. destruct ids; [|done]. intros H. split; [set_solver|]. intros Hx. by destruct (H Hx). Qed.

(** A row of a filtered table satisfies the test of its [where]. *)
Ltac query_spec :=
  setoid_rewrite elem_of_lfilter; repeat setoid_rewrite andb_true_iff;
  try setoid_rewrite bool_decide_eq_true.
(** A query by ids finds nothing without ids. *)
Ltac no_candidates :=
  let H := fresh "H" in let E := fresh "E" in
  intros H E; setoid_rewrite E in H; naive_solver set_solver.

(** The principals an agent is matched against. A user is one exactly when
    it is an active member of the organization that the workspace names or
    that is a member of a group of the organization the workspace names; a
    group, when the workspace names it, or one of those users belongs to it,
    and it is the organization's. Suspended members and other organizations'
    groups never come in. *)
Theorem resolvePrincipalSet_spec :
  let p := resolvePrincipalSet d workspaceId organizationId in
  (forall u, u ∈ userIds p <->
     active_member u /\ (direct_user u \/ exists g, granted_group g /\ group_member g u)) /\
  (forall g, g ∈ groupIds p <->
     granted_group g \/
     group_in_org d organizationId g = true /\ exists u, u ∈ userIds p /\ group_member g u).
Proof.
  cbn zeta. unfold resolvePrincipalSet.
  set (access := List.filter _ (dir_access d)).
  set (gc := omap (fun r => truthy (ac_groupId r)) access).
  set (du := omap (fun r => truthy (ac_userId r)) access).
  set (dg := match gc with [] => [] | _ => _ end).
  set (mu := match dg with [] => [] | _ => _ end).
  set (cu := js_dedup (du ++ mu)).
  set (us := match cu with [] => [] | _ => _ end).
  set (ug := match us with [] => [] | _ => _ end). simpl.
  assert (forall u, u ∈ du <-> direct_user u) as Hdu.
  { intros u. unfold du, access, direct_user. rewrite list_elem_of_omap.
    setoid_rewrite truthy_Some. query_spec. naive_solver. }
  assert (forall g, g ∈ gc <-> g <> [] /\
    exists r, r ∈ dir_access d /\ ac_workspaceId r = workspaceId /\ ac_groupId r = Some g) as Hgc.
  { intros g. unfold gc, access. rewrite list_elem_of_omap.
    setoid_rewrite truthy_Some. query_spec. naive_solver. }
  assert (forall g, g ∈ dg <-> granted_group g) as Hdg.
  { intros g. unfold dg, granted_group. rewrite elem_of_guarded, elem_of_lmap, group_in_org_iff.
    - query_spec. setoid_rewrite Hgc. naive_solver.
    - rewrite elem_of_lmap. query_spec. no_candidates. }
  assert (forall u, u ∈ mu <-> exists g, granted_group g /\ group_member g u) as Hmu.
  { intros u. unfold mu, group_member. rewrite elem_of_guarded, elem_of_lmap.
    - query_spec. setoid_rewrite Hdg. naive_solver.
    - rewrite elem_of_lmap. query_spec. no_candidates. }
  assert (forall u, u ∈ cu <-> direct_user u \/ exists g, granted_group g /\ group_member g u)
    as Hcu.
  { intros u. unfold cu. by rewrite js_dedup_elem_of, elem_of_app, Hdu, Hmu. }
  split.
  - intros u. unfold us, active_member. rewrite elem_of_guarded, elem_of_lmap.
    + query_spec. setoid_rewrite negb_true_iff. setoid_rewrite bool_decide_eq_false.
      setoid_rewrite Hcu. naive_solver.
    + rewrite elem_of_lmap. query_spec. no_candidates.
  - intros g. rewrite js_dedup_elem_of, elem_of_app, Hdg. apply or_iff_compat_l.
    unfold ug, group_member. rewrite elem_of_guarded, elem_of_lmap.
    + query_spec. naive_solver.
    + rewrite elem_of_lmap. query_spec. no_candidates.
Qed.
End Principals.

(** ** Equipment rules never decide *)

Section Decide.
Context (reg : Registry) `{JsCase}.

Lemma outcome_rule_in rules rq r :
  evaluatePolicyOutcome reg rules rq = OutRule r ->
  r ∈ rules /\ rl_isDefault r = false /\ ruleMatches reg r rq = true.
Proof.
  rewrite evaluate_levels. unfold combine_levels.
  assert (forall s r, level_verdict reg rules rq s = LvRule r ->
            r ∈ rules /\ rl_isDefault r = false /\ ruleMatches reg r rq = true) as Hl.
  { intros s r' [l1 x l2 He Hm _ _]%level_verdict_rule. split; [set_solver|]. split; [|done].
    unfold is_explicit_of in He. by to_prop. }
  destruct (_ <? _)%nat; destruct (level_verdict _ _ _ _) eqn:E; intros [= <-]; eauto.
Qed.

Lemma source_of_equipment s : source_of s = src_equipment <-> s = js "equipment".
Proof.
  unfold source_of. split; [|by intros ->].
  repeat case_bool_decide; try done.
Qed.

(** A rule that decides a request over the decision read is one of the
    published, enabled rows of its level, at the newest generation, and never
    an equipment row: what injects a credential cannot permit its host. *)
Theorem decision_never_equipment table base sh cp rq r
  (Hr : evaluatePolicyOutcome reg
          (map sim_rule (map (toSimRule sh cp)
             (loadRulesForSimulation table base (js "published")))) rq = OutRule r) :
  rl_source r <> src_equipment /\
  exists row, row ∈ table /\ r = sim_rule (toSimRule sh cp row) /\
    published_in base row = true /\ row_enabled row = true /\
    forall row', row' ∈ table -> published_in base row' = true ->
      (row_generation row' <= row_generation row)%Z.
Proof.
  apply outcome_rule_in in Hr as (Hin & _ & _). rewrite map_map in Hin.
  apply elem_of_lmap in Hin as (row & -> & Hrow).
  unfold loadRulesForSimulation in Hrow.
  apply (proj1 (loadRules_spec table base (js "published"))) in Hrow
    as (Hrow & Hb & Hs & He & Hq & Hg).
  split.
  - simpl. rewrite source_of_equipment. by destruct Hq.
  - exists row. split_and!; try done; [|by apply Hg].
    unfold published_in. rewrite Hb, Hs. by rewrite bool_decide_eq_true_2.
Qed.
End Decide.

(** ** Concrete rows *)
Module Rows.
Definition target (kind : jsstr) : TargetRow :=
  {| tr_kind := kind; tr_appProvider := None; tr_appTools := []; tr_appConnectionScope := None;
     tr_appConnectionId := None; tr_secretId := None; tr_secretScope := None;
     tr_hostPattern := None; tr_pathPattern := None; tr_method := None |}.

Definition host_target (host : jsstr) : TargetRow :=
  {| tr_kind := js "network"; tr_appProvider := None; tr_appTools := [];
     tr_appConnectionScope := None; tr_appConnectionId := None; tr_secretId := None;
     tr_secretScope := None; tr_hostPattern := Some host; tr_pathPattern := None;
     tr_method := None |}.

Definition connection_target (id : jsstr) : TargetRow :=
  {| tr_kind := js "connection"; tr_appProvider := None; tr_appTools := [];
     tr_appConnectionScope := None; tr_appConnectionId := Some id; tr_secretId := None;
     tr_secretScope := None; tr_hostPattern := None; tr_pathPattern := None;
     tr_method := None |}.

Definition agent (id : jsstr) : IdentityRow :=
  {| ir_agentId := Some id; ir_userId := None; ir_groupId := None |}.

(** A published rule of workspace [ws] or organization [org]. *)
Definition rule (base : PolicyScopeBase) (id : jsstr) (generation : Z) (source action : jsstr)
    (conditions : json) (identities : list IdentityRow) (targets : list TargetRow) : RuleRow :=
  {| row_id := id;
     row_scope := match base with OrgBase _ => js "organization" | WsBase _ => js "workspace" end;
     row_organizationId := match base with OrgBase o => Some o | WsBase _ => None end;
     row_workspaceId := match base with OrgBase _ => None | WsBase w => Some w end;
     row_status := js "published"; row_generation := generation; row_priority := 1;
     row_enabled := true; row_isDefault := false; row_logicalId := id; row_source := source;
     row_name := id; row_action := action; row_rateLimit := None; row_rateLimitWindow := None;
     row_requireApproval := false; row_conditions := conditions;
     row_identities := identities; row_targets := targets |}.

Definition no_secrets : SecretHostSet :=
  {| shs_byId := ∅; shs_workspaceHosts := []; shs_orgHosts := [] |}.

Definition request (host : jsstr) : PolicyRequest :=
  {| rq_host := host; rq_path := js "/"; rq_method := js "GET"; rq_body := None;
     rq_agentId := js "a1"; rq_userIds := None; rq_groupIds := None; rq_hasInjections := true;
     rq_isLlmHost := false; rq_winningConnectionId := None |}.

(** An old generation, the equipment row and the grant of the newest one. *)
Definition table : list RuleRow :=
  let ws := WsBase (js "ws") in
  [rule ws (js "r0") 1 (js "custom") (js "block") JNull [] [host_target (js "api.test")];
   rule ws (js "r1") 2 (js "equipment") (js "allow") JNull [agent (js "a1")]
     [host_target (js "api.test")];
   rule ws (js "r2") 2 (js "custom") (js "allow") JNull [] [host_target (js "*.test")]].
End Rows.

Lemma decision_never_equipment_witness :
  let ws := WsBase (js "ws") in
  let rules := map sim_rule (map (toSimRule Rows.no_secrets ∅)
                 (loadRulesForSimulation Rows.table ws (js "published"))) in
  map row_id (loadInjectionRules Rows.table ws (js "published")) = [js "r1"; js "r2"] /\
  exists r, @evaluatePolicyOutcome ∅ ascii_case rules (Rows.request (js "api.test")) = OutRule r /\
    rl_name r = js "r2" /\ rl_source r <> src_equipment.
Proof.
  intros ws rules. split; [by vm_compute|]. eexists. split; [vm_compute; reflexivity|].
  split; [done|].
  apply (@decision_never_equipment ∅ ascii_case Rows.table ws Rows.no_secrets ∅
           (Rows.request (js "api.test"))).
  vm_compute. reflexivity.
Defined.
