(* ===== verification/Injection.v ===== *)
(** * The injection law and the resource boundary

    [packages/api/src/services/policy-reflect/injection.ts]: which credentials
    a selective agent's published rules hand it, as ids, levels and a host
    predicate. [packages/api/src/services/policy-reflect/org-resource-boundary.ts]:
    how far an injected connection credential reaches. An agent record is used
    through its id only. *)
From S2P Require Import Prelude PathMatch PolicyTypes JsJson PolicyRows Catalog Evaluator.
From S2P Require Import LoadRules ResourceAxis.

(** [ids.add(x)] on a [Set], in insertion order. *)
Definition set_add (x : jsstr) (s : list jsstr) : list jsstr :=
  if bool_decide (x ∈ s) then s else s ++ [x].

(** One identity row against the agent and its principals. *)
Definition principalMatches (i : IdentityRow) (agentId : jsstr) (principals : PrincipalSet)
  : bool :=
  match ir_agentId i, ir_userId i, ir_groupId i with
  | Some id, _, _ => bool_decide (id = agentId)
  | None, Some id, _ => bool_decide (id ∈ userIds principals)
  | None, None, Some id => bool_decide (id ∈ groupIds principals)
  | None, None, None => false
  end.

Definition injectionIdentityMatches (identities : list IdentityRow) (agentId : jsstr)
    (principals : PrincipalSet) : bool :=
  (0 <? length identities)%nat &&
  existsb (fun i => principalMatches i agentId principals) identities.

(** [row.isDefault || row.action !== "allow"]: the rows every loop skips. *)
Definition skipped (row : RuleRow) : bool :=
  row_isDefault row || negb (bool_decide (row_action row = js "allow")).

Definition injectingTargets (rules : list RuleRow) (agentId : jsstr)
    (principals : PrincipalSet) : list TargetRow :=
  flat_map (fun row =>
    if skipped row then []
    else if negb (injectionIdentityMatches (row_identities row) agentId principals) then []
    else row_targets row) rules.

(** ** The selections *)

Record SecretSelection := {
  ss_ids : list jsstr;
  ss_workspace : bool;
  ss_organization : bool
}.

Definition addSecretTarget (s : SecretSelection) (t : TargetRow) : SecretSelection :=
  if negb (bool_decide (tr_kind t = js "secret")) then s
  else match truthy (tr_secretId t) with
  | Some id => {| ss_ids := set_add id (ss_ids s); ss_workspace := ss_workspace s;
                  ss_organization := ss_organization s |}
  | None =>
      if bool_decide (tr_secretScope t = Some (js "workspace")) then
        {| ss_ids := ss_ids s; ss_workspace := true; ss_organization := ss_organization s |}
      else if bool_decide (tr_secretScope t = Some (js "organization")) then
        {| ss_ids := ss_ids s; ss_workspace := ss_workspace s; ss_organization := true |}
      else s
  end.

Definition grantedSecretSelection (rules : list RuleRow) (agentId : jsstr)
    (principals : PrincipalSet) : SecretSelection :=
  fold_left addSecretTarget (injectingTargets rules agentId principals)
    {| ss_ids := []; ss_workspace := false; ss_organization := false |}.

Definition level_name (s : Scope) : jsstr :=
  match s with organization => js "organization" | workspace => js "workspace" end.

Definition providerLevelKey (provider : jsstr) (level : Scope) : jsstr :=
  provider ++ [ch_nl] ++ level_name level.

Record ConnectionSelection := {
  cs_ids : list jsstr;
  cs_providerLevels : list jsstr
}.

Definition addConnectionTarget (s : ConnectionSelection) (t : TargetRow) : ConnectionSelection :=
  if bool_decide (tr_kind t = js "connection") then
    match truthy (tr_appConnectionId t) with
    | Some id => {| cs_ids := set_add id (cs_ids s); cs_providerLevels := cs_providerLevels s |}
    | None => s
    end
  else if bool_decide (tr_kind t = js "app") then
    match truthy (tr_appProvider t), scope_of (tr_appConnectionScope t) with
    | Some provider, Some level =>
        {| cs_ids := cs_ids s;
           cs_providerLevels := set_add (providerLevelKey provider level) (cs_providerLevels s) |}
    | _, _ => s
    end
  else s.

Definition grantedConnectionSelection (rules : list RuleRow) (agentId : jsstr)
    (principals : PrincipalSet) : ConnectionSelection :=
  fold_left addConnectionTarget (injectingTargets rules agentId principals)
    {| cs_ids := []; cs_providerLevels := [] |}.

(** ** The probe *)

Section Probe.
Context (reg : Registry).

Record ProbeParams := {
  pp_agent : option jsstr;
  pp_poolSecretHostPatterns : list jsstr;
  pp_poolProviders : list jsstr;
  pp_rules : list RuleRow;
  pp_principals : PrincipalSet;
  pp_secretHosts : SecretHostSet;
  pp_connectionProviders : gmap jsstr jsstr
}.

Record ProbeState := { secretPatterns : list jsstr; providers : list jsstr }.

Definition push_patterns (ps : list jsstr) (s : ProbeState) : ProbeState :=
  {| secretPatterns := secretPatterns s ++ ps; providers := providers s |}.
Definition add_provider (p : jsstr) (s : ProbeState) : ProbeState :=
  {| secretPatterns := secretPatterns s; providers := set_add p (providers s) |}.

Definition probeTarget (params : ProbeParams) (s : ProbeState) (t : TargetRow) : ProbeState :=
  let secretHosts := pp_secretHosts params in
  if bool_decide (tr_kind t = js "secret") then
    match truthy (tr_secretId t) with
    | Some id =>
        match shs_byId secretHosts !! id with
        | Some host => push_patterns [host] s
        | None => s
        end
    | None =>
        if bool_decide (tr_secretScope t = Some (js "workspace"))
        then push_patterns (shs_workspaceHosts secretHosts) s
        else if bool_decide (tr_secretScope t = Some (js "organization"))
        then push_patterns (shs_orgHosts secretHosts) s
        else s
    end
  else if bool_decide (tr_kind t = js "connection") then
    match truthy (tr_appConnectionId t) with
    | Some id =>
        match pp_connectionProviders params !! id with
        | Some provider => add_provider provider s
        | None => s
        end
    | None => s
    end
  else if bool_decide (tr_kind t = js "app") then
    match truthy (tr_appProvider t), scope_of (tr_appConnectionScope t) with
    | Some provider, Some _ => add_provider provider s
    | _, _ => s
    end
  else s.

Definition probeRow (params : ProbeParams) (agentId : jsstr) (s : ProbeState) (row : RuleRow)
  : ProbeState :=
  if skipped row then s
  else if negb (injectionIdentityMatches (row_identities row) agentId (pp_principals params))
  then s
  else fold_left (probeTarget params) (row_targets row) s.

Definition buildInjectionProbe (params : ProbeParams) (host : jsstr) : bool :=
  let s0 := {| secretPatterns := pp_poolSecretHostPatterns params;
               providers := js_dedup (pp_poolProviders params) |} in
  let s := match pp_agent params with
           | Some agentId => fold_left (probeRow params agentId) (pp_rules params) s0
           | None => s0
           end in
  existsb (fun p => hostMatches host p) (secretPatterns s) ||
  existsb (fun p => providerHostMatches reg host p) (providers s).
End Probe.

(** ** The resource boundary *)

Definition boundaryIdentityMatches (identities : list IdentityRow) (agentId : jsstr)
    (principals : PrincipalSet) : bool :=
  (length identities =? 0)%nat ||
  existsb (fun i => principalMatches i agentId principals) identities.

(** A connection target naming the connection. *)
Definition names_connection (connectionId : jsstr) (row : RuleRow) : bool :=
  existsb (fun t => bool_decide (tr_kind t = js "connection") &&
                    bool_decide (tr_appConnectionId t = Some connectionId)) (row_targets row).

(** The loop's variable is [unknown]; [JNull] is its initial [null]. *)
Definition foldSessionPolicy (rows : list RuleRow) (connectionId : jsstr)
    (identityMatches : list IdentityRow -> bool) : option json :=
  let policy :=
    fold_left (fun policy row =>
      if skipped row then policy
      else if negb (identityMatches (row_identities row)) then policy
      else if negb (names_connection connectionId row) then policy
      else row_conditions row) rows JNull in
  if isSessionPolicy policy then Some policy else None.

Definition boundaryStep (agentId : jsstr) (principals : PrincipalSet) (connectionId : jsstr)
    (boundary : option json) (row : RuleRow) : option json :=
  if skipped row then boundary
  else if negb (boundaryIdentityMatches (row_identities row) agentId principals) then boundary
  else if negb (isSessionPolicy (row_conditions row)) then boundary
  else if negb (names_connection connectionId row) then boundary
  else match boundary with
       | None => Some (row_conditions row)
       | Some b => intersectPolicies b (row_conditions row)
       end.

Definition orgResourceBoundary (orgInjectionRows : list RuleRow) (agentId : jsstr)
    (principals : PrincipalSet) (connectionId : jsstr) : option json :=
  fold_left (boundaryStep agentId principals connectionId) orgInjectionRows None.

Definition workspaceResourceSelection (workspaceInjectionRows : list RuleRow)
    (agentId : jsstr) (principals : PrincipalSet) (connectionId : jsstr) : option json :=
  foldSessionPolicy workspaceInjectionRows connectionId
    (fun identities => injectionIdentityMatches identities agentId principals).

(** [resourceScopes] of [effective-tools.ts], for a basis. *)
Definition effectiveResources (orgInjectRows workspaceInjectRows : list RuleRow)
    (agentId : jsstr) (principals : PrincipalSet) (connectionId : jsstr)
  : option json * option json :=
  let orgResources := orgResourceBoundary orgInjectRows agentId principals connectionId in
  let workspaceResources :=
    workspaceResourceSelection workspaceInjectRows agentId principals connectionId in
  (orgResources,
   intersectPolicies (default JNull orgResources) (default JNull workspaceResources)).

(** ** Properties of the injection law *)

Lemma set_add_elem x y s : x ∈ set_add y s <-> x ∈ s \/ x = y.
Proof. unfold set_add. case_bool_decide; set_solver. Qed.

Lemma principals_explicit identities a pr :
  injectionIdentityMatches identities a pr = true <->
  exists i, i ∈ identities /\ principalMatches i a pr = true.
Proof. unfold injectionIdentityMatches. by rewrite existsb_nonempty, existsb_In. Qed.

Lemma skipped_false row :
  skipped row = false <-> row_isDefault row = false /\ row_action row = js "allow".
Proof.
  unfold skipped. rewrite orb_false_iff, negb_false_iff, bool_decide_eq_true. done.
Qed.

(** A rule that hands this agent its targets' credentials. *)
Definition injecting (row : RuleRow) (a : jsstr) (pr : PrincipalSet) : Prop :=
  row_isDefault row = false /\ row_action row = js "allow" /\
  exists i, i ∈ row_identities row /\ principalMatches i a pr = true.

Lemma injectingTargets_elem rules a pr t :
  t ∈ injectingTargets rules a pr <->
  exists row, row ∈ rules /\ injecting row a pr /\ t ∈ row_targets row.
Proof.
  unfold injectingTargets, injecting. rewrite list_elem_of_In, in_flat_map.
  setoid_rewrite <- list_elem_of_In. apply exist_proper. intros row. apply and_iff_compat_l.
  rewrite <- principals_explicit. pose proof (skipped_false row) as Hs.
  destruct (skipped row); [split; [set_solver|naive_solver]|].
  destruct (injectionIdentityMatches _ a pr); simpl; [naive_solver|].
  split; [set_solver|naive_solver].
Qed.

Lemma providerLevelKey_inj p l p' l' :
  providerLevelKey p l = providerLevelKey p' l' -> p = p' /\ l = l'.
Proof.
  unfold providerLevelKey. intros E. apply split_last_inj in E as [-> E].
  - split; [done|]. by destruct l, l'.
  - destruct l; vm_compute; set_solver.
  - destruct l'; vm_compute; set_solver.
Qed.

Lemma scope_of_Some o s : scope_of o = Some s <-> o = Some (level_name s).
Proof.
  unfold scope_of. split.
  - by repeat case_bool_decide; intros [= <-].
  - by destruct s; intros ->.
Qed.

Section SelectionLemmas.
Context (rules : list RuleRow) (a : jsstr) (pr : PrincipalSet).

(** The ids and levels a secret or connection target selects. *)
Definition secret_id_of (t : TargetRow) : list jsstr :=
  if bool_decide (tr_kind t = js "secret") then option_list (truthy (tr_secretId t)) else [].
Definition secret_level_of (t : TargetRow) : list Scope :=
  if bool_decide (tr_kind t = js "secret") && is_none (truthy (tr_secretId t))
  then option_list (scope_of (tr_secretScope t)) else [].
Definition connection_id_of (t : TargetRow) : list jsstr :=
  if bool_decide (tr_kind t = js "connection")
  then option_list (truthy (tr_appConnectionId t)) else [].
Definition provider_level_of (t : TargetRow) : list (jsstr * Scope) :=
  if bool_decide (tr_kind t = js "app") then
    match truthy (tr_appProvider t), scope_of (tr_appConnectionScope t) with
    | Some p, Some s => [(p, s)]
    | _, _ => []
    end
  else [].

Definition ss_levels (s : SecretSelection) : list Scope :=
  (if ss_workspace s then [workspace] else []) ++
  (if ss_organization s then [organization] else []).

Lemma secret_ids_elem id :
  id ∈ ss_ids (grantedSecretSelection rules a pr) <->
  exists t, t ∈ injectingTargets rules a pr /\ id ∈ secret_id_of t.
Proof.
  unfold grantedSecretSelection. rewrite (fold_left_elem _ ss_ids secret_id_of).
  - simpl. set_solver.
  - intros s t x. unfold addSecretTarget, secret_id_of.
    case_bool_decide; simpl; [|set_solver].
    destruct (truthy (tr_secretId t)); simpl; [rewrite set_add_elem; set_solver|].
    repeat case_bool_decide; simpl; set_solver.
Qed.

Lemma secret_levels_elem s :
  s ∈ ss_levels (grantedSecretSelection rules a pr) <->
  exists t, t ∈ injectingTargets rules a pr /\ s ∈ secret_level_of t.
Proof.
  unfold grantedSecretSelection. rewrite (fold_left_elem _ ss_levels secret_level_of).
  - simpl. set_solver.
  - intros st t x. unfold addSecretTarget, secret_level_of, ss_levels, scope_of.
    case_bool_decide; simpl; [|set_solver].
    destruct (truthy (tr_secretId t)); simpl; [set_solver|].
    repeat case_bool_decide; simpl; try congruence;
      destruct (ss_workspace st), (ss_organization st); set_solver.
Qed.

Lemma connection_ids_elem id :
  id ∈ cs_ids (grantedConnectionSelection rules a pr) <->
  exists t, t ∈ injectingTargets rules a pr /\ id ∈ connection_id_of t.
Proof.
  unfold grantedConnectionSelection. rewrite (fold_left_elem _ cs_ids connection_id_of).
  - simpl. set_solver.
  - intros s t x. unfold addConnectionTarget, connection_id_of.
    case_bool_decide; simpl.
    + destruct (truthy (tr_appConnectionId t)); simpl; [rewrite set_add_elem|]; set_solver.
    + case_bool_decide; [|set_solver].
      destruct (truthy (tr_appProvider t)), (scope_of (tr_appConnectionScope t)); simpl; set_solver.
Qed.

Lemma provider_levels_elem p s :
  providerLevelKey p s ∈ cs_providerLevels (grantedConnectionSelection rules a pr) <->
  exists t, t ∈ injectingTargets rules a pr /\ (p, s) ∈ provider_level_of t.
Proof.
  unfold grantedConnectionSelection.
  rewrite (fold_left_elem _ cs_providerLevels
             (fun t => map (fun q => providerLevelKey q.1 q.2) (provider_level_of t))).
  - simpl. split.
    + intros [[]%not_elem_of_nil|(t & Ht & ([p' s'] & E & Hin)%elem_of_lmap)].
      apply providerLevelKey_inj in E as [-> ->]. eauto.
    + intros (t & Ht & Hin). right. exists t. split; [done|]. apply elem_of_lmap. by exists (p, s).
  - intros st t x. unfold addConnectionTarget, provider_level_of.
    destruct (decide (tr_kind t = js "connection")) as [E|E].
    + rewrite E. simpl. destruct (truthy (tr_appConnectionId t)); simpl; set_solver.
    + rewrite bool_decide_eq_false_2 by done. case_bool_decide; [|set_solver].
      destruct (truthy (tr_appProvider t)), (scope_of (tr_appConnectionScope t)); simpl; rewrite ?set_add_elem; set_solver.
Qed.

Lemma ss_workspace_iff :
  ss_workspace (grantedSecretSelection rules a pr) = true <->
  exists t, t ∈ injectingTargets rules a pr /\ workspace ∈ secret_level_of t.
Proof.
  rewrite <- secret_levels_elem. unfold ss_levels.
  destruct (ss_workspace _), (ss_organization _); set_solver.
Qed.

Lemma ss_organization_iff :
  ss_organization (grantedSecretSelection rules a pr) = true <->
  exists t, t ∈ injectingTargets rules a pr /\ organization ∈ secret_level_of t.
Proof.
  rewrite <- secret_levels_elem. unfold ss_levels.
  destruct (ss_workspace _), (ss_organization _); set_solver.
Qed.
End SelectionLemmas.

Section ProbeLemmas.
Context (reg : Registry) (params : ProbeParams).

(** The host patterns and the providers a target adds to the probe. *)
Definition patterns_of (t : TargetRow) : list jsstr :=
  if bool_decide (tr_kind t = js "secret") then secretTargetHosts (pp_secretHosts params) t
  else [].
Definition providers_of (t : TargetRow) : list jsstr :=
  flat_map (fun id => option_list (pp_connectionProviders params !! id)) (connection_id_of t)
  ++ map fst (provider_level_of t).

Lemma probeRow_targets a rules s :
  fold_left (probeRow params a) rules s =
  fold_left (probeTarget params) (injectingTargets rules a (pp_principals params)) s.
Proof.
  revert s. induction rules as [|row rules IH]; intros s; simpl; [done|].
  rewrite fold_left_app, IH. f_equal. unfold probeRow.
  destruct (skipped row); [done|]. by destruct (negb _).
Qed.

Lemma probe_patterns l s x :
  x ∈ secretPatterns (fold_left (probeTarget params) l s) <->
  x ∈ secretPatterns s \/ exists t, t ∈ l /\ x ∈ patterns_of t.
Proof.
  apply fold_left_elem. clear. intros s t x.
  unfold probeTarget, patterns_of, secretTargetHosts. case_bool_decide; simpl.
  - destruct (truthy (tr_secretId t)) as [id|]; simpl.
    + destruct (_ !! id); simpl; set_solver.
    + repeat case_bool_decide; simpl; set_solver.
  - case_bool_decide; [|case_bool_decide; [|set_solver]].
    + destruct (truthy (tr_appConnectionId t)) as [id|]; [destruct (_ !! id)|]; simpl; set_solver.
    + destruct (truthy (tr_appProvider t)), (scope_of (tr_appConnectionScope t)); simpl; set_solver.
Qed.

Lemma probe_providers l s x :
  x ∈ providers (fold_left (probeTarget params) l s) <->
  x ∈ providers s \/ exists t, t ∈ l /\ x ∈ providers_of t.
Proof.
  apply fold_left_elem. clear. intros s t x.
  unfold probeTarget, providers_of, connection_id_of, provider_level_of.
  destruct (decide (tr_kind t = js "secret")) as [Ek|Ek].
  { rewrite Ek. simpl. destruct (truthy (tr_secretId t)) as [id|].
    - destruct (_ !! id); simpl; set_solver.
    - repeat case_bool_decide; simpl; set_solver. }
  rewrite (bool_decide_eq_false_2 _ Ek).
  destruct (decide (tr_kind t = js "connection")) as [Ec|Ec].
  { rewrite Ec. simpl. destruct (truthy (tr_appConnectionId t)) as [id|]; simpl; [|set_solver].
    destruct (_ !! id); simpl; rewrite ?set_add_elem; set_solver. }
  rewrite (bool_decide_eq_false_2 _ Ec). simpl. case_bool_decide; [|set_solver].
  destruct (truthy (tr_appProvider t)), (scope_of (tr_appConnectionScope t)); simpl;
    rewrite ?set_add_elem; set_solver.
Qed.

Definition agentTargets : list TargetRow :=
  match pp_agent params with
  | Some a => injectingTargets (pp_rules params) a (pp_principals params)
  | None => []
  end.

(** The credential a target names injects for [host]. *)
Definition target_reaches (host : jsstr) (t : TargetRow) : Prop :=
  (exists p, p ∈ patterns_of t /\ hostMatches host p = true) \/
  (exists p, p ∈ providers_of t /\ providerHostMatches reg host p = true).

Lemma patterns_of_iff t x :
  x ∈ patterns_of t <->
  (exists id, id ∈ secret_id_of t /\ shs_byId (pp_secretHosts params) !! id = Some x) \/
  (workspace ∈ secret_level_of t /\ x ∈ shs_workspaceHosts (pp_secretHosts params)) \/
  (organization ∈ secret_level_of t /\ x ∈ shs_orgHosts (pp_secretHosts params)).
Proof.
  unfold patterns_of, secret_id_of, secret_level_of, secretTargetHosts, scope_of.
  case_bool_decide; simpl; [|set_solver].
  destruct (truthy (tr_secretId t)) as [id|]; simpl.
  - destruct (_ !! id) eqn:E; simpl; set_solver.
  - repeat case_bool_decide; simpl; try congruence; set_solver.
Qed.

Lemma providers_of_iff t x :
  x ∈ providers_of t <->
  (exists id, id ∈ connection_id_of t /\ pp_connectionProviders params !! id = Some x) \/
  (exists s, (x, s) ∈ provider_level_of t).
Proof.
  unfold providers_of. rewrite elem_of_app, elem_of_lmap, list_elem_of_In, in_flat_map.
  setoid_rewrite <- list_elem_of_In. f_equiv.
  - apply exist_proper. intros id. apply and_iff_compat_l.
    destruct (_ !! id); simpl; set_solver.
  - split; [intros ([y s] & -> & ?); eauto|]. intros [s ?]. by exists (x, s).
Qed.

Lemma target_reaches_iff host t :
  target_reaches host t <->
  (exists id p, id ∈ secret_id_of t /\ shs_byId (pp_secretHosts params) !! id = Some p /\
     hostMatches host p = true) \/
  (workspace ∈ secret_level_of t /\ exists p, p ∈ shs_workspaceHosts (pp_secretHosts params) /\
     hostMatches host p = true) \/
  (organization ∈ secret_level_of t /\ exists p, p ∈ shs_orgHosts (pp_secretHosts params) /\
     hostMatches host p = true) \/
  (exists id p, id ∈ connection_id_of t /\ pp_connectionProviders params !! id = Some p /\
     providerHostMatches reg host p = true) \/
  (exists p s, (p, s) ∈ provider_level_of t /\ providerHostMatches reg host p = true).
Proof.
  unfold target_reaches. setoid_rewrite patterns_of_iff. setoid_rewrite providers_of_iff.
  naive_solver.
Qed.

Lemma probe_iff host :
  buildInjectionProbe reg params host = true <->
  (exists p, p ∈ pp_poolSecretHostPatterns params /\ hostMatches host p = true) \/
  (exists p, p ∈ pp_poolProviders params /\ providerHostMatches reg host p = true) \/
  exists t, t ∈ agentTargets /\ target_reaches host t.
Proof.
  unfold buildInjectionProbe.
  set (s0 := {| secretPatterns := _; providers := _ |}).
  assert ((match pp_agent params with
           | Some a => fold_left (probeRow params a) (pp_rules params) s0
           | None => s0 end) = fold_left (probeTarget params) agentTargets s0) as ->.
  { unfold agentTargets. destruct (pp_agent params); [apply probeRow_targets|done]. }
  rewrite orb_true_iff, !existsb_In. setoid_rewrite probe_patterns.
  setoid_rewrite probe_providers. subst s0. simpl. setoid_rewrite js_dedup_elem_of.
  unfold target_reaches. naive_solver.
Qed.
End ProbeLemmas.

(** The injection law. A host has a credential exactly when a pool pattern
    or pool provider covers it, or an enabled-set rule that is an allow and no
    Default Rule, and that EXPLICITLY names the agent or one of its
    principals, has a target whose credential reaches it; an empty identity
    list never injects, and ids that resolve to nothing add nothing. *)
Theorem buildInjectionProbe_spec reg params host :
  buildInjectionProbe reg params host = true <->
  (exists p, p ∈ pp_poolSecretHostPatterns params /\ hostMatches host p = true) \/
  (exists p, p ∈ pp_poolProviders params /\ providerHostMatches reg host p = true) \/
  exists a row i t, pp_agent params = Some a /\ row ∈ pp_rules params /\
    row_isDefault row = false /\ row_action row = js "allow" /\
    i ∈ row_identities row /\ principalMatches i a (pp_principals params) = true /\
    t ∈ row_targets row /\ target_reaches reg params host t.
Proof.
  rewrite probe_iff. do 2 apply or_iff_compat_l. unfold agentTargets.
  destruct (pp_agent params) as [a|]; [|naive_solver set_solver].
  setoid_rewrite injectingTargets_elem. unfold injecting. naive_solver.
Qed.

(** The probe and the id-level selections are one law. For an agent, the
    host predicate holds exactly when some selected secret id, selected secret
    level, selected connection id or selected provider level resolves to a
    credential that covers the host. *)
Theorem probe_agrees_with_selections reg params a host
  (Hagent : pp_agent params = Some a)
  (Hpool : pp_poolSecretHostPatterns params = [] /\ pp_poolProviders params = []) :
  let secrets := grantedSecretSelection (pp_rules params) a (pp_principals params) in
  let conns := grantedConnectionSelection (pp_rules params) a (pp_principals params) in
  let hosts := pp_secretHosts params in
  buildInjectionProbe reg params host = true <->
  (exists id p, id ∈ ss_ids secrets /\ shs_byId hosts !! id = Some p /\ hostMatches host p = true) \/
  (ss_workspace secrets = true /\ exists p, p ∈ shs_workspaceHosts hosts /\ hostMatches host p = true) \/
  (ss_organization secrets = true /\ exists p, p ∈ shs_orgHosts hosts /\ hostMatches host p = true) \/
  (exists id p, id ∈ cs_ids conns /\ pp_connectionProviders params !! id = Some p /\
     providerHostMatches reg host p = true) \/
  (exists p s, providerLevelKey p s ∈ cs_providerLevels conns /\
     providerHostMatches reg host p = true).
Proof.
  cbn zeta. destruct Hpool as [Hp1 Hp2]. rewrite probe_iff, Hp1, Hp2.
  unfold agentTargets. rewrite Hagent, ss_workspace_iff, ss_organization_iff.
  setoid_rewrite secret_ids_elem. setoid_rewrite connection_ids_elem.
  setoid_rewrite provider_levels_elem. setoid_rewrite target_reaches_iff.
  split; [set_solver|]. naive_solver.
Qed.

(** ** Properties of the resource boundary *)

Section Boundary.
Context (a : jsstr) (pr : PrincipalSet) (connectionId : jsstr).

(** An organization rule that bounds the connection for this agent: under the
    decision engine's identity law, naming nobody is naming everybody. *)
Definition bounds (row : RuleRow) : bool :=
  negb (skipped row) && boundaryIdentityMatches (row_identities row) a pr &&
  isSessionPolicy (row_conditions row) && names_connection connectionId row.

(** A workspace rule that selects for it: under the injection law. *)
Definition selects (row : RuleRow) : bool :=
  negb (skipped row) && injectionIdentityMatches (row_identities row) a pr &&
  names_connection connectionId row.

Lemma boundaryStep_bounds b row :
  boundaryStep a pr connectionId b row =
  if bounds row then
    match b with None => Some (row_conditions row)
               | Some p => intersectPolicies p (row_conditions row) end
  else b.
Proof.
  unfold boundaryStep, bounds. destruct (skipped row); [done|].
  destruct (boundaryIdentityMatches _ _ _); [|done].
  destruct (isSessionPolicy _); [|done]. by destruct (names_connection _ _).
Qed.

Lemma allows_None t : allows None t = true.
Proof. done. Qed.

Lemma boundaryStep_sound b row t :
  allows (boundaryStep a pr connectionId b row) t = true ->
  allows b t = true /\ (bounds row = true -> coveredBy t (row_conditions row) = true).
Proof.
  rewrite boundaryStep_bounds. destruct (bounds row); [|by split].
  destruct b as [p|]; [|by split].
  intros [H1 H2]%intersect_within. by split.
Qed.

Lemma orgResourceBoundary_sound rows b t :
  allows (fold_left (boundaryStep a pr connectionId) rows b) t = true ->
  allows b t = true /\
  forall row, row ∈ rows -> bounds row = true -> coveredBy t (row_conditions row) = true.
Proof.
  revert b. induction rows as [|row rows IH]; intros b; simpl; [set_solver|].
  intros [[H1 H2]%boundaryStep_sound H3]%IH. split; [done|].
  intros row' [->|Hin]%elem_of_cons; eauto.
Qed.

Lemma selection_last rows :
  workspaceResourceSelection rows a pr connectionId =
  match last (List.filter selects rows) with
  | Some row => if isSessionPolicy (row_conditions row) then Some (row_conditions row) else None
  | None => None
  end.
Proof.
  unfold workspaceResourceSelection, foldSessionPolicy. cbn zeta.
  assert (forall p row,
    (if skipped row then p
     else if negb (injectionIdentityMatches (row_identities row) a pr) then p
     else if negb (names_connection connectionId row) then p else row_conditions row)
    = if selects row then row_conditions row else p) as E.
  { intros p row. unfold selects. destruct (skipped row); [done|].
    destruct (injectionIdentityMatches _ _ _); [|done]. by destruct (names_connection _ _). }
  rewrite (fold_left_ext_eq _ _ _ _ E), fold_last. by destruct (last _).
Qed.

(** One axis, on which composition is exact. *)
Context (axis : ResourceAxis) (Haxis : axis = repositories \/ axis = folders).

Definition on_axis (p : json) : Prop := axisOf p = None \/ axisOf p = Some axis.

Lemma on_axis_null : on_axis JNull.
Proof. by left. Qed.

Lemma intersect_on_axis p q :
  on_axis p -> on_axis q -> on_axis (default JNull (intersectPolicies p q)).
Proof.
  intros [Hp|Hp] [Hq|Hq].
  1-3: unfold intersectPolicies, on_axis; rewrite Hp, Hq; simpl; auto.
  right. destruct Haxis; subst axis; rewrite (intersectPolicies_axis _ p q Hp Hq);
    exact (axisOf_build _).
Qed.

Lemma intersect_exact_on_axis p q t :
  on_axis p -> on_axis q ->
  allows (intersectPolicies p q) t = coveredBy t p && coveredBy t q.
Proof.
  intros Hp Hq. apply (@intersectPolicies_exact example_tree).
  - intros x y Hx Hy. destruct Hp, Hq; congruence.
  - intros Hx. destruct Hp as [Hp|Hp]; rewrite Hx in Hp; [done|].
    injection Hp as <-. by destruct Haxis.
Qed.

Lemma orgResourceBoundary_fold rows b t :
  on_axis (default JNull b) ->
  (forall row, row ∈ rows -> bounds row = true -> on_axis (row_conditions row)) ->
  allows (fold_left (boundaryStep a pr connectionId) rows b) t =
  allows b t && forallb (fun row => negb (bounds row) || coveredBy t (row_conditions row)) rows.
Proof.
  revert b. induction rows as [|row rows IH]; intros b Hb Hrows; simpl; [by rewrite andb_true_r|].
  assert (forall row', row' ∈ rows -> bounds row' = true -> on_axis (row_conditions row')) as Hr
    by (intros; apply Hrows; [by right|done]).
  rewrite boundaryStep_bounds. destruct (bounds row) eqn:Eb; simpl; [|by apply IH].
  assert (on_axis (row_conditions row)) as Hc by (apply Hrows; [left|done]).
  destruct b as [p|].
  - rewrite IH, intersect_exact_on_axis, andb_assoc by auto using intersect_on_axis. done.
  - by rewrite IH.
Qed.
End Boundary.

(** C25: what a connection credential effectively reaches never exceeds the
    organization's boundary or the workspace's selection: a resource it covers
    is covered by the policy of EVERY published organization rule that bounds
    the connection for this agent (one that names nobody bounds every agent),
    and by the workspace's own selection. *)
Theorem effectiveResources_bounded orgRows wsRows a pr connectionId t
  (Ht : allows (effectiveResources orgRows wsRows a pr connectionId).2 t = true) :
  (forall row, row ∈ orgRows -> bounds a pr connectionId row = true ->
     coveredBy t (row_conditions row) = true) /\
  allows (workspaceResourceSelection wsRows a pr connectionId) t = true.
Proof.
  unfold effectiveResources in Ht. cbn [snd] in Ht.
  apply intersect_within in Ht as [H1 H2]. split; [|done].
  by apply (orgResourceBoundary_sound a pr connectionId orgRows None t) in H1 as [_ H1].
Qed.

(** The organization's boundary composes all its bounding rules, exactly.
    When their policies are on one axis (repositories or folders), a resource
    is inside the boundary precisely when it is inside every one of them, so
    neither the order of the rules nor a rule without a policy matters. *)
Theorem orgResourceBoundary_exact orgRows a pr connectionId axis t
  (Haxis : axis = repositories \/ axis = folders)
  (Hrows : forall row, row ∈ orgRows -> bounds a pr connectionId row = true ->
     on_axis axis (row_conditions row)) :
  allows (orgResourceBoundary orgRows a pr connectionId) t =
  forallb (fun row => negb (bounds a pr connectionId row) || coveredBy t (row_conditions row))
    orgRows.
Proof.
  unfold orgResourceBoundary.
  by rewrite (orgResourceBoundary_fold a pr connectionId axis Haxis orgRows None t)
    by (done || apply on_axis_null).
Qed.

(** The workspace's selection is its last matching rule's: among the
    published allow rules that explicitly name the agent and target the
    connection, the last one's conditions count, when they are a policy, and
    nothing is selected when no rule names the agent. *)
Theorem workspaceResourceSelection_spec rows a pr connectionId p :
  workspaceResourceSelection rows a pr connectionId = Some p <->
  exists before row after, rows = before ++ row :: after /\
    selects a pr connectionId row = true /\
    (forall r, r ∈ after -> selects a pr connectionId r = false) /\
    row_conditions row = p /\ isSessionPolicy p = true.
Proof.
  rewrite selection_last. split.
  - destruct (last _) as [row|] eqn:El; [|done].
    destruct (isSessionPolicy _) eqn:Ep; [|done]. intros [= <-].
    apply last_filter in El as (b & c & -> & ? & ?).
    naive_solver.
  - intros (b & row & c & -> & Hs & Hc & <- & Hp).
    rewrite List.filter_app. simpl. rewrite Hs, (filter_none _ c Hc).
    by rewrite last_snoc, Hp.
Qed.

(** ** Witnesses *)
Module Sample.
Definition org : PolicyScopeBase := OrgBase (js "org").
Definition ws : PolicyScopeBase := WsBase (js "ws").
Definition nobody : PrincipalSet := {| userIds := []; groupIds := [] |}.

(** Two organization rules bound connection [c1], the second everybody's; the
    workspace selects a folder under both for agent [a1]. *)
Definition org_rows : list RuleRow :=
  [Rows.rule org (js "o1") 1 (js "custom") (js "allow")
     (axis_build folders [js "/clients"; js "/shared"]) [Rows.agent (js "a1")]
     [Rows.connection_target (js "c1")];
   Rows.rule org (js "o2") 1 (js "custom") (js "allow")
     (axis_build folders [js "/Clients/acme"]) [] [Rows.connection_target (js "c1")]].
Definition ws_rows : list RuleRow :=
  [Rows.rule ws (js "w1") 1 (js "equipment") (js "allow")
     (axis_build folders [js "/"]) [Rows.agent (js "a1")] [Rows.connection_target (js "c1")]].

Definition params : ProbeParams :=
  {| pp_agent := Some (js "a1"); pp_poolSecretHostPatterns := []; pp_poolProviders := [];
     pp_rules :=
       [Rows.rule ws (js "w2") 1 (js "grant") (js "allow") JNull [Rows.agent (js "a1")]
          [{| tr_kind := js "secret"; tr_appProvider := None; tr_appTools := [];
              tr_appConnectionScope := None; tr_appConnectionId := None;
              tr_secretId := Some (js "s1"); tr_secretScope := None; tr_hostPattern := None;
              tr_pathPattern := None; tr_method := None |}]];
     pp_principals := nobody;
     pp_secretHosts := {| shs_byId := {[ js "s1" := js "*.example.com" ]};
                          shs_workspaceHosts := []; shs_orgHosts := [] |};
     pp_connectionProviders := ∅ |}.
End Sample.

Lemma probe_agrees_with_selections_witness :
  let sel := grantedSecretSelection (pp_rules Sample.params) (js "a1") Sample.nobody in
  ss_ids sel = [js "s1"] /\
  buildInjectionProbe ∅ Sample.params (js "api.example.com") = true.
Proof.
  intros sel. split; [by vm_compute|].
  apply (probe_agrees_with_selections ∅ Sample.params (js "a1") (js "api.example.com") eq_refl
           (conj eq_refl eq_refl)).
  left. exists (js "s1"), (js "*.example.com"). split_and!; [|done|by vm_compute].
  change (js "s1" ∈ [js "s1"]). by left.
Defined.

Lemma effectiveResources_bounded_witness :
  let t := js "/clients/acme/2024" in
  allows (effectiveResources Sample.org_rows Sample.ws_rows (js "a1") Sample.nobody (js "c1")).2 t
    = true /\
  allows (effectiveResources Sample.org_rows Sample.ws_rows (js "a1") Sample.nobody (js "c1")).2
    (js "/shared") = false /\
  (forall row, row ∈ Sample.org_rows -> bounds (js "a1") Sample.nobody (js "c1") row = true ->
     coveredBy t (row_conditions row) = true).
Proof.
  intros t. split; [by vm_compute|]. split; [by vm_compute|].
  apply (effectiveResources_bounded Sample.org_rows Sample.ws_rows (js "a1") Sample.nobody (js "c1") t).
  by vm_compute.
Defined.

Lemma orgResourceBoundary_exact_witness :
  forallb (bounds (js "a1") Sample.nobody (js "c1")) Sample.org_rows = true /\
  allows (orgResourceBoundary Sample.org_rows (js "a1") Sample.nobody (js "c1"))
    (js "/clients/acme") =
  forallb (fun row => negb (bounds (js "a1") Sample.nobody (js "c1") row)
                      || coveredBy (js "/clients/acme") (row_conditions row)) Sample.org_rows.
Proof.
  split; [by vm_compute|].
  apply (orgResourceBoundary_exact Sample.org_rows (js "a1") Sample.nobody (js "c1") folders).
  - by right.
  - intros row [->|[->|[]%not_elem_of_nil]%elem_of_cons]%elem_of_cons _; right; by vm_compute.
Defined.
