(* ===== verification/EffectiveTools.v ===== *)
(** * Effective permissions

    [packages/api/src/services/policy-reflect/effective-tools.ts]: what the
    published rules decide for every catalog tool of an app, by synthesizing a
    request for each endpoint of the tool, running the engine on it, and
    folding the answers per tool, per group and per connected account. *)
From stdpp Require Import pretty.
From S2P Require Import Prelude PathMatch PolicyTypes JsJson PolicyRows Catalog Evaluator.
From S2P Require Import EndpointMatch Graphql LoadRules ResourceAxis Injection.

Inductive EffectiveToolVerdict := v_allow | v_approval | v_block | v_mixed | v_unmanaged.

#[export] Instance EffectiveToolVerdict_eq_dec : EqDecision EffectiveToolVerdict.
Proof. solve_decision. Defined.

Record ProvenanceRuleRef := {
  pr_logicalId : jsstr;
  pr_name : jsstr;
  pr_source : jsstr;
  pr_action : Action;
  pr_requireApproval : bool;
  pr_rateLimit : option Z;
  pr_rateLimitWindow : option RateWindow
}.

(** The redacted marker is always the organization's. *)
Inductive EffectiveProvenance :=
| PvRedacted
| PvRule (scope : Scope) (rule : ProvenanceRuleRef)
| PvDefault (scope : Scope).

Inductive OrgCeilingVerdict := c_allow | c_approval | c_block.

#[export] Instance OrgCeilingVerdict_eq_dec : EqDecision OrgCeilingVerdict.
Proof. solve_decision. Defined.

Record EffectiveToolResult := {
  tl_toolId : jsstr;
  tl_verdict : EffectiveToolVerdict;
  tl_rateLimit : option Z;
  tl_rateLimitWindow : option RateWindow;
  tl_decidedBy : option EffectiveProvenance;
  tl_orgCeiling : option OrgCeilingVerdict
}.

Record EffectiveToolGroupResult := {
  tg_category : Category;
  tg_verdict : EffectiveToolVerdict;
  tg_tools : list EffectiveToolResult
}.

(** ** Synthesis *)

Definition TOKEN : jsstr := js "oc-any".

Definition synthesizePath (pattern : jsstr) : jsstr :=
  if bool_decide (pattern = js "*") then js "/" ++ TOKEN
  else join (js "/")
         (map (fun segment => replace_all ch_star TOKEN segment) (split_on ch_slash pattern)).

Definition synthesizeHost (pattern : jsstr) : jsstr := replace_all ch_star TOKEN pattern.

(** [JSON.stringify({ query })] of a text that needs no escapes. *)
Definition query_body (query : jsstr) : jsstr :=
  jsq "{`query`:`" ++ query ++ jsq "`}".

Definition synthesizeBody (tool : AppTool) : option jsstr :=
  if bool_decide (at_graphqlOps tool = Some op_query)
  then Some (query_body (js "query { " ++ TOKEN ++ js " }"))
  else if bool_decide (at_graphqlOps tool = Some op_mutation)
  then Some (query_body (js "mutation { " ++ TOKEN ++ js " }"))
  else None.

(** ** One variant *)

(** [ve_verdict] is never [v_mixed]. *)
Record VariantEval := {
  ve_key : jsstr;
  ve_verdict : EffectiveToolVerdict;
  ve_rateLimit : option Z;
  ve_rateLimitWindow : option RateWindow;
  ve_decidedBy : option EffectiveProvenance;
  ve_orgCeiling : option OrgCeilingVerdict
}.

Definition CEILING_RANK (c : OrgCeilingVerdict) : nat :=
  match c with c_allow => 1 | c_approval => 2 | c_block => 3 end.

Definition foldCeilings (ceilings : list (option OrgCeilingVerdict)) : option OrgCeilingVerdict :=
  fold_left (fun a b =>
    match b with
    | None => a
    | Some b =>
        match a with
        | None => Some b
        | Some a => if (CEILING_RANK a <? CEILING_RANK b)%nat then Some b else Some a
        end
    end) ceilings None.

Definition window_name (w : option RateWindow) : jsstr :=
  match w with
  | Some minute => js "minute"
  | Some hour => js "hour"
  | Some day => js "day"
  | None => []
  end.
Definition rate_text (n : option Z) : jsstr :=
  match n with Some n => js (pretty n) | None => [] end.

Definition verdict_name (v : EffectiveToolVerdict) : jsstr :=
  match v with
  | v_allow => js "allow"
  | v_approval => js "approval"
  | v_block => js "block"
  | v_mixed => js "mixed"
  | v_unmanaged => js "unmanaged"
  end.

Section Reflect.
Context (reg : Registry) `{JsCase}.

Definition orgCeilingOf (engineRules : list NewRule) (request : PolicyRequest)
  : option OrgCeilingVerdict :=
  match evaluatePolicyOutcome reg
          (List.filter (fun r => bool_decide (rl_scope r = organization)) engineRules) request with
  | OutRule rule =>
      if bool_decide (rl_action rule = block) then Some c_block
      else if rl_requireApproval rule then Some c_approval else Some c_allow
  | OutDenyDefault _ _ => Some c_block
  | OutAllow _ => None
  end.

Definition provenanceKey (p : option EffectiveProvenance) : jsstr :=
  match p with
  | None => js "none"
  | Some (PvDefault scope) => js "default:" ++ level_name scope
  | Some PvRedacted => js "rule:org:redacted"
  | Some (PvRule scope rule) => js "rule:" ++ level_name scope ++ js ":" ++ pr_logicalId rule
  end.

Definition ruleProvenance (sim : SimRule) (viewerSeesOrgRules : bool) : EffectiveProvenance :=
  let meta := sim_meta sim in
  let rule := sim_rule sim in
  if bool_decide (sm_scope meta = organization) && negb viewerSeesOrgRules then PvRedacted
  else PvRule (sm_scope meta)
         {| pr_logicalId := sm_logicalId meta; pr_name := sm_name meta;
            pr_source := sm_source meta; pr_action := rl_action rule;
            pr_requireApproval := rl_requireApproval rule; pr_rateLimit := rl_rateLimit rule;
            pr_rateLimitWindow := rl_rateLimitWindow rule |}.

Definition plainEval (key : jsstr) (verdict : EffectiveToolVerdict)
    (decidedBy : option EffectiveProvenance) (orgCeiling : option OrgCeilingVerdict) : VariantEval :=
  {| ve_key := key; ve_verdict := verdict; ve_rateLimit := None; ve_rateLimitWindow := None;
     ve_decidedBy := decidedBy; ve_orgCeiling := orgCeiling |}.

(** [None]: the function throws. The source finds the rule's metadata by
    reference; the engine returns the first of equal rules, which is the one
    equality finds first. *)
Definition evaluateVariant (simRules : list SimRule) (engineRules : list NewRule)
    (request : PolicyRequest) (viewerSeesOrgRules : bool) : option VariantEval :=
  let orgCeiling := orgCeilingOf engineRules request in
  match evaluatePolicyOutcome reg engineRules request with
  | OutRule rule =>
      match List.find (fun s => bool_decide (sim_rule s = rule)) simRules with
      | None => None
      | Some sim =>
          let decidedBy := Some (ruleProvenance sim viewerSeesOrgRules) in
          Some
            (if bool_decide (rl_action rule = block) then
               plainEval (js "block") v_block decidedBy orgCeiling
             else if rl_requireApproval rule then
               plainEval (js "approval") v_approval decidedBy orgCeiling
             else
               {| ve_key := js "allow|" ++ rate_text (rl_rateLimit rule) ++ js "|"
                            ++ window_name (rl_rateLimitWindow rule);
                  ve_verdict := v_allow; ve_rateLimit := rl_rateLimit rule;
                  ve_rateLimitWindow := rl_rateLimitWindow rule;
                  ve_decidedBy := decidedBy; ve_orgCeiling := orgCeiling |})
      end
  | OutDenyDefault level _ =>
      Some (plainEval (js "block") v_block (Some (PvDefault level)) orgCeiling)
  | OutAllow managed =>
      Some (if managed then plainEval (js "allow||") v_allow None orgCeiling
            else plainEval (js "unmanaged") v_unmanaged None orgCeiling)
  end.

(** ** Folding *)

Definition plainTool (toolId : jsstr) (verdict : EffectiveToolVerdict)
    (orgCeiling : option OrgCeilingVerdict) : EffectiveToolResult :=
  {| tl_toolId := toolId; tl_verdict := verdict; tl_rateLimit := None;
     tl_rateLimitWindow := None; tl_decidedBy := None; tl_orgCeiling := orgCeiling |}.

Definition aggregateVariants (toolId : jsstr) (evals : list VariantEval) : EffectiveToolResult :=
  match evals with
  | [] => plainTool toolId v_unmanaged None
  | first :: _ =>
      let orgCeiling := foldCeilings (map ve_orgCeiling evals) in
      if forallb (fun e => bool_decide (ve_key e = ve_key first)) evals then
        let sameSource := forallb (fun e =>
          bool_decide (provenanceKey (ve_decidedBy e) = provenanceKey (ve_decidedBy first)))
          evals in
        {| tl_toolId := toolId; tl_verdict := ve_verdict first;
           tl_rateLimit := ve_rateLimit first; tl_rateLimitWindow := ve_rateLimitWindow first;
           tl_decidedBy := if sameSource then ve_decidedBy first else None;
           tl_orgCeiling := orgCeiling |}
      else plainTool toolId v_mixed orgCeiling
  end.

(** The group rollup: the common tool verdict, else mixed. *)
Definition groupVerdict (tools : list EffectiveToolResult) : EffectiveToolVerdict :=
  let firstVerdict := match tools with t :: _ => tl_verdict t | [] => v_unmanaged end in
  if forallb (fun t => bool_decide (tl_verdict t = firstVerdict)) tools then firstVerdict
  else v_mixed.

Definition toolKey (t : EffectiveToolResult) : jsstr :=
  verdict_name (tl_verdict t) ++ js "|" ++ rate_text (tl_rateLimit t) ++ js "|"
  ++ window_name (tl_rateLimitWindow t).

(** One tool across the runs: [across] holds its result in each. *)
Definition foldToolRuns (tool : EffectiveToolResult) (across : list EffectiveToolResult)
  : EffectiveToolResult :=
  let orgCeiling := foldCeilings (map tl_orgCeiling across) in
  if forallb (fun t => bool_decide (toolKey t = toolKey tool)) across then
    let sameSource := forallb (fun t =>
      bool_decide (provenanceKey (tl_decidedBy t) = provenanceKey (tl_decidedBy tool))) across in
    {| tl_toolId := tl_toolId tool; tl_verdict := tl_verdict tool;
       tl_rateLimit := tl_rateLimit tool; tl_rateLimitWindow := tl_rateLimitWindow tool;
       tl_decidedBy := if sameSource then tl_decidedBy tool else None;
       tl_orgCeiling := orgCeiling |}
  else plainTool (tl_toolId tool) v_mixed orgCeiling.

Definition foldGroupRuns (runs : list (list EffectiveToolGroupResult))
  : list EffectiveToolGroupResult :=
  match runs with
  | [] => []
  | [first] => first
  | first :: _ =>
      imap (fun gi group =>
        let tools := imap (fun ti tool =>
          let across := map (fun r =>
            match r !! gi with
            | Some g => default tool (tg_tools g !! ti)
            | None => tool
            end) runs in
          foldToolRuns tool across) (tg_tools group) in
        {| tg_category := tg_category group; tg_verdict := groupVerdict tools;
           tg_tools := tools |}) first
  end.

Inductive ToolRollupStatus := st_usable | st_limited | st_blocked | st_unknown.

Definition rollupToolStatus (verdicts : list EffectiveToolVerdict) : ToolRollupStatus :=
  if (length verdicts =? 0)%nat then st_unknown
  else if forallb (fun v => bool_decide (v = v_block)) verdicts then st_blocked
  else if forallb (fun v => bool_decide (v = v_allow) || bool_decide (v = v_unmanaged)) verdicts
  then st_usable
  else st_limited.

(** ** The core *)

Record ComputeInput := {
  ci_def : AppPermissionDefinition;
  ci_simRules : list SimRule;
  ci_engineRules : list NewRule;
  ci_agentId : jsstr;
  ci_principals : PrincipalSet;
  ci_probe : jsstr -> bool;
  ci_viewerSeesOrgRules : bool;
  ci_winningConnectionId : option jsstr
}.

(** The request synthesized for one variant of a tool. *)
Definition variantRequest (input : ComputeInput) (tool : AppTool)
    (variant : jsstr * option jsstr) : PolicyRequest :=
  let host := synthesizeHost (at_hostPattern tool) in
  {| rq_host := host;
     rq_path := synthesizePath variant.1;
     rq_method := default (js "GET") variant.2;
     rq_body := synthesizeBody tool;
     rq_agentId := ci_agentId input;
     rq_userIds := Some (userIds (ci_principals input));
     rq_groupIds := Some (groupIds (ci_principals input));
     rq_hasInjections := ci_probe input host;
     rq_isLlmHost := isLlmHost host;
     rq_winningConnectionId := ci_winningConnectionId input |}.

Definition computeTool (input : ComputeInput) (tool : AppTool) : option EffectiveToolResult :=
  evals ← mapM (fun variant =>
            evaluateVariant (ci_simRules input) (ci_engineRules input)
              (variantRequest input tool variant) (ci_viewerSeesOrgRules input))
            (allRuleVariants tool);
  Some (aggregateVariants (at_id tool) evals).

Definition computeGroup (input : ComputeInput) (group : AppToolGroup)
  : option EffectiveToolGroupResult :=
  tools ← mapM (computeTool input) (ag_tools group);
  Some {| tg_category := ag_category group; tg_verdict := groupVerdict tools; tg_tools := tools |}.

(** The flag is set by any tool whose host the probe covers. *)
Definition computeEffectiveGroups (input : ComputeInput)
  : option (list EffectiveToolGroupResult * bool) :=
  groups ← mapM (computeGroup input) (ad_groups (ci_def input));
  Some (groups,
        existsb (fun group =>
          existsb (fun tool => ci_probe input (synthesizeHost (at_hostPattern tool)))
            (ag_tools group)) (ad_groups (ci_def input))).
End Reflect.

(** ** The reflection of one app *)

(** A row of the agents table, as far as it is read. *)
Record AgentRow := { agr_id : jsstr; agr_workspaceId : jsstr }.

Record Database := {
  db_agents : list AgentRow;
  db_secrets : list SecretRow;
  db_connections : list ConnectionRow;
  db_rules : list RuleRow;
  db_directory : Directory
}.

Record EffectiveAppPermissionsInput := {
  in_provider : jsstr;
  in_agentId : option jsstr;
  in_connectionId : option jsstr
}.

Record EffectiveAppPermissionsCtx := {
  ctx_scope : Scope;
  ctx_organizationId : jsstr;
  ctx_workspaceId : option jsstr;
  ctx_viewerSeesOrgRules : bool
}.

Record EffectiveAppPermissionsResult := {
  ep_provider : jsstr;
  ep_agentId : option jsstr;
  ep_credentialAttached : bool;
  ep_scope : Scope;
  ep_variesByIdentity : nat;
  ep_orgResources : option json;
  ep_effectiveResources : option json;
  ep_groups : list EffectiveToolGroupResult
}.

Definition service_error (code : ServiceErrorCode) (message : jsstr) : ServiceError :=
  {| se_code := code; se_message := message |}.

(** The rows of the caller's workspace and its organization's shared ones, or
    at organization scope the shared ones alone. *)
Definition pool_where (ctx : EffectiveAppPermissionsCtx)
    (row_org row_ws : option jsstr) (row_scope : jsstr) : bool :=
  match ctx_scope ctx with
  | workspace =>
      bool_decide (row_ws = ctx_workspaceId ctx) ||
      bool_decide (row_org = Some (ctx_organizationId ctx)) &&
      bool_decide (row_scope = js "organization")
  | organization =>
      bool_decide (row_org = Some (ctx_organizationId ctx)) &&
      bool_decide (row_scope = js "organization")
  end.

Definition loadInjectionPool (db : Database) (agent : option jsstr)
    (ctx : EffectiveAppPermissionsCtx) : list jsstr * list jsstr :=
  match agent with
  | Some _ => ([], [])
  | None =>
      let secrets := List.filter (fun r =>
        pool_where ctx (sr_organizationId r) (sr_workspaceId r) (sr_scope r)) (db_secrets db) in
      let connections := List.filter (fun r =>
        pool_where ctx (cr_organizationId r) (cr_workspaceId r) (cr_scope r) &&
        bool_decide (cr_status r = js "connected")) (db_connections db) in
      (map sr_hostPattern secrets, js_dedup (map cr_provider connections))
  end.

(** [input.agentId] fenced to the caller's workspace. *)
Definition findAgent (db : Database) (input : EffectiveAppPermissionsInput)
    (ctx : EffectiveAppPermissionsCtx) : outcome (option jsstr) :=
  match in_agentId input with
  | None => inr None
  | Some id =>
      if negb (bool_decide (ctx_scope ctx = workspace)) then
        inl (service_error BAD_REQUEST (js "Agent-scoped reflection is workspace-level."))
      else match List.find (fun r => bool_decide (agr_id r = id) &&
                   bool_decide (Some (agr_workspaceId r) = ctx_workspaceId ctx)) (db_agents db) with
      | None => inl (service_error NOT_FOUND (js "Agent not found."))
      | Some r => inr (Some (agr_id r))
      end
  end.

(** [input.connectionId] fenced to the provider and the caller's scope. *)
Definition findConnection (db : Database) (input : EffectiveAppPermissionsInput)
    (ctx : EffectiveAppPermissionsCtx) : outcome (option jsstr) :=
  match in_connectionId input with
  | None => inr None
  | Some id =>
      if negb (bool_decide (ctx_scope ctx = workspace)) then
        inl (service_error BAD_REQUEST (js "Connection-scoped reflection is workspace-level."))
      else match List.find (fun r => bool_decide (cr_id r = id) &&
                   bool_decide (cr_provider r = in_provider input) &&
                   pool_where ctx (cr_organizationId r) (cr_workspaceId r) (cr_scope r))
                   (db_connections db) with
      | None => inl (service_error NOT_FOUND (js "Connection not found."))
      | Some r => inr (Some (cr_id r))
      end
  end.

(** The ids of the fenced map's entries for a provider, in the map's order. *)
Definition providerConnections (db : Database) (organizationId workspaceId provider : jsstr)
  : list jsstr :=
  let entries := loadConnectionProviders (db_connections db) organizationId workspaceId in
  List.filter (fun id => bool_decide (entries !! id = Some provider))
    (js_dedup (map cr_id (List.filter (fun r => level_fence organizationId workspaceId
       (cr_organizationId r) (cr_workspaceId r) (cr_scope r)) (db_connections db)))).

(** A rule that names identities and concerns the provider. *)
Definition identityScopedFor (provider : jsstr) (concreteHosts : list jsstr) (s : SimRule)
  : bool :=
  let rule := sim_rule s in
  if rl_isDefault rule || bool_decide (rl_identities rule = []) then false
  else existsb (fun t =>
    match t with
    | TApp p _ _ => bool_decide (p = provider)
    | TConnection _ p _ _ => bool_decide (p = Some provider)
    | TNetwork host _ _ => existsb (fun h => hostMatches h host) concreteHosts
    | TSecret hosts => existsb (fun p => existsb (fun h => hostMatches h p) concreteHosts) hosts
    end) (rl_targets rule).

Definition concreteHostsOf (def : AppPermissionDefinition) : list jsstr :=
  js_dedup (List.filter (fun h => negb (has_char ch_star h))
    (flat_map (fun g => flat_map hostPatternsOf (ag_tools g)) (ad_groups def))).

Definition resourceScopes (basis : option (jsstr * jsstr)) (orgInjectRows workspaceInjectRows : list RuleRow)
    (principals : PrincipalSet) : option json * option json :=
  match basis with
  | None => (None, None)
  | Some (agentId, connectionId) =>
      effectiveResources orgInjectRows workspaceInjectRows agentId principals connectionId
  end.

(** ** The composition *)

(** What the parallel reads return. *)
Record Loaded := {
  ld_orgRows : list RuleRow;
  ld_workspaceRows : list RuleRow;
  ld_orgInjectRows : list RuleRow;
  ld_workspaceInjectRows : list RuleRow;
  ld_principals : PrincipalSet;
  ld_secretHosts : SecretHostSet;
  ld_connectionProviders : gmap jsstr jsstr;
  ld_providerConnectionIds : list jsstr;
  ld_pool : list jsstr * list jsstr
}.

(** The workspace level's read, when there is a workspace level. *)
Definition atWorkspace (ctx : EffectiveAppPermissionsCtx)
    (load : PolicyScopeBase -> list RuleRow) : list RuleRow :=
  match ctx_scope ctx, truthy (ctx_workspaceId ctx) with
  | workspace, Some id => load (WsBase id)
  | _, _ => []
  end.

Definition loadAll (db : Database) (provider : jsstr) (ctx : EffectiveAppPermissionsCtx)
    (agent : option jsstr) : Loaded :=
  let orgId := ctx_organizationId ctx in
  let wsId := default [] (ctx_workspaceId ctx) in
  let decision base := loadRulesForSimulation (db_rules db) base (js "published") in
  let injection base := loadInjectionRules (db_rules db) base (js "published") in
  {| ld_orgRows := decision (OrgBase orgId);
     ld_workspaceRows := atWorkspace ctx decision;
     ld_orgInjectRows := injection (OrgBase orgId);
     ld_workspaceInjectRows := atWorkspace ctx injection;
     ld_principals :=
       match agent, truthy (ctx_workspaceId ctx) with
       | Some _, Some id => resolvePrincipalSet (db_directory db) id orgId
       | _, _ => {| userIds := []; groupIds := [] |}
       end;
     ld_secretHosts := loadSecretHosts (db_secrets db) orgId wsId;
     ld_connectionProviders := loadConnectionProviders (db_connections db) orgId wsId;
     ld_providerConnectionIds := providerConnections db orgId wsId provider;
     ld_pool := loadInjectionPool db agent ctx |}.

Definition simRulesOf (ld : Loaded) : list SimRule :=
  map (toSimRule (ld_secretHosts ld) (ld_connectionProviders ld))
    (ld_orgRows ld ++ ld_workspaceRows ld).

Definition hasConnectionRules (provider : jsstr) (engineRules : list NewRule) : bool :=
  existsb (fun r => existsb (fun t =>
    match t with TConnection _ p _ _ => bool_decide (p = Some provider) | _ => false end)
    (rl_targets r)) engineRules.

Section App.
Context (reg : Registry) `{JsCase}.

Definition probeOf (ld : Loaded) (agent : option jsstr) : jsstr -> bool :=
  buildInjectionProbe reg
    {| pp_agent := agent; pp_poolSecretHostPatterns := (ld_pool ld).1;
       pp_poolProviders := (ld_pool ld).2;
       pp_rules := ld_orgInjectRows ld ++ ld_workspaceInjectRows ld;
       pp_principals := ld_principals ld; pp_secretHosts := ld_secretHosts ld;
       pp_connectionProviders := ld_connectionProviders ld |}.

Definition runCompute (def : AppPermissionDefinition) (ctx : EffectiveAppPermissionsCtx)
    (ld : Loaded) (agent winner : option jsstr) : option (list EffectiveToolGroupResult * bool) :=
  computeEffectiveGroups reg
    {| ci_def := def; ci_simRules := simRulesOf ld;
       ci_engineRules := map sim_rule (simRulesOf ld);
       ci_agentId := default [] agent; ci_principals := ld_principals ld;
       ci_probe := probeOf ld agent; ci_viewerSeesOrgRules := ctx_viewerSeesOrgRules ctx;
       ci_winningConnectionId := winner |}.

(** One run for an explicit connection, one per account when some rule names
    an account of the provider, one without a winner otherwise. *)
Definition foldedRuns (def : AppPermissionDefinition) (provider : jsstr)
    (ctx : EffectiveAppPermissionsCtx) (ld : Loaded) (agent connection : option jsstr)
  : option (list EffectiveToolGroupResult * bool) :=
  match connection with
  | Some id => runCompute def ctx ld agent (Some id)
  | None =>
      if hasConnectionRules provider (map sim_rule (simRulesOf ld)) &&
         (0 <? length (ld_providerConnectionIds ld))%nat then
        runs ← mapM (fun id => runCompute def ctx ld agent (Some id)) (ld_providerConnectionIds ld);
        Some (foldGroupRuns (map fst runs), existsb snd runs)
      else runCompute def ctx ld agent None
  end.

Definition variesByIdentity (def : AppPermissionDefinition) (provider : jsstr)
    (ctx : EffectiveAppPermissionsCtx) (ld : Loaded) : nat :=
  let disclosable :=
    if ctx_viewerSeesOrgRules ctx then simRulesOf ld
    else List.filter (fun s => bool_decide (sm_scope (sim_meta s) = workspace)) (simRulesOf ld) in
  length (List.filter (identityScopedFor provider (concreteHostsOf def)) disclosable).

(** The answer for a fenced agent and connection. [None] is the plain error of
    [evaluateVariant]. *)
Definition reflectApp (def : AppPermissionDefinition) (provider : jsstr)
    (ctx : EffectiveAppPermissionsCtx) (ld : Loaded) (agent connection : option jsstr)
  : option EffectiveAppPermissionsResult :=
  '(groups, credentialAttached) ← foldedRuns def provider ctx ld agent connection;
  let resources :=
    resourceScopes
      (match agent, connection with Some a, Some c => Some (a, c) | _, _ => None end)
      (ld_orgInjectRows ld) (ld_workspaceInjectRows ld) (ld_principals ld) in
  Some {| ep_provider := provider; ep_agentId := agent;
          ep_credentialAttached := credentialAttached; ep_scope := ctx_scope ctx;
          ep_variesByIdentity := variesByIdentity def provider ctx ld;
          ep_orgResources := resources.1; ep_effectiveResources := resources.2;
          ep_groups := groups |}.

(** [inl] is a thrown [ServiceError], [inr None] a plain one. *)
Definition effectiveAppPermissions (db : Database) (input : EffectiveAppPermissionsInput)
    (ctx : EffectiveAppPermissionsCtx) : outcome (option EffectiveAppPermissionsResult) :=
  let provider := in_provider input in
  match getAppPermissionDefinition reg provider with
  | None => inl (service_error NOT_FOUND (js "No permission catalog for provider: " ++ provider))
  | Some def =>
      if bool_decide (ctx_scope ctx = workspace) && is_none (truthy (ctx_workspaceId ctx)) then
        inl (service_error BAD_REQUEST (js "Workspace scope requires a workspace."))
      else match findAgent db input ctx with
      | inl e => inl e
      | inr agent =>
          match findConnection db input ctx with
          | inl e => inl e
          | inr connection =>
              inr (reflectApp def provider ctx (loadAll db provider ctx agent) agent connection)
          end
      end
  end.
End App.
