(* ===== verification/EffectiveToolsSpec.v ===== *)
(** * Properties of the effective-permissions reflection

    The synthesized requests hit the tools they stand for, the per-tool answer
    is the engine's on each of them, the organization ceiling bounds it, and
    what a viewer who may not see organization rules reads does not depend on
    their details. *)
From stdpp Require Import pretty.
From S2P Require Import Prelude PathMatch PolicyTypes JsJson PolicyRows Catalog Evaluator.
From S2P Require Import EndpointMatch Graphql LoadRules ResourceAxis Injection EffectiveTools.

(** ** Synthesis *)

Definition one_star (s : jsstr) : Prop := (count_char ch_star s <= 1)%nat.

Lemma token_no c : c ∉ TOKEN <-> has_char c TOKEN = false.
Proof. symmetry. apply has_char_false. Qed.

Lemma replace_all_no c t s : c ∉ s -> replace_all c t s = s.
Proof.
  unfold replace_all. induction s as [|x s IH]; simpl; [done|]. intros H.
  rewrite (proj2 (N.eqb_neq x c)), IH by set_solver. done.
Qed.

Lemma replace_all_app c t a b : replace_all c t (a ++ b) = replace_all c t a ++ replace_all c t b.
Proof. apply flat_map_app. Qed.

Lemma replace_all_at c t a b :
  c ∉ a -> replace_all c t (a ++ c :: b) = a ++ t ++ replace_all c t b.
Proof.
  intros H. rewrite replace_all_app, (replace_all_no c t a) by done. f_equal.
  unfold replace_all. simpl. by rewrite N.eqb_refl.
Qed.

Lemma replace_all_elem c t s x : x ∈ replace_all c t s -> x ∈ s \/ x ∈ t.
Proof.
  unfold replace_all. rewrite list_elem_of_In, in_flat_map. intros (y & Hy & Hx).
  apply list_elem_of_In in Hy. destruct (N.eqb y c); [right; by apply list_elem_of_In|].
  destruct Hx as [->|[]]. by left.
Qed.

(** The only star of a text, if it has one. *)
Lemma one_star_cases s :
  one_star s ->
  (ch_star ∉ s) \/ (exists p q, s = p ++ ch_star :: q /\ (ch_star ∉ p) /\ (ch_star ∉ q)).
Proof.
  unfold one_star. intros H. destruct (star_cases s) as [(_ & Hs)|(i & _ & E & Hp)]; [by left|right].
  exists (take i s), (drop (S i) s). split_and!; [done..|].
  rewrite E in H. rewrite count_char_app in H. simpl in H. apply count_char_0. lia.
Qed.

Lemma synthesized_segment seg :
  one_star seg -> SegmentSpec (replace_all ch_star TOKEN seg) seg.
Proof.
  intros [Hs|(p & q & -> & Hp & Hq)]%one_star_cases.
  - rewrite replace_all_no by done. by constructor.
  - rewrite replace_all_at, (replace_all_no _ _ q) by done. by constructor.
Qed.

Lemma token_slash : ch_slash ∉ TOKEN.
Proof. by apply has_char_false. Qed.
Lemma token_dot : ch_dot ∉ TOKEN.
Proof. by apply has_char_false. Qed.
Lemma token_qmark : ch_qmark ∉ TOKEN.
Proof. by apply has_char_false. Qed.

Lemma split_synthesized c s :
  c ∉ TOKEN -> split_on c (join [c] (map (replace_all ch_star TOKEN) (split_on c s)))
  = map (replace_all ch_star TOKEN) (split_on c s).
Proof.
  intros Hc. apply split_join.
  - destruct (split_on_cons c s) as (w & ws & ->). done.
  - apply Forall_forall. intros w' (w & -> & Hw)%elem_of_lmap Hin.
    apply replace_all_elem in Hin as [Hin|Hin]; [|done]. by apply (split_on_pieces c s w Hw).
Qed.

(** Replacing stars piece by piece is replacing them. *)
Lemma join_replace c s :
  c <> ch_star ->
  join [c] (map (replace_all ch_star TOKEN) (split_on c s)) = replace_all ch_star TOKEN s.
Proof.
  intros Hc. induction s as [|x s IH]; [done|]. simpl split_on.
  destruct (split_on_cons c s) as (w & ws & E). rewrite E in *.
  assert (replace_all ch_star TOKEN (x :: s) =
          (if N.eqb x ch_star then TOKEN else [x]) ++ replace_all ch_star TOKEN s) as -> by done.
  rewrite <- IH. destruct (N.eqb_spec x c) as [->|Hx].
  - rewrite (proj2 (N.eqb_neq c ch_star)) by done. done.
  - change (replace_all ch_star TOKEN) with
      (flat_map (fun x => if N.eqb x ch_star then TOKEN else [x])).
    destruct ws as [|w2 ws]; simpl; by rewrite <- ?app_assoc.
Qed.

Lemma synthesizePath_replace p :
  p <> js "*" -> synthesizePath p = replace_all ch_star TOKEN p.
Proof.
  intros H. unfold synthesizePath. rewrite bool_decide_eq_false_2 by done. by apply join_replace.
Qed.

Lemma synthesizePath_qmark p : ch_qmark ∉ p -> ch_qmark ∉ synthesizePath p.
Proof.
  intros H. destruct (decide (p = js "*")) as [->|Hne]; [by apply has_char_false|].
  rewrite synthesizePath_replace by done.
  intros [?|?]%replace_all_elem; [done|by apply token_qmark].
Qed.

(** A synthesized path hits the pattern it was made from. *)
Lemma synthesizePath_matches p :
  ch_qmark ∉ p -> Forall one_star (split_on ch_slash p) -> pathMatches (synthesizePath p) p = true.
Proof.
  intros Hq Hone. apply pathMatches_iff.
  rewrite stripQuery_no by by apply synthesizePath_qmark.
  destruct (decide (p = js "*")) as [->|Hne]; [constructor|].
  destruct (hasMidPathWildcard p) eqn:Hm.
  - assert (Forall2 SegmentSpec (split_on ch_slash (synthesizePath p)) (split_on ch_slash p)) as HF.
    { unfold synthesizePath. rewrite bool_decide_eq_false_2 by done.
      change (js "/") with [ch_slash]. rewrite split_synthesized by apply token_slash.
      apply Forall2_fmap_l, Forall_Forall2_diag. eapply Forall_impl; [exact Hone|].
      apply synthesized_segment. }
    destruct (decide (List.last (split_on ch_slash p) [] = js "*")) as [Hl|Hl].
    + apply removelast_snoc_eq in Hl as (_ & E); [|apply split_on_nil].
      rewrite E in HF. apply Forall2_app_inv_r in HF as (segs & rest & HF & HF' & Es).
      eapply path_glob_deep; eauto. intros ->. by inversion HF'.
    + by apply path_glob.
  - rewrite synthesizePath_replace by done.
    destruct p as [|x q _] using rev_ind; [by apply path_exact; set_solver|].
    rewrite hasMidPathWildcard_snoc, has_char_false in Hm.
    destruct (decide (x = ch_star)) as [->|Hx].
    2: { rewrite replace_all_no by set_solver. apply path_exact. set_solver. }
    rewrite replace_all_at, app_nil_r by done.
    change [ch_star] with (js "*") in *.
    destruct (decide (ends_with (js "/") q = true)) as [Hs|Hs].
    + apply ends_with_spec in Hs as (r & ->). rewrite <- slash_star_split, <- app_assoc.
      apply path_under. set_solver.
    + apply path_prefix; [done| |].
      * intros ->. done.
      * intros r ->. by rewrite ends_with_app in Hs.
Qed.

(** A host pattern is usable when it has one star, or several in labels that
    are not empty and have one at most. *)
Definition host_ok (p : jsstr) : Prop :=
  one_star p \/ Forall (fun l => l <> [] /\ one_star l) (split_on ch_dot p).

Lemma synthesized_label l : l <> [] -> one_star l -> LabelSpec (replace_all ch_star TOKEN l) l.
Proof.
  intros Hne [Hs|(p & q & -> & Hp & Hq)]%one_star_cases.
  - rewrite replace_all_no by done. by constructor.
  - rewrite replace_all_at, (replace_all_no _ _ q) by done.
    apply (label_glob _ p (map ascii_lower_char TOKEN) q); [done..|].
    unfold folded_split. by rewrite !asciiLower_app.
Qed.

Lemma synthesizeHost_matches p : host_ok p -> hostMatches (synthesizeHost p) p = true.
Proof.
  intros Hok. apply hostMatches_iff. unfold synthesizeHost.
  assert (one_star p -> HostSpec (replace_all ch_star TOKEN p) p) as H1.
  { intros [Hs|(a & b & -> & Ha & Hb)]%one_star_cases.
    - rewrite replace_all_no by done. by apply host_literal.
    - rewrite replace_all_at, (replace_all_no _ _ b) by done.
      apply (host_glob _ a (map ascii_lower_char TOKEN) b); [done..|].
      unfold folded_split. by rewrite !asciiLower_app. }
  destruct Hok as [H|H]; [by apply H1|].
  destruct (decide (count_char ch_star p <= 1)%nat) as [Hc|Hc]; [by apply H1|].
  apply host_labels; [lia|]. rewrite <- (join_replace ch_dot p) by done.
  rewrite split_synthesized by apply token_dot.
  apply Forall2_fmap_l, Forall_Forall2_diag. eapply Forall_impl; [exact H|].
  intros l [??]. by apply synthesized_label.
Qed.

(** A path pattern the catalog may hold: no query, one star in a segment. *)
Definition path_ok (p : jsstr) : Prop :=
  (ch_qmark ∉ p) /\ Forall one_star (split_on ch_slash p).

Definition tool_ok (tool : AppTool) : Prop :=
  host_ok (at_hostPattern tool) /\
  Forall path_ok (at_pathPattern tool :: default [] (at_aliasPatterns tool)).

#[export] Instance one_star_dec s : base.Decision (one_star s).
Proof. unfold one_star. apply _. Defined.
#[export] Instance tool_ok_dec tool : base.Decision (tool_ok tool).
Proof. unfold tool_ok, host_ok, path_ok. apply _. Defined.

Lemma synthesizeBody_class tool ops :
  at_graphqlOps tool = Some ops -> classifyGraphqlBody (synthesizeBody tool) = ops.
Proof.
  intros E. unfold synthesizeBody. rewrite E.
  destruct ops; [|]; simpl; by vm_compute.
Qed.

Lemma variant_path tool v :
  v ∈ allRuleVariants tool -> v.1 ∈ at_pathPattern tool :: default [] (at_aliasPatterns tool).
Proof.
  unfold allRuleVariants. rewrite list_elem_of_In, in_flat_map.
  intros (p & Hp & (m & <- & _)%in_map_iff). simpl. by apply list_elem_of_In.
Qed.

(** The request synthesized for an endpoint of a catalog tool is one the
    tool matches: its host, path and method hit the tool's patterns, and the
    body of a GraphQL-tagged tool is classified as the tool's own kind. So the
    verdict the panel shows is the engine's answer to a request through that
    tool. *)
Theorem synthesized_request_hits_tool input tool v
  (Hok : tool_ok tool) (Hv : v ∈ allRuleVariants tool) :
  toolMatches (variantRequest input tool v) tool None = true.
Proof.
  destruct Hok as [Hhost Hpaths]. rewrite Forall_forall in Hpaths.
  destruct (Hpaths _ (variant_path _ _ Hv)) as [Hq Hone].
  unfold toolMatches.
  assert (existsb (fun h => hostMatches (rq_host (variantRequest input tool v)) h)
            (hostPatternsOf tool) = true) as ->.
  { apply existsb_In. exists (at_hostPattern tool). split; [by left|].
    by apply synthesizeHost_matches. }
  assert (graphqlOpsAgree tool (variantRequest input tool v) = true) as ->.
  { unfold graphqlOpsAgree. destruct (at_graphqlOps tool) as [ops|] eqn:E; [|done]. cbn [rq_path rq_body variantRequest].
    rewrite (proj2 (has_char_false _ _)) by by apply synthesizePath_qmark.
    by apply bool_decide_eq_true, synthesizeBody_class. }
  apply existsb_In. exists v. split; [done|]. apply endpointMatches_iff. apply endpoint_direct.
  - apply pathMatches_iff. by apply synthesizePath_matches.
  - unfold MethodSpec. cbn [rq_method variantRequest]. intros m E. by rewrite E.
  - constructor.
Qed.
(** ** The per-tool answer *)

(** What an engine outcome reads as: verdict and modifiers. *)
Definition outcome_view (o : PolicyOutcome)
  : EffectiveToolVerdict * option Z * option RateWindow :=
  match o with
  | OutRule r =>
      if bool_decide (rl_action r = block) then (v_block, None, None)
      else if rl_requireApproval r then (v_approval, None, None)
      else (v_allow, rl_rateLimit r, rl_rateLimitWindow r)
  | OutDenyDefault _ _ => (v_block, None, None)
  | OutAllow managed => (if managed then v_allow else v_unmanaged, None, None)
  end.

(** The view is the gateway's decision: blocked, sent to approval, or let
    through. *)
Lemma outcome_view_decision o :
  (dec_action (outcomeToDecision o) = block <-> (outcome_view o).1.1 = v_block) /\
  (dec_requireApproval (outcomeToDecision o) = Some true <-> (outcome_view o).1.1 = v_approval) /\
  (outcome_view o).1.1 <> v_mixed.
Proof.
  destruct o as [r|l r|[]]; simpl; try by (split_and!).
  unfold toDecision.
  destruct (rl_action r), (rl_requireApproval r), (rl_rateLimit r), (rl_rateLimitWindow r);
    simpl; by split_and!.
Qed.

(** *** Keys are faithful *)

Lemma js_inj s1 s2 : js s1 = js s2 -> s1 = s2.
Proof.
  unfold js. revert s2. induction s1 as [|a s1 IH]; intros [|b s2]; simpl; try done.
  intros [= Ha Hs]. apply (f_equal Ascii.ascii_of_N) in Ha.
  rewrite !Ascii.ascii_N_embedding in Ha. by rewrite Ha, (IH s2).
Qed.

Lemma pretty_N_go_nonempty x s : s <> String.EmptyString -> pretty_N_go x s <> String.EmptyString.
Proof.
  revert s. induction (N.lt_wf_0 x) as [x _ IH]; intros s Hs.
  destruct (decide (x = 0%N)) as [->|Hx]; [by rewrite pretty_N_go_0|].
  rewrite pretty_N_go_step by lia. apply IH; [|done]. apply N.div_lt; lia.
Qed.

Lemma pretty_Z_nonempty (n : Z) : pretty n <> String.EmptyString.
Proof.
  destruct n as [|p|p]; [done| |done]. change (pretty (Z.pos p)) with (pretty (N.pos p)).
  unfold pretty, pretty_N. rewrite decide_False by done. rewrite pretty_N_go_step by lia.
  by apply pretty_N_go_nonempty.
Qed.

Lemma rate_text_inj m n : rate_text m = rate_text n -> m = n.
Proof.
  destruct m as [m|], n as [n|]; simpl; try done.
  - intros E%js_inj. f_equal. by apply (inj pretty).
  - intros E. by destruct (pretty_Z_nonempty m (js_inj _ String.EmptyString E)).
  - intros E. by destruct (pretty_Z_nonempty n (js_inj _ String.EmptyString (eq_sym E))).
Qed.

Lemma window_name_inj w w' : window_name w = window_name w' -> w = w'.
Proof. by destruct w as [[]|], w' as [[]|]. Qed.

Lemma window_name_pipe w : ch_pipe ∉ window_name w.
Proof. by apply has_char_false; destruct w as [[]|]. Qed.

Lemma rate_key_inj p m w p' m' w' :
  p ++ js "|" ++ rate_text m ++ js "|" ++ window_name w =
  p' ++ js "|" ++ rate_text m' ++ js "|" ++ window_name w' ->
  (ch_pipe ∉ p) -> (ch_pipe ∉ p') -> p = p' /\ m = m' /\ w = w'.
Proof.
  change (js "|") with [ch_pipe]. cbn [app]. intros E Hp Hp'.
  assert (forall a b c : jsstr, a ++ ch_pipe :: b ++ ch_pipe :: c = (a ++ ch_pipe :: b) ++ ch_pipe :: c)
    as Hassoc by (intros; by rewrite <- app_assoc).
  pose proof E as E'. rewrite !Hassoc in E'.
  apply split_last_inj in E' as [_ Ew]; [|apply window_name_pipe..].
  apply split_first_inj in E as [-> E]; [|done..].
  apply split_last_inj in E as [Em _]; [|apply window_name_pipe..].
  split_and!; [done|by apply rate_text_inj|by apply window_name_inj].
Qed.

(** The key of a variant: equal keys are equal views. *)
Definition view_key (v : EffectiveToolVerdict * option Z * option RateWindow) : jsstr :=
  match v.1.1 with
  | v_allow => js "allow|" ++ rate_text v.1.2 ++ js "|" ++ window_name v.2
  | verdict => verdict_name verdict
  end.

Lemma view_key_inj o o' :
  view_key (outcome_view o) = view_key (outcome_view o') <-> outcome_view o = outcome_view o'.
Proof.
  split; [|by intros ->].
  assert (forall o, exists v m w, outcome_view o = (v, m, w) /\ v <> v_mixed /\
    (v = v_allow \/ m = None /\ w = None)) as Hcases.
  { intros [r| |[]]; simpl; [|eauto 10..].
    case_bool_decide; [eauto 10|]. destruct (rl_requireApproval r); eauto 10. }
  destruct (Hcases o) as (v & m & w & -> & Hv & Hr), (Hcases o') as (v' & m' & w' & -> & Hv' & Hr').
  unfold view_key. cbn [fst snd].
  destruct v, v'; try done; try (by destruct Hr as [?|[-> ->]], Hr' as [?|[-> ->]]).
  intros E. change (js "allow|") with (js "allow" ++ js "|") in E. rewrite <- !app_assoc in E.
  apply rate_key_inj in E as (_ & -> & ->); [done|by apply has_char_false..].
Qed.

Lemma toolKey_inj t t' :
  toolKey t = toolKey t' <->
  tl_verdict t = tl_verdict t' /\ tl_rateLimit t = tl_rateLimit t' /\
  tl_rateLimitWindow t = tl_rateLimitWindow t'.
Proof.
  unfold toolKey. split; [|by intros (-> & -> & ->)].
  intros (E & -> & ->)%rate_key_inj.
  - split_and!; [|done..]. by destruct (tl_verdict t), (tl_verdict t').
  - apply has_char_false. by destruct (tl_verdict t).
  - apply has_char_false. by destruct (tl_verdict t').
Qed.

(** *** Ceilings *)

Definition ceiling_rank (c : option OrgCeilingVerdict) : nat :=
  match c with Some c => CEILING_RANK c | None => 0 end.

(** The strictest of the ceilings. *)
Lemma foldCeilings_spec l :
  (forall c, c ∈ l -> (ceiling_rank c <= ceiling_rank (foldCeilings l))%nat) /\
  (foldCeilings l = None \/ foldCeilings l ∈ l).
Proof.
  unfold foldCeilings. apply (fold_left_prefix_inv _ (fun pre s =>
    (forall c, c ∈ pre -> (ceiling_rank c <= ceiling_rank s)%nat) /\ (s = None \/ s ∈ pre))).
  - split; [set_solver|by left].
  - intros pre b post a _ [Hle Hin].
    assert (ceiling_rank a <= ceiling_rank (match b with None => a | Some b =>
      match a with None => Some b | Some a =>
        if (CEILING_RANK a <? CEILING_RANK b)%nat then Some b else Some a end end))%nat as Ha.
    { destruct b as [b|], a as [a|]; simpl; try lia.
      destruct (Nat.ltb_spec (CEILING_RANK a) (CEILING_RANK b)); simpl; lia. }
    split.
    + intros c [Hc|Hc]%elem_of_app; [specialize (Hle _ Hc); lia|].
      apply list_elem_of_singleton in Hc as ->.
      destruct b as [b|], a as [a|]; simpl; try lia.
      destruct (Nat.ltb_spec (CEILING_RANK a) (CEILING_RANK b)); simpl; lia.
    + destruct b as [b|], a as [a|]; try destruct (_ <? _)%nat; set_solver.
Qed.

Section Answers.
Context (reg : Registry) `{JsCase}.

Abbreviation outcome_of rules rq := (evaluatePolicyOutcome reg rules rq).

(** What a verdict may be under a ceiling. *)
Definition within (c : OrgCeilingVerdict) (v : EffectiveToolVerdict) : Prop :=
  match c with
  | c_block => v = v_block
  | c_approval => v = v_block \/ v = v_approval
  | c_allow => v <> v_unmanaged
  end.

Lemma view_rank o :
  (outcome_rank o = 0%nat <-> (outcome_view o).1.1 = v_block) /\
  (outcome_rank o = 1%nat <-> (outcome_view o).1.1 = v_approval) /\
  (outcome_rank o = 4%nat -> exists managed, o = OutAllow managed) /\
  (forall managed, o = OutAllow managed -> outcome_rank o = 4%nat).
Proof.
  destruct o as [r|l r|[]]; simpl; [|by split_and!..|by split_and!; eauto|by split_and!; eauto].
  destruct (strictnessRank_bounds r) as (Hb & _ & _). unfold strictnessRank in *.
  destruct (rl_action r), (rl_requireApproval r), (rl_rateLimit r); simpl; split_and!; try done; lia.
Qed.

Lemma ceiling_within rules rq c :
  orgCeilingOf reg rules rq = Some c -> within c (outcome_view (outcome_of rules rq)).1.1.
Proof.
  unfold orgCeilingOf. change (fun r => bool_decide (rl_scope r = organization))
    with (of_scope organization).
  pose proof (outcome_rank_min reg rules rq) as Hmin. cbv beta zeta in Hmin.
  destruct (view_rank (outcome_of rules rq)) as (H0 & H1 & _ & H4).
  destruct (evaluatePolicyOutcome reg (List.filter (of_scope organization) rules) rq)
    as [r|l r|m]; [|intros [= <-]; simpl in *; apply H0; lia|done].
  unfold outcome_rank at 2 in Hmin. unfold strictnessRank in Hmin.
  destruct (rl_action r) eqn:Ea; simpl; [|intros [= <-]; simpl; apply H0; lia].
  destruct (rl_requireApproval r) eqn:Er; intros [= <-]; simpl.
  - rewrite <- H0, <- H1. lia.
  - intros Hu. destruct (outcome_of rules rq) as [r'| |m] eqn:Eo.
    + simpl in Hu. destruct (rl_action r'), (rl_requireApproval r'); done.
    + done.
    + specialize (H4 m eq_refl). destruct (rl_rateLimit r); lia.
Qed.

Lemma evaluateVariant_Some sims rules rq b e :
  evaluateVariant reg sims rules rq b = Some e ->
  (ve_verdict e, ve_rateLimit e, ve_rateLimitWindow e) = outcome_view (outcome_of rules rq) /\
  ve_key e = view_key (outcome_view (outcome_of rules rq)) /\
  ve_orgCeiling e = orgCeilingOf reg rules rq.
Proof.
  unfold evaluateVariant. destruct (outcome_of rules rq) as [r|l r|[]]; simpl.
  - destruct (List.find _ sims); [|done]. intros [= <-]. unfold outcome_view.
    case_bool_decide; [done|]. by destruct (rl_requireApproval r).
  - by intros [= <-].
  - by intros [= <-].
  - by intros [= <-].
Qed.

Lemma evaluateVariant_total sims rq b :
  is_Some (evaluateVariant reg sims (map sim_rule sims) rq b).
Proof.
  unfold evaluateVariant. destruct (outcome_of _ rq) as [r|l r|m] eqn:E; [|eauto..].
  apply outcome_rule_in in E as ((s & -> & Hs)%elem_of_lmap & _).
  destruct (List.find _ sims) eqn:Ef; [eauto|].
  apply list_elem_of_In in Hs. pose proof (find_none _ _ Ef s Hs) as Hf. simpl in Hf.
  by rewrite bool_decide_eq_true_2 in Hf.
Qed.

(** The evaluations of a tool's variants, in order. *)
Lemma computeTool_Some input tool t :
  computeTool reg input tool = Some t ->
  exists evals, t = aggregateVariants (at_id tool) evals /\
    Forall2 (fun v e => evaluateVariant reg (ci_simRules input) (ci_engineRules input)
               (variantRequest input tool v) (ci_viewerSeesOrgRules input) = Some e)
      (allRuleVariants tool) evals.
Proof.
  unfold computeTool. intros (evals & HF & [= <-])%bind_Some.
  apply mapM_Some in HF. eauto.
Qed.

(** The answer for a tool is the engine's answer for each of its endpoints.
    A definite verdict, with its rate limit, is what the published rules decide
    for every synthesized request; [mixed] means two of them are decided
    differently. *)
Theorem computeTool_answers input tool t
  (Ht : computeTool reg input tool = Some t) (Hv : allRuleVariants tool <> []) :
  let view v := outcome_view (outcome_of (ci_engineRules input) (variantRequest input tool v)) in
  (tl_verdict t <> v_mixed ->
   forall v, v ∈ allRuleVariants tool ->
     view v = (tl_verdict t, tl_rateLimit t, tl_rateLimitWindow t)) /\
  (tl_verdict t = v_mixed ->
   exists v v', v ∈ allRuleVariants tool /\ v' ∈ allRuleVariants tool /\ view v <> view v').
Proof.
  intros view. apply computeTool_Some in Ht as (evals & -> & HF).
  assert (Forall2 (fun v e => (ve_verdict e, ve_rateLimit e, ve_rateLimitWindow e) = view v /\
            ve_key e = view_key (view v)) (allRuleVariants tool) evals) as HF'.
  { eapply Forall2_impl; [exact HF|]. intros v e (E1 & E2 & _)%evaluateVariant_Some. by split. }
  clear HF. destruct HF' as [|v0 e0 vs es [E0 K0] HF]; [done|]. unfold aggregateVariants.
  destruct (forallb _ (e0 :: es)) eqn:Eall;
    cbn [tl_verdict tl_rateLimit tl_rateLimitWindow plainTool].
  - rewrite forallb_In in Eall. split.
    + intros _ v [->|Hin]%elem_of_cons; [done|].
      destruct (proj1 (list_elem_of_lookup vs v) Hin) as [i Hi].
      destruct (Forall2_lookup_l _ _ _ _ _ HF Hi) as (e & He & Ee & Ke).
      assert (ve_key e = ve_key e0) as Hk.
      { apply (bool_decide_eq_true_1 _), Eall. right. by eapply list_elem_of_lookup_2. }
      rewrite E0. apply view_key_inj. fold (view v) (view v0). congruence.
    + intros Hm. exfalso.
      destruct (outcome_view_decision (outcome_of (ci_engineRules input)
        (variantRequest input tool v0))) as (_ & _ & Hd).
      apply Hd. fold (view v0). by rewrite <- E0.
  - split; [done|]. intros _. exists v0. cbn [forallb] in Eall.
    assert (exists v, v ∈ vs /\ view v0 <> view v) as (v & Hin & Hne).
    2: { exists v. split_and!; [by left|by right|done]. }
    apply not_true_iff_false in Eall. rewrite bool_decide_eq_true_2 in Eall by done. cbn [andb] in Eall.
    clear E0 Hv. induction HF as [|v e vs es [E K] HF IH]; [done|]. simpl in Eall.
    destruct (decide (ve_key e = ve_key e0)) as [Hk|Hk].
    + rewrite bool_decide_eq_true_2 in Eall by done. destruct (IH Eall) as (v' & ? & ?).
      exists v'. split; [by right|done].
    + exists v. split; [by left|]. intros Hw. apply Hk. congruence.
Qed.

(** The disclosed ceiling is the organization's, and it is a ceiling. It is
    the strictest of what the organization's rules alone say on the tool's
    endpoints, and a tool's verdict never reads looser than it (it may be
    [mixed], when the endpoints differ). *)
Theorem orgCeiling_bounds_tool input tool t c
  (Ht : computeTool reg input tool = Some t) (Hc : tl_orgCeiling t = Some c) :
  let org v := orgCeilingOf reg (ci_engineRules input) (variantRequest input tool v) in
  (exists v, v ∈ allRuleVariants tool /\ org v = Some c) /\
  (forall v, v ∈ allRuleVariants tool -> (ceiling_rank (org v) <= CEILING_RANK c)%nat) /\
  (within c (tl_verdict t) \/ tl_verdict t = v_mixed).
Proof.
  intros org. pose proof Ht as Ht'. apply computeTool_Some in Ht as (evals & -> & HF).
  assert (Forall2 (fun v e => ve_orgCeiling e = org v) (allRuleVariants tool) evals) as HF'.
  { eapply Forall2_impl; [exact HF|]. by intros v e (_ & _ & ?)%evaluateVariant_Some. }
  assert (tl_orgCeiling (aggregateVariants (at_id tool) evals)
          = foldCeilings (map ve_orgCeiling evals)) as E.
  { unfold aggregateVariants. destruct evals; [done|]. by destruct (forallb _ _). }
  rewrite E in Hc. destruct (foldCeilings_spec (map ve_orgCeiling evals)) as [Hle Hin].
  rewrite Hc in Hle, Hin. destruct Hin as [|(e & He & Hine)%elem_of_lmap]; [done|].
  destruct (proj1 (list_elem_of_lookup _ _) Hine) as [i Hi].
  destruct (Forall2_lookup_r _ _ _ _ _ HF' Hi) as (v & Hvi & Ev).
  assert (v ∈ allRuleVariants tool) as Hv by by eapply list_elem_of_lookup_2.
  split_and!.
  - exists v. split; [done|]. by rewrite <- Ev.
  - intros w Hw. destruct (proj1 (list_elem_of_lookup _ _) Hw) as [j Hj].
    destruct (Forall2_lookup_l _ _ _ _ _ HF' Hj) as (e' & He' & <-).
    apply (Hle (ve_orgCeiling e')). apply elem_of_lmap. exists e'. split; [done|].
    by eapply list_elem_of_lookup_2.
  - destruct (decide (tl_verdict (aggregateVariants (at_id tool) evals) = v_mixed)); [by right|left].
    apply computeTool_answers in Ht' as [Ha _]; [|by intros E'; rewrite E' in Hv; set_solver].
    pose proof (ceiling_within (ci_engineRules input) (variantRequest input tool v) c) as Hw.
    rewrite Ha in Hw by done. apply Hw. fold (org v). by rewrite <- Ev.
Qed.
End Answers.

(** ** Across connected accounts *)

Definition tool_answer (t : EffectiveToolResult)
  : EffectiveToolVerdict * option Z * option RateWindow :=
  (tl_verdict t, tl_rateLimit t, tl_rateLimitWindow t).

Lemma toolKey_answer t t' : toolKey t = toolKey t' <-> tool_answer t = tool_answer t'.
Proof.
  rewrite toolKey_inj. unfold tool_answer. split; [by intros (-> & -> & ->)|].
  intros E. by injection E.
Qed.

Lemma foldToolRuns_spec tool across :
  tool ∈ across ->
  let t := foldToolRuns tool across in
  (tl_verdict t <> v_mixed -> forall x, x ∈ across -> tool_answer x = tool_answer t) /\
  (tl_verdict t = v_mixed ->
     exists x y, x ∈ across /\ y ∈ across /\ (tl_verdict x = v_mixed \/ tool_answer x <> tool_answer y)) /\
  (forall x, x ∈ across ->
     (ceiling_rank (tl_orgCeiling x) <= ceiling_rank (tl_orgCeiling t))%nat).
Proof.
  intros Hin t.
  assert (tl_orgCeiling t = foldCeilings (map tl_orgCeiling across)) as Ec.
  { unfold t, foldToolRuns.
    by destruct (forallb (fun x => bool_decide (toolKey x = toolKey tool)) across). }
  assert (forall x, x ∈ across ->
     (ceiling_rank (tl_orgCeiling x) <= ceiling_rank (tl_orgCeiling t))%nat) as Hc.
  { intros x Hx. rewrite Ec. apply foldCeilings_spec, elem_of_lmap. eauto. }
  unfold t, foldToolRuns in *. destruct (forallb (fun x => bool_decide (toolKey x = toolKey tool)) across) eqn:E.
  - rewrite forallb_In in E. split_and!; [| |done].
    + intros _ x Hx. apply E, bool_decide_eq_true, toolKey_answer in Hx. done.
    + intros Hm. exists tool, tool. split_and!; [done|done|by left].
  - split_and!; [done| |done]. intros _.
    assert (exists x, x ∈ across /\ toolKey x <> toolKey tool) as (x & Hx & Hne).
    { apply not_true_iff_false in E. clear -E.
      induction across as [|y l IH]; simpl in E; [done|].
      destruct (decide (toolKey y = toolKey tool)) as [Hk|Hk].
      - rewrite bool_decide_eq_true_2 in E by done. destruct (IH E) as (x & ? & ?).
        exists x. split; [by right|done].
      - exists y. split; [by left|done]. }
    exists x, tool. split_and!; [done..|right]. by rewrite <- toolKey_answer.
Qed.

(** The number of tools in each group: every run reflects one catalog. *)
Definition shape (run : list EffectiveToolGroupResult) : list nat :=
  map (fun g => length (tg_tools g)) run.

(** The tool a run holds at a position. *)
Definition tool_at (run : list EffectiveToolGroupResult) (gi ti : nat)
  : option EffectiveToolResult := g ← run !! gi; tg_tools g !! ti.

Lemma shape_tool_at r r' gi ti :
  shape r = shape r' -> is_Some (tool_at r gi ti) -> is_Some (tool_at r' gi ti).
Proof.
  unfold tool_at, shape. intros Hs [t (g & Hg & Ht)%bind_Some].
  assert (map (fun g => length (tg_tools g)) r !! gi = Some (length (tg_tools g))) as E
    by (change (map ?f) with (fmap f : list _ -> list _); by rewrite list_lookup_fmap, Hg).
  rewrite Hs in E. change (map ?f) with (fmap f : list _ -> list _) in E.
  rewrite list_lookup_fmap in E. destruct (r' !! gi) as [g'|]; [|done].
  injection E as E. apply lookup_lt_is_Some. rewrite E. by eapply lookup_lt_Some.
Qed.

(** The view over several connected accounts. On runs of one catalog, a
    folded tool keeps a verdict (and its limits) only when every account has
    it, reads [mixed] only when two accounts disagree or one is mixed itself,
    and its ceiling is at least as strict as every account's. *)
Theorem foldGroupRuns_answers runs gi ti t
  (Hshape : forall r r', r ∈ runs -> r' ∈ runs -> shape r = shape r')
  (Ht : tool_at (foldGroupRuns runs) gi ti = Some t) :
  exists across, mapM (fun r => tool_at r gi ti) runs = Some across /\
  (tl_verdict t <> v_mixed -> forall x, x ∈ across -> tool_answer x = tool_answer t) /\
  (tl_verdict t = v_mixed ->
     exists x y, x ∈ across /\ y ∈ across /\ (tl_verdict x = v_mixed \/ tool_answer x <> tool_answer y)) /\
  (forall x, x ∈ across ->
     (ceiling_rank (tl_orgCeiling x) <= ceiling_rank (tl_orgCeiling t))%nat).
Proof.
  destruct runs as [|first [|second rest]].
  - by destruct gi.
  - simpl in Ht. exists [t]. simpl. rewrite Ht. split_and!; [done| | |].
    + by intros _ x ->%list_elem_of_singleton.
    + intros Hm. exists t, t. split_and!; [left|left|by left].
    + by intros x ->%list_elem_of_singleton.
  - set (runs := first :: second :: rest) in *.
    assert (first ∈ runs) as Hfirst by left. unfold tool_at in Ht.
    apply bind_Some in Ht as (g & Hg & Ht).
    change (foldGroupRuns runs) with (imap (fun gi group =>
        let tools := imap (fun ti tool =>
          let across := map (fun r => match r !! gi with
            | Some g => default tool (tg_tools g !! ti) | None => tool end) runs in
          foldToolRuns tool across) (tg_tools group) in
        {| tg_category := tg_category group; tg_verdict := groupVerdict tools;
           tg_tools := tools |}) first) in Hg.
    rewrite list_lookup_imap in Hg. apply fmap_Some in Hg as (g0 & Hg0 & ->).
    cbn [tg_tools] in Ht. rewrite list_lookup_imap in Ht.
    apply fmap_Some in Ht as (tool & Htool & ->).
    set (across := map _ runs).
    assert (mapM (fun r => tool_at r gi ti) runs = Some across) as Hm.
    { apply mapM_Some. apply Forall2_fmap_r, Forall_Forall2_diag, Forall_forall. intros r Hr.
      destruct (shape_tool_at first r gi ti (Hshape _ _ Hfirst Hr)) as [x Hx].
      - unfold tool_at. rewrite Hg0. simpl. by rewrite Htool.
      - rewrite Hx. unfold tool_at in Hx. apply bind_Some in Hx as (g' & Eg & Et).
        unfold compose. by rewrite Eg, Et. }
    exists across. split; [done|]. apply foldToolRuns_spec.
    apply elem_of_lmap. exists first. split; [|done]. by rewrite Hg0, Htool.
Qed.

(** ** The whole reflection *)

Section Whole.
Context (reg : Registry) `{JsCase}.

Lemma computeTool_total input tool :
  ci_engineRules input = map sim_rule (ci_simRules input) ->
  is_Some (computeTool reg input tool).
Proof.
  intros E. unfold computeTool.
  destruct (mapM_is_Some_2 (fun v => evaluateVariant reg (ci_simRules input) (ci_engineRules input)
    (variantRequest input tool v) (ci_viewerSeesOrgRules input)) (allRuleVariants tool)) as [es Hes].
  - apply Forall_forall. intros v _. rewrite E. apply evaluateVariant_total.
  - simpl in *. rewrite Hes. simpl. eauto.
Qed.

Lemma computeEffectiveGroups_total input :
  ci_engineRules input = map sim_rule (ci_simRules input) ->
  is_Some (computeEffectiveGroups reg input).
Proof.
  intros E. unfold computeEffectiveGroups.
  destruct (mapM_is_Some_2 (computeGroup reg input) (ad_groups (ci_def input))) as [gs Hgs].
  - apply Forall_forall. intros g _. unfold computeGroup.
    destruct (mapM_is_Some_2 (computeTool reg input) (ag_tools g)) as [ts Hts].
    + apply Forall_forall. intros t _. by apply computeTool_total.
    + simpl in *. rewrite Hts. simpl. eauto.
  - simpl in *. rewrite Hgs. simpl. eauto.
Qed.

Lemma reflectApp_total def provider ctx ld agent connection :
  is_Some (reflectApp reg def provider ctx ld agent connection).
Proof.
  assert (forall winner, is_Some (runCompute reg def ctx ld agent winner)) as Hrun
    by (intros; by apply computeEffectiveGroups_total).
  unfold reflectApp.
  assert (is_Some (foldedRuns reg def provider ctx ld agent connection)) as [[gs b] ->].
  { unfold foldedRuns. destruct connection; [done|].
    destruct (_ && _); [|done].
    destruct (mapM_is_Some_2 (fun id => runCompute reg def ctx ld agent (Some id))
                (ld_providerConnectionIds ld)) as [rs Hrs].
    - apply Forall_forall. intros id _. apply Hrun.
    - simpl in *. rewrite Hrs. simpl. eauto. }
  simpl. eauto.
Qed.

Lemma findAgent_fenced db input ctx a :
  findAgent db input ctx = inr a ->
  a = in_agentId input /\
  (forall id, a = Some id -> ctx_scope ctx = workspace /\
     exists r, r ∈ db_agents db /\ agr_id r = id /\ ctx_workspaceId ctx = Some (agr_workspaceId r)).
Proof.
  unfold findAgent. destruct (in_agentId input) as [id|]; [|by intros [= <-]].
  case_bool_decide as Hs; simpl; [|done].
  destruct (List.find _ _) as [r|] eqn:Ef; [|done]. intros [= <-].
  apply find_some in Ef as [Hin E]. to_prop. subst. split; [done|].
  intros id [= <-]. split; [done|]. exists r. by rewrite list_elem_of_In.
Qed.

Lemma findConnection_fenced db input ctx c :
  findConnection db input ctx = inr c ->
  c = in_connectionId input /\
  (forall id, c = Some id -> ctx_scope ctx = workspace /\
     exists r, r ∈ db_connections db /\ cr_id r = id /\ cr_provider r = in_provider input /\
       pool_where ctx (cr_organizationId r) (cr_workspaceId r) (cr_scope r) = true).
Proof.
  unfold findConnection. destruct (in_connectionId input) as [id|]; [|by intros [= <-]].
  case_bool_decide as Hs; simpl; [|done].
  destruct (List.find _ _) as [r|] eqn:Ef; [|done]. intros [= <-].
  apply find_some in Ef as [Hin E]. to_prop. subst. split; [done|].
  intros id [= <-]. split; [done|]. exists r. by rewrite list_elem_of_In.
Qed.

(** Fences and errors. The reflection answers only for an agent of the
    caller's own workspace and a connection of the app that the workspace or
    its organization owns; anything else is [NOT_FOUND] or [BAD_REQUEST], and
    the engine's internal error never comes out. *)
Theorem effectiveAppPermissions_fenced db input ctx :
  match effectiveAppPermissions reg db input ctx with
  | inl e => se_code e = NOT_FOUND \/ se_code e = BAD_REQUEST
  | inr None => False
  | inr (Some r) =>
      is_Some (getAppPermissionDefinition reg (in_provider input)) /\
      ep_agentId r = in_agentId input /\
      (forall id, in_agentId input = Some id ->
         exists a, a ∈ db_agents db /\ agr_id a = id /\
           ctx_workspaceId ctx = Some (agr_workspaceId a)) /\
      (forall id, in_connectionId input = Some id ->
         exists c, c ∈ db_connections db /\ cr_id c = id /\ cr_provider c = in_provider input /\
           (cr_workspaceId c = ctx_workspaceId ctx \/
            cr_organizationId c = Some (ctx_organizationId ctx) /\
            cr_scope c = js "organization"))
  end.
Proof.
  unfold effectiveAppPermissions.
  destruct (getAppPermissionDefinition reg (in_provider input)) as [def|] eqn:Ed; [|by left].
  destruct (_ && _); [by right|].
  destruct (findAgent db input ctx) as [e|a] eqn:Ea.
  { unfold findAgent in Ea. destruct (in_agentId input); [|done].
    case_bool_decide; simpl in Ea; [|injection Ea as <-; by right].
    destruct (List.find _ _); [done|]. injection Ea as <-. by left. }
  destruct (findConnection db input ctx) as [e|c] eqn:Ec.
  { unfold findConnection in Ec. destruct (in_connectionId input); [|done].
    case_bool_decide; simpl in Ec; [|injection Ec as <-; by right].
    destruct (List.find _ _); [done|]. injection Ec as <-. by left. }
  apply findAgent_fenced in Ea as [-> Ha]. apply findConnection_fenced in Ec as [-> Hc].
  destruct (reflectApp_total def (in_provider input) ctx
    (loadAll db (in_provider input) ctx (in_agentId input)) (in_agentId input)
    (in_connectionId input)) as [r Hr]. rewrite Hr. split_and!; [eauto| | |].
  - unfold reflectApp in Hr. apply bind_Some in Hr as ([gs b] & _ & [= <-]). done.
  - intros id Hid. by apply Ha.
  - intros id Hid. destruct (Hc id Hid) as (Hws & r' & Hin & Hi & Hp & Hf).
    exists r'. split_and!; [done..|]. unfold pool_where in Hf. rewrite Hws in Hf.
    apply orb_true_iff in Hf as [Hf|Hf]; [left|right].
    + by apply bool_decide_eq_true in Hf.
    + by to_prop.
Qed.
End Whole.

(** ** Concrete instances *)
Module Sample.
Definition tool (id path : jsstr) (method : option jsstr) (ops : option GraphqlOpKind) : AppTool :=
  {| at_id := id; at_name := id; at_description := []; at_hostPattern := js "*.acme.test";
     at_hostAliasPatterns := None; at_pathPattern := path; at_aliasPatterns := None;
     at_method := method; at_methods := None; at_graphqlOps := ops |}.

Definition read_tool : AppTool := tool (js "read") (js "/v1/*/items") (Some (js "GET")) None.
Definition graph_tool : AppTool :=
  tool (js "graph") (js "/graphql") (Some (js "POST")) (Some op_query).

Definition def : AppPermissionDefinition :=
  {| ad_provider := js "acme";
     ad_groups := [{| ag_category := cat_read; ag_tools := [read_tool; graph_tool];
                      ag_wildcard := None |}];
     ad_unlisted_block := false; ad_exhaustive := false; ad_unlistedReads_allow := false |}.
Definition reg : Registry := {[ js "acme" := def ]}.

(** The organization sends [/v1/*] to approval; the workspace allows the app. *)
Definition rows (org_name : jsstr) : list RuleRow :=
  [{| row_id := js "o1"; row_scope := js "organization"; row_organizationId := Some (js "org");
      row_workspaceId := None; row_status := js "published"; row_generation := 1;
      row_priority := 1; row_enabled := true; row_isDefault := false;
      row_logicalId := org_name; row_source := js "custom"; row_name := org_name;
      row_action := js "allow"; row_rateLimit := None; row_rateLimitWindow := None;
      row_requireApproval := true; row_conditions := JNull; row_identities := [];
      row_targets := [{| tr_kind := js "network"; tr_appProvider := None; tr_appTools := [];
        tr_appConnectionScope := None; tr_appConnectionId := None; tr_secretId := None;
        tr_secretScope := None; tr_hostPattern := Some (js "*.acme.test");
        tr_pathPattern := Some (js "/v1/*"); tr_method := None |}] |};
   Rows.rule (WsBase (js "ws")) (js "w1") 1 (js "custom") (js "allow") JNull []
     [Rows.host_target (js "*.acme.test")]].

Definition db (org_name : jsstr) : Database :=
  {| db_agents := [{| agr_id := js "a1"; agr_workspaceId := js "ws" |}];
     db_secrets := []; db_connections := []; db_rules := rows org_name;
     db_directory := {| dir_access := []; dir_groups := []; dir_groupMembers := [];
                        dir_members := [] |} |}.

Definition query : EffectiveAppPermissionsInput :=
  {| in_provider := js "acme"; in_agentId := Some (js "a1"); in_connectionId := None |}.
Definition member : EffectiveAppPermissionsCtx :=
  {| ctx_scope := workspace; ctx_organizationId := js "org"; ctx_workspaceId := Some (js "ws");
     ctx_viewerSeesOrgRules := false |}.

Definition input : ComputeInput :=
  let ld := loadAll (db (js "o")) (js "acme") member (Some (js "a1")) in
  {| ci_def := def; ci_simRules := simRulesOf ld;
     ci_engineRules := map sim_rule (simRulesOf ld); ci_agentId := js "a1";
     ci_principals := ld_principals ld; ci_probe := fun _ => false;
     ci_viewerSeesOrgRules := true; ci_winningConnectionId := None |}.

(** The organization's rule, as its administrators see it. *)
Definition org_rule : EffectiveProvenance :=
  PvRule organization
    {| pr_logicalId := js "o"; pr_name := js "o"; pr_source := js "custom"; pr_action := allow;
       pr_requireApproval := true; pr_rateLimit := None; pr_rateLimitWindow := None |}.
End Sample.

(** The member sees the approval, its ceiling, and no organization rule. *)
Example sample_answer :
  match @effectiveAppPermissions Sample.reg ascii_case (Sample.db (js "o")) Sample.query Sample.member with
  | inr (Some r) => map (fun g => map (fun t => (tl_toolId t, tl_verdict t, tl_orgCeiling t)) (tg_tools g)) (ep_groups r)
  | _ => []
  end = [[(js "read", v_approval, Some c_approval); (js "graph", v_allow, None)]].
Proof. by vm_compute. Qed.

Lemma synthesized_request_hits_tool_witness :
  tool_ok Sample.graph_tool /\
  (js "/graphql", Some (js "POST")) ∈ allRuleVariants Sample.graph_tool /\
  toolMatches
    (variantRequest Sample.input Sample.graph_tool (js "/graphql", Some (js "POST")))
    Sample.graph_tool None = true.
Proof.
  assert (tool_ok Sample.graph_tool) as Hok by (apply (bool_decide_eq_true_1 _); by vm_compute).
  assert ((js "/graphql", Some (js "POST")) ∈ allRuleVariants Sample.graph_tool) as Hv by by left.
  split; [done|]. split; [done|].
  apply synthesized_request_hits_tool; assumption.
Defined.

Lemma computeTool_answers_witness :
  exists t, @computeTool Sample.reg ascii_case Sample.input Sample.read_tool = Some t /\
    tl_verdict t = v_approval /\
    forall v, v ∈ allRuleVariants Sample.read_tool ->
      outcome_view (@evaluatePolicyOutcome Sample.reg ascii_case (ci_engineRules Sample.input)
        (variantRequest Sample.input Sample.read_tool v)) = (v_approval, None, None).
Proof.
  eexists. split; [vm_compute; reflexivity|]. split; [done|].
  apply (proj1 (@computeTool_answers Sample.reg ascii_case Sample.input Sample.read_tool
    {| tl_toolId := js "read"; tl_verdict := v_approval; tl_rateLimit := None;
       tl_rateLimitWindow := None; tl_decidedBy := Some Sample.org_rule;
       tl_orgCeiling := Some c_approval |} ltac:(by vm_compute) ltac:(done))).
  done.
Defined.

Lemma orgCeiling_bounds_tool_witness :
  exists t, @computeTool Sample.reg ascii_case Sample.input Sample.read_tool = Some t /\
    tl_orgCeiling t = Some c_approval /\
    (within c_approval (tl_verdict t) \/ tl_verdict t = v_mixed).
Proof.
  eexists. split; [vm_compute; reflexivity|]. split; [done|].
  apply (@orgCeiling_bounds_tool Sample.reg ascii_case Sample.input Sample.read_tool
    {| tl_toolId := js "read"; tl_verdict := v_approval; tl_rateLimit := None;
       tl_rateLimitWindow := None; tl_decidedBy := Some Sample.org_rule;
       tl_orgCeiling := Some c_approval |} c_approval ltac:(by vm_compute) eq_refl).
Defined.

Lemma foldGroupRuns_answers_witness :
  let run v := [{| tg_category := cat_read; tg_verdict := v;
                   tg_tools := [plainTool (js "read") v (Some c_allow)] |}] in
  let runs := [run v_allow; run v_block] in
  exists t, tool_at (foldGroupRuns runs) 0 0 = Some t /\ tl_verdict t = v_mixed /\
    exists across, mapM (fun r => tool_at r 0 0) runs = Some across /\
      forall x, x ∈ across ->
        (ceiling_rank (tl_orgCeiling x) <= ceiling_rank (tl_orgCeiling t))%nat.
Proof.
  intros run runs. exists (plainTool (js "read") v_mixed (Some c_allow)).
  split; [by vm_compute|]. split; [done|].
  destruct (foldGroupRuns_answers runs 0 0 (plainTool (js "read") v_mixed (Some c_allow)))
    as (across & Hm & _ & _ & Hc); [|by vm_compute|by exists across].
  intros r r' [->|[->|[]%not_elem_of_nil]%elem_of_cons]%elem_of_cons
    [->|[->|[]%not_elem_of_nil]%elem_of_cons]%elem_of_cons; done.
Defined.
