(* ===== verification/Redaction.v ===== *)
(** * Redaction

    What a viewer without organization rights reads in the effective
    permissions does not depend on the details of organization rules: erasing
    the names, logical ids and origins of every organization row of the
    database changes no answer ([effective-tools.ts], its redaction
    contract). *)
From S2P Require Import Prelude PathMatch PolicyTypes JsJson PolicyRows Catalog Evaluator.
From S2P Require Import EndpointMatch Graphql LoadRules ResourceAxis Injection EffectiveTools.
From S2P Require Import EffectiveToolsSpec.

(** ** Erasing organization details *)

(** What an origin may still tell: whether the row is equipment. *)
Definition erase_source (s : jsstr) : jsstr :=
  if bool_decide (s = js "equipment") then js "equipment" else js "custom".
Definition erase_rule_source (s : RuleSource) : RuleSource :=
  if bool_decide (s = src_equipment) then src_equipment else src_custom.

Definition erase_rule (r : NewRule) : NewRule :=
  if bool_decide (rl_scope r = organization) then
    {| rl_scope := rl_scope r; rl_priority := rl_priority r; rl_isDefault := rl_isDefault r;
       rl_source := erase_rule_source (rl_source r); rl_name := [];
       rl_identities := rl_identities r; rl_targets := rl_targets r; rl_action := rl_action r;
       rl_requireApproval := rl_requireApproval r; rl_rateLimit := rl_rateLimit r;
       rl_rateLimitWindow := rl_rateLimitWindow r; rl_conditions := rl_conditions r |}
  else r.

Definition erase_sim (s : SimRule) : SimRule :=
  {| sim_meta :=
       if bool_decide (sm_scope (sim_meta s) = organization) then
         {| sm_id := sm_id (sim_meta s); sm_logicalId := []; sm_name := [];
            sm_scope := sm_scope (sim_meta s); sm_source := erase_source (sm_source (sim_meta s)) |}
       else sim_meta s;
     sim_rule := erase_rule (sim_rule s) |}.

Definition erase_row (row : RuleRow) : RuleRow :=
  if bool_decide (row_scope row = js "organization") then
    {| row_id := row_id row; row_scope := row_scope row;
       row_organizationId := row_organizationId row; row_workspaceId := row_workspaceId row;
       row_status := row_status row; row_generation := row_generation row;
       row_priority := row_priority row; row_enabled := row_enabled row;
       row_isDefault := row_isDefault row; row_logicalId := [];
       row_source := erase_source (row_source row); row_name := []; row_action := row_action row;
       row_rateLimit := row_rateLimit row; row_rateLimitWindow := row_rateLimitWindow row;
       row_requireApproval := row_requireApproval row; row_conditions := row_conditions row;
       row_identities := row_identities row; row_targets := row_targets row |}
  else row.

Definition erase_db (db : Database) : Database :=
  {| db_agents := db_agents db; db_secrets := db_secrets db;
     db_connections := db_connections db; db_rules := map erase_row (db_rules db);
     db_directory := db_directory db |}.

(** ** The engine does not read the details *)

Section Engine.
Context (reg : Registry) `{JsCase}.

Definition erase_outcome (o : PolicyOutcome) : PolicyOutcome :=
  match o with
  | OutRule r => OutRule (erase_rule r)
  | OutDenyDefault l r => OutDenyDefault l (erase_rule <$> r)
  | OutAllow m => OutAllow m
  end.

Definition erase_verdict (v : LevelVerdict) : LevelVerdict :=
  match v with LvRule r => LvRule (erase_rule r) | _ => v end.

(** Every field the engine reads is kept. *)
Ltac erased r := unfold erase_rule; destruct (bool_decide (rl_scope r = organization)); reflexivity.

Lemma erase_scope r : rl_scope (erase_rule r) = rl_scope r.
Proof. erased r. Qed.
Lemma erase_default s r : is_default_of s (erase_rule r) = is_default_of s r.
Proof. erased r. Qed.
Lemma erase_explicit s r : is_explicit_of s (erase_rule r) = is_explicit_of s r.
Proof. erased r. Qed.
Lemma erase_matches r rq : ruleMatches reg (erase_rule r) rq = ruleMatches reg r rq.
Proof. erased r. Qed.
Lemma erase_priority a b : priority_leb (erase_rule a) (erase_rule b) = priority_leb a b.
Proof. unfold erase_rule. by repeat case_bool_decide. Qed.
Lemma erase_rank r : strictnessRank (erase_rule r) = strictnessRank r.
Proof. erased r. Qed.
Lemma erase_action r : rl_action (erase_rule r) = rl_action r.
Proof. erased r. Qed.

Lemma erase_approval r : rl_requireApproval (erase_rule r) = rl_requireApproval r.
Proof. erased r. Qed.
Lemma erase_rate r : rl_rateLimit (erase_rule r) = rl_rateLimit r.
Proof. erased r. Qed.
Lemma erase_window r : rl_rateLimitWindow (erase_rule r) = rl_rateLimitWindow r.
Proof. erased r. Qed.
Lemma erase_ws r : rl_scope r = workspace -> erase_rule r = r.
Proof. intros Hr. unfold erase_rule. case_bool_decide; congruence. Qed.

Lemma erase_find_default s rules :
  List.find (is_default_of s) (map erase_rule rules) =
  erase_rule <$> List.find (is_default_of s) rules.
Proof. rewrite find_map_comp. f_equal. apply find_ext_eq, erase_default. Qed.

Lemma erase_armed rules rq s :
  default_armed (map erase_rule rules) rq s = default_armed rules rq s.
Proof.
  unfold default_armed. rewrite erase_find_default.
  destruct (List.find _ rules) as [r|]; [|done]. simpl. by rewrite erase_action.
Qed.

Lemma erase_level rules rq s :
  level_verdict reg (map erase_rule rules) rq s = erase_verdict (level_verdict reg rules rq s).
Proof.
  unfold level_verdict. rewrite !firstMatch_find, erase_armed, js_sort_map.
  rewrite (js_sort_ext _ priority_leb) by apply erase_priority. rewrite find_map_comp.
  rewrite (find_ext_eq _ (fun r => is_explicit_of s r && ruleMatches reg r rq)).
  2: { intros r. by rewrite erase_explicit, erase_matches. }
  destruct (List.find _ _); simpl; [done|]. by destruct (default_armed _ _ _).
Qed.

Lemma erase_evaluate rules rq :
  evaluatePolicyOutcome reg (map erase_rule rules) rq =
  erase_outcome (evaluatePolicyOutcome reg rules rq).
Proof.
  rewrite !evaluate_levels, !erase_level. unfold combine_levels, deny_default.
  rewrite !erase_armed, !erase_find_default.
  assert (forall v, verdict_rank (erase_verdict v) = verdict_rank v) as Hr.
  { intros [r| |]; [|done..]. simpl. by rewrite erase_rank. }
  rewrite !Hr. destruct (_ <? _)%nat; by destruct (level_verdict _ _ _ _).
Qed.

Lemma erase_ceiling rules rq :
  orgCeilingOf reg (map erase_rule rules) rq = orgCeilingOf reg rules rq.
Proof.
  unfold orgCeilingOf. rewrite filter_map_comp.
  rewrite (filter_ext _ (fun r => bool_decide (rl_scope r = organization)))
    by (intros; by rewrite erase_scope).
  rewrite erase_evaluate. destruct (evaluatePolicyOutcome _ _ _) as [r| |]; [|done..].
  unfold erase_outcome, erase_rule. by destruct (bool_decide (rl_scope r = organization)).
Qed.

(** A rule's metadata is at the rule's level. *)
Definition sim_ok (s : SimRule) : Prop := sm_scope (sim_meta s) = rl_scope (sim_rule s).

Lemma erase_sim_rules sims : map sim_rule (map erase_sim sims) = map erase_rule (map sim_rule sims).
Proof. by rewrite !map_map. Qed.

Lemma erase_rule_eq_ws s r :
  rl_scope r = workspace ->
  bool_decide (erase_rule s = erase_rule r) = bool_decide (s = r).
Proof.
  intros Hr. rewrite (erase_ws r Hr). apply bool_decide_ext. split.
  - intros E. rewrite <- E. symmetry. apply erase_ws. by rewrite <- (erase_scope s), E.
  - intros ->. by apply erase_ws.
Qed.

(** A viewer without organization rights cannot tell erased rules. *)
Lemma erase_variant sims rq :
  Forall sim_ok sims ->
  evaluateVariant reg (map erase_sim sims) (map sim_rule (map erase_sim sims)) rq false =
  evaluateVariant reg sims (map sim_rule sims) rq false.
Proof.
  intros Hok. rewrite erase_sim_rules. unfold evaluateVariant.
  rewrite erase_ceiling, erase_evaluate.
  pose proof (evaluateVariant_total reg sims rq false) as Htot. unfold evaluateVariant in Htot.
  revert Htot. destruct (evaluatePolicyOutcome reg (map sim_rule sims) rq) as [r|l r|m]; intros Htot; [|done..].
  cbn [erase_outcome]. rewrite find_map_comp. rewrite Forall_forall in Hok.
  destruct (rl_scope r) eqn:Er.
  - (* an organization rule: the marker is all there is *)
    destruct (List.find (fun s => bool_decide (sim_rule s = r)) sims) as [s|] eqn:Ef;
      [|by destruct Htot as [? [=]]].
    assert (exists s', List.find (fun x => bool_decide (sim_rule (erase_sim x) = erase_rule r)) sims
              = Some s' /\ sm_scope (sim_meta s') = organization) as (s' & -> & Hs').
    { destruct (List.find (fun x => bool_decide (sim_rule (erase_sim x) = erase_rule r)) sims)
        as [s'|] eqn:Ef'.
      - exists s'. split; [done|].
        apply find_some in Ef' as [Hin' E%bool_decide_eq_true].
        rewrite (Hok s') by by apply list_elem_of_In.
        rewrite <- (erase_scope (sim_rule s')). change (erase_rule (sim_rule s')) with (sim_rule (erase_sim s')).
        rewrite E. by rewrite erase_scope.
      - exfalso. apply find_some in Ef as [Hin E%bool_decide_eq_true].
        pose proof (find_none _ _ Ef' s Hin) as Hf. simpl in Hf.
        by rewrite E, bool_decide_eq_true_2 in Hf. }
    apply find_some in Ef as [Hin E%bool_decide_eq_true]. apply list_elem_of_In in Hin.
    unfold ruleProvenance. simpl. rewrite (Hok s Hin), E, Er, Hs'. simpl.
    by rewrite erase_action, erase_approval, erase_rate, erase_window.
  - rewrite (find_ext_eq _ (fun s => bool_decide (sim_rule s = r)))
      by (intros s; by apply erase_rule_eq_ws).
    destruct (List.find (fun s => bool_decide (sim_rule s = r)) sims) as [s|] eqn:Ef; simpl; [|done].
    apply find_some in Ef as [Hin E%bool_decide_eq_true]. apply list_elem_of_In in Hin.
    assert (ruleProvenance (erase_sim s) false = ruleProvenance s false) as ->;
      [|by rewrite (erase_ws r Er)].
    pose proof (Hok s Hin) as Hsc. unfold sim_ok in Hsc. rewrite E, Er in Hsc.
    assert (erase_sim s = s) as ->; [|done].
    destruct s as [m r']. simpl in *. unfold erase_sim. simpl. rewrite Hsc, E, (erase_ws r Er). done.
Qed.

Lemma erase_groups def sims agentId pr probe probe' winner :
  Forall sim_ok sims -> (forall h, probe' h = probe h) ->
  let input sims probe := {| ci_def := def; ci_simRules := sims;
     ci_engineRules := map sim_rule sims; ci_agentId := agentId; ci_principals := pr;
     ci_probe := probe; ci_viewerSeesOrgRules := false; ci_winningConnectionId := winner |} in
  computeEffectiveGroups reg (input (map erase_sim sims) probe') =
  computeEffectiveGroups reg (input sims probe).
Proof.
  intros Hok Hprobe input.
  assert (forall tool, computeTool reg (input (map erase_sim sims) probe') tool
                       = computeTool reg (input sims probe) tool) as Ht.
  { intros tool. unfold computeTool.
    rewrite (mapM_ext _ (fun v => evaluateVariant reg sims (map sim_rule sims)
               (variantRequest (input sims probe) tool v) false)); [done|].
    intros v. simpl. rewrite (erase_variant sims _ Hok).
    unfold variantRequest. simpl. by rewrite Hprobe. }
  assert (forall group, computeGroup reg (input (map erase_sim sims) probe') group
                        = computeGroup reg (input sims probe) group) as Hg.
  { intros group. unfold computeGroup. by rewrite (mapM_ext _ _ (ag_tools group) Ht). }
  unfold computeEffectiveGroups. rewrite (mapM_ext _ _ _ Hg).
  assert (forall gs, existsb (fun group => existsb (fun tool => probe' (synthesizeHost (at_hostPattern tool)))
      (ag_tools group)) gs = existsb (fun group => existsb (fun tool =>
        probe (synthesizeHost (at_hostPattern tool))) (ag_tools group)) gs) as Hp.
  { intros gs. apply existsb_ext_In. intros g _. apply existsb_ext_In. intros. apply Hprobe. }
  simpl. by rewrite Hp.
Qed.
End Engine.

(** ** The reads do not read the details *)

Ltac erased_row row :=
  unfold erase_row; destruct (bool_decide (row_scope row = js "organization")); reflexivity.

Lemma erase_source_equipment s :
  bool_decide (erase_source s = js "equipment") = bool_decide (s = js "equipment").
Proof. unfold erase_source. by destruct (decide (s = js "equipment")) as [->|]; repeat case_bool_decide. Qed.

Lemma erase_row_source row :
  bool_decide (row_source (erase_row row) = js "equipment") =
  bool_decide (row_source row = js "equipment").
Proof.
  unfold erase_row. destruct (bool_decide (row_scope row = js "organization")); [|done].
  apply erase_source_equipment.
Qed.

Lemma erase_where base st eq g row :
  load_where base st eq g (erase_row row) = load_where base st eq g row.
Proof.
  unfold load_where. rewrite erase_row_source.
  unfold erase_row. by destruct (bool_decide (row_scope row = js "organization")).
Qed.

Lemma erase_max rows : max_generation (map erase_row rows) = max_generation rows.
Proof.
  induction rows as [|r rows IH]; [done|]. simpl map. rewrite !max_generation_cons, IH.
  assert (row_generation (erase_row r) = row_generation r) as -> by erased_row r. done.
Qed.

Lemma erase_row_leb a b : row_leb (erase_row a) (erase_row b) = row_leb a b.
Proof.
  unfold row_leb.
  assert (row_priority (erase_row a) = row_priority a) as -> by erased_row a.
  assert (row_priority (erase_row b) = row_priority b) as -> by erased_row b.
  assert (row_id (erase_row a) = row_id a) as -> by erased_row a.
  assert (row_id (erase_row b) = row_id b) as -> by erased_row b. done.
Qed.

Lemma erase_load table base st eq :
  loadRules (map erase_row table) base st eq = map erase_row (loadRules table base st eq).
Proof.
  unfold loadRules.
  assert (forall g, js_sort row_leb (List.filter (load_where base st eq g) (map erase_row table)) =
    map erase_row (js_sort row_leb (List.filter (load_where base st eq g) table))) as Hs.
  { intros g. rewrite filter_map_comp, js_sort_map. f_equal.
    rewrite (js_sort_ext _ row_leb) by apply erase_row_leb. f_equal.
    apply filter_ext. intros. apply erase_where. }
  rewrite filter_map_comp, erase_max.
  rewrite (filter_ext _ (fun r => in_base base r && bool_decide (row_status r = js "published")))
    by (intros r; erased_row r).
  rewrite !Hs. case_bool_decide; [|done]. destruct (max_generation _) as [g|]; [|done]. apply Hs.
Qed.

Lemma erase_source_of s : source_of (erase_source s) = erase_rule_source (source_of s).
Proof.
  unfold erase_source, erase_rule_source. rewrite (bool_decide_ext _ _ (source_of_equipment s)).
  by case_bool_decide.
Qed.

Lemma erase_toSimRule sh cp row : toSimRule sh cp (erase_row row) = erase_sim (toSimRule sh cp row).
Proof.
  unfold erase_row. destruct (decide (row_scope row = js "organization")) as [E|E].
  - rewrite bool_decide_eq_true_2 by done. unfold erase_sim, erase_rule, toSimRule. cbn.
    assert (level_of (row_scope row) = organization) as -> by by rewrite E.
    cbn. by rewrite erase_source_of.
  - rewrite bool_decide_eq_false_2 by done. unfold erase_sim, erase_rule, toSimRule. cbn.
    assert (level_of (row_scope row) = workspace) as El
      by (unfold level_of; by rewrite bool_decide_eq_false_2).
    by rewrite El.
Qed.

Lemma toSimRule_ok sh cp row : sim_ok (toSimRule sh cp row).
Proof. done. Qed.

Section Injection.
Context (reg : Registry).

Lemma erase_probe a principals rows sh cp pats provs host :
  buildInjectionProbe reg
    {| pp_agent := a; pp_poolSecretHostPatterns := pats; pp_poolProviders := provs;
       pp_rules := map erase_row rows; pp_principals := principals; pp_secretHosts := sh;
       pp_connectionProviders := cp |} host =
  buildInjectionProbe reg
    {| pp_agent := a; pp_poolSecretHostPatterns := pats; pp_poolProviders := provs;
       pp_rules := rows; pp_principals := principals; pp_secretHosts := sh;
       pp_connectionProviders := cp |} host.
Proof.
  unfold buildInjectionProbe. simpl. destruct a as [a|]; [|done].
  rewrite !(probeRow_targets _ a). simpl.
  assert (injectingTargets (map erase_row rows) a principals = injectingTargets rows a principals)
    as ->; [|done].
  unfold injectingTargets. induction rows as [|r rows IH]; simpl; [done|].
  rewrite IH. f_equal. erased_row r.
Qed.

Lemma erase_boundary rows a pr c :
  orgResourceBoundary (map erase_row rows) a pr c = orgResourceBoundary rows a pr c.
Proof.
  unfold orgResourceBoundary. generalize (@None json) as b.
  induction rows as [|r rows IH]; intros b; simpl; [done|]. rewrite IH. f_equal. erased_row r.
Qed.

Lemma erase_selection rows a pr c :
  workspaceResourceSelection (map erase_row rows) a pr c = workspaceResourceSelection rows a pr c.
Proof.
  rewrite !selection_last. rewrite filter_map_comp.
  rewrite (filter_ext _ (selects a pr c)) by (intros r; erased_row r).
  change (map erase_row) with (fmap erase_row : list RuleRow -> list RuleRow).
  rewrite fmap_last. destruct (last _) as [r|]; simpl; [|done].
  assert (row_conditions (erase_row r) = row_conditions r) as -> by erased_row r. done.
Qed.
End Injection.

(** ** The whole answer *)

Definition erase_loaded (ld : Loaded) : Loaded :=
  {| ld_orgRows := map erase_row (ld_orgRows ld);
     ld_workspaceRows := map erase_row (ld_workspaceRows ld);
     ld_orgInjectRows := map erase_row (ld_orgInjectRows ld);
     ld_workspaceInjectRows := map erase_row (ld_workspaceInjectRows ld);
     ld_principals := ld_principals ld; ld_secretHosts := ld_secretHosts ld;
     ld_connectionProviders := ld_connectionProviders ld;
     ld_providerConnectionIds := ld_providerConnectionIds ld; ld_pool := ld_pool ld |}.

Lemma erase_loadAll db provider ctx agent :
  loadAll (erase_db db) provider ctx agent = erase_loaded (loadAll db provider ctx agent).
Proof.
  unfold loadAll, erase_loaded, atWorkspace, loadRulesForSimulation, loadInjectionRules. simpl.
  rewrite !erase_load. f_equal; destruct (ctx_scope ctx), (truthy (ctx_workspaceId ctx));
    simpl; by rewrite ?erase_load.
Qed.

Lemma erase_simRules ld : simRulesOf (erase_loaded ld) = map erase_sim (simRulesOf ld).
Proof.
  unfold simRulesOf. simpl. rewrite <- map_app, !map_map. apply map_ext. intros. apply erase_toSimRule.
Qed.

Lemma simRulesOf_ok ld : Forall sim_ok (simRulesOf ld).
Proof. apply Forall_forall. intros s (row & -> & _)%elem_of_lmap. apply toSimRule_ok. Qed.

Section Answer.
Context (reg : Registry) `{JsCase}.
Context (ctx : EffectiveAppPermissionsCtx) (Hviewer : ctx_viewerSeesOrgRules ctx = false).

Lemma erase_run def ld agent winner :
  runCompute reg def ctx (erase_loaded ld) agent winner = runCompute reg def ctx ld agent winner.
Proof.
  unfold runCompute. rewrite erase_simRules, Hviewer.
  apply (erase_groups reg def (simRulesOf ld)); [apply simRulesOf_ok|].
  intros host. unfold probeOf. simpl. rewrite <- map_app. apply erase_probe.
Qed.

Lemma erase_hasConnectionRules provider ld :
  hasConnectionRules provider (map sim_rule (simRulesOf (erase_loaded ld))) =
  hasConnectionRules provider (map sim_rule (simRulesOf ld)).
Proof.
  rewrite erase_simRules, erase_sim_rules. unfold hasConnectionRules. rewrite existsb_map_comp.
  apply existsb_ext_In. intros r _.
  assert (rl_targets (erase_rule r) = rl_targets r) as ->; [|done].
  unfold erase_rule. by destruct (bool_decide (rl_scope r = organization)).
Qed.

Lemma erase_varies def provider ld :
  variesByIdentity def provider ctx (erase_loaded ld) = variesByIdentity def provider ctx ld.
Proof.
  unfold variesByIdentity. rewrite Hviewer, erase_simRules. f_equal.
  pose proof (simRulesOf_ok ld) as Hok. rewrite Forall_forall in Hok.
  induction (simRulesOf ld) as [|s l IH]; simpl; [done|].
  assert (Hok' : forall x, x ∈ l -> sim_ok x) by (intros; apply Hok; by right).
  destruct (sm_scope (sim_meta s)) eqn:E; simpl; rewrite ?E; simpl.
  - by apply IH.
  - rewrite IH by done.
    assert (erase_rule (sim_rule s) = sim_rule s) as Es.
    { apply erase_ws. by rewrite <- (Hok s (list_elem_of_here _ _)), E. }
    assert (identityScopedFor provider (concreteHostsOf def) (erase_sim s)
            = identityScopedFor provider (concreteHostsOf def) s) as ->
      by (unfold identityScopedFor, erase_sim; simpl; by rewrite Es).
    assert (erase_sim s = s) as ->; [|done].
    destruct s as [m r]. unfold erase_sim. simpl in *. by rewrite E, Es.
Qed.

Lemma erase_answer def provider ld agent connection :
  reflectApp reg def provider ctx (erase_loaded ld) agent connection =
  reflectApp reg def provider ctx ld agent connection.
Proof.
  unfold reflectApp. rewrite erase_varies.
  assert (foldedRuns reg def provider ctx (erase_loaded ld) agent connection =
          foldedRuns reg def provider ctx ld agent connection) as ->.
  { unfold foldedRuns. rewrite erase_hasConnectionRules.
    destruct connection; [apply erase_run|]. cbn [erase_loaded ld_providerConnectionIds].
    rewrite (mapM_ext _ _ _ (fun id => erase_run def ld agent (Some id))).
    by rewrite erase_run. }
  cbn [erase_loaded ld_orgInjectRows ld_workspaceInjectRows ld_principals].
  destruct agent as [a|], connection as [c|]; [|done..].
  unfold resourceScopes, effectiveResources. by rewrite erase_boundary, erase_selection.
Qed.
End Answer.


