(* ===== verification/PolicyAuthoring.v ===== *)
(** * Writing policy: drafts, publishing and deleted principals

    [packages/api/src/services/policy-service.ts]: the writes of
    [policy_rules_v2], which publish their scope's whole draft in the
    transaction that made them (a deleted principal's rules go from every
    version in place, and a seeding writes both), and the writes of [grants-service.ts] that end the
    same way. A write is two moments: what it reads and checks before, and a
    transaction under the scope's lock, which is one step on the table; other
    writes may come between the two. The columns [description],
    [created_by_user_id] and [created_at], which nothing here reads, are left
    out. *)
From S2P Require Import Prelude PolicyTypes JsJson Catalog PolicyRows Grants ResourceAxis LoadRules EffectiveTools.
Local Open Scope Z_scope.

(** ** Tables *)

(** What the writes read besides the rules. *)
Record PolicyTables := mkTables {
  tb_agents : list AgentRow;
  tb_workspaces : list (jsstr * jsstr);
  tb_users : list jsstr;
  tb_directory : Directory;
  tb_connections : list ConnectionRow;
  tb_secrets : list SecretRow;
}.

(** What a write may throw: a [ServiceError], the client's code for a row that
    is not there, or any other error (a constraint of the database, a row the
    readers cannot decode). *)
Inductive PolicyThrow :=
| Service (e : ServiceError)
| P2025
| Broken.

Definition throws (code : ServiceErrorCode) (message : jsstr) : PolicyThrow := Service {| se_code := code; se_message := message |}.

Abbreviation result A := (PolicyThrow + A)%type.

#[export] Instance result_ret : MRet (sum PolicyThrow) := fun A a => inr a.
#[export] Instance result_bind : MBind (sum PolicyThrow) := fun A B f r =>
  match r with inl x => inl x | inr a => f a end.

(** ** Transactions *)

(** What a moment gives a transaction: the other tables and the identifiers of
    the rows it creates, the row's and the logical one. *)
Record Moment := mkMoment {
  mo_tables : PolicyTables;
  mo_ids : nat -> jsstr * jsstr;
}.

Record TxState := mkTx {
  tx_rules : list RuleRow;
  tx_created : nat;
}.

Definition tx (A : Type) : Type := Moment -> TxState -> result (A * TxState).

#[export] Instance tx_ret : MRet tx := fun A a m s => inr (a, s).
#[export] Instance tx_bind : MBind tx := fun A B f p m s =>
  match p m s with inl x => inl x | inr (a, s') => f a m s' end.

Definition tx_throw {A} (x : PolicyThrow) : tx A := fun _ _ => inl x.
Definition tx_table : tx (list RuleRow) := fun _ s => inr (tx_rules s, s).

(** [try p catch h]: what [p] wrote is undone with the transaction. *)
Definition rethrow {A} (h : PolicyThrow -> PolicyThrow) (p : tx A) : tx A :=
  fun m s => match p m s with inl x => inl (h x) | inr r => inr r end.

(** The foreign keys of an identity and of a target. *)
Definition identity_exists (tb : PolicyTables) (i : IdentityRow) : bool :=
  match ir_agentId i with Some a => existsb (fun r => bool_decide (agr_id r = a)) (tb_agents tb) | None => true end &&
  match ir_userId i with Some u => bool_decide (u ∈ tb_users tb) | None => true end &&
  match ir_groupId i with
  | Some g => existsb (fun r => bool_decide (gr_id r = g)) (dir_groups (tb_directory tb))
  | None => true
  end.

Definition target_exists (tb : PolicyTables) (t : TargetRow) : bool :=
  match tr_appConnectionId t with
  | Some c => existsb (fun r => bool_decide (cr_id r = c)) (tb_connections tb)
  | None => true
  end &&
  match tr_secretId t with Some s => existsb (fun r => bool_decide (sr_id r = s)) (tb_secrets tb) | None => true end.

Definition refs_exist (tb : PolicyTables) (row : RuleRow) : bool :=
  forallb (identity_exists tb) (row_identities row) && forallb (target_exists tb) (row_targets row).

(** The unique indexes over a rule's identities and targets. *)
Definition rows_unique (row : RuleRow) : bool :=
  bool_decide (NoDup (omap ir_agentId (row_identities row))) &&
  bool_decide (NoDup (omap ir_userId (row_identities row))) &&
  bool_decide (NoDup (omap ir_groupId (row_identities row))) &&
  bool_decide (NoDup (omap tr_appConnectionId (row_targets row))) &&
  bool_decide (NoDup (omap tr_secretId (row_targets row))).

(** [tx.policyRuleV2.create]: the row built on fresh identifiers. *)
Definition create (build : jsstr * jsstr -> RuleRow) : tx RuleRow := fun m s =>
  let row := build (mo_ids m (tx_created s)) in
  if existsb (fun r => bool_decide (row_id r = row_id row)) (tx_rules s) then inl Broken
  else if negb (refs_exist (mo_tables m) row) then inl P2025
  else if negb (rows_unique row) then inl Broken
  else inr (row, mkTx (tx_rules s ++ [row]) (S (tx_created s))).

(** [tx.policyRuleV2.update] by identifier. What a stored rule names exists (the
    foreign keys cascade), so checking the row as it would be checks what the
    update adds to it. *)
Definition update (i : jsstr) (data : RuleRow -> RuleRow) : tx RuleRow := fun m s =>
  match List.find (fun r => bool_decide (row_id r = i)) (tx_rules s) with
  | None => inl P2025
  | Some row =>
      if negb (refs_exist (mo_tables m) (data row)) then inl P2025
      else if negb (rows_unique (data row)) then inl Broken
      else inr (data row, mkTx (map (fun r => if bool_decide (row_id r = i) then data r else r) (tx_rules s)) (tx_created s))
  end.

(** [tx.policyRuleV2.deleteMany]: the count. *)
Definition deleteMany (cond : RuleRow -> bool) : tx nat := fun _ s =>
  inr (length (List.filter cond (tx_rules s)),
       mkTx (List.filter (fun r => negb (cond r)) (tx_rules s)) (tx_created s)).

(** ** Scopes *)

Record ResourceScope := mkScope {
  rs_workspaceId : option jsstr;
  rs_organizationId : option jsstr;
}.

Definition policyScope (scope : ResourceScope) : result PolicyScopeBase :=
  match truthy (rs_organizationId scope), truthy (rs_workspaceId scope) with
  | Some o, _ => inr (OrgBase o)
  | None, Some w => inr (WsBase w)
  | None, None => inl (throws BAD_REQUEST (js "A policy scope requires a workspace or organization."))
  end.

Definition base_scope (base : PolicyScopeBase) : jsstr :=
  match base with OrgBase _ => js "organization" | WsBase _ => js "workspace" end.
Definition base_organization (base : PolicyScopeBase) : option jsstr :=
  match base with OrgBase o => Some o | WsBase _ => None end.
Definition base_workspace (base : PolicyScopeBase) : option jsstr :=
  match base with OrgBase _ => None | WsBase w => Some w end.

Definition has_row_status (st : jsstr) (r : RuleRow) : bool := bool_decide (row_status r = st).
Definition draft_in (base : PolicyScopeBase) (r : RuleRow) : bool := in_base base r && has_row_status (js "draft") r.

(** ** Inputs: [validations/policy.ts] *)

(** A [PolicyIdentityInput] is an [IdentityDto]. *)
Inductive PolicyTargetInput :=
| TiApp (provider : jsstr) (tools : option (list jsstr)) (connectionScope : option Scope)
| TiConnection (connectionId : jsstr) (tools : option (list jsstr))
| TiSecret (secretId : option jsstr) (secretScope : option Scope)
| TiNetwork (hostPattern : jsstr) (pathPattern method : option jsstr).

Record CreatePolicyRuleInput := mkCreate {
  ci_name : jsstr;
  ci_enabled : option bool;
  ci_action : Action;
  ci_rateLimit : option Z;
  ci_rateLimitWindow : option jsstr;
  ci_requireApproval : option bool;
  ci_conditions : option json;
  ci_identities : option (list IdentityDto);
  ci_targets : option (list PolicyTargetInput);
}.

(** [undefined] is the outer [None], [null] the inner. *)
Record UpdatePolicyRuleInput := mkUpdate {
  ui_name : option jsstr;
  ui_enabled : option bool;
  ui_action : option Action;
  ui_rateLimit : option (option Z);
  ui_rateLimitWindow : option (option jsstr);
  ui_requireApproval : option bool;
  ui_conditions : option (option json);
  ui_identities : option (list IdentityDto);
  ui_targets : option (list PolicyTargetInput);
}.

Definition is_connection_input (t : PolicyTargetInput) : bool := match t with TiConnection _ _ => true | _ => false end.

(** The refinements of [createPolicyRuleSchema]. *)
Definition modifiersRequireAllow (i : CreatePolicyRuleInput) : bool :=
  negb (bool_decide (ci_action i = block)) ||
  (bool_decide (ci_rateLimit i = None) && bool_decide (ci_rateLimitWindow i = None) && negb (default false (ci_requireApproval i))).

Definition rateLimitPaired (i : CreatePolicyRuleInput) : bool :=
  eqb (bool_decide (ci_rateLimit i = None)) (bool_decide (ci_rateLimitWindow i = None)).

Definition sessionPolicyNeedsConnection (i : CreatePolicyRuleInput) : bool :=
  negb (match ci_conditions i with Some c => isSessionPolicy c | None => false end) ||
  existsb is_connection_input (default [] (ci_targets i)).

Definition createPolicyRuleSchema (i : CreatePolicyRuleInput) : bool :=
  modifiersRequireAllow i && rateLimitPaired i && sessionPolicyNeedsConnection i.

(** ** Rows from inputs *)

Definition scope_name (s : Scope) : jsstr := match s with organization => js "organization" | workspace => js "workspace" end.

Definition identityCreate (i : IdentityDto) : IdentityRow :=
  match i with
  | DtoAgent a => {| ir_agentId := Some a; ir_userId := None; ir_groupId := None |}
  | DtoUser u => {| ir_agentId := None; ir_userId := Some u; ir_groupId := None |}
  | DtoGroup g => {| ir_agentId := None; ir_userId := None; ir_groupId := Some g |}
  end.

Definition empty_target (kind : jsstr) : TargetRow :=
  {| tr_kind := kind; tr_appProvider := None; tr_appTools := []; tr_appConnectionScope := None; tr_appConnectionId := None;
     tr_secretId := None; tr_secretScope := None; tr_hostPattern := None; tr_pathPattern := None; tr_method := None |}.

Definition targetCreate (t : PolicyTargetInput) : TargetRow :=
  match t with
  | TiApp provider tools connectionScope =>
      {| tr_kind := js "app"; tr_appProvider := Some provider; tr_appTools := default [] tools;
         tr_appConnectionScope := scope_name <$> connectionScope; tr_appConnectionId := None; tr_secretId := None;
         tr_secretScope := None; tr_hostPattern := None; tr_pathPattern := None; tr_method := None |}
  | TiConnection c tools =>
      {| tr_kind := js "connection"; tr_appProvider := None; tr_appTools := default [] tools; tr_appConnectionScope := None;
         tr_appConnectionId := Some c; tr_secretId := None; tr_secretScope := None; tr_hostPattern := None;
         tr_pathPattern := None; tr_method := None |}
  | TiSecret (Some s) _ =>
      {| tr_kind := js "secret"; tr_appProvider := None; tr_appTools := []; tr_appConnectionScope := None;
         tr_appConnectionId := None; tr_secretId := Some s; tr_secretScope := None; tr_hostPattern := None;
         tr_pathPattern := None; tr_method := None |}
  | TiSecret None secretScope =>
      {| tr_kind := js "secret"; tr_appProvider := None; tr_appTools := []; tr_appConnectionScope := None;
         tr_appConnectionId := None; tr_secretId := None; tr_secretScope := scope_name <$> secretScope;
         tr_hostPattern := None; tr_pathPattern := None; tr_method := None |}
  | TiNetwork host path method =>
      {| tr_kind := js "network"; tr_appProvider := None; tr_appTools := []; tr_appConnectionScope := None;
         tr_appConnectionId := None; tr_secretId := None; tr_secretScope := None; tr_hostPattern := Some host;
         tr_pathPattern := path; tr_method := method |}
  end.

(** The copies a snapshot is made of; an identity row without a principal
    throws. *)
Definition identityRowToCreate (i : IdentityRow) : option IdentityRow := identityCreate <$> toIdentityDto i.

Definition targetRowToCreate (t : TargetRow) : TargetRow :=
  {| tr_kind := tr_kind t; tr_appProvider := tr_appProvider t; tr_appTools := tr_appTools t;
     tr_appConnectionScope := tr_appConnectionScope t; tr_appConnectionId := truthy (tr_appConnectionId t);
     tr_secretId := truthy (tr_secretId t); tr_secretScope := tr_secretScope t; tr_hostPattern := tr_hostPattern t;
     tr_pathPattern := tr_pathPattern t; tr_method := tr_method t |}.

(** [items.filter] with a set of the keys seen; an entry without a key is
    kept. *)
Fixpoint filter_seen {A} (key : A -> option jsstr) (seen : list jsstr) (items : list A) : list A :=
  match items with
  | [] => []
  | x :: items' =>
      match key x with
      | None => x :: filter_seen key seen items'
      | Some k => if bool_decide (k ∈ seen) then filter_seen key seen items' else x :: filter_seen key (k :: seen) items'
      end
  end.

(** [`${i.type}:${i.id}`] *)
Definition identity_key (i : IdentityDto) : jsstr :=
  match i with DtoAgent a => js "agent:" ++ a | DtoUser u => js "user:" ++ u | DtoGroup g => js "group:" ++ g end.

Definition dedupeIdentities (items : list IdentityDto) : list IdentityDto := filter_seen (fun i => Some (identity_key i)) [] items.

(** Connections and secrets are deduplicated apart: their keys never meet. *)
Definition target_key (t : PolicyTargetInput) : option jsstr :=
  match t with
  | TiConnection c _ => Some (js "connection:" ++ c)
  | TiSecret (Some s) _ => Some (js "secret:" ++ s)
  | _ => None
  end.

Definition dedupeTargets (items : list PolicyTargetInput) : list PolicyTargetInput := filter_seen target_key [] items.

Definition is_agent_dto (i : IdentityDto) : bool := match i with DtoAgent _ => true | _ => false end.
Definition is_group_dto (i : IdentityDto) : bool := match i with DtoGroup _ => true | _ => false end.

Definition hasDirectoryIdentity (ids : option (list IdentityDto)) : bool := existsb (fun i => negb (is_agent_dto i)) (default [] ids).
Definition hasGroupIdentity (ids : option (list IdentityDto)) : bool := existsb is_group_dto (default [] ids).

Definition gatedActions (rateLimit : option Z) (requireApproval directory group : bool) : list jsstr :=
  (if requireApproval then [js "manual_approval"] else []) ++
  (match rateLimit with Some _ => [js "rate_limit"] | None => [] end) ++
  (if directory then [js "identity_directory"] else []) ++
  (if group then [js "identity_directory_group"] else []).

Definition jsonInput (v : option json) : json := default JNull v.

Definition asReferenceError (x : PolicyThrow) : PolicyThrow :=
  match x with
  | P2025 => throws UNPROCESSABLE (js "A referenced identity or resource does not exist.")
  | x => x
  end.

(** ** Checks before a write *)

(** The edition's hooks: which gated actions its plan allows, and its checks of
    targets and of a session policy on a connection. *)
Class PolicyProviders := {
  isOnpremEdition : bool;
  assertAllowed : PolicyScopeBase -> list jsstr -> option ServiceError;
  validateTargets : list PolicyTargetInput -> option ServiceError;
  validate : jsstr -> ConnectionRow -> json -> option ServiceError;
}.

Definition guard (ok : bool) (x : PolicyThrow) : result () := if ok then inr () else inl x.
Definition hook (e : option ServiceError) : result () := match e with Some e => inl (Service e) | None => inr () end.

Section Checks.
Context {E : PolicyProviders} (tb : PolicyTables).

(** The acting organization. *)
Definition organization_of (base : PolicyScopeBase) : result jsstr :=
  match (match base with
         | OrgBase o => Some o
         | WsBase w => snd <$> List.find (fun r => bool_decide (r.1 = w)) (tb_workspaces tb)
         end) with
  | Some (c :: o) => inr (c :: o)
  | _ => inl (throws BAD_REQUEST (js "Could not resolve the acting organization."))
  end.

Definition verify (ids : list jsstr) (count : nat) (x : PolicyThrow) : result () :=
  guard ((length ids =? 0)%nat || (count =? length ids)%nat) x.

Definition agent_ids (l : list IdentityDto) : list jsstr := omap (fun i => match i with DtoAgent a => Some a | _ => None end) l.
Definition user_ids (l : list IdentityDto) : list jsstr := omap (fun i => match i with DtoUser u => Some u | _ => None end) l.
Definition group_ids (l : list IdentityDto) : list jsstr := omap (fun i => match i with DtoGroup g => Some g | _ => None end) l.

Definition workspace_in (o w : jsstr) : bool := existsb (fun r => bool_decide (r = (w, o))) (tb_workspaces tb).

(** The counts of the ownership check. *)
Definition count_agents (base : PolicyScopeBase) (o : jsstr) (ids : list jsstr) : nat :=
  length (List.filter (fun r => bool_decide (agr_id r ∈ ids) &&
    match base with WsBase w => bool_decide (agr_workspaceId r = w) | OrgBase _ => workspace_in o (agr_workspaceId r) end)
    (tb_agents tb)).
Definition count_members (o : jsstr) (ids : list jsstr) : nat :=
  length (List.filter (fun r => bool_decide (om_userId r ∈ ids) && bool_decide (om_organizationId r = o) &&
    negb (bool_decide (om_status r = js "suspended"))) (dir_members (tb_directory tb))).
Definition count_groups (o : jsstr) (ids : list jsstr) : nat :=
  length (List.filter (fun r => bool_decide (gr_id r ∈ ids) && bool_decide (gr_organizationId r = o))
    (dir_groups (tb_directory tb))).

Definition level_message : jsstr :=
  if isOnpremEdition then js "Group and user identities are available on OneCLI Cloud."
  else js "A workspace rule can target a specific agent or all agents.".

Definition assertIdentitiesValid (base : PolicyScopeBase) (identities : list IdentityDto) : result () :=
  let deduped := dedupeIdentities identities in
  match deduped with
  | [] => mret ()
  | _ =>
      let agents := agent_ids deduped in
      let users := user_ids deduped in
      let groups := group_ids deduped in
      let reference := throws UNPROCESSABLE (js "A referenced identity does not belong to this organization.") in
      guard (match base with WsBase _ => (length users =? 0)%nat && (length groups =? 0)%nat | OrgBase _ => true end)
        (throws UNPROCESSABLE level_message);;
      guard (match base with OrgBase _ => (length agents =? 0)%nat | WsBase _ => true end)
        (throws UNPROCESSABLE (js "An organization rule targets users or user-groups, not a specific agent."));;
      o ← organization_of base;
      verify agents (count_agents base o agents) reference;;
      verify users (count_members o users) reference;;
      verify groups (count_groups o groups) reference
  end.

(** Exactly one of a secret and a level. *)
Definition secret_shaped (t : PolicyTargetInput) : bool :=
  match t with
  | TiSecret s level => negb (eqb (bool_decide (s = None)) (bool_decide (level = None)))
  | _ => true
  end.

Definition at_organization (t : PolicyTargetInput) : bool :=
  match t with
  | TiApp _ _ (Some organization) => true
  | TiSecret _ (Some organization) => true
  | _ => false
  end.

Definition connection_ids (targets : list PolicyTargetInput) : list jsstr :=
  js_dedup (omap (fun t => match t with TiConnection c _ => Some c | _ => None end) targets).
Definition secret_ids (targets : list PolicyTargetInput) : list jsstr :=
  js_dedup (omap (fun t => match t with TiSecret s _ => s | _ => None end) targets).

(** The rows a scope's rules may name. *)
Definition owned (base : PolicyScopeBase) (o : jsstr) (scope : jsstr) (org ws : option jsstr) : bool :=
  match base with
  | WsBase w => bool_decide (ws = Some w)
  | OrgBase _ => bool_decide (org = Some o) && bool_decide (scope = js "organization")
  end.

Definition owned_connection (base : PolicyScopeBase) (o : jsstr) (r : ConnectionRow) : bool :=
  owned base o (cr_scope r) (cr_organizationId r) (cr_workspaceId r).
Definition owned_secret (base : PolicyScopeBase) (o : jsstr) (r : SecretRow) : bool :=
  owned base o (sr_scope r) (sr_organizationId r) (sr_workspaceId r).

Definition assertTargetsValid (base : PolicyScopeBase) (targets : list PolicyTargetInput) : result () :=
  guard (forallb secret_shaped targets)
    (throws UNPROCESSABLE (js "A secret target must name either a specific secret or a level, not both."));;
  guard (match base with WsBase _ => negb (existsb at_organization targets) | OrgBase _ => true end)
    (throws UNPROCESSABLE (js "A workspace rule's target can't scope to organization-level resources."));;
  let connections := connection_ids targets in
  let secrets := secret_ids targets in
  if (length connections =? 0)%nat && (length secrets =? 0)%nat then mret ()
  else
    let reference := throws UNPROCESSABLE (js "A referenced connection or secret does not belong to this organization.") in
    o ← organization_of base;
    verify connections
      (length (List.filter (fun r => bool_decide (cr_id r ∈ connections) && owned_connection base o r) (tb_connections tb)))
      reference;;
    verify secrets
      (length (List.filter (fun r => bool_decide (sr_id r ∈ secrets) && owned_secret base o r) (tb_secrets tb)))
      reference.

(** [for (const c of conns) await validator.validate(...)] *)
Fixpoint validate_each (o : jsstr) (conditions : json) (conns : list ConnectionRow) : result () :=
  match conns with
  | [] => mret ()
  | c :: conns' => hook (validate o c conditions);; validate_each o conditions conns'
  end.

Definition assertSessionPolicyValid (base : PolicyScopeBase) (targets : option (list PolicyTargetInput))
    (conditions : json) (action : jsstr) : result () :=
  if negb (isSessionPolicy conditions) then mret ()
  else
    guard (bool_decide (action = js "allow"))
      (throws UNPROCESSABLE (js "resource scoping (repositories/folders) applies only to Allow rules"));;
    let connections := connection_ids (default [] targets) in
    guard (negb (length connections =? 0)%nat)
      (throws UNPROCESSABLE (js "resource scoping (repositories/folders) requires a connection target"));;
    o ← organization_of base;
    validate_each o conditions
      (List.filter (fun r => bool_decide (cr_id r ∈ connections) && owned_connection base o r) (tb_connections tb)).
End Checks.

(** ** Reads *)

Definition decoded {A} (o : option A) : result A := match o with Some a => inr a | None => inl Broken end.

(** The rows of a status in a scope; of the published ones, the newest
    generation's. [None]: never published. *)
Definition standing (base : PolicyScopeBase) (st : jsstr) (table : list RuleRow) : option (list RuleRow) :=
  let rows := List.filter (fun r => in_base base r && has_row_status st r) table in
  if bool_decide (st = js "published") then
    g ← max_generation rows;
    Some (List.filter (fun r => row_generation r =? g) rows)
  else Some rows.

Definition listPolicyRules (base : PolicyScopeBase) (st : jsstr) (table : list RuleRow) : result (list OverlapRule) :=
  match standing base st table with
  | None => inr []
  | Some rows => decoded (mapM toRuleDto (js_sort LoadRules.row_leb (List.filter (fun r => negb (row_isDefault r)) rows)))
  end.

(** The draft rule an edit may name. *)
Definition authored (base : PolicyScopeBase) (i : jsstr) (r : RuleRow) : bool :=
  bool_decide (row_id r = i) && draft_in base r && negb (row_isDefault r).

Definition rule_not_found : PolicyThrow := throws NOT_FOUND (js "Policy rule not found.").

Definition getPolicyRule (base : PolicyScopeBase) (i : jsstr) (table : list RuleRow) : result OverlapRule :=
  match List.find (authored base i) table with
  | None => inl rule_not_found
  | Some rule => decoded (toRuleDto rule)
  end.

(** ** Publishing *)

Definition findDefault (base : PolicyScopeBase) (st : jsstr) (table : list RuleRow) : option RuleRow :=
  rows ← standing base st table;
  List.find row_isDefault rows.

Definition defaultAction (_ : PolicyScopeBase) : Action := allow.

(** The Default Rule a scope is given. *)
Definition defaultRow (base : PolicyScopeBase) (ids : jsstr * jsstr) : RuleRow :=
  {| row_id := ids.1; row_scope := base_scope base; row_organizationId := base_organization base;
     row_workspaceId := base_workspace base; row_status := js "draft"; row_generation := 0; row_priority := 0;
     row_enabled := true; row_isDefault := true; row_logicalId := ids.2; row_source := js "default";
     row_name := js "Default Rule"; row_action := action_name (defaultAction base); row_rateLimit := None;
     row_rateLimitWindow := None; row_requireApproval := false; row_conditions := JNull; row_identities := [];
     row_targets := [] |}.

Definition ensureDefault (base : PolicyScopeBase) : tx RuleRow :=
  table ← tx_table;
  match findDefault base (js "draft") table with
  | Some existing => mret existing
  | None => create (defaultRow base)
  end.

(** The Default Rule a read answers when none is stored. *)
Definition virtualDefault (base : PolicyScopeBase) : OverlapRule :=
  {| or_logicalId := []; or_isDefault := true; or_enabled := true; or_priority := 0; or_name := js "Default Rule";
     or_action := action_name (defaultAction base); or_requireApproval := false; or_rateLimit := None;
     or_rateLimitWindow := None; or_identities := []; or_targets := []; or_conditions := JNull |}.

Definition getPolicyDefault (base : PolicyScopeBase) (st : jsstr) (table : list RuleRow) : result OverlapRule :=
  match findDefault base st table with
  | Some row => decoded (toRuleDto row)
  | None => inr (virtualDefault base)
  end.

Definition PUBLISHED_GENERATION_RETENTION : Z := 10.

(** The snapshot of a draft row. *)
Definition snapshotRow (base : PolicyScopeBase) (generation : Z) (identities : list IdentityRow) (r : RuleRow)
    (ids : jsstr * jsstr) : RuleRow :=
  {| row_id := ids.1; row_scope := base_scope base; row_organizationId := base_organization base;
     row_workspaceId := base_workspace base; row_status := js "published"; row_generation := generation;
     row_priority := row_priority r; row_enabled := row_enabled r; row_isDefault := row_isDefault r;
     row_logicalId := row_logicalId r; row_source := row_source r; row_name := row_name r; row_action := row_action r;
     row_rateLimit := row_rateLimit r; row_rateLimitWindow := row_rateLimitWindow r;
     row_requireApproval := row_requireApproval r; row_conditions := jsonInput (Some (row_conditions r));
     row_identities := identities; row_targets := map targetRowToCreate (row_targets r) |}.

Fixpoint snapshot_each (base : PolicyScopeBase) (generation : Z) (draftRules : list RuleRow) : tx () :=
  match draftRules with
  | [] => mret ()
  | r :: draftRules' =>
      match mapM identityRowToCreate (row_identities r) with
      | None => tx_throw Broken
      | Some identities => create (snapshotRow base generation identities r);; snapshot_each base generation draftRules'
      end
  end.

Record PublishResult := mkPublished {
  pr_generation : Z;
  pr_ruleCount : nat;
}.

Definition snapshotDraftRules (base : PolicyScopeBase) (draftRules : list RuleRow) : tx PublishResult :=
  table ← tx_table;
  let generation := default 0 (max_generation (List.filter (published_in base) table)) + 1 in
  snapshot_each base generation draftRules;;
  (if PUBLISHED_GENERATION_RETENTION <? generation
   then deleteMany (fun r => published_in base r && (row_generation r <=? generation - PUBLISHED_GENERATION_RETENTION));; mret ()
   else mret ());;
  mret (mkPublished generation (length draftRules)).

Definition publishDraftInTx (base : PolicyScopeBase) : tx PublishResult :=
  ensureDefault base;;
  table ← tx_table;
  snapshotDraftRules base (js_sort LoadRules.row_leb (List.filter (draft_in base) table)).

Definition publishPolicy (scope : ResourceScope) : result (tx PublishResult) :=
  base ← policyScope scope;
  mret (publishDraftInTx base).

(** [_max.priority ?? 0] over the draft rules. *)
Definition lastPriority (base : PolicyScopeBase) (table : list RuleRow) : Z :=
  match map row_priority (List.filter (fun r => draft_in base r && negb (row_isDefault r)) table) with
  | [] => 0
  | p :: ps => fold_left Z.max ps p
  end.

(** ** Writes

    Each is what its checks leave: a throw, or the transaction to run. *)
Section Writes.
Context {E : PolicyProviders}.

Definition createdRow (base : PolicyScopeBase) (priority : Z) (input : CreatePolicyRuleInput) (ids : jsstr * jsstr) : RuleRow :=
  {| row_id := ids.1; row_scope := base_scope base; row_organizationId := base_organization base;
     row_workspaceId := base_workspace base; row_status := js "draft"; row_generation := 0; row_priority := priority;
     row_enabled := default true (ci_enabled input); row_isDefault := false; row_logicalId := ids.2;
     row_source := js "custom"; row_name := ci_name input; row_action := action_name (ci_action input);
     row_rateLimit := ci_rateLimit input; row_rateLimitWindow := ci_rateLimitWindow input;
     row_requireApproval := default false (ci_requireApproval input); row_conditions := jsonInput (ci_conditions input);
     row_identities := map identityCreate (dedupeIdentities (default [] (ci_identities input)));
     row_targets := map targetCreate (dedupeTargets (default [] (ci_targets input))) |}.

Definition createPolicyRule (tb : PolicyTables) (scope : ResourceScope) (input : CreatePolicyRuleInput) : result (tx RuleRow) :=
  base ← policyScope scope;
  assertIdentitiesValid tb base (default [] (ci_identities input));;
  let targets := default [] (ci_targets input) in
  guard (negb (length targets =? 0)%nat) (throws UNPROCESSABLE (js "A rule must name at least one target."));;
  assertTargetsValid tb base targets;;
  hook (validateTargets targets);;
  assertSessionPolicyValid tb base (Some targets) (default JNull (ci_conditions input)) (action_name (ci_action input));;
  hook (assertAllowed base (gatedActions (ci_rateLimit input) (default false (ci_requireApproval input))
    (hasDirectoryIdentity (ci_identities input)) (hasGroupIdentity (ci_identities input))));;
  mret (rethrow asReferenceError (
    table ← tx_table;
    created ← create (createdRow base (lastPriority base table + 1) input);
    publishDraftInTx base;;
    mret created)).

(** The columns an edit writes. *)
Definition editedRow (input : UpdatePolicyRuleInput) (r : RuleRow) : RuleRow :=
  {| row_id := row_id r; row_scope := row_scope r; row_organizationId := row_organizationId r;
     row_workspaceId := row_workspaceId r; row_status := row_status r; row_generation := row_generation r;
     row_priority := row_priority r; row_enabled := default (row_enabled r) (ui_enabled input);
     row_isDefault := row_isDefault r; row_logicalId := row_logicalId r; row_source := row_source r;
     row_name := default (row_name r) (ui_name input);
     row_action := default (row_action r) (action_name <$> ui_action input);
     row_rateLimit := default (row_rateLimit r) (ui_rateLimit input);
     row_rateLimitWindow := default (row_rateLimitWindow r) (ui_rateLimitWindow input);
     row_requireApproval := default (row_requireApproval r) (ui_requireApproval input);
     row_conditions := default (row_conditions r) (jsonInput <$> ui_conditions input);
     row_identities := match ui_identities input with
                       | Some ids => map identityCreate (dedupeIdentities ids)
                       | None => row_identities r
                       end;
     row_targets := match ui_targets input with
                    | Some ts => map targetCreate (dedupeTargets ts)
                    | None => row_targets r
                    end |}.

(** The connection targets of a stored rule, as inputs. *)
Definition stored_connections (r : RuleRow) : list PolicyTargetInput :=
  omap (fun t => if bool_decide (tr_kind t = js "connection")
                 then (fun c => TiConnection c None) <$> tr_appConnectionId t else None) (row_targets r).

(** Modifiers, over the rule as the edit would leave it. *)
Definition modifiers_check (input : UpdatePolicyRuleInput) (existing : RuleRow) : result () :=
  let next := editedRow input existing in
  guard (negb (bool_decide (row_action next = js "block") &&
      (negb (bool_decide (row_rateLimit next = None)) || negb (bool_decide (row_rateLimitWindow next = None)) ||
       row_requireApproval next)))
    (throws UNPROCESSABLE (js "rate-limit and approval modifiers require action = allow"));;
  guard (eqb (bool_decide (row_rateLimit next = None)) (bool_decide (row_rateLimitWindow next = None)))
    (throws UNPROCESSABLE (js "rateLimit and rateLimitWindow must be provided together")).

Definition updatePolicyRule (tb : PolicyTables) (table : list RuleRow) (scope : ResourceScope) (i : jsstr)
    (input : UpdatePolicyRuleInput) : result (tx RuleRow) :=
  base ← policyScope scope;
  match List.find (authored base i) table with
  | None => inl rule_not_found
  | Some existing =>
      modifiers_check input existing;;
      match ui_identities input with Some ids => assertIdentitiesValid tb base ids | None => mret () end;;
      match ui_targets input with
      | Some ts =>
          guard (negb (length ts =? 0)%nat) (throws UNPROCESSABLE (js "A rule must name at least one target."));;
          assertTargetsValid tb base ts;;
          hook (validateTargets ts)
      | None => mret ()
      end;;
      (if bool_decide (ui_conditions input = None) && bool_decide (ui_targets input = None) && bool_decide (ui_action input = None)
       then mret ()
       else assertSessionPolicyValid tb base (Some (default (stored_connections existing) (ui_targets input)))
              (match ui_conditions input with Some c => default JNull c | None => row_conditions existing end)
              (default (row_action existing) (action_name <$> ui_action input)));;
      hook (assertAllowed base (gatedActions (default None (ui_rateLimit input)) (default false (ui_requireApproval input))
        (hasDirectoryIdentity (ui_identities input)) (hasGroupIdentity (ui_identities input))));;
      mret (rethrow asReferenceError (
        updated ← update i (editedRow input);
        publishDraftInTx base;;
        mret updated))
  end.

Definition deletePolicyRule (scope : ResourceScope) (i : jsstr) : result (tx ()) :=
  base ← policyScope scope;
  mret (
    count ← deleteMany (authored base i);
    (if (count =? 0)%nat then tx_throw rule_not_found else mret ());;
    publishDraftInTx base;;
    mret ()).

Definition rules_changed : PolicyThrow := throws CONFLICT (js "Rule set changed. Refresh and try again.").

Definition with_priority (priority : Z) (r : RuleRow) : RuleRow :=
  {| row_id := row_id r; row_scope := row_scope r; row_organizationId := row_organizationId r;
     row_workspaceId := row_workspaceId r; row_status := row_status r; row_generation := row_generation r;
     row_priority := priority; row_enabled := row_enabled r; row_isDefault := row_isDefault r;
     row_logicalId := row_logicalId r; row_source := row_source r; row_name := row_name r;
     row_action := row_action r; row_rateLimit := row_rateLimit r; row_rateLimitWindow := row_rateLimitWindow r;
     row_requireApproval := row_requireApproval r; row_conditions := row_conditions r;
     row_identities := row_identities r; row_targets := row_targets r |}.

(** [for (const [i, id] of orderedIds.entries())] *)
Fixpoint prioritize (priority : Z) (orderedIds : list jsstr) : tx () :=
  match orderedIds with
  | [] => mret ()
  | i :: orderedIds' => update i (with_priority priority);; prioritize (priority + 1) orderedIds'
  end.

Definition namesEveryRuleOnce (base : PolicyScopeBase) (orderedIds : list jsstr) (table : list RuleRow) : bool :=
  let draftIds := map row_id (List.filter (fun r => draft_in base r && negb (row_isDefault r)) table) in
  (length orderedIds =? length (js_dedup draftIds))%nat && (length (js_dedup orderedIds) =? length orderedIds)%nat &&
  forallb (fun i => bool_decide (i ∈ draftIds)) orderedIds.

Definition reorderPolicyRules (scope : ResourceScope) (orderedIds : list jsstr) : result (tx ()) :=
  base ← policyScope scope;
  mret (rethrow (fun x => match x with P2025 => rules_changed | x => x end) (
    table ← tx_table;
    (if namesEveryRuleOnce base orderedIds table then mret () else tx_throw rules_changed);;
    prioritize 1 orderedIds;;
    publishDraftInTx base;;
    mret ())).

Definition with_action (a : Action) (r : RuleRow) : RuleRow :=
  {| row_id := row_id r; row_scope := row_scope r; row_organizationId := row_organizationId r;
     row_workspaceId := row_workspaceId r; row_status := row_status r; row_generation := row_generation r;
     row_priority := row_priority r; row_enabled := row_enabled r; row_isDefault := row_isDefault r;
     row_logicalId := row_logicalId r; row_source := row_source r; row_name := row_name r;
     row_action := action_name a; row_rateLimit := row_rateLimit r; row_rateLimitWindow := row_rateLimitWindow r;
     row_requireApproval := row_requireApproval r; row_conditions := row_conditions r;
     row_identities := row_identities r; row_targets := row_targets r |}.

Definition setPolicyDefaultAction (scope : ResourceScope) (a : Action) : result (tx RuleRow) :=
  base ← policyScope scope;
  mret (
    def ← ensureDefault base;
    row ← update (row_id def) (with_action a);
    publishDraftInTx base;;
    mret row).
End Writes.

(** ** Deleted principals *)

Inductive DeletedPrincipal :=
| GoneAgent (id workspaceId : jsstr)
| GoneGroup (id organizationId : jsstr)
| GoneUser (id : jsstr).

(** The identity rows of the principal. *)
Definition names_principal (p : DeletedPrincipal) (i : IdentityRow) : bool :=
  match p with
  | GoneAgent a _ => bool_decide (ir_agentId i = Some a)
  | GoneGroup g _ => bool_decide (ir_groupId i = Some g)
  | GoneUser u => bool_decide (ir_userId i = Some u)
  end.

(** [identities: { some: ..., every: ... }] *)
Definition only_names (p : DeletedPrincipal) (r : RuleRow) : bool :=
  existsb (names_principal p) (row_identities r) && forallb (names_principal p) (row_identities r).

(** A grant without an identity. *)
Definition orphaned_grant (r : RuleRow) : bool :=
  bool_decide (row_source r = GRANT_SOURCE) && (length (row_identities r) =? 0)%nat.

Definition dropped (p : DeletedPrincipal) (r : RuleRow) : bool :=
  match p with
  | GoneAgent _ w => in_base (WsBase w) r && (only_names p r || orphaned_grant r)
  | GoneGroup _ o => in_base (OrgBase o) r && only_names p r
  | GoneUser _ => bool_decide (row_scope r = js "organization") && only_names p r
  end.

(** The organizations whose rules changed, in order. *)
Definition dropPrincipalFromPolicyInTx (p : DeletedPrincipal) : tx (list jsstr) :=
  table ← tx_table;
  count ← deleteMany (dropped p);
  mret (match p with
        | GoneAgent _ _ => []
        | GoneGroup _ o => if (0 <? count)%nat then [o] else []
        | GoneUser _ => str_sort (js_dedup (omap (fun r => truthy (row_organizationId r)) (List.filter (dropped p) table)))
        end).

Definition with_identities (ids : list IdentityRow) (r : RuleRow) : RuleRow :=
  {| row_id := row_id r; row_scope := row_scope r; row_organizationId := row_organizationId r;
     row_workspaceId := row_workspaceId r; row_status := row_status r; row_generation := row_generation r;
     row_priority := row_priority r; row_enabled := row_enabled r; row_isDefault := row_isDefault r;
     row_logicalId := row_logicalId r; row_source := row_source r; row_name := row_name r; row_action := row_action r;
     row_rateLimit := row_rateLimit r; row_rateLimitWindow := row_rateLimitWindow r;
     row_requireApproval := row_requireApproval r; row_conditions := row_conditions r; row_identities := ids;
     row_targets := row_targets r |}.

(** The principal's row goes in the same transaction, and its identity rows
    with it. *)
Definition cascade_principal (p : DeletedPrincipal) : tx () := fun _ s =>
  inr ((), mkTx (map (fun r => with_identities (List.filter (fun i => negb (names_principal p i)) (row_identities r)) r) (tx_rules s))
             (tx_created s)).

Definition deletePrincipal (p : DeletedPrincipal) : tx (list jsstr) :=
  organizations ← dropPrincipalFromPolicyInTx p;
  cascade_principal p;;
  mret organizations.

(** ** Seeding *)

Record BackfillRuleInput := mkBackfill {
  bf_priority : Z;
  bf_isDefault : bool;
  bf_source : jsstr;
  bf_name : jsstr;
  bf_action : Action;
  bf_rateLimit : option Z;
  bf_rateLimitWindow : option jsstr;
  bf_requireApproval : bool;
  bf_conditions : option json;
  bf_identities : list IdentityDto;
  bf_targets : list PolicyTargetInput;
  bf_enabled : option bool;
}.

(** The draft row, and the published one on the draft's logical identifier. *)
Definition backfillRow (base : PolicyScopeBase) (published : option jsstr) (r : BackfillRuleInput) (ids : jsstr * jsstr) : RuleRow :=
  {| row_id := ids.1; row_scope := base_scope base; row_organizationId := base_organization base;
     row_workspaceId := base_workspace base;
     row_status := match published with Some _ => js "published" | None => js "draft" end;
     row_generation := match published with Some _ => 1 | None => 0 end;
     row_priority := bf_priority r; row_enabled := default true (bf_enabled r); row_isDefault := bf_isDefault r;
     row_logicalId := default ids.2 published; row_source := bf_source r; row_name := bf_name r;
     row_action := action_name (bf_action r); row_rateLimit := bf_rateLimit r; row_rateLimitWindow := bf_rateLimitWindow r;
     row_requireApproval := bf_requireApproval r; row_conditions := jsonInput (bf_conditions r);
     row_identities := map identityCreate (bf_identities r); row_targets := map targetCreate (bf_targets r) |}.

Fixpoint backfill_each (base : PolicyScopeBase) (rules : list BackfillRuleInput) : tx () :=
  match rules with
  | [] => mret ()
  | r :: rules' =>
      draft ← create (backfillRow base None r);
      create (backfillRow base (Some (row_logicalId draft)) r);;
      backfill_each base rules'
  end.

Record BackfillResult := mkBackfilled {
  br_skipped : bool;
  br_generation : option Z;
  br_ruleCount : nat;
}.

Definition backfillPublishScope (scope : ResourceScope) (rules : list BackfillRuleInput) : result (tx BackfillResult) :=
  base ← policyScope scope;
  mret (
    table ← tx_table;
    if (0 <? length (List.filter (published_in base) table))%nat then mret (mkBackfilled true None 0)
    else
      backfill_each base rules;;
      mret (mkBackfilled false (if (0 <? length rules)%nat then Some 1 else None) (length rules))).

(** The seeded Default Rule ([policy-onprem-seeder.ts], [new-org-policy-seeder.ts]). *)
Definition ALLOW_DEFAULT : BackfillRuleInput :=
  mkBackfill 0 true (js "default") (js "Default Rule") allow None None false None [] [] None.

(** ** Grants: [grants-service.ts] *)

Fixpoint create_each (rows : list (jsstr * jsstr -> RuleRow)) : tx (list jsstr) :=
  match rows with
  | [] => mret []
  | build :: rows' =>
      created ← create build;
      ids ← create_each rows';
      mret (row_id created :: ids)
  end.

(** [priority++] over the rules to create. *)
Fixpoint grant_builds (workspaceId agentId : jsstr) (priority : Z) (creates : list (CompiledRule * TargetRow)) :
    list (jsstr * jsstr -> RuleRow) :=
  match creates with
  | [] => []
  | (rule, target) :: creates' =>
      (fun ids => grantRow workspaceId agentId priority ids rule target) :: grant_builds workspaceId agentId (priority + 1) creates'
  end.

Definition appendGrantRulesInTx (workspaceId agentId : jsstr) (creates : list (CompiledRule * TargetRow)) : tx (list jsstr) :=
  table ← tx_table;
  create_each (grant_builds workspaceId agentId (tailPriority workspaceId table + 1) creates).

(** The rows a connection's or a secret's stack replaces: [deleteWhere]. *)
Definition stack_of (workspaceId agentId : jsstr) (names : RuleRow -> bool) (r : RuleRow) : bool :=
  draftOf workspaceId r && bool_decide (row_source r = GRANT_SOURCE) && namesAgent agentId r && names r.

Definition namesSecret (secretId : jsstr) (row : RuleRow) : bool :=
  existsb (fun t => bool_decide (tr_secretId t = Some secretId)) (row_targets row).

Definition replaceAndPublish (workspaceId agentId : jsstr) (names : RuleRow -> bool) (creates : list (CompiledRule * TargetRow)) :
    tx (list jsstr * Z) :=
  deleteMany (stack_of workspaceId agentId names);;
  ruleIds ← appendGrantRulesInTx workspaceId agentId creates;
  published ← publishDraftInTx (WsBase workspaceId);
  mret (ruleIds, pr_generation published).

(** The transaction of [attachDefaultConnectionGrant]: whether it wrote. *)
Definition attachIfAbsent (workspaceId agentId connectionId : jsstr) (desired : list CompiledRule) : tx bool :=
  table ← tx_table;
  match readGrantRows table workspaceId agentId connectionId with
  | _ :: _ => mret false
  | [] =>
      appendGrantRulesInTx workspaceId agentId (map (fun rule => (rule, connectionTarget connectionId rule)) desired);;
      publishDraftInTx (WsBase workspaceId);;
      mret true
  end.

(** A deleted connection or secret takes the targets that name it. *)
Definition names_resource (c : jsstr) (t : TargetRow) : bool :=
  bool_decide (truthy (tr_appConnectionId t) = Some c) || bool_decide (truthy (tr_secretId t) = Some c).

Definition with_targets (ts : list TargetRow) (r : RuleRow) : RuleRow :=
  {| row_id := row_id r; row_scope := row_scope r; row_organizationId := row_organizationId r;
     row_workspaceId := row_workspaceId r; row_status := row_status r; row_generation := row_generation r;
     row_priority := row_priority r; row_enabled := row_enabled r; row_isDefault := row_isDefault r;
     row_logicalId := row_logicalId r; row_source := row_source r; row_name := row_name r; row_action := row_action r;
     row_rateLimit := row_rateLimit r; row_rateLimitWindow := row_rateLimitWindow r;
     row_requireApproval := row_requireApproval r; row_conditions := row_conditions r;
     row_identities := row_identities r; row_targets := ts |}.
