(* ===== verification/PolicyBlocklist.v ===== *)
(** * The host blocklist

    [packages/api/src/services/app-blocklist-service.ts]: an app's blocked hosts
    are rules too, written to the draft and into the live generation in place,
    without a publish. What a function reads before its transaction is the
    [read] it is given: other writes may come between the two. *)
From S2P Require Import Prelude PolicyTypes JsJson Catalog PolicyRows Grants ResourceAxis LoadRules EffectiveTools PolicyAuthoring.
Local Open Scope Z_scope.

Record BlocklistHost := mkHost {
  bh_id : jsstr;
  bh_name : jsstr;
  bh_hostPattern : jsstr;
}.

Definition BLOCKLIST_SOURCE : jsstr := js "blocklist".
Definition ANY_PATH : jsstr := js "/*".

(** [tx.policyRuleV2.updateMany] *)
Definition updateRules (cond : RuleRow -> bool) (data : RuleRow -> RuleRow) : tx () := fun _ s =>
  inr ((), mkTx (map (fun r => if cond r then data r else r) (tx_rules s)) (tx_created s)).

Definition randomUUID : tx jsstr := fun m s => inr ((mo_ids m (tx_created s)).2, mkTx (tx_rules s) (S (tx_created s))).

Definition liveGeneration (base : PolicyScopeBase) : tx (option Z) :=
  table ← tx_table;
  mret (max_generation (List.filter (published_in base) table)).

(** [{ status, generation? }]: the draft, or one published generation. *)
Definition in_set (base : PolicyScopeBase) (generation : option Z) (r : RuleRow) : bool :=
  match generation with
  | None => draft_in base r
  | Some g => published_in base r && (row_generation r =? g)
  end.

(** After the blocks at the front, before the first looser rule. *)
Definition insertPriority (base : PolicyScopeBase) (generation : option Z) (table : list RuleRow) : Z :=
  let rules := js_sort LoadRules.row_leb (List.filter (fun r => in_set base generation r && negb (row_isDefault r)) table) in
  match List.find (fun r => negb (bool_decide (row_action r = js "block"))) rules with
  | Some firstLooser => row_priority firstLooser
  | None => match last rules with Some r => row_priority r | None => 0 end + 1
  end.

Definition shiftDown (base : PolicyScopeBase) (generation : option Z) (priority : Z) : tx () :=
  updateRules (fun r => in_set base generation r && negb (row_isDefault r) && (priority <=? row_priority r))
    (fun r => with_priority (row_priority r + 1) r).

Definition blockRow (base : PolicyScopeBase) (generation : option Z) (priority : Z) (logicalId name hostPattern : jsstr)
    (ids : jsstr * jsstr) : RuleRow :=
  {| row_id := ids.1; row_scope := base_scope base; row_organizationId := base_organization base;
     row_workspaceId := base_workspace base;
     row_status := match generation with Some _ => js "published" | None => js "draft" end;
     row_generation := default 0 generation; row_priority := priority; row_enabled := true; row_isDefault := false;
     row_logicalId := logicalId; row_source := BLOCKLIST_SOURCE; row_name := name; row_action := js "block";
     row_rateLimit := None; row_rateLimitWindow := None; row_requireApproval := false; row_conditions := JNull;
     row_identities := []; row_targets := [targetCreate (TiNetwork hostPattern (Some ANY_PATH) None)] |}.

Definition createBlockRule (base : PolicyScopeBase) (generation : option Z) (logicalId name hostPattern : jsstr) : tx RuleRow :=
  table ← tx_table;
  let priority := insertPriority base generation table in
  shiftDown base generation priority;;
  create (blockRow base generation priority logicalId name hostPattern).

Definition listDraftRules (base : PolicyScopeBase) (table : list RuleRow) : list RuleRow :=
  List.filter (fun r => draft_in base r && bool_decide (row_source r = BLOCKLIST_SOURCE)) table.

(** The scope a caller owns: its workspace first. *)
Definition ownScope (scope : ResourceScope) : result PolicyScopeBase :=
  match truthy (rs_workspaceId scope) with Some w => mret (WsBase w) | None => policyScope scope end.

Definition inheritedScope (scope : ResourceScope) : option PolicyScopeBase :=
  match truthy (rs_workspaceId scope), truthy (rs_organizationId scope) with
  | Some _, Some o => Some (OrgBase o)
  | _, _ => None
  end.

Definition hostPatternOf (r : RuleRow) : option jsstr := t ← head (row_targets r); tr_hostPattern t.

(** One host's block, in the draft and in the live generation. *)
Fixpoint block_each (base : PolicyScopeBase) (generation : option Z) (hosts : list BlocklistHost) : tx () :=
  match hosts with
  | [] => mret ()
  | host :: hosts' =>
      logicalId ← randomUUID;
      let name := js "Block " ++ bh_name host in
      createBlockRule base None logicalId name (bh_hostPattern host);;
      match generation with
      | Some g => createBlockRule base (Some g) logicalId name (bh_hostPattern host);; mret ()
      | None => mret ()
      end;;
      block_each base generation hosts'
  end.

Definition missing_hosts (base : PolicyScopeBase) (read : list RuleRow) (hosts : list BlocklistHost) : list BlocklistHost :=
  let covered := omap (fun r => truthy (hostPatternOf r)) (listDraftRules base read) in
  List.filter (fun h => negb (bool_decide (bh_hostPattern h ∈ covered))) hosts.

(** [None]: nothing to write. *)
Definition initBlocklistDefaults (read : list RuleRow) (scope : ResourceScope) (hosts : list BlocklistHost) : result (option (tx ())) :=
  match hosts with
  | [] => mret None
  | _ =>
      base ← ownScope scope;
      mret (match missing_hosts base read hosts with
            | [] => None
            | missing => Some (generation ← liveGeneration base; block_each base generation missing)
            end)
  end.

Record BlocklistHostState := mkHostState {
  hs_hostId : jsstr;
  hs_ruleId : option jsstr;
  hs_enabled : bool;
  hs_name : jsstr;
  hs_hostPattern : jsstr;
  hs_scope : option jsstr;
}.

(** The rule shown for a host: the last one found, an inherited one over the
    scope's own. *)
Definition byHost (base : PolicyScopeBase) (inherited : option PolicyScopeBase) (table : list RuleRow) (hostPattern : jsstr) :
    option (RuleRow * jsstr) :=
  let rules from := map (fun r => (r, base_scope from)) (listDraftRules from table) in
  List.find (fun p => bool_decide (truthy (hostPatternOf p.1) = Some hostPattern))
    (rev (rules base ++ match inherited with Some i => rules i | None => [] end)).

Definition getBlocklistState (table : list RuleRow) (scope : ResourceScope) (hosts : list BlocklistHost) : result (list BlocklistHostState) :=
  base ← ownScope scope;
  mret (map (fun host =>
    let rule := byHost base (inheritedScope scope) table (bh_hostPattern host) in
    mkHostState (bh_id host) ((fun p => row_id p.1) <$> rule) (match rule with Some p => row_enabled p.1 | None => false end)
      (bh_name host) (bh_hostPattern host) (snd <$> rule)) hosts).

Definition blocklist_rule_not_found : PolicyThrow := throws NOT_FOUND (js "Blocklist rule not found").

Definition requireDraftRule (read : list RuleRow) (base : PolicyScopeBase) (ruleId : jsstr) : result RuleRow :=
  match List.find (fun r => bool_decide (row_id r = ruleId) && draft_in base r && bool_decide (row_source r = BLOCKLIST_SOURCE)) read with
  | Some r => inr r
  | None => inl blocklist_rule_not_found
  end.

(** The draft and, where there is one, the live generation. *)
Definition in_lockstep (base : PolicyScopeBase) (generation : option Z) (r : RuleRow) : bool :=
  in_set base None r || match generation with Some g => in_set base (Some g) r | None => false end.

Definition with_enabled (enabled : bool) (r : RuleRow) : RuleRow :=
  {| row_id := row_id r; row_scope := row_scope r; row_organizationId := row_organizationId r;
     row_workspaceId := row_workspaceId r; row_status := row_status r; row_generation := row_generation r;
     row_priority := row_priority r; row_enabled := enabled; row_isDefault := row_isDefault r;
     row_logicalId := row_logicalId r; row_source := row_source r; row_name := row_name r; row_action := row_action r;
     row_rateLimit := row_rateLimit r; row_rateLimitWindow := row_rateLimitWindow r;
     row_requireApproval := row_requireApproval r; row_conditions := row_conditions r;
     row_identities := row_identities r; row_targets := row_targets r |}.

Definition toggleBlocklistRule (read : list RuleRow) (scope : ResourceScope) (ruleId : jsstr) (enabled : bool) : result (tx ()) :=
  base ← ownScope scope;
  rule ← requireDraftRule read base ruleId;
  mret (
    generation ← liveGeneration base;
    updateRules (fun r => in_lockstep base generation r && bool_decide (row_logicalId r = row_logicalId rule)) (with_enabled enabled)).

(** The write of an activation: what [toggled] shows is read by the second of
    its two functions. *)
Definition activateBlocklistHost (read toggled : list RuleRow) (scope : ResourceScope) (hostId : jsstr) (hosts : list BlocklistHost) :
    result (option (tx ())) :=
  match List.find (fun h => bool_decide (bh_id h = hostId)) hosts with
  | None => inl (throws BAD_REQUEST (js "Unknown blocklist host ID"))
  | Some host =>
      base ← ownScope scope;
      match List.find (fun r => bool_decide (hostPatternOf r = Some (bh_hostPattern host))) (listDraftRules base read) with
      | Some existing =>
          if row_enabled existing then mret None
          else t ← toggleBlocklistRule toggled scope (row_id existing) true; mret (Some t)
      | None => initBlocklistDefaults toggled scope [host]
      end
  end.

Definition deleteByLogicalIds (base : PolicyScopeBase) (logicalIds : list jsstr) : option (tx ()) :=
  match logicalIds with
  | [] => None
  | _ => Some (
      generation ← liveGeneration base;
      deleteMany (fun r => in_lockstep base generation r && bool_decide (row_source r = BLOCKLIST_SOURCE) &&
        bool_decide (row_logicalId r ∈ logicalIds));;
      mret ())
  end.

Definition removeBlocklistRule (read : list RuleRow) (scope : ResourceScope) (ruleId : jsstr) : result (option (tx ())) :=
  base ← ownScope scope;
  rule ← requireDraftRule read base ruleId;
  mret (deleteByLogicalIds base [row_logicalId rule]).

Definition removeAllBlocklistRules (read : list RuleRow) (scope : ResourceScope) (hosts : list BlocklistHost) : result (option (tx ())) :=
  match hosts with
  | [] => mret None
  | _ =>
      base ← ownScope scope;
      mret (deleteByLogicalIds base (map row_logicalId (List.filter (fun r =>
        match hostPatternOf r with Some host => bool_decide (host ∈ map bh_hostPattern hosts) | None => false end)
        (listDraftRules base read))))
  end.

(** ** The writes of policy

    The transaction of each write, on the table it commits to: its checks ran
    against tables of another moment, and an edit's against another state of
    the rules; identifiers are never reused, so what an edit names is still
    that rule or gone. An agent stays in its workspace and a group in its
    organization; a grant's agent and a deleted agent or group were read there
    ([requireAgent], [deleteAgent]). A host is blocked in a scope that has
    published; in one that has not, the block stays in the draft. *)

Record Homes := {
  agentHome : jsstr -> jsstr;
  groupHome : jsstr -> jsstr;
}.

Definition homed (H : Homes) (tb : PolicyTables) : Prop :=
  NoDup (map agr_id (tb_agents tb)) /\ NoDup (map gr_id (dir_groups (tb_directory tb))) /\
  (forall r, r ∈ tb_agents tb -> agr_workspaceId r = agentHome H (agr_id r)) /\
  (forall r, r ∈ dir_groups (tb_directory tb) -> gr_organizationId r = groupHome H (gr_id r)).

Definition principal_homed (H : Homes) (p : DeletedPrincipal) : Prop :=
  match p with
  | GoneAgent a w => agentHome H a = w
  | GoneGroup g o => groupHome H g = o
  | GoneUser _ => True
  end.

Section Program.
Context {E : PolicyProviders} (H : Homes).

Inductive policy_write (table : list RuleRow) : forall {A}, tx A -> Prop :=
| write_create tb scope input t : homed H tb -> createPolicyRule tb scope input = inr t -> policy_write table t
| write_update tb read scope i input t :
    homed H tb -> updatePolicyRule tb read scope i input = inr t ->
    (forall base r, policyScope scope = inr base -> r ∈ table -> row_id r = i -> authored base i r = true) ->
    policy_write table t
| write_delete scope i t : deletePolicyRule scope i = inr t -> policy_write table t
| write_reorder scope ids t : reorderPolicyRules scope ids = inr t -> policy_write table t
| write_default scope a t : setPolicyDefaultAction scope a = inr t -> policy_write table t
| write_publish scope t : publishPolicy scope = inr t -> policy_write table t
| write_seed scope t : backfillPublishScope scope [ALLOW_DEFAULT] = inr t -> policy_write table t
| write_grant w a c desired :
    agentHome H a = w ->
    policy_write table (replaceAndPublish w a (namesConnection c) (map (fun rule => (rule, connectionTarget c rule)) desired))
| write_secret w a s desired :
    agentHome H a = w ->
    policy_write table (replaceAndPublish w a (namesSecret s) (map (fun rule => (rule, secretTarget s)) desired))
| write_attach w a c desired : agentHome H a = w -> policy_write table (attachIfAbsent w a c desired)
| write_principal p : principal_homed H p -> policy_write table (deletePrincipal p)
| write_block read scope base hosts t :
    initBlocklistDefaults read scope hosts = inr (Some t) -> ownScope scope = inr base ->
    existsb (published_in base) table = true -> policy_write table t
| write_toggle read scope i enabled t : toggleBlocklistRule read scope i enabled = inr t -> policy_write table t
| write_unblock base logicalIds t : deleteByLogicalIds base logicalIds = Some t -> policy_write table t.

(** A committed write, at any moment; an aborted one leaves the table. A deleted
    connection, secret, workspace or organization takes its own. *)
Inductive policy_step : list RuleRow -> list RuleRow -> Prop :=
| step_write {A} (t : tx A) m table a s :
    policy_write table t -> t m (mkTx table 0) = inr (a, s) -> policy_step table (tx_rules s)
| step_resource c table :
    policy_step table (map (fun r => with_targets (List.filter (fun t => negb (names_resource c t)) (row_targets r)) r) table)
| step_scope base table : policy_step table (List.filter (fun r => negb (in_base base r)) table).

Definition policy_run : list RuleRow -> list RuleRow -> Prop := rtc policy_step.
End Program.
