(* ===== verification/PolicyPublish.v ===== *)
(** * The draft is the policy

    Every write ends by publishing its scope's draft, deletions of principals
    and resources reach the draft and the live generation alike: at any time
    what a scope enforces is what its editor shows. *)
From S2P Require Import Prelude PolicyTypes JsJson Catalog PolicyRows Grants ResourceAxis LoadRules EffectiveTools PolicyAuthoring.
Local Open Scope Z_scope.

(** ** Statements *)

Lemma tx_bind_inr {A B} (f : A -> tx B) (p : tx A) m s r :
  (p ≫= f) m s = inr r <-> exists a s1, p m s = inr (a, s1) /\ f a m s1 = inr r.
Proof.
  unfold mbind, tx_bind. destruct (p m s) as [x|[a s1]]; [|naive_solver]. split; [done|]. by intros (? & ? & ? & _).
Qed.

Lemma tx_ret_inr {A} (a : A) m s r : (mret a : tx A) m s = inr r <-> r = (a, s).
Proof. unfold mret, tx_ret. naive_solver. Qed.

Lemma tx_table_inr m s t s1 : tx_table m s = inr (t, s1) <-> t = tx_rules s /\ s1 = s.
Proof. unfold tx_table. naive_solver. Qed.

Lemma rethrow_inr {A} h (p : tx A) m s r : rethrow h p m s = inr r <-> p m s = inr r.
Proof. unfold rethrow. destruct (p m s); naive_solver. Qed.

Lemma create_inr build m s row s1 :
  create build m s = inr (row, s1) ->
  row = build (mo_ids m (tx_created s)) /\ (forall r, r ∈ tx_rules s -> row_id r <> row_id row) /\
  tx_rules s1 = tx_rules s ++ [row].
Proof.
  unfold create. set (new := build _). destruct (existsb _ _) eqn:He; [done|]. destruct (negb (refs_exist _ _)); [done|].
  destruct (negb _); [done|]. intros [= <- <-]. split_and!; [done| |done]. intros r Hr.
  pose proof (proj1 (existsb_not_In _ _) He r Hr) as Hn. by apply bool_decide_eq_false in Hn.
Qed.

Lemma update_inr i data m s row s1 :
  update i data m s = inr (row, s1) ->
  tx_rules s1 = map (fun r => if bool_decide (row_id r = i) then data r else r) (tx_rules s).
Proof.
  unfold update. destruct (List.find _ _); [|done]. destruct (negb (refs_exist _ _)); [done|].
  destruct (negb _); [done|]. by intros [= <- <-].
Qed.

Lemma deleteMany_inr cond m s n s1 :
  deleteMany cond m s = inr (n, s1) ->
  n = length (List.filter cond (tx_rules s)) /\ tx_rules s1 = List.filter (fun r => negb (cond r)) (tx_rules s).
Proof. unfold deleteMany. by intros [= <- <-]. Qed.

(** Take a run of a transaction apart. *)
Ltac tx_inv :=
  repeat match goal with
  | H : (_ ≫= _) _ _ = inr _ |- _ => apply tx_bind_inr in H; destruct H as (? & ? & ? & H)
  | H : rethrow _ _ _ _ = inr _ |- _ => apply rethrow_inr in H
  | H : (mret _) _ _ = inr _ |- _ => apply tx_ret_inr in H; simplify_eq
  | H : tx_table _ _ = inr _ |- _ => apply tx_table_inr in H; destruct H; subst
  | H : tx_throw _ _ _ = inr _ |- _ => discriminate H
  end.

(** ** Versions of a rule *)

(** A rule without what tells its versions apart. *)
Definition version (r : RuleRow) : RuleRow :=
  {| row_id := []; row_scope := row_scope r; row_organizationId := None; row_workspaceId := None; row_status := [];
     row_generation := 0; row_priority := row_priority r; row_enabled := row_enabled r; row_isDefault := row_isDefault r; row_logicalId := row_logicalId r;
     row_source := row_source r; row_name := row_name r; row_action := row_action r; row_rateLimit := row_rateLimit r;
     row_rateLimitWindow := row_rateLimitWindow r; row_requireApproval := row_requireApproval r;
     row_conditions := row_conditions r; row_identities := row_identities r;
     row_targets := map targetRowToCreate (row_targets r) |}.

Definition live_in (base : PolicyScopeBase) (g : Z) (r : RuleRow) : bool := published_in base r && (row_generation r =? g).

(** The draft and the live generation, in order. *)
Definition draft_rows (base : PolicyScopeBase) (table : list RuleRow) : list RuleRow :=
  js_sort LoadRules.row_leb (List.filter (draft_in base) table).
Definition live_rows (base : PolicyScopeBase) (g : Z) (table : list RuleRow) : list RuleRow :=
  js_sort LoadRules.row_leb (List.filter (live_in base g) table).

(** A stored identity names one principal (the table's CHECK). *)
Definition one_principal (i : IdentityRow) : Prop := exists d, i = identityCreate d.

(** What the draft of a scope keeps: distinct priorities, the Default Rule at
    0 with nobody named, the others above it. *)
Record draft_kept (base : PolicyScopeBase) (table : list RuleRow) : Prop := mkDraftKept {
  dk_priorities : NoDup (map row_priority (List.filter (draft_in base) table));
  dk_rows : forall r, r ∈ table -> draft_in base r = true ->
    if row_isDefault r then row_priority r = 0 /\ row_identities r = [] /\ row_source r = js "default"
    else 1 <= row_priority r;
}.

(** The live generation is the draft, which has its Default Rule. *)
Definition mirrored (base : PolicyScopeBase) (table : list RuleRow) : Prop :=
  (forall r, r ∈ table -> in_base base r = true -> False) \/
  exists g, max_generation (List.filter (published_in base) table) = Some g /\
    map version (live_rows base g table) = map version (draft_rows base table) /\
    exists d, d ∈ table /\ draft_in base d = true /\ row_isDefault d = true.

Record kept (table : list RuleRow) : Prop := mkKept {
  kept_ids : NoDup (map row_id table);
  kept_principals : forall r i, r ∈ table -> i ∈ row_identities r -> one_principal i;
  kept_drafts : forall base, draft_kept base table;
  kept_mirrors : forall base, mirrored base table;
}.

(** ** One scope at a time *)

#[export] Instance PolicyScopeBase_eq_dec : EqDecision PolicyScopeBase.
Proof. solve_decision. Defined.

Lemma in_base_scope base r : in_base base r = true -> row_scope r = base_scope base.
Proof. destruct base; cbn; intros [H _]%andb_true_iff; by to_prop. Qed.

Lemma in_base_unique b b' r : in_base b r = true -> in_base b' r = true -> b = b'.
Proof.
  intros H H'. pose proof (in_base_scope _ _ H) as E. pose proof (in_base_scope _ _ H') as E'. rewrite E in E'.
  destruct b, b'; cbn in *; try (vm_compute in E'; discriminate); apply andb_true_iff in H as [_ H], H' as [_ H']; to_prop; congruence.
Qed.

(** The rows of a scope. *)
Definition base_rows (base : PolicyScopeBase) (table : list RuleRow) : list RuleRow := List.filter (in_base base) table.

Lemma draft_of_base base table : List.filter (draft_in base) table = List.filter (has_row_status (js "draft")) (base_rows base table).
Proof. unfold base_rows. rewrite filter_filter_comp. apply filter_ext. intros r. done. Qed.

Lemma published_of_base base table :
  List.filter (published_in base) table = List.filter (has_row_status (js "published")) (base_rows base table).
Proof. unfold base_rows. rewrite filter_filter_comp. apply filter_ext. intros r. done. Qed.

Lemma live_of_base base g table :
  List.filter (live_in base g) table = List.filter (fun r => row_generation r =? g) (List.filter (published_in base) table).
Proof. rewrite filter_filter_comp. apply filter_ext. intros r. done. Qed.

Lemma elem_of_base_rows base table r : r ∈ base_rows base table <-> r ∈ table /\ in_base base r = true.
Proof. apply elem_of_lfilter. Qed.

(** What is said of a scope depends on its rows alone. *)
Lemma draft_kept_ext base t1 t2 : base_rows base t1 = base_rows base t2 -> draft_kept base t1 -> draft_kept base t2.
Proof.
  intros E [Hp Hr]. split; [by rewrite draft_of_base, <- E, <- draft_of_base|]. intros r H Hd. apply Hr; [|done].
  apply elem_of_base_rows with base. rewrite E. apply elem_of_base_rows. unfold draft_in in Hd. by apply andb_true_iff in Hd as [? _].
Qed.

Lemma mirrored_ext base t1 t2 : base_rows base t1 = base_rows base t2 -> mirrored base t1 -> mirrored base t2.
Proof.
  assert (forall r t t', base_rows base t = base_rows base t' -> r ∈ t -> in_base base r = true -> r ∈ t') as Hin.
  { intros r t t' E H Hb. apply elem_of_base_rows with base. rewrite <- E. by apply elem_of_base_rows. }
  intros E [Hn|(g & Hg & Hm & d & Hd & Hdd & Hdef)]; [left|right; exists g].
  - intros r H Hb. apply (Hn r); [|done]. by eapply Hin.
  - rewrite published_of_base in Hg. unfold live_rows, draft_rows in *. rewrite live_of_base, published_of_base, draft_of_base in *.
    rewrite <- E. split_and!; [done|done|]. exists d. split; [|done]. eapply Hin; [exact E|done|].
    unfold draft_in in Hdd. by apply andb_true_iff in Hdd as [? _].
Qed.

(** Before a scope is published: everything but its own live generation. *)
Record ready (b : PolicyScopeBase) (table : list RuleRow) : Prop := mkReady {
  ready_ids : NoDup (map row_id table);
  ready_principals : forall r i, r ∈ table -> i ∈ row_identities r -> one_principal i;
  ready_drafts : forall base, draft_kept base table;
  ready_mirrors : forall base, base <> b -> mirrored base table;
}.

Lemma kept_ready b table : kept table -> ready b table.
Proof. intros []. split; auto. Qed.

Lemma base_rows_snoc base table r : base_rows base (table ++ [r]) = base_rows base table ++ (if in_base base r then [r] else []).
Proof. unfold base_rows. rewrite List.filter_app. cbn. by destruct (in_base base r). Qed.

(** A row added to the scope's draft. *)
Lemma ready_snoc b table r :
  ready b table -> draft_in b r = true -> (forall r', r' ∈ table -> row_id r' <> row_id r) ->
  (forall i, i ∈ row_identities r -> one_principal i) ->
  (forall r', r' ∈ table -> draft_in b r' = true -> row_priority r' <> row_priority r) ->
  (if row_isDefault r then row_priority r = 0 /\ row_identities r = [] /\ row_source r = js "default" else 1 <= row_priority r) ->
  ready b (table ++ [r]).
Proof.
  intros [Hi Hp Hd Hm] Hr Hid Hpr Hprio Hrow. pose proof Hr as Hb. unfold draft_in in Hb. apply andb_true_iff in Hb as [Hb _].
  assert (forall base, base <> b -> base_rows base (table ++ [r]) = base_rows base table) as Ho.
  { intros base Hne. rewrite base_rows_snoc. destruct (in_base base r) eqn:E; [|by rewrite app_nil_r].
    exfalso. apply Hne. by eapply in_base_unique. }
  split.
  - rewrite map_app. apply NoDup_app. split_and!; [done| |apply NoDup_singleton].
    intros x (r' & -> & Hr')%elem_of_lmap Hx%list_elem_of_singleton. by apply (Hid r').
  - intros r' i [H|H%list_elem_of_singleton]%elem_of_app; [by apply Hp|]. subst. apply Hpr.
  - intros base. destruct (decide (base = b)) as [->|Hne]; [|by eapply draft_kept_ext; [symmetry; apply Ho|]].
    destruct (Hd b) as [Hn Hk]. split.
    + rewrite List.filter_app. cbn. rewrite Hr, map_app. apply NoDup_app. split_and!; [done| |apply NoDup_singleton].
      intros x (r' & -> & [H1 H2]%elem_of_lfilter)%elem_of_lmap Hx%list_elem_of_singleton. by apply (Hprio r').
    + intros r' [H|H%list_elem_of_singleton]%elem_of_app Hdr; [by apply Hk|by subst].
  - intros base Hne. eapply mirrored_ext; [symmetry; by apply Ho|]. by apply Hm.
Qed.

(** ** Publishing *)

Lemma findDefault_draft b table : findDefault b (js "draft") table = List.find row_isDefault (List.filter (draft_in b) table).
Proof. unfold findDefault, standing. by rewrite bool_decide_false by (vm_compute; discriminate). Qed.

Lemma ensureDefault_ready b m s d s1 :
  ready b (tx_rules s) -> ensureDefault b m s = inr (d, s1) ->
  ready b (tx_rules s1) /\ d ∈ tx_rules s1 /\ draft_in b d = true /\ row_isDefault d = true.
Proof.
  intros Hr H. unfold ensureDefault in H. tx_inv. rewrite findDefault_draft in H.
  destruct (List.find row_isDefault _) as [e|] eqn:Hf.
  - tx_inv. apply find_some in Hf as [Hin Hd]. apply list_elem_of_In, elem_of_lfilter in Hin as [Hin Hb]. by split_and!.
  - apply create_inr in H as (-> & Hid & ->). set (row := defaultRow b _) in *.
    assert (in_base b row = true) as Hb by (destruct b; cbn; by rewrite !bool_decide_true).
    split_and!; [|apply elem_of_app; right; by left|unfold draft_in; by rewrite Hb|done].
    apply ready_snoc; [done|unfold draft_in; by rewrite Hb|done|by intros i Hi%elem_of_nil| |done].
    intros r Hin Hdr. destruct (ready_drafts _ _ Hr b) as [_ Hk]. specialize (Hk r Hin Hdr).
    destruct (row_isDefault r) eqn:Hdef; [|cbn; lia]. exfalso.
    assert (List.find row_isDefault (List.filter (draft_in b) (tx_rules s)) <> None) as Hne; [|done].
    intros Hnone. pose proof (find_none _ _ Hnone r) as Hc. rewrite Hc in Hdef; [done|].
    apply list_elem_of_In, elem_of_lfilter. by split.
Qed.

(** A row and its snapshot. *)
Definition snapshot_of (b : PolicyScopeBase) (g : Z) (d r : RuleRow) : Prop :=
  exists ids pair, mapM identityRowToCreate (row_identities d) = Some ids /\ r = snapshotRow b g ids d pair.

Lemma snapshot_each_inr b g ds m s u s1 :
  NoDup (map row_id (tx_rules s)) -> snapshot_each b g ds m s = inr (u, s1) ->
  exists rows, tx_rules s1 = tx_rules s ++ rows /\ Forall2 (snapshot_of b g) ds rows /\ NoDup (map row_id (tx_rules s1)).
Proof.
  revert s. induction ds as [|d ds IH]; intros s Hn H; cbn [snapshot_each] in H.
  { tx_inv. exists []. by rewrite app_nil_r. }
  destruct (mapM identityRowToCreate (row_identities d)) as [ids|] eqn:Hids; [|by tx_inv].
  tx_inv. match goal with H1 : create _ _ _ = inr _ |- _ => apply create_inr in H1 as (-> & Hid & E) end.
  apply IH in H as (rows & -> & Hrows & Hn').
  - exists (snapshotRow b g ids d (mo_ids m (tx_created s)) :: rows). rewrite E, <- app_assoc. split_and!; [done| |].
    + constructor; [by do 2 eexists|done].
    + by rewrite E, <- app_assoc in Hn'.
  - rewrite E, map_app. apply NoDup_app. split_and!; [done| |apply NoDup_singleton].
    intros x (r & -> & Hr)%elem_of_lmap Hx%list_elem_of_singleton. by apply (Hid r).
Qed.

Lemma identityRowToCreate_one i i' : one_principal i -> identityRowToCreate i = Some i' -> i' = i.
Proof.
  intros [d ->]. unfold identityRowToCreate, toIdentityDto. destruct d as [[|c a]|[|c a]|[|c a]]; cbn; intros H; by inversion H.
Qed.

Lemma identities_copied ids ids' :
  (forall i, i ∈ ids -> one_principal i) -> mapM identityRowToCreate ids = Some ids' -> ids' = ids.
Proof.
  intros Hp H. apply mapM_Some in H. induction H as [|i i' l l' Hi _ IH]; [done|].
  f_equal; [apply identityRowToCreate_one; [apply Hp; by left|done]|]. apply IH. intros j Hj. apply Hp. by right.
Qed.

Lemma targetRowToCreate_idem t : targetRowToCreate (targetRowToCreate t) = targetRowToCreate t.
Proof.
  unfold targetRowToCreate. cbn. f_equal; [by destruct (tr_appConnectionId t) as [[]|]|by destruct (tr_secretId t) as [[]|]].
Qed.

Lemma snapshot_version b g d r :
  in_base b d = true -> (forall i, i ∈ row_identities d -> one_principal i) -> snapshot_of b g d r -> version r = version d.
Proof.
  intros Hb Hp (ids & pair & Hids & ->). apply identities_copied in Hids as ->; [|done].
  unfold version, snapshotRow. cbn. rewrite (in_base_scope _ _ Hb), map_map. f_equal. apply map_ext, targetRowToCreate_idem.
Qed.

Lemma snapshot_live b g d r : snapshot_of b g d r -> live_in b g r = true /\ row_priority r = row_priority d.
Proof.
  intros (ids & pair & _ & ->). split; [|done]. unfold live_in, published_in. cbn. rewrite Z.eqb_refl.
  destruct b; cbn; by rewrite !bool_decide_true.
Qed.

Lemma Forall2_pre {A B} (R : A -> B -> Prop) l k y : Forall2 R l k -> y ∈ k -> exists x, x ∈ l /\ R x y.
Proof.
  induction 1 as [|x y' l k Hxy _ IH]; [by intros ?%elem_of_nil|]. intros [->|Hy]%elem_of_cons.
  - exists x. split; [by left|done].
  - destruct (IH Hy) as (z & Hz & Hr). exists z. split; [by right|done].
Qed.

Definition before (a b : RuleRow) : Prop := row_priority a < row_priority b.

Lemma sorted_before l :
  StronglySorted LoadRules.row_leb l -> NoDup (map row_priority l) -> StronglySorted before l.
Proof.
  induction 1 as [|x l Hl IH Hx]; cbn; [constructor|]. intros [Hn Hd]%NoDup_cons. constructor; [by apply IH|].
  rewrite Forall_forall in *. intros y Hy. pose proof (Is_true_eq_true _ (Hx y Hy)) as Hle.
  unfold LoadRules.row_leb in Hle. apply orb_true_iff in Hle as [Hlt%Z.ltb_lt|[He%Z.eqb_eq _]%andb_true_iff]; [done|].
  exfalso. apply Hn. rewrite He. apply elem_of_lmap. by exists y.
Qed.

Lemma before_sorted l : StronglySorted before l -> js_sort LoadRules.row_leb l = l.
Proof.
  intros H. apply js_sort_id. induction H as [|x l Hl IH Hx]; constructor; [done|]. rewrite Forall_forall in *.
  intros y Hy. apply Is_true_eq_left. unfold LoadRules.row_leb. specialize (Hx y Hy). unfold before in Hx.
  by rewrite (proj2 (Z.ltb_lt _ _)).
Qed.

Lemma before_snapshots b g ds rows : Forall2 (snapshot_of b g) ds rows -> StronglySorted before ds -> StronglySorted before rows.
Proof.
  induction 1 as [|d r ds rows Hd Hrest IH]; intros Hs; [constructor|]. inversion Hs as [|? ? Hs' Hx]; subst.
  constructor; [by apply IH|]. rewrite Forall_forall in *. intros r' Hr'.
  destruct (Forall2_pre _ _ _ _ Hrest Hr') as (d' & Hd' & Hsn).
  unfold before in *. destruct (snapshot_live _ _ _ _ Hd) as [_ ->], (snapshot_live _ _ _ _ Hsn) as [_ ->]. by apply Hx.
Qed.

Lemma draft_rows_before b table : draft_kept b table -> StronglySorted before (draft_rows b table).
Proof.
  intros [Hn _]. apply sorted_before; [apply js_sort_sorted; [apply row_leb_total|apply row_leb_trans]|].
  unfold draft_rows. by rewrite (Permutation_map row_priority (js_sort_Permutation _ _)).
Qed.

(** The rows a generation adds, seen from every scope. *)
Section Published.
Context (b : PolicyScopeBase) (g : Z) (ds rows : list RuleRow) (Hs : Forall2 (snapshot_of b g) ds rows).

Lemma published_row r : r ∈ rows -> live_in b g r = true.
Proof. intros Hr. destruct (Forall2_pre _ _ _ _ Hs Hr) as (d & _ & Hd). by eapply snapshot_live. Qed.

Lemma published_base r : r ∈ rows -> in_base b r = true /\ has_row_status (js "draft") r = false.
Proof.
  intros Hr. apply published_row in Hr. unfold live_in, published_in in Hr. rewrite !andb_true_iff in Hr. destruct Hr as [[Hb Hp] _].
  split; [done|]. unfold has_row_status. apply bool_decide_eq_false. apply bool_decide_eq_true in Hp. rewrite Hp. vm_compute. discriminate.
Qed.

Lemma published_elsewhere base table : base <> b -> base_rows base (table ++ rows) = base_rows base table.
Proof.
  intros Hne. unfold base_rows. rewrite List.filter_app, (filter_none _ rows); [by rewrite app_nil_r|].
  intros r [Hb _]%published_base. apply not_true_iff_false. intros H. apply Hne. by eapply in_base_unique.
Qed.

Lemma published_draft base table : List.filter (draft_in base) (table ++ rows) = List.filter (draft_in base) table.
Proof.
  rewrite List.filter_app, (filter_none _ rows); [by rewrite app_nil_r|]. intros r [_ Hd]%published_base.
  unfold draft_in. by rewrite Hd, andb_false_r.
Qed.

Lemma published_live table :
  (forall r, r ∈ table -> published_in b r = true -> row_generation r < g) -> List.filter (live_in b g) (table ++ rows) = rows.
Proof.
  intros Hlt. rewrite List.filter_app, (filter_none _ table), (filter_all _ rows); [done|apply published_row|].
  intros r Hr. unfold live_in. destruct (published_in b r) eqn:E; [|done]. specialize (Hlt r Hr E).
  cbn. by apply Z.eqb_neq; lia.
Qed.
End Published.

Lemma max_generation_none rows : max_generation rows = None -> rows = [].
Proof. destruct rows; [done|]. by rewrite max_generation_cons. Qed.

(** The new generation in place. *)
Lemma kept_appended b g table rows :
  ready b table -> (exists d, d ∈ table /\ draft_in b d = true /\ row_isDefault d = true) ->
  (forall r, r ∈ table -> published_in b r = true -> row_generation r < g) ->
  Forall2 (snapshot_of b g) (draft_rows b table) rows -> NoDup (map row_id (table ++ rows)) -> kept (table ++ rows).
Proof.
  intros Hr (d & Hd & Hdd & Hdef) Hlt Hs Hn.
  assert (forall r', r' ∈ draft_rows b table -> r' ∈ table /\ draft_in b r' = true) as Hdr.
  { intros r'. unfold draft_rows. by rewrite js_sort_elem_of, elem_of_lfilter. }
  split; [done| | |].
  - intros r i [H|H]%elem_of_app Hi; [by apply (ready_principals _ _ Hr r)|].
    destruct (Forall2_pre _ _ _ _ Hs H) as (d' & Hd' & ids & pair & Hids & ->). cbn in Hi. apply Hdr in Hd' as [Hd' _].
    apply identities_copied in Hids as ->; [|intros j; by apply (ready_principals _ _ Hr)]. by apply (ready_principals _ _ Hr d').
  - intros base. destruct (ready_drafts _ _ Hr base) as [Hp Hk]. split; [by rewrite (published_draft b g _ _ Hs)|].
    intros r H Hb. apply Hk; [|done]. assert (r ∈ List.filter (draft_in base) (table ++ rows)) as Hf by (by apply elem_of_lfilter).
    rewrite (published_draft b g _ _ Hs) in Hf. by apply elem_of_lfilter in Hf as [? _].
  - intros base. destruct (decide (base = b)) as [->|Hne].
    2: { eapply mirrored_ext; [symmetry; by apply (published_elsewhere b g _ _ Hs)|]. by apply (ready_mirrors _ _ Hr). }
    right. exists g.
    assert (forall r, r ∈ rows -> published_in b r = true /\ row_generation r = g) as Hrows.
    { intros r H. apply (published_row b g _ _ Hs) in H. unfold live_in in H. apply andb_true_iff in H as [H1 H2%Z.eqb_eq]. done. }
    split_and!.
    + apply max_generation_spec. split.
      * destruct rows as [|r rows].
        { exfalso. apply Forall2_nil_inv_r in Hs. assert (d ∈ draft_rows b table) as Hin; [|rewrite Hs in Hin; by apply elem_of_nil in Hin].
          unfold draft_rows. rewrite js_sort_elem_of. by apply elem_of_lfilter. }
        exists r. destruct (Hrows r ltac:(by left)) as [Hp Hg]. split; [|done]. apply elem_of_lfilter. split; [|done].
        apply elem_of_app. right. by left.
      * intros r [[H|H]%elem_of_app Hp]%elem_of_lfilter; [specialize (Hlt r H Hp); lia|]. destruct (Hrows r H) as [_ ->]. lia.
    + unfold live_rows. rewrite (published_live b g _ _ Hs) by done.
      rewrite before_sorted by (eapply before_snapshots; [exact Hs|]; apply draft_rows_before, (ready_drafts _ _ Hr)).
      unfold draft_rows at 1. rewrite (published_draft b g _ _ Hs). fold (draft_rows b table). symmetry.
      clear -Hs Hdr Hr. induction Hs as [|d' r ds rs Hd' _ IH]; [done|]. cbn.
      destruct (Hdr d' ltac:(by left)) as [Hin Hb]. unfold draft_in in Hb. apply andb_true_iff in Hb as [Hb _].
      rewrite (snapshot_version b g d' r); [|done|intros i; by apply (ready_principals _ _ Hr)|done].
      f_equal. apply IH. intros x Hx. apply Hdr. by right.
    + exists d. split; [|done]. apply elem_of_app. by left.
Qed.

(** Pruning old generations. *)
Lemma kept_pruned (K : RuleRow -> bool) table :
  kept table -> (forall base r, draft_in base r = true -> K r = true) ->
  (forall base g r, max_generation (List.filter (published_in base) table) = Some g -> live_in base g r = true -> K r = true) ->
  kept (List.filter K table).
Proof.
  intros Hk Hdraft Hlive.
  assert (forall base, List.filter (draft_in base) (List.filter K table) = List.filter (draft_in base) table) as Hd.
  { intros base. rewrite filter_filter_comp. apply filter_ext_in. intros r _.
    destruct (draft_in base r) eqn:E; [by rewrite (Hdraft base r E)|by rewrite andb_false_r]. }
  split.
  - apply NoDup_map_filter, (kept_ids _ Hk).
  - intros r i [H _]%elem_of_lfilter. by apply (kept_principals _ Hk).
  - intros base. destruct (kept_drafts _ Hk base) as [Hn Hr]. split; [by rewrite Hd|].
    intros r [H _]%elem_of_lfilter. by apply Hr.
  - intros base. destruct (kept_mirrors _ Hk base) as [Hn|(g & Hg & Hm & d & Hdin & Hdd & Hdef)]; [left|right; exists g].
    + intros r [H _]%elem_of_lfilter. by apply Hn.
    + assert (List.filter (live_in base g) (List.filter K table) = List.filter (live_in base g) table) as Hl.
      { rewrite filter_filter_comp. apply filter_ext_in. intros r _. destruct (live_in base g r) eqn:E; [|by rewrite andb_false_r].
        by rewrite (Hlive base g r Hg E). }
      split_and!.
      * apply max_generation_spec in Hg as [(r & Hr & Hrg) Hmax]. apply max_generation_spec. split.
        -- exists r. split; [|done]. apply elem_of_lfilter in Hr as [Hr Hp]. apply elem_of_lfilter. split; [|done].
           apply elem_of_lfilter. split; [done|]. apply (Hlive base g); [apply max_generation_spec; split; [|done]|].
           ++ exists r. split; [by apply elem_of_lfilter|done].
           ++ unfold live_in. by rewrite Hp, Hrg, Z.eqb_refl.
        -- intros r' [[H _]%elem_of_lfilter Hp]%elem_of_lfilter. apply Hmax. by apply elem_of_lfilter.
      * unfold live_rows, draft_rows. by rewrite Hl, Hd.
      * exists d. split; [|done]. apply elem_of_lfilter. split; [done|]. by apply (Hdraft base).
Qed.

(** The generation a publish makes, and what it keeps. *)
Definition next_generation (b : PolicyScopeBase) (table : list RuleRow) : Z :=
  default 0 (max_generation (List.filter (published_in b) table)) + 1.

Definition retained (b : PolicyScopeBase) (g : Z) (r : RuleRow) : bool :=
  negb ((PUBLISHED_GENERATION_RETENTION <? g) && (published_in b r && (row_generation r <=? g - PUBLISHED_GENERATION_RETENTION))).

Lemma publish_inr b m s res s1 :
  publishDraftInTx b m s = inr (res, s1) ->
  exists d s0 u s2, ensureDefault b m s = inr (d, s0) /\
    let g := next_generation b (tx_rules s0) in
    snapshot_each b g (draft_rows b (tx_rules s0)) m s0 = inr (u, s2) /\
    tx_rules s1 = List.filter (retained b g) (tx_rules s2) /\
    res = mkPublished g (length (draft_rows b (tx_rules s0))).
Proof.
  intros H. unfold publishDraftInTx in H. apply tx_bind_inr in H as (d & s0 & Hd & H).
  apply tx_bind_inr in H as (t & s0' & Ht & H). apply tx_table_inr in Ht as [-> ->].
  unfold snapshotDraftRules in H. apply tx_bind_inr in H as (t & s0' & Ht & H). apply tx_table_inr in Ht as [-> ->].
  apply tx_bind_inr in H as (u & s2 & Hu & H). apply tx_bind_inr in H as (u' & s3 & Hp & H). apply tx_ret_inr in H as [= -> ->].
  exists d, s0, u, s2. split; [done|]. cbn zeta. split_and!; [exact Hu| |done]. unfold retained. fold (next_generation b (tx_rules s0)) in Hp.
  destruct (_ <? _) eqn:E.
  - apply tx_bind_inr in Hp as (n & s4 & Hn & Hp). apply tx_ret_inr in Hp as [= -> ->]. by apply deleteMany_inr in Hn as [_ ->].
  - apply tx_ret_inr in Hp as [= -> ->]. by rewrite filter_all.
Qed.

(** A publish, from a table that is ready: the draft goes live. *)
Lemma publish_kept b m s res s1 :
  ready b (tx_rules s) -> publishDraftInTx b m s = inr (res, s1) -> kept (tx_rules s1).
Proof.
  intros Hr (d & s0 & u & s2 & Hd & Hs & -> & _)%publish_inr. apply ensureDefault_ready in Hd as (Hr1 & Hd & Hdd & Hdef); [|done].
  set (g := next_generation b (tx_rules s0)) in *.
  apply snapshot_each_inr in Hs as (rows & E & Hs & Hn); [|apply Hr1].
  assert (forall r, r ∈ tx_rules s0 -> published_in b r = true -> row_generation r < g) as Hlt.
  { intros r Hin Hp. unfold g, next_generation.
    assert (r ∈ List.filter (published_in b) (tx_rules s0)) as Hf by (by apply elem_of_lfilter).
    destruct (max_generation _) as [k|] eqn:Hk.
    - apply max_generation_spec in Hk as [_ Hk]. specialize (Hk r Hf). cbn. lia.
    - apply max_generation_none in Hk. rewrite Hk in Hf. by apply elem_of_nil in Hf. }
  rewrite E in *. apply kept_pruned.
  - eapply kept_appended; [exact Hr1|by exists d|exact Hlt|exact Hs|exact Hn].
  - intros base r Hb. unfold retained. destruct (published_in b r) eqn:Hp; [|by rewrite andb_false_r].
    unfold draft_in, published_in in *. rewrite !andb_true_iff in *. destruct Hb as [_ Hb], Hp as [_ Hp].
    unfold has_row_status in Hb. to_prop. rewrite Hb in Hp. vm_compute in Hp. discriminate.
  - intros base k r Hk Hl. unfold retained. destruct (published_in b r) eqn:Hp; [|by rewrite andb_false_r].
    unfold live_in in Hl. apply andb_true_iff in Hl as [Hl Hg%Z.eqb_eq].
    assert (base = b) as ->.
    { unfold published_in in *. rewrite !andb_true_iff in *. eapply in_base_unique; [apply Hl|apply Hp]. }
    assert (g <= k) as Hgk.
    { assert (d ∈ draft_rows b (tx_rules s0)) as Hin by (unfold draft_rows; rewrite js_sort_elem_of; by apply elem_of_lfilter).
      destruct rows as [|x rows]; [apply Forall2_nil_inv_r in Hs; rewrite Hs in Hin; by apply elem_of_nil in Hin|].
      pose proof (published_row b g _ _ Hs x ltac:(by left)) as Hx. unfold live_in in Hx. apply andb_true_iff in Hx as [Hx Hxg%Z.eqb_eq].
      apply max_generation_spec in Hk as [_ Hk]. rewrite <- Hxg. apply Hk. apply elem_of_lfilter. split; [|done].
      apply elem_of_app. right. by left. }
    unfold PUBLISHED_GENERATION_RETENTION. cbn [andb]. rewrite (proj2 (Z.leb_gt _ _)) by lia. by rewrite andb_false_r.
Qed.

(** ** Edits of a draft *)

(** What an edit in place leaves of a row. *)
Record edits (b : PolicyScopeBase) (r r' : RuleRow) : Prop := mkEdits {
  ed_id : row_id r' = row_id r;
  ed_scope : row_scope r' = row_scope r;
  ed_organization : row_organizationId r' = row_organizationId r;
  ed_workspace : row_workspaceId r' = row_workspaceId r;
  ed_status : row_status r' = row_status r;
  ed_default : row_isDefault r' = row_isDefault r;
  ed_row : r' = r \/ draft_in b r = true;
  ed_plain : row_isDefault r = true -> row_priority r' = row_priority r /\ row_identities r' = row_identities r /\ row_source r' = row_source r;
  ed_principals : (forall i, i ∈ row_identities r -> one_principal i) -> forall i, i ∈ row_identities r' -> one_principal i;
}.

Lemma edits_in_base b r r' base : edits b r r' -> in_base base r' = in_base base r.
Proof. intros []. unfold in_base. by rewrite ed_scope0, ed_organization0, ed_workspace0. Qed.

Lemma edits_draft b r r' base : edits b r r' -> draft_in base r' = draft_in base r.
Proof. intros He. unfold draft_in, has_row_status. by rewrite (edits_in_base _ _ _ base He), (ed_status _ _ _ He). Qed.

Lemma edits_refl b r : edits b r r.
Proof. split; auto. Qed.

Lemma ready_map b (f : RuleRow -> RuleRow) table :
  ready b table -> (forall r, r ∈ table -> edits b r (f r)) ->
  NoDup (map row_priority (List.filter (draft_in b) (map f table))) ->
  (forall r, r ∈ table -> draft_in b r = true -> row_isDefault r = false -> 1 <= row_priority (f r)) ->
  ready b (map f table).
Proof.
  intros Hk Hf Hp Hone.
  assert (forall base, base <> b -> base_rows base (map f table) = base_rows base table) as Ho.
  { intros base Hne. unfold base_rows. clear -Hf Hne. induction table as [|r t IH]; [done|]. cbn.
    pose proof (Hf r ltac:(by left)) as He. rewrite (edits_in_base b r (f r) base He).
    rewrite IH by (intros x Hx; apply Hf; by right). destruct (in_base base r) eqn:E; [|done]. f_equal.
    destruct (ed_row _ _ _ He) as [|Hd]; [done|]. exfalso. apply Hne. unfold draft_in in Hd. apply andb_true_iff in Hd as [Hd _].
    by eapply in_base_unique. }
  split.
  - rewrite map_map. replace (map (fun r => row_id (f r)) table) with (map row_id table); [apply (ready_ids _ _ Hk)|].
    apply map_ext_in. intros r Hr%list_elem_of_In. symmetry. by apply (ed_id b), Hf.
  - intros r' i (r & -> & Hr)%elem_of_lmap. apply (ed_principals b r); [by apply Hf|]. intros j. by apply (ready_principals _ _ Hk).
  - intros base. destruct (decide (base = b)) as [->|Hne]; [|by eapply draft_kept_ext; [symmetry; by apply Ho|apply (ready_drafts _ _ Hk)]].
    split; [done|]. intros r' (r & -> & Hr)%elem_of_lmap. pose proof (Hf r Hr) as He. rewrite (edits_draft b r (f r) b He).
    intros Hd. pose proof (dk_rows _ _ (ready_drafts _ _ Hk b) r Hr Hd) as Hrow. rewrite (ed_default _ _ _ He).
    destruct (row_isDefault r) eqn:Hdef; [|by apply Hone]. destruct (ed_plain _ _ _ He Hdef) as (-> & -> & ->). exact Hrow.
  - intros base Hne. eapply mirrored_ext; [symmetry; by apply Ho|]. by apply (ready_mirrors _ _ Hk).
Qed.

(** An edit that moves nothing. *)
Lemma ready_edit b (f : RuleRow -> RuleRow) table :
  ready b table -> (forall r, r ∈ table -> edits b r (f r)) -> (forall r, row_priority (f r) = row_priority r) ->
  ready b (map f table).
Proof.
  intros Hk Hf Hp. apply ready_map; [done|done| |].
  - rewrite filter_map_comp, map_map.
    replace (map (fun r => row_priority (f r)) (List.filter (fun r => draft_in b (f r)) table))
      with (map row_priority (List.filter (draft_in b) table)); [apply (dk_priorities _ _ (ready_drafts _ _ Hk b))|].
    clear -Hf Hp. induction table as [|r t IH]; [done|]. cbn. rewrite (edits_draft b r (f r) b) by (apply Hf; by left).
    assert (forall r, r ∈ t -> edits b r (f r)) as Ht by (intros x Hx; apply Hf; by right).
    destruct (draft_in b r); cbn; [by rewrite Hp, IH|by apply IH].
  - intros r Hr Hd Hdef. rewrite Hp. pose proof (dk_rows _ _ (ready_drafts _ _ Hk b) r Hr Hd) as Hrow. by rewrite Hdef in Hrow.
Qed.

(** Rows of the scope's draft removed. *)
Lemma ready_filter b (K : RuleRow -> bool) table :
  ready b table -> (forall r, K r = false -> draft_in b r = true) -> ready b (List.filter K table).
Proof.
  intros Hk HK.
  assert (forall base, base <> b -> base_rows base (List.filter K table) = base_rows base table) as Ho.
  { intros base Hne. unfold base_rows. rewrite filter_filter_comp. apply filter_ext_in. intros r _.
    destruct (K r) eqn:E; [done|]. apply HK in E. unfold draft_in in E. apply andb_true_iff in E as [E _].
    destruct (in_base base r) eqn:Eb; [|done]. exfalso. apply Hne. by eapply in_base_unique. }
  split.
  - apply NoDup_map_filter, (ready_ids _ _ Hk).
  - intros r i [H _]%elem_of_lfilter. by apply (ready_principals _ _ Hk).
  - intros base. destruct (ready_drafts _ _ Hk base) as [Hn Hr]. split; [|intros r [H _]%elem_of_lfilter; by apply Hr].
    rewrite filter_filter_comp, (filter_ext _ (fun r => draft_in base r && K r)) by (intros r; apply andb_comm).
    rewrite <- filter_filter_comp. by apply NoDup_map_filter.
  - intros base Hne. eapply mirrored_ext; [symmetry; by apply Ho|]. by apply (ready_mirrors _ _ Hk).
Qed.

(** ** The writes *)

Lemma fold_max_le (p : Z) ps : p <= fold_left Z.max ps p /\ forall x, x ∈ ps -> x <= fold_left Z.max ps p.
Proof.
  revert p. induction ps as [|q ps IH]; intros p; cbn; [split; [lia|by intros x ?%elem_of_nil]|].
  destruct (IH (Z.max p q)) as [H1 H2]. split; [lia|]. intros x [->|Hx]%elem_of_cons; [lia|by apply H2].
Qed.

Lemma max_or_0_le l x : x ∈ l -> x <= match l with [] => 0 | p :: ps => fold_left Z.max ps p end.
Proof.
  destruct l as [|p ps]; [by intros ?%elem_of_nil|]. destruct (fold_max_le p ps) as [H1 H2].
  intros [->|H]%elem_of_cons; [done|by apply H2].
Qed.

Lemma lastPriority_le b table r :
  r ∈ table -> draft_in b r = true -> row_isDefault r = false -> row_priority r <= lastPriority b table.
Proof.
  intros Hr Hd Hdef. unfold lastPriority. apply max_or_0_le, elem_of_lmap. exists r. split; [done|].
  apply elem_of_lfilter. split; [done|]. by rewrite Hd, Hdef.
Qed.

Lemma lastPriority_pos b table : draft_kept b table -> 0 <= lastPriority b table.
Proof.
  intros [_ Hk]. unfold lastPriority. destruct (map _ _) as [|p ps] eqn:E; [done|].
  assert (p ∈ map row_priority (List.filter (fun r => draft_in b r && negb (row_isDefault r)) table)) as Hp by (rewrite E; by left).
  apply elem_of_lmap in Hp as (r & -> & [Hr [Hd Hdef]%andb_true_iff]%elem_of_lfilter). apply negb_true_iff in Hdef.
  specialize (Hk r Hr Hd). rewrite Hdef in Hk. destruct (fold_max_le (row_priority r) ps) as [H _]. lia.
Qed.

(** A row at the tail of the draft. *)
Lemma ready_append b table r :
  ready b table -> draft_in b r = true -> row_isDefault r = false -> lastPriority b table < row_priority r ->
  (forall r', r' ∈ table -> row_id r' <> row_id r) -> (forall i, i ∈ row_identities r -> one_principal i) ->
  ready b (table ++ [r]).
Proof.
  intros Hk Hd Hdef Hlt Hid Hp. pose proof (ready_drafts _ _ Hk b) as Hdk. pose proof (lastPriority_pos _ _ Hdk) as H0.
  apply ready_snoc; [done|done|done|done| |rewrite Hdef; lia].
  intros r' Hr' Hd'. destruct (row_isDefault r') eqn:E.
  - pose proof (dk_rows _ _ Hdk r' Hr' Hd') as Hrow. rewrite E in Hrow. lia.
  - pose proof (lastPriority_le b table r' Hr' Hd' E). lia.
Qed.

Lemma lastPriority_snoc b table r :
  draft_in b r = true -> row_isDefault r = false -> lastPriority b table <= row_priority r ->
  lastPriority b (table ++ [r]) = row_priority r.
Proof.
  intros Hd Hdef Hle. unfold lastPriority in *. rewrite List.filter_app, map_app. cbn. rewrite Hd, Hdef. cbn.
  destruct (map row_priority _) as [|p ps]; [done|]. cbn. rewrite fold_left_app. cbn. lia.
Qed.

Lemma result_bind_inr {A B} (f : A -> result B) (r : result A) y : r ≫= f = inr y <-> exists a, r = inr a /\ f a = inr y.
Proof. destruct r as [x|a]; cbn; naive_solver. Qed.

(** Take the checks of a write apart. *)
Ltac checks H :=
  repeat (apply result_bind_inr in H; let a := fresh "a" in let Ha := fresh "Ha" in destruct H as (a & Ha & H); try destruct a).

Lemma identities_created ids i : i ∈ map identityCreate ids -> one_principal i.
Proof. intros (d & -> & _)%elem_of_lmap. by exists d. Qed.

Lemma created_in b p i pair : draft_in b (createdRow b p i pair) = true.
Proof. unfold draft_in. destruct b; cbn; by rewrite !bool_decide_true. Qed.

Lemma create_kept `{PolicyProviders} tb scope input t m table row s :
  kept table -> createPolicyRule tb scope input = inr t -> t m (mkTx table 0) = inr (row, s) -> kept (tx_rules s).
Proof.
  intros Hk Ht Hrun. unfold createPolicyRule in Ht. apply result_bind_inr in Ht as (b & Hb & Ht).
  checks Ht. injection Ht as <-. apply rethrow_inr, tx_bind_inr in Hrun as (tab & s0 & Htab & Hrun). apply tx_table_inr in Htab as [-> ->].
  apply tx_bind_inr in Hrun as (r & s1 & Hr & Hrun). apply tx_bind_inr in Hrun as (res & s2 & Hpub & Hrun).
  apply tx_ret_inr in Hrun as [= -> ->]. apply create_inr in Hr as (-> & Hid & E). cbn [tx_rules] in *.
  eapply publish_kept; [|exact Hpub]. rewrite E. apply ready_append; [by apply kept_ready|apply created_in|done|cbn; lia|done|].
  intros i. apply identities_created.
Qed.

Lemma authored_draft b i r : authored b i r = true -> draft_in b r = true /\ row_isDefault r = false /\ row_id r = i.
Proof. unfold authored. rewrite !andb_true_iff, negb_true_iff. intros [[Hi Hd] Hdef]. by to_prop. Qed.

Lemma update_kept `{PolicyProviders} tb read scope i input t m table row s :
  kept table -> updatePolicyRule tb read scope i input = inr t ->
  (forall base r, policyScope scope = inr base -> r ∈ table -> row_id r = i -> authored base i r = true) ->
  t m (mkTx table 0) = inr (row, s) -> kept (tx_rules s).
Proof.
  intros Hk Ht Hname Hrun. unfold updatePolicyRule in Ht. apply result_bind_inr in Ht as (b & Hb & Ht).
  destruct (List.find _ read) as [existing|]; [|done]. checks Ht. injection Ht as <-.
  apply rethrow_inr, tx_bind_inr in Hrun as (r & s1 & Hr & Hrun). apply tx_bind_inr in Hrun as (res & s2 & Hpub & Hrun).
  apply tx_ret_inr in Hrun as [= -> ->]. apply update_inr in Hr. cbn [tx_rules] in Hr.
  eapply publish_kept; [|exact Hpub]. rewrite Hr. apply ready_edit; [by apply kept_ready| |].
  - intros x Hx. destruct (bool_decide (row_id x = i)) eqn:E; [|apply edits_refl]. to_prop.
    destruct (authored_draft _ _ _ (Hname b x Hb Hx E)) as (Hd & Hdef & _). split; try done.
    + by right.
    + intros Hdt. congruence.
    + intros Hp j. cbn. destruct (ui_identities input); [apply identities_created|apply Hp].
  - intros x. by destruct (bool_decide (row_id x = i)).
Qed.

Lemma delete_kept scope i t m table u s :
  kept table -> deletePolicyRule scope i = inr t -> t m (mkTx table 0) = inr (u, s) -> kept (tx_rules s).
Proof.
  intros Hk Ht Hrun. unfold deletePolicyRule in Ht. apply result_bind_inr in Ht as (b & Hb & Ht). injection Ht as <-.
  apply tx_bind_inr in Hrun as (n & s1 & Hn & Hrun). apply deleteMany_inr in Hn as [-> E].
  apply tx_bind_inr in Hrun as (u' & s2 & Hc & Hrun). apply tx_bind_inr in Hrun as (res & s3 & Hpub & Hrun).
  apply tx_ret_inr in Hrun as [= -> ->]. destruct (_ =? 0)%nat; [done|]. apply tx_ret_inr in Hc as [= -> ->].
  eapply publish_kept; [|exact Hpub]. rewrite E. apply ready_filter; [by apply kept_ready|].
  intros r Hr%negb_false_iff. by apply authored_draft in Hr as [? _].
Qed.

Lemma publishPolicy_kept scope t m table res s :
  kept table -> publishPolicy scope = inr t -> t m (mkTx table 0) = inr (res, s) -> kept (tx_rules s).
Proof.
  intros Hk Ht Hrun. unfold publishPolicy in Ht. apply result_bind_inr in Ht as (b & Hb & Ht). injection Ht as <-.
  eapply publish_kept; [|exact Hrun]. by apply kept_ready.
Qed.

Lemma default_kept scope a t m table row s :
  kept table -> setPolicyDefaultAction scope a = inr t -> t m (mkTx table 0) = inr (row, s) -> kept (tx_rules s).
Proof.
  intros Hk Ht Hrun. unfold setPolicyDefaultAction in Ht. apply result_bind_inr in Ht as (b & Hb & Ht). injection Ht as <-.
  apply tx_bind_inr in Hrun as (d & s0 & Hd & Hrun). apply tx_bind_inr in Hrun as (r & s1 & Hr & Hrun).
  apply tx_bind_inr in Hrun as (res & s2 & Hpub & Hrun). apply tx_ret_inr in Hrun as [= -> ->].
  apply ensureDefault_ready in Hd as (Hr0 & Hin & Hdd & Hdef); [|by apply kept_ready]. apply update_inr in Hr.
  eapply publish_kept; [|exact Hpub]. rewrite Hr. apply ready_edit; [done| |intros x; by destruct (bool_decide (row_id x = row_id d))].
  intros x Hx. destruct (bool_decide (row_id x = row_id d)) eqn:E; [|apply edits_refl]. to_prop.
  assert (x = d) as -> by (by eapply (NoDup_fmap_elem_eq row_id); [apply (ready_ids _ _ Hr0)|..]).
  split; try done. by right.
Qed.

(** What giving out priorities from [p] leaves of a row. *)
Fixpoint ordered (p : Z) (ids : list jsstr) (r : RuleRow) : RuleRow :=
  match ids with
  | [] => r
  | i :: ids' => ordered (p + 1) ids' (if bool_decide (row_id r = i) then with_priority p r else r)
  end.

Lemma prioritize_inr p ids m s u s1 : prioritize p ids m s = inr (u, s1) -> tx_rules s1 = map (ordered p ids) (tx_rules s).
Proof.
  revert p s. induction ids as [|i ids IH]; intros p s H; cbn [prioritize] in H.
  - apply tx_ret_inr in H as [= -> ->]. cbn. by rewrite map_id.
  - apply tx_bind_inr in H as (r & s0 & Hr & H). apply update_inr in Hr. apply IH in H. rewrite H, Hr, map_map. done.
Qed.

Lemma ordered_out p ids r : row_id r ∉ ids -> ordered p ids r = r.
Proof.
  revert p. induction ids as [|i ids IH]; intros p; [done|]. cbn. intros [Hi Hids]%not_elem_of_cons.
  rewrite bool_decide_false by done. by apply IH.
Qed.

Lemma ordered_at p ids k r : NoDup ids -> ids !! k = Some (row_id r) -> ordered p ids r = with_priority (p + Z.of_nat k) r.
Proof.
  revert p k. induction ids as [|i ids IH]; intros p k Hd; [done|]. apply NoDup_cons in Hd as [Hi Hn].
  destruct k as [|k]; cbn.
  - intros [= Ei]. rewrite (bool_decide_true (row_id r = i)) by done. rewrite Z.add_0_r.
    apply ordered_out. subst i. exact Hi.
  - intros Hk. rewrite bool_decide_false; [|intros E; apply Hi; rewrite <- E; by eapply list_elem_of_lookup_2].
    rewrite (IH (p + 1) k) by done. f_equal. lia.
Qed.

Lemma ordered_cases p ids r :
  NoDup ids -> ((row_id r ∉ ids) /\ ordered p ids r = r) \/
    (exists k, ids !! k = Some (row_id r) /\ ordered p ids r = with_priority (p + Z.of_nat k) r).
Proof.
  intros Hn. destruct (decide (row_id r ∈ ids)) as [[k Hk]%list_elem_of_lookup|H]; [right|left].
  - exists k. split; [done|]. by apply ordered_at.
  - split; [done|]. by apply ordered_out.
Qed.

Lemma NoDup_map_key {A B C} (key : A -> B) (f : A -> C) l :
  NoDup (map key l) -> (forall x y, x ∈ l -> y ∈ l -> f x = f y -> key x = key y) -> NoDup (map f l).
Proof.
  induction l as [|x l IH]; cbn; [constructor|]. intros [Hx Hl]%NoDup_cons Hf. constructor.
  - intros (y & Hy & Hin)%elem_of_lmap. apply Hx, elem_of_lmap. exists y. split; [|done].
    apply Hf; [by left|by right|done].
  - apply IH; [done|]. intros a b Ha Hb. apply Hf; by right.
Qed.

(** The rules the ids of a reorder name are the scope's, all of them. *)
Lemma names_every b ids table :
  namesEveryRuleOnce b ids table = true ->
  NoDup ids /\ forall i, i ∈ ids <-> exists r, r ∈ table /\ row_id r = i /\ draft_in b r = true /\ row_isDefault r = false.
Proof.
  unfold namesEveryRuleOnce. rewrite !andb_true_iff, !Nat.eqb_eq. set (P := fun r => _ && _). set (D := map row_id _).
  intros [[Hlen Hdup] Hin]. rewrite forallb_forall in Hin.
  assert (forall i, i ∈ D <-> exists r, r ∈ table /\ row_id r = i /\ draft_in b r = true /\ row_isDefault r = false) as HD.
  { intros i. unfold D. rewrite elem_of_lmap. split.
    - intros (r & -> & [Hr [Hd Hdef%negb_true_iff]%andb_true_iff]%elem_of_lfilter). by exists r.
    - intros (r & Hr & <- & Hd & Hdef). exists r. split; [done|]. apply elem_of_lfilter. unfold P. by rewrite Hd, Hdef. }
  assert (NoDup ids) as Hn.
  { apply NoDup_ListNoDup, (List.NoDup_incl_NoDup (l := js_dedup ids)); [apply NoDup_ListNoDup, js_dedup_NoDup|lia|].
    intros x. rewrite <- !list_elem_of_In. by rewrite js_dedup_elem_of. }
  split; [done|]. intros i. rewrite <- HD. split.
  - intros Hi%list_elem_of_In%Hin%bool_decide_eq_true. exact Hi.
  - intros Hi. apply list_elem_of_In, (List.NoDup_length_incl (l := ids) (l' := js_dedup D)).
    + by apply NoDup_ListNoDup.
    + lia.
    + intros x Hx%Hin%bool_decide_eq_true. apply list_elem_of_In, js_dedup_elem_of. exact Hx.
    + by apply list_elem_of_In, js_dedup_elem_of.
Qed.

Lemma with_priority_edits b p r : draft_in b r = true -> row_isDefault r = false -> edits b r (with_priority p r).
Proof. intros Hd Hdef. split; try done; [by right|congruence]. Qed.

Lemma reorder_ready b ids table :
  ready b table -> namesEveryRuleOnce b ids table = true -> ready b (map (ordered 1 ids) table).
Proof.
  intros Hk [Hn Hids]%names_every. pose proof (ready_ids _ _ Hk) as Hnd.
  assert (forall r, r ∈ table -> row_id r ∈ ids -> draft_in b r = true /\ row_isDefault r = false) as Hin.
  { intros r Hr (r' & Hr' & He & H)%Hids. by rewrite <- (NoDup_fmap_elem_eq row_id table r' r Hnd Hr' Hr He). }
  assert (forall r, r ∈ table -> edits b r (ordered 1 ids r)) as He.
  { intros r Hr. destruct (ordered_cases 1 ids r Hn) as [[_ ->]|(k & Hk' & ->)]; [apply edits_refl|].
    apply list_elem_of_lookup_2 in Hk'. apply with_priority_edits; by apply Hin. }
  assert (forall r, r ∈ table -> draft_in b r = true -> row_isDefault r = false ->
    exists k, ids !! k = Some (row_id r) /\ row_priority (ordered 1 ids r) = 1 + Z.of_nat k) as Hpos.
  { intros r Hr Hd Hdef. destruct (ordered_cases 1 ids r Hn) as [[Hno _]|(k & Hk' & ->)]; [|by exists k].
    exfalso. apply Hno, Hids. by exists r. }
  apply ready_map; [done|done| |].
  2: { intros r Hr Hd Hdef. destruct (Hpos r Hr Hd Hdef) as (k & _ & ->). lia. }
  apply (NoDup_map_key row_id); [apply NoDup_map_filter; rewrite map_map; erewrite map_ext_in; [exact Hnd|]; 
    intros r Hr%list_elem_of_In; by apply (ed_id b), He|].
  intros x y [(r & -> & Hr)%elem_of_lmap Hx]%elem_of_lfilter [(r' & -> & Hr')%elem_of_lmap Hy]%elem_of_lfilter.
  rewrite (edits_draft _ _ _ b (He r Hr)) in Hx. rewrite (edits_draft _ _ _ b (He r' Hr')) in Hy.
  rewrite (ed_id _ _ _ (He r Hr)), (ed_id _ _ _ (He r' Hr')). pose proof (dk_rows _ _ (ready_drafts _ _ Hk b)) as Hrow.
  intros Heq. destruct (row_isDefault r) eqn:Hdr, (row_isDefault r') eqn:Hdr'.
  - destruct (ed_plain _ _ _ (He r Hr) Hdr) as [Ep _], (ed_plain _ _ _ (He r' Hr') Hdr') as [Ep' _].
    f_equal. eapply (NoDup_fmap_elem_eq row_priority); [exact (dk_priorities _ _ (ready_drafts _ _ Hk b))|..];
      [apply elem_of_lfilter; by split|apply elem_of_lfilter; by split|congruence].
  - destruct (ed_plain _ _ _ (He r Hr) Hdr) as [Ep _]. destruct (Hpos r' Hr' Hy Hdr') as (k & _ & Ek).
    specialize (Hrow r Hr Hx). rewrite Hdr in Hrow. lia.
  - destruct (ed_plain _ _ _ (He r' Hr') Hdr') as [Ep _]. destruct (Hpos r Hr Hx Hdr) as (k & _ & Ek).
    specialize (Hrow r' Hr' Hy). rewrite Hdr' in Hrow. lia.
  - destruct (Hpos r Hr Hx Hdr) as (k & Hk1 & Ek), (Hpos r' Hr' Hy Hdr') as (k' & Hk2 & Ek').
    assert (k = k') as <- by lia. congruence.
Qed.

Lemma reorder_kept scope ids t m table u s :
  kept table -> reorderPolicyRules scope ids = inr t -> t m (mkTx table 0) = inr (u, s) -> kept (tx_rules s).
Proof.
  intros Hk Ht Hrun. unfold reorderPolicyRules in Ht. apply result_bind_inr in Ht as (b & Hb & Ht). injection Ht as <-.
  apply rethrow_inr, tx_bind_inr in Hrun as (tab & s0 & Htab & Hrun). apply tx_table_inr in Htab as [-> ->].
  apply tx_bind_inr in Hrun as (u0 & s0 & Hc & Hrun). cbn [tx_rules] in Hc.
  destruct (namesEveryRuleOnce b ids table) eqn:Hn; [|done]. apply tx_ret_inr in Hc as [= -> ->].
  apply tx_bind_inr in Hrun as (u1 & s1 & Hp & Hrun). apply tx_bind_inr in Hrun as (res & s2 & Hpub & Hrun).
  apply tx_ret_inr in Hrun as [= -> ->]. apply prioritize_inr in Hp. cbn [tx_rules] in Hp.
  eapply publish_kept; [|exact Hpub]. rewrite Hp. apply reorder_ready; [by apply kept_ready|done].
Qed.
