(* ===== verification/PolicyWrites.v ===== *)
(** * Every write keeps the draft live

    The seeding, the grants, and what reaches the draft and the live generation
    alike: the deletions of principals and resources. *)
From S2P Require Import Prelude PolicyTypes JsJson Catalog PolicyRows Grants ResourceAxis LoadRules EffectiveTools PolicyAuthoring PolicyBlocklist PolicyPublish.
Local Open Scope Z_scope.

(** ** Seeding *)

Lemma unpublished b table :
  kept table -> List.filter (published_in b) table = [] -> forall r, r ∈ table -> in_base b r = true -> False.
Proof.
  intros Hk Hn. destruct (kept_mirrors _ Hk b) as [H|(g & Hg & _)]; [done|]. by rewrite Hn in Hg.
Qed.

Lemma backfill_base b published r ids : in_base b (backfillRow b published r ids) = true.
Proof. destruct b; cbn; by rewrite !bool_decide_true. Qed.

Lemma seed_kept scope t m table res s :
  kept table -> backfillPublishScope scope [ALLOW_DEFAULT] = inr t -> t m (mkTx table 0) = inr (res, s) -> kept (tx_rules s).
Proof.
  intros Hk Ht Hrun. unfold backfillPublishScope in Ht. apply result_bind_inr in Ht as (b & Hb & Ht). injection Ht as <-.
  apply tx_bind_inr in Hrun as (tab & s0 & Htab & Hrun). apply tx_table_inr in Htab as [-> ->]. cbn [tx_rules] in *.
  destruct (List.filter (published_in b) table) as [|? ?] eqn:Hpub; cbn [length Nat.ltb Nat.leb] in Hrun; [|by apply tx_ret_inr in Hrun as [= -> ->]].
  pose proof (unpublished b table Hk Hpub) as Hnone.
  apply tx_bind_inr in Hrun as (u & s1 & Hrun & Hret). apply tx_ret_inr in Hret as [= -> ->]. cbn [backfill_each] in Hrun.
  apply tx_bind_inr in Hrun as (draft & s2 & Hd & Hrun). apply create_inr in Hd as (Ed & Hid & E2).
  apply tx_bind_inr in Hrun as (pub & s3 & Hp & Hrun). apply create_inr in Hp as (Ep & Hidp & E3). cbn [tx_created] in Ed.
  apply tx_ret_inr in Hrun as [= -> ->]. cbn [tx_rules] in *. rewrite E3, E2.
  pose proof (backfill_base b None ALLOW_DEFAULT (mo_ids m 0)) as Hbase. rewrite <- Ed in Hbase.
  assert (draft_in b draft = true) as Hdr by (unfold draft_in; rewrite Hbase, Ed; reflexivity).
  assert (ready b (table ++ [draft])) as Hready.
  { apply ready_snoc; [by apply kept_ready|done|done| | |by rewrite Ed].
    - intros i Hi. rewrite Ed in Hi. by apply elem_of_nil in Hi.
    - intros r Hr Hdd. exfalso. apply (Hnone r Hr). unfold draft_in in Hdd. by apply andb_true_iff in Hdd as [? _]. }
  apply (kept_appended b 1); [done|exists draft; split_and!; [apply elem_of_app; right; by left|done|by rewrite Ed]| | |].
  - intros r [H|H%list_elem_of_singleton]%elem_of_app Hpp.
    + exfalso. apply (Hnone r H). unfold published_in in Hpp. by apply andb_true_iff in Hpp as [? _].
    + subst r. rewrite Ed in Hpp. unfold published_in in Hpp. apply andb_true_iff in Hpp as [_ Hpp]. vm_compute in Hpp. done.
  - unfold draft_rows. rewrite List.filter_app, (filter_none _ table).
    + cbn. rewrite Hdr. cbn. constructor; [|constructor]. exists [], (mo_ids m (tx_created s2)). split; [by rewrite Ed|].
      rewrite Ep, Ed. reflexivity.
    + intros r Hr. apply not_true_iff_false. intros Hdd. apply (Hnone r Hr). unfold draft_in in Hdd. by apply andb_true_iff in Hdd as [? _].
  - rewrite map_app. apply NoDup_app. split_and!; [apply Hready| |apply NoDup_singleton].
    intros x (r & -> & Hr)%elem_of_lmap Hx%list_elem_of_singleton. rewrite E2 in Hidp. by apply (Hidp r).
Qed.

(** ** Grants *)

Lemma draftOf_draft w r : draftOf w r = draft_in (WsBase w) r.
Proof. reflexivity. Qed.

Lemma tailPriority_last w table : tailPriority w table = lastPriority (WsBase w) table.
Proof. reflexivity. Qed.

Lemma grantRow_draft w a p ids rule target : draft_in (WsBase w) (grantRow w a p ids rule target) = true.
Proof. unfold draft_in. cbn. by rewrite !bool_decide_true. Qed.

Lemma grants_ready w a creates p m s ids s1 :
  ready (WsBase w) (tx_rules s) -> lastPriority (WsBase w) (tx_rules s) < p ->
  create_each (grant_builds w a p creates) m s = inr (ids, s1) -> ready (WsBase w) (tx_rules s1).
Proof.
  revert p s ids. induction creates as [|[rule target] creates IH]; intros p s ids Hr Hp H; cbn [grant_builds create_each] in H.
  - by apply tx_ret_inr in H as [= -> ->].
  - apply tx_bind_inr in H as (row & s0 & Hrow & H). apply create_inr in Hrow as (-> & Hid & E).
    apply tx_bind_inr in H as (ids' & s2 & H & Hret). apply tx_ret_inr in Hret as [= -> ->].
    apply (IH (p + 1)) in H; [done| |]; rewrite E.
    + apply ready_append; [done|apply grantRow_draft|done|done|done|].
      intros i Hi%list_elem_of_singleton. exists (DtoAgent a). by subst.
    + rewrite lastPriority_snoc; [cbn; lia|apply grantRow_draft|done|cbn; lia].
Qed.

Lemma append_ready w a creates m s ids s1 :
  ready (WsBase w) (tx_rules s) -> appendGrantRulesInTx w a creates m s = inr (ids, s1) -> ready (WsBase w) (tx_rules s1).
Proof.
  intros Hr H. unfold appendGrantRulesInTx in H. apply tx_bind_inr in H as (tab & s0 & Htab & H). apply tx_table_inr in Htab as [-> ->].
  rewrite tailPriority_last in H. eapply grants_ready; [exact Hr| |exact H]. lia.
Qed.

Lemma replace_kept w a names creates m table r s :
  kept table -> replaceAndPublish w a names creates m (mkTx table 0) = inr (r, s) -> kept (tx_rules s).
Proof.
  intros Hk H. unfold replaceAndPublish in H. apply tx_bind_inr in H as (n & s0 & Hn & H). apply deleteMany_inr in Hn as [_ E].
  apply tx_bind_inr in H as (ids & s1 & Ha & H). apply tx_bind_inr in H as (p & s2 & Hp & H). apply tx_ret_inr in H as [= -> ->].
  eapply publish_kept; [|exact Hp]. eapply append_ready; [|exact Ha]. rewrite E. apply ready_filter; [by apply kept_ready|].
  intros x Hx%negb_false_iff. unfold stack_of in Hx. rewrite !andb_true_iff in Hx. apply Hx.
Qed.

Lemma attach_kept w a c desired m table r s :
  kept table -> attachIfAbsent w a c desired m (mkTx table 0) = inr (r, s) -> kept (tx_rules s).
Proof.
  intros Hk H. unfold attachIfAbsent in H. apply tx_bind_inr in H as (tab & s0 & Htab & H). apply tx_table_inr in Htab as [-> ->].
  cbn [tx_rules] in H. destruct (readGrantRows table w a c); [|by apply tx_ret_inr in H as [= -> ->]].
  apply tx_bind_inr in H as (ids & s1 & Ha & H). apply tx_bind_inr in H as (p & s2 & Hp & H). apply tx_ret_inr in H as [= -> ->].
  eapply publish_kept; [|exact Hp]. eapply append_ready; [|exact Ha]. by apply kept_ready.
Qed.

(** ** Deletions *)

(** What reaches a rule and its live copy alike: rows dropped, and the others
    mapped, by what their versions share. *)
Section Sweep.
Context (f : RuleRow -> RuleRow) (K : RuleRow -> bool) (table : list RuleRow).

(** A row of the draft or of the live generation. *)
Definition current (b : PolicyScopeBase) (r : RuleRow) : Prop :=
  draft_in b r = true \/ exists g, max_generation (List.filter (published_in b) table) = Some g /\ live_in b g r = true.

Context (f_key : forall r, row_id (f r) = row_id r /\ row_scope (f r) = row_scope r /\ row_organizationId (f r) = row_organizationId r /\
  row_workspaceId (f r) = row_workspaceId r /\ row_status (f r) = row_status r /\ row_generation (f r) = row_generation r /\
  row_priority (f r) = row_priority r /\ row_isDefault (f r) = row_isDefault r /\ row_source (f r) = row_source r).
Context (f_identities : forall r i, i ∈ row_identities (f r) -> i ∈ row_identities r).
Context (f_version : forall b r r', current b r -> current b r' -> version r = version r' -> version (f r) = version (f r')).
Context (K_version : forall b r r', current b r -> current b r' -> version r = version r' -> K r = K r').
Context (K_default : forall r, row_identities r = [] -> row_source r = js "default" -> K r = true).

Let sweep : list RuleRow := map f (List.filter K table).

Lemma f_in_base b r : in_base b (f r) = in_base b r.
Proof. destruct (f_key r) as (_ & Es & Eo & Ew & _). unfold in_base. by rewrite Es, Eo, Ew. Qed.

Lemma f_draft b r : draft_in b (f r) = draft_in b r.
Proof. destruct (f_key r) as (_ & _ & _ & _ & E & _). unfold draft_in, has_row_status. by rewrite f_in_base, E. Qed.

Lemma f_published b r : published_in b (f r) = published_in b r.
Proof. destruct (f_key r) as (_ & _ & _ & _ & E & _). unfold published_in. by rewrite f_in_base, E. Qed.

Lemma f_live b g r : live_in b g (f r) = live_in b g r.
Proof. destruct (f_key r) as (_ & _ & _ & _ & _ & E & _). unfold live_in. by rewrite f_published, E. Qed.

Lemma sweep_filter (P : RuleRow -> bool) :
  (forall r, P (f r) = P r) -> List.filter P sweep = map f (List.filter K (List.filter P table)).
Proof.
  intros HP. unfold sweep. rewrite filter_map_comp, !filter_filter_comp. f_equal. apply filter_ext. intros r. rewrite HP. apply andb_comm.
Qed.

Lemma sweep_sorted (P : RuleRow -> bool) :
  (forall r, P (f r) = P r) ->
  js_sort LoadRules.row_leb (List.filter P sweep) = map f (List.filter K (js_sort LoadRules.row_leb (List.filter P table))).
Proof.
  intros HP. rewrite sweep_filter, js_sort_map by done.
  rewrite <- (js_sort_filter _ row_leb_total row_leb_trans K). f_equal. apply js_sort_ext. intros x y.
  destruct (f_key x) as (Ex & _ & _ & _ & _ & _ & Px & _), (f_key y) as (Ey & _ & _ & _ & _ & _ & Py & _).
  unfold LoadRules.row_leb. by rewrite Ex, Ey, Px, Py.
Qed.

Lemma sweep_versions b l l' :
  (forall r, r ∈ l -> current b r) -> (forall r, r ∈ l' -> current b r) ->
  map version l = map version l' -> map version (map f (List.filter K l)) = map version (map f (List.filter K l')).
Proof.
  revert l'. induction l as [|r l IH]; intros [|r' l'] Hl Hl' H; try done. cbn [map] in H. apply cons_eq_inj in H as [Hr H].
  cbn [List.filter]. rewrite (K_version b r r'); [|apply Hl; by left|apply Hl'; by left|done].
  assert (map version (map f (List.filter K l)) = map version (map f (List.filter K l'))) as Hrest.
  { apply IH; [intros x Hx; apply Hl; by right|intros x Hx; apply Hl'; by right|done]. }
  destruct (K r'); [|done]. cbn [map]. f_equal; [|done]. apply (f_version b); [apply Hl; by left|apply Hl'; by left|done].
Qed.

Lemma live_rows_in b g (t : list RuleRow) r : r ∈ live_rows b g t -> r ∈ t /\ live_in b g r = true /\ in_base b r = true.
Proof.
  unfold live_rows. rewrite js_sort_elem_of. intros [Hr Hl]%elem_of_lfilter. split_and!; [done|done|].
  unfold live_in, published_in in Hl. rewrite !andb_true_iff in Hl. apply Hl.
Qed.

Lemma draft_rows_in b (t : list RuleRow) r : r ∈ draft_rows b t <-> r ∈ t /\ draft_in b r = true.
Proof. unfold draft_rows. by rewrite js_sort_elem_of, elem_of_lfilter. Qed.

Lemma draft_in_base b r : draft_in b r = true -> in_base b r = true.
Proof. unfold draft_in. by intros [? _]%andb_true_iff. Qed.

Lemma sweep_live b g : live_rows b g sweep = map f (List.filter K (live_rows b g table)).
Proof. apply sweep_sorted, f_live. Qed.

(** The Default Rule of a mirrored draft stays, and its live copy with it. *)
Lemma sweep_default b g :
  max_generation (List.filter (published_in b) table) = Some g -> draft_kept b table -> map version (live_rows b g table) = map version (draft_rows b table) ->
  (exists d, d ∈ table /\ draft_in b d = true /\ row_isDefault d = true) ->
  exists d d', (d ∈ table /\ draft_in b d = true /\ row_isDefault d = true /\ K d = true) /\
    (d' ∈ table /\ live_in b g d' = true /\ K d' = true).
Proof.
  intros Hg Hk Hm (d & Hd & Hdd & Hdef). pose proof (dk_rows _ _ Hk d Hd Hdd) as Hrow. rewrite Hdef in Hrow. destruct Hrow as (_ & Hids & Hsrc).
  assert (K d = true) as HK by (by apply K_default).
  assert (version d ∈ map version (live_rows b g table)) as (d' & Hv & Hin)%elem_of_lmap.
  { rewrite Hm. apply elem_of_lmap. exists d. split; [done|]. by apply draft_rows_in. }
  apply live_rows_in in Hin as (Hd' & Hl & Hb). exists d, d'. split_and!; try done.
  by rewrite (K_version b d' d); [|right; by exists g|left|].
Qed.

Lemma sweep_max b g :
  draft_kept b table -> map version (live_rows b g table) = map version (draft_rows b table) ->
  (exists d, d ∈ table /\ draft_in b d = true /\ row_isDefault d = true) ->
  max_generation (List.filter (published_in b) table) = Some g -> max_generation (List.filter (published_in b) sweep) = Some g.
Proof.
  intros Hk Hm Hdef Hg. destruct (sweep_default b g Hg Hk Hm Hdef) as (_ & d & _ & Hd & Hl & HK).
  apply max_generation_spec in Hg as [_ Hmax]. apply max_generation_spec. rewrite sweep_filter by apply f_published. split.
  - exists (f d). unfold live_in in Hl. apply andb_true_iff in Hl as [Hp Hgen%Z.eqb_eq]. split.
    + apply elem_of_lmap. exists d. split; [done|]. apply elem_of_lfilter. split; [by apply elem_of_lfilter|done].
    + destruct (f_key d) as (_ & _ & _ & _ & _ & -> & _). done.
  - intros r (x & -> & [Hx _]%elem_of_lfilter)%elem_of_lmap. destruct (f_key x) as (_ & _ & _ & _ & _ & -> & _). by apply Hmax.
Qed.

Lemma sweep_unpublished b :
  max_generation (List.filter (published_in b) table) = None -> max_generation (List.filter (published_in b) sweep) = None.
Proof. intros Hn%max_generation_none. by rewrite sweep_filter, Hn by apply f_published. Qed.

(** Its published generations are the same ones. *)
Lemma sweep_generation b : kept table ->
  max_generation (List.filter (published_in b) sweep) = max_generation (List.filter (published_in b) table).
Proof.
  intros Hk. destruct (max_generation (List.filter (published_in b) table)) as [g|] eqn:Hg; [|by apply sweep_unpublished].
  destruct (kept_mirrors _ Hk b) as [Hn|(g' & Hg' & Hm & Hdef)].
  - exfalso. apply max_generation_spec in Hg as [(r & [Hr Hp]%elem_of_lfilter & _) _]. apply (Hn r Hr).
    unfold published_in in Hp. by apply andb_true_iff in Hp as [? _].
  - assert (g' = g) as -> by congruence. apply sweep_max; [apply (kept_drafts _ Hk)|done|done|done].
Qed.

Lemma sweep_mirrored b : draft_kept b table -> mirrored b table -> mirrored b sweep.
Proof.
  intros Hk [Hn|(g & Hg & Hm & Hdef)]; [left|right; exists g].
  { intros r (x & -> & [Hx _]%elem_of_lfilter)%elem_of_lmap. rewrite f_in_base. by apply Hn. }
  split_and!.
  - by apply sweep_max.
  - rewrite sweep_live. unfold draft_rows. rewrite sweep_sorted by apply f_draft.
    apply (sweep_versions b); [|intros r [_ Hr]%draft_rows_in; by left|done].
    intros r Hr. apply live_rows_in in Hr as (_ & Hl & _). right. by exists g.
  - destruct (sweep_default b g Hg Hk Hm Hdef) as (d & _ & (Hd & Hdd & Hdd' & HK) & _). exists (f d). split_and!; [|by rewrite f_draft|].
    + apply elem_of_lmap. exists d. split; [done|by apply elem_of_lfilter].
    + destruct (f_key d) as (_ & _ & _ & _ & _ & _ & _ & -> & _). done.
Qed.

Lemma sweep_draft_kept b : draft_kept b table -> draft_kept b sweep.
Proof.
  intros [Hn Hr]. split.
  - rewrite sweep_filter by apply f_draft. rewrite map_map. erewrite map_ext; [apply NoDup_map_filter; exact Hn|].
    intros r. by destruct (f_key r) as (_ & _ & _ & _ & _ & _ & -> & _).
  - intros r (x & -> & [Hx _]%elem_of_lfilter)%elem_of_lmap. rewrite f_draft. intros Hd. specialize (Hr x Hx Hd).
    destruct (f_key x) as (_ & _ & _ & _ & _ & _ & Ep & Ed & Es). rewrite Ep, Ed, Es. destruct (row_isDefault x); [|done].
    destruct Hr as (H1 & H2 & H3). split_and!; [done| |done]. destruct (row_identities (f x)) as [|i l] eqn:E; [done|].
    assert (i ∈ row_identities x) as Hi by (apply f_identities; rewrite E; by left). rewrite H2 in Hi. by apply elem_of_nil in Hi.
Qed.

Lemma kept_swept : kept table -> kept sweep.
Proof.
  intros Hk. split.
  - unfold sweep. rewrite map_map. erewrite map_ext; [apply NoDup_map_filter, (kept_ids _ Hk)|]. intros r. apply f_key.
  - intros r i (x & -> & [Hx _]%elem_of_lfilter)%elem_of_lmap Hi. by apply (kept_principals _ Hk x i Hx), f_identities.
  - intros b. apply sweep_draft_kept, (kept_drafts _ Hk).
  - intros b. apply sweep_mirrored; [apply (kept_drafts _ Hk)|apply (kept_mirrors _ Hk)].
Qed.
End Sweep.

Lemma current_base table b r : current table b r -> in_base b r = true.
Proof.
  intros [H|(g & _ & H)]; [by apply draft_in_base|]. unfold live_in, published_in in H. rewrite !andb_true_iff in H. apply H.
Qed.

Lemma dropped_version p table b r r' :
  current table b r -> current table b r' -> version r = version r' -> negb (dropped p r) = negb (dropped p r').
Proof.
  intros Hb%current_base Hb'%current_base Hv. f_equal. assert (row_identities r = row_identities r') as Ei by exact (f_equal row_identities Hv).
  assert (row_source r = row_source r') as Es by exact (f_equal row_source Hv).
  assert (row_scope r = row_scope r') as Esc by exact (f_equal row_scope Hv).
  assert (forall base, in_base base r = in_base base r') as Eb.
  { intros base. destruct (decide (base = b)) as [->|Hne]; [congruence|].
    assert (forall x, in_base b x = true -> in_base base x = false) as Hno; [|by rewrite !Hno].
    intros x Hx. apply not_true_iff_false. intros H. apply Hne. by eapply in_base_unique. }
  unfold dropped, only_names, orphaned_grant. by destruct p; rewrite ?Eb, ?Ei, ?Es, ?Esc.
Qed.

Lemma dropped_default p r : row_identities r = [] -> row_source r = js "default" -> negb (dropped p r) = true.
Proof.
  intros Hi Hs. unfold dropped, only_names, orphaned_grant. rewrite Hi, Hs. rewrite (bool_decide_false (js "default" = GRANT_SOURCE)) by (vm_compute; discriminate).
  destruct p; cbn [existsb andb orb]; by rewrite andb_false_r.
Qed.

Lemma principal_kept p m table r s :
  kept table -> deletePrincipal p m (mkTx table 0) = inr (r, s) -> kept (tx_rules s).
Proof.
  intros Hk H. unfold deletePrincipal, dropPrincipalFromPolicyInTx in H. apply tx_bind_inr in H as (os & s0 & Hd & H).
  apply tx_bind_inr in Hd as (tab & s1 & Htab & Hd). apply tx_table_inr in Htab as [-> ->].
  apply tx_bind_inr in Hd as (n & s1 & Hn & Hd). apply tx_ret_inr in Hd as [= -> ->]. apply deleteMany_inr in Hn as [_ E].
  apply tx_bind_inr in H as (u & s2 & Hc & H). apply tx_ret_inr in H as [= -> ->]. injection Hc as _ <-. cbn [tx_rules] in *.
  rewrite E. apply kept_swept; [done| | |apply (dropped_version p)|apply dropped_default|done].
  - intros x i. cbn. by intros [? _]%elem_of_lfilter.
  - intros b x x' _ _ Hv. assert (row_identities x = row_identities x') as Ei by exact (f_equal row_identities Hv).
    rewrite Ei. exact (f_equal (with_identities _) Hv).
Qed.

Lemma names_resource_copy c t : names_resource c (targetRowToCreate t) = names_resource c t.
Proof.
  unfold names_resource. cbn. f_equal; f_equal; [by destruct (tr_appConnectionId t) as [[]|]|by destruct (tr_secretId t) as [[]|]].
Qed.

Lemma resource_kept c table :
  kept table ->
  kept (map (fun r => with_targets (List.filter (fun t => negb (names_resource c t)) (row_targets r)) r) table).
Proof.
  intros Hk. rewrite <- (filter_all (fun _ : RuleRow => true) table) at 1 by done.
  apply kept_swept; [done|done| |done|done|done].
  assert (forall r, version (with_targets (List.filter (fun t => negb (names_resource c t)) (row_targets r)) r)
    = with_targets (List.filter (fun t => negb (names_resource c t)) (row_targets (version r))) (version r)) as Hw.
  { intros r. unfold version, with_targets. cbn. f_equal. rewrite filter_map_comp. f_equal. apply filter_ext. intros t. by rewrite names_resource_copy. }
  intros b r r' _ _ Hv. by rewrite !Hw, Hv.
Qed.
