(* ===== verification/PolicyLockstep.v ===== *)
(** * In lockstep

    The blocklist writes the draft and the live generation in place, each on
    its own order; they stay versions of each other. *)
From S2P Require Import Prelude PolicyTypes JsJson Catalog PolicyRows Grants ResourceAxis LoadRules EffectiveTools PolicyAuthoring PolicyBlocklist PolicyPublish PolicyWrites.
Local Open Scope Z_scope.

(** ** Toggling and removing *)

Definition live_generation (b : PolicyScopeBase) (table : list RuleRow) : option Z := max_generation (List.filter (published_in b) table).

Lemma in_lockstep_current b table r : in_lockstep b (live_generation b table) r = true <-> current table b r.
Proof.
  unfold in_lockstep, current, in_set, live_generation. rewrite orb_true_iff. split.
  - intros [H|H]; [by left|right]. destruct (max_generation _) as [g|]; [|done]. by exists g.
  - intros [H|(g & Hg & H)]; [by left|right]. by rewrite Hg.
Qed.

Lemma in_lockstep_same b b' table r r' :
  current table b' r -> current table b' r' -> in_lockstep b (live_generation b table) r = in_lockstep b (live_generation b table) r'.
Proof.
  intros Hr Hr'. apply eq_true_iff_eq. rewrite !in_lockstep_current.
  destruct (decide (b = b')) as [->|Hne]; [done|]. split; intros H%current_base; exfalso; apply Hne.
  - by eapply in_base_unique, current_base.
  - by eapply in_base_unique, current_base.
Qed.

Lemma lockstep_mapped b table (P : RuleRow -> bool) e :
  (forall r, P r = P (version r)) -> kept table ->
  kept (map (fun r => if in_lockstep b (live_generation b table) r && P r then with_enabled e r else r) table).
Proof.
  intros HP Hk. set (f := fun r : RuleRow => if in_lockstep b (live_generation b table) r && P r then with_enabled e r else r). rewrite <- (filter_all (fun _ : RuleRow => true) table) at 1 by done.
  apply kept_swept; try done.
  - intros r. unfold f. by destruct (in_lockstep _ _ r && P r).
  - intros r i. unfold f. by destruct (in_lockstep _ _ r && P r).
  - intros b' r r' Hr Hr' Hv. unfold f. rewrite (in_lockstep_same b b' table r r' Hr Hr'), (HP r), (HP r'), Hv.
    destruct (in_lockstep _ _ r' && P (version r')); [|done]. exact (f_equal (with_enabled e) Hv).
Qed.

Lemma lockstep_filtered b table (P : RuleRow -> bool) :
  (forall r, P r = P (version r)) -> (forall r, row_source r = js "default" -> P r = false) -> kept table ->
  kept (List.filter (fun r => negb (in_lockstep b (live_generation b table) r && P r)) table).
Proof.
  intros HP Hdef Hk. rewrite <- (map_id (List.filter _ _)). apply kept_swept; try done.
  - intros b' r r' Hr Hr' Hv. by rewrite (in_lockstep_same b b' table r r' Hr Hr'), (HP r), (HP r'), Hv.
  - intros r _ Hs. by rewrite (Hdef r Hs), andb_false_r.
Qed.

Lemma toggle_kept read scope i e t m table u s :
  kept table -> toggleBlocklistRule read scope i e = inr t -> t m (mkTx table 0) = inr (u, s) -> kept (tx_rules s).
Proof.
  intros Hk Ht Hrun. unfold toggleBlocklistRule in Ht. apply result_bind_inr in Ht as (b & _ & Ht). apply result_bind_inr in Ht as (rule & _ & Ht).
  injection Ht as <-. injection Hrun as _ <-.
  by apply (lockstep_mapped b table (fun r => bool_decide (row_logicalId r = row_logicalId rule))).
Qed.

Lemma unblock_kept b ids t m table u s :
  kept table -> deleteByLogicalIds b ids = Some t -> t m (mkTx table 0) = inr (u, s) -> kept (tx_rules s).
Proof.
  intros Hk Ht Hrun. unfold deleteByLogicalIds in Ht. destruct ids as [|i ids]; [done|]. injection Ht as <-. injection Hrun as _ <-. cbn [tx_rules].
  rewrite (filter_ext _ (fun r => negb (in_lockstep b (live_generation b table) r &&
    (bool_decide (row_source r = BLOCKLIST_SOURCE) && bool_decide (row_logicalId r ∈ i :: ids))))) by (intros r; by rewrite andb_assoc).
  apply lockstep_filtered; [done| |done]. intros r ->. by rewrite bool_decide_false by (vm_compute; discriminate).
Qed.

(** ** Inserting a block *)

(** Where a block goes in an ordered set. *)
Definition slot (rules : list RuleRow) : Z :=
  match List.find (fun r => negb (bool_decide (row_action r = js "block"))) rules with
  | Some firstLooser => row_priority firstLooser
  | None => match last rules with Some r => row_priority r | None => 0 end + 1
  end.

Definition plain (r : RuleRow) : bool := negb (row_isDefault r).

Lemma insertPriority_draft b table : insertPriority b None table = slot (List.filter plain (draft_rows b table)).
Proof.
  unfold insertPriority, draft_rows. rewrite <- (js_sort_filter _ row_leb_total row_leb_trans), filter_filter_comp. done.
Qed.

Lemma insertPriority_live b g table : insertPriority b (Some g) table = slot (List.filter plain (live_rows b g table)).
Proof.
  unfold insertPriority, live_rows. rewrite <- (js_sort_filter _ row_leb_total row_leb_trans), filter_filter_comp. done.
Qed.

Lemma slot_versions l l' : map version l = map version l' -> slot (List.filter plain l) = slot (List.filter plain l').
Proof.
  intros H. assert (map version (List.filter plain l) = map version (List.filter plain l')) as Hf.
  { revert l' H. induction l as [|r l IH]; intros [|r' l'] H; try done. cbn [map] in H. apply cons_eq_inj in H as [Hr H].
    cbn [List.filter]. change (plain r) with (plain (version r)). change (plain r') with (plain (version r')). rewrite Hr.
    destruct (plain (version r')); [|by apply IH]. cbn [map]. rewrite Hr. f_equal. by apply IH. }
  assert (forall l, slot l = slot (map version l)) as Hs; [|by rewrite (Hs (List.filter plain l)), Hf, <- Hs].
  clear. intros l. unfold slot. rewrite find_map_comp. cbn. destruct (List.find _ l) as [r|]; [done|]. cbn.
  change (map version l) with (version <$> l). rewrite fmap_last. by destruct (last l).
Qed.

Lemma slot_pos l : (forall r, r ∈ l -> 1 <= row_priority r) -> 1 <= slot l.
Proof.
  intros Hl. unfold slot. destruct (List.find _ l) as [r|] eqn:Hf; [apply find_some in Hf as [Hr _]; by apply Hl, list_elem_of_In|].
  destruct (last l) as [r|] eqn:El; [|lia]. apply last_Some_elem_of in El. specialize (Hl r El). lia.
Qed.

(** The slot opened, in one set. *)
Definition shifted (b : PolicyScopeBase) (generation : option Z) (p : Z) (r : RuleRow) : RuleRow :=
  if in_set b generation r && negb (row_isDefault r) && (p <=? row_priority r) then with_priority (row_priority r + 1) r else r.

Lemma createBlockRule_inr b generation l name host m s row s1 :
  createBlockRule b generation l name host m s = inr (row, s1) ->
  let p := insertPriority b generation (tx_rules s) in
  exists pair, row = blockRow b generation p l name host pair /\
    (forall r, r ∈ tx_rules s -> row_id r <> row_id row) /\
    tx_rules s1 = map (shifted b generation p) (tx_rules s) ++ [row].
Proof.
  intros H. unfold createBlockRule in H. apply tx_bind_inr in H as (t & s0 & Ht & H). apply tx_table_inr in Ht as [-> ->].
  apply tx_bind_inr in H as (u & s0 & Hu & H). injection Hu as _ <-. apply create_inr in H as (-> & Hid & ->).
  cbn zeta. eexists. split_and!; [reflexivity| |done]. intros r Hr.
  assert (row_id (shifted b generation (insertPriority b generation (tx_rules s)) r) = row_id r) as <-
    by (unfold shifted; by destruct (in_set _ _ _ && _ && _)).
  apply Hid, elem_of_lmap. by exists r.
Qed.

(** Two sets of the same versions, sorted. *)
Lemma sorted_versions X Y :
  NoDup (map row_priority Y) -> map version X ≡ₚ map version Y ->
  map version (js_sort LoadRules.row_leb X) = map version (js_sort LoadRules.row_leb Y).
Proof.
  intros Hn Hp.
  assert (forall Z, NoDup (map row_priority Z) -> StronglySorted before (map version (js_sort LoadRules.row_leb Z))) as Hs.
  { intros Z HZ. assert (StronglySorted before (js_sort LoadRules.row_leb Z)) as Hb.
    { apply sorted_before; [apply js_sort_sorted; [apply row_leb_total|apply row_leb_trans]|].
      by rewrite (Permutation_map row_priority (js_sort_Permutation _ _)). }
    clear -Hb. induction Hb as [|x l _ IH Hx]; cbn; constructor; [done|]. rewrite Forall_forall in *.
    intros y (z & -> & Hz)%elem_of_lmap. exact (Hx z Hz). }
  assert (map row_priority X ≡ₚ map row_priority Y) as Hpr.
  { apply (Permutation_map row_priority) in Hp. by rewrite !map_map in Hp. }
  apply (StronglySorted_unique_strong before); [unfold before; intros; lia|apply Hs; by rewrite Hpr|by apply Hs|].
  by rewrite (Permutation_map version (js_sort_Permutation _ X)), (Permutation_map version (js_sort_Permutation _ Y)).
Qed.

(** A rule moved down past a slot. *)
Definition moved (p : Z) (r : RuleRow) : RuleRow :=
  if negb (row_isDefault r) && (p <=? row_priority r) then with_priority (row_priority r + 1) r else r.

Lemma shifted_moved b generation p r : shifted b generation p r = if in_set b generation r then moved p r else r.
Proof. unfold shifted, moved. by destruct (in_set b generation r). Qed.

Lemma moved_version p r : version (moved p r) = moved p (version r).
Proof. unfold moved. cbn. by destruct (_ && _). Qed.

Lemma draft_not_live b b' g r : draft_in b r = true -> live_in b' g r = false.
Proof.
  unfold draft_in, live_in, published_in, has_row_status. intros [_ Hd]%andb_true_iff. to_prop. rewrite Hd.
  rewrite (bool_decide_false (js "draft" = js "published")) by (vm_compute; discriminate). by rewrite andb_false_r.
Qed.

Lemma live_in_base b g r : live_in b g r = true -> in_base b r = true.
Proof. unfold live_in, published_in. rewrite !andb_true_iff. tauto. Qed.

Section Insert.
Context (b : PolicyScopeBase) (g : Z) (table : list RuleRow) (Hk : kept table) (Hg : live_generation b table = Some g).
Context (l name host : jsstr) (pair pair' : jsstr * jsstr).
Let p : Z := slot (List.filter plain (draft_rows b table)).
Let r1 : RuleRow := blockRow b None p l name host pair.
Let r2 : RuleRow := blockRow b (Some g) p l name host pair'.

(** What the two insertions make of a row. *)
Definition both (r : RuleRow) : RuleRow := if draft_in b r || live_in b g r then moved p r else r.

Lemma both_shifted r : shifted b (Some g) p (shifted b None p r) = both r.
Proof.
  rewrite !shifted_moved. unfold both. cbn [in_set]. destruct (draft_in b r) eqn:Hd; cbn [orb].
  - destruct (_ && _) eqn:Hl; [|done]. exfalso.
    assert (live_in b g r = true) as Hl' by (unfold moved in Hl; by destruct (negb (row_isDefault r) && (p <=? row_priority r))).
    by rewrite (draft_not_live b b g r Hd) in Hl'.
  - done.
Qed.

Lemma both_keys r : row_id (both r) = row_id r /\ (forall base, in_base base (both r) = in_base base r) /\
  (forall base, draft_in base (both r) = draft_in base r) /\ (forall base, published_in base (both r) = published_in base r) /\
  (forall base h, live_in base h (both r) = live_in base h r) /\ row_generation (both r) = row_generation r /\
  row_isDefault (both r) = row_isDefault r /\ row_identities (both r) = row_identities r /\ row_source (both r) = row_source r.
Proof.
  unfold both, moved. destruct (draft_in b r || live_in b g r); [|done]. by destruct (negb (row_isDefault r) && (p <=? row_priority r)).
Qed.

Lemma r1_draft : draft_in b r1 = true.
Proof. unfold draft_in. destruct b; cbn; by rewrite !bool_decide_true. Qed.

Lemma r2_live : live_in b g r2 = true.
Proof. unfold live_in, published_in. cbn. rewrite Z.eqb_refl. destruct b; cbn; by rewrite !bool_decide_true. Qed.

Lemma draft_positive r : r ∈ table -> draft_in b r = true ->
  if row_isDefault r then row_priority r = 0 /\ row_identities r = [] /\ row_source r = js "default" else 1 <= row_priority r.
Proof. apply (dk_rows _ _ (kept_drafts _ Hk b)). Qed.

Lemma p_pos : 1 <= p.
Proof.
  apply slot_pos. intros r [[Hr Hd]%draft_rows_in Hp]%elem_of_lfilter. pose proof (draft_positive r Hr Hd) as H.
  unfold plain in Hp. by destruct (row_isDefault r).
Qed.

(** Priorities go past the slot. *)
Lemma moved_priority r : r ∈ table -> draft_in b r = true ->
  row_priority (moved p r) = if p <=? row_priority r then row_priority r + 1 else row_priority r.
Proof.
  intros Hr Hd. pose proof (draft_positive r Hr Hd) as H. pose proof p_pos as Hp. unfold moved. destruct (row_isDefault r); cbn [negb andb].
  - destruct H as (H0 & _). destruct (Z.leb_spec p (row_priority r)); [lia|done].
  - by destruct (p <=? row_priority r).
Qed.

Lemma inserted_priorities : NoDup (map row_priority (map both (List.filter (draft_in b) table) ++ [r1])).
Proof.
  rewrite map_app, map_map. apply NoDup_app. split_and!; [| |apply NoDup_singleton].
  - apply (NoDup_map_key row_priority); [apply (dk_priorities _ _ (kept_drafts _ Hk b))|].
    intros x y [Hx Hdx]%elem_of_lfilter [Hy Hdy]%elem_of_lfilter. unfold both. rewrite Hdx, Hdy. cbn [orb].
    rewrite !moved_priority by done. destruct (Z.leb_spec p (row_priority x)), (Z.leb_spec p (row_priority y)); lia.
  - intros q (x & -> & [Hx Hdx]%elem_of_lfilter)%elem_of_lmap Hq%list_elem_of_singleton. cbn in Hq. revert Hq. unfold both. rewrite Hdx. cbn [orb].
    rewrite moved_priority by done. destruct (Z.leb_spec p (row_priority x)); lia.
Qed.

Let table' : list RuleRow := map both table ++ [r1; r2].

Lemma inserted_draft : List.filter (draft_in b) table' = map both (List.filter (draft_in b) table) ++ [r1].
Proof.
  unfold table'. rewrite List.filter_app, filter_map_comp. f_equal.
  - f_equal. apply filter_ext. intros r. apply both_keys.
  - cbn [List.filter]. rewrite r1_draft. destruct (draft_in b r2) eqn:E; [|done]. pose proof r2_live as H2.
    by rewrite (draft_not_live b b g r2 E) in H2.
Qed.

Lemma inserted_live : List.filter (live_in b g) table' = map both (List.filter (live_in b g) table) ++ [r2].
Proof.
  unfold table'. rewrite List.filter_app, filter_map_comp. f_equal.
  - f_equal. apply filter_ext. intros r. apply both_keys.
  - cbn [List.filter]. by rewrite (draft_not_live b b g r1 r1_draft), r2_live.
Qed.

Lemma inserted_elsewhere base : base <> b -> base_rows base table' = base_rows base table.
Proof.
  intros Hne. unfold base_rows, table'. rewrite List.filter_app, filter_map_comp, (filter_none _ [r1; r2]), app_nil_r.
  - rewrite (filter_ext _ (in_base base)) by (intros r; apply both_keys). rewrite <- (map_id (List.filter _ table)) at 2.
    apply map_ext_in. intros r [_ Hr]%list_elem_of_In%elem_of_lfilter. unfold both.
    assert (in_base b r = false) as Hb by (apply not_true_iff_false; intros H; apply Hne; by eapply in_base_unique).
    destruct (draft_in b r) eqn:Ed; [by rewrite (draft_in_base b r Ed) in Hb|].
    destruct (live_in b g r) eqn:El; [by rewrite (live_in_base b g r El) in Hb|done].
  - intros r Hr. apply not_true_iff_false. intros H. apply Hne. eapply in_base_unique; [exact H|].
    apply elem_of_cons in Hr as [-> | ->%list_elem_of_singleton]; [apply draft_in_base, r1_draft|apply (live_in_base b g), r2_live].
Qed.

Lemma mirrored_live : map version (live_rows b g table) = map version (draft_rows b table) /\
  exists d, d ∈ table /\ draft_in b d = true /\ row_isDefault d = true.
Proof.
  destruct (kept_mirrors _ Hk b) as [Hn|(g' & Hg' & Hm & Hd)]; [|assert (g' = g) as -> by (unfold live_generation in Hg; congruence); done].
  exfalso. pose proof Hg as Hgen. apply max_generation_spec in Hgen as [(r & [Hr Hp]%elem_of_lfilter & _) _]. apply (Hn r Hr).
  unfold published_in in Hp. by apply andb_true_iff in Hp as [? _].
Qed.

Lemma inserted_versions : map version (live_rows b g table') = map version (draft_rows b table').
Proof.
  unfold live_rows, draft_rows. rewrite inserted_live, inserted_draft. apply sorted_versions; [apply inserted_priorities|].
  rewrite !map_app, !map_map. change (map version [r2]) with (map version [r1]). apply Permutation_app_tail.
  destruct mirrored_live as [Hm _].
  rewrite (map_ext_in _ (fun r => moved p (version r)) (List.filter (live_in b g) table)).
  2: { intros r [_ Hr]%list_elem_of_In%elem_of_lfilter. unfold both. rewrite Hr, orb_true_r. apply moved_version. }
  rewrite (map_ext_in _ (fun r => moved p (version r)) (List.filter (draft_in b) table)).
  2: { intros r [_ Hr]%list_elem_of_In%elem_of_lfilter. unfold both. rewrite Hr. apply moved_version. }
  rewrite <- !(map_map version (moved p)). apply Permutation_map. transitivity (map version (live_rows b g table)).
  - apply Permutation_map. symmetry. apply js_sort_Permutation.
  - rewrite Hm. apply Permutation_map, js_sort_Permutation.
Qed.

Lemma inserted_generation : live_generation b table' = Some g.
Proof.
  pose proof Hg as Hgen. unfold live_generation in *. apply max_generation_spec in Hgen as [(r & [Hr Hp]%elem_of_lfilter & Hrg) Hmax].
  apply max_generation_spec. split.
  - exists (both r). destruct (both_keys r) as (_ & _ & _ & Ep & _ & -> & _). split; [|done]. apply elem_of_lfilter.
    split; [|by rewrite Ep]. apply elem_of_app. left. apply elem_of_lmap. by exists r.
  - intros x [[(y & -> & Hy)%elem_of_lmap|Hx]%elem_of_app Hp']%elem_of_lfilter.
    + destruct (both_keys y) as (_ & _ & _ & Ep & _ & -> & _). apply Hmax, elem_of_lfilter. by rewrite Ep in Hp'.
    + apply elem_of_cons in Hx as [-> | ->%list_elem_of_singleton]; [|cbn; lia].
      exfalso. pose proof r1_draft as Hd. unfold draft_in, has_row_status, published_in in *. rewrite !andb_true_iff in *.
      destruct Hd as [_ Hd], Hp' as [_ Hp']. to_prop. rewrite Hd in Hp'. vm_compute in Hp'. done.
Qed.

Lemma inserted_kept : NoDup (map row_id table') -> kept table'.
Proof.
  intros Hn. split; [done| | |].
  - intros r i [(x & -> & Hx)%elem_of_lmap|Hr]%elem_of_app Hi.
    + destruct (both_keys x) as (_ & _ & _ & _ & _ & _ & _ & Ei & _). rewrite Ei in Hi. by apply (kept_principals _ Hk x).
    + by apply elem_of_cons in Hr as [-> | ->%list_elem_of_singleton]; apply elem_of_nil in Hi.
  - intros base. destruct (decide (base = b)) as [->|Hne]; [|eapply draft_kept_ext; [symmetry; by apply inserted_elsewhere|apply (kept_drafts _ Hk)]].
    split; [rewrite inserted_draft; apply inserted_priorities|]. intros r Hr Hd.
    assert (r ∈ List.filter (draft_in b) table') as Hf by (by apply elem_of_lfilter). rewrite inserted_draft in Hf.
    apply elem_of_app in Hf as [(x & -> & [Hx Hdx]%elem_of_lfilter)%elem_of_lmap | ->%list_elem_of_singleton].
    + destruct (both_keys x) as (_ & _ & _ & _ & _ & _ & -> & -> & ->). pose proof (draft_positive x Hx Hdx) as H. pose proof p_pos as Hp.
      unfold both. rewrite Hdx. cbn [orb]. rewrite moved_priority by done.
      destruct (row_isDefault x), (Z.leb_spec p (row_priority x)); try done; lia.
    + cbn. apply p_pos.
  - intros base. destruct (decide (base = b)) as [->|Hne]; [|eapply mirrored_ext; [symmetry; by apply inserted_elsewhere|apply (kept_mirrors _ Hk)]].
    right. exists g. split_and!; [apply inserted_generation|apply inserted_versions|].
    destruct mirrored_live as [_ (d & Hd & Hdd & Hdef)]. exists (both d). destruct (both_keys d) as (_ & _ & Ed & _ & _ & _ & -> & _).
    split_and!; [|by rewrite Ed|done]. apply elem_of_app. left. apply elem_of_lmap. by exists d.
Qed.
End Insert.

Lemma in_set_live b g r : in_set b (Some g) r = live_in b g r.
Proof. reflexivity. Qed.

Lemma live_untouched b g p l name host pair table :
  List.filter (live_in b g) (map (shifted b None p) table ++ [blockRow b None p l name host pair]) = List.filter (live_in b g) table.
Proof.
  rewrite List.filter_app, filter_map_comp. cbn [List.filter].
  assert (live_in b g (blockRow b None p l name host pair) = false) as ->.
  { apply (draft_not_live b). unfold draft_in. destruct b; cbn; by rewrite !bool_decide_true. }
  rewrite app_nil_r, (filter_ext _ (live_in b g)).
  2: { intros r. rewrite shifted_moved. cbn [in_set]. destruct (draft_in b r) eqn:Hd; [|done]. unfold moved.
       by destruct (negb (row_isDefault r) && (p <=? row_priority r)). }
  rewrite <- (map_id (List.filter _ table)) at 2. apply map_ext_in. intros r [_ Hr]%list_elem_of_In%elem_of_lfilter.
  rewrite shifted_moved. cbn [in_set]. destruct (draft_in b r) eqn:Hd; [by rewrite (draft_not_live b b g r Hd) in Hr|done].
Qed.

Lemma block_kept b g l name host m s row s1 row' s2 :
  kept (tx_rules s) -> live_generation b (tx_rules s) = Some g ->
  createBlockRule b None l name host m s = inr (row, s1) -> createBlockRule b (Some g) l name host m s1 = inr (row', s2) ->
  kept (tx_rules s2) /\ live_generation b (tx_rules s2) = Some g.
Proof.
  intros Hk Hg (pair & -> & Hid & E1)%createBlockRule_inr (pair' & -> & Hid' & E2)%createBlockRule_inr.
  set (p := insertPriority b None (tx_rules s)) in *. set (p' := insertPriority b (Some g) (tx_rules s1)) in *.
  assert (p = slot (List.filter plain (draft_rows b (tx_rules s)))) as Hp by apply insertPriority_draft.
  assert (p' = p) as Ep.
  { unfold p'. rewrite insertPriority_live. rewrite Hp. apply slot_versions. unfold live_rows. rewrite E1, live_untouched.
    by apply (mirrored_live b g (tx_rules s)). }
  rewrite Ep in *. clear p' Ep. rewrite Hp in *. clear p Hp.
  assert (tx_rules s2 = map (both b g (tx_rules s)) (tx_rules s) ++
    [blockRow b None (slot (List.filter plain (draft_rows b (tx_rules s)))) l name host pair;
     blockRow b (Some g) (slot (List.filter plain (draft_rows b (tx_rules s)))) l name host pair']) as E.
  { rewrite E2, E1, map_app, map_map. cbn [map]. rewrite <- app_assoc. cbn [app].
    rewrite (map_ext _ (both b g (tx_rules s))) by (intros r; by apply both_shifted). f_equal. f_equal.
    rewrite shifted_moved, in_set_live. by rewrite (draft_not_live b b g) by (unfold draft_in; destruct b; cbn; by rewrite !bool_decide_true). }
  split; rewrite E; [|by apply inserted_generation].
  apply inserted_kept; [done|done|]. rewrite map_app, map_map. apply NoDup_app.
  rewrite (map_ext _ row_id) by (intros r; by apply both_keys). split_and!; [apply (kept_ids _ Hk)| |].
  - intros i (r & -> & Hr)%elem_of_lmap Hi. cbn [map] in Hi. apply elem_of_cons in Hi as [Hi|Hi%list_elem_of_singleton]; [by apply (Hid r)|].
    apply (Hid' (shifted b None (slot (List.filter plain (draft_rows b (tx_rules s)))) r)).
    + rewrite E1. apply elem_of_app. left. apply elem_of_lmap. by exists r.
    + rewrite <- Hi. rewrite shifted_moved. unfold moved. destruct (in_set b None r); [|done].
      by destruct (negb (row_isDefault r) && (_ <=? row_priority r)).
  - cbn [map]. constructor; [|apply NoDup_singleton]. intros Hi%list_elem_of_singleton. eapply Hid'; [|exact Hi].
    rewrite E1. apply elem_of_app. right. by left.
Qed.

Lemma block_each_kept b g hosts m s u s1 :
  kept (tx_rules s) -> live_generation b (tx_rules s) = Some g -> block_each b (Some g) hosts m s = inr (u, s1) -> kept (tx_rules s1).
Proof.
  revert s. induction hosts as [|h hosts IH]; intros s Hk Hg H; cbn [block_each] in H; [by apply tx_ret_inr in H as [= -> ->]|].
  apply tx_bind_inr in H as (l & s0 & Hl & H). injection Hl as _ <-.
  apply tx_bind_inr in H as (row & s2 & H1 & H). apply tx_bind_inr in H as (u' & s3 & H2 & H).
  apply tx_bind_inr in H2 as (row' & s4 & H2 & Hu). apply tx_ret_inr in Hu as [= -> ->].
  destruct (block_kept b g _ _ _ m (mkTx (tx_rules s) (S (tx_created s))) row s2 row' s4 Hk Hg H1 H2) as [Hk' Hg']. by apply (IH s4).
Qed.

Lemma blocks_kept read scope base hosts t m table u s :
  kept table -> initBlocklistDefaults read scope hosts = inr (Some t) -> ownScope scope = inr base ->
  existsb (published_in base) table = true -> t m (mkTx table 0) = inr (u, s) -> kept (tx_rules s).
Proof.
  intros Hk Ht Hb Hpub Hrun. unfold initBlocklistDefaults in Ht. destruct hosts as [|h hosts]; [done|].
  apply result_bind_inr in Ht as (base' & Hb' & Ht). rewrite Hb in Hb'. injection Hb' as <-. unfold mret, result_ret in Ht.
  destruct (missing_hosts base read (h :: hosts)) as [|h' hosts']; [done|].
  assert (t = (generation ← liveGeneration base; block_each base generation (h' :: hosts'))) as -> by congruence.
  apply tx_bind_inr in Hrun as (gen & s0 & Hgen & Hrun). injection Hgen as <- <-. cbn [tx_rules] in Hrun.
  destruct (max_generation (List.filter (published_in base) table)) as [g|] eqn:Hg.
  - by eapply (block_each_kept base g _ m (mkTx table 0)).
  - exfalso. apply max_generation_none in Hg. apply existsb_In in Hpub as (r & Hr & Hp).
    assert (r ∈ List.filter (published_in base) table) as Hf by (by apply elem_of_lfilter). rewrite Hg in Hf. by apply elem_of_nil in Hf.
Qed.

(** ** A deleted scope *)

Lemma scope_kept base table : kept table -> kept (List.filter (fun r => negb (in_base base r)) table).
Proof.
  intros Hk.
  assert (forall b, b <> base -> base_rows b (List.filter (fun r => negb (in_base base r)) table) = base_rows b table) as Ho.
  { intros b Hne. unfold base_rows. rewrite filter_filter_comp. apply filter_ext. intros r. destruct (in_base b r) eqn:E; [|by rewrite andb_false_r].
    destruct (in_base base r) eqn:E'; [|done]. exfalso. apply Hne. by eapply in_base_unique. }
  assert (forall r, r ∈ List.filter (fun r => negb (in_base base r)) table -> in_base base r = false) as Hno.
  { intros r [_ H]%elem_of_lfilter. by apply negb_true_iff. }
  split.
  - apply NoDup_map_filter, (kept_ids _ Hk).
  - intros r i [H _]%elem_of_lfilter. by apply (kept_principals _ Hk).
  - intros b. destruct (decide (b = base)) as [->|Hne]; [|eapply draft_kept_ext; [symmetry; by apply Ho|apply (kept_drafts _ Hk)]].
    split.
    + rewrite (filter_none (draft_in base)); [constructor|]. intros r Hr. unfold draft_in. by rewrite (Hno r Hr).
    + intros r Hr Hd%draft_in_base. by rewrite (Hno r Hr) in Hd.
  - intros b. destruct (decide (b = base)) as [->|Hne]; [|eapply mirrored_ext; [symmetry; by apply Ho|apply (kept_mirrors _ Hk)]].
    left. intros r Hr Hb. by rewrite (Hno r Hr) in Hb.
Qed.
