(* ===== verification/PolicyRuns.v ===== *)
(** * What a gateway enforces

    Runs of writes from an empty table, and what they come to for the rules a
    gateway loads. *)
From S2P Require Import Prelude PolicyTypes JsJson Catalog PolicyRows Grants ResourceAxis LoadRules EffectiveTools PolicyAuthoring PolicyBlocklist PolicyPublish PolicyWrites PolicyLockstep.
Local Open Scope Z_scope.

(** ** Runs *)

Section Runs.
Context {E : PolicyProviders} (H : Homes).

Lemma write_kept {A} (t : tx A) m table a s :
  kept table -> policy_write H table t -> t m (mkTx table 0) = inr (a, s) -> kept (tx_rules s).
Proof.
  intros Hk Hw. revert a s. destruct Hw; intros x s' Hrun.
  - by eapply create_kept.
  - by eapply update_kept.
  - by eapply delete_kept.
  - by eapply reorder_kept.
  - by eapply default_kept.
  - by eapply publishPolicy_kept.
  - by eapply seed_kept.
  - by eapply replace_kept.
  - by eapply replace_kept.
  - by eapply attach_kept.
  - by eapply principal_kept.
  - by eapply blocks_kept.
  - by eapply toggle_kept.
  - by eapply unblock_kept.
Qed.

Lemma step_kept table table' : kept table -> policy_step H table table' -> kept table'.
Proof. intros Hk Hs. destruct Hs; [by eapply write_kept|by apply resource_kept|by apply scope_kept]. Qed.

Lemma empty_kept : kept [].
Proof.
  split; [constructor|by intros r i Hr%elem_of_nil| |].
  - intros b. split; [constructor|by intros r Hr%elem_of_nil].
  - intros b. left. by intros r Hr%elem_of_nil.
Qed.

Lemma run_kept table : policy_run H [] table -> kept table.
Proof.
  enough (forall t t', policy_run H t t' -> kept t -> kept t') as Hrun by (intros; eapply Hrun; [done|apply empty_kept]).
  induction 1 as [|t t1 t2 Hs _ IH]; [done|]. intros Hk. apply IH. by eapply step_kept.
Qed.
End Runs.

(** ** What a gateway loads *)

Lemma decodeTarget_copy sh cp t : decodeTarget sh cp (targetRowToCreate t) = decodeTarget sh cp t.
Proof.
  unfold decodeTarget, secretTargetHosts. cbn.
  assert (forall o : option jsstr, truthy (truthy o) = truthy o) as Ht by (by intros [[]|]).
  rewrite !Ht. assert (forall o : option jsstr, default [] (truthy o) = default [] o) as Hd by (by intros [[]|]). by rewrite Hd.
Qed.

(** A decoded rule is the same for every version. *)
Lemma toSimRule_version sh cp r : sim_rule (toSimRule sh cp r) = sim_rule (toSimRule sh cp (version r)).
Proof.
  unfold toSimRule. cbn. f_equal. rewrite map_map. apply map_ext. intros t. by rewrite decodeTarget_copy.
Qed.

(** The rows a read of a scope returns, as the draft and the live generation
    show them. *)
Definition loads (equipment : bool) (r : RuleRow) : bool :=
  row_enabled r && (if equipment then true else negb (bool_decide (row_source r = js "equipment"))).

Lemma load_draft table b equipment :
  loadRules table b (js "draft") equipment = List.filter (loads equipment) (draft_rows b table).
Proof.
  unfold loadRules. rewrite bool_decide_false by (vm_compute; discriminate). unfold draft_rows.
  rewrite <- (js_sort_filter _ row_leb_total row_leb_trans), filter_filter_comp. f_equal. apply filter_ext. intros r.
  unfold load_where, draft_in, has_row_status, loads. by rewrite andb_true_r, <- !andb_assoc.
Qed.

Lemma load_published table b equipment g :
  max_generation (List.filter (published_in b) table) = Some g ->
  loadRules table b (js "published") equipment = List.filter (loads equipment) (live_rows b g table).
Proof.
  intros Hg. unfold loadRules. rewrite bool_decide_true by done. unfold published_in in Hg. rewrite Hg. unfold live_rows.
  rewrite <- (js_sort_filter _ row_leb_total row_leb_trans), filter_filter_comp. f_equal. apply filter_ext. intros r.
  unfold load_where, live_in, published_in, loads. destruct (in_base b r), (bool_decide (row_status r = js "published")), (row_enabled r);
    cbn [andb]; try done; [apply andb_comm|by rewrite andb_false_r].
Qed.

Lemma filter_versions {B} (P : RuleRow -> bool) (f : RuleRow -> B) l l' :
  (forall r, P r = P (version r)) -> (forall r, f r = f (version r)) ->
  map version l = map version l' -> map f (List.filter P l) = map f (List.filter P l').
Proof.
  intros HP Hf. revert l'. induction l as [|r l IH]; intros [|r' l'] E; try done. cbn [map] in E. apply cons_eq_inj in E as [Er E].
  cbn [List.filter]. rewrite (HP r), (HP r'), Er. destruct (P (version r')); [|by apply IH].
  cbn [map]. rewrite (Hf r), (Hf r'), Er. f_equal. by apply IH.
Qed.

(** C3: From an empty table and along any sequence of committed writes (rules
    created, edited, deleted, reordered, published and seeded with the default
    that allows, grants, hosts blocked in scopes that have published, deleted
    principals, resources and scopes), what the gateway reads of a scope is
    what its draft says: the published rules, decoded and in order, are the
    draft's. Agents keep their workspace and groups their organization, and an
    edit's rule is still the rule it read, as identifiers are never reused.
    Without the condition on blocked hosts it fails
    ([PolicySample.block_not_enforced]). *)
Theorem live_is_draft {E : PolicyProviders} (H : Homes) table base equipment secretHosts connectionProviders :
  policy_run H [] table ->
  let rules st := map sim_rule (map (toSimRule secretHosts connectionProviders) (loadRules table base st equipment)) in
  rules (js "published") = rules (js "draft").
Proof.
  intros Hk%run_kept. cbn beta zeta. rewrite load_draft, !map_map.
  destruct (kept_mirrors _ Hk base) as [Hn|(g & Hg & Hm & _)].
  - assert (forall P, (forall r, P r = true -> in_base base r = true) -> List.filter P table = []) as Hnil.
    { intros P HP. apply filter_none. intros r Hr. apply not_true_iff_false. intros HPr. by apply (Hn r Hr), HP. }
    unfold draft_rows. rewrite Hnil by (intros r; unfold draft_in; by intros [? _]%andb_true_iff).
    unfold loadRules. rewrite bool_decide_true by done.
    rewrite (Hnil (fun r => in_base base r && _)); [done|]. by intros r [? _]%andb_true_iff.
  - rewrite (load_published _ _ _ g Hg). apply filter_versions; [done|apply toSimRule_version|done].
Qed.
