(* ===== verification/PolicyOrder.v ===== *)
(** * Reordering

    A reorder gives the scope's rules exactly the order asked for and changes
    nothing else of them, or is refused with nothing written. *)
From S2P Require Import Prelude PolicyTypes JsJson Catalog PolicyRows Grants ResourceAxis LoadRules EffectiveTools PolicyAuthoring PolicyBlocklist PolicyPublish PolicyWrites PolicyLockstep PolicyRuns.
Local Open Scope Z_scope.

(** The authored rules of a draft, in order. *)
Definition authored_rows (base : PolicyScopeBase) (table : list RuleRow) : list RuleRow :=
  List.filter (fun r => negb (row_isDefault r)) (draft_rows base table).

Definition is_authored (base : PolicyScopeBase) (r : RuleRow) : bool := draft_in base r && negb (row_isDefault r).

Lemma authored_rows_sorted base table : authored_rows base table = js_sort LoadRules.row_leb (List.filter (is_authored base) table).
Proof.
  unfold authored_rows, draft_rows. rewrite <- (js_sort_filter _ row_leb_total row_leb_trans), filter_filter_comp. f_equal.
Qed.

(** Publishing leaves the authored rules of every draft. *)
Lemma publish_authored b base m s res s1 :
  NoDup (map row_id (tx_rules s)) -> publishDraftInTx b m s = inr (res, s1) ->
  List.filter (is_authored base) (tx_rules s1) = List.filter (is_authored base) (tx_rules s).
Proof.
  intros Hn (d & s0 & u & s2 & Hd & Hs & -> & _)%publish_inr.
  assert (NoDup (map row_id (tx_rules s0)) /\
    List.filter (is_authored base) (tx_rules s0) = List.filter (is_authored base) (tx_rules s)) as [Hn0 <-].
  { unfold ensureDefault in Hd. apply tx_bind_inr in Hd as (tab & s' & Htab & Hd). apply tx_table_inr in Htab as [-> ->].
    destruct (findDefault _ _ _); [by apply tx_ret_inr in Hd as [= _ ->]|]. apply create_inr in Hd as (-> & Hid & ->). split.
    - rewrite map_app. apply NoDup_app. split_and!; [done| |apply NoDup_singleton].
      intros x (r & -> & Hr)%elem_of_lmap Hx%list_elem_of_singleton. by apply (Hid r).
    - rewrite List.filter_app. unfold is_authored at 2. cbn. by rewrite andb_false_r, app_nil_r. }
  apply snapshot_each_inr in Hs as (rows & -> & Hs & _); [|done].
  rewrite filter_filter_comp, (filter_ext_in _ (is_authored base)), List.filter_app, (filter_none _ rows), app_nil_r; [done| |].
  - intros r Hr. unfold is_authored, draft_in. apply not_true_iff_false. intros H.
    rewrite !andb_true_iff in H. destruct H as [[_ Hd'] _]. destruct (published_base b _ _ _ Hs r Hr) as [_ Hno]. congruence.
  - intros r _. unfold retained, published_in, is_authored, draft_in, has_row_status.
    destruct (bool_decide (row_status r = js "published")) eqn:E; [|by rewrite andb_false_r, !andb_false_r].
    apply bool_decide_eq_true in E. rewrite E. rewrite (bool_decide_false (js "published" = js "draft")) by (vm_compute; discriminate).
    by rewrite !andb_false_r.
Qed.

Lemma rising_sorted p l : (forall k r, l !! k = Some r -> row_priority r = p + Z.of_nat k) -> StronglySorted before l.
Proof.
  revert p. induction l as [|x l IH]; intros p Hl; constructor.
  - apply (IH (p + 1)). intros k r Hk. rewrite (Hl (S k) r Hk). lia.
  - apply Forall_forall. intros y (k & Hk)%list_elem_of_lookup. unfold before. rewrite (Hl 0%nat x eq_refl), (Hl (S k) y Hk). lia.
Qed.

(** The rows a list of identifiers names. *)
Lemma rows_named (table : list RuleRow) ids :
  (forall i, i ∈ ids -> exists r, r ∈ table /\ row_id r = i) ->
  exists l, map row_id l = ids /\ forall r, r ∈ l -> r ∈ table.
Proof.
  induction ids as [|i ids IH]; intros Hids; [exists []; split; [done|by intros r Hr%elem_of_nil]|].
  destruct IH as (l & Hl & Hin); [intros j Hj; apply Hids; by right|]. destruct (Hids i) as (r & Hr & Hi); [by left|].
  exists (r :: l). cbn. rewrite Hi, Hl. split; [done|]. intros x [->|Hx]%elem_of_cons; [done|by apply Hin].
Qed.

Lemma ordered_keeps base p ids r :
  draft_in base (ordered p ids r) = draft_in base r /\ row_isDefault (ordered p ids r) = row_isDefault r /\
  row_id (ordered p ids r) = row_id r /\ with_priority 0 (ordered p ids r) = with_priority 0 r.
Proof.
  revert p r. induction ids as [|i ids IH]; intros p r; [done|]. cbn [ordered].
  destruct (IH (p + 1) (if bool_decide (row_id r = i) then with_priority p r else r)) as (-> & -> & -> & ->).
  by destruct (bool_decide (row_id r = i)).
Qed.

(** The authored rules of a reordered draft are the named ones, in the order
    named. *)
Lemma reordered_rows base ids table :
  ready base table -> namesEveryRuleOnce base ids table = true ->
  map row_id (authored_rows base (map (ordered 1 ids) table)) = ids.
Proof.
  intros Hk Hnames. pose proof (reorder_ready _ _ _ Hk Hnames) as Hk'. pose proof (ready_ids _ _ Hk) as Hn.
  apply names_every in Hnames as [Hd Hids].
  destruct (rows_named table ids) as (l & Hl & Hin). { intros i (r & Hr & Hi & _)%Hids. by exists r. }
  assert (authored_rows base (map (ordered 1 ids) table) = map (ordered 1 ids) l) as ->.
  2: { rewrite map_map. transitivity (map row_id l); [|done]. apply map_ext. intros r. apply (ordered_keeps base). }
  apply (StronglySorted_unique_strong before); [unfold before; intros; lia|..].
  - rewrite authored_rows_sorted. apply sorted_before; [apply js_sort_sorted; [apply row_leb_total|apply row_leb_trans]|].
    rewrite (Permutation_map row_priority (js_sort_Permutation _ _)). unfold is_authored. rewrite <- filter_filter_comp.
    apply NoDup_map_filter, (dk_priorities _ _ (ready_drafts _ _ Hk' base)).
  - apply (rising_sorted 1). intros k r Hk1. rewrite list_lookup_fmap in Hk1. apply fmap_Some in Hk1 as (x & Hx & ->).
    rewrite (ordered_at 1 ids k x Hd); [done|]. rewrite <- Hl, list_lookup_fmap, Hx. done.
  - assert (map row_id (map (ordered 1 ids) l) = ids) as Hol.
    { rewrite map_map, <- Hl. apply map_ext. intros r. apply (ordered_keeps base). }
    apply NoDup_Permutation.
    + rewrite authored_rows_sorted, js_sort_Permutation. apply NoDup_ListNoDup, List.NoDup_filter, NoDup_ListNoDup.
      apply (NoDup_fmap_1 row_id), (ready_ids _ _ Hk').
    + apply (NoDup_fmap_1 row_id). change (NoDup (map row_id (map (ordered 1 ids) l))). by rewrite Hol.
    + intros r. rewrite authored_rows_sorted, js_sort_elem_of, elem_of_lfilter, !elem_of_lmap. unfold is_authored. split.
      * intros [(x & -> & Hx) Ha]. exists x. split; [done|].
        destruct (ordered_keeps base 1 ids x) as (E1 & E2 & _). rewrite E1, E2 in Ha. apply andb_true_iff in Ha as [Ha Hdef%negb_true_iff].
        assert (row_id x ∈ ids) as Hi by (apply Hids; by exists x). rewrite <- Hl in Hi. apply elem_of_lmap in Hi as (y & Hy & Hyl).
        by rewrite (NoDup_fmap_elem_eq row_id table x y Hn Hx (Hin y Hyl) Hy).
      * intros (x & -> & Hx). destruct (ordered_keeps base 1 ids x) as (-> & -> & _).
        split; [exists x; split; [done|by apply Hin]|].
        destruct (proj1 (Hids (row_id x))) as (y & Hy & He & Hyd & Hydef); [rewrite <- Hl; apply elem_of_lmap; by exists x|].
        rewrite <- (NoDup_fmap_elem_eq row_id table y x Hn Hy (Hin x Hx) He), Hyd, Hydef. done.
Qed.

Lemma authored_rows_elem base table r : r ∈ authored_rows base table <-> r ∈ table /\ draft_in base r = true /\ row_isDefault r = false.
Proof.
  rewrite authored_rows_sorted, js_sort_elem_of, elem_of_lfilter. unfold is_authored. by rewrite andb_true_iff, negb_true_iff.
Qed.

Lemma authored_rows_ids base table : NoDup (map row_id table) -> NoDup (map row_id (authored_rows base table)).
Proof.
  intros Hn. rewrite authored_rows_sorted, (Permutation_map row_id (js_sort_Permutation _ _)). by apply NoDup_map_filter.
Qed.

Lemma js_dedup_id (l : list jsstr) : NoDup l -> js_dedup l ≡ₚ l.
Proof. intros Hl. apply NoDup_Permutation; [apply js_dedup_NoDup|done|]. intros x. apply js_dedup_elem_of. Qed.

(** The check asks for exactly the draft's rules, in any order. *)
Lemma names_every_iff base ids table :
  NoDup (map row_id table) ->
  namesEveryRuleOnce base ids table = true <-> ids ≡ₚ map row_id (authored_rows base table).
Proof.
  intros Hn. split.
  - intros [Hd Hids]%names_every. apply NoDup_Permutation; [done|by apply authored_rows_ids|]. intros i.
    rewrite Hids, elem_of_lmap. setoid_rewrite authored_rows_elem. naive_solver.
  - intros Hp. assert (NoDup ids) as Hd by (rewrite Hp; by apply authored_rows_ids).
    unfold namesEveryRuleOnce. fold (is_authored base).
    assert (map row_id (authored_rows base table) ≡ₚ map row_id (List.filter (is_authored base) table)) as Ha.
    { rewrite authored_rows_sorted. apply Permutation_map, js_sort_Permutation. }
    rewrite Hp in Hd. rewrite Ha in Hp, Hd. rewrite !andb_true_iff, !Nat.eqb_eq. split_and!.
    + by rewrite (Permutation_length (js_dedup_id _ Hd)), Hp.
    + apply Permutation_length, js_dedup_id. by rewrite Hp.
    + apply forallb_forall. intros i Hi%list_elem_of_In. apply bool_decide_eq_true. by rewrite Hp in Hi.
Qed.

Lemma reordered_elsewhere base other ids table :
  ready base table -> namesEveryRuleOnce base ids table = true -> other <> base ->
  authored_rows other (map (ordered 1 ids) table) = authored_rows other table.
Proof.
  intros Hk [_ Hids]%names_every Hne. rewrite !authored_rows_sorted, filter_map_comp. f_equal.
  rewrite (filter_ext _ (is_authored other)).
  2: { intros r. unfold is_authored. destruct (ordered_keeps other 1 ids r) as (-> & -> & _). done. }
  rewrite <- (map_id (List.filter _ table)) at 2. apply map_ext_in. intros r Hr%list_elem_of_In. apply ordered_out.
  apply elem_of_lfilter in Hr as [Hr Ha]. intros (x & Hx & He & Hd & _)%Hids.
  rewrite (NoDup_fmap_elem_eq row_id table x r (ready_ids _ _ Hk) Hx Hr He) in Hd.
  apply Hne. unfold is_authored, draft_in in Ha. unfold draft_in in Hd. rewrite !andb_true_iff in *.
  eapply in_base_unique; [apply Ha|apply Hd].
Qed.

