(* ===== verification/PolicyDeletion.v ===== *)
(** * Deleted principals

    A rule names principals of its own level only, agents of its workspace or
    users and groups of its organization; so a deletion drops every rule that
    named nobody else, and nobody else's decision changes. *)
From S2P Require Import Prelude PolicyTypes JsJson Catalog Evaluator PolicyRows Grants ResourceAxis LoadRules EffectiveTools PolicyAuthoring PolicyBlocklist PolicyPublish PolicyWrites PolicyLockstep PolicyRuns.
Local Open Scope Z_scope.

(** ** Properties of every row *)

Section Rows.
Context (J : RuleRow -> Prop).

Definition all_rows (table : list RuleRow) : Prop := forall r, r ∈ table -> J r.

(** A transaction that keeps [J] on every row and answers within [Q]. *)
Definition holds {A} (p : tx A) (Q : A -> Prop) : Prop :=
  forall m s a s1, all_rows (tx_rules s) -> p m s = inr (a, s1) -> Q a /\ all_rows (tx_rules s1).

Lemma holds_ret {A} (a : A) (Q : A -> Prop) : Q a -> holds (mret a) Q.
Proof. intros HQ m s a' s1 Hs [= -> ->]%tx_ret_inr. done. Qed.

Lemma holds_bind {A B} (p : tx A) (f : A -> tx B) (R : A -> Prop) (Q : B -> Prop) :
  holds p R -> (forall a, R a -> holds (f a) Q) -> holds (p ≫= f) Q.
Proof.
  intros Hp Hf m s b s1 Hs H. apply tx_bind_inr in H as (a & s0 & Ha & H). destruct (Hp _ _ _ _ Hs Ha) as [HR Hs0].
  by apply (Hf a HR m s0).
Qed.

Lemma holds_table : holds tx_table all_rows.
Proof. intros m s a s1 Hs [-> ->]%tx_table_inr. done. Qed.

Lemma holds_throw {A} x (Q : A -> Prop) : holds (tx_throw x) Q.
Proof. by intros m s a s1 _. Qed.

Lemma holds_rethrow {A} h (p : tx A) Q : holds p Q -> holds (rethrow h p) Q.
Proof. intros Hp m s a s1 Hs H%rethrow_inr. by apply (Hp m s). Qed.

Lemma holds_create build : (forall ids, J (build ids)) -> holds (create build) J.
Proof.
  intros Hb m s a s1 Hs (-> & _ & E)%create_inr. split; [done|]. rewrite E.
  intros r [Hr|Hr%list_elem_of_singleton]%elem_of_app; [by apply Hs|]. subst. done.
Qed.

Lemma holds_update i data : (forall r, J r -> J (data r)) -> holds (update i data) (fun _ => True).
Proof.
  intros Hd m s a s1 Hs H%update_inr. split; [done|]. rewrite H. intros r (x & -> & Hx)%elem_of_lmap.
  destruct (bool_decide _); [by apply Hd, Hs|by apply Hs].
Qed.

Lemma holds_delete cond : holds (deleteMany cond) (fun _ => True).
Proof. intros m s a s1 Hs [_ ->]%deleteMany_inr. split; [done|]. intros r [Hr _]%elem_of_lfilter. by apply Hs. Qed.

Lemma holds_weaken {A} (p : tx A) (Q R : A -> Prop) : holds p Q -> (forall a, Q a -> R a) -> holds p R.
Proof. intros Hp HR m s a s1 Hs H. destruct (Hp _ _ _ _ Hs H). auto. Qed.
End Rows.

(** ** Levels *)

Section Levels.
Context {E : PolicyProviders} (H : Homes).

(** An identity a rule of the scope may name. *)
Definition fits (base : PolicyScopeBase) (i : IdentityRow) : Prop :=
  match base with
  | WsBase w => exists a, i = identityCreate (DtoAgent a) /\ agentHome H a = w
  | OrgBase o => (exists u, i = identityCreate (DtoUser u)) \/ exists g, i = identityCreate (DtoGroup g) /\ groupHome H g = o
  end.

Definition leveled (r : RuleRow) : Prop := forall i, i ∈ row_identities r -> exists base, in_base base r = true /\ fits base i.

(** *** The ownership check *)

Lemma verified {A} (key : A -> jsstr) (cond : A -> bool) rows ids x :
  NoDup (map key rows) ->
  verify ids (length (List.filter (fun r => bool_decide (key r ∈ ids) && cond r) rows)) x = inr () ->
  forall i, i ∈ ids -> exists r, r ∈ rows /\ key r = i /\ cond r = true.
Proof.
  intros Hn Hv i Hi. unfold verify, guard in Hv. destruct (_ || _) eqn:Hc; [|done]. apply orb_true_iff in Hc as [Hc|Hc%Nat.eqb_eq].
  { apply Nat.eqb_eq, nil_length_inv in Hc. subst. by apply elem_of_nil in Hi. }
  set (L := map key (List.filter (fun r => bool_decide (key r ∈ ids) && cond r) rows)).
  assert (i ∈ L) as (r & -> & [Hr [_ Hcond]%andb_true_iff]%elem_of_lfilter)%elem_of_lmap; [|by exists r].
  apply list_elem_of_In, (List.NoDup_length_incl (l := L) (l' := ids)); [by apply NoDup_ListNoDup, NoDup_map_filter| | |by apply list_elem_of_In].
  - unfold L. by rewrite length_map, Hc.
  - intros x' (r & -> & [_ [Hb _]%andb_true_iff]%elem_of_lfilter)%list_elem_of_In%elem_of_lmap. apply list_elem_of_In.
    by apply bool_decide_eq_true in Hb.
Qed.

Lemma guard_inr ok x u : guard ok x = inr u -> ok = true.
Proof. by destruct ok. Qed.

Lemma identities_fit tb base ids d :
  homed H tb -> assertIdentitiesValid tb base ids = inr () -> d ∈ dedupeIdentities ids -> fits base (identityCreate d).
Proof.
  intros (Hna & Hng & Ha & Hg) Hv Hd. unfold assertIdentitiesValid in Hv. destruct (dedupeIdentities ids) as [|d0 ds] eqn:El; [by apply elem_of_nil in Hd|].
  rewrite <- El in *. clear El. apply result_bind_inr in Hv as ([] & Hws%guard_inr & Hv). apply result_bind_inr in Hv as ([] & Horg%guard_inr & Hv).
  apply result_bind_inr in Hv as (o & Ho & Hv). apply result_bind_inr in Hv as ([] & Hva & Hv). apply result_bind_inr in Hv as ([] & _ & Hvg).
  assert (forall a, d = DtoAgent a -> a ∈ agent_ids (dedupeIdentities ids)) as Hina.
  { intros a ->. apply list_elem_of_omap. by exists (DtoAgent a). }
  assert (forall u, d = DtoUser u -> u ∈ user_ids (dedupeIdentities ids)) as Hinu.
  { intros u ->. apply list_elem_of_omap. by exists (DtoUser u). }
  assert (forall g, d = DtoGroup g -> g ∈ group_ids (dedupeIdentities ids)) as Hing.
  { intros g ->. apply list_elem_of_omap. by exists (DtoGroup g). }
  assert (forall (l : list jsstr) x, (length l =? 0)%nat = true -> x ∈ l -> False) as Hnil.
  { intros l x Hl%Nat.eqb_eq%nil_length_inv Hx. subst. by apply elem_of_nil in Hx. }
  destruct base as [org|w]; cbn [fits] in *.
  - destruct d as [a|u|g]; [exfalso; by eapply Hnil, Hina|left; by exists u|right; exists g; split; [done|]].
    destruct (verified gr_id _ _ _ _ Hng Hvg g (Hing g eq_refl)) as (r & Hr & <- & Hor).
    apply bool_decide_eq_true in Hor. rewrite <- (Hg r Hr), Hor. cbn in Ho. destruct org; [done|]. by injection Ho.
  - apply andb_true_iff in Hws as [Hu Hgr]. destruct d as [a|u|g]; [|exfalso; by eapply (Hnil _ u), Hinu|exfalso; by eapply (Hnil _ g), Hing].
    exists a. split; [done|]. destruct (verified agr_id _ _ _ _ Hna Hva a (Hina a eq_refl)) as (r & Hr & <- & Hw).
    apply bool_decide_eq_true in Hw. by rewrite <- (Ha r Hr).
Qed.
(** *** Every write *)

Lemma leveled_row base r : in_base base r = true -> (forall i, i ∈ row_identities r -> fits base i) -> leveled r.
Proof. intros Hb Hf i Hi. exists base. split; [done|by apply Hf]. Qed.

Lemma leveled_principal r i : leveled r -> i ∈ row_identities r -> one_principal i.
Proof.
  intros Hr Hi. destruct (Hr i Hi) as ([o|w] & _ & Hf); cbn in Hf.
  - destruct Hf as [[u ->]|(g & -> & _)]; [by exists (DtoUser u)|by exists (DtoGroup g)].
  - destruct Hf as (a & -> & _). by exists (DtoAgent a).
Qed.

Lemma leveled_fits base r i : leveled r -> in_base base r = true -> i ∈ row_identities r -> fits base i.
Proof. intros Hr Hb Hi. destruct (Hr i Hi) as (b & Hb' & Hf). by rewrite (in_base_unique _ _ _ Hb Hb'). Qed.

Lemma leveled_keys r r' :
  leveled r -> row_scope r' = row_scope r -> row_organizationId r' = row_organizationId r -> row_workspaceId r' = row_workspaceId r ->
  (forall i, i ∈ row_identities r' -> i ∈ row_identities r) -> leveled r'.
Proof.
  intros Hr Es Eo Ew Hi i Hin. destruct (Hr i (Hi i Hin)) as (b & Hb & Hf). exists b. split; [|done].
  unfold in_base in *. by rewrite Es, Eo, Ew.
Qed.

Lemma ensureDefault_leveled b : holds leveled (ensureDefault b) (fun _ => True).
Proof.
  eapply holds_bind; [apply holds_table|]. intros table _. destruct (findDefault _ _ _); [by apply holds_ret|].
  eapply holds_weaken; [apply holds_create|done]. intros ids i Hi. by apply elem_of_nil in Hi.
Qed.

Lemma snapshot_leveled b g ds :
  (forall d, d ∈ ds -> leveled d /\ in_base b d = true) -> holds leveled (snapshot_each b g ds) (fun _ => True).
Proof.
  induction ds as [|d ds IH]; intros Hds; cbn [snapshot_each]; [by apply holds_ret|].
  destruct (mapM identityRowToCreate (row_identities d)) as [ids|] eqn:Hids; [|apply holds_throw].
  destruct (Hds d ltac:(by left)) as [Hd Hb].
  apply identities_copied in Hids as ->; [|intros i; by apply leveled_principal].
  eapply holds_bind; [apply holds_create|intros r _; apply IH; intros x Hx; apply Hds; by right].
  intros pair. apply (leveled_row b); [destruct b; cbn; by rewrite !bool_decide_true|]. intros i. by apply (leveled_fits b d).
Qed.

Lemma publish_leveled b : holds leveled (publishDraftInTx b) (fun _ => True).
Proof.
  eapply holds_bind; [apply ensureDefault_leveled|]. intros d _. eapply holds_bind; [apply holds_table|]. intros table Ht.
  eapply holds_bind; [apply holds_table|]. intros table' _. eapply holds_bind; [apply snapshot_leveled|].
  - intros r. rewrite js_sort_elem_of, elem_of_lfilter. intros [Hr Hd]. split; [by apply Ht|].
    unfold draft_in in Hd. by apply andb_true_iff in Hd as [? _].
  - intros _ _. apply (holds_bind _ _ _ (fun _ => True)); [|intros _ _; by apply holds_ret]. destruct (_ <? _); [|by apply holds_ret].
    eapply holds_bind; [apply holds_delete|intros n _; by apply holds_ret].
Qed.

Lemma append_leveled w a creates : agentHome H a = w -> holds leveled (appendGrantRulesInTx w a creates) (fun _ => True).
Proof.
  intros Ha. eapply holds_bind; [apply holds_table|]. intros table _. generalize (tailPriority w table + 1). clear table.
  induction creates as [|[rule target] creates IH]; intros p; cbn [grant_builds create_each]; [by apply holds_ret|].
  eapply holds_bind; [apply holds_create|].
  - intros ids. apply (leveled_row (WsBase w)); [cbn; by rewrite !bool_decide_true|]. intros i Hi%list_elem_of_singleton. subst. by exists a.
  - intros row _. eapply holds_bind; [apply IH|]. intros ids _. by apply holds_ret.
Qed.

Lemma prioritize_leveled p ids : holds leveled (prioritize p ids) (fun _ => True).
Proof.
  revert p. induction ids as [|i ids IH]; intros p; cbn [prioritize]; [by apply holds_ret|].
  eapply holds_bind; [apply holds_update|intros _ _; apply IH]. intros r Hr. by apply (leveled_keys r).
Qed.

Lemma backfill_leveled b rules :
  (forall r, r ∈ rules -> bf_identities r = []) -> holds leveled (backfill_each b rules) (fun _ => True).
Proof.
  induction rules as [|r rules IH]; intros Hr; cbn [backfill_each]; [by apply holds_ret|].
  assert (forall st ids, leveled (backfillRow b st r ids)) as Hrow.
  { intros st ids i. cbn. rewrite (Hr r) by (by left). by intros Hi%elem_of_nil. }
  eapply holds_bind; [apply holds_create; intros ids; apply Hrow|]. intros draft _.
  eapply holds_bind; [apply holds_create; intros ids; apply Hrow|]. intros pub _. apply IH. intros x Hx. apply Hr. by right.
Qed.

Lemma cascade_leveled p : holds leveled (cascade_principal p) (fun _ => True).
Proof.
  intros m s a s1 Hs Hc. injection Hc as _ <-. split; [done|]. intros r (x & -> & Hx)%elem_of_lmap.
  apply (leveled_keys x); try done; [by apply Hs|]. intros i. cbn. by intros [? _]%elem_of_lfilter.
Qed.

(** A write's transaction followed by a publish. *)
Lemma then_publish {A B} (p : tx A) b (f : A -> B) : holds leveled p (fun _ => True) ->
  holds leveled (a ← p; publishDraftInTx b;; mret (f a)) (fun _ => True).
Proof.
  intros Hp. eapply holds_bind; [exact Hp|]. intros a _. eapply holds_bind; [apply publish_leveled|]. intros _ _. by apply holds_ret.
Qed.

Lemma create_leveled tb scope input t :
  homed H tb -> createPolicyRule tb scope input = inr t -> holds leveled t (fun _ => True).
Proof.
  intros Htb Ht. unfold createPolicyRule in Ht. apply result_bind_inr in Ht as (b & Hb & Ht).
  apply result_bind_inr in Ht as ([] & Hids & Ht). checks Ht. injection Ht as <-. apply holds_rethrow.
  eapply holds_bind; [apply holds_table|]. intros table _. apply (then_publish (create _) b (fun r => r)).
  eapply holds_weaken; [apply holds_create|done]. intros ids. apply (leveled_row b).
  - pose proof (created_in b (lastPriority b table + 1) input ids) as Hd. unfold draft_in in Hd. by apply andb_true_iff in Hd as [? _].
  - intros i (d & -> & Hd)%elem_of_lmap. by apply (identities_fit tb b (default [] (ci_identities input))).
Qed.

Lemma update_leveled tb read scope i input t m table a s :
  homed H tb -> updatePolicyRule tb read scope i input = inr t ->
  (forall base r, policyScope scope = inr base -> r ∈ table -> row_id r = i -> authored base i r = true) ->
  all_rows leveled table -> t m (mkTx table 0) = inr (a, s) -> all_rows leveled (tx_rules s).
Proof.
  intros Htb Ht Hname Hl Hrun. unfold updatePolicyRule in Ht. apply result_bind_inr in Ht as (b & Hb & Ht).
  destruct (List.find _ read) as [existing|]; [|done]. apply result_bind_inr in Ht as ([] & _ & Ht).
  apply result_bind_inr in Ht as ([] & Hids & Ht). checks Ht. injection Ht as <-.
  apply rethrow_inr, tx_bind_inr in Hrun as (r & s1 & Hr & Hrun). apply update_inr in Hr. cbn [tx_rules] in Hr.
  apply tx_bind_inr in Hrun as (res & s2 & Hpub & Hrun). apply tx_ret_inr in Hrun as [= -> ->].
  eapply publish_leveled; [|exact Hpub]. rewrite Hr. intros x' (x & -> & Hx)%elem_of_lmap.
  destruct (bool_decide (row_id x = i)) eqn:Ei; [|by apply Hl]. apply bool_decide_eq_true in Ei.
  destruct (ui_identities input) as [ids|] eqn:Eids.
  - apply (leveled_row b).
    + pose proof (Hname b x Hb Hx Ei) as Hau. destruct (authored_draft _ _ _ Hau) as (Hd & _).
      unfold draft_in in Hd. apply andb_true_iff in Hd as [Hd _]. by unfold in_base in *.
    + intros j. cbn. rewrite Eids. intros (d & -> & Hd)%elem_of_lmap. by apply (identities_fit tb b ids).
  - apply (leveled_keys x); try done; [by apply Hl|]. intros j. cbn. by rewrite Eids.
Qed.

Lemma delete_leveled scope i t : deletePolicyRule scope i = inr t -> holds leveled t (fun _ => True).
Proof.
  intros Ht. unfold deletePolicyRule in Ht. apply result_bind_inr in Ht as (b & _ & Ht). injection Ht as <-.
  eapply holds_bind; [apply holds_delete|]. intros n _. apply (then_publish _ b (fun _ => tt)).
  destruct (_ =? _)%nat; [apply holds_throw|by apply holds_ret].
Qed.
Lemma reorder_leveled scope ids t : reorderPolicyRules scope ids = inr t -> holds leveled t (fun _ => True).
Proof.
  intros Ht. unfold reorderPolicyRules in Ht. apply result_bind_inr in Ht as (b & _ & Ht). injection Ht as <-. apply holds_rethrow.
  eapply holds_bind; [apply holds_table|]. intros table _. apply (holds_bind _ _ _ (fun _ => True)).
  - destruct (namesEveryRuleOnce _ _ _); [by apply holds_ret|apply holds_throw].
  - intros _ _. apply (then_publish (prioritize 1 ids) b (fun _ => tt)), prioritize_leveled.
Qed.

Lemma default_leveled scope a t : setPolicyDefaultAction scope a = inr t -> holds leveled t (fun _ => True).
Proof.
  intros Ht. unfold setPolicyDefaultAction in Ht. apply result_bind_inr in Ht as (b & _ & Ht). injection Ht as <-.
  eapply holds_bind; [apply ensureDefault_leveled|]. intros d _. apply (then_publish (update _ _) b (fun r => r)), holds_update.
  intros r Hr. by apply (leveled_keys r).
Qed.

Lemma publishPolicy_leveled scope t : publishPolicy scope = inr t -> holds leveled t (fun _ => True).
Proof. intros Ht. unfold publishPolicy in Ht. apply result_bind_inr in Ht as (b & _ & Ht). injection Ht as <-. apply publish_leveled. Qed.

Lemma seed_leveled scope t : backfillPublishScope scope [ALLOW_DEFAULT] = inr t -> holds leveled t (fun _ => True).
Proof.
  intros Ht. unfold backfillPublishScope in Ht. apply result_bind_inr in Ht as (b & _ & Ht). injection Ht as <-.
  eapply holds_bind; [apply holds_table|]. intros table _. destruct (0 <? _)%nat; [by apply holds_ret|].
  apply (holds_bind _ (backfill_each b [ALLOW_DEFAULT]) _ (fun _ => True)); [|intros _ _; by apply holds_ret].
  apply backfill_leveled. by intros r ->%list_elem_of_singleton.
Qed.

Lemma replace_leveled w a names creates : agentHome H a = w -> holds leveled (replaceAndPublish w a names creates) (fun _ => True).
Proof.
  intros Ha. eapply holds_bind; [apply holds_delete|]. intros n _. eapply holds_bind; [by apply append_leveled|]. intros ids _.
  eapply holds_bind; [apply publish_leveled|]. intros p _. by apply holds_ret.
Qed.

Lemma attach_leveled w a c desired : agentHome H a = w -> holds leveled (attachIfAbsent w a c desired) (fun _ => True).
Proof.
  intros Ha. eapply holds_bind; [apply holds_table|]. intros table _. destruct (readGrantRows _ _ _ _); [|by apply holds_ret].
  apply (then_publish (appendGrantRulesInTx _ _ _) (WsBase w) (fun _ => true)). by apply append_leveled.
Qed.

Lemma principal_leveled p : holds leveled (deletePrincipal p) (fun _ => True).
Proof.
  eapply holds_bind; [|intros os _; eapply holds_bind; [apply cascade_leveled|intros _ _; by apply holds_ret]].
  eapply holds_bind; [apply holds_table|]. intros table _. eapply holds_bind; [apply holds_delete|]. intros n _.
  by apply (holds_ret _ _ (fun _ => True)).
Qed.

Lemma shift_leveled b generation p : holds leveled (shiftDown b generation p) (fun _ => True).
Proof.
  intros m s a s1 Hs Hc. injection Hc as _ <-. split; [done|]. intros r (x & -> & Hx)%elem_of_lmap.
  destruct (_ && _ && _); [|by apply Hs]. apply (leveled_keys x); try done. by apply Hs.
Qed.

Lemma block_leveled b generation l name host : holds leveled (createBlockRule b generation l name host) (fun _ => True).
Proof.
  eapply holds_bind; [apply holds_table|]. intros table _. eapply holds_bind; [apply shift_leveled|]. intros _ _.
  eapply holds_weaken; [apply holds_create|done]. intros ids i Hi. by apply elem_of_nil in Hi.
Qed.

Lemma block_each_leveled b generation hosts : holds leveled (block_each b generation hosts) (fun _ => True).
Proof.
  induction hosts as [|h hosts IH]; cbn [block_each]; [by apply holds_ret|].
  apply (holds_bind _ _ _ (fun _ => True)); [intros m s a s1 Hs Hc; by injection Hc as _ <-|]. intros l _.
  eapply holds_bind; [apply block_leveled|]. intros _ _. apply (holds_bind _ _ _ (fun _ => True)); [|intros _ _; exact IH].
  destruct generation; [|by apply holds_ret]. eapply holds_bind; [apply block_leveled|intros _ _; by apply holds_ret].
Qed.

Lemma live_leveled b : holds leveled (liveGeneration b) (fun _ => True).
Proof. eapply holds_bind; [apply holds_table|intros table _; by apply holds_ret]. Qed.

Lemma blocks_leveled read scope hosts t : initBlocklistDefaults read scope hosts = inr (Some t) -> holds leveled t (fun _ => True).
Proof.
  intros Ht. unfold initBlocklistDefaults in Ht. destruct hosts as [|h hosts]; [done|].
  apply result_bind_inr in Ht as (base & _ & Ht). unfold mret, result_ret in Ht.
  destruct (missing_hosts base read (h :: hosts)) as [|h' hosts']; [done|].
  assert (t = (generation ← liveGeneration base; block_each base generation (h' :: hosts'))) as -> by congruence.
  eapply holds_bind; [apply live_leveled|]. intros g _. apply block_each_leveled.
Qed.

Lemma toggle_leveled read scope i e t : toggleBlocklistRule read scope i e = inr t -> holds leveled t (fun _ => True).
Proof.
  intros Ht. unfold toggleBlocklistRule in Ht. apply result_bind_inr in Ht as (b & _ & Ht). apply result_bind_inr in Ht as (rule & _ & Ht).
  injection Ht as <-. eapply holds_bind; [apply live_leveled|]. intros g _ m s a s1 Hs Hc. injection Hc as _ <-. split; [done|].
  intros r (x & -> & Hx)%elem_of_lmap. destruct (_ && _); [|by apply Hs]. apply (leveled_keys x); try done. by apply Hs.
Qed.

Lemma unblock_leveled b ids t : deleteByLogicalIds b ids = Some t -> holds leveled t (fun _ => True).
Proof.
  intros Ht. unfold deleteByLogicalIds in Ht. destruct ids as [|i ids]; [done|]. injection Ht as <-.
  eapply holds_bind; [apply live_leveled|]. intros g _. eapply holds_bind; [apply holds_delete|]. intros n _. by apply holds_ret.
Qed.

Lemma holds_run {A} (t : tx A) m table a s :
  holds leveled t (fun _ => True) -> all_rows leveled table -> t m (mkTx table 0) = inr (a, s) -> all_rows leveled (tx_rules s).
Proof. intros Ht Hl Hrun. by apply (Ht m (mkTx table 0) a s). Qed.

Lemma write_leveled {A} (t : tx A) m table a s :
  policy_write H table t -> all_rows leveled table -> t m (mkTx table 0) = inr (a, s) -> all_rows leveled (tx_rules s).
Proof.
  intros Hw Hl. revert a s. destruct Hw; intros x s'; [| |apply holds_run; [|exact Hl]..].
  - apply holds_run; [by eapply create_leveled|exact Hl].
  - by eapply update_leveled.
  - by eapply delete_leveled.
  - by eapply reorder_leveled.
  - by eapply default_leveled.
  - by eapply publishPolicy_leveled.
  - by eapply seed_leveled.
  - by apply replace_leveled.
  - by apply replace_leveled.
  - by apply attach_leveled.
  - by apply principal_leveled.
  - by eapply blocks_leveled.
  - by eapply toggle_leveled.
  - by eapply unblock_leveled.
Qed.

Lemma step_leveled table table' : all_rows leveled table -> policy_step H table table' -> all_rows leveled table'.
Proof.
  intros Hl Hs. destruct Hs; [by eapply write_leveled| |].
  - intros r (x & -> & Hx)%elem_of_lmap. apply (leveled_keys x); try done. by apply Hl.
  - intros r [Hr _]%elem_of_lfilter. by apply Hl.
Qed.

Lemma run_leveled table : policy_run H [] table -> all_rows leveled table.
Proof.
  enough (forall t t', policy_run H t t' -> all_rows leveled t -> all_rows leveled t') as Hrun
    by (intros; eapply Hrun; [done|by intros r Hr%elem_of_nil]).
  induction 1 as [|t t1 t2 Hs _ IH]; [done|]. intros Hl. apply IH. by eapply step_leveled.
Qed.
End Levels.
