(* ===== verification/PolicyForget.v ===== *)
(** * Nobody else notices

    Deleting a principal, its policy rules first, changes no decision about
    any other principal. *)
From S2P Require Import Prelude PolicyTypes JsJson Catalog Evaluator PolicyRows Grants ResourceAxis LoadRules EffectiveTools PolicyAuthoring PolicyBlocklist PolicyPublish PolicyWrites PolicyLockstep PolicyRuns PolicyDeletion.
Local Open Scope Z_scope.

(** ** Thinning a rule set *)

Definition naming (ids : list NewIdentity) (r : NewRule) : NewRule :=
  {| rl_scope := rl_scope r; rl_priority := rl_priority r; rl_isDefault := rl_isDefault r; rl_source := rl_source r;
     rl_name := rl_name r; rl_identities := ids; rl_targets := rl_targets r; rl_action := rl_action r;
     rl_requireApproval := rl_requireApproval r; rl_rateLimit := rl_rateLimit r; rl_rateLimitWindow := rl_rateLimitWindow r;
     rl_conditions := rl_conditions r |}.

Lemma find_ext_In {A} (P Q : A -> bool) l : (forall x, x ∈ l -> P x = Q x) -> List.find P l = List.find Q l.
Proof.
  induction l as [|x l IH]; intros Hl; [done|]. cbn. rewrite (Hl x) by (by left).
  by rewrite IH by (intros y Hy; apply Hl; by right).
Qed.

(** Rules dropped that do not match the request, and renamed ones that match it
    as before. *)
Section Thin.
Context (reg : Registry) `{JsCase} {A : Type} (F : A -> NewRule) (ids : A -> list NewIdentity) (K : A -> bool) (rows : list A).
Context (rq : PolicyRequest).
Let G (a : A) : NewRule := naming (ids a) (F a).
Context (kept_matches : forall a, a ∈ rows -> K a = true -> identityMatches (G a) rq = identityMatches (F a) rq).
Context (gone_silent : forall a, a ∈ rows -> K a = false -> rl_isDefault (F a) = false /\ identityMatches (F a) rq = false).

Lemma thin_default s :
  List.find (is_default_of s) (map G (List.filter K rows)) = G <$> List.find (fun a => is_default_of s (F a)) rows.
Proof.
  rewrite find_map_comp, find_filter. f_equal. apply find_ext_In. intros a Ha.
  change (is_default_of s (G a)) with (is_default_of s (F a)). destruct (K a) eqn:E; [done|].
  destruct (gone_silent a Ha E) as [Hd _]. unfold is_default_of. by rewrite Hd.
Qed.

Lemma thin_match s :
  List.find (fun r => is_explicit_of s r && ruleMatches reg r rq) (js_sort priority_leb (map G (List.filter K rows))) =
  G <$> List.find (fun a => is_explicit_of s (F a) && ruleMatches reg (F a) rq) (js_sort (fun x y => priority_leb (F x) (F y)) rows).
Proof.
  rewrite js_sort_map, find_map_comp. f_equal. change (fun x y => priority_leb (G x) (G y)) with (fun x y => priority_leb (F x) (F y)).
  rewrite (js_sort_filter (fun x y => priority_leb (F x) (F y))) by (intros; apply priority_leb_total || eapply priority_leb_trans; eassumption).
  rewrite find_filter. apply find_ext_In. intros a. rewrite js_sort_elem_of. intros Ha.
  change (is_explicit_of s (G a)) with (is_explicit_of s (F a)). unfold ruleMatches.
  change (rl_targets (G a)) with (rl_targets (F a)).
  change (fun t => targetMatches reg t (G a) rq) with (fun t => targetMatches reg t (F a) rq). destruct (K a) eqn:E.
  - by rewrite kept_matches.
  - destruct (gone_silent a Ha E) as [_ ->]. by rewrite andb_false_r.
Qed.

Lemma evaluate_thinned : evaluateNew reg (map G (List.filter K rows)) rq = evaluateNew reg (map F rows) rq.
Proof.
  assert (forall s, List.find (is_default_of s) (map F rows) = F <$> List.find (fun a => is_default_of s (F a)) rows) as Hd
    by (intros s; apply find_map_comp).
  assert (forall s, List.find (fun r => is_explicit_of s r && ruleMatches reg r rq) (js_sort priority_leb (map F rows)) =
    F <$> List.find (fun a => is_explicit_of s (F a) && ruleMatches reg (F a) rq) (js_sort (fun x y => priority_leb (F x) (F y)) rows)) as Hm
    by (intros s; by rewrite js_sort_map, find_map_comp).
  unfold evaluateNew. rewrite !evaluate_levels. unfold level_verdict, deny_default, default_armed.
  rewrite !firstMatch_find, !thin_match, !Hm, !thin_default, !Hd.
  generalize (List.find (fun a => is_default_of organization (F a)) rows) (List.find (fun a => is_default_of workspace (F a)) rows).
  generalize (List.find (fun a => is_explicit_of organization (F a) && ruleMatches reg (F a) rq) (js_sort (fun x y => priority_leb (F x) (F y)) rows)).
  generalize (List.find (fun a => is_explicit_of workspace (F a) && ruleMatches reg (F a) rq) (js_sort (fun x y => priority_leb (F x) (F y)) rows)).
  intros wm om od wd. assert (forall a, strictnessRank (G a) = strictnessRank (F a)) as Hr by done.
  assert (forall o : option A, blocks (G <$> o) = blocks (F <$> o)) as Hb by (by intros [a|]). rewrite !Hb.
  destruct (blocks (F <$> wd) && enforce_deny rq), (blocks (F <$> od) && enforce_deny rq);
    destruct wm as [w|], om as [o|]; cbn [fmap option_fmap option_map lm_rule]; unfold combine_levels, verdict_rank;
    rewrite ?Hr; repeat match goal with |- context [(?x <? ?y)%nat] => destruct (x <? y)%nat end; done.
Qed.
End Thin.

(** ** What a deletion leaves *)

Definition cascaded (p : DeletedPrincipal) (r : RuleRow) : RuleRow :=
  with_identities (List.filter (fun i => negb (names_principal p i)) (row_identities r)) r.

Definition stays (p : DeletedPrincipal) (r : RuleRow) : bool := negb (dropped p r).

Lemma deletePrincipal_runs p m table :
  exists organizations s, deletePrincipal p m (mkTx table 0) = inr (organizations, s) /\
    tx_rules s = map (cascaded p) (List.filter (stays p) table).
Proof. destruct p; eexists _, _; (split; [reflexivity|]); reflexivity. Qed.

Lemma load_published_in table b equipment r :
  kept table -> r ∈ loadRules table b (js "published") equipment ->
  r ∈ table /\ exists d, d ∈ table /\ draft_in b d = true /\ version r = version d.
Proof.
  intros Hk Hr. destruct (kept_mirrors _ Hk b) as [Hn|(g & Hg & Hm & _)].
  - exfalso. unfold loadRules in Hr. rewrite bool_decide_true in Hr by done.
    destruct (max_generation _); [|by apply elem_of_nil in Hr].
    rewrite js_sort_elem_of in Hr. apply elem_of_lfilter in Hr as [Hr Hl]. apply (Hn r Hr). unfold load_where in Hl.
    rewrite !andb_true_iff in Hl. apply Hl.
  - rewrite (load_published _ _ _ g Hg) in Hr. apply elem_of_lfilter in Hr as [Hr _]. pose proof Hr as Hin.
    apply live_rows_in in Hin as (Hin & _). split; [done|].
    assert (version r ∈ map version (draft_rows b table)) as (d & Hv & Hd)%elem_of_lmap; [|apply draft_rows_in in Hd as [??]; by exists d].
    rewrite <- Hm. apply elem_of_lmap. by exists r.
Qed.

Lemma load_cascaded table p b equipment :
  kept table ->
  loadRules (map (cascaded p) (List.filter (stays p) table)) b (js "published") equipment =
  map (cascaded p) (List.filter (stays p) (loadRules table b (js "published") equipment)).
Proof.
  intros Hk.
  assert (max_generation (List.filter (published_in b) (map (cascaded p) (List.filter (stays p) table))) =
    max_generation (List.filter (published_in b) table)) as Hmax.
  { apply sweep_generation; try done; [exact (dropped_version p table)|exact (dropped_default p)]. }
  destruct (max_generation (List.filter (published_in b) table)) as [g|] eqn:Hg.
  - rewrite (load_published _ _ _ g Hmax), (load_published _ _ _ g Hg), sweep_live by done.
    rewrite filter_map_comp, !filter_filter_comp. f_equal. apply filter_ext. intros r. apply andb_comm.
  - unfold loadRules. rewrite bool_decide_true by done. unfold published_in in Hmax, Hg. by rewrite Hmax, Hg.
Qed.

(** ** Who a rule is about *)

Section Forget.
Context {E : PolicyProviders} (H : Homes).

(** The request is made as the principal. *)
Definition made_as (p : DeletedPrincipal) (rq : PolicyRequest) : bool :=
  match p with
  | GoneAgent a _ => bool_decide (a = rq_agentId rq)
  | GoneUser u => bool_decide (u ∈ default [] (rq_userIds rq))
  | GoneGroup g _ => bool_decide (g ∈ default [] (rq_groupIds rq))
  end.

Definition identity_matches (rq : PolicyRequest) (i : NewIdentity) : bool :=
  match i with
  | IdAgent id => bool_decide (id = rq_agentId rq)
  | IdUser id => bool_decide (id ∈ default [] (rq_userIds rq))
  | IdGroup id => bool_decide (id ∈ default [] (rq_groupIds rq))
  end.

Lemma named_silent p rq i :
  one_principal i -> made_as p rq = false -> names_principal p i = true -> identity_matches rq (decodeIdentity i) = false.
Proof.
  intros [d ->] Hrq Hn. destruct p as [a w|g o|u], d as [a'|u'|g']; cbn in *; try done;
    apply bool_decide_eq_true in Hn; by injection Hn as ->.
Qed.

(** A rule about the principal alone is one its deletion drops. *)
Lemma only_names_dropped p r : leveled H r -> principal_homed H p -> only_names p r = true -> dropped p r = true.
Proof.
  intros Hl Hp Ho. pose proof Ho as Hn. unfold only_names in Hn. apply andb_true_iff in Hn as [Hn _].
  apply existsb_In in Hn as (i & Hi & Hn). destruct (Hl i Hi) as ([o|w] & Hb & Hf); cbn [fits] in Hf.
  - destruct Hf as [[u ->]|(g & -> & Hg)], p as [a' w'|g' o'|u']; cbn in Hn; apply bool_decide_eq_true in Hn; try done;
      injection Hn as ->; cbn [dropped principal_homed] in *.
    + rewrite Ho, andb_true_r. apply bool_decide_eq_true. exact (in_base_scope _ _ Hb).
    + subst. by rewrite Hb, Ho.
  - destruct Hf as (a & -> & Ha), p as [a' w'|g' o'|u']; cbn in Hn; apply bool_decide_eq_true in Hn; try done.
    injection Hn as ->. cbn [dropped principal_homed] in *. subst. by rewrite Hb, Ho.
Qed.
Lemma identityMatches_named sh cp rq r :
  identityMatches (sim_rule (toSimRule sh cp r)) rq =
  bool_decide (row_identities r = []) || existsb (fun i => identity_matches rq (decodeIdentity i)) (row_identities r).
Proof.
  unfold identityMatches. cbn. unfold decodeIdentities. f_equal.
  - apply bool_decide_ext. by destruct (row_identities r).
  - induction (row_identities r) as [|i l IH]; [done|]. cbn [map existsb]. by rewrite IH.
Qed.

(** A rule that stays matches the others as before. *)
Lemma stays_matches sh cp p rq r :
  leveled H r -> principal_homed H p -> made_as p rq = false -> stays p r = true ->
  identityMatches (sim_rule (toSimRule sh cp (cascaded p r))) rq = identityMatches (sim_rule (toSimRule sh cp r)) rq.
Proof.
  intros Hl Hp Hrq Hs. rewrite !identityMatches_named. cbn [cascaded row_identities with_identities]. f_equal.
  - apply bool_decide_ext. split; [|by intros ->]. intros Hnil. destruct (row_identities r) as [|i l] eqn:Ei; [done|].
    exfalso. unfold stays in Hs. rewrite (only_names_dropped p r Hl Hp) in Hs; [done|]. unfold only_names. rewrite Ei.
    assert (forall j, j ∈ i :: l -> names_principal p j = true) as Hall.
    { intros j Hj. apply not_false_iff_true. intros Hno. assert (j ∈ ([] : list IdentityRow)) as Hj'; [|by apply elem_of_nil in Hj'].
      rewrite <- Hnil. apply elem_of_lfilter. by rewrite Hno. }
    cbn [existsb]. rewrite (Hall i) by (by left). cbn [orb andb]. apply forallb_forall. intros j Hj%list_elem_of_In. by apply Hall.
  - apply eq_true_iff_eq. rewrite !existsb_In. split; intros (i & Hi & Hm).
    + apply elem_of_lfilter in Hi as [Hi _]. by exists i.
    + exists i. split; [|done]. apply elem_of_lfilter. split; [done|]. apply negb_true_iff, not_true_iff_false. intros Hn.
      rewrite (named_silent p rq i) in Hm; [done|by eapply leveled_principal|done|done].
Qed.

(** A rule that goes matched none of them. *)
Lemma gone_matches sh cp p rq r :
  leveled H r -> made_as p rq = false -> orphaned_grant r = false -> stays p r = false ->
  row_identities r <> [] /\ identityMatches (sim_rule (toSimRule sh cp r)) rq = false.
Proof.
  intros Hl Hrq Ho Hs%negb_false_iff. assert (only_names p r = true) as [Hsome Hall]%andb_true_iff.
  { destruct p; cbn [dropped] in Hs; rewrite ?Ho, ?orb_false_r in Hs; by apply andb_true_iff in Hs as [_ ?]. }
  apply existsb_In in Hsome as (i & Hi & _). assert (row_identities r <> []) as Hne by (intros E0; rewrite E0 in Hi; by apply elem_of_nil in Hi).
  split; [done|]. rewrite identityMatches_named, bool_decide_false by done. cbn [orb]. apply not_true_iff_false.
  intros (j & Hj & Hm)%existsb_In. rewrite forallb_forall in Hall.
  rewrite (named_silent p rq j) in Hm; [done|by eapply leveled_principal|done|by apply Hall, list_elem_of_In].
Qed.
End Forget.

(** The decision a gateway takes from a table. *)
Definition decision (reg : Registry) `{JsCase} (secretHosts : SecretHostSet) (connectionProviders : gmap jsstr jsstr)
    (organizationId workspaceId : jsstr) (equipment : bool) (table : list RuleRow) (rq : PolicyRequest) : Decision :=
  let load base := loadRules table base (js "published") equipment in
  evaluateNew reg
    (map (fun r => sim_rule (toSimRule secretHosts connectionProviders r)) (load (OrgBase organizationId) ++ load (WsBase workspaceId))) rq.

(** C4: From a table the writes reach in which every grant still names an agent,
    deleting a principal always succeeds, and no request that is not made as it
    is decided otherwise afterwards: rules that named only it are gone, and none
    comes to apply to everyone. A grant whose identities an edit cleared applies
    to everyone and is deleted with the next agent, which the condition on the
    table excludes ([PolicySample.edited_grant_lost]); a deleted agent or group
    is of the workspace or organization it is deleted in. *)
Theorem deletion_unnoticed {E : PolicyProviders} (H : Homes) (reg : Registry) `{JsCase} sh cp org ws equipment table p m rq :
  policy_run H [] table -> principal_homed H p -> (forall r, r ∈ table -> orphaned_grant r = false) -> made_as p rq = false ->
  exists organizations s, deletePrincipal p m (mkTx table 0) = inr (organizations, s) /\
    decision reg sh cp org ws equipment (tx_rules s) rq = decision reg sh cp org ws equipment table rq.
Proof.
  intros Hrun Hp Ho Hrq. pose proof (run_kept H table Hrun) as Hk. pose proof (run_leveled H table Hrun) as Hl.
  destruct (deletePrincipal_runs p m table) as (os & s & Hd & Et). exists os, s. split; [done|]. rewrite Et.
  unfold decision. rewrite !(load_cascaded table p _ _ Hk), <- map_app, <- List.filter_app, map_map.
  set (rows := _ ++ _).
  assert (forall r, r ∈ rows -> r ∈ table /\ (row_isDefault r = true -> row_identities r = [])) as Hrows.
  { intros r Hr. assert (exists b, r ∈ loadRules table b (js "published") equipment) as [b Hb]
      by (apply elem_of_app in Hr as [?|?]; by eexists).
    destruct (load_published_in table b equipment r Hk Hb) as (Hin & d & Hd' & Hdd & Hv). split; [done|]. intros Hdef.
    pose proof (dk_rows _ _ (kept_drafts _ Hk b) d Hd' Hdd) as Hrow.
    rewrite <- (f_equal row_isDefault Hv : row_isDefault r = row_isDefault d), Hdef in Hrow.
    rewrite (f_equal row_identities Hv : row_identities r = row_identities d). apply Hrow. }
  apply (evaluate_thinned reg (fun r => sim_rule (toSimRule sh cp r)) (fun r => map decodeIdentity (row_identities (cascaded p r)))
    (stays p) rows rq).
  - intros r Hr Hs. apply (stays_matches H); [by apply Hl, Hrows|done|done|done].
  - intros r Hr Hs. destruct (Hrows r Hr) as [Hin Hdef].
    destruct (gone_matches H sh cp p rq r (Hl r Hin) Hrq (Ho r Hin) Hs) as [Hne Hm]. split; [|done].
    apply not_true_iff_false. intros Ht. by apply Hne, Hdef.
Qed.
