(* ===== verification/PolicySample.v ===== *)
(** * A workspace's writes, run

    A small organization, the witnesses of the theorems on policy writes, and
    three histories the writes do not prevent. *)
From stdpp Require Import pretty.
From S2P Require Import Prelude PolicyTypes JsJson Catalog Evaluator PolicyRows Grants ResourceAxis LoadRules EffectiveTools PolicyAuthoring PolicyBlocklist PolicyPublish PolicyWrites PolicyLockstep PolicyRuns PolicyOrder PolicyDeletion PolicyForget.
Local Open Scope Z_scope.

(** ** The organization *)

#[local] Instance demoProviders : PolicyProviders := {|
  isOnpremEdition := false;
  assertAllowed := fun _ _ => None;
  validateTargets := fun _ => None;
  validate := fun _ c _ => if bool_decide (cr_id c = js "c2") then Some {| se_code := FORBIDDEN; se_message := js "not entitled" |} else None;
|}.

Definition demoHomes : Homes := {| agentHome := fun _ => js "w1"; groupHome := fun _ => js "o1" |}.

Definition demo_connection (i : jsstr) : ConnectionRow :=
  {| cr_id := i; cr_provider := js "github"; cr_scope := js "workspace"; cr_organizationId := None;
     cr_workspaceId := Some (js "w1"); cr_status := js "connected"; cr_label := None |}.

Definition demo_tables : PolicyTables :=
  mkTables [{| agr_id := js "a1"; agr_workspaceId := js "w1" |}; {| agr_id := js "a2"; agr_workspaceId := js "w1" |}]
    [(js "w1", js "o1")] [js "u1"]
    {| dir_access := []; dir_groups := []; dir_groupMembers := []; dir_members := [] |}
    [demo_connection (js "c1"); demo_connection (js "c2")] [].

Lemma demo_homed : homed demoHomes demo_tables.
Proof.
  split_and!; [apply (bool_decide_unpack _); vm_compute; exact I|constructor| |by intros r Hr%elem_of_nil].
  intros r Hr. cbn in Hr. by repeat (apply elem_of_cons in Hr as [->|Hr]; [done|]); apply elem_of_nil in Hr.
Qed.

Definition demo_scope : ResourceScope := mkScope (Some (js "w1")) None.

(** The moment of the [k]th write. *)
Definition demo_moment (k : nat) : Moment :=
  mkMoment demo_tables (fun n => (js (pretty k) ++ js "-" ++ js (pretty n), js "l" ++ js (pretty k) ++ js "-" ++ js (pretty n))).

(** The table a write leaves, when it commits. *)
Definition ran {A} (w : result (tx A)) (k : nat) (table : list RuleRow) : option (list RuleRow) :=
  match w with
  | inl _ => None
  | inr t => match t (demo_moment k) (mkTx table 0) with inl _ => None | inr (_, s) => Some (tx_rules s) end
  end.

Lemma step_ran {A} (w : result (tx A)) k table table' :
  (forall t, w = inr t -> policy_write demoHomes table t) -> ran w k table = Some table' -> policy_step demoHomes table table'.
Proof.
  unfold ran. destruct w as [x|t]; [done|]. intros Hw. destruct (t _ _) as [x|[a s]] eqn:Ht; [done|]. intros [= <-].
  eapply step_write; [by apply Hw|exact Ht].
Qed.

Definition then_ran {A} (w : list RuleRow -> result (tx A)) (k : nat) (o : option (list RuleRow)) : option (list RuleRow) :=
  o ≫= fun table => ran (w table) k table.

(** An edit read at the table it is run on. *)
Lemma run_snoc {A} (w : result (tx A)) k table table' :
  policy_run demoHomes [] table -> (forall t, w = inr t -> policy_write demoHomes table t) -> ran w k table = Some table' ->
  policy_run demoHomes [] table'.
Proof. intros Hrun Hw Hr. eapply rtc_r; [exact Hrun|]. by eapply step_ran. Qed.

(** ** A rule for one agent, a rule for everyone *)

Definition host_rule (name : jsstr) (a : Action) (approval : bool) (ids : list IdentityDto) : CreatePolicyRuleInput :=
  mkCreate name None a None None (Some approval) None (Some ids) (Some [TiNetwork (js "api.test") None None]).

Definition block_a1 : CreatePolicyRuleInput := host_rule (js "no a1") block false [DtoAgent (js "a1")].
Definition approve_all : CreatePolicyRuleInput := host_rule (js "ask") allow true [].

Definition table_of (o : option (list RuleRow)) : list RuleRow := default [] o.

Definition demo1 : list RuleRow := table_of (ran (createPolicyRule demo_tables demo_scope block_a1) 1 []).
Definition demo2 : list RuleRow := table_of (ran (createPolicyRule demo_tables demo_scope approve_all) 2 demo1).

Lemma create_run input k table table' :
  policy_run demoHomes [] table -> ran (createPolicyRule demo_tables demo_scope input) k table = Some table' ->
  policy_run demoHomes [] table'.
Proof. intros Hrun Hr. eapply run_snoc; [exact Hrun| |exact Hr]. intros t Ht. eapply write_create; [apply demo_homed|exact Ht]. Qed.

Lemma demo_run : policy_run demoHomes [] demo2.
Proof.
  apply (create_run approve_all 2 demo1); [|vm_compute; reflexivity].
  apply (create_run block_a1 1 []); [apply rtc_refl|vm_compute; reflexivity].
Qed.

(** A host of an app is blocked, in lockstep. *)
Definition evil : BlocklistHost := mkHost (js "h1") (js "uploads") (js "up.test").

Definition demo3 : list RuleRow :=
  match initBlocklistDefaults demo2 demo_scope [evil] with
  | inr (Some t) => table_of (ran (inr t) 3 demo2)
  | _ => []
  end.

Lemma demo3_run : policy_run demoHomes [] demo3.
Proof.
  assert (exists t, initBlocklistDefaults demo2 demo_scope [evil] = inr (Some t) /\ ran (inr t) 3 demo2 = Some demo3) as (t & Ht & Hran).
  { eexists. split; vm_compute; reflexivity. }
  eapply run_snoc; [exact demo_run| |exact Hran]. intros t' [= <-].
  eapply (write_block demoHomes demo2 demo2 demo_scope (WsBase (js "w1")) [evil]); [exact Ht|reflexivity|vm_compute; reflexivity].
Qed.

(** The gateway runs four rules: the block first, the Default Rule at 0. *)
Lemma live_is_draft_witness :
  policy_run demoHomes [] demo3 /\
  let rules st := map sim_rule (map (toSimRule {| shs_byId := ∅; shs_workspaceHosts := []; shs_orgHosts := [] |} ∅)
    (loadRules demo3 (WsBase (js "w1")) st true)) in
  map (fun r => (rl_priority r, rl_name r)) (rules (js "published")) =
    [(0, js "Default Rule"); (1, js "no a1"); (2, js "Block uploads"); (3, js "ask")] /\
  rules (js "published") = rules (js "draft").
Proof.
  split; [exact demo3_run|]. split; [vm_compute; reflexivity|].
  pose proof (live_is_draft demoHomes demo3 (WsBase (js "w1")) true {| shs_byId := ∅; shs_workspaceHosts := []; shs_orgHosts := [] |} ∅ demo3_run) as H.
  cbv beta zeta in H. exact H.
Defined.


Definition as_a2 : PolicyRequest :=
  {| rq_host := js "api.test"; rq_path := js "/"; rq_method := js "GET"; rq_body := None; rq_agentId := js "a2";
     rq_userIds := None; rq_groupIds := None; rq_hasInjections := true; rq_isLlmHost := false; rq_winningConnectionId := None |}.

(** Agent [a1] goes, and the rule that blocked it; [a2] is still asked for
    approval. *)
Lemma deletion_unnoticed_witness :
  let decide t := @decision ∅ ascii_case {| shs_byId := ∅; shs_workspaceHosts := []; shs_orgHosts := [] |} ∅ (js "o1") (js "w1") true t as_a2 in
  exists organizations s, deletePrincipal (GoneAgent (js "a1") (js "w1")) (demo_moment 3) (mkTx demo2 0) = inr (organizations, s) /\
    decide (tx_rules s) = decide demo2 /\ dec_requireApproval (decide demo2) = Some true.
Proof.
  cbv zeta. assert (forallb (fun r => negb (orphaned_grant r)) demo2 = true) as Hall by (vm_compute; reflexivity).
  assert (forall r, r ∈ demo2 -> orphaned_grant r = false) as Ho.
  { intros r Hr%list_elem_of_In. apply negb_true_iff. exact (proj1 (forallb_forall _ _) Hall r Hr). }
  destruct (@deletion_unnoticed _ demoHomes ∅ ascii_case {| shs_byId := ∅; shs_workspaceHosts := []; shs_orgHosts := [] |} ∅
    (js "o1") (js "w1") true demo2 (GoneAgent (js "a1") (js "w1")) (demo_moment 3) as_a2 demo_run eq_refl Ho eq_refl)
    as (os & s & Hd & Hdec).
  exists os, s. split; [exact Hd|]. split; [exact Hdec|]. vm_compute. reflexivity.
Defined.

(** ** Histories

    A rule is read and checked before its scope is locked: of two edits checked
    against the same rule, the second may meet what it was not checked
    against. *)

(** An edit, checked against [read]. *)
Definition edit (read : list RuleRow) (i : jsstr) (input : UpdatePolicyRuleInput) : result (tx RuleRow) :=
  updatePolicyRule demo_tables read demo_scope i input.

Definition no_edit : UpdatePolicyRuleInput := mkUpdate None None None None None None None None None.

Definition on_c1 : CreatePolicyRuleInput :=
  mkCreate (js "github") None allow None None None None None (Some [TiConnection (js "c1") None]).

(** A scoping of the connection's repositories. *)
Definition scoping : json := JObj [(js "repositories", JArr [JStr (js "acme/app")])].

Definition set_scoping : UpdatePolicyRuleInput := mkUpdate None None None None None None (Some (Some scoping)) None None.
Definition retarget : UpdatePolicyRuleInput := mkUpdate None None None None None None None None (Some [TiConnection (js "c2") None]).

Definition race0 : list RuleRow := table_of (ran (createPolicyRule demo_tables demo_scope on_c1) 1 []).
Definition race1 : list RuleRow := table_of (ran (edit race0 (js "1-0") set_scoping) 2 race0).
Definition race2 : list RuleRow := table_of (ran (edit race0 (js "1-0") retarget) 3 race1).

(** One edit scopes the rule's connection [c1], the other moves the rule to
    [c2], whose scoping the validator refuses; checked one after the other the
    second is refused, checked against the same rule both commit. *)
Example edits_pair_unvalidated :
  edit race1 (js "1-0") retarget = inl (Service {| se_code := FORBIDDEN; se_message := js "not entitled" |}) /\
  map (fun r => (row_conditions r, map tr_appConnectionId (row_targets r))) (authored_rows (WsBase (js "w1")) race2) =
    [(scoping, [Some (js "c2")])].
Proof. split; vm_compute; reflexivity. Qed.

(** A grant edited to name everyone is nobody's grant: any agent's deletion
    takes it. *)
Definition demo_rule : CompiledRule :=
  {| cmp_name := js "github"; cmp_action := allow; cmp_requireApproval := false; cmp_tools := []; cmp_method := None; cmp_conditions := None |}.
Definition name_everyone : UpdatePolicyRuleInput := mkUpdate None None None None None None None (Some []) None.

Definition granted : list RuleRow :=
  table_of (ran (inr (replaceAndPublish (js "w1") (js "a1") (namesConnection (js "c1")) [(demo_rule, connectionTarget (js "c1") demo_rule)])) 1 []).
Definition widened : list RuleRow := table_of (ran (edit granted (js "1-0") name_everyone) 2 granted).
Definition after_a2 : list RuleRow := table_of (ran (inr (deletePrincipal (GoneAgent (js "a2") (js "w1")))) 3 widened).

Lemma widened_run : policy_run demoHomes [] widened.
Proof.
  apply (run_snoc (edit granted (js "1-0") name_everyone) 2 granted).
  - apply (run_snoc (inr (replaceAndPublish (js "w1") (js "a1") (namesConnection (js "c1"))
      (map (fun rule => (rule, connectionTarget (js "c1") rule)) [demo_rule]))) 1 []); [apply rtc_refl| |vm_compute; reflexivity].
    intros t [= <-]. exact (write_grant demoHomes [] (js "w1") (js "a1") (js "c1") [demo_rule] eq_refl).
  - intros t Ht. eapply write_update; [apply demo_homed|exact Ht|]. intros base r [= <-] Hr Hi.
    assert (forallb (fun r => negb (bool_decide (row_id r = js "1-0")) || authored (WsBase (js "w1")) (js "1-0") r) granted = true) as Hall
      by (vm_compute; reflexivity).
    pose proof (proj1 (forallb_forall _ _) Hall r (proj1 (list_elem_of_In _ _) Hr)) as Ha.
    cbn beta in Ha. rewrite (bool_decide_true (row_id r = js "1-0")) in Ha by exact Hi. exact Ha.
  - vm_compute. reflexivity.
Qed.

Example edited_grant_lost :
  map row_name (authored_rows (WsBase (js "w1")) widened) = [js "github"] /\ authored_rows (WsBase (js "w1")) after_a2 = [].
Proof. split; vm_compute; reflexivity. Qed.

(** In a scope that has not published, a block stays in the draft: the page
    shows the host blocked and the gateway has no rule for it, and the Default
    Rule's seeding publishes without it. *)
Definition blocked : list RuleRow :=
  match initBlocklistDefaults [] demo_scope [evil] with inr (Some t) => table_of (ran (inr t) 1 []) | _ => [] end.
Definition seeded : list RuleRow := table_of (ran (backfillPublishScope demo_scope [ALLOW_DEFAULT]) 2 blocked).

Example block_not_enforced :
  map hs_enabled (match getBlocklistState blocked demo_scope [evil] with inr l => l | _ => [] end) = [true] /\
  loadRules blocked (WsBase (js "w1")) (js "published") true = [] /\
  map row_name (loadRules seeded (WsBase (js "w1")) (js "published") true) = [js "Default Rule"] /\
  map row_name (loadRules seeded (WsBase (js "w1")) (js "draft") true) = [js "Default Rule"; js "Block uploads"].
Proof. split_and!; vm_compute; reflexivity. Qed.
