(* ===== verification/GrantService.v ===== *)
(** * Grants, end to end

    The public functions of [packages/api/src/services/grants-service.ts]: what
    an agent is granted, and the writes that grant and revoke. A write is what
    its checks leave: a throw, nothing to write, or the transaction to run.
    What follows the commit, the refreshed instructions and the respawned
    sandbox, is not modelled. *)
From S2P Require Import Prelude PolicyTypes JsJson Catalog Evaluator PolicyRows Grants GrantsSpec ResourceAxis LoadRules Injection EffectiveTools.
From S2P Require Import PolicyAuthoring PolicyBlocklist PolicyPublish PolicyWrites PolicyLockstep PolicyRuns PolicyOrder PolicySample.

Record GrantScope := mkGrantScope {
  gs_workspaceId : jsstr;
  gs_organizationId : jsstr;
}.

Record GrantAgent := mkGrantAgent {
  ga_id : jsstr;
  ga_workspaceId : jsstr;
  ga_name : jsstr;
}.

(** A secret row and its [type]. *)
Record GrantSecret := mkGrantSecret {
  gx_row : SecretRow;
  gx_type : jsstr;
}.

(** What the functions read. *)
Record GrantTables := mkGrantTables {
  gt_agents : list GrantAgent;
  gt_connections : list ConnectionRow;
  gt_secrets : list GrantSecret;
  gt_directory : Directory;
  gt_rules : list RuleRow;
}.

(** Resources are absent, [null] or an object, as in [ConnectionGrantInput]. *)
Inductive ConnectionGrantRequest :=
| ReqFull (resources : option json)
| ReqDefault (resources : option json)
| ReqCustom (allowed ask : list jsstr) (otherReads otherWrites : option UnlistedChoice) (resources : option json).

Definition request_resources (r : ConnectionGrantRequest) : option json :=
  match r with ReqFull x | ReqDefault x | ReqCustom _ _ _ _ x => x end.

Definition with_resources (input : ConnectionGrantInput) (resources : option json) : ConnectionGrantInput :=
  match input with GrantFull _ => GrantFull resources | GrantCustom al ask r w _ => GrantCustom al ask r w resources end.

(** The rows of grants, of an agent, a connection or a secret. *)
Definition grantRowsOf (workspaceId : jsstr) (names : RuleRow -> bool) (table : list RuleRow) : list RuleRow :=
  js_sort Grants.row_leb
    (List.filter (fun r => draftOf workspaceId r && bool_decide (row_source r = GRANT_SOURCE) && names r) table).

Definition grantResources (rows : list RuleRow) : option json :=
  let conditions := stackConditions rows in
  if isSessionPolicy conditions then Some conditions else None.

(** [validations/grants.ts], over a parsed request. *)
Definition connectionGrantSchema (r : ConnectionGrantRequest) : bool :=
  match r with
  | ReqCustom allowed ask _ _ _ =>
      negb (length allowed + length ask =? 0)%nat && negb (existsb (fun t => bool_decide (t ∈ ask)) allowed)
  | _ => true
  end.

Section Service.
Context {E : PolicyProviders} (reg : Registry) `{JsCase} (gt : GrantTables) (scope : GrantScope).

(** *** Fences *)

Definition in_pool (org ws : option jsstr) (level : jsstr) : bool :=
  level_fence (gs_organizationId scope) (gs_workspaceId scope) org ws level.

Definition requireAgent (agentId : jsstr) : result GrantAgent :=
  match List.find (fun a => bool_decide (ga_id a = agentId) && bool_decide (ga_workspaceId a = gs_workspaceId scope)) (gt_agents gt) with
  | Some agent => inr agent
  | None => inl (throws NOT_FOUND (js "Agent not found."))
  end.

Definition requireConnection (connectionId : jsstr) : result ConnectionRow :=
  match List.find (fun c => bool_decide (cr_id c = connectionId) && in_pool (cr_organizationId c) (cr_workspaceId c) (cr_scope c))
          (gt_connections gt) with
  | Some connection => inr connection
  | None => inl (throws NOT_FOUND (js "Connection not found."))
  end.

Definition secret_in_pool (s : GrantSecret) : bool :=
  in_pool (sr_organizationId (gx_row s)) (sr_workspaceId (gx_row s)) (sr_scope (gx_row s)).

Definition requireSecret (secretId : jsstr) : result GrantSecret :=
  match List.find (fun s => bool_decide (sr_id (gx_row s) = secretId) && secret_in_pool s) (gt_secrets gt) with
  | Some secret => inr secret
  | None => inl (throws NOT_FOUND (js "Secret not found."))
  end.

Definition assertWithinOrgBoundary (agentId connectionId : jsstr) (resources : json) : result () :=
  let orgRows := loadInjectionRules (gt_rules gt) (OrgBase (gs_organizationId scope)) (js "published") in
  let principals := resolvePrincipalSet (gt_directory gt) (gs_workspaceId scope) (gs_organizationId scope) in
  match orgResourceBoundary orgRows agentId principals connectionId with
  | None => mret ()
  | Some boundary =>
      let outside := entriesOutside resources boundary in
      guard (length outside =? 0)%nat
        (throws UNPROCESSABLE (js "Outside the access your organization allows for this connection: " ++ join (js ", ") outside))
  end.

(** *** The desired stack *)

Definition lift {A} (o : outcome A) : result A := match o with inl e => inl (Service e) | inr a => inr a end.

Definition resolveRequest (provider : jsstr) (request : ConnectionGrantRequest) : ConnectionGrantInput :=
  match request with
  | ReqDefault resources => with_resources (defaultConnectionGrant reg provider) resources
  | ReqFull resources => GrantFull resources
  | ReqCustom al ask r w resources => GrantCustom al ask r w resources
  end.

(** Absent keeps what the stack carries, [null] clears, an object is checked
    and set. *)
Definition grantConditions (agentId : jsstr) (connection : ConnectionRow) (resources : option json) (existing : list RuleRow) : result json :=
  match resources with
  | None => mret (stackConditions existing)
  | Some value =>
      match canonicalPolicy value with
      | None => mret JNull
      | Some policy =>
          hook (validate (gs_organizationId scope) connection policy);;
          assertWithinOrgBoundary agentId (cr_id connection) policy;;
          mret policy
      end
  end.

(** The plan gate of a stack some rule of which needs approval. *)
Definition assertApprovalAllowed (desired : list CompiledRule) : result () :=
  if existsb cmp_requireApproval desired
  then hook (assertAllowed (WsBase (gs_workspaceId scope)) (gatedActions None true false false))
  else mret ().

Definition connection_label (c : ConnectionRow) : jsstr := default (cr_provider c) (cr_label c).

Definition desiredConnectionStack (agentId connectionId : jsstr) (request : ConnectionGrantRequest) : result (list CompiledRule) :=
  agent ← requireAgent agentId;
  connection ← requireConnection connectionId;
  let provider := cr_provider connection in
  let input := resolveRequest provider request in
  match input with
  | GrantCustom al ask _ _ _ => lift (assertToolIdsValid reg provider (al ++ ask));; mret ()
  | GrantFull _ => mret ()
  end;;
  let existing := readGrantRows (gt_rules gt) (gs_workspaceId scope) agentId connectionId in
  let grant := withStoredUnlisted reg input existing provider in
  match grant with
  | GrantCustom _ _ r w _ => lift (assertUnlistedChoicesValid reg provider [r; w]);; mret ()
  | GrantFull _ => mret ()
  end;;
  conditions ← grantConditions agentId connection (request_resources request) existing;
  let desired := compileConnectionStack reg (grantName (ga_name agent) (connection_label connection)) provider grant conditions in
  assertApprovalAllowed desired;;
  mret desired.

(** *** Writes *)

(** [changed: false], with the rows' identifiers, or what to run. *)
Inductive GrantWrite :=
| Unchanged (ruleIds : list jsstr)
| Changed (write : tx (list jsstr * Z)).

Definition setConnectionGrant (agentId connectionId : jsstr) (request : ConnectionGrantRequest) : result GrantWrite :=
  desired ← desiredConnectionStack agentId connectionId request;
  let existing := readGrantRows (gt_rules gt) (gs_workspaceId scope) agentId connectionId in
  mret (if stackEquals existing desired then Unchanged (map row_id existing)
        else Changed (replaceAndPublish (gs_workspaceId scope) agentId (namesConnection connectionId)
                        (map (fun rule => (rule, connectionTarget connectionId rule)) desired))).

Definition removeConnectionGrant (agentId connectionId : jsstr) : result GrantWrite :=
  requireAgent agentId;;
  mret (match readGrantRows (gt_rules gt) (gs_workspaceId scope) agentId connectionId with
        | [] => Unchanged []
        | _ => Changed (replaceAndPublish (gs_workspaceId scope) agentId (namesConnection connectionId) [])
        end).

Definition setSecretGrant (agentId secretId : jsstr) : result GrantWrite :=
  agent ← requireAgent agentId;
  secret ← requireSecret secretId;
  let desired := compileSecretGrant (grantName (ga_name agent) (sr_name (gx_row secret))) in
  let existing := grantRowsOf (gs_workspaceId scope) (fun r => namesAgent agentId r && namesSecret secretId r) (gt_rules gt) in
  mret (if stackEquals existing desired then Unchanged (map row_id existing)
        else Changed (replaceAndPublish (gs_workspaceId scope) agentId (namesSecret secretId)
                        (map (fun rule => (rule, secretTarget secretId)) desired))).

Definition removeSecretGrant (agentId secretId : jsstr) : result GrantWrite :=
  requireAgent agentId;;
  mret (match grantRowsOf (gs_workspaceId scope) (fun r => namesAgent agentId r && namesSecret secretId r) (gt_rules gt) with
        | [] => Unchanged []
        | _ => Changed (replaceAndPublish (gs_workspaceId scope) agentId (namesSecret secretId) [])
        end).

Definition attachDefaultConnectionGrant (agentId connectionId : jsstr) : result (tx bool) :=
  agent ← requireAgent agentId;
  connection ← requireConnection connectionId;
  let desired := compileConnectionStack reg (grantName (ga_name agent) (connection_label connection)) (cr_provider connection)
                   (defaultConnectionGrant reg (cr_provider connection)) JNull in
  assertApprovalAllowed desired;;
  mret (attachIfAbsent (gs_workspaceId scope) agentId connectionId desired).

(** *** Reads *)

Record AgentGrantConnection := mkAgentGrant {
  agc_connectionId : jsstr;
  agc_provider : jsstr;
  agc_label : option jsstr;
  agc_scope : Scope;
  agc_grant : StackGrant;
  agc_resources : option json;
}.

Record AgentGrants := mkAgentGrants {
  ag_agentId : jsstr;
  ag_connections : list AgentGrantConnection;
  ag_secrets : list (jsstr * jsstr * jsstr * Scope);
}.

(** The connection or the secret a grant row's first target names. *)
Definition first_connection (r : RuleRow) : option jsstr :=
  t ← head (row_targets r);
  if bool_decide (tr_kind t = js "connection") then truthy (tr_appConnectionId t) else None.
Definition first_secret (r : RuleRow) : option jsstr :=
  t ← head (row_targets r);
  if bool_decide (tr_kind t = js "secret") then truthy (tr_secretId t) else None.

Definition getAgentGrants (agentId : jsstr) : result AgentGrants :=
  agent ← requireAgent agentId;
  let rows := grantRowsOf (gs_workspaceId scope) (namesAgent agentId) (gt_rules gt) in
  let stack c := List.filter (fun r => bool_decide (first_connection r = Some c)) rows in
  let connections := List.filter (fun c => bool_decide (cr_id c ∈ omap first_connection rows) &&
                       in_pool (cr_organizationId c) (cr_workspaceId c) (cr_scope c)) (gt_connections gt) in
  let secrets := List.filter (fun s => bool_decide (sr_id (gx_row s) ∈ omap first_secret rows) && secret_in_pool s) (gt_secrets gt) in
  mret (mkAgentGrants (ga_id agent)
    (map (fun c => mkAgentGrant (cr_id c) (cr_provider c) (cr_label c) (level_of (cr_scope c))
                     (stackToGrant reg (stack (cr_id c)) (cr_provider c)) (grantResources (stack (cr_id c)))) connections)
    (map (fun s => (sr_id (gx_row s), sr_name (gx_row s), gx_type s, level_of (sr_scope (gx_row s)))) secrets)).

Definition first_agent (r : RuleRow) : option jsstr := i ← head (row_identities r); truthy (ir_agentId i).

Definition getConnectionGrants (connectionId : jsstr) : result (list (jsstr * StackGrant * option json)) :=
  connection ← requireConnection connectionId;
  let rows := grantRowsOf (gs_workspaceId scope) (namesConnection connectionId) (gt_rules gt) in
  mret (map (fun a =>
    let stack := List.filter (fun r => bool_decide (first_agent r = Some a)) rows in
    (a, stackToGrant reg stack (cr_provider connection), grantResources stack)) (js_dedup (omap first_agent rows))).

(** An agent's identifier and name, [granted] and [orgGranted]. *)
Definition getSecretAgentAccess (secretId : jsstr) : result (list (jsstr * jsstr * bool * bool)) :=
  secret ← requireSecret secretId;
  let agents := js_sort (fun a b => str_leb (ga_name a) (ga_name b))
                  (List.filter (fun a => bool_decide (ga_workspaceId a = gs_workspaceId scope)) (gt_agents gt)) in
  let grantRows := grantRowsOf (gs_workspaceId scope) (namesSecret secretId) (gt_rules gt) in
  let orgRows := loadInjectionRules (gt_rules gt) (OrgBase (gs_organizationId scope)) (js "published") in
  let principals := resolvePrincipalSet (gt_directory gt) (gs_workspaceId scope) (gs_organizationId scope) in
  let grantedAgentIds := flat_map (fun r => map ir_agentId (row_identities r)) grantRows in
  mret (map (fun agent =>
    let granted := bool_decide (Some (ga_id agent) ∈ grantedAgentIds) in
    let viaOrg := grantedSecretSelection orgRows (ga_id agent) principals in
    let atLevel := match level_of (sr_scope (gx_row secret)) with organization => ss_organization viaOrg | workspace => ss_workspace viaOrg end in
    (ga_id agent, ga_name agent, granted, negb granted && (bool_decide (secretId ∈ ss_ids viaOrg) || atLevel))) agents).
End Service.

(** ** What a grant leaves *)
Local Open Scope Z_scope.

Lemma create_each_grants w a creates p m s rowIds s1 :
  create_each (grant_builds w a p creates) m s = inr (rowIds, s1) ->
  exists ids, tx_rules s1 = tx_rules s ++ grantRows w a p creates ids.
Proof.
  revert p s rowIds. induction creates as [|[rule target] creates IH]; intros p s rowIds H; cbn [grant_builds create_each] in H.
  - apply tx_ret_inr in H as [= _ ->]. exists (fun _ => ([], [])). by rewrite app_nil_r.
  - apply tx_bind_inr in H as (row & s0 & Hrow & H). apply create_inr in Hrow as (-> & _ & E0).
    apply tx_bind_inr in H as (ids' & s2 & H & Hret). apply tx_ret_inr in Hret as [= _ ->].
    apply IH in H as (ids & ->). rewrite E0, <- app_assoc.
    exists (fun i => match i with 0%nat => mo_ids m (tx_created s) | S i => ids i end). done.
Qed.

(** A replaced stack's transaction is [replaceStack], then a publish. *)
Lemma replace_runs w a c desired m table r s :
  kept table ->
  replaceAndPublish w a (namesConnection c) (map (fun rule => (rule, connectionTarget c rule)) desired) m (mkTx table 0) = inr (r, s) ->
  exists ids s1 res, tx_rules s1 = replaceStack table w a c desired ids /\ ready (WsBase w) (tx_rules s1) /\
    publishDraftInTx (WsBase w) m s1 = inr (res, s).
Proof.
  intros Hk Hrun. unfold replaceAndPublish in Hrun. apply tx_bind_inr in Hrun as (n & s0 & Hn & Hrun). apply deleteMany_inr in Hn as [_ E0].
  apply tx_bind_inr in Hrun as (rowIds & s1 & Ha & Hrun). apply tx_bind_inr in Hrun as (res & s2 & Hp & Hrun). apply tx_ret_inr in Hrun as [= _ ->].
  assert (ready (WsBase w) (tx_rules s1)) as Hr.
  { eapply append_ready; [|exact Ha]. rewrite E0. apply ready_filter; [by apply kept_ready|].
    intros x Hx%negb_false_iff. unfold stack_of in Hx. rewrite !andb_true_iff in Hx. apply Hx. }
  unfold appendGrantRulesInTx in Ha. apply tx_bind_inr in Ha as (tab & s3 & Htab & Ha). apply tx_table_inr in Htab as [-> ->].
  apply create_each_grants in Ha as (ids & E1). exists ids, s1, res. split_and!; [|done|exact Hp]. rewrite E1, E0. reflexivity.
Qed.

(** The rows of grants are among the authored rows of a kept draft. *)
Lemma grantRow_authored table w a c :
  draft_kept (WsBase w) table ->
  List.filter (isGrantRow w a c) table = List.filter (isGrantRow w a c) (List.filter (is_authored (WsBase w)) table).
Proof.
  intros Hk. rewrite filter_filter_comp. apply filter_ext_in. intros r Hr%list_elem_of_In.
  destruct (isGrantRow w a c r) eqn:Hg; [|by rewrite andb_false_r]. rewrite andb_true_r. symmetry.
  unfold isGrantRow in Hg. rewrite !andb_true_iff in Hg. destruct Hg as [[[Hd Hs] _] _]. apply bool_decide_eq_true in Hs.
  unfold is_authored. change (draft_in (WsBase w) r) with (draftOf w r). rewrite Hd. destruct (row_isDefault r) eqn:Hdef; [|done].
  pose proof (dk_rows _ _ Hk r Hr Hd) as Hrow. rewrite Hdef in Hrow. destruct Hrow as (_ & _ & Hsrc).
  rewrite Hs in Hsrc. vm_compute in Hsrc. discriminate.
Qed.

(** Publishing leaves the rows of grants. *)
Lemma publish_grants w a c m s res s1 :
  ready (WsBase w) (tx_rules s) -> publishDraftInTx (WsBase w) m s = inr (res, s1) ->
  readGrantRows (tx_rules s1) w a c = readGrantRows (tx_rules s) w a c.
Proof.
  intros Hr Hp. unfold readGrantRows.
  rewrite (grantRow_authored (tx_rules s1)) by (apply (kept_drafts _ (publish_kept _ _ _ _ _ Hr Hp))).
  rewrite (publish_authored (WsBase w) (WsBase w) m s res s1 (ready_ids _ _ Hr) Hp).
  by rewrite <- grantRow_authored by apply (ready_drafts _ _ Hr).
Qed.

(** A rule of a grant, whichever its version. *)
Definition of_grant (a c : jsstr) (r : RuleRow) : bool :=
  bool_decide (row_source r = GRANT_SOURCE) && namesAgent a r && namesConnection c r.

Lemma of_grant_version a c r : c <> [] -> of_grant a c r = of_grant a c (version r).
Proof.
  intros Hc. unfold of_grant. f_equal. unfold namesConnection. cbn [version row_targets].
  induction (row_targets r) as [|t ts IH]; [done|]. cbn [map existsb]. rewrite IH. f_equal. apply bool_decide_ext. cbn.
  destruct (tr_appConnectionId t) as [[|x l]|]; cbn; naive_solver.
Qed.

Lemma draft_grants w a c table : List.filter (of_grant a c) (draft_rows (WsBase w) table) = readGrantRows table w a c.
Proof.
  unfold draft_rows. rewrite <- (js_sort_filter _ row_leb_total row_leb_trans), filter_filter_comp. unfold readGrantRows.
  change Grants.row_leb with LoadRules.row_leb. f_equal. apply filter_ext. intros r. unfold isGrantRow, of_grant.
  change (draft_in (WsBase w) r) with (draftOf w r). by rewrite !andb_assoc.
Qed.

(** What the gateway runs of a grant. *)
Definition liveGrant (table : list RuleRow) (w a c : jsstr) : list RuleRow :=
  List.filter (of_grant a c) (loadRules table (WsBase w) (js "published") true).

Lemma live_grants sh cp w a c table :
  kept table -> c <> [] -> (forall r, r ∈ readGrantRows table w a c -> row_enabled r = true) ->
  map sim_rule (map (toSimRule sh cp) (liveGrant table w a c)) = map sim_rule (map (toSimRule sh cp) (readGrantRows table w a c)).
Proof.
  intros Hk Hc Hen. unfold liveGrant. rewrite !map_map. destruct (kept_mirrors _ Hk (WsBase w)) as [Hn|(g & Hg & Hm & _)].
  - assert (forall P, (forall r, P r = true -> in_base (WsBase w) r = true) -> List.filter P table = []) as Hnil.
    { intros P HP. apply filter_none. intros r Hr. apply not_true_iff_false. intros HPr. by apply (Hn r Hr), HP. }
    rewrite <- draft_grants. unfold draft_rows. rewrite Hnil by apply draft_in_base.
    unfold loadRules. rewrite bool_decide_true by done.
    rewrite (Hnil (fun r => in_base (WsBase w) r && _)); [done|]. by intros r [? _]%andb_true_iff.
  - rewrite (load_published _ _ _ g Hg), <- draft_grants.
    rewrite <- (filter_all (loads true) (List.filter (of_grant a c) (draft_rows (WsBase w) table))).
    2: { intros r Hr. rewrite draft_grants in Hr. unfold loads. by rewrite (Hen r Hr). }
    rewrite !filter_filter_comp.
    rewrite (filter_ext (fun r => of_grant a c r && loads true r) (fun r => loads true r && of_grant a c r)) by (intros; apply andb_comm).
    apply filter_versions; [|apply toSimRule_version|done]. intros r. by rewrite (of_grant_version a c r Hc).
Qed.

Lemma desired_compiled {E : PolicyProviders} (reg : Registry) `{JsCase} gt scope a c request desired :
  desiredConnectionStack reg gt scope a c request = inr desired ->
  exists nameBase provider input conditions, desired = compileConnectionStack reg nameBase provider input conditions.
Proof.
  intros Hd. unfold desiredConnectionStack in Hd. apply result_bind_inr in Hd as (agent & _ & Hd).
  apply result_bind_inr in Hd as (connection & _ & Hd). apply result_bind_inr in Hd as (u & _ & Hd).
  apply result_bind_inr in Hd as (u' & _ & Hd). apply result_bind_inr in Hd as (conditions & _ & Hd).
  apply result_bind_inr in Hd as (u2 & _ & Hd). injection Hd as <-. by do 4 eexists.
Qed.

(** C24: A grant that commits leaves, of its agent and connection, exactly the stack
    the request compiles to: the rows hold the desired rules in order, saving
    the same again changes nothing, and what the gateway runs decodes to the
    same rules. *)
Theorem set_grant_live {E : PolicyProviders} (H : Homes) (reg : Registry) `{JsCase} gt scope a c request write table m r s sh cp :
  policy_run H [] table -> agentHome H a = gs_workspaceId scope -> c <> [] ->
  setConnectionGrant reg gt scope a c request = inr (Changed write) -> write m (mkTx table 0) = inr (r, s) ->
  exists desired, desiredConnectionStack reg gt scope a c request = inr desired /\
    let rows := readGrantRows (tx_rules s) (gs_workspaceId scope) a c in
    Forall2 (holds c) rows desired /\ stackEquals rows desired = true /\
    map sim_rule (map (toSimRule sh cp) (liveGrant (tx_rules s) (gs_workspaceId scope) a c)) = map sim_rule (map (toSimRule sh cp) rows).
Proof.
  intros Hk%run_kept Ha Hc Hset Hrun. unfold setConnectionGrant in Hset. apply result_bind_inr in Hset as (desired & Hd & Hset).
  exists desired. split; [done|]. unfold mret, result_ret in Hset. destruct (stackEquals _ _) eqn:Eq in Hset; [done|].
  assert (write = replaceAndPublish (gs_workspaceId scope) a (namesConnection c) (map (fun rule => (rule, connectionTarget c rule)) desired)) as ->
    by congruence.
  pose proof (replace_kept _ _ _ _ _ _ _ _ Hk Hrun) as Hk'.
  apply (replace_runs _ _ _ _ _ _ _ _ Hk) in Hrun as (ids & s1 & res & E1 & Hr & Hp).
  pose proof (publish_grants _ a c _ _ _ _ Hr Hp) as Erows. cbn zeta. rewrite Erows, E1.
  pose proof (readGrantRows_holds (gs_workspaceId scope) a c table desired ids) as Hholds. split_and!; [done| |].
  - apply desired_compiled in Hd as (n & provider & input & conditions & ->). by apply grant_idempotent.
  - rewrite <- E1, <- Erows. apply live_grants; [done|done|]. rewrite Erows, E1. intros x Hx.
    destruct (Forall2_pre _ _ _ _ (proj2 (Forall2_flip _ _ _) Hholds) Hx) as (rule & _ & Hh). apply Hh.
Qed.

(** ** A grant, changed

    An agent that may use a connection freely is restricted to one tool, a
    second one on approval. *)

#[local] Existing Instance demoProviders.

Definition sample_tables : GrantTables :=
  mkGrantTables [mkGrantAgent (js "a1") (js "w1") (js "Robin")]
    [{| cr_id := js "c1"; cr_provider := js "example"; cr_scope := js "workspace"; cr_organizationId := None;
        cr_workspaceId := Some (js "w1"); cr_status := js "connected"; cr_label := None |}]
    [] {| dir_access := []; dir_groups := []; dir_groupMembers := []; dir_members := [] |} granted.

Definition restrict : ConnectionGrantRequest :=
  ReqCustom [js "list"] [js "create"] (Some un_allow) (Some un_never) None.

Definition restricting : result GrantWrite :=
  @setConnectionGrant demoProviders GrantsSpec.Examples.registry ascii_case sample_tables (mkGrantScope (js "w1") (js "o1"))
    (js "a1") (js "c1") restrict.

Lemma granted_run : policy_run demoHomes [] granted.
Proof.
  apply (run_snoc (inr (replaceAndPublish (js "w1") (js "a1") (namesConnection (js "c1"))
    (map (fun rule => (rule, connectionTarget (js "c1") rule)) [demo_rule]))) 1 []); [apply rtc_refl| |vm_compute; reflexivity].
  intros t [= <-]. exact (PolicyBlocklist.write_grant demoHomes [] (js "w1") (js "a1") (js "c1") [demo_rule] eq_refl).
Qed.

(** The old stack's rule is gone, and the gateway runs the new one. *)
Lemma set_grant_live_witness :
  exists write r s desired, restricting = inr (Changed write) /\ write (demo_moment 2) (mkTx granted 0) = inr (r, s) /\
    length (readGrantRows granted (js "w1") (js "a1") (js "c1")) = 1%nat /\
    length (readGrantRows (tx_rules s) (js "w1") (js "a1") (js "c1")) = 5%nat /\
    stackEquals (readGrantRows (tx_rules s) (js "w1") (js "a1") (js "c1")) desired = true.
Proof.
  assert (exists write r s, restricting = inr (Changed write) /\ write (demo_moment 2) (mkTx granted 0) = inr (r, s) /\
    length (readGrantRows granted (js "w1") (js "a1") (js "c1")) = 1%nat /\
    length (readGrantRows (tx_rules s) (js "w1") (js "a1") (js "c1")) = 5%nat) as (write & r & s & Hw & Hr & H1 & H5).
  { eexists _, _, _. split; [vm_compute; reflexivity|]. split; [vm_compute; reflexivity|]. split; vm_compute; reflexivity. }
  destruct (@set_grant_live demoProviders demoHomes GrantsSpec.Examples.registry ascii_case sample_tables
    (mkGrantScope (js "w1") (js "o1")) (js "a1") (js "c1") restrict write granted (demo_moment 2) r s GrantsSpec.Examples.no_secrets ∅
    granted_run eq_refl ltac:(discriminate) Hw Hr) as (desired & _ & _ & Heq & _).
  exists write, r, s, desired. split_and!; [exact Hw|exact Hr|exact H1|exact H5|exact Heq].
Defined.
