(* ===== verification/SshWire.v ===== *)
(** * The SSH wire format: [packages/ssh-cert/src/wire.ts]

    The writer as its chunks, the reader as a cursor over a buffer, both
    failing with the package's errors ([SshError], shared by the files of
    [packages/ssh-cert/src]). A read is described by how the buffer splits at
    the cursor: [at_cursor pre post] stands after [pre] and before [post], and
    each read is exact there in both directions. *)
From S2P Require Import Prelude JsBytes.
Local Open Scope N_scope.

(** ** What the package throws *)

(** [CertificateVerificationError.reason] *)
Inductive CertReason :=
  | not_user_cert | wrong_ca | bad_signature | expired | not_yet_valid
  | no_principals | wrong_principal | unknown_critical_option.

(** [GrantVerificationError.reason] *)
Inductive GrantReason := grant_malformed | grant_bad_signature | grant_expired.

(** The errors, by message; [CryptoError] is what [node:crypto] or the signer
    throws, [InvalidDate] the [RangeError] of [BigInt(NaN)]. *)
Inductive SshError :=
  | TruncatedStringLength | TruncatedStringBody | TruncatedUint32 | TruncatedUint64
  | TrailingBytes (n : nat) | Uint64OutOfRange (v : Z) | LengthOutOfRange
  | KeyLength (n : nat) | UnsupportedKeyType (t : jsstr) | NotAKeyLine | EmptyKeyMaterial | NotSpki
  | CryptoError | InvalidDate | SignatureLength (n : nat)
  | OddPacking | PrincipalRequired | EmptyWindow
  | UnsupportedCertType (t : jsstr) | UserKeyLength (n : nat) | UnsupportedSignatureAlgorithm (t : jsstr)
  | NotACertLine | CertificateVerificationError (reason : CertReason)
  | WrongMagic | GrantVerificationError (reason : GrantReason).

(** A call that returns or throws. *)
Definition ssh (A : Type) : Type := SshError + A.
#[export] Instance ssh_ret : MRet ssh := fun A a => inr a.
#[export] Instance ssh_bind : MBind ssh := fun A B k m =>
  match m with inl e => inl e | inr a => k a end.
Definition throw {A} (e : SshError) : ssh A := inl e.

Lemma ssh_bind_inr {A B} (m : ssh A) (k : A -> ssh B) b :
  m ≫= k = inr b <-> exists a, m = inr a /\ k a = inr b.
Proof. destruct m as [e|a]; simpl; split; [done|by intros (? & ? & ?)|eauto|by intros (? & [= <-] & ?)]. Qed.

Lemma ssh_throw_inr {A} e (a : A) : throw e <> inr a.
Proof. done. Qed.

(** Take a successful run apart. *)
Ltac ssh_inv :=
  repeat match goal with
  | H : throw _ = inr _ |- _ => discriminate H
  | H : inl _ = inr _ |- _ => discriminate H
  | H : mret _ = inr _ |- _ => injection H as H
  | H : inr _ = inr _ |- _ => injection H as H
  | H : ?m ≫= ?k = inr _ |- _ =>
      let a := fresh "v" in let E := fresh "E" in
      apply (ssh_bind_inr m k) in H as (a & E & H)
  | H : (if ?b then throw _ else _) = inr _ |- _ =>
      let G := fresh "G" in destruct b eqn:G; [discriminate H|]
  | x : (_ * _)%type |- _ => destruct x
  end.

(** ** [WireWriter] *)

Record WireWriter := { chunks : list bytes }.

Definition push (w : WireWriter) (bs : list bytes) : WireWriter :=
  {| chunks := chunks w ++ bs |}.

Definition new_writer : WireWriter := {| chunks := [] |}.

Definition writeBytes (b : bytes) (w : WireWriter) : WireWriter := push w [b].

(** [len.writeUInt32BE(value, 0)]: a [RangeError] beyond 32 bits. *)
Definition writeUInt32BE (v : N) : ssh bytes :=
  if v <=? 0xffffffff then mret (be_bytes 4 v) else throw LengthOutOfRange.

Definition writeString (b : bytes) (w : WireWriter) : ssh WireWriter :=
  len ← writeUInt32BE (N.of_nat (length b)); mret (push w [len; b]).

(** [writeString] on a text. *)
Definition writeText (s : jsstr) (w : WireWriter) : ssh WireWriter := writeString (utf8 s) w.

Definition writeUint32 (v : N) (w : WireWriter) : ssh WireWriter :=
  b ← writeUInt32BE v; mret (push w [b]).

Definition writeUint64 (v : Z) (w : WireWriter) : ssh WireWriter :=
  if ((v <? 0) || (0xffffffffffffffff <? v))%Z then throw (Uint64OutOfRange v)
  else mret (push w [be_bytes 8 (Z.to_N v)]).

Definition toBuffer (w : WireWriter) : bytes := concat (chunks w).

(** ** [WireReader] *)

Record WireReader := { buf : bytes; offset : nat }.

Definition new_reader (b : bytes) : WireReader := {| buf := b; offset := 0 |}.
Definition remaining (r : WireReader) : nat := length (buf r) - offset r.
Definition position (r : WireReader) : nat := offset r.
Definition advance (n : nat) (r : WireReader) : WireReader :=
  {| buf := buf r; offset := offset r + n |}.

(** [buf.readUInt32BE(offset)] and [readBigUInt64BE(offset)], in range. *)
Definition read_be (n : nat) (r : WireReader) : N :=
  be_value (subarray (offset r) (offset r + n) (buf r)).

Definition readString (r : WireReader) : ssh (bytes * WireReader) :=
  if (remaining r <? 4)%nat then throw TruncatedStringLength
  else
    let len := read_be 4 r in
    let r := advance 4 r in
    if N.of_nat (remaining r) <? len then throw TruncatedStringBody
    else
      let len := N.to_nat len in
      mret (subarray (offset r) (offset r + len) (buf r), advance len r).

Definition readUint32 (r : WireReader) : ssh (N * WireReader) :=
  if (remaining r <? 4)%nat then throw TruncatedUint32
  else mret (read_be 4 r, advance 4 r).

Definition readUint64 (r : WireReader) : ssh (Z * WireReader) :=
  if (remaining r <? 8)%nat then throw TruncatedUint64
  else mret (Z.of_N (read_be 8 r), advance 8 r).

Definition expectEnd (r : WireReader) : ssh unit :=
  if (remaining r =? 0)%nat then mret tt else throw (TrailingBytes (remaining r)).

(** [readPackedStrings]: the loop, and its value (it always returns, see
    [readPackedStrings_returns]). *)
Definition packed_step (s : WireReader * list bytes)
  : (WireReader * list bytes) + ssh (list bytes) :=
  let '(r, out) := s in
  if (0 <? remaining r)%nat then
    match readString r with
    | inl e => inr (inl e)
    | inr (x, r') => inl (r', out ++ [x])
    end
  else inr (inr out).

Definition packed_loop (packed : bytes) : option (ssh (list bytes)) :=
  js_while packed_step (S (length packed)) (new_reader packed, []).

Definition readPackedStrings (packed : bytes) : ssh (list bytes) :=
  match packed_loop packed with Some res => res | None => mret [] end.

(** ** The format *)

(** A length that fits its field. *)
Definition fits32 (b : bytes) : Prop := N.of_nat (length b) < 2 ^ 32.

#[export] Instance fits32_dec b : base.Decision (fits32 b).
Proof. unfold fits32. apply _. Defined.

(** The bytes of a string, a [uint32] and a [uint64]. *)
Definition wire_string (b : bytes) : bytes := be_bytes 4 (N.of_nat (length b)) ++ b.
Definition wire_u32 (v : N) : bytes := be_bytes 4 v.
Definition wire_u64 (v : Z) : bytes := be_bytes 8 (Z.to_N v).

(** The cursor between [pre] and [post]. *)
Definition at_cursor (pre post : bytes) : WireReader :=
  {| buf := pre ++ post; offset := length pre |}.

Lemma length_wire_string b : length (wire_string b) = (4 + length b)%nat.
Proof. unfold wire_string. by rewrite length_app, length_be_bytes. Qed.

Lemma wire_string_is_bytes b : is_bytes b -> is_bytes (wire_string b).
Proof. intros. apply Forall_app_2; [apply be_bytes_is_bytes|done]. Qed.

Lemma remaining_at pre post : remaining (at_cursor pre post) = length post.
Proof. unfold remaining, at_cursor. cbn. rewrite length_app. lia. Qed.

Lemma advance_at pre x post n :
  n = length x -> advance n (at_cursor pre (x ++ post)) = at_cursor (pre ++ x) post.
Proof. intros ->. unfold advance, at_cursor. cbn. by rewrite length_app, app_assoc. Qed.

Lemma subarray_at pre x post n :
  n = length x -> subarray (length pre) (length pre + n) (pre ++ x ++ post) = x.
Proof.
  intros ->. unfold subarray. rewrite drop_app_length.
  replace (length pre + length x - length pre)%nat with (length x) by lia.
  by rewrite take_app_length.
Qed.

Lemma read_bytes_at pre x post n :
  n = length x ->
  let r := at_cursor pre (x ++ post) in subarray (offset r) (offset r + n) (buf r) = x.
Proof. intros H. cbn [at_cursor offset buf]. by apply subarray_at. Qed.

Lemma read_be_at pre x post n :
  n = length x -> read_be n (at_cursor pre (x ++ post)) = be_value x.
Proof. intros H. unfold read_be, at_cursor. cbn [offset buf]. by rewrite subarray_at. Qed.

(** Any reader whose cursor is inside its buffer is one. *)
Definition cursor_ok (r : WireReader) : Prop := (offset r <= length (buf r))%nat.

Lemma cursor_split r :
  cursor_ok r -> r = at_cursor (take (offset r) (buf r)) (drop (offset r) (buf r)).
Proof.
  unfold cursor_ok, at_cursor. intros H. destruct r as [b o]; cbn in *.
  rewrite take_drop, length_take. f_equal. lia.
Qed.

(** ** Reads, both ways *)

Lemma readString_at pre v post :
  fits32 v ->
  readString (at_cursor pre (wire_string v ++ post)) =
  inr (v, at_cursor (pre ++ wire_string v) post).
Proof.
  intros Hv. unfold readString. rewrite remaining_at, length_app, length_wire_string.
  destruct (Nat.ltb_spec (4 + length v + length post) 4); [lia|].
  unfold wire_string. rewrite <- app_assoc.
  rewrite read_be_at, advance_at by (by rewrite length_be_bytes).
  rewrite be_value_be_bytes_small by done.
  rewrite remaining_at, length_app.
  destruct (N.ltb_spec (N.of_nat (length v + length post)) (N.of_nat (length v))); [lia|].
  rewrite Nat2N.id, (read_bytes_at _ v post), advance_at by done. by rewrite app_assoc.
Qed.

Lemma readUint32_at pre v post :
  v < 2 ^ 32 ->
  readUint32 (at_cursor pre (wire_u32 v ++ post)) = inr (v, at_cursor (pre ++ wire_u32 v) post).
Proof.
  intros Hv. unfold readUint32, wire_u32. rewrite remaining_at, length_app, length_be_bytes.
  destruct (Nat.ltb_spec (4 + length post) 4); [lia|].
  rewrite read_be_at, advance_at by (by rewrite length_be_bytes).
  by rewrite be_value_be_bytes_small.
Qed.

Lemma readUint64_at pre v post :
  (0 <= v < 2 ^ 64)%Z ->
  readUint64 (at_cursor pre (wire_u64 v ++ post)) = inr (v, at_cursor (pre ++ wire_u64 v) post).
Proof.
  intros Hv. unfold readUint64, wire_u64. rewrite remaining_at, length_app, length_be_bytes.
  destruct (Nat.ltb_spec (8 + length post) 8); [lia|].
  rewrite read_be_at, advance_at by (by rewrite length_be_bytes).
  rewrite be_value_be_bytes_small by lia. by rewrite Z2N.id by lia.
Qed.

Lemma expectEnd_at pre post : expectEnd (at_cursor pre post) = inr tt <-> post = [].
Proof.
  unfold expectEnd. rewrite remaining_at. destruct post; cbn; split; done.
Qed.

Lemma readString_last pre v :
  fits32 v -> readString (at_cursor pre (wire_string v)) = inr (v, at_cursor (pre ++ wire_string v) []).
Proof. intros. rewrite <- (app_nil_r (wire_string v)) at 1. by apply readString_at. Qed.

Lemma expectEnd_nil pre : expectEnd (at_cursor pre []) = inr tt.
Proof. by apply expectEnd_at. Qed.

(** The first [n] bytes of the rest, as the encoding of their value. *)
Lemma be_prefix n post :
  is_bytes post -> (n <= length post)%nat ->
  exists v rest, post = be_bytes n v ++ rest /\ v < 256 ^ N.of_nat n /\
    length (be_bytes n v) = n.
Proof.
  intros Hb Hn. exists (be_value (take n post)), (drop n post).
  assert (length (take n post) = n) as El by (rewrite length_take; lia).
  assert (is_bytes (take n post)) as Ht by (by apply Forall_take).
  pose proof (be_bytes_be_value _ Ht) as E. pose proof (be_value_lt _ Ht) as Hlt.
  rewrite El in E, Hlt. rewrite E, take_drop, El. done.
Qed.

Lemma readString_inv pre post x r :
  is_bytes post -> readString (at_cursor pre post) = inr (x, r) ->
  exists rest, post = wire_string x ++ rest /\ r = at_cursor (pre ++ wire_string x) rest /\
    fits32 x.
Proof.
  intros Hb. unfold readString. rewrite remaining_at.
  destruct (Nat.ltb_spec (length post) 4) as [|H4]; [done|].
  destruct (be_prefix 4 post Hb H4) as (v & rest & -> & Hv & El).
  rewrite read_be_at, advance_at by done. rewrite be_value_be_bytes_small by done.
  rewrite remaining_at. destruct (N.ltb_spec (N.of_nat (length rest)) v) as [|Hlen]; [done|].
  set (n := N.to_nat v). assert (n <= length rest)%nat as Hn by lia.
  rewrite <- (take_drop n rest). assert (length (take n rest) = n) as En by (rewrite length_take; lia).
  rewrite (read_bytes_at _ (take n rest)), advance_at by done. intros [= <- <-]. exists (drop n rest).
  unfold wire_string, fits32. rewrite En. subst n. rewrite N2Nat.id.
  change (2 ^ 32) with (256 ^ N.of_nat 4). by rewrite <- !app_assoc.
Qed.

Lemma readUint32_inv pre post v r :
  is_bytes post -> readUint32 (at_cursor pre post) = inr (v, r) ->
  exists rest, post = wire_u32 v ++ rest /\ r = at_cursor (pre ++ wire_u32 v) rest /\ v < 2 ^ 32.
Proof.
  intros Hb. unfold readUint32. rewrite remaining_at.
  destruct (Nat.ltb_spec (length post) 4) as [|H4]; [done|].
  destruct (be_prefix 4 post Hb H4) as (x & rest & -> & Hx & El).
  rewrite read_be_at, advance_at by done. rewrite be_value_be_bytes_small by done.
  intros [= <- <-]. by exists rest.
Qed.

Lemma readUint64_inv pre post v r :
  is_bytes post -> readUint64 (at_cursor pre post) = inr (v, r) ->
  exists rest, post = wire_u64 v ++ rest /\ r = at_cursor (pre ++ wire_u64 v) rest /\
    (0 <= v < 2 ^ 64)%Z.
Proof.
  intros Hb. unfold readUint64, wire_u64. rewrite remaining_at.
  destruct (Nat.ltb_spec (length post) 8) as [|H8]; [done|].
  destruct (be_prefix 8 post Hb H8) as (x & rest & -> & Hx & El).
  rewrite read_be_at, advance_at by done. rewrite be_value_be_bytes_small by done.
  change (256 ^ N.of_nat 8) with (2 ^ 64) in Hx.
  intros [= <- <-]. exists rest. rewrite N2Z.id. split_and!; done || lia.
Qed.

(** A read never moves the cursor past the end. *)
Lemma readString_advances r x r' :
  readString r = inr (x, r') ->
  buf r' = buf r /\ (offset r' = offset r + 4 + length x)%nat /\ cursor_ok r'.
Proof.
  unfold readString, cursor_ok.
  destruct (Nat.ltb_spec (remaining r) 4) as [|H1]; [done|].
  destruct (N.ltb_spec (N.of_nat (remaining (advance 4 r))) (read_be 4 r)) as [|H2]; [done|].
  intros [= <- <-]. unfold remaining in H2. unfold remaining in H1. cbn in *.
  unfold subarray.
  rewrite length_take, length_drop. split_and!; [done|lia..].
Qed.

Lemma wire_string_is_bytes_inv b : is_bytes (wire_string b) -> is_bytes b.
Proof. unfold wire_string. by intros [_ ?]%is_bytes_app. Qed.

(** The bytes before a cursor. *)
Lemma subarray_prefix pre post b :
  b = pre ++ post -> subarray 0 (length pre) b = pre.
Proof.
  intros ->. unfold subarray. rewrite drop_0, Nat.sub_0_r. by rewrite take_app_length.
Qed.

(** Take a successful parse of a buffer apart: each read puts its encoding in
    front of the rest. *)
Ltac read_inv :=
  repeat match goal with
  | H : context [new_reader ?b] |- _ => change (new_reader b) with (at_cursor [] b) in H
  | Hb : is_bytes ?post, H : readString (at_cursor ?pre ?post) = inr (?x, ?r) |- _ =>
      let rest := fresh "rest" in let E := fresh "Ep" in
      apply (readString_inv _ _ _ _ Hb) in H as (rest & E & -> & ?); subst post;
      let Hx := fresh "Hx" in
      apply is_bytes_app in Hb as [Hx Hb]; apply wire_string_is_bytes_inv in Hx
  | Hb : is_bytes ?post, H : readUint32 (at_cursor ?pre ?post) = inr (?x, ?r) |- _ =>
      let rest := fresh "rest" in let E := fresh "Ep" in
      apply (readUint32_inv _ _ _ _ Hb) in H as (rest & E & -> & ?); subst post;
      apply is_bytes_app in Hb as [? Hb]
  | Hb : is_bytes ?post, H : readUint64 (at_cursor ?pre ?post) = inr (?x, ?r) |- _ =>
      let rest := fresh "rest" in let E := fresh "Ep" in
      apply (readUint64_inv _ _ _ _ Hb) in H as (rest & E & -> & ?); subst post;
      apply is_bytes_app in Hb as [? Hb]
  | H : expectEnd (at_cursor ?pre ?post) = inr ?u |- _ =>
      destruct u; apply expectEnd_at in H; subst post
  end.

(** ** Packed strings *)

Lemma packed_step_decreases s s' :
  packed_step s = inl s' -> (remaining (fst s') < remaining (fst s))%nat.
Proof.
  unfold packed_step. destruct s as [r out]. destruct (Nat.ltb_spec 0 (remaining r)); [|done].
  destruct (readString r) as [e|[x r']] eqn:E; intros [= <-].
  apply readString_advances in E as (Hb & Ho & Hok). cbn. unfold remaining, cursor_ok in *.
  rewrite Hb in *. lia.
Qed.

Lemma packed_loop_returns packed : exists res, packed_loop packed = Some res.
Proof.
  apply (js_while_total packed_step (fun s => remaining (fst s))).
  - apply packed_step_decreases.
  - unfold remaining. cbn. lia.
Qed.

(** The loop from a cursor: it reads the strings the rest is made of, and
    nothing else is read. *)
Lemma packed_from pre l out fuel :
  Forall fits32 l -> (length (flat_map wire_string l) < fuel)%nat ->
  js_while packed_step fuel (at_cursor pre (flat_map wire_string l), out) =
  Some (inr (out ++ l)).
Proof.
  intros Hl. revert pre out fuel. induction Hl as [|x l Hx _ IH]; intros pre out fuel Hf;
    (destruct fuel as [|fuel]; [cbn in Hf; lia|]); cbn [js_while packed_step].
  - rewrite remaining_at. cbn. by rewrite app_nil_r.
  - rewrite remaining_at. cbn [flat_map] in *. rewrite length_app, length_wire_string in *.
    destruct (Nat.ltb_spec 0 (4 + length x + length (flat_map wire_string l))); [|lia].
    rewrite readString_at by done. rewrite IH by lia. by rewrite <- app_assoc.
Qed.

Lemma packed_from_inv fuel pre post out l :
  is_bytes post -> js_while packed_step fuel (at_cursor pre post, out) = Some (inr l) ->
  exists l', l = out ++ l' /\ post = flat_map wire_string l' /\ Forall fits32 l'.
Proof.
  revert pre post out. induction fuel as [|fuel IH]; intros pre post out Hb; [done|].
  cbn [js_while packed_step]. rewrite remaining_at.
  destruct (Nat.ltb_spec 0 (length post)) as [Hp|Hp].
  - destruct (readString (at_cursor pre post)) as [e|[x r]] eqn:E; [done|].
    apply readString_inv in E as (rest & -> & -> & Hx); [|done].
    intros H. apply IH in H as (l' & -> & -> & Hl'); [|by apply Forall_app in Hb as [_ ?]].
    exists (x :: l'). rewrite <- app_assoc. split_and!; [done..|by constructor].
  - intros [= <-]. exists []. destruct post; [|cbn in Hp; lia].
    by rewrite app_nil_r.
Qed.

Lemma readPackedStrings_pack l :
  Forall fits32 l -> readPackedStrings (flat_map wire_string l) = inr l.
Proof.
  intros Hl. unfold readPackedStrings, packed_loop.
  change (new_reader ?b) with (at_cursor [] b). by rewrite packed_from by (done || lia).
Qed.

Lemma readPackedStrings_inv packed l :
  is_bytes packed -> readPackedStrings packed = inr l ->
  packed = flat_map wire_string l /\ Forall fits32 l.
Proof.
  intros Hb. unfold readPackedStrings. destruct (packed_loop_returns packed) as [res E].
  rewrite E. intros ->. unfold packed_loop in E.
  change (new_reader ?b) with (at_cursor [] b) in E.
  apply packed_from_inv in E as (l' & -> & ? & ?); done.
Qed.

(** ** Writes *)

Lemma toBuffer_push w bs : toBuffer (push w bs) = toBuffer w ++ concat bs.
Proof. unfold toBuffer, push. cbn. by rewrite concat_app. Qed.

Lemma writeUInt32BE_inr v b : writeUInt32BE v = inr b <-> v < 2 ^ 32 /\ b = wire_u32 v.
Proof.
  unfold writeUInt32BE, wire_u32. destruct (N.leb_spec v 0xffffffff); split.
  - intros [= <-]. split; [lia|done].
  - by intros [_ ->].
  - done.
  - intros [? _]. lia.
Qed.

Lemma writeString_inr b w w' :
  writeString b w = inr w' -> fits32 b /\ toBuffer w' = toBuffer w ++ wire_string b.
Proof.
  unfold writeString. intros H. ssh_inv. apply writeUInt32BE_inr in E as [Hv ->]. subst w'.
  split; [done|]. rewrite toBuffer_push. cbn [concat]. by rewrite app_nil_r.
Qed.

Lemma writeString_fits b w :
  fits32 b -> exists w', writeString b w = inr w' /\ toBuffer w' = toBuffer w ++ wire_string b.
Proof.
  intros H. destruct (writeString b w) as [e|w'] eqn:E.
  - unfold writeString in E. by rewrite (proj2 (writeUInt32BE_inr _ _) (conj H eq_refl)) in E.
  - apply writeString_inr in E as [_ ?]. eauto.
Qed.

Lemma writeUint32_inr v w w' :
  writeUint32 v w = inr w' -> v < 2 ^ 32 /\ toBuffer w' = toBuffer w ++ wire_u32 v.
Proof.
  unfold writeUint32. intros H. ssh_inv. apply writeUInt32BE_inr in E as [Hv ->]. subst w'.
  split; [done|]. rewrite toBuffer_push. cbn [concat]. by rewrite app_nil_r.
Qed.

Lemma writeUint64_inr v w w' :
  writeUint64 v w = inr w' -> (0 <= v < 2 ^ 64)%Z /\ toBuffer w' = toBuffer w ++ wire_u64 v.
Proof.
  unfold writeUint64. destruct (Z.ltb_spec v 0), (Z.ltb_spec 0xffffffffffffffff v); try done.
  cbn [orb]. intros H1. ssh_inv. subst w'. split; [lia|].
  rewrite toBuffer_push. cbn [concat]. by rewrite app_nil_r.
Qed.

Lemma writeUint64_fits v w :
  (0 <= v < 2 ^ 64)%Z ->
  exists w', writeUint64 v w = inr w' /\ toBuffer w' = toBuffer w ++ wire_u64 v.
Proof.
  intros H. destruct (writeUint64 v w) as [e|w'] eqn:E.
  - unfold writeUint64 in E.
    destruct (Z.ltb_spec v 0), (Z.ltb_spec 0xffffffffffffffff v); done || lia.
  - apply writeUint64_inr in E as [_ ?]. eauto.
Qed.

Lemma writeUint32_fits v w :
  v < 2 ^ 32 ->
  exists w', writeUint32 v w = inr w' /\ toBuffer w' = toBuffer w ++ wire_u32 v.
Proof.
  intros H. destruct (writeUint32 v w) as [e|w'] eqn:E.
  - unfold writeUint32 in E. by rewrite (proj2 (writeUInt32BE_inr _ _) (conj H eq_refl)) in E.
  - apply writeUint32_inr in E as [_ ?]. eauto.
Qed.

(** Read a chain of writes off as the bytes it adds. *)
Ltac wire_inv :=
  repeat match goal with
  | H : writeText _ _ = inr _ |- _ => unfold writeText in H
  | H : writeString _ _ = inr _ |- _ => apply writeString_inr in H as [? H]
  | H : writeUint32 _ _ = inr _ |- _ => apply writeUint32_inr in H as [? H]
  | H : writeUint64 _ _ = inr _ |- _ => apply writeUint64_inr in H as [? H]
  end.

Lemma read_result_inj {A} (a b : A) p q x y :
  (inr (a, at_cursor p x) : ssh _) = inr (b, at_cursor q y) -> a = b /\ p ++ x = q ++ y.
Proof.
  intros E. apply (f_equal (fun r => match r with inr z => Some z | inl _ => None end)) in E.
  assert ((a, at_cursor p x) = (b, at_cursor q y)) as E' by congruence.
  apply pair_eq in E' as [-> E']. by apply (f_equal buf) in E'.
Qed.

(** Two strings one after the other part at the same place. *)
Lemma wire_string_app_inj a b x y :
  fits32 a -> fits32 b -> wire_string a ++ x = wire_string b ++ y -> a = b /\ x = y.
Proof.
  intros Ha Hb E. assert (inr (a, at_cursor ([] ++ wire_string a) x) =
    (inr (b, at_cursor ([] ++ wire_string b) y) : ssh _)) as E'.
  { rewrite <- !readString_at by done. by rewrite E. }
  apply read_result_inj in E' as [-> E']. split; [done|]. by apply app_inv_head in E'.
Qed.

Lemma wire_u64_inj u v x y :
  (0 <= u < 2 ^ 64)%Z -> (0 <= v < 2 ^ 64)%Z -> wire_u64 u ++ x = wire_u64 v ++ y ->
  u = v /\ x = y.
Proof.
  intros Hu Hv E. assert (inr (u, at_cursor ([] ++ wire_u64 u) x) =
    (inr (v, at_cursor ([] ++ wire_u64 v) y) : ssh _)) as E'.
  { rewrite <- !readUint64_at by done. by rewrite E. }
  apply read_result_inj in E' as [-> E']. split; [done|]. by apply app_inv_head in E'.
Qed.

(** ** Properties *)

(** A packed field (principals, options, extensions) unpacks to a list of
    strings exactly when it is the concatenation of their encodings, each
    shorter than 2^32 bytes: the loop of [readPackedStrings] always returns,
    drops nothing, invents nothing and leaves no tail. *)
Theorem readPackedStrings_spec (packed : bytes) (l : list bytes) (Hb : is_bytes packed) :
  (exists res, packed_loop packed = Some res) /\
  (readPackedStrings packed = inr l <->
   packed = flat_map wire_string l /\ Forall fits32 l).
Proof.
  split; [apply packed_loop_returns|split].
  - by apply readPackedStrings_inv.
  - intros [-> Hl]. by apply readPackedStrings_pack.
Qed.

Lemma readPackedStrings_spec_witness :
  is_bytes [0; 0; 0; 1; 7; 0; 0; 0; 0] /\
  readPackedStrings [0; 0; 0; 1; 7; 0; 0; 0; 0] = inr [[7]; []].
Proof.
  assert (is_bytes [0; 0; 0; 1; 7; 0; 0; 0; 0]) as Hb by by repeat constructor.
  split; [exact Hb|].
  apply (proj2 (readPackedStrings_spec [0; 0; 0; 1; 7; 0; 0; 0; 0] [[7]; []] Hb)).
  split; [reflexivity|]. repeat constructor.
Defined.

(** No read goes outside the buffer: a read that returns leaves the
    cursor inside it, moved by exactly the size of what it read, and returns
    the bytes it passed over; with fewer bytes left than that, it throws. *)
Theorem reads_in_bounds (r : WireReader) (Hr : cursor_ok r) :
  match readString r with
  | inr (x, r') =>
      cursor_ok r' /\ buf r' = buf r /\ (position r' = position r + 4 + length x)%nat /\
      x = subarray (position r + 4) (position r') (buf r)
  | inl e =>
      e = TruncatedStringLength /\ (remaining r < 4)%nat \/
      e = TruncatedStringBody /\ N.of_nat (remaining r) < 4 + read_be 4 r
  end /\
  match readUint32 r with
  | inr (_, r') => cursor_ok r' /\ position r' = (position r + 4)%nat
  | inl e => e = TruncatedUint32 /\ (remaining r < 4)%nat
  end /\
  match readUint64 r with
  | inr (_, r') => cursor_ok r' /\ position r' = (position r + 8)%nat
  | inl e => e = TruncatedUint64 /\ (remaining r < 8)%nat
  end.
Proof.
  unfold cursor_ok, position in *. split_and!.
  - destruct (readString r) as [e|[x r']] eqn:E.
    + unfold readString in E. destruct (Nat.ltb_spec (remaining r) 4) as [|H4]; [by injection E as <-; left|].
      destruct (N.ltb_spec (N.of_nat (remaining (advance 4 r))) (read_be 4 r)); [|done].
      injection E as <-. right. split; [done|]. unfold remaining in *. cbn in *. lia.
    + pose proof (readString_advances r x r' E) as (Hb & Ho & Hok). split_and!; [done..|].
      unfold readString in E. destruct (Nat.ltb_spec (remaining r) 4); [done|].
      destruct (N.ltb_spec (N.of_nat (remaining (advance 4 r))) (read_be 4 r)); [done|].
      by injection E as <- <-.
  - unfold readUint32, remaining. destruct (Nat.ltb_spec (length (buf r) - offset r) 4); cbn; split; done || lia.
  - unfold readUint64, remaining. destruct (Nat.ltb_spec (length (buf r) - offset r) 8); cbn; split; done || lia.
Qed.

Lemma reads_in_bounds_witness :
  cursor_ok (new_reader [0; 0; 0; 9; 1]) /\ readString (new_reader [0; 0; 0; 9; 1]) = inl TruncatedStringBody.
Proof.
  assert (cursor_ok (new_reader [0; 0; 0; 9; 1])) as Hr by (unfold cursor_ok; cbn; lia).
  pose proof (reads_in_bounds _ Hr) as [H _]. split; [exact Hr|].
  vm_compute in H |- *. reflexivity.
Defined.

#[global] Arguments wire_string : simpl never.
#[global] Arguments wire_u32 : simpl never.
#[global] Arguments wire_u64 : simpl never.
