(* ===== verification/SshKeys.v ===== *)
(** * Ed25519 keys: [packages/ssh-cert/src/keys.ts]

    Key blobs, key lines, the SubjectPublicKeyInfo form and signature checks.
    The curve itself is [node:crypto]'s ([NodeCrypto]); a signer is the
    record the sources pass around, and [signer_ok] is what signing and
    verifying promise of each other. *)
From S2P Require Import Prelude JsBytes SshWire.
Local Open Scope N_scope.

(** [node:crypto]: [verify(null, data, createPublicKey(der), signature)], which
    may throw; SHA-256; and a private key read from a PEM text. *)
Record KeyObject := {
  asymmetricKeyType : option jsstr;
  export_spki : bytes;
  key_sign : bytes -> bytes;
}.

Class NodeCrypto := {
  crypto_verify : bytes -> bytes -> bytes -> option bool;
  sha256 : bytes -> bytes;
  createPrivateKey : jsstr -> option KeyObject;
}.

Definition ED25519_KEY_TYPE : jsstr := js "ssh-ed25519".
Definition ED25519_RAW_KEY_LENGTH : nat := 32.
Definition ED25519_SIGNATURE_LENGTH : nat := 64.

(** [Buffer.from("302a300506032b6570032100", "hex")] *)
Definition ED25519_SPKI_PREFIX : bytes :=
  [0x30; 0x2a; 0x30; 0x05; 0x06; 0x03; 0x2b; 0x65; 0x70; 0x03; 0x21; 0x00].

Definition ed25519KeyBlob (raw : bytes) : ssh bytes :=
  if negb (length raw =? ED25519_RAW_KEY_LENGTH)%nat then throw (KeyLength (length raw))
  else
    w ← writeText ED25519_KEY_TYPE new_writer;
    w ← writeString raw w;
    mret (toBuffer w).

Definition parseEd25519KeyBlob (blob : bytes) : ssh bytes :=
  '(t, reader) ← readString (new_reader blob);
  let type := utf8_string t in
  if negb (bool_decide (type = ED25519_KEY_TYPE)) then throw (UnsupportedKeyType type)
  else
    '(raw, reader) ← readString reader;
    _ ← expectEnd reader;
    if negb (length raw =? ED25519_RAW_KEY_LENGTH)%nat then throw (KeyLength (length raw))
    else mret raw.

(** [parts[1]] of a line whose first word is [type], if it has two words. *)
Definition line_word (type line : jsstr) : option jsstr :=
  match split_spaces (trim line) with
  | t :: w :: _ => if bool_decide (t = type) then Some w else None
  | _ => None
  end.

Section Lines.
Context `{NodeBase64}.

Definition parseEd25519PublicKeyLine (line : jsstr) : ssh bytes :=
  match line_word ED25519_KEY_TYPE line with
  | None => throw NotAKeyLine
  | Some w =>
      let blob := from_base64 w in
      if (length blob =? 0)%nat then throw EmptyKeyMaterial
      else parseEd25519KeyBlob blob
  end.
End Lines.

Definition formatEd25519PublicKeyLine (raw : bytes) (comment : option jsstr) : ssh jsstr :=
  blob ← ed25519KeyBlob raw;
  let base := ED25519_KEY_TYPE ++ js " " ++ to_base64 blob in
  mret (match comment with
        | Some (c :: cs) => base ++ js " " ++ c :: cs
        | _ => base
        end).

(** [s.replace(/=+$/, "")] *)
Fixpoint strip_equals (s : jsstr) : jsstr :=
  match s with
  | [] => []
  | c :: s' => if forallb (N.eqb ch_equals) s then [] else c :: strip_equals s'
  end.

Section Crypto.
Context `{NodeCrypto}.

Definition ed25519Fingerprint (raw : bytes) : ssh jsstr :=
  blob ← ed25519KeyBlob raw;
  mret (js "SHA256:" ++ strip_equals (to_base64 (sha256 blob))).

Definition spkiToEd25519Raw (der : bytes) : ssh bytes :=
  if negb (length der =? length ED25519_SPKI_PREFIX + ED25519_RAW_KEY_LENGTH)%nat
     || negb (bool_decide (subarray 0 (length ED25519_SPKI_PREFIX) der = ED25519_SPKI_PREFIX))
  then throw NotSpki
  else mret (drop (length ED25519_SPKI_PREFIX) der).

(** The DER text [publicKeyObjectFromRaw] hands to [createPublicKey]. *)
Definition publicKeyObjectFromRaw (raw : bytes) : bytes := ED25519_SPKI_PREFIX ++ raw.

Definition ed25519Verify (raw data signature : bytes) : ssh bool :=
  if negb (length signature =? ED25519_SIGNATURE_LENGTH)%nat then mret false
  else match crypto_verify (publicKeyObjectFromRaw raw) data signature with
       | Some ok => mret ok
       | None => throw CryptoError
       end.

Record Ed25519Signer := {
  publicKey : bytes;
  sign : bytes -> ssh bytes;
}.

Definition ed25519SignerFromPrivateKeyPem (pem : jsstr) : ssh Ed25519Signer :=
  match createPrivateKey pem with
  | None => throw CryptoError
  | Some privateKey =>
      if negb (bool_decide (asymmetricKeyType privateKey = Some (js "ed25519")))
      then throw CryptoError
      else
        publicKey ← spkiToEd25519Raw (export_spki privateKey);
        mret {| publicKey := publicKey; sign := fun data => mret (key_sign privateKey data) |}
  end.

(** A signer whose signatures are 64 bytes and verify under its key. *)
Record signer_ok (s : Ed25519Signer) : Prop := {
  signer_key_length : length (publicKey s) = ED25519_RAW_KEY_LENGTH;
  signer_key_bytes : is_bytes (publicKey s);
  signer_signs data :
    exists sig, sign s data = inr sig /\ length sig = ED25519_SIGNATURE_LENGTH /\ is_bytes sig /\
      crypto_verify (publicKeyObjectFromRaw (publicKey s)) data sig = Some true;
}.

Lemma ed25519Verify_true raw data sig :
  ed25519Verify raw data sig = inr true <->
  length sig = ED25519_SIGNATURE_LENGTH /\
  crypto_verify (publicKeyObjectFromRaw raw) data sig = Some true.
Proof.
  unfold ed25519Verify. destruct (Nat.eqb_spec (length sig) ED25519_SIGNATURE_LENGTH); cbn [negb].
  - destruct (crypto_verify _ data sig) as [[]|]; split; try done; by intros [??].
  - split; [done|by intros [??]].
Qed.
End Crypto.

(** ** Key blobs *)

Lemma ED25519_KEY_TYPE_ascii : is_ascii ED25519_KEY_TYPE.
Proof. by repeat constructor. Qed.

Lemma fits32_short (b : bytes) : (length b <= 1000)%nat -> fits32 b.
Proof. unfold fits32. lia. Qed.

Definition key_blob (raw : bytes) : bytes := wire_string ED25519_KEY_TYPE ++ wire_string raw.

Lemma ed25519KeyBlob_inr raw b :
  ed25519KeyBlob raw = inr b <-> length raw = ED25519_RAW_KEY_LENGTH /\ b = key_blob raw.
Proof.
  unfold ed25519KeyBlob, key_blob.
  destruct (Nat.eqb_spec (length raw) ED25519_RAW_KEY_LENGTH) as [Hl|]; cbn [negb]; [|split; [done|by intros []]].
  split.
  - intros H. ssh_inv. wire_inv. rewrite utf8_ascii in * by apply ED25519_KEY_TYPE_ascii.
    split; [done|]. by rewrite <- H, E0, E.
  - intros [_ ->]. unfold writeText. rewrite utf8_ascii by apply ED25519_KEY_TYPE_ascii.
    destruct (writeString_fits ED25519_KEY_TYPE new_writer) as (w & -> & Hw);
      [by apply fits32_short; vm_compute; lia|]. cbn.
    destruct (writeString_fits raw w) as (w' & -> & Hw');
      [apply fits32_short; rewrite Hl; unfold ED25519_RAW_KEY_LENGTH; lia|]. cbn.
    by rewrite Hw', Hw.
Qed.

(** A blob parses to the key it encodes, and to nothing else. *)
Lemma parseEd25519KeyBlob_inr blob raw :
  is_bytes blob ->
  (parseEd25519KeyBlob blob = inr raw <->
   length raw = ED25519_RAW_KEY_LENGTH /\ blob = key_blob raw).
Proof.
  intros Hb. unfold parseEd25519KeyBlob, key_blob. split.
  - intros H. ssh_inv. read_inv. to_prop. subst.
    rename select (utf8_string _ = _) into Ht.
    apply utf8_string_ascii in Ht; [|apply ED25519_KEY_TYPE_ascii]. subst.
    by rewrite app_nil_r.
  - intros [Hl ->]. change (new_reader ?b) with (at_cursor [] b).
    rewrite readString_at by (apply fits32_short; vm_compute; lia). cbn [mbind ssh_bind].
    rewrite utf8_string_ascii_id by apply ED25519_KEY_TYPE_ascii.
    rewrite bool_decide_eq_true_2 by done. cbn [negb].
    rewrite <- (app_nil_r (wire_string raw)), readString_at
      by (apply fits32_short; rewrite Hl; unfold ED25519_RAW_KEY_LENGTH; lia).
    cbn [mbind ssh_bind]. rewrite (proj2 (expectEnd_at _ [])) by done. cbn [mbind ssh_bind].
    by rewrite Hl.
Qed.

Lemma key_blob_inj r1 r2 :
  length r1 = ED25519_RAW_KEY_LENGTH -> length r2 = ED25519_RAW_KEY_LENGTH ->
  key_blob r1 = key_blob r2 -> r1 = r2.
Proof.
  intros H1 H2 E. unfold key_blob in E. apply app_inv_head in E.
  rewrite <- (app_nil_r (wire_string r1)), <- (app_nil_r (wire_string r2)) in E.
  apply wire_string_app_inj in E as [? _]; [done|..];
    apply fits32_short; unfold ED25519_RAW_KEY_LENGTH in *; lia.
Qed.

Lemma key_blob_is_bytes raw : is_bytes raw -> is_bytes (key_blob raw).
Proof.
  intros. apply is_bytes_app. split; apply wire_string_is_bytes; [|done].
  by repeat constructor.
Qed.

(** ** Lines *)

Lemma line_word_format type w rest :
  no_space type -> type <> [] -> no_space w -> w <> [] ->
  (rest = [] \/ exists s, rest = 32 :: s) ->
  line_word type (type ++ js " " ++ w ++ rest) = Some w.
Proof.
  intros H1 N1 H2 N2 Hr. unfold line_word.
  destruct (split_trim_line type w rest H1 N1 H2 N2 Hr) as [ws Hws].
  change (js " " ++ w ++ rest) with (32 :: w ++ rest). rewrite Hws.
  by rewrite bool_decide_eq_true_2.
Qed.

(** A key rendered as an [authorized_keys] line parses back to the same
    key, whatever the comment holds (spaces included), and the line is refused
    for a key that is not 32 bytes long. *)
Theorem public_key_line_roundtrip `{NodeBase64} (raw : bytes) (comment : option jsstr)
  (Hb : is_bytes raw) :
  match formatEd25519PublicKeyLine raw comment with
  | inr line => parseEd25519PublicKeyLine line = inr raw
  | inl e => length raw <> ED25519_RAW_KEY_LENGTH /\ e = KeyLength (length raw)
  end.
Proof.
  destruct (formatEd25519PublicKeyLine raw comment) as [e|line] eqn:E;
    unfold formatEd25519PublicKeyLine in E.
  - destruct (ed25519KeyBlob raw) as [e'|b] eqn:Eb; [|done]. injection E as ->.
    destruct (Nat.eqb_spec (length raw) ED25519_RAW_KEY_LENGTH) as [Hl|Hl].
    + by rewrite (proj2 (ed25519KeyBlob_inr raw (key_blob raw))) in Eb.
    + split; [done|]. unfold ed25519KeyBlob in Eb.
      destruct (Nat.eqb_spec (length raw) ED25519_RAW_KEY_LENGTH); [done|]. by injection Eb as <-.
  - ssh_inv. apply ed25519KeyBlob_inr in E0 as [Hl ->].
    unfold parseEd25519PublicKeyLine. set (b64 := to_base64 (key_blob raw)) in E.
    assert (exists rest, line = ED25519_KEY_TYPE ++ js " " ++ b64 ++ rest /\
      (rest = [] \/ exists s, rest = 32 :: s)) as (rest & -> & Hr).
    { subst line. destruct comment as [[|c cs]|]; [exists []|exists (32 :: c :: cs)|exists []];
        rewrite ?app_nil_r, <- ?app_assoc; (split; [done|]); eauto. }
    rewrite line_word_format; [|by repeat constructor|done|apply to_base64_no_space|done|done].
    subst b64. rewrite from_base64_to_base64 by (by apply key_blob_is_bytes).
    apply parseEd25519KeyBlob_inr; [by apply key_blob_is_bytes|done].
Qed.

Lemma public_key_line_roundtrip_witness :
  is_bytes (repeat 7 32) /\
  match formatEd25519PublicKeyLine (repeat 7 32) (Some (js " me@host ")) with
  | inr line => @parseEd25519PublicKeyLine node_base64 line = inr (repeat 7 32)
  | inl e => False
  end.
Proof.
  assert (is_bytes (repeat 7 32)) as Hb by (by repeat constructor).
  split; [exact Hb|].
  exact (@public_key_line_roundtrip node_base64 (repeat 7 32) (Some (js " me@host ")) Hb).
Defined.
