(* ===== verification/SshCert.v ===== *)
(** * SSH user certificates: [packages/ssh-cert/src/cert.ts]

    Minting, parsing and the one verification law. A certificate blob is the
    signed span [cert_tbs] of twelve fields followed by a signature string;
    parsing and minting are exact inverses of that layout, which is what the
    security statements rest on. Random bytes are arguments, a [Date] is its
    milliseconds ([None] when invalid). *)
From S2P Require Import Prelude JsBytes SshWire SshKeys.
Local Open Scope N_scope.

Definition ED25519_CERT_TYPE : jsstr := js "ssh-ed25519-cert-v01@openssh.com".
Definition SSH_CERT_TYPE_USER : N := 1.
Definition CERT_EXT_SANDBOX_ID : jsstr := js "sandbox-id@onecli.sh".
Definition CERT_EXT_WORKSPACE_ID : jsstr := js "workspace-id@onecli.sh".
Definition CERT_EXT_USER_ID : jsstr := js "user-id@onecli.sh".
Definition CERT_EXT_PERMIT_PTY : jsstr := js "permit-pty".

Record SshCertificateField := { field_name : jsstr; field_data : bytes }.

#[export] Instance SshCertificateField_eq_dec : EqDecision SshCertificateField.
Proof. solve_decision. Defined.

Record SshCertificate := {
  cert_publicKey : bytes;
  cert_serial : Z;
  cert_certType : N;
  cert_keyId : jsstr;
  cert_principals : list jsstr;
  cert_validAfter : Z;
  cert_validBefore : Z;
  cert_criticalOptions : list SshCertificateField;
  cert_extensions : list SshCertificateField;
  cert_signatureKey : bytes;
  cert_signature : bytes;
  cert_tbs : bytes;
  cert_raw : bytes;
}.

(** [Date]: [getTime()] in milliseconds, [None] for an invalid date. *)
Abbreviation Date := (option Z).

(** [BigInt(Math.floor(d.getTime() / 1000))] *)
Definition epochSeconds (d : Date) : ssh Z :=
  match d with Some ms => mret (ms / 1000)%Z | None => throw InvalidDate end.

Definition packFields (fields : list SshCertificateField) : ssh bytes :=
  w ← fold_left (fun writer field =>
        w ← writer;
        w ← writeText (field_name field) w;
        writeString (field_data field) w) fields (mret new_writer);
  mret (toBuffer w).

(** The loop of [unpackFields], two parts at a time. *)
Fixpoint field_pairs (parts : list bytes) : list SshCertificateField :=
  match parts with
  | n :: d :: parts' => {| field_name := utf8_string n; field_data := d |} :: field_pairs parts'
  | _ => []
  end.

Definition unpackFields (packed : bytes) : ssh (list SshCertificateField) :=
  parts ← readPackedStrings packed;
  if negb (length parts mod 2 =? 0)%nat then throw OddPacking
  else mret (field_pairs parts).

Definition packedValue (value : jsstr) : ssh bytes :=
  w ← writeText value new_writer; mret (toBuffer w).

Definition unpackValue (data : bytes) : ssh jsstr :=
  '(v, reader) ← readString (new_reader data);
  _ ← expectEnd reader;
  mret (utf8_string v).

Definition getExtensionValue (cert : SshCertificate) (name : jsstr) : ssh (option jsstr) :=
  match List.find (fun ext => bool_decide (field_name ext = name)) (cert_extensions cert) with
  | None => mret None
  | Some field => v ← unpackValue (field_data field); mret (Some v)
  end.

(** ** Minting *)

Record BuildUserCertificateOptions := {
  opt_userPublicKey : bytes;
  opt_keyId : jsstr;
  opt_principal : jsstr;
  opt_validAfter : Date;
  opt_validBefore : Date;
  opt_sandboxId : jsstr;
  opt_workspaceId : jsstr;
  opt_userId : jsstr;
  opt_serial : option Z;
}.

Record BuiltCertificate := { built_blob : bytes; built_line : jsstr; built_serial : Z }.

(** [a.name < b.name ? -1 : a.name > b.name ? 1 : 0] as an order. *)
Definition field_leb (a b : SshCertificateField) : bool := str_leb (field_name a) (field_name b).

(** The checks and the to-be-signed span, up to [signer.sign(tbs)]. *)
Definition certificateTbs (opts : BuildUserCertificateOptions) (signer : Ed25519Signer)
    (serial : Z) (random32 : bytes) : ssh bytes :=
  if bool_decide (opt_principal opts = []) then throw PrincipalRequired
  else
    validAfter ← epochSeconds (opt_validAfter opts);
    validBefore ← epochSeconds (opt_validBefore opts);
    if (validBefore <=? validAfter)%Z then throw EmptyWindow
    else
      sandbox ← packedValue (opt_sandboxId opts);
      user ← packedValue (opt_userId opts);
      workspace ← packedValue (opt_workspaceId opts);
      let extensions := js_sort field_leb
        [ {| field_name := CERT_EXT_PERMIT_PTY; field_data := [] |};
          {| field_name := CERT_EXT_SANDBOX_ID; field_data := sandbox |};
          {| field_name := CERT_EXT_USER_ID; field_data := user |};
          {| field_name := CERT_EXT_WORKSPACE_ID; field_data := workspace |} ] in
      caKeyBlob ← ed25519KeyBlob (publicKey signer);
      w ← writeText ED25519_CERT_TYPE new_writer;
      w ← writeString random32 w;
      key ← (if (length (opt_userPublicKey opts) =? 32)%nat then mret (opt_userPublicKey opts)
             else parseEd25519KeyBlob (opt_userPublicKey opts));
      w ← writeString key w;
      w ← writeUint64 serial w;
      w ← writeUint32 SSH_CERT_TYPE_USER w;
      w ← writeText (opt_keyId opts) w;
      principals ← writeText (opt_principal opts) new_writer;
      w ← writeString (toBuffer principals) w;
      w ← writeUint64 validAfter w;
      w ← writeUint64 validBefore w;
      critical ← packFields [];
      w ← writeString critical w;
      packed ← packFields extensions;
      w ← writeString packed w;
      w ← writeString [] w;
      w ← writeString caKeyBlob w;
      mret (toBuffer w).

(** [opts.serial ?? randomBytes(8).readBigUInt64BE(0) >> 1n] *)
Definition certificateSerial (opts : BuildUserCertificateOptions) (random8 : bytes) : Z :=
  default (Z.shiftr (Z.of_N (be_value random8)) 1) (opt_serial opts).

Definition buildUserCertificate (opts : BuildUserCertificateOptions) (signer : Ed25519Signer)
    (random8 random32 : bytes) : ssh BuiltCertificate :=
  let serial := certificateSerial opts random8 in
  tbs ← certificateTbs opts signer serial random32;
  rawSignature ← sign signer tbs;
  if negb (length rawSignature =? ED25519_SIGNATURE_LENGTH)%nat
  then throw (SignatureLength (length rawSignature))
  else
    s ← writeText (js "ssh-ed25519") new_writer;
    s ← writeString rawSignature s;
    w ← writeString (toBuffer s) (writeBytes tbs new_writer);
    let blob := toBuffer w in
    mret {| built_blob := blob;
            built_line := ED25519_CERT_TYPE ++ js " " ++ to_base64 blob;
            built_serial := serial |}.

(** ** Parsing *)

Definition parseCertificateBlob (blob : bytes) : ssh SshCertificate :=
  '(t, reader) ← readString (new_reader blob);
  let keyType := utf8_string t in
  if negb (bool_decide (keyType = ED25519_CERT_TYPE)) then throw (UnsupportedCertType keyType)
  else
    '(_, reader) ← readString reader;
    '(publicKey, reader) ← readString reader;
    if negb (length publicKey =? 32)%nat then throw (UserKeyLength (length publicKey))
    else
      '(serial, reader) ← readUint64 reader;
      '(certType, reader) ← readUint32 reader;
      '(keyId, reader) ← readString reader;
      '(packed, reader) ← readString reader;
      principals ← readPackedStrings packed;
      '(validAfter, reader) ← readUint64 reader;
      '(validBefore, reader) ← readUint64 reader;
      '(options, reader) ← readString reader;
      criticalOptions ← unpackFields options;
      '(exts, reader) ← readString reader;
      extensions ← unpackFields exts;
      '(_, reader) ← readString reader;
      '(signatureKey, reader) ← readString reader;
      let tbs := subarray 0 (position reader) blob in
      '(signatureBlob, reader) ← readString reader;
      _ ← expectEnd reader;
      '(algo, sigReader) ← readString (new_reader signatureBlob);
      let sigAlgo := utf8_string algo in
      if negb (bool_decide (sigAlgo = js "ssh-ed25519"))
      then throw (UnsupportedSignatureAlgorithm sigAlgo)
      else
        '(signature, sigReader) ← readString sigReader;
        _ ← expectEnd sigReader;
        mret {| cert_publicKey := publicKey;
                cert_serial := serial;
                cert_certType := certType;
                cert_keyId := utf8_string keyId;
                cert_principals := map utf8_string principals;
                cert_validAfter := validAfter;
                cert_validBefore := validBefore;
                cert_criticalOptions := criticalOptions;
                cert_extensions := extensions;
                cert_signatureKey := signatureKey;
                cert_signature := signature;
                cert_tbs := tbs;
                cert_raw := blob |}.

Definition parseCertificateLine `{NodeBase64} (line : jsstr) : ssh SshCertificate :=
  match line_word ED25519_CERT_TYPE line with
  | None => throw NotACertLine
  | Some w => parseCertificateBlob (from_base64 w)
  end.

(** ** Verification *)

Record VerifyUserCertificateOptions := {
  caPublicKey : bytes;
  principal : option jsstr;
  now : option Date;
  ignoreValidityWindow : bool;
}.

Section Verify.
Context `{NodeCrypto}.

(** [clock] is what [new Date()] would be. *)
Definition assertValidUserCertificate (clock : Date) (cert : SshCertificate)
    (opts : VerifyUserCertificateOptions) : ssh unit :=
  let refuse r : ssh unit := throw (CertificateVerificationError r) in
  if negb (cert_certType cert =? SSH_CERT_TYPE_USER) then refuse not_user_cert
  else
    embeddedCa ← parseEd25519KeyBlob (cert_signatureKey cert);
    if negb (bool_decide (embeddedCa = caPublicKey opts)) then refuse wrong_ca
    else
      ok ← ed25519Verify (caPublicKey opts) (cert_tbs cert) (cert_signature cert);
      if negb ok then refuse bad_signature
      else
        _ ← (if ignoreValidityWindow opts then mret tt
             else
               now ← epochSeconds (default clock (now opts));
               if (now <? cert_validAfter cert)%Z then refuse not_yet_valid
               else if (cert_validBefore cert <=? now)%Z then refuse expired
               else mret tt);
        if (length (cert_principals cert) =? 0)%nat then refuse no_principals
        else if (0 <? length (cert_criticalOptions cert))%nat then refuse unknown_critical_option
        else match principal opts with
             | Some p =>
                 if negb (bool_decide (p ∈ cert_principals cert)) then refuse wrong_principal
                 else mret tt
             | None => mret tt
             end.

(** The [try] block of [verifyPossession]: the signature inside the SSH
    wrapping; [None] is its [return false]. *)
Definition unwrap_signature (signature : bytes) : option bytes :=
  match ('(a, reader) ← readString (new_reader signature);
         '(inner, reader) ← readString reader;
         _ ← expectEnd reader;
         mret (utf8_string a, inner)) : ssh (jsstr * bytes) with
  | inr (algo, inner) => if bool_decide (algo = js "ssh-ed25519") then Some inner else None
  | inl _ => None
  end.

Definition verifyPossession (cert : SshCertificate) (data signature : bytes) : ssh bool :=
  if (length signature =? ED25519_SIGNATURE_LENGTH)%nat
  then ed25519Verify (cert_publicKey cert) data signature
  else match unwrap_signature signature with
       | Some raw => ed25519Verify (cert_publicKey cert) data raw
       | None => mret false
       end.
End Verify.

(** ** The layout *)

(** The signed span, field by field, and the blob it is part of. *)
Record CertFields := {
  f_type : bytes; f_nonce : bytes; f_key : bytes; f_serial : Z; f_certType : N;
  f_keyId : bytes; f_principals : bytes; f_after : Z; f_before : Z;
  f_options : bytes; f_extensions : bytes; f_reserved : bytes; f_caKey : bytes;
}.

Definition tbs_of (f : CertFields) : bytes :=
  wire_string (f_type f) ++ wire_string (f_nonce f) ++ wire_string (f_key f) ++
  wire_u64 (f_serial f) ++ wire_u32 (f_certType f) ++ wire_string (f_keyId f) ++
  wire_string (f_principals f) ++ wire_u64 (f_after f) ++ wire_u64 (f_before f) ++
  wire_string (f_options f) ++ wire_string (f_extensions f) ++ wire_string (f_reserved f) ++
  wire_string (f_caKey f).

Definition signature_blob (sig : bytes) : bytes :=
  wire_string (js "ssh-ed25519") ++ wire_string sig.

Definition blob_of (f : CertFields) (sig : bytes) : bytes :=
  tbs_of f ++ wire_string (signature_blob sig).

Record fields_fit (f : CertFields) : Prop := {
  fit_type : fits32 (f_type f); fit_nonce : fits32 (f_nonce f); fit_key : fits32 (f_key f);
  fit_serial : (0 <= f_serial f < 2 ^ 64)%Z; fit_certType : f_certType f < 2 ^ 32;
  fit_keyId : fits32 (f_keyId f); fit_principals : fits32 (f_principals f);
  fit_after : (0 <= f_after f < 2 ^ 64)%Z; fit_before : (0 <= f_before f < 2 ^ 64)%Z;
  fit_options : fits32 (f_options f); fit_extensions : fits32 (f_extensions f);
  fit_reserved : fits32 (f_reserved f); fit_caKey : fits32 (f_caKey f);
}.

(** What a verifier reads in the fields. *)
Record decodes (f : CertFields) (c : SshCertificate) : Prop := {
  dec_type : f_type f = ED25519_CERT_TYPE;
  dec_key : cert_publicKey c = f_key f;
  dec_key_length : length (f_key f) = 32%nat;
  dec_serial : cert_serial c = f_serial f;
  dec_certType : cert_certType c = f_certType f;
  dec_keyId : cert_keyId c = utf8_string (f_keyId f);
  dec_principals : exists ps,
    readPackedStrings (f_principals f) = inr ps /\ cert_principals c = map utf8_string ps;
  dec_after : cert_validAfter c = f_after f;
  dec_before : cert_validBefore c = f_before f;
  dec_options : unpackFields (f_options f) = inr (cert_criticalOptions c);
  dec_extensions : unpackFields (f_extensions f) = inr (cert_extensions c);
  dec_caKey : cert_signatureKey c = f_caKey f;
}.

Lemma cert_type_ascii : is_ascii ED25519_CERT_TYPE.
Proof. by repeat constructor. Qed.

Lemma ssh_ed25519_ascii : is_ascii (js "ssh-ed25519").
Proof. by repeat constructor. Qed.

(** The fields of a span are read off it in one way only. *)
Lemma tbs_of_inj f g :
  fields_fit f -> fields_fit g -> tbs_of f = tbs_of g -> f = g.
Proof.
  intros Hf Hg E. unfold tbs_of in E.
  assert (forall a b, wire_u32 a = wire_u32 b -> a < 2 ^ 32 -> b < 2 ^ 32 -> a = b) as H32.
  { intros a b Eab Ha Hb. apply (f_equal be_value) in Eab. unfold wire_u32 in Eab.
    by rewrite !be_value_be_bytes_small in Eab. }
  destruct f, g; cbn in *.
  destruct Hf, Hg; cbn in *.
  repeat match goal with
  | E : wire_string ?a ++ _ = wire_string ?b ++ _ |- _ =>
      apply wire_string_app_inj in E as [? E]; [|done|done]
  | E : wire_u64 ?a ++ _ = wire_u64 ?b ++ _ |- _ =>
      apply wire_u64_inj in E as [? E]; [|done|done]
  | E : wire_u32 ?a ++ _ = wire_u32 ?b ++ _ |- _ =>
      apply app_inj_1 in E as [? E]; [|by unfold wire_u32; rewrite !length_be_bytes]
  | E : wire_string ?a = wire_string ?b |- _ =>
      apply (f_equal (fun x => x ++ [])) in E; cbn beta in E
  end.
  repeat match goal with
  | E : wire_u32 _ = wire_u32 _ |- _ => apply H32 in E; [|done|done]
  end.
  by subst.
Qed.

(** The blob determines the span and the signature. *)
Lemma parseCertificateBlob_inv blob c :
  is_bytes blob -> parseCertificateBlob blob = inr c ->
  exists f, blob = blob_of f (cert_signature c) /\ cert_tbs c = tbs_of f /\ cert_raw c = blob /\
    fields_fit f /\ fits32 (cert_signature c) /\ fits32 (signature_blob (cert_signature c)) /\
    decodes f c.
Proof.
  intros Hb H. unfold parseCertificateBlob in H. ssh_inv. to_prop. read_inv.
  rename select (utf8_string _ = ED25519_CERT_TYPE) into Ht.
  rename select (utf8_string _ = js "ssh-ed25519") into Ha.
  apply utf8_string_ascii in Ht; [|apply cert_type_ascii].
  apply utf8_string_ascii in Ha; [|apply ssh_ed25519_ascii].
  exists (Build_CertFields l l0 l1 z n l2 l3 z0 z1 l4 l5 l6 l7). subst c. cbn.
  unfold blob_of, tbs_of, signature_blob. cbn. subst l l9.
  rewrite !app_nil_r in *. rewrite <- !app_assoc.
  erewrite subarray_prefix by (cbn; rewrite <- ?app_assoc; reflexivity).
  split_and!; try done.
  constructor; cbn; try done. eauto.
Qed.

Lemma read_signature_blob sig :
  readString (at_cursor [] (signature_blob sig)) =
  inr (js "ssh-ed25519", at_cursor ([] ++ wire_string (js "ssh-ed25519")) (wire_string sig)).
Proof. apply readString_at, fits32_short. vm_compute. lia. Qed.

(** Laying the fields out is parsed back. *)
Lemma parse_blob_of f c :
  fields_fit f -> fits32 (cert_signature c) -> fits32 (signature_blob (cert_signature c)) ->
  decodes f c -> cert_tbs c = tbs_of f -> cert_raw c = blob_of f (cert_signature c) ->
  parseCertificateBlob (blob_of f (cert_signature c)) = inr c.
Proof.
  intros [] Hs Hb [] Ht Hr. destruct dec_principals0 as (ps & Hps & Eps).
  assert (blob_of f (cert_signature c) = tbs_of f ++ wire_string (signature_blob (cert_signature c)))
    as Eblob by done.
  unfold parseCertificateBlob. change (new_reader ?b) with (at_cursor [] b).
  rewrite Eblob at 1. unfold tbs_of at 1. rewrite <- !app_assoc.
  rewrite readString_at by done. cbn [mbind ssh_bind].
  rewrite dec_type0, utf8_string_ascii_id by apply cert_type_ascii.
  rewrite bool_decide_eq_true_2 by done. cbn [negb].
  repeat (first [ rewrite readString_at by done | rewrite readUint64_at by done
                | rewrite readUint32_at by done
                | rewrite readString_last by done | rewrite expectEnd_nil ];
          cbn [mbind ssh_bind]; rewrite ?dec_key_length0, ?Hps, ?dec_options0, ?dec_extensions0;
          cbn [mbind ssh_bind negb Nat.eqb]).
  rewrite read_signature_blob.
  cbn [mbind ssh_bind]. rewrite utf8_string_ascii_id by apply ssh_ed25519_ascii.
  rewrite bool_decide_eq_true_2 by done. cbn [negb].
  rewrite readString_last by done. cbn [mbind ssh_bind].
  rewrite expectEnd_nil. cbn [mbind ssh_bind].
  cbn [position offset at_cursor]. erewrite (subarray_prefix _ _ (blob_of f _)) by
    (rewrite Eblob; unfold tbs_of; rewrite dec_type0; cbn; rewrite <- ?app_assoc; reflexivity).
  unfold tbs_of in Ht. rewrite dec_type0 in Ht. rewrite <- !app_assoc.
  destruct c; cbn in *. rewrite Hr, Ht. by subst.
Qed.

(** ** What is minted *)

Definition field_bytes (f : SshCertificateField) : bytes :=
  wire_string (utf8 (field_name f)) ++ wire_string (field_data f).

Definition field_fits (f : SshCertificateField) : Prop :=
  fits32 (utf8 (field_name f)) /\ fits32 (field_data f).

Lemma packFields_inr fields b :
  packFields fields = inr b -> b = flat_map field_bytes fields /\ Forall field_fits fields.
Proof.
  unfold packFields. intros H. ssh_inv. subst b. change (flat_map field_bytes fields) with
    (toBuffer new_writer ++ flat_map field_bytes fields).
  revert E. generalize new_writer as w0. induction fields as [|f fields IH]; intros w0 E.
  - cbn in E. ssh_inv. subst. by rewrite app_nil_r.
  - cbn [fold_left] in E.
    set (m := mret w0 ≫= _) in E. destruct m as [e|w1] eqn:Em.
    + exfalso. clear IH Em. induction fields as [|g fields IH']; [done|]. by apply IH'.
    + apply IH in E as [-> Hall]. subst m. cbn [mbind ssh_bind mret ssh_ret] in Em.
      ssh_inv. wire_inv. split; [|by constructor].
      rewrite Em, E. cbn [flat_map]. unfold field_bytes at 2. by rewrite <- !app_assoc.
Qed.

Lemma packedValue_inr v b : packedValue v = inr b -> b = wire_string (utf8 v) /\ fits32 (utf8 v).
Proof. unfold packedValue. intros H. ssh_inv. wire_inv. subst b. by rewrite E. Qed.

(** The extensions of a minted certificate, in lexical order of their names. *)
Definition minted_extensions (opts : BuildUserCertificateOptions) : list SshCertificateField :=
  [ {| field_name := CERT_EXT_PERMIT_PTY; field_data := [] |};
    {| field_name := CERT_EXT_SANDBOX_ID; field_data := wire_string (utf8 (opt_sandboxId opts)) |};
    {| field_name := CERT_EXT_USER_ID; field_data := wire_string (utf8 (opt_userId opts)) |};
    {| field_name := CERT_EXT_WORKSPACE_ID; field_data := wire_string (utf8 (opt_workspaceId opts)) |} ].

(** The user key: 32 raw bytes, or the key of a key blob. *)
Definition minted_key (opts : BuildUserCertificateOptions) (key : bytes) : Prop :=
  if (length (opt_userPublicKey opts) =? 32)%nat then key = opt_userPublicKey opts
  else parseEd25519KeyBlob (opt_userPublicKey opts) = inr key.

Definition minted_fields (opts : BuildUserCertificateOptions) (signer : Ed25519Signer)
    (serial after before : Z) (key nonce : bytes) : CertFields :=
  {| f_type := ED25519_CERT_TYPE; f_nonce := nonce; f_key := key; f_serial := serial;
     f_certType := SSH_CERT_TYPE_USER; f_keyId := utf8 (opt_keyId opts);
     f_principals := wire_string (utf8 (opt_principal opts));
     f_after := after; f_before := before; f_options := [];
     f_extensions := flat_map field_bytes (minted_extensions opts); f_reserved := [];
     f_caKey := key_blob (publicKey signer) |}.

(** A minted span is the layout of its fields. *)
Lemma certificateTbs_inr opts signer serial nonce tbs :
  certificateTbs opts signer serial nonce = inr tbs ->
  exists after before key,
    epochSeconds (opt_validAfter opts) = inr after /\
    epochSeconds (opt_validBefore opts) = inr before /\ (after < before)%Z /\
    opt_principal opts <> [] /\ minted_key opts key /\
    length (publicKey signer) = ED25519_RAW_KEY_LENGTH /\
    Forall field_fits (minted_extensions opts) /\ fits32 (utf8 (opt_principal opts)) /\
    fields_fit (minted_fields opts signer serial after before key nonce) /\
    tbs = tbs_of (minted_fields opts signer serial after before key nonce).
Proof.
  unfold certificateTbs. intros H. ssh_inv.
  repeat match goal with
  | Hp : packedValue _ = inr _ |- _ => apply packedValue_inr in Hp as [-> ?]
  | Hp : packFields _ = inr _ |- _ => apply packFields_inr in Hp as [-> ?]
  | Hk : ed25519KeyBlob _ = inr _ |- _ => apply ed25519KeyBlob_inr in Hk as [? ->]
  end.
  wire_inv. to_prop.
  change (js_sort field_leb _) with (minted_extensions opts) in *.
  repeat match goal with
  | E : toBuffer ?w = toBuffer _ ++ _ |- _ => rewrite E in *; clear E
  end.
  change (toBuffer new_writer) with (@nil N) in *.
  rewrite (utf8_ascii ED25519_CERT_TYPE) in * by apply cert_type_ascii.
  exists v, v0, v7. split_and!; try done.
  - apply Z.leb_gt in G0. lia.
  - unfold minted_key. destruct (length (opt_userPublicKey opts) =? 32)%nat; [by ssh_inv|done].
  - subst tbs. unfold tbs_of. by rewrite <- !app_assoc.
Qed.

Lemma parseEd25519KeyBlob_length blob raw :
  parseEd25519KeyBlob blob = inr raw -> length raw = 32%nat.
Proof. unfold parseEd25519KeyBlob. intros H. ssh_inv. to_prop. by subst. Qed.

Lemma minted_key_length opts key : minted_key opts key -> length key = 32%nat.
Proof.
  unfold minted_key. destruct (Nat.eqb_spec (length (opt_userPublicKey opts)) 32) as [E|_];
    [by intros ->|apply parseEd25519KeyBlob_length].
Qed.

(** The texts of a certificate are well-formed. *)
Definition texts_ok (opts : BuildUserCertificateOptions) : Prop :=
  Forall (fun s => well_formed s = true)
    [opt_keyId opts; opt_principal opts; opt_sandboxId opts; opt_userId opts; opt_workspaceId opts].

(** Packed fields unpack to themselves. *)
Lemma field_pairs_parts fields :
  Forall (fun f => well_formed (field_name f) = true) fields ->
  field_pairs (flat_map (fun f => [utf8 (field_name f); field_data f]) fields) = fields.
Proof.
  induction 1 as [|[n d] fields Hn _ IH]; [done|]. cbn in *.
  by rewrite IH, utf8_string_utf8.
Qed.

Lemma unpackFields_pack fields :
  Forall field_fits fields -> Forall (fun f => well_formed (field_name f) = true) fields ->
  unpackFields (flat_map field_bytes fields) = inr fields.
Proof.
  intros Hf Hw. set (parts := flat_map (fun f => [utf8 (field_name f); field_data f]) fields).
  assert (flat_map field_bytes fields = flat_map wire_string parts) as ->.
  { subst parts. clear Hf Hw. induction fields as [|f fields IH]; [done|]. cbn [flat_map app].
    rewrite IH. unfold field_bytes. by rewrite <- app_assoc. }
  assert (Forall fits32 parts) as Hp.
  { subst parts. clear Hw. induction Hf as [|f fields [? ?] _ IH]; cbn; [constructor|].
    by repeat constructor. }
  assert (length parts = 2 * length fields)%nat as Hl.
  { subst parts. clear. induction fields as [|f fields IH]; [done|]. cbn. rewrite IH. lia. }
  unfold unpackFields. rewrite readPackedStrings_pack by done. cbn [mbind ssh_bind].
  rewrite Hl, Nat.mul_comm, Nat.Div0.mod_mul. cbn [Nat.eqb negb]. subst parts.
  by rewrite field_pairs_parts.
Qed.

Lemma minted_names_ok opts :
  Forall (fun f => well_formed (field_name f) = true) (minted_extensions opts).
Proof. by repeat constructor. Qed.

(** The certificate a minted span and a signature parse to. *)
Definition minted_certificate (opts : BuildUserCertificateOptions) (signer : Ed25519Signer)
    (serial after before : Z) (key nonce sig : bytes) : SshCertificate :=
  let f := minted_fields opts signer serial after before key nonce in
  {| cert_publicKey := key; cert_serial := serial; cert_certType := SSH_CERT_TYPE_USER;
     cert_keyId := opt_keyId opts; cert_principals := [opt_principal opts];
     cert_validAfter := after; cert_validBefore := before;
     cert_criticalOptions := []; cert_extensions := minted_extensions opts;
     cert_signatureKey := key_blob (publicKey signer); cert_signature := sig;
     cert_tbs := tbs_of f; cert_raw := blob_of f sig |}.

Lemma minted_decodes opts signer serial after before key nonce sig :
  texts_ok opts -> minted_key opts key -> Forall field_fits (minted_extensions opts) ->
  fits32 (utf8 (opt_principal opts)) ->
  decodes (minted_fields opts signer serial after before key nonce)
          (minted_certificate opts signer serial after before key nonce sig).
Proof.
  intros Ht Hk Hf Hp. unfold texts_ok in Ht. rewrite Forall_forall in Ht.
  constructor; try done.
  - by apply minted_key_length in Hk.
  - cbn. symmetry. apply utf8_string_utf8, Ht. set_solver.
  - exists [utf8 (opt_principal opts)]. split.
    + change (f_principals _) with (wire_string (utf8 (opt_principal opts))).
      rewrite <- (app_nil_r (wire_string _)).
      apply (readPackedStrings_pack [utf8 (opt_principal opts)]). by constructor.
    + cbn. rewrite utf8_string_utf8; [done|]. apply Ht. set_solver.
  - by apply unpackFields_pack, minted_names_ok.
Qed.

(** The outcome of a mint: the span, its signature, and their blob. *)
Lemma buildUserCertificate_inr opts signer random8 random32 b :
  buildUserCertificate opts signer random8 random32 = inr b ->
  exists tbs sig, let serial := certificateSerial opts random8 in
    certificateTbs opts signer serial random32 = inr tbs /\ sign signer tbs = inr sig /\
    length sig = ED25519_SIGNATURE_LENGTH /\ built_serial b = serial /\
    built_blob b = tbs ++ wire_string (signature_blob sig) /\
    built_line b = ED25519_CERT_TYPE ++ js " " ++ to_base64 (built_blob b).
Proof.
  unfold buildUserCertificate. intros H. ssh_inv. to_prop. wire_inv. subst b. cbn.
  exists v, v0. split_and!; try done. rewrite E3, E2, E1.
  rewrite (utf8_ascii (js "ssh-ed25519")) by apply ssh_ed25519_ascii.
  cbn. by rewrite app_nil_r.
Qed.

Lemma signature_fits sig :
  length sig = ED25519_SIGNATURE_LENGTH -> fits32 sig /\ fits32 (signature_blob sig).
Proof.
  intros H. split; apply fits32_short; unfold signature_blob;
    rewrite ?length_app, ?length_wire_string, H; vm_compute; lia.
Qed.

(** A minted blob parses to the certificate it was minted as. *)
Lemma parse_built opts signer random8 random32 b :
  texts_ok opts -> buildUserCertificate opts signer random8 random32 = inr b ->
  exists after before key sig,
    let serial := certificateSerial opts random8 in
    let c := minted_certificate opts signer serial after before key random32 sig in
    parseCertificateBlob (built_blob b) = inr c /\ built_serial b = serial /\
    epochSeconds (opt_validAfter opts) = inr after /\
    epochSeconds (opt_validBefore opts) = inr before /\ (after < before)%Z /\
    minted_key opts key /\ length (publicKey signer) = ED25519_RAW_KEY_LENGTH /\
    sign signer (cert_tbs c) = inr sig /\
    Forall field_fits (minted_extensions opts) /\ built_blob b = cert_raw c /\
    built_line b = ED25519_CERT_TYPE ++ js " " ++ to_base64 (built_blob b).
Proof.
  intros Ht (tbs & sig & Htbs & Hsig & Hlen & Hser & Hblob & Hline)%buildUserCertificate_inr.
  apply certificateTbs_inr in Htbs as
    (after & before & key & Ha & Hb & Hab & _ & Hk & Hpk & Hext & Hp & Hfit & ->).
  exists after, before, key, sig. cbn zeta.
  set (c := minted_certificate _ _ _ _ _ _ _ _).
  assert (built_blob b = blob_of (minted_fields opts signer (certificateSerial opts random8)
    after before key random32) (cert_signature c)) as Eb by done.
  destruct (signature_fits sig Hlen). split_and!; try done. rewrite Eb.
  apply parse_blob_of; try done. by apply minted_decodes.
Qed.

(** A valued extension reads back. *)
Lemma unpackValue_wire v :
  well_formed v = true -> fits32 (utf8 v) -> unpackValue (wire_string (utf8 v)) = inr v.
Proof.
  intros Hw Hf. unfold unpackValue. change (new_reader ?b) with (at_cursor [] b).
  rewrite readString_last by done. cbn [mbind ssh_bind]. rewrite expectEnd_nil.
  cbn [mbind ssh_bind]. by rewrite utf8_string_utf8.
Qed.

Lemma extension_value opts signer serial after before key nonce sig name v :
  Forall field_fits (minted_extensions opts) -> texts_ok opts ->
  (name, v) ∈ [(CERT_EXT_SANDBOX_ID, opt_sandboxId opts); (CERT_EXT_USER_ID, opt_userId opts);
               (CERT_EXT_WORKSPACE_ID, opt_workspaceId opts)] ->
  getExtensionValue (minted_certificate opts signer serial after before key nonce sig) name =
  inr (Some v).
Proof.
  intros Hf Ht Hin. unfold texts_ok in Ht. rewrite Forall_forall in Hf. rewrite Forall_forall in Ht.
  assert (forall n d, {| field_name := n; field_data := wire_string (utf8 d) |} ∈ minted_extensions opts ->
    fits32 (utf8 d)) as Hd.
  { intros n d [_ H]%Hf. cbn in H. unfold fits32 in *. rewrite length_wire_string in H. lia. }
  assert (forall n d, {| field_name := n; field_data := wire_string (utf8 d) |} ∈ minted_extensions opts ->
    d ∈ [opt_keyId opts; opt_principal opts; opt_sandboxId opts; opt_userId opts; opt_workspaceId opts] ->
    unpackValue (wire_string (utf8 d)) = inr d) as Hv.
  { intros n d Hnd Hdo. apply unpackValue_wire; eauto. }
  unfold getExtensionValue. change (cert_extensions _) with (minted_extensions opts).
  rewrite !elem_of_cons in Hin.
  let go n v := (change (List.find _ _) with
      (Some {| field_name := n; field_data := wire_string (utf8 v) |}); cbn [field_data];
    rewrite (Hv n) by (unfold minted_extensions; set_solver); done) in
  destruct Hin as [E|[E|[E|E]]];
    [injection E as -> ->; go CERT_EXT_SANDBOX_ID (opt_sandboxId opts)
    |injection E as -> ->; go CERT_EXT_USER_ID (opt_userId opts)
    |injection E as -> ->; go CERT_EXT_WORKSPACE_ID (opt_workspaceId opts)
    |by apply not_elem_of_nil in E].
Qed.

(** A minted blob is bytes. *)
Lemma utf8_wf_is_bytes s : well_formed s = true -> is_bytes (utf8 s).
Proof. intros [H _]%well_formed_spec. by apply utf8_is_bytes. Qed.

Lemma minted_key_is_bytes opts key :
  is_bytes (opt_userPublicKey opts) -> minted_key opts key -> is_bytes key.
Proof.
  unfold minted_key. intros Hb. destruct (_ =? _)%nat; [by intros ->|].
  intros [_ E]%parseEd25519KeyBlob_inr; [|done]. rewrite E in Hb.
  apply is_bytes_app in Hb as [_ Hb]. by apply wire_string_is_bytes_inv.
Qed.

Lemma minted_is_bytes opts signer serial after before key nonce sig :
  texts_ok opts -> is_bytes key -> is_bytes nonce -> is_bytes (publicKey signer) -> is_bytes sig ->
  is_bytes (cert_raw (minted_certificate opts signer serial after before key nonce sig)).
Proof.
  intros Ht Hk Hn Hp Hs. unfold texts_ok in Ht. rewrite Forall_forall in Ht.
  cbn [minted_certificate cert_raw]. unfold blob_of, tbs_of, signature_blob, minted_extensions.
  assert (forall v, is_bytes (wire_u32 v)) as H4 by (intros; apply be_bytes_is_bytes).
  assert (forall v, is_bytes (wire_u64 v)) as H8 by (intros; apply be_bytes_is_bytes).
  assert (is_bytes []) as H0 by constructor.
  cbn [minted_fields f_type f_nonce f_key f_serial f_certType f_keyId f_principals f_after f_before
       f_options f_extensions f_reserved f_caKey flat_map]. unfold minted_extensions, field_bytes.
  cbn [flat_map field_name field_data].
  rewrite !is_bytes_app. split_and!; try done;
    repeat (apply wire_string_is_bytes || apply is_bytes_app; try split || apply key_blob_is_bytes);
    try done; try (apply utf8_wf_is_bytes, Ht; set_solver); by repeat constructor.
Qed.

(** ** Properties *)

(** A concrete mint, for the witnesses: a toy curve whose signature of a text
    is 64 copies of its length, checked by recomputing it. *)
Definition toy_sign (data : bytes) : bytes := repeat (N.of_nat (length data) mod 256) 64.
Definition toy_crypto : NodeCrypto :=
  {| crypto_verify := fun _ data sig => Some (bool_decide (sig = toy_sign data));
     sha256 := fun d => d; createPrivateKey := fun _ => None |}.
Definition toy_signer : Ed25519Signer :=
  {| publicKey := repeat 9 32; sign := fun data => inr (toy_sign data) |}.
Definition toy_opts : BuildUserCertificateOptions :=
  {| opt_userPublicKey := repeat 5 32; opt_keyId := js "id"; opt_principal := js "agent_1";
     opt_validAfter := Some 1000500%Z; opt_validBefore := Some 1600000%Z;
     opt_sandboxId := js "sb"; opt_workspaceId := js "ws"; opt_userId := js "u";
     opt_serial := Some 7%Z |}.
Definition toy_built : BuiltCertificate :=
  match buildUserCertificate toy_opts toy_signer [] (repeat 1 32) with
  | inr b => b
  | inl _ => {| built_blob := []; built_line := []; built_serial := 0 |}
  end.

Lemma toy_signer_ok : @signer_ok toy_crypto toy_signer.
Proof.
  constructor; [done|by repeat constructor|]. intros data. exists (toy_sign data).
  split_and!; [done|apply repeat_length|..].
  - unfold toy_sign, is_bytes, is_byte. apply Forall_forall. intros x Hx.
    apply list_elem_of_In, repeat_spec in Hx as ->. by apply N.mod_lt.
  - cbn. by rewrite bool_decide_eq_true_2.
Qed.

Lemma toy_mints : buildUserCertificate toy_opts toy_signer [] (repeat 1 32) = inr toy_built.
Proof. vm_compute. reflexivity. Qed.

Lemma toy_texts : texts_ok toy_opts.
Proof. by repeat constructor. Qed.

(** C39: minting and parsing are inverse: the blob of a minted certificate, and
    its one-line form, parse to a user certificate with exactly the options
    it was minted from: one principal, no critical option, the window in
    whole seconds, the CA's own key, and the three identity extensions. *)
Theorem mint_parse_roundtrip `{NodeCrypto, NodeBase64}
    (opts : BuildUserCertificateOptions) (signer : Ed25519Signer) (random8 random32 : bytes)
    (b : BuiltCertificate) (Ht : texts_ok opts) (Hs : signer_ok signer)
    (Hk : is_bytes (opt_userPublicKey opts)) (Hn : is_bytes random32)
    (Hb : buildUserCertificate opts signer random8 random32 = inr b) :
  exists c, parseCertificateBlob (built_blob b) = inr c /\
    parseCertificateLine (built_line b) = inr c /\ cert_raw c = built_blob b /\
    cert_serial c = built_serial b /\ cert_certType c = SSH_CERT_TYPE_USER /\
    minted_key opts (cert_publicKey c) /\ cert_keyId c = opt_keyId opts /\
    cert_principals c = [opt_principal opts] /\ cert_criticalOptions c = [] /\
    epochSeconds (opt_validAfter opts) = inr (cert_validAfter c) /\
    epochSeconds (opt_validBefore opts) = inr (cert_validBefore c) /\
    cert_signatureKey c = key_blob (publicKey signer) /\
    StronglySorted field_leb (cert_extensions c) /\
    getExtensionValue c CERT_EXT_SANDBOX_ID = inr (Some (opt_sandboxId opts)) /\
    getExtensionValue c CERT_EXT_USER_ID = inr (Some (opt_userId opts)) /\
    getExtensionValue c CERT_EXT_WORKSPACE_ID = inr (Some (opt_workspaceId opts)).
Proof.
  destruct (parse_built opts signer random8 random32 b Ht Hb) as
    (after & before & key & sig & Hp & Hser & Ha & Hbf & Hab & Hkey & Hpk & Hsig & Hext & Eb & Hline).
  set (c := minted_certificate _ _ _ _ _ _ _ _) in *. exists c.
  split_and!; try done; try (apply extension_value; [done..|set_solver]); [|by repeat constructor].
  rewrite Hline. unfold parseCertificateLine.
  rewrite <- (app_nil_r (to_base64 _)), line_word_format;
    [|by repeat constructor|done|apply to_base64_no_space| |by left].
  - rewrite from_base64_to_base64; [done|]. rewrite Eb.
    destruct (signer_signs _ Hs (cert_tbs c)) as (sig' & Hsig' & _ & Hsb & _).
    assert (sig' = sig) as -> by congruence. apply minted_is_bytes; try done.
    + by apply (minted_key_is_bytes opts).
    + apply (signer_key_bytes _ Hs).
  - intros E%to_base64_nil. by rewrite Eb in E.
Qed.

Lemma mint_parse_roundtrip_witness :
  texts_ok toy_opts /\ exists c,
    parseCertificateBlob (built_blob toy_built) = inr c /\ cert_principals c = [js "agent_1"].
Proof.
  split; [exact toy_texts|].
  destruct (@mint_parse_roundtrip toy_crypto node_base64 toy_opts toy_signer [] (repeat 1 32)
    toy_built toy_texts toy_signer_ok ltac:(by repeat constructor) ltac:(by repeat constructor)
    toy_mints) as (c & Hp & _ & _ & _ & _ & _ & _ & Hpr & _).
  exists c. split; [exact Hp|exact Hpr].
Defined.

(** The verification law, check by check: what a certificate must satisfy. *)
Definition window_ok (clock : Date) (c : SshCertificate) (o : VerifyUserCertificateOptions) : Prop :=
  ignoreValidityWindow o = true \/
  exists t, epochSeconds (default clock (now o)) = inr t /\
    (cert_validAfter c <= t < cert_validBefore c)%Z.

Lemma window_check clock c o :
  (if ignoreValidityWindow o then mret tt
   else now ← epochSeconds (default clock (now o));
        if (now <? cert_validAfter c)%Z then throw (CertificateVerificationError not_yet_valid)
        else if (cert_validBefore c <=? now)%Z then throw (CertificateVerificationError expired)
        else mret tt : ssh unit) = inr tt <-> window_ok clock c o.
Proof.
  unfold window_ok. destruct (ignoreValidityWindow o); [split; [by left|done]|].
  split.
  - intros H. ssh_inv. right. exists v. split; [done|].
    apply Z.ltb_ge in G. apply Z.leb_gt in G0. lia.
  - intros [?|(t & -> & Ht)]; [done|]. cbn.
    destruct (Z.ltb_spec t (cert_validAfter c)); [lia|].
    by destruct (Z.leb_spec (cert_validBefore c) t); [lia|].
Qed.

Lemma principal_check (c : SshCertificate) (p : option jsstr) :
  (match p with
   | Some p => if negb (bool_decide (p ∈ cert_principals c))
               then throw (CertificateVerificationError wrong_principal) else mret tt
   | None => mret tt
   end : ssh unit) = inr tt <-> (forall q, p = Some q -> q ∈ cert_principals c).
Proof.
  destruct p as [q|]; [|done]. case_bool_decide as E; cbn [negb].
  - split; [|done]. intros _ q' [= <-]. done.
  - split; [done|]. intros H. by destruct (E (H q eq_refl)).
Qed.

(** C22: what acceptance means. A certificate is accepted exactly when it is a
    user certificate, its embedded key blob is the trust anchor's own
    encoding, its signature is 64 bytes and verifies under the trust anchor
    over the signed span, the time is in the half-open window (unless waived),
    it names at least one principal and the asserted one among them, and it
    carries no critical option. *)
Theorem assertValidUserCertificate_spec `{NodeCrypto} (clock : Date) (c : SshCertificate)
    (o : VerifyUserCertificateOptions) (Hk : is_bytes (cert_signatureKey c)) :
  assertValidUserCertificate clock c o = inr tt <->
  cert_certType c = SSH_CERT_TYPE_USER /\
  length (caPublicKey o) = ED25519_RAW_KEY_LENGTH /\
  cert_signatureKey c = key_blob (caPublicKey o) /\
  length (cert_signature c) = ED25519_SIGNATURE_LENGTH /\
  crypto_verify (publicKeyObjectFromRaw (caPublicKey o)) (cert_tbs c) (cert_signature c) = Some true /\
  window_ok clock c o /\ cert_principals c <> [] /\ cert_criticalOptions c = [] /\
  (forall p, principal o = Some p -> p ∈ cert_principals c).
Proof.
  unfold assertValidUserCertificate. split.
  - intros Ha. ssh_inv. to_prop.
    apply (proj1 (parseEd25519KeyBlob_inr _ _ Hk)) in E as [Hl E]. subst.
    apply ed25519Verify_true in E0 as [Hs Hv].
    match goal with u : unit |- _ => destruct u end. apply window_check in E1. pose proof (proj1 (principal_check c (principal o)) Ha) as Hpr.
    split_and!; try done.
    + intros Ep. by rewrite Ep in G2.
    + destruct (cert_criticalOptions c); [done|]. discriminate G3.
  - intros (-> & Hl & Ek & Hs & Hv & Hw & Hp & Hc & Hpr). cbn [N.eqb SSH_CERT_TYPE_USER negb].
    rewrite (proj2 (parseEd25519KeyBlob_inr _ (caPublicKey o) Hk) (conj Hl Ek)).
    cbn [mbind ssh_bind]. rewrite bool_decide_eq_true_2 by done. cbn [negb].
    rewrite (proj2 (ed25519Verify_true _ _ _) (conj Hs Hv)). cbn [mbind ssh_bind negb].
    rewrite (proj2 (window_check clock c o) Hw). cbn [mbind ssh_bind]. rewrite Hc.
    destruct (cert_principals c) eqn:Ep; [done|]. cbn [length Nat.eqb Nat.ltb Nat.leb].
    rewrite <- Ep in *. by apply principal_check.
Qed.

(** The signature and the window are checked, whatever the embedded key. *)
Lemma assertValidUserCertificate_inr `{NodeCrypto} clock c o :
  assertValidUserCertificate clock c o = inr tt ->
  ed25519Verify (caPublicKey o) (cert_tbs c) (cert_signature c) = inr true /\ window_ok clock c o.
Proof.
  unfold assertValidUserCertificate. intros Ha. ssh_inv. to_prop. subst.
  match goal with u : unit |- _ => destruct u end.
  split; [done|]. by apply window_check.
Qed.

(** The minted certificate of the witnesses, parsed. *)
Definition toy_cert : SshCertificate :=
  minted_certificate toy_opts toy_signer 7 1000 1600 (repeat 5 32) (repeat 1 32)
    (toy_sign (cert_tbs (minted_certificate toy_opts toy_signer 7 1000 1600 (repeat 5 32) (repeat 1 32) []))).

Lemma assertValidUserCertificate_spec_witness :
  is_bytes (cert_signatureKey toy_cert) /\
  @assertValidUserCertificate toy_crypto None toy_cert
    {| caPublicKey := repeat 9 32; principal := Some (js "agent_1"); now := Some (Some 1599999%Z);
       ignoreValidityWindow := false |} = inr tt.
Proof.
  assert (is_bytes (cert_signatureKey toy_cert)) as Hk
    by (apply key_blob_is_bytes; by repeat constructor).
  split; [exact Hk|].
  apply (@assertValidUserCertificate_spec toy_crypto None toy_cert _ Hk). split_and!; try reflexivity.
  - right. exists 1599%Z. split; [reflexivity|]. vm_compute. split; congruence.
  - discriminate.
  - intros p [= <-]. vm_compute. left.
Defined.

(** What is left to check of a certificate its own CA signed. *)
Lemma minted_verdict `{NodeCrypto} clock opts signer serial after before key nonce sig o t :
  let c := minted_certificate opts signer serial after before key nonce sig in
  signer_ok signer -> sign signer (cert_tbs c) = inr sig ->
  epochSeconds (default clock (now o)) = inr t ->
  assertValidUserCertificate clock c o =
  if negb (bool_decide (publicKey signer = caPublicKey o))
  then inl (CertificateVerificationError wrong_ca)
  else if negb (ignoreValidityWindow o) && (t <? after)%Z
  then inl (CertificateVerificationError not_yet_valid)
  else if negb (ignoreValidityWindow o) && (before <=? t)%Z
  then inl (CertificateVerificationError expired)
  else match principal o with
       | Some p => if bool_decide (p = opt_principal opts) then inr tt
                   else inl (CertificateVerificationError wrong_principal)
       | None => inr tt
       end.
Proof.
  intros c Hs Hsig Hnow. pose proof (key_blob_is_bytes _ (signer_key_bytes _ Hs)) as Hkb.
  destruct (signer_signs _ Hs (cert_tbs c)) as (sig' & Hsig' & Hlen & _ & Hver).
  assert (sig' = sig) as -> by congruence.
  unfold assertValidUserCertificate. change (cert_certType c =? SSH_CERT_TYPE_USER) with true.
  change (cert_signatureKey c) with (key_blob (publicKey signer)). cbn [negb].
  rewrite (proj2 (parseEd25519KeyBlob_inr _ (publicKey signer) Hkb)) by
    (split; [apply (signer_key_length _ Hs)|done]).
  cbn [mbind ssh_bind]. case_bool_decide as Eca; [|done]. cbn [negb]. rewrite <- Eca.
  assert (ed25519Verify (publicKey signer) (cert_tbs c) (cert_signature c) = inr true) as ->
    by (by apply ed25519Verify_true).
  cbn [mbind ssh_bind negb].
  assert (forall q, (if negb (bool_decide (q ∈ [opt_principal opts]))
    then throw (CertificateVerificationError wrong_principal) else mret tt : ssh unit) =
    if bool_decide (q = opt_principal opts) then inr tt
    else inl (CertificateVerificationError wrong_principal)) as Hpr.
  { intros q. by rewrite (bool_decide_ext _ (q = opt_principal opts)) by set_solver;
      case_bool_decide. }
  destruct (ignoreValidityWindow o); cbn; rewrite ?Hnow; cbn.
  - destruct (principal o) as [q|]; [apply Hpr|done].
  - destruct (t <? after)%Z; cbn; [done|]. destruct (before <=? t)%Z; cbn; [done|].
    destruct (principal o) as [q|]; [apply Hpr|done].
Qed.

(** A minted certificate is good for exactly what it says: under the key
    that signed it, it is accepted from [validAfter] until just before
    [validBefore] (at any time when the window is waived), for its own
    principal or for none asserted; before the window it is refused as not yet
    valid, from [validBefore] on as expired, and under any other trust anchor
    as foreign. *)
Theorem minted_accepted_in_window `{NodeCrypto} (clock : Date)
    (opts : BuildUserCertificateOptions) (signer : Ed25519Signer) (random8 random32 : bytes)
    (b : BuiltCertificate) (c : SshCertificate) (o : VerifyUserCertificateOptions) (t : Z)
    (Ht : texts_ok opts) (Hs : signer_ok signer)
    (Hb : buildUserCertificate opts signer random8 random32 = inr b)
    (Hc : parseCertificateBlob (built_blob b) = inr c)
    (Hnow : epochSeconds (default clock (now o)) = inr t) :
  (assertValidUserCertificate clock c o = inr tt <->
   caPublicKey o = publicKey signer /\
   (ignoreValidityWindow o = true \/ (cert_validAfter c <= t < cert_validBefore c)%Z) /\
   (principal o = None \/ principal o = Some (opt_principal opts))) /\
  (caPublicKey o <> publicKey signer ->
   assertValidUserCertificate clock c o = inl (CertificateVerificationError wrong_ca)) /\
  (caPublicKey o = publicKey signer -> ignoreValidityWindow o = false ->
   ((t < cert_validAfter c)%Z ->
    assertValidUserCertificate clock c o = inl (CertificateVerificationError not_yet_valid)) /\
   ((cert_validBefore c <= t)%Z ->
    assertValidUserCertificate clock c o = inl (CertificateVerificationError expired))).
Proof.
  destruct (parse_built opts signer random8 random32 b Ht Hb) as
    (after & before & key & sig & Hp & _ & _ & _ & Hab & _ & Hpk & Hsig & _).
  assert (c = minted_certificate opts signer (certificateSerial opts random8) after before key
    random32 sig) as -> by congruence.
  rewrite (minted_verdict _ _ _ _ _ _ _ _ _ _ t) by done. cbn [minted_certificate cert_validAfter cert_validBefore].
  case_bool_decide as Eca; cbn [negb].
  - split_and!; [|congruence|].
    + destruct (ignoreValidityWindow o); cbn [negb andb];
        [|destruct (Z.ltb_spec t after); [split; [done|lia]|];
          destruct (Z.leb_spec before t); [split; [done|lia]|]];
        (destruct (principal o) as [q|]; [case_bool_decide as Eq|]); split;
        try done; naive_solver.
    + intros _ ->. cbn [negb andb]. split; intros Hlt.
      * by rewrite (proj2 (Z.ltb_lt _ _) Hlt).
      * by rewrite (proj2 (Z.ltb_ge t after)), (proj2 (Z.leb_le _ _) Hlt) by lia.
  - split_and!; [|done|congruence]. split; [done|]. intros (E & _). by rewrite E in Eca.
Qed.

Lemma toy_parse : parseCertificateBlob (built_blob toy_built) = inr toy_cert.
Proof. vm_compute. reflexivity. Qed.

Lemma minted_accepted_in_window_witness :
  texts_ok toy_opts /\
  @assertValidUserCertificate toy_crypto None toy_cert
    {| caPublicKey := repeat 9 32; principal := None; now := Some (Some 1600000%Z);
       ignoreValidityWindow := false |} = inl (CertificateVerificationError expired).
Proof.
  split; [exact toy_texts|].
  pose proof (@minted_accepted_in_window toy_crypto None toy_opts toy_signer [] (repeat 1 32)
    toy_built toy_cert
    {| caPublicKey := repeat 9 32; principal := None; now := Some (Some 1600000%Z);
       ignoreValidityWindow := false |} 1600
    toy_texts toy_signer_ok toy_mints toy_parse eq_refl) as (_ & _ & H).
  apply H; [reflexivity|reflexivity|]. vm_compute. congruence.
Defined.

(** The signature covers every field a verifier reads: two parsed
    certificates with the same signed span agree on the user key, serial,
    type, key id, principals, window, options, extensions and CA key, so
    bytes signed for one certificate never validate another's fields. *)
Theorem signed_span_determines_certificate (b1 b2 : bytes) (c1 c2 : SshCertificate)
    (H1 : is_bytes b1) (H2 : is_bytes b2)
    (P1 : parseCertificateBlob b1 = inr c1) (P2 : parseCertificateBlob b2 = inr c2)
    (E : cert_tbs c1 = cert_tbs c2) :
  cert_publicKey c1 = cert_publicKey c2 /\ cert_serial c1 = cert_serial c2 /\
  cert_certType c1 = cert_certType c2 /\ cert_keyId c1 = cert_keyId c2 /\
  cert_principals c1 = cert_principals c2 /\ cert_validAfter c1 = cert_validAfter c2 /\
  cert_validBefore c1 = cert_validBefore c2 /\
  cert_criticalOptions c1 = cert_criticalOptions c2 /\
  cert_extensions c1 = cert_extensions c2 /\ cert_signatureKey c1 = cert_signatureKey c2 /\
  (cert_signature c1 = cert_signature c2 -> c1 = c2).
Proof.
  apply parseCertificateBlob_inv in P1 as (f1 & B1 & T1 & R1 & F1 & _ & _ & D1); [|done].
  apply parseCertificateBlob_inv in P2 as (f2 & B2 & T2 & R2 & F2 & _ & _ & D2); [|done].
  assert (f1 = f2) as -> by (apply tbs_of_inj; [done..|congruence]).
  destruct D1 as [_ ? _ ? ? ? (ps1 & Q1 & Q1') ? ? O1 X1 ?].
  destruct D2 as [_ ? _ ? ? ? (ps2 & Q2 & Q2') ? ? O2 X2 ?].
  rewrite O1 in O2. rewrite X1 in X2. rewrite Q1 in Q2.
  injection O2 as O2. injection X2 as X2. injection Q2 as ->.
  split_and!; try congruence. intros Esig. destruct c1, c2; cbn in *. congruence.
Qed.

Lemma signed_span_determines_certificate_witness :
  is_bytes (built_blob toy_built) /\ cert_principals toy_cert = cert_principals toy_cert.
Proof.
  assert (is_bytes (built_blob toy_built)) as Hb by (apply (proj1 (bool_decide_eq_true (is_bytes _))); vm_compute; reflexivity).
  split; [exact Hb|].
  apply (signed_span_determines_certificate _ _ _ _ Hb Hb toy_parse toy_parse eq_refl).
Defined.

(** The SSH wrapping of a signature, both ways. *)
Lemma unwrap_signature_blob raw :
  length raw = ED25519_SIGNATURE_LENGTH -> unwrap_signature (signature_blob raw) = Some raw.
Proof.
  intros [Hr _]%signature_fits. unfold unwrap_signature. change (new_reader ?b) with (at_cursor [] b).
  rewrite read_signature_blob. cbn [mbind ssh_bind].
  rewrite readString_last by done. cbn [mbind ssh_bind].
  rewrite expectEnd_nil. cbn [mbind ssh_bind mret ssh_ret].
  by rewrite utf8_string_ascii_id by apply ssh_ed25519_ascii.
Qed.

Lemma unwrap_signature_inv s raw :
  is_bytes s -> unwrap_signature s = Some raw -> s = signature_blob raw.
Proof.
  intros Hb. unfold unwrap_signature. destruct (_ ≫= _) as [e|[algo inner]] eqn:E; [done|].
  case_bool_decide as Ha; [|done]. intros [= ->]. ssh_inv. read_inv. subst.
  rename select (utf8_string _ = _) into Hu.
  apply utf8_string_ascii in Hu; [|apply ssh_ed25519_ascii]. subst.
  unfold signature_blob. by rewrite app_nil_r.
Qed.

(** Proof of possession: a signature offered by the client, raw or in its
    SSH wrapping, is accepted exactly when it is 64 bytes that verify under
    the certificate's embedded user key, or the [ssh-ed25519] wrapping of such
    bytes; anything else is refused without an exception. *)
Theorem verifyPossession_spec `{NodeCrypto} (c : SshCertificate) (data signature : bytes)
    (Hb : is_bytes signature) :
  (verifyPossession c data signature = inr true <->
   exists raw, (signature = raw \/ signature = signature_blob raw) /\
     length raw = ED25519_SIGNATURE_LENGTH /\
     crypto_verify (publicKeyObjectFromRaw (cert_publicKey c)) data raw = Some true) /\
  (forall raw, length raw = ED25519_SIGNATURE_LENGTH ->
   verifyPossession c data (signature_blob raw) = verifyPossession c data raw).
Proof.
  assert (forall raw, length (signature_blob raw) = (19 + length raw)%nat) as Hl.
  { intros raw. unfold signature_blob. by rewrite length_app, !length_wire_string. }
  assert (forall raw, length raw = ED25519_SIGNATURE_LENGTH ->
    verifyPossession c data (signature_blob raw) = ed25519Verify (cert_publicKey c) data raw) as Hw.
  { intros raw Hr. unfold verifyPossession. rewrite Hl, Hr.
    change (19 + ED25519_SIGNATURE_LENGTH =? ED25519_SIGNATURE_LENGTH)%nat with false. cbv iota.
    by rewrite unwrap_signature_blob. }
  split; [split|].
  - unfold verifyPossession.
    destruct (Nat.eqb_spec (length signature) ED25519_SIGNATURE_LENGTH) as [E|E].
    + intros [? ?]%ed25519Verify_true. exists signature. eauto.
    + destruct (unwrap_signature signature) as [raw|] eqn:U; [|done].
      apply unwrap_signature_inv in U; [|done].
      intros [? ?]%ed25519Verify_true. exists raw. eauto.
  - intros (raw & [->| ->] & Hr & Hv).
    + unfold verifyPossession. rewrite Hr, Nat.eqb_refl. by apply ed25519Verify_true.
    + rewrite Hw by done. by apply ed25519Verify_true.
  - intros raw Hr. rewrite Hw by done. unfold verifyPossession. by rewrite Hr, Nat.eqb_refl.
Qed.

Lemma verifyPossession_spec_witness :
  is_bytes (signature_blob (toy_sign [1; 2])) /\
  @verifyPossession toy_crypto toy_cert [1; 2] (signature_blob (toy_sign [1; 2])) = inr true.
Proof.
  assert (is_bytes (signature_blob (toy_sign [1; 2]))) as Hb
    by (apply (proj1 (bool_decide_eq_true (is_bytes _))); vm_compute; reflexivity).
  split; [exact Hb|].
  apply (proj1 (@verifyPossession_spec toy_crypto toy_cert [1; 2] _ Hb)).
  exists (toy_sign [1; 2]). split; [by right|]. split; reflexivity.
Defined.
