(* ===== verification/SshGrant.v ===== *)
(** * SSH session grants: [packages/ssh-cert/src/grant.ts]

    Issuing and verifying the capability a session needs, and what both kinds
    of CA signature mean together: a grant's span is never a certificate's,
    and with a key that signs nothing else, what verifies was issued. *)
From S2P Require Import Prelude JsBytes SshWire SshKeys SshCert.
Local Open Scope N_scope.

Definition GRANT_MAGIC : jsstr := js "onecli-ssh-grant-v1".

Record SshSessionGrant := {
  sessionId : jsstr;
  agentId : jsstr;
  sandboxId : jsstr;
  workspaceId : jsstr;
  expiresAt : Z;
}.

Definition grantTbs (grant : SshSessionGrant) : ssh bytes :=
  w ← writeText GRANT_MAGIC new_writer;
  w ← writeText (sessionId grant) w;
  w ← writeText (agentId grant) w;
  w ← writeText (sandboxId grant) w;
  w ← writeText (workspaceId grant) w;
  w ← writeUint64 (expiresAt grant) w;
  mret (toBuffer w).

Definition signGrant (grant : SshSessionGrant) (signer : Ed25519Signer) : ssh jsstr :=
  tbs ← grantTbs grant;
  signature ← sign signer tbs;
  if negb (length signature =? ED25519_SIGNATURE_LENGTH)%nat
  then throw (SignatureLength (length signature))
  else
    w ← writeString signature (writeBytes tbs new_writer);
    mret (to_base64 (toBuffer w)).

(** The [try] block of [verifyGrant]: grant, signed span and signature. *)
Definition parseGrant (blob : bytes) : ssh (SshSessionGrant * bytes * bytes) :=
  '(m, reader) ← readString (new_reader blob);
  if negb (bool_decide (utf8_string m = GRANT_MAGIC)) then throw WrongMagic
  else
    '(session, reader) ← readString reader;
    '(agent, reader) ← readString reader;
    '(sandbox, reader) ← readString reader;
    '(workspace, reader) ← readString reader;
    '(expires, reader) ← readUint64 reader;
    let tbs := subarray 0 (position reader) blob in
    '(signature, reader) ← readString reader;
    _ ← expectEnd reader;
    mret ({| sessionId := utf8_string session; agentId := utf8_string agent;
             sandboxId := utf8_string sandbox; workspaceId := utf8_string workspace;
             expiresAt := expires |}, tbs, signature).

Section Verify.
Context `{NodeCrypto, NodeBase64}.

Definition verifyGrant (encoded : jsstr) (caPublicKey : bytes) (now : Date) : ssh SshSessionGrant :=
  match parseGrant (from_base64 encoded) with
  | inl _ => throw (GrantVerificationError grant_malformed)
  | inr (grant, tbs, signature) =>
      ok ← ed25519Verify caPublicKey tbs signature;
      if negb ok then throw (GrantVerificationError grant_bad_signature)
      else
        t ← epochSeconds now;
        if (expiresAt grant <=? t)%Z then throw (GrantVerificationError grant_expired)
        else mret grant
  end.
End Verify.

(** ** The layout *)

(** The signed span of a grant with these raw fields. *)
Definition grant_span (s a b w : bytes) (e : Z) : bytes :=
  wire_string GRANT_MAGIC ++ wire_string s ++ wire_string a ++ wire_string b ++ wire_string w ++
  wire_u64 e.

Definition grant_bytes (g : SshSessionGrant) : bytes :=
  grant_span (utf8 (sessionId g)) (utf8 (agentId g)) (utf8 (sandboxId g)) (utf8 (workspaceId g))
    (expiresAt g).

Record grant_fits (g : SshSessionGrant) : Prop := {
  fit_session : fits32 (utf8 (sessionId g)); fit_agent : fits32 (utf8 (agentId g));
  fit_sandbox : fits32 (utf8 (sandboxId g)); fit_workspace : fits32 (utf8 (workspaceId g));
  fit_expires : (0 <= expiresAt g < 2 ^ 64)%Z;
}.

Definition grant_texts (g : SshSessionGrant) : Prop :=
  Forall (fun s => well_formed s = true) [sessionId g; agentId g; sandboxId g; workspaceId g].

Lemma grant_magic_ascii : is_ascii GRANT_MAGIC.
Proof. by repeat constructor. Qed.

Lemma grantTbs_inr g tbs : grantTbs g = inr tbs -> tbs = grant_bytes g /\ grant_fits g.
Proof.
  unfold grantTbs. intros H. ssh_inv. wire_inv. subst tbs.
  rewrite (utf8_ascii GRANT_MAGIC) in * by apply grant_magic_ascii.
  split; [|by constructor].
  repeat match goal with
  | E : toBuffer ?w = toBuffer _ ++ _ |- _ => rewrite E in *; clear E
  end.
  unfold grant_bytes, grant_span. by rewrite <- !app_assoc.
Qed.

(** The text of a grant: the magic, four strings and the expiry, each in its
    width, then the signature, and nothing after it. [tbs] is what is signed. *)
Record laid_out (blob : bytes) (g : SshSessionGrant) (tbs sig : bytes) : Prop := {
  lo_blob : blob = tbs ++ wire_string sig;
  lo_sig : fits32 sig;
  lo_expires : (0 <= expiresAt g < 2 ^ 64)%Z;
  lo_fields : exists s a b w, Forall fits32 [s; a; b; w] /\
    tbs = grant_span s a b w (expiresAt g) /\
    sessionId g = utf8_string s /\ agentId g = utf8_string a /\
    sandboxId g = utf8_string b /\ workspaceId g = utf8_string w;
}.

Lemma parseGrant_at blob g tbs sig :
  laid_out blob g tbs sig -> parseGrant blob = inr (g, tbs, sig).
Proof.
  intros [-> Hs He (s & a & b & w & Hf & -> & Es & Ea & Eb & Ew)].
  rewrite Forall_forall in Hf. set (blob := _ ++ _).
  unfold parseGrant. change (new_reader ?b) with (at_cursor [] b).
  assert (blob = wire_string GRANT_MAGIC ++ wire_string s ++ wire_string a ++ wire_string b ++
    wire_string w ++ wire_u64 (expiresAt g) ++ wire_string sig) as E.
  { unfold blob, grant_span. by rewrite <- !app_assoc. }
  rewrite E at 1. rewrite readString_at by (apply fits32_short; vm_compute; lia).
  cbn [mbind ssh_bind]. rewrite utf8_string_ascii_id by apply grant_magic_ascii.
  rewrite bool_decide_eq_true_2 by done. cbn [negb].
  repeat (first [ rewrite readString_at by (apply Hf; set_solver) | rewrite readUint64_at by done
                | rewrite readString_last by done | rewrite expectEnd_nil ]; cbn [mbind ssh_bind]).
  cbn [position offset at_cursor]. erewrite (subarray_prefix _ _ blob) by
    (rewrite E, <- !app_assoc; reflexivity).
  unfold grant_span. rewrite <- !app_assoc, <- Es, <- Ea, <- Eb, <- Ew. by destruct g.
Qed.

Lemma parseGrant_inv blob g tbs sig :
  is_bytes blob -> parseGrant blob = inr (g, tbs, sig) -> laid_out blob g tbs sig.
Proof.
  intros Hb H. unfold parseGrant in H. ssh_inv. to_prop. read_inv.
  rename select (utf8_string _ = GRANT_MAGIC) into Hm.
  apply utf8_string_ascii in Hm; [|apply grant_magic_ascii].
  subst. constructor; cbn [expiresAt sessionId agentId sandboxId workspaceId]; try done; try lia.
  - cbn [position offset at_cursor]. erewrite subarray_prefix by (rewrite <- ?app_assoc; reflexivity).
    by rewrite <- !app_assoc, ?app_nil_r.
  - exists l0, l1, l2, l3. split_and!; try done; [by repeat constructor|].
    unfold grant_span. cbn [position offset at_cursor].
    erewrite subarray_prefix by (rewrite <- ?app_assoc; reflexivity).
    by rewrite <- !app_assoc.
Qed.

Lemma parseGrant_laid_out encoded g tbs sig `{NodeBase64} :
  parseGrant (from_base64 encoded) = inr (g, tbs, sig) <-> laid_out (from_base64 encoded) g tbs sig.
Proof. split; [|apply parseGrant_at]. apply parseGrant_inv, from_base64_is_bytes. Qed.

Lemma issued_laid_out g sig :
  grant_fits g -> grant_texts g -> fits32 sig ->
  laid_out (grant_bytes g ++ wire_string sig) g (grant_bytes g) sig.
Proof.
  intros [] Ht Hs. unfold grant_texts in Ht. rewrite Forall_forall in Ht. constructor; try done.
  exists (utf8 (sessionId g)), (utf8 (agentId g)), (utf8 (sandboxId g)), (utf8 (workspaceId g)).
  rewrite !utf8_string_utf8 by (apply Ht; set_solver). split_and!; try done. by repeat constructor.
Qed.

Lemma grant_span_inj s a b w e s' a' b' w' e' :
  fits32 s -> fits32 a -> fits32 b -> fits32 w -> (0 <= e < 2 ^ 64)%Z ->
  fits32 s' -> fits32 a' -> fits32 b' -> fits32 w' -> (0 <= e' < 2 ^ 64)%Z ->
  grant_span s a b w e = grant_span s' a' b' w' e' ->
  s = s' /\ a = a' /\ b = b' /\ w = w' /\ e = e'.
Proof.
  unfold grant_span. intros ?????????? E. apply app_inv_head in E.
  rewrite <- (app_nil_r (wire_u64 e)), <- (app_nil_r (wire_u64 e')) in E.
  repeat match goal with
  | E : wire_string ?a ++ _ = wire_string ?b ++ _ |- _ =>
      apply wire_string_app_inj in E as [-> E]; [|done|done]
  | E : wire_u64 ?a ++ _ = wire_u64 ?b ++ _ |- _ =>
      apply wire_u64_inj in E as [-> E]; [|done|done]
  end.
  done.
Qed.

(** A span is a grant's or a certificate's, never both. *)
Lemma span_kinds_differ f s a b w e :
  fits32 (f_type f) -> f_type f = ED25519_CERT_TYPE -> tbs_of f <> grant_span s a b w e.
Proof.
  intros Hf Ht E. unfold tbs_of, grant_span in E. rewrite Ht in *.
  apply wire_string_app_inj in E as [E _]; [done|done|].
  apply fits32_short. vm_compute. lia.
Qed.

(** What acceptance of a grant means. *)
Lemma verifyGrant_inr `{NodeCrypto, NodeBase64} encoded ca now g :
  verifyGrant encoded ca now = inr g <->
  exists tbs sig t, parseGrant (from_base64 encoded) = inr (g, tbs, sig) /\
    ed25519Verify ca tbs sig = inr true /\ epochSeconds now = inr t /\ (t < expiresAt g)%Z.
Proof.
  unfold verifyGrant. destruct (parseGrant (from_base64 encoded)) as [e|[[g' tbs] sig]].
  { split; [done|]. by intros (? & ? & ? & ? & _). }
  split.
  - intros H1. ssh_inv. to_prop. subst.
    match goal with E : (_ <=? _)%Z = false |- _ => apply Z.leb_gt in E end. eauto 10.
  - intros (? & ? & t & [= -> <- <-] & -> & -> & Ht). cbn.
    by destruct (Z.leb_spec (expiresAt g) t); [lia|].
Qed.

Lemma signGrant_inr g signer encoded :
  signGrant g signer = inr encoded ->
  exists sig, sign signer (grant_bytes g) = inr sig /\ length sig = ED25519_SIGNATURE_LENGTH /\
    grant_fits g /\ encoded = to_base64 (grant_bytes g ++ wire_string sig).
Proof.
  unfold signGrant. intros H. ssh_inv. to_prop. wire_inv.
  apply grantTbs_inr in E as [-> Hf]. subst encoded. eexists. split_and!; try done.
  rewrite E1. cbn. by rewrite app_nil_r.
Qed.

Lemma grant_bytes_is_bytes g : grant_texts g -> is_bytes (grant_bytes g).
Proof.
  intros Ht. unfold grant_texts in Ht. rewrite Forall_forall in Ht.
  unfold grant_bytes, grant_span. rewrite !is_bytes_app.
  split_and!; try (apply wire_string_is_bytes, utf8_wf_is_bytes, Ht; set_solver).
  - apply wire_string_is_bytes. by repeat constructor.
  - apply be_bytes_is_bytes.
Qed.

(** ** Properties *)

Definition toy_grant : SshSessionGrant :=
  {| sessionId := js "s"; agentId := js "agent_1"; sandboxId := js "sb"; workspaceId := js "ws";
     expiresAt := 1600 |}.
Definition toy_encoded : jsstr :=
  match signGrant toy_grant toy_signer with inr e => e | inl _ => [] end.

(** An issued grant verifies, under the key that signed it, to itself
    until the second it expires, and from then on only as expired. *)
Theorem session_grant_roundtrip `{NodeCrypto, NodeBase64} (g : SshSessionGrant) (signer : Ed25519Signer)
    (encoded : jsstr) (now : Date) (t : Z) (Ht : grant_texts g) (Hs : signer_ok signer)
    (He : signGrant g signer = inr encoded) (Hnow : epochSeconds now = inr t) :
  verifyGrant encoded (publicKey signer) now =
  if (t <? expiresAt g)%Z then inr g else inl (GrantVerificationError grant_expired).
Proof.
  apply signGrant_inr in He as (sig & Hsig & Hlen & Hf & ->).
  destruct (signer_signs _ Hs (grant_bytes g)) as (sig' & Hsig' & _ & Hsb & Hv).
  assert (sig' = sig) as -> by congruence. destruct (signature_fits sig Hlen) as [Hs32 _].
  unfold verifyGrant. rewrite from_base64_to_base64 by
    (apply is_bytes_app; split; [by apply grant_bytes_is_bytes|by apply wire_string_is_bytes]).
  rewrite (parseGrant_at _ _ _ _ (issued_laid_out g sig Hf Ht Hs32)). rewrite (proj2 (ed25519Verify_true _ _ _) (conj Hlen Hv)).
  cbn [mbind ssh_bind negb]. rewrite Hnow. cbn [mbind ssh_bind].
  destruct (Z.leb_spec (expiresAt g) t), (Z.ltb_spec t (expiresAt g)); done || lia.
Qed.

Lemma session_grant_roundtrip_witness :
  grant_texts toy_grant /\
  @verifyGrant toy_crypto node_base64 toy_encoded (repeat 9 32) (Some 1599999%Z) = inr toy_grant.
Proof.
  assert (grant_texts toy_grant) as Ht by (by repeat constructor).
  assert (signGrant toy_grant toy_signer = inr toy_encoded) as He by (vm_compute; reflexivity).
  split; [exact Ht|].
  exact (@session_grant_roundtrip toy_crypto node_base64 toy_grant toy_signer toy_encoded (Some 1599999%Z)
    1599 Ht toy_signer_ok He eq_refl).
Defined.

(** A certificate that says what a mint was asked for. *)
Definition certifies (c : SshCertificate) (opts : BuildUserCertificateOptions) (serial : Z) : Prop :=
  minted_key opts (cert_publicKey c) /\ cert_serial c = serial /\
  cert_keyId c = opt_keyId opts /\ cert_principals c = [opt_principal opts] /\
  epochSeconds (opt_validAfter opts) = inr (cert_validAfter c) /\
  epochSeconds (opt_validBefore opts) = inr (cert_validBefore c) /\
  cert_extensions c = minted_extensions opts.

Lemma certifies_span blob c opts signer serial nonce :
  is_bytes blob -> parseCertificateBlob blob = inr c -> texts_ok opts ->
  certificateTbs opts signer serial nonce = inr (cert_tbs c) -> certifies c opts serial.
Proof.
  intros Hb Hp Ht Htbs. apply certificateTbs_inr in Htbs as
    (after & before & key & Ha & Hbf & _ & _ & Hk & _ & Hext & Hpr & Hfit & Etbs).
  pose proof (minted_decodes opts signer serial after before key nonce [] Ht Hk Hext Hpr) as D2.
  apply parseCertificateBlob_inv in Hp as (f & _ & T & _ & F & _ & _ & D1); [|done].
  assert (f = minted_fields opts signer serial after before key nonce) as ->
    by (apply tbs_of_inj; [done..|congruence]).
  destruct D1 as [_ K1 _ S1 _ I1 (ps1 & Q1 & Q1') A1 B1 _ X1 _].
  destruct D2 as [_ _ _ _ _ I2 (ps2 & Q2 & Q2') _ _ _ X2 _].
  rewrite X1 in X2. rewrite Q1 in Q2. injection X2 as X2. injection Q2 as ->.
  unfold certifies. rewrite K1, S1, I1, A1, B1, X2, Q1', <- Q2', <- I2. done.
Qed.

(** C12: what verifies was issued. Assume the CA key signs only certificate
    spans of the mints below and grants of the list below, and that no one
    else can make a signature that verifies under it. Then a certificate the
    verification law accepts is a mint's, with that mint's key, principal,
    window and identity extensions, inside its window; and a grant that
    verifies is one that was issued, unexpired. A signature made for one kind
    is never accepted as the other. *)
Theorem accepted_was_issued `{NodeCrypto, NodeBase64} (signer : Ed25519Signer)
    (mints : list (BuildUserCertificateOptions * Z * bytes)) (grants : list SshSessionGrant)
    (Hmints : Forall (fun m => texts_ok (fst (fst m))) mints) (Hgrants : Forall grant_texts grants)
    (unforgeable : forall data sig, ed25519Verify (publicKey signer) data sig = inr true ->
      (exists m, m ∈ mints /\ certificateTbs (fst (fst m)) signer (snd (fst m)) (snd m) = inr data) \/
      (exists g, g ∈ grants /\ grantTbs g = inr data)) :
  (forall blob c clock o, is_bytes blob -> parseCertificateBlob blob = inr c ->
     caPublicKey o = publicKey signer -> assertValidUserCertificate clock c o = inr tt ->
     exists m, m ∈ mints /\ certifies c (fst (fst m)) (snd (fst m)) /\ window_ok clock c o) /\
  (forall encoded now g, verifyGrant encoded (publicKey signer) now = inr g ->
     g ∈ grants /\ exists t, epochSeconds now = inr t /\ (t < expiresAt g)%Z).
Proof.
  rewrite Forall_forall in Hmints. rewrite Forall_forall in Hgrants. split.
  - intros blob c clock o Hb Hp Eca Hv.
    pose proof (parseCertificateBlob_inv _ _ Hb Hp) as (f & _ & T & _ & F & _ & _ & D).
    apply assertValidUserCertificate_inr in Hv as [Hver Hw].
    rewrite Eca in Hver. destruct (unforgeable _ _ Hver) as [([[opts serial] nonce] & Hm & Htbs)|(g & _ & Hg)].
    + exists (opts, serial, nonce). split_and!; [done| |done].
      eapply certifies_span; [done..|by apply (Hmints _ Hm)|exact Htbs].
    + apply grantTbs_inr in Hg as [Hg _]. rewrite T in Hg.
      by apply span_kinds_differ in Hg; [|apply F|apply D].
  - intros encoded now g (tbs & sig & t & Hp & Hver & Hnow & Hlt)%verifyGrant_inr.
    split; [|by exists t].
    apply parseGrant_laid_out in Hp as [_ _ ? (s & a & b & w & Hf & -> & Es & Ea & Eb & Ew)].
    rewrite !Forall_cons in Hf. destruct Hf as (? & ? & ? & ? & _).
    destruct (unforgeable _ _ Hver) as [([[opts serial] nonce] & _ & Htbs)|(g' & Hin & Hg')].
    + apply certificateTbs_inr in Htbs as (? & ? & ? & _ & _ & _ & _ & _ & _ & _ & _ & F & E).
      symmetry in E. by apply span_kinds_differ in E; [|apply F|].
    + apply grantTbs_inr in Hg' as [E []]. apply grant_span_inj in E as (-> & -> & -> & -> & Ee);
        [|done..]. pose proof (Hgrants _ Hin) as Ht. unfold grant_texts in Ht.
      rewrite Forall_forall in Ht. rewrite !utf8_string_utf8 in * by (apply Ht; set_solver).
      assert (g = g') as ->; [|done]. destruct g, g'; cbn in *. congruence.
Qed.

(** A curve under which exactly one mint's span and one grant's verify. *)
Definition toy_tbs : bytes :=
  match certificateTbs toy_opts toy_signer 7 (repeat 1 32) with inr d => d | inl _ => [] end.
Definition strict_crypto : NodeCrypto :=
  {| crypto_verify := fun _ data sig =>
       Some (bool_decide (sig = toy_sign data) &&
             (bool_decide (data = toy_tbs) || bool_decide (data = grant_bytes toy_grant)));
     sha256 := fun d => d; createPrivateKey := fun _ => None |}.

Lemma accepted_was_issued_witness :
  Forall grant_texts [toy_grant] /\ toy_grant ∈ [toy_grant].
Proof.
  assert (Forall (fun m => texts_ok (fst (fst m))) [(toy_opts, 7%Z, repeat 1 32)]) as Hm
    by (constructor; [exact toy_texts|constructor]).
  assert (Forall grant_texts [toy_grant]) as Hg by (by repeat constructor).
  split; [exact Hg|].
  refine (proj1 (proj2 (@accepted_was_issued strict_crypto node_base64 toy_signer
    [(toy_opts, 7%Z, repeat 1 32)] [toy_grant] Hm Hg _) toy_encoded (Some 1000%Z) toy_grant _)).
  - intros data sig Hv. apply (@ed25519Verify_true strict_crypto) in Hv as [_ Hv].
    cbn in Hv. injection Hv as Hv. apply andb_true_iff in Hv as [_ Hv].
    apply orb_true_iff in Hv as [Hv|Hv]; apply bool_decide_eq_true in Hv; subst data.
    + left. exists (toy_opts, 7%Z, repeat 1 32). split; [left|]. vm_compute. reflexivity.
    + right. exists toy_grant. split; [left|]. vm_compute. reflexivity.
  - vm_compute. reflexivity.
Defined.

(** C40: every way verification of a grant can end besides the grant itself
    and what the curve throws on a bad anchor. It is reported malformed exactly
    when the bytes the text decodes to are not laid out as a grant: the magic,
    the four strings and the expiry, each within its width, one signature, and
    nothing after it. Otherwise, for the one grant it is laid out as, a
    signature that does not verify over the signed span is a bad signature
    whatever the expiry, and only a verified grant whose second has come is
    reported expired. *)
Theorem verifyGrant_errors `{NodeCrypto, NodeBase64} (encoded : jsstr) (ca : bytes) (t : Z)
    (e : SshError) (He : verifyGrant encoded ca (Some t) = inl e) :
  (e = GrantVerificationError grant_malformed /\
     forall g tbs sig, ~ laid_out (from_base64 encoded) g tbs sig) \/
  (exists g tbs sig, laid_out (from_base64 encoded) g tbs sig /\
     (forall g' tbs' sig', laid_out (from_base64 encoded) g' tbs' sig' -> g' = g /\ tbs' = tbs /\ sig' = sig) /\
     (e = CryptoError /\ ed25519Verify ca tbs sig = inl CryptoError \/
      e = GrantVerificationError grant_bad_signature /\ ed25519Verify ca tbs sig = inr false \/
      e = GrantVerificationError grant_expired /\ ed25519Verify ca tbs sig = inr true /\
        (expiresAt g <= t / 1000)%Z)).
Proof.
  unfold verifyGrant in He.
  destruct (parseGrant (from_base64 encoded)) as [e'|[[g tbs] sig]] eqn:Ep.
  - left. injection He as <-. split; [done|]. intros g tbs sig Hl%parseGrant_at. congruence.
  - right. exists g, tbs, sig. split; [by apply parseGrant_laid_out|].
    split; [intros g' tbs' sig' Hl%parseGrant_at; rewrite Ep in Hl; by injection Hl as <- <- <-|].
    destruct (ed25519Verify ca tbs sig) as [e'|[]] eqn:Ev; cbn in He.
    + left. unfold ed25519Verify in Ev. destruct (negb _); [done|].
      destruct (crypto_verify _ _ _); [done|]. injection Ev as <-. by injection He as <-.
    + right. right. destruct (Z.leb_spec (expiresAt g) (t / 1000)); [|done]. by injection He as <-.
    + right. left. by injection He as <-.
Qed.

Lemma verifyGrant_errors_witness :
  @verifyGrant toy_crypto node_base64 toy_encoded (repeat 9 32) (Some 1600000%Z) =
    inl (GrantVerificationError grant_expired) /\
  exists g tbs sig, laid_out (@from_base64 node_base64 toy_encoded) g tbs sig.
Proof.
  assert (@verifyGrant toy_crypto node_base64 toy_encoded (repeat 9 32) (Some 1600000%Z) =
    inl (GrantVerificationError grant_expired)) as He by (vm_compute; reflexivity).
  split; [exact He|].
  destruct (@verifyGrant_errors toy_crypto node_base64 toy_encoded (repeat 9 32) 1600000 _ He)
    as [[E _]|(g & tbs & sig & Hp & _)]; [discriminate E|]. exists g, tbs, sig. exact Hp.
Defined.
