(* ===== verification/PortWire.v ===== *)
(** * Port streams on the wire: [packages/agent-protocol/src/transport.ts]

    The frames by which the runner and a sandbox's supervisor multiplex byte
    streams to guest ports, and the bounds both sides share. Payloads are
    base64 text, as on the wire. *)
From S2P Require Import Prelude JsBytes.
Local Open Scope N_scope.

Definition PORT_CHUNK_RAW_BYTES : N := 48 * 1024.
(** [Math.ceil(PORT_CHUNK_RAW_BYTES / 3) * 4] *)
Definition PORT_CHUNK_BASE64_CHARS : N := (PORT_CHUNK_RAW_BYTES + 2) / 3 * 4.
Definition PORT_STREAM_WINDOW_BYTES : N := 256 * 1024.
Definition MAX_PORT_STREAMS_PER_SANDBOX : nat := 64.

Inductive CloseMode := close_end | close_abort.

(** The codes of [port.error], and the two the hub adds. *)
Inductive PortOpenErrorCode :=
  | not_allowed | not_listening | limit | duplicate | failed | no_sandbox | timeout.

(** Supervisor to runner. *)
Inductive SupervisorMessage :=
  | m_opened (streamId : jsstr)
  | m_data (streamId : jsstr) (dataBase64 : jsstr)
  | m_ack (streamId : jsstr) (bytes : N)
  | m_close (streamId : jsstr) (mode : CloseMode)
  | m_error (streamId : jsstr) (code : PortOpenErrorCode).

(** Runner to supervisor. *)
Inductive WorkItem :=
  | w_open (streamId : jsstr) (port : N)
  | w_data (streamId : jsstr) (dataBase64 : jsstr)
  | w_ack (streamId : jsstr) (bytes : N)
  | w_close (streamId : jsstr) (mode : CloseMode)
  | w_allow (ports : list N).

Definition message_stream (m : SupervisorMessage) : jsstr :=
  match m with
  | m_opened s | m_data s _ | m_ack s _ | m_close s _ | m_error s _ => s
  end.

#[export] Instance CloseMode_eq_dec : EqDecision CloseMode.
Proof. solve_decision. Defined.
#[export] Instance PortOpenErrorCode_eq_dec : EqDecision PortOpenErrorCode.
Proof. solve_decision. Defined.
#[export] Instance SupervisorMessage_eq_dec : EqDecision SupervisorMessage.
Proof. solve_decision. Defined.
#[export] Instance WorkItem_eq_dec : EqDecision WorkItem.
Proof. solve_decision. Defined.

(** ** Cutting a payload to the credit

    The loop both senders run ([pumpGuestBytes] and [PortDuplex._write]):
    while bytes and credit are left, a part of at most one chunk. The state is
    the credit, the bytes left, and the parts sent. *)
Definition cut_step (s : N * bytes * list bytes) : (N * bytes * list bytes) + (N * bytes * list bytes) :=
  let '(credit, data, parts) := s in
  if (0 <? length data)%nat && (0 <? credit) then
    let n := N.min PORT_CHUNK_RAW_BYTES (N.min credit (N.of_nat (length data))) in
    inl (credit - n, drop (N.to_nat n) data, parts ++ [take (N.to_nat n) data])
  else inr s.

Definition cut_loop (credit : N) (data : bytes) : option (N * bytes * list bytes) :=
  js_while cut_step (S (length data)) (credit, data, []).

Definition cut (credit : N) (data : bytes) : N * bytes * list bytes :=
  default (credit, data, []) (cut_loop credit data).

Lemma cut_step_decreases s s' :
  cut_step s = inl s' -> (length (snd (fst s')) < length (snd (fst s)))%nat.
Proof.
  destruct s as [[credit data] parts]. unfold cut_step.
  destruct (Nat.ltb_spec 0 (length data)), (N.ltb_spec 0 credit); cbn [andb]; try done.
  intros [= <-]. cbn [fst snd]. rewrite length_drop.
  unfold PORT_CHUNK_RAW_BYTES. lia.
Qed.

Lemma cut_loop_returns credit data : exists r, cut_loop credit data = Some r.
Proof.
  apply (js_while_total cut_step (fun s => length (snd (fst s)))); [apply cut_step_decreases|].
  cbn. lia.
Qed.

Definition chunk_ok (p : bytes) : Prop :=
  p <> [] /\ N.of_nat (length p) <= PORT_CHUNK_RAW_BYTES.

(** What the loop does: the parts are the first bytes, in order, as many as
    the credit allows, each within the wire's bound. *)
Lemma cut_spec credit data credit' rest parts :
  cut credit data = (credit', rest, parts) ->
  data = concat parts ++ rest /\ Forall chunk_ok parts /\
  credit = credit' + N.of_nat (length (concat parts)) /\
  (rest = [] \/ credit' = 0).
Proof.
  intros H. destruct (cut_loop_returns credit data) as [r E]. unfold cut in H. rewrite E in H.
  cbn in H. subst r. unfold cut_loop in E.
  assert (forall fuel c d acc, js_while cut_step fuel (c, d, acc) = Some (credit', rest, parts) ->
    exists ps, parts = acc ++ ps /\ d = concat ps ++ rest /\ Forall chunk_ok ps /\
      c = credit' + N.of_nat (length (concat ps)) /\ (rest = [] \/ credit' = 0)) as Hgo.
  2: { apply Hgo in E as (ps & -> & -> & ?). by rewrite app_nil_l. }
  clear E. induction fuel as [|fuel IH]; intros c d acc; [done|].
  cbn [js_while cut_step].
  destruct (Nat.ltb_spec 0 (length d)) as [Hd|Hd], (N.ltb_spec 0 c) as [Hc|Hc]; cbn [andb].
  - set (n := N.min PORT_CHUNK_RAW_BYTES (N.min c (N.of_nat (length d)))).
    assert (0 < n /\ n <= c /\ n <= N.of_nat (length d) /\ n <= PORT_CHUNK_RAW_BYTES) as (?&?&?&?)
      by (unfold PORT_CHUNK_RAW_BYTES in *; lia). clearbody n.
    intros (ps & -> & E & Hps & Ec & Hr)%IH. exists (take (N.to_nat n) d :: ps).
    assert (length (take (N.to_nat n) d) = N.to_nat n) as El by (rewrite length_take; lia).
    cbn [concat]. rewrite <- (app_assoc acc). split_and!; [done| | | |done].
    + by rewrite <- app_assoc, <- E, take_drop.
    + constructor; [|done]. split; [|lia]. intros En. rewrite En in El. cbn in El. lia.
    + rewrite length_app. lia.
  - intros [= -> -> ->]. exists []. rewrite app_nil_r. cbn. split_and!; try done; [lia|]. right. lia.
  - intros [= -> -> ->]. exists []. rewrite app_nil_r. cbn. split_and!; try done; [lia|].
    left. destruct rest; [done|cbn in Hd; lia].
  - intros [= -> -> ->]. exists []. rewrite app_nil_r. cbn. split_and!; try done; [lia|].
    left. destruct rest; [done|cbn in Hd; lia].
Qed.
