(* ===== verification/PortStreams.v ===== *)
(** * Port streams, supervisor half: [apps/sandbox-supervisor/src/capabilities/port-streams.ts]

    The streams map, the stream objects the socket handlers capture, and one
    definition per handler. A handler works on its stream object ([act]); a
    message to the runner is appended to [sent]. The sockets are Node's: a
    record of what the code asked of one, and, in [enabled], when it may emit
    what. *)
From S2P Require Import Prelude JsBytes PortWire.
Local Open Scope N_scope.

Definition PORT_DIAL_TIMEOUT_MS : N := 5000.
Definition SUPERVISOR_RESERVED_PORTS : list N := [22].

(** [reservedGuestPorts]; [url_port] is [Number(new URL(openProxyUrl).port)],
    [None] when the constructor throws or the port is no integer. *)
Definition reservedGuestPorts (url_port : jsstr -> option Z) (openProxyUrl : option jsstr) : list N :=
  match openProxyUrl with
  | Some (c :: u) =>
      match url_port (c :: u) with
      | Some p => if (0 <? p)%Z then SUPERVISOR_RESERVED_PORTS ++ [Z.to_N p] else SUPERVISOR_RESERVED_PORTS
      | None => SUPERVISOR_RESERVED_PORTS
      end
  | _ => SUPERVISOR_RESERVED_PORTS
  end.

(** A [net.Socket]: whether its [once("connect")] handler is still to run, its
    timeout, whether it is paused, destroyed, half-closed by us, at the guest's
    end of file, and the chunks written to it, the first [taken] of which have
    had their callback. *)
Record Socket := { connectArmed : bool; timeoutMs : N; paused : bool; destroyed : bool; halfEnded : bool; eof : bool; taken : nat; written : list bytes }.

Record Stream := {
  port : N;
  socket : Socket;
  sendCredit : N;
  opened : bool;
  closed : bool;
  runnerEnded : bool;
  guestEndSent : bool;
  unackedInbound : N;
  ackScheduled : bool;
  parked : option bytes;
  guestEndPending : bool;
}.

(** Field updates. *)
Section Setters.
Definition set_connectArmed (v : bool) (s : Socket) : Socket :=
  {| connectArmed := v; timeoutMs := timeoutMs s; paused := paused s; destroyed := destroyed
     s; halfEnded := halfEnded s; eof := eof s; taken := taken s; written := written s |}.
Definition set_timeoutMs (v : N) (s : Socket) : Socket :=
  {| connectArmed := connectArmed s; timeoutMs := v; paused := paused s; destroyed :=
     destroyed s; halfEnded := halfEnded s; eof := eof s; taken := taken s; written :=
     written s |}.
Definition set_paused (v : bool) (s : Socket) : Socket :=
  {| connectArmed := connectArmed s; timeoutMs := timeoutMs s; paused := v; destroyed :=
     destroyed s; halfEnded := halfEnded s; eof := eof s; taken := taken s; written :=
     written s |}.
Definition set_destroyed (v : bool) (s : Socket) : Socket :=
  {| connectArmed := connectArmed s; timeoutMs := timeoutMs s; paused := paused s; destroyed
     := v; halfEnded := halfEnded s; eof := eof s; taken := taken s; written := written s |}.
Definition set_halfEnded (v : bool) (s : Socket) : Socket :=
  {| connectArmed := connectArmed s; timeoutMs := timeoutMs s; paused := paused s; destroyed
     := destroyed s; halfEnded := v; eof := eof s; taken := taken s; written := written s |}.
Definition set_eof (v : bool) (s : Socket) : Socket :=
  {| connectArmed := connectArmed s; timeoutMs := timeoutMs s; paused := paused s; destroyed
     := destroyed s; halfEnded := halfEnded s; eof := v; taken := taken s; written :=
     written s |}.
Definition set_taken (v : nat) (s : Socket) : Socket :=
  {| connectArmed := connectArmed s; timeoutMs := timeoutMs s; paused := paused s; destroyed
     := destroyed s; halfEnded := halfEnded s; eof := eof s; taken := v; written := written
     s |}.
Definition set_written (v : list bytes) (s : Socket) : Socket :=
  {| connectArmed := connectArmed s; timeoutMs := timeoutMs s; paused := paused s; destroyed
     := destroyed s; halfEnded := halfEnded s; eof := eof s; taken := taken s; written := v |}.
Definition set_port (v : N) (s : Stream) : Stream :=
  {| port := v; socket := socket s; sendCredit := sendCredit s; opened := opened s; closed
     := closed s; runnerEnded := runnerEnded s; guestEndSent := guestEndSent s;
     unackedInbound := unackedInbound s; ackScheduled := ackScheduled s; parked := parked s;
     guestEndPending := guestEndPending s |}.
Definition set_socket (v : Socket) (s : Stream) : Stream :=
  {| port := port s; socket := v; sendCredit := sendCredit s; opened := opened s; closed :=
     closed s; runnerEnded := runnerEnded s; guestEndSent := guestEndSent s; unackedInbound
     := unackedInbound s; ackScheduled := ackScheduled s; parked := parked s;
     guestEndPending := guestEndPending s |}.
Definition set_sendCredit (v : N) (s : Stream) : Stream :=
  {| port := port s; socket := socket s; sendCredit := v; opened := opened s; closed :=
     closed s; runnerEnded := runnerEnded s; guestEndSent := guestEndSent s; unackedInbound
     := unackedInbound s; ackScheduled := ackScheduled s; parked := parked s;
     guestEndPending := guestEndPending s |}.
Definition set_opened (v : bool) (s : Stream) : Stream :=
  {| port := port s; socket := socket s; sendCredit := sendCredit s; opened := v; closed :=
     closed s; runnerEnded := runnerEnded s; guestEndSent := guestEndSent s; unackedInbound
     := unackedInbound s; ackScheduled := ackScheduled s; parked := parked s;
     guestEndPending := guestEndPending s |}.
Definition set_closed (v : bool) (s : Stream) : Stream :=
  {| port := port s; socket := socket s; sendCredit := sendCredit s; opened := opened s;
     closed := v; runnerEnded := runnerEnded s; guestEndSent := guestEndSent s;
     unackedInbound := unackedInbound s; ackScheduled := ackScheduled s; parked := parked s;
     guestEndPending := guestEndPending s |}.
Definition set_runnerEnded (v : bool) (s : Stream) : Stream :=
  {| port := port s; socket := socket s; sendCredit := sendCredit s; opened := opened s;
     closed := closed s; runnerEnded := v; guestEndSent := guestEndSent s; unackedInbound :=
     unackedInbound s; ackScheduled := ackScheduled s; parked := parked s; guestEndPending
     := guestEndPending s |}.
Definition set_guestEndSent (v : bool) (s : Stream) : Stream :=
  {| port := port s; socket := socket s; sendCredit := sendCredit s; opened := opened s;
     closed := closed s; runnerEnded := runnerEnded s; guestEndSent := v; unackedInbound :=
     unackedInbound s; ackScheduled := ackScheduled s; parked := parked s; guestEndPending
     := guestEndPending s |}.
Definition set_unackedInbound (v : N) (s : Stream) : Stream :=
  {| port := port s; socket := socket s; sendCredit := sendCredit s; opened := opened s;
     closed := closed s; runnerEnded := runnerEnded s; guestEndSent := guestEndSent s;
     unackedInbound := v; ackScheduled := ackScheduled s; parked := parked s;
     guestEndPending := guestEndPending s |}.
Definition set_ackScheduled (v : bool) (s : Stream) : Stream :=
  {| port := port s; socket := socket s; sendCredit := sendCredit s; opened := opened s;
     closed := closed s; runnerEnded := runnerEnded s; guestEndSent := guestEndSent s;
     unackedInbound := unackedInbound s; ackScheduled := v; parked := parked s;
     guestEndPending := guestEndPending s |}.
Definition set_parked (v : option bytes) (s : Stream) : Stream :=
  {| port := port s; socket := socket s; sendCredit := sendCredit s; opened := opened s;
     closed := closed s; runnerEnded := runnerEnded s; guestEndSent := guestEndSent s;
     unackedInbound := unackedInbound s; ackScheduled := ackScheduled s; parked := v;
     guestEndPending := guestEndPending s |}.
Definition set_guestEndPending (v : bool) (s : Stream) : Stream :=
  {| port := port s; socket := socket s; sendCredit := sendCredit s; opened := opened s;
     closed := closed s; runnerEnded := runnerEnded s; guestEndSent := guestEndSent s;
     unackedInbound := unackedInbound s; ackScheduled := ackScheduled s; parked := parked s;
     guestEndPending := v |}.
End Setters.

Definition on_socket (f : Socket -> Socket) (s : Stream) : Stream := set_socket (f (socket s)) s.

(** The truth of [s.parked]. *)
Definition is_parked (s : Stream) : bool := match parked s with Some _ => true | None => false end.

(** A socket after [dial], [setTimeout] and the listeners. *)
Definition dialed : Socket :=
  {| connectArmed := true; timeoutMs := PORT_DIAL_TIMEOUT_MS; paused := false; destroyed := false;
     halfEnded := false; eof := false; taken := 0; written := [] |}.

Definition new_stream (port : N) : Stream :=
  {| port := port; socket := dialed; sendCredit := PORT_STREAM_WINDOW_BYTES; opened := false;
     closed := false; runnerEnded := false; guestEndSent := false; unackedInbound := 0;
     ackScheduled := false; parked := None; guestEndPending := false |}.

Section Operations.
Variable streamId : jsstr.

(** What a handler makes of its stream, and the messages it sends. *)
Abbreviation op := (Stream -> Stream * list SupervisorMessage).

(** The part of [teardown] after the lookup. *)
Definition teardown_stream (notifyAbort : bool) : op := fun s =>
  if closed s then (s, [])
  else
    let s := set_closed true s in
    let s := on_socket (set_destroyed true) s in
    (s, if notifyAbort && opened s && negb (guestEndSent s)
        then [m_close streamId close_abort] else []).

(** The part of [runnerEnd] after the lookup. *)
Definition runnerEnd : op := fun s =>
  if closed s || runnerEnded s then (s, [])
  else
    let s := set_runnerEnded true s in
    let s := on_socket (set_halfEnded true) s in
    if guestEndSent s then teardown_stream false s else (s, []).

Definition reportGuestEnd : op := fun s =>
  if closed s || guestEndSent s then (s, [])
  else
    let s := set_guestEndSent true s in
    let msgs := if opened s then [m_close streamId close_end] else [] in
    let '(s, more) := if runnerEnded s then teardown_stream false s else (s, []) in
    (s, msgs ++ more).

Definition pumpGuestBytes (chunk : bytes) : op := fun s =>
  let data := match parked s with Some p => p ++ chunk | None => chunk end in
  let s := set_parked None s in
  let '(credit, rest, parts) := cut (sendCredit s) data in
  let s := set_sendCredit credit s in
  let msgs := map (fun part => m_data streamId (to_base64 part)) parts in
  let s :=
    if (0 <? length rest)%nat then on_socket (set_paused true) (set_parked (Some rest) s)
    else if sendCredit s <=? 0 then on_socket (set_paused true) s
    else s in
  if negb (is_parked s) && guestEndPending s then
    let '(s, more) := reportGuestEnd (set_guestEndPending false s) in (s, msgs ++ more)
  else (s, msgs).

(** The socket's listeners. *)
Definition on_connect : op := fun s =>
  let s := on_socket (fun k => set_timeoutMs 0 (set_connectArmed false k)) s in
  if closed s then (s, [])
  else (set_opened true s, [m_opened streamId]).

Definition on_timeout : op := fun s =>
  if opened s then (s, [])
  else (on_socket (set_destroyed true) (set_closed true s), [m_error streamId failed]).

Definition on_data (chunk : bytes) : op := fun s =>
  if closed s then (s, []) else pumpGuestBytes chunk s.

Definition on_end : op := fun s =>
  let s := on_socket (set_eof true) s in
  if closed s || guestEndSent s then (s, [])
  else match parked s with
       | Some _ => (set_guestEndPending true s, [])
       | None => reportGuestEnd s
       end.

(** The first branch of the [error] listener; [refused] is [ECONNREFUSED]. *)
Definition on_dial_error (refused : bool) : op := fun s =>
  (set_closed true s, [m_error streamId (if refused then not_listening else failed)]).

(** [data]: the bytes go to the socket. *)
Definition write_data (b : bytes) : op := fun s =>
  if closed s || negb (opened s) || runnerEnded s then (s, [])
  else (on_socket (fun k => set_written (written k ++ [b]) k) s, []).

(** The callback of the oldest write, and the tick it schedules. *)
Definition on_written (err : bool) : op := fun s =>
  let len := N.of_nat (length (default [] (written (socket s) !! taken (socket s)))) in
  let s := on_socket (fun k => set_taken (S (taken k)) k) s in
  if err || closed s then (s, [])
  else
    let s := set_unackedInbound (unackedInbound s + len) s in
    (if ackScheduled s then s else set_ackScheduled true s, []).

Definition on_immediate : op := fun s =>
  let s := set_ackScheduled false s in
  if closed s || (unackedInbound s =? 0) then (s, [])
  else
    let grant := N.min (unackedInbound s) PORT_STREAM_WINDOW_BYTES in
    (set_unackedInbound (unackedInbound s - grant) s, [m_ack streamId grant]).

(** The part of [ack] after the lookup. *)
Definition ack (bytes : N) : op := fun s =>
  if closed s then (s, [])
  else
    let s := set_sendCredit (N.min PORT_STREAM_WINDOW_BYTES (sendCredit s + bytes)) s in
    let '(s, msgs) := match parked s with
                      | Some _ => pumpGuestBytes [] s
                      | None => (s, [])
                      end in
    (if negb (is_parked s) && (0 <? sendCredit s) && paused (socket s)
     then on_socket (set_paused false) s else s, msgs).
End Operations.

(** ** The module *)

Record PortStreamsOptions := {
  reservedPorts : list N;
  maxStreams : nat;
}.

(** [allowed] and [streams] (a [Map], in insertion order); every stream object
    made, which the handlers hold by position; and the messages sent. *)
Record PortStreams := {
  allowed : list N;
  streams : list (jsstr * nat);
  objects : list (jsstr * Stream);
  sent : list SupervisorMessage;
}.

Definition createPortStreams : PortStreams :=
  {| allowed := []; streams := []; objects := []; sent := [] |}.

Definition get_stream (streamId : jsstr) (st : PortStreams) : option nat :=
  snd <$> List.find (fun e => bool_decide (fst e = streamId)) (streams st).

Definition remove_stream (streamId : jsstr) (l : list (jsstr * nat)) : list (jsstr * nat) :=
  List.filter (fun e => negb (bool_decide (fst e = streamId))) l.

Definition send (m : SupervisorMessage) (st : PortStreams) : PortStreams :=
  {| allowed := allowed st; streams := streams st; objects := objects st; sent := sent st ++ [m] |}.

(** A handler on the stream object [o]: it sends what it sends, and an object
    it closes leaves the map. *)
Definition act (o : nat) (f : jsstr -> Stream -> Stream * list SupervisorMessage)
    (st : PortStreams) : PortStreams :=
  match objects st !! o with
  | None => st
  | Some (streamId, s) =>
      let '(s', msgs) := f streamId s in
      {| allowed := allowed st;
         streams := if closed s' && negb (closed s) then remove_stream streamId (streams st)
                    else streams st;
         objects := <[o := (streamId, s')]> (objects st);
         sent := sent st ++ msgs |}
  end.

(** [const s = streams.get(streamId); if (!s) return;] and a handler. *)
Definition act_on (streamId : jsstr) (f : jsstr -> Stream -> Stream * list SupervisorMessage)
    (st : PortStreams) : PortStreams :=
  match get_stream streamId st with None => st | Some o => act o f st end.

Definition teardown (streamId : jsstr) (notifyAbort : bool) : PortStreams -> PortStreams :=
  act_on streamId (fun id => teardown_stream id notifyAbort).

Section Module.
Context `{NodeBase64}.
Variable options : PortStreamsOptions.

Definition open (streamId : jsstr) (p : N) (st : PortStreams) : PortStreams :=
  match get_stream streamId st with
  | Some _ => send (m_error streamId duplicate) st
  | None =>
      if bool_decide (p ∈ reservedPorts options) || negb (bool_decide (p ∈ allowed st))
      then send (m_error streamId not_allowed) st
      else if (maxStreams options <=? length (streams st))%nat
      then send (m_error streamId limit) st
      else {| allowed := allowed st;
              streams := streams st ++ [(streamId, length (objects st))];
              objects := objects st ++ [(streamId, new_stream p)];
              sent := sent st |}
  end.

Definition data (streamId : jsstr) (dataBase64 : jsstr) : PortStreams -> PortStreams :=
  act_on streamId (fun _ => write_data (from_base64 dataBase64)).

Definition setAllowed (ports : list N) (st : PortStreams) : PortStreams :=
  let st := {| allowed := js_dedup ports; streams := streams st; objects := objects st; sent := sent st |} in
  fold_left (fun st e =>
    match objects st !! snd e with
    | Some (_, s) => if negb (bool_decide (port s ∈ allowed st)) then teardown (fst e) true st else st
    | None => st
    end) (streams st) st.

Definition handle (item : WorkItem) (st : PortStreams) : PortStreams :=
  match item with
  | w_open streamId p => open streamId p st
  | w_data streamId dataBase64 => data streamId dataBase64 st
  | w_ack streamId bytes => act_on streamId (fun id => ack id bytes) st
  | w_close streamId close_end => act_on streamId runnerEnd st
  | w_close streamId close_abort => teardown streamId false st
  | w_allow ports => setAllowed ports st
  end.

(** [close()] *)
Definition close (st : PortStreams) : PortStreams :=
  fold_left (fun st e => teardown (fst e) true st) (streams st) st.

(** [socket.on("error")]: Node destroys a socket that errors. *)
Definition on_error (o : nat) (refused : bool) (st : PortStreams) : PortStreams :=
  match objects st !! o with
  | None => st
  | Some (streamId, s) =>
      let st := act o (fun _ s => (on_socket (set_destroyed true) s, [])) st in
      if negb (opened s) && negb (closed s)
      then act o (fun id => on_dial_error id refused) st
      else teardown streamId true st
  end.

Definition on_close (o : nat) (st : PortStreams) : PortStreams :=
  match objects st !! o with
  | None => st
  | Some (streamId, _) => teardown streamId true st
  end.

(** ** Runs *)

Inductive Event :=
  | e_item (item : WorkItem)
  | e_connect (o : nat) | e_timeout (o : nat) | e_data (o : nat) (chunk : bytes) | e_end (o : nat)
  | e_error (o : nat) (refused : bool) | e_closed (o : nat) | e_written (o : nat) (err : bool)
  | e_immediate (o : nat) | e_shutdown.

Definition run (e : Event) : PortStreams -> PortStreams :=
  match e with
  | e_item item => handle item
  | e_connect o => act o on_connect
  | e_timeout o => act o on_timeout
  | e_data o chunk => act o (fun id => on_data id chunk)
  | e_end o => act o on_end
  | e_error o refused => on_error o refused
  | e_closed o => on_close o
  | e_written o err => act o (fun _ => on_written err)
  | e_immediate o => act o on_immediate
  | e_shutdown => close
  end.

(** What Node documents of a socket: [connect] comes once, data only between
    connecting and the end, not while paused, nothing but [close] once
    destroyed; each write has one callback, in order; a scheduled tick runs. *)
Definition enabled (e : Event) (st : PortStreams) : bool :=
  let sock o (p : Stream -> bool) :=
    match objects st !! o with Some (_, s) => p s | None => false end in
  match e with
  | e_item _ | e_shutdown => true
  | e_connect o => sock o (fun s => connectArmed (socket s) && negb (destroyed (socket s)))
  | e_timeout o => sock o (fun s => (0 <? timeoutMs (socket s)) && negb (destroyed (socket s)))
  | e_data o chunk => sock o (fun s =>
      negb (connectArmed (socket s)) && negb (destroyed (socket s)) && negb (eof (socket s)) &&
      negb (paused (socket s)) && (0 <? length chunk)%nat && bool_decide (is_bytes chunk))
  | e_end o => sock o (fun s =>
      negb (connectArmed (socket s)) && negb (destroyed (socket s)) && negb (eof (socket s)))
  | e_error o _ => sock o (fun s => negb (destroyed (socket s)))
  | e_closed o => sock o (fun s => destroyed (socket s) || eof (socket s) && halfEnded (socket s))
  | e_written o err => sock o (fun s =>
      (taken (socket s) <? length (written (socket s)))%nat && (negb err || destroyed (socket s)))
  | e_immediate o => sock o ackScheduled
  end.

(** The runs: the events so far, oldest first, and the state they lead to. *)
Inductive trace : list Event -> PortStreams -> Prop :=
  | trace_nil : trace [] createPortStreams
  | trace_snoc es st e : trace es st -> enabled e st = true -> trace (es ++ [e]) (run e st).
End Module.
