(* ===== verification/PortStreamsSpec.v ===== *)
(** * What the supervisor's port streams promise

    Every event of [PortStreams] is a sequence of primitive steps: one handler
    on one stream object, a new object, a refusal, a new allowlist. The laws
    are proved of one handler on one object ([op_inv], [op_protocol],
    [op_bytes]) and carried along runs by induction on the steps. *)
From S2P Require Import Prelude JsBytes PortWire PortStreams.
Local Open Scope N_scope.

(** ** Handlers on one object *)

Inductive Op :=
  | op_connect | op_timeout | op_data (chunk : bytes) | op_end | op_error (refused : bool)
  | op_teardown (notifyAbort : bool) | op_runnerEnd | op_write (b : bytes) | op_written (err : bool)
  | op_immediate | op_ack (n : N).

Definition run_op (op : Op) (id : jsstr) (s : Stream) : Stream * list SupervisorMessage :=
  match op with
  | op_connect => on_connect id s
  | op_timeout => on_timeout id s
  | op_data chunk => on_data id chunk s
  | op_end => on_end id s
  | op_error refused =>
      let s := on_socket (set_destroyed true) s in
      if negb (opened s) && negb (closed s) then on_dial_error id refused s
      else teardown_stream id true s
  | op_teardown notifyAbort => teardown_stream id notifyAbort s
  | op_runnerEnd => runnerEnd id s
  | op_write b => write_data b s
  | op_written err => on_written err s
  | op_immediate => on_immediate id s
  | op_ack n => ack id n s
  end.

(** What the event behind a handler needs of the object. *)
Definition op_ok (op : Op) (s : Stream) : Prop :=
  match op with
  | op_connect => connectArmed (socket s) = true /\ destroyed (socket s) = false
  | op_timeout => timeoutMs (socket s) <> 0 /\ destroyed (socket s) = false
  | op_data chunk =>
      connectArmed (socket s) = false /\ destroyed (socket s) = false /\ eof (socket s) = false /\
      paused (socket s) = false /\ chunk <> [] /\ is_bytes chunk
  | op_end =>
      connectArmed (socket s) = false /\ destroyed (socket s) = false /\ eof (socket s) = false
  | op_error _ => destroyed (socket s) = false
  | op_written err =>
      (taken (socket s) < length (written (socket s)))%nat /\
      (err = true -> destroyed (socket s) = true)
  | op_immediate => ackScheduled s = true
  | _ => True
  end.

(** The state of a stream object, between events. *)
Record op_inv (s : Stream) : Prop := {
  oi_closed : closed s = true -> destroyed (socket s) = true;
  oi_live : closed s = false -> destroyed (socket s) = false;
  oi_opened : opened s = true -> connectArmed (socket s) = false /\ timeoutMs (socket s) = 0;
  oi_dialing : opened s = false -> closed s = false -> connectArmed (socket s) = true;
  oi_credit : sendCredit s <= PORT_STREAM_WINDOW_BYTES;
  oi_parked : forall p, parked s = Some p -> p <> [] /\ sendCredit s = 0 /\ opened s = true;
  oi_paused : paused (socket s) = (sendCredit s =? 0);
  oi_pending : guestEndPending s = true -> eof (socket s) = true /\ parked s <> None;
  oi_end : guestEndSent s = true -> eof (socket s) = true /\ parked s = None;
  oi_eof : eof (socket s) = true -> opened s = true;
  oi_both : guestEndSent s = true -> runnerEnded s = true -> closed s = true;
  oi_half : runnerEnded s = true -> halfEnded (socket s) = true;
  oi_written : written (socket s) <> [] -> opened s = true;
  oi_unacked : unackedInbound s <> 0 -> opened s = true;
  oi_taken : (taken (socket s) <= length (written (socket s)))%nat;
}.

Lemma new_stream_inv p : op_inv (new_stream p).
Proof. constructor; cbn; try done; lia. Qed.

(** Case on the tests of the handlers, one at a time. *)
Ltac op_cases :=
  repeat match goal with
  | |- context [if ?b then _ else _] =>
      lazymatch b with context [if _ then _ else _] => fail | _ => destruct b eqn:? end
  | |- context [match parked ?s with _ => _ end] => destruct (parked s) as [?|] eqn:?
  end; cbn in *.

Lemma teardown_stream_inv id n s : op_inv s -> op_inv (fst (teardown_stream id n s)).
Proof.
  intros H. unfold teardown_stream. destruct (closed s) eqn:E; [done|].
  destruct H; constructor; cbn; auto; congruence.
Qed.

Lemma reportGuestEnd_inv id s :
  op_inv s -> eof (socket s) = true -> parked s = None -> guestEndPending s = false ->
  op_inv (fst (reportGuestEnd id s)).
Proof.
  intros H He Hp Hg. unfold reportGuestEnd.
  destruct (closed s || guestEndSent s) eqn:E; [done|]. apply orb_false_iff in E as [E1 E2].
  cbn. unfold teardown_stream. cbn. rewrite E1.
  destruct (runnerEnded s) eqn:Er; destruct H; constructor; cbn in *; auto; congruence.
Qed.

(** Pumping: everything but the pause flag is as between events, and the
    socket is paused when the window is spent. *)
Lemma pumpGuestBytes_spec id chunk s :
  closed s = false -> destroyed (socket s) = false -> opened s = true ->
  connectArmed (socket s) = false -> timeoutMs (socket s) = 0 ->
  sendCredit s <= PORT_STREAM_WINDOW_BYTES -> guestEndSent s = false ->
  (guestEndPending s = true -> eof (socket s) = true) ->
  (runnerEnded s = true -> halfEnded (socket s) = true) ->
  (written (socket s) <> [] -> opened s = true) ->
  (taken (socket s) <= length (written (socket s)))%nat ->
  let s' := fst (pumpGuestBytes id chunk s) in
  op_inv (on_socket (set_paused (sendCredit s' =? 0)) s') /\
  paused (socket s') = (sendCredit s' =? 0) || paused (socket s) /\
  (parked s' = None \/ sendCredit s' = 0).
Proof.
  intros Hc Hd Ho Ha Ht Hcr Hge Hpe Hrun Hwr Htk.
  unfold pumpGuestBytes. cbn [set_parked sendCredit].
  set (d := match parked s with Some p => p ++ chunk | None => chunk end).
  destruct (cut (sendCredit s) d) as [[credit rest] parts] eqn:Ecut.
  apply cut_spec in Ecut as (_ & _ & Ecr & Hr).
  assert (credit <= PORT_STREAM_WINDOW_BYTES) as Hle by lia.
  destruct rest as [|b rest]; cbn [length Nat.ltb Nat.leb].
  - cbn. destruct (N.leb_spec credit 0) as [H0|H0]; cbn;
      [assert (credit = 0) as -> by lia|];
      (destruct (guestEndPending s) eqn:Eg; cbn;
       [unfold reportGuestEnd; cbn; rewrite Hc, Hge; cbn; rewrite Ho;
        destruct (runnerEnded s) eqn:Er; cbn; [unfold teardown_stream; cbn; rewrite Hc; cbn|]|]);
      (split_and!; [constructor; cbn; try done; auto; try congruence| |by left]);
      try done; try (by destruct (N.eqb_spec credit 0); [lia|]).
  - destruct Hr as [Hr|Hr]; [done|]. subst credit. cbn.
    split_and!; [constructor; cbn; try done; auto; try congruence|done|by right].
    by intros p [= <-].
Qed.

Lemma on_socket_paused_id s : on_socket (set_paused (paused (socket s))) s = s.
Proof. by destruct s as [? [] ]. Qed.

Lemma on_data_inv id chunk s :
  op_inv s -> op_ok (op_data chunk) s -> op_inv (fst (on_data id chunk s)).
Proof.
  intros H (Ha & Hd & He & Hp & _ & _). unfold on_data. destruct (closed s) eqn:Hc; [done|].
  destruct H.
  assert (opened s = true) as Ho.
  { destruct (opened s) eqn:Ho; [done|]. by rewrite (oi_dialing0 eq_refl Hc) in Ha. }
  destruct (oi_opened0 Ho).
  assert (guestEndSent s = false) as Hg.
  { destruct (guestEndSent s) eqn:Hg; [|done]. by destruct (oi_end0 eq_refl) as [E _]; rewrite E in He. }
  destruct (pumpGuestBytes_spec id chunk s) as (Hinv & Hpa & _); auto.
  { intros Hgp. by destruct (oi_pending0 Hgp). }
  rewrite Hp, orb_false_r in Hpa. rewrite <- Hpa in Hinv. by rewrite on_socket_paused_id in Hinv.
Qed.

Lemma ack_inv id n s : op_inv s -> op_inv (fst (ack id n s)).
Proof.
  intros H. unfold ack. destruct (closed s) eqn:Hc; [done|]. cbn [set_sendCredit parked].
  set (c := N.min PORT_STREAM_WINDOW_BYTES (sendCredit s + n)).
  assert (c <= PORT_STREAM_WINDOW_BYTES) as Hle by lia.
  destruct H. destruct (parked s) as [p|] eqn:Ep.
  - destruct (oi_parked0 p eq_refl) as (Hn & H0 & Ho). destruct (oi_opened0 Ho).
    assert (guestEndSent s = false) as Hg.
    { destruct (guestEndSent s) eqn:Hg; [|done]. by destruct (oi_end0 eq_refl) as [_ E]. }
    destruct (pumpGuestBytes_spec id [] (set_sendCredit c s)) as (Hinv & Hpa & Hpk); cbn; auto.
    { intros Hgp. by destruct (oi_pending0 Hgp). }
    cbn in Hpa. rewrite oi_paused0, H0, orb_true_r in Hpa.
    destruct (pumpGuestBytes id [] (set_sendCredit c s)) as [s' msgs]. cbn [fst] in *.
    unfold is_parked. destruct Hpk as [Hpk|Hpk].
    + rewrite Hpk. cbn [negb andb]. rewrite Hpa, andb_true_r.
      destruct (N.ltb_spec 0 (sendCredit s')) as [Hlt|Hlt]; cbn [fst].
      * by rewrite (proj2 (N.eqb_neq _ _)) in Hinv by lia.
      * rewrite (proj2 (N.eqb_eq (sendCredit s') 0)), <- Hpa in Hinv by lia.
        by rewrite on_socket_paused_id in Hinv.
    + rewrite Hpk in *. cbn [N.ltb N.compare]. rewrite andb_false_r. cbn [andb fst].
      cbn [N.eqb] in Hinv. rewrite <- Hpa in Hinv. by rewrite on_socket_paused_id in Hinv.
  - unfold is_parked. cbn [set_sendCredit parked sendCredit socket]. rewrite Ep.
    cbn [negb andb]. rewrite oi_paused0.
    destruct (N.ltb_spec 0 c), (N.eqb_spec (sendCredit s) 0); cbn [andb fst];
      constructor; cbn; try done; auto; rewrite ?Ep; try done.
    + by destruct (N.eqb_spec c 0); [lia|].
    + rewrite oi_paused0. destruct (N.eqb_spec c 0), (N.eqb_spec (sendCredit s) 0); done || lia.
    + rewrite oi_paused0. destruct (N.eqb_spec c 0), (N.eqb_spec (sendCredit s) 0); done || lia.
    + rewrite oi_paused0. destruct (N.eqb_spec c 0), (N.eqb_spec (sendCredit s) 0); done || lia.
Qed.

(** Before it is open a stream has parked nothing and seen no end. *)
Lemma dialing_quiet s :
  op_inv s -> opened s = false ->
  parked s = None /\ guestEndPending s = false /\ guestEndSent s = false /\ eof (socket s) = false.
Proof.
  intros [] Ho.
  assert (eof (socket s) = false) as He by (destruct (eof (socket s)); [by rewrite oi_eof0 in Ho|done]).
  split_and!; try done.
  - destruct (parked s) as [p|]; [|done]. destruct (oi_parked0 p eq_refl) as (_ & _ & ?). congruence.
  - destruct (guestEndPending s); [|done]. destruct (oi_pending0 eq_refl). congruence.
  - destruct (guestEndSent s); [|done]. destruct (oi_end0 eq_refl). congruence.
Qed.

Ltac op_inv_auto :=
  match goal with H : op_inv _ |- _ => destruct H end;
  constructor; cbn in *; try done; auto; try congruence.

Lemma run_op_inv op id s : op_inv s -> op_ok op s -> op_inv (fst (run_op op id s)).
Proof.
  intros H Hok. destruct op; cbn [run_op].
  - destruct Hok as [Ha Hd]. unfold on_connect. cbn.
    destruct (closed s) eqn:Hc; cbn; [by rewrite (oi_closed _ H Hc) in Hd|].
    destruct (opened s) eqn:Ho; [by destruct (oi_opened _ H Ho) as [E _]; rewrite E in Ha|].
    destruct (dialing_quiet s H Ho) as (Hp & Hg & Hs & He). op_inv_auto.
  - destruct Hok as [Ht Hd]. unfold on_timeout. destruct (opened s) eqn:Ho; [done|]. op_inv_auto.
  - by apply on_data_inv.
  - destruct Hok as (Ha & Hd & He). unfold on_end. cbn.
    assert (opened s = true) as Ho.
    { destruct (opened s) eqn:Ho; [done|]. destruct (closed s) eqn:Hc;
        [by rewrite (oi_closed _ H Hc) in Hd|by rewrite (oi_dialing _ H Ho Hc) in Ha]. }
    assert (op_inv (on_socket (set_eof true) s)) as H'.
    { op_inv_auto; intros E; [destruct (oi_pending0 E)|destruct (oi_end0 E)]; done. }
    destruct (closed s || guestEndSent s) eqn:E; [done|].
    destruct (parked s) as [p|] eqn:Ep.
    + clear H. cbn. op_inv_auto. by rewrite Ep.
    + apply reportGuestEnd_inv; cbn; try done.
      destruct (guestEndPending s) eqn:Eg; [|done]. by destruct (oi_pending _ H Eg).
  - cbn in Hok. cbn. destruct (opened s) eqn:Ho; cbn; destruct (closed s) eqn:Hc; cbn;
      try (by rewrite (oi_closed _ H Hc) in Hok);
      unfold teardown_stream; cbn; rewrite ?Hc; cbn; op_inv_auto.
  - by apply teardown_stream_inv.
  - unfold runnerEnd. destruct (closed s || runnerEnded s) eqn:E; [done|].
    apply orb_false_iff in E as [Hc _]. cbn. unfold teardown_stream. cbn. rewrite Hc.
    destruct (guestEndSent s) eqn:Hg; cbn; op_inv_auto.
  - unfold write_data. destruct (_ || runnerEnded s) eqn:E; [done|]. to_prop. cbn. op_inv_auto.
    rewrite length_app. lia.
  - destruct Hok as [Hlt _]. unfold on_written. cbn.
    assert (opened s = true) as Ho.
    { apply (oi_written _ H). intros E. rewrite E in Hlt. cbn in Hlt. lia. }
    destruct (err || closed s); [|destruct (ackScheduled s)]; cbn; op_inv_auto.
  - unfold on_immediate. cbn. destruct (closed s || _); cbn; op_inv_auto.
    intros. apply oi_unacked0. lia.
  - by apply ack_inv.
Qed.

(** ** The protocol of one stream

    Nothing before the answer; after [port.opened], data and acks; one close,
    and after a clean end only acks. *)
Inductive Phase := ph_new | ph_open | ph_ended | ph_done.

Definition ph_next (ph : Phase) (m : SupervisorMessage) : option Phase :=
  match ph, m with
  | ph_new, m_opened _ => Some ph_open
  | ph_new, m_error _ _ => Some ph_done
  | ph_open, m_data _ _ | ph_open, m_ack _ _ => Some ph_open
  | ph_open, m_close _ close_end => Some ph_ended
  | ph_open, m_close _ close_abort => Some ph_done
  | ph_ended, m_ack _ _ => Some ph_ended
  | _, _ => None
  end.

Fixpoint run_phase (ph : Phase) (ms : list SupervisorMessage) : option Phase :=
  match ms with
  | [] => Some ph
  | m :: ms' => ph' ← ph_next ph m; run_phase ph' ms'
  end.

Lemma run_phase_app ph ms ms' :
  run_phase ph (ms ++ ms') = ph' ← run_phase ph ms; run_phase ph' ms'.
Proof.
  revert ph. induction ms as [|m ms IH]; intros ph; [done|]. cbn.
  destruct (ph_next ph m); [apply IH|done].
Qed.

Lemma run_phase_data id parts :
  run_phase ph_open (map (fun p => m_data id (to_base64 p)) parts) = Some ph_open.
Proof. by induction parts. Qed.

(** Where an object stands in the protocol: a closed one says nothing more. *)
Definition phase_of (o g : bool) (ph : Phase) : Prop :=
  match ph with
  | ph_new => o = false
  | ph_open => o = true /\ g = false
  | ph_ended => o = true /\ g = true
  | ph_done => False
  end.

Definition at_phase (s : Stream) (ph : Phase) : Prop :=
  closed s = true \/ phase_of (opened s) (guestEndSent s) ph.

Lemma reportGuestEnd_phase id s :
  opened s = true -> guestEndSent s = false -> closed s = false ->
  exists s' msgs ph, reportGuestEnd id s = (s', msgs) /\
    run_phase ph_open msgs = Some ph /\ at_phase s' ph.
Proof.
  intros Ho Hg Hc. unfold reportGuestEnd. rewrite Hc, Hg. cbn. rewrite Ho.
  destruct (runnerEnded s); [unfold teardown_stream; cbn; rewrite Hc; cbn|];
    (eexists _, _, ph_ended; split_and!; [reflexivity|reflexivity|]);
    [by left|right; cbn; by rewrite Ho].
Qed.

Lemma pumpGuestBytes_phase id chunk s :
  opened s = true -> guestEndSent s = false -> closed s = false ->
  exists s' msgs ph, pumpGuestBytes id chunk s = (s', msgs) /\
    run_phase ph_open msgs = Some ph /\ at_phase s' ph.
Proof.
  intros Ho Hg Hc. unfold pumpGuestBytes. cbn [set_parked sendCredit].
  destruct (cut _ _) as [[credit rest] parts].
  set (s1 := if (0 <? length rest)%nat then _ else _).
  assert (opened s1 = true /\ guestEndSent s1 = false /\ closed s1 = false) as (Ho1 & Hg1 & Hc1).
  { subst s1. destruct (0 <? length rest)%nat; cbn; [done|]. by destruct (credit <=? 0). }
  clearbody s1. destruct (negb (is_parked s1) && guestEndPending s1).
  - destruct (reportGuestEnd_phase id (set_guestEndPending false s1)) as (s' & msgs & ph & E & Hp & Ha);
      [done..|]. rewrite E. eexists _, _, ph. split_and!; [done| |done].
    by rewrite run_phase_app, run_phase_data.
  - eexists _, _, ph_open. split_and!; [done|apply run_phase_data|by right].
Qed.

(** A closed object is silent and stays closed. *)
Lemma run_op_closed op id s :
  op_inv s -> op_ok op s -> closed s = true ->
  snd (run_op op id s) = [] /\ closed (fst (run_op op id s)) = true /\
  parked (fst (run_op op id s)) = parked s.
Proof.
  intros H Hok Hc. pose proof (oi_closed _ H Hc) as Hd.
  destruct op; cbn in *;
    unfold on_connect, on_timeout, on_data, on_end, teardown_stream, runnerEnd, write_data, on_written,
      on_immediate, ack; cbn; rewrite ?Hc; cbn; rewrite ?orb_true_r; cbn; try done.
  - destruct Hok. congruence.
  - congruence.
Qed.

(** The object did not move in the protocol. *)
Ltac stay :=
  right; cbn; try done;
  repeat match goal with
  | E : opened _ = _ |- _ => rewrite E
  | E : guestEndSent _ = _ |- _ => rewrite E
  end; done.

Lemma run_op_phase op id s ph :
  op_inv s -> op_ok op s -> at_phase s ph ->
  exists ph', run_phase ph (snd (run_op op id s)) = Some ph' /\ at_phase (fst (run_op op id s)) ph'.
Proof.
  intros H Hok [Hc|Hph].
  { destruct (run_op_closed op id s H Hok Hc) as (-> & Hc' & _). exists ph. split; [done|by left]. }
  destruct (closed s) eqn:Hc.
  { destruct (run_op_closed op id s H Hok Hc) as (-> & Hc' & _). exists ph. split; [done|by left]. }
  pose proof (oi_live _ H Hc) as Hlive.
  destruct op; cbn [run_op].
  - destruct Hok as [Ha Hd]. unfold on_connect. cbn. rewrite Hc. cbn.
    destruct ph; [|by destruct Hph as [Ho _]; destruct (oi_opened _ H Ho); congruence..|done].
    exists ph_open. split; [done|]. right. cbn. split; [done|]. by apply (dialing_quiet s).
  - unfold on_timeout. destruct (opened s) eqn:Ho; [exists ph; split; [done|stay]|].
    destruct ph; [|by destruct Hph; congruence..|done]. exists ph_done. split; [done|by left].
  - destruct Hok as (Ha & Hd & He & _). unfold on_data. rewrite Hc.
    assert (opened s = true) as Ho.
    { destruct (opened s) eqn:Ho; [done|]. by rewrite (oi_dialing _ H Ho Hc) in Ha. }
    assert (guestEndSent s = false) as Hg.
    { destruct (guestEndSent s) eqn:Hg; [|done]. by destruct (oi_end _ H Hg); congruence. }
    destruct ph; [congruence| |by destruct Hph; congruence|done].
    destruct (pumpGuestBytes_phase id chunk s) as (s' & msgs & ph' & -> & ? & ?); eauto.
  - destruct Hok as (Ha & Hd & He). unfold on_end. cbn. rewrite Hc. cbn.
    destruct (guestEndSent s) eqn:Hg; [exists ph; split; [done|stay]|].
    assert (opened s = true) as Ho.
    { destruct (opened s) eqn:Ho; [done|]. by rewrite (oi_dialing _ H Ho Hc) in Ha. }
    destruct ph; [congruence| |by destruct Hph; congruence|done].
    destruct (parked s); [exists ph_open; split; [done|stay]|].
    destruct (reportGuestEnd_phase id (on_socket (set_eof true) s)) as (s' & msgs & ph' & -> & ? & ?);
      eauto.
  - cbn. rewrite Hc, andb_true_r. destruct (opened s) eqn:Ho; cbn.
    + unfold teardown_stream. cbn. rewrite Hc. cbn. rewrite Ho.
      destruct (guestEndSent s) eqn:Hg; cbn.
      * exists ph. split; [done|by left].
      * destruct ph; [congruence| |by destruct Hph; congruence|done].
        exists ph_done. split; [done|by left].
    + destruct ph; [|by destruct Hph; congruence..|done]. exists ph_done. split; [done|by left].
  - unfold teardown_stream. rewrite Hc. cbn.
    destruct (notifyAbort && opened s && negb (guestEndSent s)) eqn:E; cbn;
      [|exists ph; split; [done|by left]].
    to_prop. destruct ph; [congruence| |by destruct Hph; congruence|done].
    exists ph_done. split; [done|by left].
  - unfold runnerEnd. rewrite Hc. cbn. destruct (runnerEnded s); cbn;
      [exists ph; split; [done|stay]|].
    unfold teardown_stream. cbn. rewrite Hc.
    destruct (guestEndSent s) eqn:Hg; cbn; exists ph; (split; [done|]); [by left|].
    stay.
  - unfold write_data. rewrite Hc. cbn. exists ph.
    destruct (negb (opened s) || runnerEnded s); cbn; (split; [done|stay]).
  - unfold on_written. cbn. rewrite Hc, orb_false_r. exists ph.
    destruct err; [|destruct (ackScheduled s)]; cbn; (split; [done|stay]).
  - unfold on_immediate. cbn. rewrite Hc. cbn.
    destruct (N.eqb_spec (unackedInbound s) 0) as [_|Hu]; cbn; [exists ph; split; [done|stay]|].
    pose proof (oi_unacked _ H Hu) as Ho.
    destruct ph; [cbn in Hph; congruence| | |done];
      [exists ph_open|exists ph_ended]; (split; [done|stay]).
  - unfold ack. rewrite Hc. cbn. destruct (parked s) as [p|] eqn:Ep.
    + destruct (oi_parked _ H p Ep) as (_ & _ & Ho).
      assert (guestEndSent s = false) as Hg.
      { destruct (guestEndSent s) eqn:Hg; [|done]. by destruct (oi_end _ H Hg); congruence. }
      destruct ph; [cbn in Hph; congruence| |by destruct Hph; congruence|done].
      destruct (pumpGuestBytes_phase id []
        (set_sendCredit (N.min PORT_STREAM_WINDOW_BYTES (sendCredit s + n)) s))
        as (s' & msgs & ph' & -> & ? & ?); [done..|].
      exists ph'. cbn. split; [done|]. by destruct (_ && paused _).
    + exists ph. split; [done|]. destruct (_ && paused _); stay.
Qed.

(** ** The bytes of one stream *)

Section Bytes.
Context `{NodeBase64}.

Definition payload (m : SupervisorMessage) : bytes :=
  match m with m_data _ b => from_base64 b | _ => [] end.
Definition granted (m : SupervisorMessage) : N := match m with m_ack _ n => n | _ => 0 end.
Definition data_of (ms : list SupervisorMessage) : bytes := flat_map payload ms.
Definition acks_of (ms : list SupervisorMessage) : N := foldr (fun m n => granted m + n) 0 ms.

Lemma data_of_app ms ms' : data_of (ms ++ ms') = data_of ms ++ data_of ms'.
Proof. apply flat_map_app. Qed.

Lemma acks_of_app ms ms' : acks_of (ms ++ ms') = acks_of ms + acks_of ms'.
Proof. unfold acks_of. induction ms as [|m ms IH]; cbn; [done|]. rewrite IH. lia. Qed.

(** A frame within the bounds of the wire. *)
Definition frame_ok (m : SupervisorMessage) : Prop :=
  match m with
  | m_data _ b => b <> [] /\ N.of_nat (length b) <= PORT_CHUNK_BASE64_CHARS /\
      N.of_nat (length (from_base64 b)) <= PORT_CHUNK_RAW_BYTES
  | m_ack _ n => 0 < n <= PORT_STREAM_WINDOW_BYTES
  | _ => True
  end.

(** What an operation takes in, lets through and acknowledges. *)
Definition received (op : Op) : bytes := match op with op_data chunk => chunk | _ => [] end.
Definition window_grant (op : Op) : N := match op with op_ack n => n | _ => 0 end.
Definition accepted (op : Op) (s : Stream) : N :=
  match op with
  | op_written false =>
      if closed s then 0
      else N.of_nat (length (default [] (written (socket s) !! taken (socket s))))
  | _ => 0
  end.

Definition parked_bytes (s : Stream) : bytes := default [] (parked s).

Lemma parts_frames id parts :
  Forall chunk_ok parts -> is_bytes (concat parts) ->
  let ms := map (fun p => m_data id (to_base64 p)) parts in
  data_of ms = concat parts /\ Forall frame_ok ms /\ acks_of ms = 0.
Proof.
  induction 1 as [|p parts [Hn Hl] _ IH]; cbn; [done|].
  intros [Hp Hps]%is_bytes_app. destruct (IH Hps) as (E & Hf & Ha).
  rewrite from_base64_to_base64 by done. unfold data_of in *. rewrite E. split_and!; [done| |done].
  constructor; [|done]. cbn. rewrite from_base64_to_base64 by done. split_and!.
  - by intros ?%to_base64_nil.
  - rewrite length_to_base64. unfold PORT_CHUNK_BASE64_CHARS, PORT_CHUNK_RAW_BYTES in *.
    apply N.mul_le_mono_r, N.Div0.div_le_mono. lia.
  - done.
Qed.

Lemma reportGuestEnd_bytes id s :
  let r := reportGuestEnd id s in
  data_of (snd r) = [] /\ Forall frame_ok (snd r) /\ acks_of (snd r) = 0 /\
  parked (fst r) = parked s /\ sendCredit (fst r) = sendCredit s /\
  unackedInbound (fst r) = unackedInbound s /\ written (socket (fst r)) = written (socket s).
Proof.
  unfold reportGuestEnd. destruct (closed s || guestEndSent s); cbn; [by split_and!|].
  unfold teardown_stream. cbn.
  destruct (runnerEnded s), (opened s), (closed s); cbn; split_and!; try done; by repeat constructor.
Qed.

Lemma pumpGuestBytes_bytes id chunk s :
  is_bytes (parked_bytes s) -> is_bytes chunk ->
  let r := pumpGuestBytes id chunk s in
  parked_bytes s ++ chunk = data_of (snd r) ++ parked_bytes (fst r) /\
  is_bytes (parked_bytes (fst r)) /\ Forall frame_ok (snd r) /\ acks_of (snd r) = 0 /\
  sendCredit s = sendCredit (fst r) + N.of_nat (length (data_of (snd r))) /\
  unackedInbound (fst r) = unackedInbound s /\ written (socket (fst r)) = written (socket s) /\
  (parked (fst r) = None \/ sendCredit (fst r) = 0).
Proof.
  intros Hp Hc. unfold pumpGuestBytes. cbn [set_parked sendCredit].
  set (d := match parked s with Some p => p ++ chunk | None => chunk end).
  assert (parked_bytes s ++ chunk = d) as -> by (unfold parked_bytes; subst d; by destruct (parked s)).
  assert (is_bytes d) as Hd.
  { subst d. unfold parked_bytes in Hp. destruct (parked s); [|done]. by apply is_bytes_app. }
  clearbody d. destruct (cut (sendCredit s) d) as [[credit rest] parts] eqn:Ecut.
  apply cut_spec in Ecut as (-> & Hparts & Ecr & Hr). apply is_bytes_app in Hd as [Hpb Hrb].
  destruct (parts_frames id parts Hparts Hpb) as (Ed & Hf & Ha).
  set (s1 := if (0 <? length rest)%nat then _ else _).
  assert (parked_bytes s1 = rest /\ sendCredit s1 = credit /\ (parked s1 = None \/ credit = 0) /\
    unackedInbound s1 = unackedInbound s /\ written (socket s1) = written (socket s))
    as (E1 & E2 & E3 & E4 & E5).
  { subst s1. unfold parked_bytes. destruct rest as [|b rest]; cbn.
    - destruct (credit <=? 0); cbn; split_and!; try done; by left.
    - destruct Hr; [done|]. split_and!; try done. by right. }
  clearbody s1. destruct (negb (is_parked s1) && guestEndPending s1).
  - pose proof (reportGuestEnd_bytes id (set_guestEndPending false s1)) as (R1 & R2 & R3 & R4 & R5 & R6 & R7).
    destruct (reportGuestEnd id (set_guestEndPending false s1)) as [s' more].
    cbn [fst snd set_guestEndPending parked sendCredit unackedInbound socket] in *.
    unfold parked_bytes in *. rewrite R4, R5, R6, R7, data_of_app, Ed, R1, app_nil_r, acks_of_app, Ha, R3.
    split_and!; try done; try congruence. by apply Forall_app.
  - cbn [fst snd]. rewrite Ed, Ha, E1, E2. by split_and!.
Qed.

Lemma run_op_bytes op id s :
  op_inv s -> op_ok op s -> is_bytes (parked_bytes s) -> is_bytes (received op) ->
  let r := run_op op id s in
  parked_bytes s ++ received op = data_of (snd r) ++ parked_bytes (fst r) /\
  is_bytes (parked_bytes (fst r)) /\ Forall frame_ok (snd r) /\
  sendCredit (fst r) + N.of_nat (length (data_of (snd r))) <= sendCredit s + window_grant op /\
  acks_of (snd r) + unackedInbound (fst r) = unackedInbound s + accepted op s.
Proof.
  intros Hinv Hok Hp Hr.
  assert (forall s', parked s' = parked s -> sendCredit s' = sendCredit s ->
    unackedInbound s' = unackedInbound s -> forall ms, received op = [] -> accepted op s = 0 ->
    data_of ms = [] -> Forall frame_ok ms -> acks_of ms = 0 ->
    parked_bytes s ++ received op = data_of ms ++ parked_bytes s' /\
    is_bytes (parked_bytes s') /\ Forall frame_ok ms /\
    sendCredit s' + N.of_nat (length (data_of ms)) <= sendCredit s + window_grant op /\
    acks_of ms + unackedInbound s' = unackedInbound s + accepted op s) as Hsame.
  { intros s' Ep Ec Eu ms -> Ha -> Hf Hk. unfold parked_bytes in *. rewrite Ep, Ec, Eu, Ha, Hk, app_nil_r.
    split_and!; try done; cbn; lia. }
  assert (forall n s1, parked s1 = parked s -> sendCredit s1 = sendCredit s ->
    unackedInbound s1 = unackedInbound s -> received op = [] -> accepted op s = 0 ->
    let r := teardown_stream id n s1 in
    parked_bytes s ++ received op = data_of (snd r) ++ parked_bytes (fst r) /\
    is_bytes (parked_bytes (fst r)) /\ Forall frame_ok (snd r) /\
    sendCredit (fst r) + N.of_nat (length (data_of (snd r))) <= sendCredit s + window_grant op /\
    acks_of (snd r) + unackedInbound (fst r) = unackedInbound s + accepted op s) as Htear.
  { intros n s1 E1 E2 E3 E4 E5. unfold teardown_stream. destruct (closed s1); [by apply Hsame|].
    destruct (_ && _ && _); apply Hsame; cbn; try done; by repeat constructor. }
  destruct op; cbn [run_op].
  - unfold on_connect. cbn. destruct (closed s); apply Hsame; try done; by repeat constructor.
  - unfold on_timeout. destruct (opened s); apply Hsame; try done; by repeat constructor.
  - unfold on_data. destruct (closed s) eqn:Hc.
    { destruct Hok as (_ & Hd & _). by rewrite (oi_closed _ Hinv Hc) in Hd. }
    destruct (pumpGuestBytes_bytes id chunk s Hp Hr) as (E1 & E2 & E3 & E4 & E5 & E6 & E7 & E8).
    split_and!; try done; [lia|]. cbn. lia.
  - unfold on_end. cbn. destruct (closed s || guestEndSent s); [by apply Hsame|].
    destruct (parked s) eqn:Ep; [apply Hsame; cbn; done|].
    destruct (reportGuestEnd_bytes id (on_socket (set_eof true) s)) as (R1 & R2 & R3 & R4 & R5 & R6 & R7).
    apply Hsame; try done. cbn in R4. by rewrite R4.
  - cbn. destruct (_ && _); [apply Hsame; cbn; try done; by repeat constructor|by apply Htear].
  - by apply Htear.
  - unfold runnerEnd. destruct (closed s || runnerEnded s); [by apply Hsame|]. cbn.
    destruct (guestEndSent s); [by apply Htear|by apply Hsame].
  - unfold write_data. destruct (_ || runnerEnded s); by apply Hsame.
  - unfold on_written. destruct err; cbn [orb]; [by apply Hsame|].
    cbn [on_socket set_socket closed].
    destruct (closed s) eqn:Hc; [apply Hsame; cbn; try done; by rewrite Hc|]. cbn. rewrite Hc.
    destruct (ackScheduled s); cbn; unfold parked_bytes; cbn; rewrite app_nil_r; split_and!; try done; lia.
  - unfold on_immediate. cbn. destruct (closed s || (unackedInbound s =? 0)) eqn:E; [by apply Hsame|].
    apply orb_false_iff in E as [_ E]. apply N.eqb_neq in E. cbn. unfold parked_bytes. cbn.
    rewrite app_nil_r. split_and!; try done; [constructor; [|done]; cbn|..];
      unfold PORT_STREAM_WINDOW_BYTES; lia.
  - unfold ack. destruct (closed s); [by apply Hsame|]. cbn.
    set (c := N.min PORT_STREAM_WINDOW_BYTES (sendCredit s + n)). assert (c <= sendCredit s + n) by lia.
    destruct (parked s) as [p|] eqn:Ep.
    + destruct (pumpGuestBytes_bytes id [] (set_sendCredit c s)) as (E1 & E2 & E3 & E4 & E5 & E6 & E7 & _);
        [done|constructor|].
      destruct (pumpGuestBytes id [] (set_sendCredit c s)) as [s' msgs].
      cbn [fst snd set_sendCredit sendCredit unackedInbound received window_grant accepted] in *.
      destruct (_ && _ && paused _); cbn [fst snd on_socket set_socket sendCredit unackedInbound];
        split_and!; try done; lia.
    + unfold parked_bytes. destruct (_ && _ && paused _); cbn; rewrite Ep; cbn; split_and!; try done; lia.
Qed.
End Bytes.

(** ** The map of the live objects *)

Record map_inv (st : PortStreams) : Prop := {
  mi_keys : NoDup (map fst (streams st));
  mi_live id o :
    (id, o) ∈ streams st <-> exists s, objects st !! o = Some (id, s) /\ closed s = false;
  mi_objects o id s : objects st !! o = Some (id, s) -> op_inv s;
}.

Lemma get_stream_spec st id o :
  map_inv st -> get_stream id st = Some o <-> (id, o) ∈ streams st.
Proof.
  intros H. unfold get_stream. split.
  - intros ((id', o') & E & ->)%fmap_Some. apply find_some in E as [Hin E].
    apply bool_decide_eq_true in E. cbn in *. subst. by apply list_elem_of_In.
  - intros Hin. destruct (List.find _ (streams st)) as [[id' o']|] eqn:E.
    + apply find_some in E as [Hin' E]. apply bool_decide_eq_true in E. cbn in *. subst.
      apply list_elem_of_In in Hin'. f_equal.
      assert ((id, o') = (id, o)) as [= <-]; [|done].
      by apply (NoDup_fmap_elem_eq fst (streams st)); [apply H|..].
    + exfalso. apply list_elem_of_In in Hin. apply (find_none _ _ E) in Hin. cbn in Hin.
      by rewrite bool_decide_eq_true_2 in Hin.
Qed.

Lemma act_unfold o f st id s :
  objects st !! o = Some (id, s) ->
  act o f st =
    {| allowed := allowed st;
       streams := if closed (fst (f id s)) && negb (closed s) then remove_stream id (streams st)
                  else streams st;
       objects := <[o := (id, fst (f id s))]> (objects st);
       sent := sent st ++ snd (f id s) |}.
Proof. intros E. unfold act. rewrite E. by destruct (f id s). Qed.

Lemma elem_of_remove_stream id l e : e ∈ remove_stream id l <-> e ∈ l /\ fst e <> id.
Proof.
  unfold remove_stream. rewrite elem_of_lfilter.
  destruct (bool_decide_reflect (fst e = id)); cbn; naive_solver.
Qed.

Lemma NoDup_remove_stream id l : NoDup (map fst l) -> NoDup (map fst (remove_stream id l)).
Proof.
  unfold remove_stream. induction l as [|e l IH]; cbn; [done|]. intros [Hn Hl]%NoDup_cons.
  case_bool_decide; cbn; [auto|]. constructor; [|auto]. intros (e' & E & He')%elem_of_lmap.
  apply Hn. apply elem_of_lmap. exists e'. apply elem_of_lfilter in He' as [? _]. done.
Qed.

Lemma act_map_inv st o op id s :
  map_inv st -> objects st !! o = Some (id, s) -> op_ok op s -> map_inv (act o (run_op op) st).
Proof.
  intros H Eo Hok. pose proof (mi_objects _ H _ _ _ Eo) as Hs.
  rewrite (act_unfold _ _ _ _ _ Eo). pose proof (run_op_inv op id s Hs Hok) as Hs'.
  pose proof (fun Hc => run_op_closed op id s Hs Hok Hc) as Hcl.
  destruct (run_op op id s) as [s' ms]. cbn [fst snd] in *.
  assert (o < length (objects st))%nat as Hlt by (by apply lookup_lt_Some in Eo).
  constructor; cbn.
  - destruct (closed s' && negb (closed s)); [apply NoDup_remove_stream|]; apply H.
  - intros id' o'. destruct (decide (o' = o)) as [->|Hne].
    + rewrite list_lookup_insert_eq by done. split.
      * intros Hin. assert ((id', o) ∈ streams st) as Hin'.
        { destruct (closed s' && _); [by apply elem_of_remove_stream in Hin as [? _]|done]. }
        apply (mi_live _ H) in Hin' as (s0 & E0 & Hc0). rewrite Eo in E0. injection E0 as <- <-.
        exists s'. split; [done|]. destruct (closed s') eqn:Hc'; [|done]. exfalso.
        rewrite Hc0 in Hin. cbn in Hin. by apply elem_of_remove_stream in Hin as [_ ?].
      * intros (s0 & [= <- <-] & Hc'). rewrite Hc'. cbn. apply (mi_live _ H). exists s. split; [done|].
        destruct (closed s) eqn:Hc; [|done]. destruct (Hcl eq_refl) as (_ & E & _). congruence.
    + rewrite list_lookup_insert_ne by done. rewrite <- (mi_live _ H).
      destruct (closed s' && negb (closed s)) eqn:Ec; [|done].
      rewrite elem_of_remove_stream. cbn. split; [by intros [? _]|]. intros Hin. split; [done|].
      intros ->. apply andb_true_iff in Ec as [_ Ec]. apply negb_true_iff in Ec.
      assert ((id, o) ∈ streams st) as Hin2 by (apply (mi_live _ H); eauto).
      assert ((id, o') = (id, o)) as [= ?]; [|done].
      by apply (NoDup_fmap_elem_eq fst (streams st)); [apply H|..].
  - intros o' id' s0. destruct (decide (o' = o)) as [->|Hne].
    + rewrite list_lookup_insert_eq by done. by intros [= <- <-].
    + rewrite list_lookup_insert_ne by done. apply H.
Qed.

(** A dial makes a new object, live under its id. *)
Lemma lookup_new_object st id p o id' s :
  (objects st ++ [(id, new_stream p)]) !! o = Some (id', s) <->
  objects st !! o = Some (id', s) \/ o = length (objects st) /\ id' = id /\ s = new_stream p.
Proof.
  destruct (decide (o < length (objects st))%nat) as [Hlt|Hge].
  - rewrite lookup_app_l by done. split; [by left|]. intros [?|[-> _]]; [done|lia].
  - rewrite lookup_app_r by lia. rewrite list_lookup_singleton_Some.
    split; [intros [? [= <- <-]]; right; split; [lia|done]|].
    intros [E|(-> & -> & ->)]; [apply lookup_lt_Some in E; lia|]. split; [lia|done].
Qed.

Lemma map_inv_open st id p :
  map_inv st -> get_stream id st = None ->
  map_inv {| allowed := allowed st; streams := streams st ++ [(id, length (objects st))];
             objects := objects st ++ [(id, new_stream p)]; sent := sent st |}.
Proof.
  intros H Hget. constructor; cbn [streams objects].
  - rewrite map_app. apply NoDup_app. split; [apply (mi_keys _ H)|].
    split; [|by apply NoDup_singleton]. intros k ((id', o) & -> & Hin)%elem_of_lmap.
    cbn. intros ->%list_elem_of_singleton. apply (get_stream_spec _ _ _ H) in Hin. congruence.
  - intros id' o. rewrite elem_of_app, list_elem_of_singleton, (mi_live _ H). split.
    + intros [(s & E & Hc)|[= -> ->]].
      * exists s. split; [|done]. apply lookup_new_object. by left.
      * exists (new_stream p). split; [|done]. apply lookup_new_object. by right.
    + intros (s & [E|(-> & -> & ->)]%lookup_new_object & Hc); [left; eauto|by right].
  - intros o id' s [E|(_ & _ & ->)]%lookup_new_object; [by apply (mi_objects _ H o id')|].
    apply new_stream_inv.
Qed.

(** ** Messages by stream *)

Definition msgs_of (id : jsstr) (ms : list SupervisorMessage) : list SupervisorMessage :=
  List.filter (fun m => bool_decide (message_stream m = id)) ms.

Definition of_stream (id : jsstr) (ms : list SupervisorMessage) : Prop :=
  Forall (fun m => message_stream m = id) ms.

Lemma msgs_of_app id ms ms' : msgs_of id (ms ++ ms') = msgs_of id ms ++ msgs_of id ms'.
Proof. apply List.filter_app. Qed.

Lemma msgs_of_same id ms : of_stream id ms -> msgs_of id ms = ms.
Proof.
  intros H. apply filter_all. intros m Hm. apply bool_decide_eq_true.
  unfold of_stream in H. rewrite Forall_forall in H. auto.
Qed.

Lemma msgs_of_other id id' ms : of_stream id ms -> id' <> id -> msgs_of id' ms = [].
Proof.
  intros H Hne. apply filter_none. intros m Hm. apply bool_decide_eq_false.
  unfold of_stream in H. rewrite Forall_forall in H. rewrite (H m Hm). congruence.
Qed.

Lemma reportGuestEnd_of_stream id s : of_stream id (snd (reportGuestEnd id s)).
Proof.
  unfold reportGuestEnd, teardown_stream, of_stream.
  destruct (closed s || guestEndSent s); [constructor|]. cbn.
  destruct (runnerEnded s), (opened s), (closed s); cbn; by repeat constructor.
Qed.

Lemma pumpGuestBytes_of_stream id chunk s : of_stream id (snd (pumpGuestBytes id chunk s)).
Proof.
  unfold pumpGuestBytes. destruct (cut _ _) as [[credit rest] parts].
  set (s1 := if (0 <? length rest)%nat then _ else _).
  assert (of_stream id (map (fun part => m_data id (to_base64 part)) parts)) as Hp.
  { unfold of_stream. induction parts; constructor; done. }
  destruct (negb (is_parked s1) && guestEndPending s1); [|done].
  pose proof (reportGuestEnd_of_stream id (set_guestEndPending false s1)) as Hr.
  destruct (reportGuestEnd id (set_guestEndPending false s1)). by apply Forall_app.
Qed.

Lemma run_op_of_stream op id s : of_stream id (snd (run_op op id s)).
Proof.
  assert (forall n s, of_stream id (snd (teardown_stream id n s))) as Ht.
  { intros n s0. unfold teardown_stream, of_stream. destruct (closed s0); [constructor|].
    destruct (_ && _ && _); by repeat constructor. }
  assert (of_stream id []) as H0 by constructor.
  assert (forall m, message_stream m = id -> of_stream id [m]) as H1 by (by repeat constructor).
  destruct op; cbn [run_op];
    unfold on_connect, on_timeout, on_data, on_end, on_dial_error, runnerEnd, write_data, on_written,
      on_immediate, ack;
    repeat match goal with
    | |- context [if ?b then _ else _] => destruct b
    | |- context [match parked ?s with _ => _ end] => destruct (parked s)
    end; auto using pumpGuestBytes_of_stream, reportGuestEnd_of_stream.
  all: cbn; auto.
  set (s1 := set_sendCredit _ s). pose proof (pumpGuestBytes_of_stream id [] s1).
  destruct (pumpGuestBytes id [] s1). by destruct (_ && paused _).
Qed.

(** ** Histories

    What a run fed each stream object, and the stream ids it used. *)
Record Hist := {
  h_ids : list jsstr;
  h_recv : nat -> bytes;
  h_grant : nat -> N;
  h_accepted : nat -> N;
}.

Definition hist_nil : Hist :=
  {| h_ids := []; h_recv := fun _ => []; h_grant := fun _ => 0; h_accepted := fun _ => 0 |}.

Definition hist_act (o : nat) (op : Op) (s : Stream) (h : Hist) : Hist :=
  {| h_ids := h_ids h;
     h_recv := fun o' => h_recv h o' ++ if decide (o' = o) then received op else [];
     h_grant := fun o' => h_grant h o' + if decide (o' = o) then window_grant op else 0;
     h_accepted := fun o' => h_accepted h o' + if decide (o' = o) then accepted op s else 0 |}.

Definition hist_id (id : jsstr) (h : Hist) : Hist :=
  {| h_ids := id :: h_ids h; h_recv := h_recv h; h_grant := h_grant h; h_accepted := h_accepted h |}.

Section Histories.
Context `{NodeBase64}.

(** The bytes of the writes whose callback ran. *)
Definition taken_bytes (s : Stream) : N :=
  N.of_nat (length (concat (take (taken (socket s)) (written (socket s))))).

(** And of those whose callback is still to run. *)
Definition untaken (s : Stream) : N :=
  N.of_nat (length (concat (drop (taken (socket s)) (written (socket s))))).

(** The bytes a handler gives the socket. *)
Definition given (op : Op) (s : Stream) : bytes :=
  match op with
  | op_write b => if closed s || negb (opened s) || runnerEnded s then [] else b
  | _ => []
  end.

(** Most handlers leave the runner's side of the socket alone. *)
Record keeps (s s' : Stream) : Prop := {
  kp_taken : taken (socket s') = taken (socket s);
  kp_written : written (socket s') = written (socket s);
  kp_ended : runnerEnded s' = runnerEnded s;
  kp_closed : closed s' = false -> closed s = false;
  kp_opened : opened s = true -> opened s' = true;
}.

Lemma keeps_refl s : keeps s s.
Proof. by constructor. Qed.

Lemma keeps_trans s s' s'' : keeps s s' -> keeps s' s'' -> keeps s s''.
Proof. intros [] []. constructor; try congruence; auto. Qed.

Lemma teardown_keeps id n s : keeps s (fst (teardown_stream id n s)).
Proof. unfold teardown_stream. destruct (closed s) eqn:E; by constructor. Qed.

Lemma reportGuestEnd_keeps id s : keeps s (fst (reportGuestEnd id s)).
Proof.
  unfold reportGuestEnd. destruct (closed s || guestEndSent s); [apply keeps_refl|]. cbn.
  pose proof (teardown_keeps id false (set_guestEndSent true s)) as Ht.
  destruct (runnerEnded s); [|by constructor].
  destruct (teardown_stream id false (set_guestEndSent true s)). by destruct Ht; constructor.
Qed.

Lemma pumpGuestBytes_keeps id c s : keeps s (fst (pumpGuestBytes id c s)).
Proof.
  unfold pumpGuestBytes. destruct (cut _ _) as [[credit rest] parts].
  set (s1 := if (0 <? length rest)%nat then _ else _).
  assert (keeps s s1) as H1.
  { subst s1. destruct (0 <? length rest)%nat; [by constructor|]. by destruct (_ <=? _); constructor. }
  clearbody s1. destruct (negb (is_parked s1) && guestEndPending s1); [|done].
  pose proof (reportGuestEnd_keeps id (set_guestEndPending false s1)) as Hr.
  destruct (reportGuestEnd id (set_guestEndPending false s1)).
  eapply keeps_trans; [done|]. by destruct Hr; constructor.
Qed.

Lemma run_op_keeps op id s :
  match op with op_write _ | op_written _ | op_runnerEnd => False | _ => True end ->
  keeps s (fst (run_op op id s)).
Proof.
  destruct op; cbn [run_op]; intros Hop; try done.
  - unfold on_connect. cbn. by destruct (closed s) eqn:E; constructor; cbn.
  - unfold on_timeout. by destruct (opened s); constructor.
  - unfold on_data. destruct (closed s); [apply keeps_refl|apply pumpGuestBytes_keeps].
  - unfold on_end. cbn. destruct (closed s || _); [by constructor|].
    destruct (parked s); [by constructor|].
    eapply keeps_trans; [|apply reportGuestEnd_keeps]. by constructor.
  - cbn. destruct (_ && _); [by constructor|].
    eapply keeps_trans; [|apply teardown_keeps]. by constructor.
  - apply teardown_keeps.
  - unfold on_immediate. cbn. destruct (_ || _); by constructor.
  - unfold ack. destruct (closed s) eqn:E; [apply keeps_refl|]. cbn.
    set (s0 := set_sendCredit _ s). assert (keeps s s0) as H0 by (by constructor).
    pose proof (pumpGuestBytes_keeps id [] s0) as Hp. destruct (parked s).
    + destruct (pumpGuestBytes id [] s0) as [s1 ms]. eapply keeps_trans; [done|].
      destruct Hp. cbn [fst] in *. by destruct (_ && paused _); constructor.
    + by destruct (_ && paused _); constructor.
Qed.

(** What a handler does to the runner's side of the socket. *)
Lemma run_op_socket op id s :
  op_inv s -> op_ok op s ->
  let s' := fst (run_op op id s) in
  concat (written (socket s')) = concat (written (socket s)) ++ given op s /\
  taken_bytes s + accepted op s <= taken_bytes s' /\
  untaken s' + accepted op s <= untaken s + N.of_nat (length (given op s)) /\
  (closed s' = false -> closed s = false /\
    runnerEnded s' = match op with op_runnerEnd => true | _ => runnerEnded s end) /\
  (opened s = true -> opened s' = true).
Proof.
  intros Hs Hok.
  assert (forall s', keeps s s' -> given op s = [] -> accepted op s = 0 ->
    match op with op_runnerEnd => False | _ => True end ->
    concat (written (socket s')) = concat (written (socket s)) ++ given op s /\
    taken_bytes s + accepted op s <= taken_bytes s' /\
    untaken s' + accepted op s <= untaken s + N.of_nat (length (given op s)) /\
    (closed s' = false -> closed s = false /\
      runnerEnded s' = match op with op_runnerEnd => true | _ => runnerEnded s end) /\
    (opened s = true -> opened s' = true)) as Hkeep.
  { intros s' [] Eg Ea Hop. unfold taken_bytes, untaken.
    rewrite Eg, Ea, kp_taken0, kp_written0, app_nil_r. split_and!; try done; try (cbn; lia).
    intros Hc. split; [auto|]. by destruct op. }
  destruct op; cbn zeta; try (by apply Hkeep; [apply run_op_keeps|..]); cbn [run_op].
  - clear Hkeep. unfold runnerEnd. rewrite app_nil_r. cbn [accepted given length].
    destruct (closed s) eqn:Hc; cbn [orb]; [by cbn [fst]; split_and!; try done; try lia; intros; congruence|].
    destruct (runnerEnded s) eqn:Hr; [by cbn [fst]; split_and!; try done; lia|]. cbn.
    unfold teardown_stream. cbn. rewrite Hc.
    destruct (guestEndSent s); unfold taken_bytes, untaken; cbn; split_and!; try done; lia.
  - unfold write_data. destruct (closed s || negb (opened s) || runnerEnded s) eqn:E.
    { apply Hkeep; try done; cbn; rewrite ?E; apply keeps_refl || done. }
    clear Hkeep. unfold taken_bytes, untaken. cbn. rewrite E, concat_app. cbn. rewrite app_nil_r.
    rewrite take_app_le, drop_app_le by apply (oi_taken _ Hs).
    rewrite concat_app, !length_app. cbn. rewrite app_nil_r. split_and!; try done; lia.
  - destruct Hok as [Hlt _]. unfold on_written. set (s1 := on_socket _ s).
    assert (forall s', socket s' = socket s1 -> closed s' = closed s -> runnerEnded s' = runnerEnded s ->
      opened s' = opened s ->
      concat (written (socket s')) = concat (written (socket s)) ++ given (op_written err) s /\
      taken_bytes s + accepted (op_written err) s <= taken_bytes s' /\
      untaken s' + accepted (op_written err) s <= untaken s + 0 /\
      (closed s' = false -> closed s = false /\ runnerEnded s' = runnerEnded s) /\
      (opened s = true -> opened s' = true)) as Hstep.
    { intros s' E1 E2 E3 E4. unfold taken_bytes, untaken. rewrite E1. cbn. rewrite app_nil_r.
      destruct (lookup_lt_is_Some_2 (written (socket s)) (taken (socket s))) as [x Ex]; [done|].
      rewrite (take_S_r _ _ _ Ex), concat_app, length_app, Ex. cbn. rewrite app_nil_r.
      rewrite (drop_S _ _ _ Ex). cbn. rewrite length_app.
      split_and!; try congruence; [destruct err, (closed s); lia..|]. intros Hc. split; congruence. }
    clear Hkeep. cbn [given length] in *.
    destruct (err || closed s1); [by apply Hstep|]. destruct (ackScheduled _); by apply Hstep.
Qed.

(** What holds of one stream object and the messages of its id. *)
Record stream_law (h : Hist) (o : nat) (s : Stream) (ms : list SupervisorMessage) : Prop := {
  sl_phase : exists ph, run_phase ph_new ms = Some ph /\ at_phase s ph;
  sl_bytes : h_recv h o = data_of ms ++ parked_bytes s;
  sl_parked : is_bytes (parked_bytes s);
  sl_window : N.of_nat (length (data_of ms)) + sendCredit s <= PORT_STREAM_WINDOW_BYTES + h_grant h o;
  sl_acks : acks_of ms + unackedInbound s = h_accepted h o;
  sl_taken : h_accepted h o <= taken_bytes s;
}.

Record hist_inv (h : Hist) (st : PortStreams) : Prop := {
  hi_map : map_inv st;
  hi_unique : NoDup (map fst (objects st));
  hi_ids o id s : objects st !! o = Some (id, s) -> id ∈ h_ids h;
  hi_quiet id : id ∉ h_ids h -> msgs_of id (sent st) = [];
  hi_refused id : id ∈ h_ids h -> (forall o s, objects st !! o <> Some (id, s)) ->
    exists code, msgs_of id (sent st) = [m_error id code];
  hi_law o id s : objects st !! o = Some (id, s) -> stream_law h o s (msgs_of id (sent st));
  hi_frames : Forall frame_ok (sent st);
  hi_fresh o : (length (objects st) <= o)%nat ->
    h_recv h o = [] /\ h_grant h o = 0 /\ h_accepted h o = 0;
}.

Lemma hist_inv_nil : hist_inv hist_nil createPortStreams.
Proof.
  constructor; cbn; try done; try (by constructor).
  - constructor; cbn; [constructor| |done]. intros id o. split; [by intros ?%elem_of_nil|].
    by intros (? & ? & _).
  - by intros id ?%elem_of_nil.
Qed.

Lemma op_ok_received op s : op_ok op s -> is_bytes (received op).
Proof. destruct op; cbn; try (by constructor). by intros (_ & _ & _ & _ & _ & ?). Qed.

Lemma stream_law_act h o op id s ms :
  op_inv s -> op_ok op s -> stream_law h o s ms ->
  stream_law (hist_act o op s h) o (fst (run_op op id s)) (ms ++ snd (run_op op id s)).
Proof.
  intros Hs Hok L. destruct L as [(ph & Hph & Hat) Hb Hp Hw Ha Ht].
  destruct (run_op_socket op id s Hs Hok) as (_ & Htk & _).
  destruct (run_op_bytes op id s Hs Hok Hp (op_ok_received _ _ Hok)) as (E1 & E2 & _ & E4 & E5).
  constructor; cbn; rewrite ?decide_True by done.
  - destruct (run_op_phase op id s ph Hs Hok Hat) as (ph' & Hrun & Hat').
    exists ph'. split; [|done]. by rewrite run_phase_app, Hph.
  - by rewrite Hb, <- app_assoc, E1, data_of_app, <- app_assoc.
  - done.
  - rewrite data_of_app, length_app. lia.
  - rewrite acks_of_app. lia.
  - lia.
Qed.

Lemma stream_law_other h o o' op s s' ms :
  o' <> o -> stream_law h o' s' ms -> stream_law (hist_act o op s h) o' s' ms.
Proof.
  intros Hne []. constructor; cbn; rewrite ?decide_False by done; rewrite ?app_nil_r; try done; lia.
Qed.

Lemma unique_object st o o' id s s' :
  NoDup (map fst (objects st)) -> objects st !! o = Some (id, s) -> objects st !! o' = Some (id, s') ->
  o' = o.
Proof.
  intros Hnd E E'. eapply (NoDup_lookup (map fst (objects st))); [done|..];
    change (map fst (objects st)) with (fst <$> objects st); rewrite list_lookup_fmap, ?E, ?E'; done.
Qed.

(** A handler keeps the laws of its own stream, and of the others, whose
    messages it does not touch. *)
Lemma hist_inv_act h st o op id s :
  hist_inv h st -> objects st !! o = Some (id, s) -> op_ok op s ->
  hist_inv (hist_act o op s h) (act o (run_op op) st).
Proof.
  intros I Eo Hok. pose proof (mi_objects _ (hi_map _ _ I) _ _ _ Eo) as Hs.
  pose proof (act_map_inv st o op id s (hi_map _ _ I) Eo Hok) as Hmap.
  rewrite (act_unfold _ _ _ _ _ Eo) in *.
  pose proof (run_op_of_stream op id s) as Hof.
  pose proof (stream_law_act h o op id s _ Hs Hok (hi_law _ _ I _ _ _ Eo)) as L.
  destruct (run_op_bytes op id s Hs Hok (sl_parked _ _ _ _ (hi_law _ _ I _ _ _ Eo))
    (op_ok_received _ _ Hok)) as (_ & _ & Hfr & _).
  set (s' := fst (run_op op id s)) in *. set (ms := snd (run_op op id s)) in *. clearbody s' ms.
  assert (o < length (objects st))%nat as Hlt by (by apply lookup_lt_Some in Eo).
  assert (map fst (<[o:=(id, s')]> (objects st)) = map fst (objects st)) as Ekeys.
  { change (fst <$> <[o:=(id, s')]> (objects st) = fst <$> objects st).
    rewrite list_fmap_insert. apply list_insert_id. by rewrite list_lookup_fmap, Eo. }
  assert (forall id', id' <> id -> msgs_of id' (sent st ++ ms) = msgs_of id' (sent st)) as Hother.
  { intros id' Hne. by rewrite msgs_of_app, (msgs_of_other id id' ms), app_nil_r. }
  constructor; cbn [objects sent hist_act h_ids h_recv h_grant h_accepted]; try done.
  - rewrite Ekeys. apply I.
  - intros o' id' s0. destruct (decide (o' = o)) as [->|Hne].
    + rewrite list_lookup_insert_eq by done. intros [= <- <-]. by apply (hi_ids _ _ I _ _ _ Eo).
    + rewrite list_lookup_insert_ne by done. apply I.
  - intros id' Hid. rewrite Hother; [by apply I|]. intros ->. by apply Hid, (hi_ids _ _ I _ _ _ Eo).
  - intros id' Hid Hno. rewrite Hother.
    + apply (hi_refused _ _ I); [done|]. intros o' s0 E0. destruct (decide (o' = o)) as [->|Hne].
      * rewrite Eo in E0. injection E0 as -> ->. apply (Hno o s'). by rewrite list_lookup_insert_eq.
      * apply (Hno o' s0). by rewrite list_lookup_insert_ne.
    + intros ->. apply (Hno o s'). by rewrite list_lookup_insert_eq.
  - intros o' id' s0. destruct (decide (o' = o)) as [->|Hne].
    + rewrite list_lookup_insert_eq by done. intros [= <- <-].
      by rewrite msgs_of_app, (msgs_of_same id ms).
    + rewrite list_lookup_insert_ne by done. intros E0. rewrite Hother.
      * apply stream_law_other; [done|]. by apply (hi_law _ _ I).
      * intros ->. apply Hne. by apply (unique_object st o o' id s s0); [apply (hi_unique _ _ I)|..].
  - apply Forall_app. split; [apply (hi_frames _ _ I)|done].
  - rewrite length_insert. intros o' Ho'. destruct (hi_fresh _ _ I o' Ho') as (-> & -> & ->).
    rewrite !decide_False by lia. done.
Qed.

(** A refusal answers an id that was never used. *)
Lemma hist_inv_refuse h st id code :
  hist_inv h st -> id ∉ h_ids h ->
  hist_inv (hist_id id h) (send (m_error id code) st).
Proof.
  intros I Hid.
  assert (forall id', id' <> id -> msgs_of id' (sent st ++ [m_error id code]) = msgs_of id' (sent st)) as Hother.
  { intros id' Hne. rewrite msgs_of_app, (msgs_of_other id id' [_]), app_nil_r; [done| |done].
    by repeat constructor. }
  constructor; cbn [sent send objects hist_id h_ids h_recv h_grant h_accepted streams].
  - destruct (hi_map _ _ I). by constructor.
  - apply (hi_unique _ _ I).
  - intros o id' s E. right. by apply (hi_ids _ _ I o id' s).
  - intros id' [Hne Hn]%not_elem_of_cons. rewrite Hother by done. by apply (hi_quiet _ _ I).
  - intros id' [->|Hin]%elem_of_cons Hno.
    + exists code. rewrite msgs_of_app, (hi_quiet _ _ I id Hid). unfold msgs_of. cbn.
      by rewrite bool_decide_eq_true_2.
    + rewrite Hother by (by intros ->). by apply (hi_refused _ _ I).
  - intros o id' s E. rewrite Hother.
    + destruct (hi_law _ _ I _ _ _ E). by constructor.
    + intros ->. by apply Hid, (hi_ids _ _ I o id s).
  - apply Forall_app. split; [apply (hi_frames _ _ I)|]. by repeat constructor.
  - apply (hi_fresh _ _ I).
Qed.

Lemma unused_not_live h st id : hist_inv h st -> id ∉ h_ids h -> get_stream id st = None.
Proof.
  intros I Hid. destruct (get_stream id st) as [o|] eqn:E; [|done].
  apply (get_stream_spec _ _ _ (hi_map _ _ I)) in E.
  apply (mi_live _ (hi_map _ _ I)) in E as (s & E & _). by destruct (Hid (hi_ids _ _ I _ _ _ E)).
Qed.

(** A dial makes a new object, live under an id that was never used. *)
Lemma hist_inv_open h st id p :
  hist_inv h st -> id ∉ h_ids h ->
  hist_inv (hist_id id h)
    {| allowed := allowed st; streams := streams st ++ [(id, length (objects st))];
       objects := objects st ++ [(id, new_stream p)]; sent := sent st |}.
Proof.
  intros I Hid.
  pose proof (fun o id' s => lookup_new_object st id p o id' s) as Hlook.
  constructor; cbn [sent objects hist_id h_ids h_recv h_grant h_accepted streams].
  - apply map_inv_open; [apply I|]. by apply (unused_not_live h).
  - rewrite map_app. apply NoDup_app. split; [apply (hi_unique _ _ I)|].
    split; [|by apply NoDup_singleton]. intros k ((id', s) & -> & Hin)%elem_of_lmap.
    cbn. intros ->%list_elem_of_singleton. apply list_elem_of_lookup in Hin as [o E].
    by apply Hid, (hi_ids _ _ I o id s).
  - intros o id' s [E|(_ & -> & _)]%Hlook; [right; by apply (hi_ids _ _ I o id' s)|by left].
  - intros id' [Hne Hn]%not_elem_of_cons. by apply (hi_quiet _ _ I).
  - intros id' [->|Hin]%elem_of_cons Hno.
    + exfalso. apply (Hno (length (objects st)) (new_stream p)), Hlook. by right.
    + apply (hi_refused _ _ I id' Hin). intros o s E. apply (Hno o s), Hlook. by left.
  - intros o id' s [E|(-> & -> & ->)]%Hlook.
    + destruct (hi_law _ _ I _ _ _ E). by constructor.
    + rewrite (hi_quiet _ _ I id Hid). destruct (hi_fresh _ _ I (length (objects st))) as (E1 & E2 & E3); [done|].
      constructor; cbn; rewrite ?E1, ?E2, ?E3; try done; [|constructor].
      exists ph_new. split; [done|by right].
  - apply (hi_frames _ _ I).
  - intros o. rewrite length_app. cbn. intros Ho. apply (hi_fresh _ _ I). lia.
Qed.

Lemma hist_inv_allow h st ports :
  hist_inv h st ->
  hist_inv h {| allowed := ports; streams := streams st; objects := objects st; sent := sent st |}.
Proof. intros []. constructor; cbn; try done. destruct hi_map0. by constructor. Qed.
End Histories.
