(* ===== verification/PortStreamsRuns.v ===== *)
(** * Runs of the supervisor's port streams

    The laws of [PortStreamsSpec] along every run: the protocol and the flow
    of each stream, when the runner never uses a stream id twice (it draws
    random UUIDs); and, with no such assumption, the allowlist and the bound on
    the number of streams. Then that what is parked behind the window gets
    through. *)
From S2P Require Import Prelude JsBytes PortWire PortStreams PortStreamsSpec.
Local Open Scope N_scope.

(** What the events of a run brought: the stream ids the runner opened, the
    bytes a guest socket delivered, the window the runner granted a stream. *)
Definition opened_by (e : Event) : list jsstr :=
  match e with e_item (w_open id _) => [id] | _ => [] end.
Definition recv_by (o : nat) (e : Event) : bytes :=
  match e with e_data o' chunk => if decide (o = o') then chunk else [] | _ => [] end.
Definition grant_by (id : jsstr) (e : Event) : N :=
  match e with e_item (w_ack id' n) => if decide (id' = id) then n else 0 | _ => 0 end.

Definition opened_ids (es : list Event) : list jsstr := flat_map opened_by es.
Definition received_from (o : nat) (es : list Event) : bytes := flat_map (recv_by o) es.
Definition granted_to (id : jsstr) (es : list Event) : N := foldr (fun e n => grant_by id e + n) 0 es.

Lemma granted_to_app id es es' : granted_to id (es ++ es') = granted_to id es + granted_to id es'.
Proof. unfold granted_to. induction es as [|e es IH]; cbn; [done|]. rewrite IH. lia. Qed.

(** ** Events as handlers on one object *)

(** The listener of [error], in one handler. *)
Lemma on_error_act st o id s refused :
  map_inv st -> objects st !! o = Some (id, s) -> destroyed (socket s) = false ->
  on_error o refused st = act o (run_op (op_error refused)) st.
Proof.
  intros H Eo Hd. assert (closed s = false) as Hc.
  { destruct (closed s) eqn:Hc; [|done]. by rewrite (oi_closed _ (mi_objects _ H _ _ _ Eo) Hc) in Hd. }
  assert (get_stream id st = Some o) as Hget.
  { apply get_stream_spec; [done|]. apply (mi_live _ H). eauto. }
  assert (o < length (objects st))%nat as Hlt by (by apply lookup_lt_Some in Eo).
  unfold on_error. rewrite Eo, Hc. rewrite (act_unfold _ (run_op _) _ _ _ Eo). cbn [run_op].
  set (st1 := act o _ st). set (s1 := on_socket (set_destroyed true) s).
  assert (objects st1 !! o = Some (id, s1) /\ streams st1 = streams st /\ sent st1 = sent st /\
    allowed st1 = allowed st /\ objects st1 = <[o:=(id, s1)]> (objects st)) as (E1 & E2 & E3 & E4 & E5).
  { subst st1. rewrite (act_unfold _ _ _ _ _ Eo). cbn. rewrite Hc. cbn.
    split_and!; try done; [by apply list_lookup_insert_eq|by rewrite app_nil_r]. }
  assert (get_stream id st1 = Some o) as Hget1 by (unfold get_stream; rewrite E2; done).
  unfold teardown, act_on. rewrite Hget1. cbn [opened closed on_socket set_socket].
  change (closed s1) with (closed s). change (opened s1) with (opened s). rewrite Hc.
  destruct (negb (opened s) && negb false); rewrite (act_unfold _ _ _ _ _ E1), E2, E3, E4, E5;
    rewrite list_insert_insert_eq; f_equal; by change (closed s1) with (closed s); rewrite Hc.
Qed.

Lemma teardown_act st id n :
  teardown id n st = st \/
  exists o, get_stream id st = Some o /\ teardown id n st = act o (run_op (op_teardown n)) st.
Proof.
  unfold teardown, act_on. destruct (get_stream id st) as [o|]; [right; eauto|by left].
Qed.

(** Handlers keep the port. *)
Lemma run_op_port op id s : port (fst (run_op op id s)) = port s.
Proof.
  assert (forall n s, port (fst (teardown_stream id n s)) = port s) as Ht.
  { intros n s0. unfold teardown_stream. by destruct (closed s0). }
  assert (forall s, port (fst (reportGuestEnd id s)) = port s) as Hr.
  { intros s0. unfold reportGuestEnd. destruct (_ || _); [done|]. cbn.
    destruct (runnerEnded s0); [|done]. unfold teardown_stream. by destruct (closed _). }
  assert (forall c s, port (fst (pumpGuestBytes id c s)) = port s) as Hp.
  { intros c s0. unfold pumpGuestBytes. destruct (cut _ _) as [[credit rest] parts].
    set (s1 := if (0 <? length rest)%nat then _ else _). assert (port s1 = port s0) as E.
    { subst s1. destruct (_ <? _)%nat; [done|]. by destruct (_ <=? _). }
    clearbody s1. destruct (_ && _); [|done]. pose proof (Hr (set_guestEndPending false s1)) as E'.
    destruct (reportGuestEnd _ _). cbn in *. congruence. }
  destruct op; cbn [run_op];
    unfold on_connect, on_timeout, on_data, on_end, on_dial_error, runnerEnd, write_data, on_written,
      on_immediate, ack;
    repeat match goal with
    | |- context [if ?b then _ else _] =>
        lazymatch b with context [let '(_, _) := _ in _] => fail | _ => destruct b end
    | |- context [match parked ?s with _ => _ end] => destruct (parked s)
    end; rewrite ?Ht, ?Hr, ?Hp; try done.
  all: set (s1 := set_sendCredit _ s); pose proof (Hp [] s1) as E;
    destruct (pumpGuestBytes id [] s1) as [s' ms]; cbn in *; by destruct (_ && paused _).
Qed.

(** ** The histories of a run *)

Section Runs.
Context `{NodeBase64}.
Variable options : PortStreamsOptions.

Lemma hist_inv_same h h' st :
  hist_inv h st -> h_ids h' = h_ids h -> (forall o, h_recv h' o = h_recv h o) ->
  (forall o, h_grant h' o = h_grant h o) -> (forall o, h_accepted h' o = h_accepted h o) ->
  hist_inv h' st.
Proof.
  intros I E1 E2 E3 E4. destruct I. constructor; rewrite ?E1; try done.
  - intros o id s E. destruct (hi_law o id s E). constructor; rewrite ?E2, ?E3, ?E4; done.
  - intros o Ho. rewrite E2, E3, E4. auto.
Qed.

(** A handler that brings no bytes and no window leaves the history as it is. *)
Lemma hist_inv_quiet h st o op id s :
  hist_inv h st -> objects st !! o = Some (id, s) -> op_ok op s ->
  received op = [] -> window_grant op = 0 -> accepted op s = 0 ->
  hist_inv h (act o (run_op op) st).
Proof.
  intros I Eo Hok E1 E2 E3. eapply hist_inv_same; [by apply (hist_inv_act h st o op id s)|done|..]; intros o'; cbn;
    rewrite ?E1, ?E2, ?E3; destruct (decide (o' = o)); rewrite ?app_nil_r; lia || done.
Qed.

Lemma get_stream_live st id o :
  map_inv st -> get_stream id st = Some o -> exists s, objects st !! o = Some (id, s) /\ closed s = false.
Proof. intros Hm E. apply get_stream_spec in E; [|done]. by apply (mi_live _ Hm) in E. Qed.

Lemma teardown_hist h st id n : hist_inv h st -> hist_inv h (teardown id n st).
Proof.
  intros I. destruct (teardown_act st id n) as [->|(o & Ho & ->)]; [done|].
  destruct (get_stream_live _ _ _ (hi_map _ _ I) Ho) as (s & Eo & _).
  by eapply hist_inv_quiet.
Qed.

Lemma fold_teardown_hist {A} (f : PortStreams -> A -> PortStreams) l h st :
  (forall st a, f st a = st \/ exists id n, f st a = teardown id n st) ->
  hist_inv h st -> hist_inv h (fold_left f l st).
Proof.
  intros Hf. revert st. induction l as [|a l IH]; intros st I; cbn; [done|]. apply IH.
  destruct (Hf st a) as [->|(id & n & ->)]; [done|]. by apply teardown_hist.
Qed.

Lemma setAllowed_hist h st ports : hist_inv h st -> hist_inv h (setAllowed ports st).
Proof.
  intros I. unfold setAllowed. cbn. apply fold_teardown_hist; [|by apply hist_inv_allow].
  intros st' e. destruct (objects st' !! snd e) as [[id s]|]; [|by left].
  destruct (negb _); [right; eauto|by left].
Qed.

Lemma close_hist h st : hist_inv h st -> hist_inv h (close st).
Proof. intros I. unfold close. apply fold_teardown_hist; [|done]. intros st' e. right. eauto. Qed.

Lemma open_hist h st id p :
  hist_inv h st -> id ∉ h_ids h -> hist_inv (hist_id id h) (open options id p st).
Proof.
  intros I Hid. unfold open.
  destruct (get_stream id st); [by apply hist_inv_refuse|].
  destruct (bool_decide _ || _); [by apply hist_inv_refuse|].
  destruct (_ <=? _)%nat; [by apply hist_inv_refuse|]. by apply hist_inv_open.
Qed.

(** The history an event makes of a history. *)
Record hist_next (e : Event) (st : PortStreams) (h h' : Hist) : Prop := {
  hn_ids : h_ids h' = opened_by e ++ h_ids h;
  hn_recv o : h_recv h' o = h_recv h o ++ recv_by o e;
  hn_grant o id s : objects st !! o = Some (id, s) -> h_grant h' o <= h_grant h o + grant_by id e;
  hn_fresh o : (length (objects st) <= o)%nat -> h_grant h' o = h_grant h o;
}.

Lemma hist_next_quiet e st h :
  opened_by e = [] -> (forall o, recv_by o e = []) -> hist_next e st h h.
Proof. intros E1 E2. constructor; [by rewrite E1|intros o; by rewrite E2, app_nil_r|intros; lia|done]. Qed.

Lemma hist_next_act e st o op id s h :
  objects st !! o = Some (id, s) -> opened_by e = [] ->
  (forall o', recv_by o' e = if decide (o' = o) then received op else []) ->
  window_grant op <= grant_by id e ->
  hist_next e st h (hist_act o op s h).
Proof.
  intros Eo E1 E2 E3. constructor; cbn; [by rewrite E1|intros o'; by rewrite E2|..].
  - intros o' id' s'. destruct (decide (o' = o)) as [->|]; [|intros; lia].
    rewrite Eo. intros [= <- <-]. lia.
  - intros o' Ho'. apply lookup_lt_Some in Eo. rewrite decide_False by lia. lia.
Qed.

(** An event that is a handler. *)
Lemma act_hist e st o op id s h :
  hist_inv h st -> objects st !! o = Some (id, s) -> op_ok op s -> opened_by e = [] ->
  (forall o', recv_by o' e = if decide (o' = o) then received op else []) ->
  window_grant op <= grant_by id e ->
  exists h', hist_inv h' (act o (run_op op) st) /\ hist_next e st h h'.
Proof.
  intros I Eo Hok E1 E2 E3. exists (hist_act o op s h). split; [by apply (hist_inv_act h st o op id s)|].
  by apply (hist_next_act e st o op id s h).
Qed.

Lemma act_on_hist e st op id h :
  hist_inv h st -> (forall s, op_ok op s) -> opened_by e = [] ->
  (forall o', recv_by o' e = []) -> received op = [] -> window_grant op <= grant_by id e ->
  exists h', hist_inv h' (act_on id (run_op op) st) /\ hist_next e st h h'.
Proof.
  intros I Hok E1 E2 E3 E4. unfold act_on. destruct (get_stream id st) as [o|] eqn:Hget.
  - destruct (get_stream_live _ _ _ (hi_map _ _ I) Hget) as (s & Eo & _).
    eapply act_hist; [done..| |done]. intros o'. rewrite E2, E3. by destruct (decide _).
  - exists h. split; [done|]. by apply hist_next_quiet.
Qed.

(** The object a socket event is enabled on. *)
Lemma enabled_object {st : PortStreams} {o p} :
  match objects st !! o with Some (_, s) => p s | None => false end = true ->
  exists id s, objects st !! o = Some (id, s) /\ p s = true.
Proof. destruct (objects st !! o) as [[id s]|]; [eauto|done]. Qed.

Lemma handle_hist item st h :
  hist_inv h st -> Forall (fun id => id ∉ h_ids h) (opened_by (e_item item)) ->
  exists h', hist_inv h' (handle options item st) /\ hist_next (e_item item) st h h'.
Proof.
  intros I Hf. destruct item as [id p|id b|id n|id [|]|ports]; cbn [handle].
  - apply Forall_cons_1 in Hf as [Hf _]. exists (hist_id id h). split; [by apply open_hist|].
    constructor; cbn; [done|intros; by rewrite app_nil_r|intros; lia|done].
  - by apply (act_on_hist _ _ (op_write (from_base64 b))).
  - apply (act_on_hist _ _ (op_ack n)); try done. cbn. by rewrite decide_True.
  - by apply (act_on_hist _ _ op_runnerEnd).
  - by apply (act_on_hist _ _ (op_teardown false)).
  - exists h. split; [by apply setAllowed_hist|]. by apply hist_next_quiet.
Qed.

Lemma run_hist e st h :
  hist_inv h st -> enabled e st = true -> Forall (fun id => id ∉ h_ids h) (opened_by e) ->
  exists h', hist_inv h' (run options e st) /\ hist_next e st h h'.
Proof.
  intros I He Hf. destruct e as [item|o|o|o chunk|o|o refused|o|o err|o|]; cbn [run]; cbn [enabled] in He; cbv zeta beta in He;
    [by apply handle_hist|..|exists h; split; [by apply close_hist|by apply hist_next_quiet]];
    apply enabled_object in He as (id & s & Eo & He); to_prop;
    rewrite ?N.ltb_lt, ?Nat.ltb_lt in *.
  - apply (act_hist _ _ o op_connect id s); try done. intros. by destruct (decide _).
  - apply (act_hist _ _ o op_timeout id s); try done; [cbn; split; [lia|done]|].
    intros. by destruct (decide _).
  - apply (act_hist _ _ o (op_data chunk) id s); try done.
    cbn. split_and!; try done. intros ->. cbn in *. lia.
  - apply (act_hist _ _ o op_end id s); try done. intros. by destruct (decide _).
  - rewrite (on_error_act st o id s refused) by (done || apply I).
    apply (act_hist _ _ o (op_error refused) id s); try done. intros. by destruct (decide _).
  - exists h. split; [|by apply hist_next_quiet]. unfold on_close. rewrite Eo. by apply teardown_hist.
  - apply (act_hist _ _ o (op_written err) id s); try done; [|intros; by destruct (decide _)].
    cbn. split; [done|]. intros ->. by destruct (destroyed (socket s)).
  - apply (act_hist _ _ o op_immediate id s); try done. intros. by destruct (decide _).
Qed.

(** Objects keep their ids, and new ones come last. *)
Lemma act_ids o f st : map fst (objects (act o f st)) = map fst (objects st).
Proof.
  destruct (objects st !! o) as [[id s]|] eqn:Eo; [|unfold act; by rewrite Eo].
  rewrite (act_unfold _ _ _ _ _ Eo). cbn.
  change (fst <$> <[o:=(id, fst (f id s))]> (objects st) = fst <$> objects st).
  rewrite list_fmap_insert. apply list_insert_id. by rewrite list_lookup_fmap, Eo.
Qed.

Lemma teardown_ids id n st : map fst (objects (teardown id n st)) = map fst (objects st).
Proof. destruct (teardown_act st id n) as [->|(o & _ & ->)]; [done|]. apply act_ids. Qed.

Lemma fold_ids {A} (f : PortStreams -> A -> PortStreams) l st :
  (forall st a, map fst (objects (f st a)) = map fst (objects st)) ->
  map fst (objects (fold_left f l st)) = map fst (objects st).
Proof. intros Hf. revert st. induction l as [|a l IH]; intros st; cbn; [done|]. by rewrite IH, Hf. Qed.

Lemma run_ids e st :
  exists l, map fst (objects (run options e st)) = map fst (objects st) ++ l.
Proof.
  destruct e as [item|o|o|o chunk|o|o refused|o|o err|o|]; cbn [run];
    try (exists []; rewrite app_nil_r; apply act_ids).
  - destruct item as [id p|id b|id n|id [|]|ports]; cbn [handle];
      try (exists []; rewrite app_nil_r; unfold data, act_on, teardown, act_on;
           destruct (get_stream id st); [apply act_ids|done]).
    + unfold open. destruct (get_stream id st); case_tests;
        try (by exists []; rewrite app_nil_r). exists [id]. cbn. by rewrite map_app.
    + exists []. rewrite app_nil_r. unfold setAllowed. cbn. rewrite fold_ids; [done|].
      intros st' e. destruct (objects st' !! snd e) as [[id s]|]; [|done].
      destruct (negb _); [apply teardown_ids|done].
  - exists []. rewrite app_nil_r. unfold on_error.
    destruct (objects st !! o) as [[id s]|]; [|done].
    case_tests; by rewrite ?teardown_ids, ?act_ids.
  - exists []. rewrite app_nil_r. unfold on_close.
    destruct (objects st !! o) as [[id s]|]; [apply teardown_ids|done].
  - exists []. rewrite app_nil_r. apply fold_ids. intros. apply teardown_ids.
Qed.

(** The history of a run. *)
Record history_of (es : list Event) (h : Hist) (st : PortStreams) : Prop := {
  ho_inv : hist_inv h st;
  ho_ids id : id ∈ h_ids h <-> id ∈ opened_ids es;
  ho_recv o : h_recv h o = received_from o es;
  ho_grant o id s : objects st !! o = Some (id, s) -> h_grant h o <= granted_to id es;
}.

Lemma trace_history es st :
  trace options es st -> NoDup (opened_ids es) -> exists h, history_of es h st.
Proof.
  induction 1 as [|es st e Htr IH He].
  { intros _. exists hist_nil. constructor; [apply hist_inv_nil|done..]. }
  unfold opened_ids, received_from. rewrite flat_map_app. cbn. rewrite app_nil_r.
  intros (Hnd & Hdisj & _)%NoDup_app. destruct (IH Hnd) as (h & [I Hids Hrecv Hgr]).
  destruct (run_hist e st h I He) as (h' & I' & [Nids Nrecv Ngr Nfr]).
  { apply Forall_forall. intros id Hin Hid. apply Hids in Hid. by apply (Hdisj id). }
  exists h'. constructor; [done|..].
  - intros id. rewrite Nids. unfold opened_ids. rewrite flat_map_app. cbn. rewrite app_nil_r.
    rewrite !elem_of_app, Hids. unfold opened_ids. tauto.
  - intros o. rewrite Nrecv, Hrecv. unfold received_from. rewrite flat_map_app. cbn. by rewrite app_nil_r.
  - intros o id s E. rewrite granted_to_app. cbn. rewrite N.add_0_r.
    destruct (decide (o < length (objects st))%nat) as [Hlt|Hge].
    + destruct (lookup_lt_is_Some_2 _ _ Hlt) as [[id0 s0] E0].
      assert (id0 = id) as ->.
      { destruct (run_ids e st) as [l Hl].
        apply (f_equal (fun l => l !! o)) in Hl. change map with (@fmap list _) in Hl.
        rewrite list_lookup_fmap, E, lookup_app_l, list_lookup_fmap, E0 in Hl
          by by rewrite length_fmap. by injection Hl. }
      specialize (Ngr o id s0 E0). specialize (Hgr o id s0 E0). lia.
    + rewrite (Nfr o) by lia. destruct (hi_fresh _ _ I o) as (_ & -> & _); lia.
Qed.
End Runs.

(** ** The allowlist *)

(** What handlers on existing objects can do to the map. *)
Record shrinks (st st' : PortStreams) : Prop := {
  sh_map : map_inv st';
  sh_allowed : allowed st' = allowed st;
  sh_streams : streams st' ⊆ streams st;
  sh_length : (length (streams st') <= length (streams st))%nat;
  sh_port o id s' : objects st' !! o = Some (id, s') ->
    exists s, objects st !! o = Some (id, s) /\ port s' = port s;
}.

Lemma shrinks_refl st : map_inv st -> shrinks st st.
Proof. intros H. constructor; try done; eauto. Qed.

Lemma shrinks_trans st st' st'' : shrinks st st' -> shrinks st' st'' -> shrinks st st''.
Proof.
  intros [] []. constructor; try done; [congruence|by etrans|lia|].
  intros o id s'' (s' & E & Ep)%sh_port1. apply sh_port0 in E as (s & E & Ep'). exists s. split; [done|congruence].
Qed.

Lemma length_remove_stream id l : (length (remove_stream id l) <= length l)%nat.
Proof. unfold remove_stream. induction l as [|e l IH]; cbn; [lia|]. destruct (negb _); cbn; lia. Qed.

Lemma act_shrinks st o op id s :
  map_inv st -> objects st !! o = Some (id, s) -> op_ok op s -> shrinks st (act o (run_op op) st).
Proof.
  intros Hm Eo Hok. pose proof (act_map_inv st o op id s Hm Eo Hok) as Hm'.
  rewrite (act_unfold _ _ _ _ _ Eo) in *. constructor; cbn; [done|done|..].
  - case_tests; [|done]. intros e He. by apply elem_of_remove_stream in He as [? _].
  - case_tests; [apply length_remove_stream|done].
  - intros o' id' s'. destruct (decide (o' = o)) as [->|Hne].
    + rewrite list_lookup_insert_eq by (by apply lookup_lt_Some in Eo). intros [= <- <-].
      exists s. split; [done|]. apply run_op_port.
    + rewrite list_lookup_insert_ne by done. eauto.
Qed.

Lemma act_on_shrinks st op id :
  map_inv st -> (forall s, op_ok op s) -> shrinks st (act_on id (run_op op) st).
Proof.
  intros Hm Hok. unfold act_on. destruct (get_stream id st) as [o|] eqn:Hget; [|by apply shrinks_refl].
  destruct (get_stream_live _ _ _ Hm Hget) as (s & Eo & _). by apply (act_shrinks st o op id s).
Qed.

Lemma teardown_shrinks st id n : map_inv st -> shrinks st (teardown id n st).
Proof. intros Hm. by apply (act_on_shrinks st (op_teardown n)). Qed.

(** A stream torn down is out of the map. *)
Lemma teardown_gone st id n o : map_inv st -> (id, o) ∉ streams (teardown id n st).
Proof.
  intros Hm Hin. pose proof (sh_streams _ _ (teardown_shrinks st id n Hm) _ Hin) as Hin0.
  apply (get_stream_spec _ _ _ Hm) in Hin0. revert Hin. unfold teardown, act_on. rewrite Hin0.
  destruct (get_stream_live _ _ _ Hm Hin0) as (s & Eo & Hc). rewrite (act_unfold _ _ _ _ _ Eo).
  assert (closed (fst (teardown_stream id n s)) = true) as -> by (unfold teardown_stream; by rewrite Hc).
  rewrite Hc. cbn. by intros [_ ?]%elem_of_remove_stream.
Qed.

(** The streams of [l] that survive the sweep are to allowed ports. *)
Lemma sweep_spec l st :
  map_inv st ->
  let st' := fold_left (fun st e =>
    match objects st !! snd e with
    | Some (_, s) => if negb (bool_decide (port s ∈ allowed st)) then teardown (fst e) true st else st
    | None => st
    end) l st in
  shrinks st st' /\
  forall id o s, (id, o) ∈ l -> (id, o) ∈ streams st' -> objects st' !! o = Some (id, s) ->
    port s ∈ allowed st.
Proof.
  revert st. induction l as [|[id o] l IH]; intros st Hm; cbn.
  { split; [by apply shrinks_refl|]. by intros id o s ?%elem_of_nil. }
  set (st1 := match objects st !! o with Some _ => _ | None => _ end).
  assert (shrinks st st1 /\ ((id, o) ∈ streams st1 -> forall s, objects st1 !! o = Some (id, s) ->
    port s ∈ allowed st)) as [H1 Hp].
  { subst st1. destruct (objects st !! o) as [[id0 s0]|] eqn:Eo.
    - destruct (bool_decide_reflect (port s0 ∈ allowed st)); cbn.
      + split; [by apply shrinks_refl|]. rewrite Eo. by intros _ s [= -> ->].
      + split; [by apply teardown_shrinks|]. intros Hin. by destruct (teardown_gone st id true o Hm).
    - split; [by apply shrinks_refl|]. rewrite Eo. done. }
  destruct (IH st1 (sh_map _ _ H1)) as [H2 Hl]. split; [by eapply shrinks_trans|].
  intros id' o' s [[= -> ->]|Hin]%elem_of_cons Hin' E.
  - pose proof (sh_streams _ _ H2 _ Hin') as Hin1. apply (sh_port _ _ H2) in E as (s1 & E1 & ->). eauto.
  - rewrite <- (sh_allowed _ _ H1). eauto.
Qed.

Section Allow.
Context `{NodeBase64}.
Variable options : PortStreamsOptions.

(** The last allowlist the runner pushed; before the first, nothing. *)
Definition last_allowed (es : list Event) : list N :=
  fold_left (fun l e => match e with e_item (w_allow ports) => ports | _ => l end) es [].

(** Every live stream is to a port of the allowlist that is not reserved, and
    there are no more of them than the cap. *)
Record allow_inv (st : PortStreams) : Prop := {
  al_map : map_inv st;
  al_ports id o s : (id, o) ∈ streams st -> objects st !! o = Some (id, s) ->
    port s ∈ allowed st /\ port s ∉ reservedPorts options;
  al_cap : (length (streams st) <= maxStreams options)%nat;
}.

Lemma allow_inv_shrinks st st' : allow_inv st -> shrinks st st' -> allow_inv st'.
Proof.
  intros I []. constructor; [done| |pose proof (al_cap _ I); lia].
  intros id o s' Hin (s & E & ->)%sh_port0. rewrite sh_allowed0. eapply (al_ports _ I); [|done].
  by apply sh_streams0.
Qed.

Lemma open_allow st id p : allow_inv st -> allow_inv (open options id p st).
Proof.
  intros I. assert (forall code, allow_inv (send (m_error id code) st)) as Hr.
  { intros code. destruct I as [[] ]. by constructor. }
  unfold open. destruct (get_stream id st) eqn:Hget; [apply Hr|].
  destruct (bool_decide (p ∈ reservedPorts options) || _) eqn:Eb; [apply Hr|].
  destruct (Nat.leb_spec (maxStreams options) (length (streams st))); [apply Hr|]. to_prop.
  constructor; cbn [streams objects allowed].
  - apply map_inv_open; [apply I|done].
  - intros id' o s Hin [E|(-> & -> & ->)]%lookup_new_object; [|done].
    apply elem_of_app in Hin as [Hin|[= -> ->]%list_elem_of_singleton]; [by apply (al_ports _ I id' o)|].
    apply lookup_lt_Some in E. lia.
  - rewrite length_app. cbn. lia.
Qed.

Lemma setAllowed_allow st ports :
  map_inv st -> (forall id o s, (id, o) ∈ streams st -> objects st !! o = Some (id, s) ->
    port s ∉ reservedPorts options) ->
  (length (streams st) <= maxStreams options)%nat ->
  allow_inv (setAllowed ports st) /\ allowed (setAllowed ports st) = js_dedup ports.
Proof.
  intros Hm Hres Hcap. unfold setAllowed. cbn.
  set (st0 := {| allowed := js_dedup ports |}).
  assert (map_inv st0) as Hm0 by (destruct Hm; by constructor).
  destruct (sweep_spec (streams st) st0 Hm0) as [[] Hl].
  split; [|done]. constructor; [done| |unfold st0 in *; cbn in *; lia].
  intros id o s Hin E. rewrite sh_allowed0. split; [apply (Hl id o s); [by apply sh_streams0|done..]|].
  apply sh_port0 in E as (s0 & E & ->). apply (Hres id o); [by apply sh_streams0|done].
Qed.

Lemma close_shrinks st : map_inv st -> shrinks st (close st).
Proof.
  unfold close. generalize (streams st). intros l. revert st.
  induction l as [|e l IH]; intros st Hm; cbn; [by apply shrinks_refl|].
  pose proof (teardown_shrinks st (fst e) true Hm) as H1. eapply shrinks_trans; [done|]. by apply IH, H1.
Qed.

(** What an event makes of the allowlist. *)
Definition allow_next (e : Event) (l : list N) : list N :=
  match e with e_item (w_allow ports) => js_dedup ports | _ => l end.

Lemma open_allowed st id p : allowed (open options id p st) = allowed st.
Proof. unfold open. destruct (get_stream id st); case_tests; done. Qed.

Lemma run_allow e st :
  allow_inv st -> enabled e st = true ->
  allow_inv (run options e st) /\ allowed (run options e st) = allow_next e (allowed st).
Proof.
  intros I He. pose proof (al_map _ I) as Hm.
  assert (forall st', shrinks st st' -> allow_inv st' /\ allowed st' = allowed st) as Hsh.
  { intros st' Hs. split; [by apply (allow_inv_shrinks st)|apply Hs]. }
  destruct e as [item|o|o|o chunk|o|o refused|o|o err|o|]; cbn [run allow_next];
    [|cbn [enabled] in He; cbv zeta beta in He; apply enabled_object in He as (id & s & Eo & He);
      to_prop; rewrite ?N.ltb_lt, ?Nat.ltb_lt in *; apply Hsh..|by apply Hsh, close_shrinks].
  - destruct item as [id p|id b|id n|id [|]|ports]; cbn [handle].
    + split; [by apply open_allow|apply open_allowed].
    + by apply Hsh, (act_on_shrinks st (op_write (from_base64 b))).
    + by apply Hsh, (act_on_shrinks st (op_ack n)).
    + by apply Hsh, (act_on_shrinks st op_runnerEnd).
    + by apply Hsh, (act_on_shrinks st (op_teardown false)).
    + apply setAllowed_allow; [done| |apply I]. intros id o s Hin E. by apply (al_ports _ I id o).
  - by apply (act_shrinks st o op_connect id s).
  - apply (act_shrinks st o op_timeout id s); try done. cbn. split; [lia|done].
  - apply (act_shrinks st o (op_data chunk) id s); try done. cbn. split_and!; try done.
    intros ->. cbn in *. lia.
  - by apply (act_shrinks st o op_end id s).
  - rewrite (on_error_act st o id s refused) by done. by apply (act_shrinks st o (op_error refused) id s).
  - unfold on_close. rewrite Eo. by apply teardown_shrinks.
  - apply (act_shrinks st o (op_written err) id s); try done. cbn. split; [done|].
    intros ->. by destruct (destroyed (socket s)).
  - by apply (act_shrinks st o op_immediate id s).
Qed.

Lemma last_allowed_snoc es e :
  last_allowed (es ++ [e]) = match e with e_item (w_allow ports) => ports | _ => last_allowed es end.
Proof. unfold last_allowed. by rewrite fold_left_app. Qed.

Lemma trace_allow es st :
  trace options es st -> allow_inv st /\ allowed st = js_dedup (last_allowed es).
Proof.
  induction 1 as [|es st e _ [I Ea] He].
  - split; [|done]. constructor; cbn; [|by intros id o s ?%elem_of_nil|lia].
    apply (hi_map _ _ hist_inv_nil).
  - destruct (run_allow e st I He) as [I' Ea']. split; [done|].
    rewrite Ea', last_allowed_snoc, Ea. by destruct e as [[]|o|o|o c|o|o r|o|o er|o|].
Qed.
End Allow.

(** ** What is parked gets through *)

Section Flush.
Context `{NodeBase64}.
Variable options : PortStreamsOptions.

Fixpoint ack_all (id : jsstr) (ns : list N) (s : Stream) : Stream * list SupervisorMessage :=
  match ns with
  | [] => (s, [])
  | n :: ns =>
      let '(s1, m1) := ack id n s in
      let '(s2, m2) := ack_all id ns s1 in
      (s2, m1 ++ m2)
  end.

(** Acks of a stream act on its object, live or not. *)
Lemma handle_ack h st o id s n :
  hist_inv h st -> objects st !! o = Some (id, s) ->
  handle options (w_ack id n) st = act o (run_op (op_ack n)) st.
Proof.
  intros I Eo. cbn [handle]. unfold act_on. destruct (get_stream id st) as [o'|] eqn:Hget.
  - destruct (get_stream_live _ _ _ (hi_map _ _ I) Hget) as (s' & Eo' & _).
    by rewrite (unique_object st o o' id s s' (hi_unique _ _ I) Eo Eo').
  - destruct (closed s) eqn:Hc.
    + rewrite (act_unfold _ (run_op _) _ _ _ Eo). cbn [run_op]. unfold ack. rewrite Hc. cbn.
      rewrite Hc, app_nil_r, list_insert_id by done. by destruct st.
    + assert ((id, o) ∈ streams st) as Hin by (apply (mi_live _ (hi_map _ _ I)); eauto).
      apply (get_stream_spec _ _ _ (hi_map _ _ I)) in Hin. congruence.
Qed.

Lemma handle_acks ns h st o id s :
  hist_inv h st -> objects st !! o = Some (id, s) ->
  let st' := fold_left (fun st n => handle options (w_ack id n) st) ns st in
  objects st' !! o = Some (id, fst (ack_all id ns s)) /\
  sent st' = sent st ++ snd (ack_all id ns s).
Proof.
  revert h st s. induction ns as [|n ns IH]; intros h st s I Eo; cbn [fold_left ack_all].
  { by rewrite app_nil_r. }
  rewrite (handle_ack h st o id s n I Eo).
  pose proof (hist_inv_act h st o (op_ack n) id s I Eo Logic.I) as I'.
  specialize (IH _ _ (fst (ack id n s)) I').
  rewrite (act_unfold _ _ _ _ _ Eo) in *. cbn [run_op objects sent] in *.
  destruct (ack id n s) as [s1 m1]. cbn [fst snd] in *.
  destruct IH as [E1 E2]; [by rewrite list_lookup_insert_eq by (by apply lookup_lt_Some in Eo)|].
  destruct (ack_all id ns s1) as [s2 m2]. cbn [fst snd] in *. split; [done|].
  by rewrite E2, <- app_assoc.
Qed.

Lemma reportGuestEnd_last id s :
  closed s = false -> guestEndSent s = false -> opened s = true ->
  last (snd (reportGuestEnd id s)) = Some (m_close id close_end) /\
  parked (fst (reportGuestEnd id s)) = parked s.
Proof.
  intros Hc Hg Ho. unfold reportGuestEnd. rewrite Hc, Hg. cbn. rewrite Ho.
  destruct (runnerEnded s); [|done]. unfold teardown_stream. cbn. by rewrite Hc.
Qed.

(** One ack lets as many parked bytes through as it grants; the pending end
    follows the last of them. *)
Lemma ack_parked id n s p :
  op_inv s -> closed s = false -> parked s = Some p -> is_bytes p -> 0 < n <= PORT_STREAM_WINDOW_BYTES ->
  let r := ack id n s in
  p = data_of (snd r) ++ parked_bytes (fst r) /\
  (N.of_nat (length p) <= n -> parked (fst r) = None /\
    (guestEndPending s = true -> last (snd r) = Some (m_close id close_end))) /\
  (n < N.of_nat (length p) -> parked (fst r) = Some (parked_bytes (fst r)) /\
    N.of_nat (length (data_of (snd r))) = n /\
    closed (fst r) = false /\ guestEndPending (fst r) = guestEndPending s).
Proof.
  intros Hs Hc Ep Hp Hn. destruct (oi_parked _ Hs p Ep) as (_ & H0 & Ho).
  assert (guestEndSent s = false) as Hg.
  { destruct (guestEndSent s) eqn:Hg; [|done]. by destruct (oi_end _ Hs Hg); congruence. }
  unfold ack. rewrite Hc. cbn [set_sendCredit parked]. rewrite Ep.
  unfold pumpGuestBytes. cbn [set_parked set_sendCredit sendCredit parked]. rewrite Ep, H0, app_nil_r.
  rewrite N.add_0_l, N.min_r by lia.
  destruct (cut n p) as [[credit rest] parts] eqn:Ecut.
  apply cut_spec in Ecut as (-> & Hparts & Ecr & Hr). apply is_bytes_app in Hp as [Hpb _].
  destruct (parts_frames id parts Hparts Hpb) as (Ed & _ & _).
  rewrite length_app.
  destruct rest as [|b rest]; cbn [length Nat.ltb Nat.leb].
  - assert (forall s', opened s' = true -> closed s' = false -> guestEndSent s' = false -> parked s' = None ->
      guestEndPending s' = guestEndPending s ->
      let r := (if negb (is_parked s') && guestEndPending s' then
        let '(s1, more) := reportGuestEnd id (set_guestEndPending false s') in
        (s1, map (fun part => m_data id (to_base64 part)) parts ++ more)
      else (s', map (fun part => m_data id (to_base64 part)) parts)) in
      data_of (snd r) = concat parts /\ parked (fst r) = None /\
      (guestEndPending s = true -> last (snd r) = Some (m_close id close_end))) as Hpump.
    { intros s' F1 F2 F3 F4 F5. unfold is_parked. rewrite F4, F5. cbn [negb andb].
      destruct (guestEndPending s); [|done].
      destruct (reportGuestEnd_last id (set_guestEndPending false s')) as [G1 G2]; [done..|].
      destruct (reportGuestEnd_bytes id (set_guestEndPending false s')) as (G3 & _).
      destruct (reportGuestEnd id (set_guestEndPending false s')) as [s1 more]. cbn [fst snd set_guestEndPending parked] in *.
      rewrite data_of_app, Ed, G3, app_nil_r, G2. split_and!; try done. intros _.
      rewrite last_app, G1. done. }
    set (s1 := if _ <=? 0 then _ else _).
    destruct (Hpump s1) as (G1 & G2 & G3); try (subst s1; by destruct (_ <=? 0)).
    destruct (if negb (is_parked s1) && _ then _ else _) as [s2 ms]. cbn [fst snd] in *.
    assert (forall s3, parked s3 = parked s2 -> concat parts ++ [] = data_of ms ++ parked_bytes s3 /\
      (N.of_nat (length (concat parts) + 0) <= n -> parked s3 = None /\
        (guestEndPending s = true -> last ms = Some (m_close id close_end))) /\
      (n < N.of_nat (length (concat parts) + 0) -> parked s3 = Some (parked_bytes s3) /\
        N.of_nat (length (data_of ms)) = n /\ closed s3 = false /\
        guestEndPending s3 = guestEndPending s)) as Hend.
    { intros s3 E. unfold parked_bytes. rewrite G1, E, G2. split_and!; try done. lia. }
    destruct (negb (is_parked s2) && _ && _); by apply Hend.
  - destruct Hr as [?|Hr]; [done|]. subst credit. cbn -[data_of]. rewrite Ed. unfold parked_bytes. cbn.
    split_and!; try done; intros; first [lia | by split_and!; try done; lia | exfalso; cbn in *; lia].
Qed.

Lemma ack_all_empty id ns s :
  parked s = None -> snd (ack_all id ns s) = [] /\ parked (fst (ack_all id ns s)) = None.
Proof.
  revert s. induction ns as [|n ns IH]; intros s Ep; [done|]. cbn [ack_all].
  assert (snd (ack id n s) = [] /\ parked (fst (ack id n s)) = None) as [E1 E2].
  { unfold ack. destruct (closed s); [done|]. cbn. rewrite Ep. by destruct (_ && paused _). }
  destruct (ack id n s) as [s1 m1]. cbn [fst snd] in *. subst m1.
  destruct (IH s1 E2) as [E3 E4]. by destruct (ack_all id ns s1).
Qed.

Lemma ack_all_flush id ns s p :
  op_inv s -> closed s = false -> parked s = Some p -> is_bytes p ->
  Forall (fun n => 0 < n <= PORT_STREAM_WINDOW_BYTES) ns ->
  N.of_nat (length p) <= foldr N.add 0 ns ->
  data_of (snd (ack_all id ns s)) = p /\ parked (fst (ack_all id ns s)) = None /\
  (guestEndPending s = true -> last (snd (ack_all id ns s)) = Some (m_close id close_end)).
Proof.
  intros Hs Hc Ep Hp Hns. revert s p Hs Hc Ep Hp.
  induction Hns as [|n ns Hn Hns IH]; intros s p Hs Hc Ep Hp; cbn [foldr ack_all].
  { intros Hl. destruct (oi_parked _ Hs p Ep) as (Hne & _). destruct p; [done|cbn in Hl; lia]. }
  intros Hl. destruct (ack_parked id n s p Hs Hc Ep Hp Hn) as (E & Hall & Hsome).
  pose proof (ack_inv id n s Hs) as Hs1. destruct (ack id n s) as [s1 m1]. cbn [fst snd] in *.
  destruct (N.leb_spec (N.of_nat (length p)) n) as [Hle|Hlt].
  - destruct (Hall Hle) as [E1 E2]. destruct (ack_all_empty id ns s1 E1) as [E3 E4].
    destruct (ack_all id ns s1) as [s2 m2]. cbn [fst snd] in *. subst m2. rewrite app_nil_r.
    unfold parked_bytes in E. rewrite E1, app_nil_r in E. by split_and!.
  - destruct (Hsome Hlt) as (E1 & E2 & E3 & E4).
    assert (is_bytes (parked_bytes s1)) as Hp1 by (rewrite E in Hp; by apply is_bytes_app in Hp as [_ ?]).
    destruct (IH s1 (parked_bytes s1) Hs1 E3 E1 Hp1) as (F1 & F2 & F3).
    { apply (f_equal length) in E. rewrite length_app in E. lia. }
    destruct (ack_all id ns s1) as [s2 m2]. cbn [fst snd] in *.
    rewrite data_of_app, F1, <- E. split_and!; try done. rewrite E4 in F3. intros Hgp.
    by rewrite last_app, (F3 Hgp).
Qed.
End Flush.

(** ** Properties *)

Section Properties.
Context `{NodeBase64}.
Variable options : PortStreamsOptions.

(** The protocol of every stream: whatever the runner and the sockets do,
    in any order, a stream id the runner never opened gets no message; one it
    opened once gets at most one answer ([port.opened] or [port.error]) and
    nothing before it; after a refusal nothing; after [port.opened] only data
    and acks until at most one close; after an abort nothing, and after a clean
    end only acks of the runner's bytes. *)
Theorem supervisor_protocol es st :
  trace options es st -> NoDup (opened_ids es) ->
  forall id,
    (id ∉ opened_ids es -> msgs_of id (sent st) = []) /\
    exists ph, run_phase ph_new (msgs_of id (sent st)) = Some ph.
Proof.
  intros Htr Hnd id. destruct (trace_history options es st Htr Hnd) as (h & [I Hids _ _]). split.
  { intros Hid. apply (hi_quiet _ _ I). by rewrite Hids. }
  destruct (decide (id ∈ h_ids h)) as [Hin|Hout]; [|rewrite (hi_quiet _ _ I) by done; by exists ph_new].
  destruct (decide (id ∈ map fst (objects st))) as [((? & s) & -> & Ho)%elem_of_lmap|Hno].
  - apply list_elem_of_lookup in Ho as [o Eo].
    destruct (sl_phase _ _ _ _ (hi_law _ _ I o _ s Eo)) as (ph & Hph & _). by exists ph.
  - destruct (hi_refused _ _ I id Hin) as [code ->]; [|by exists ph_done].
    intros o s Eo. apply Hno, elem_of_lmap. exists (id, s). split; [done|].
    by apply list_elem_of_lookup_2 in Eo.
Qed.

(** Flow control of the guest's side. Of every stream object: the bytes
    its socket delivered are, in order and without loss or repetition, the
    payloads sent to the runner followed by what is parked; no more was sent
    than the initial window plus what the runner granted; no more was
    acknowledged to the runner than the socket took of its bytes; and every
    frame sent is within the wire's bounds. *)
Theorem supervisor_flow es st o id s :
  trace options es st -> NoDup (opened_ids es) -> objects st !! o = Some (id, s) ->
  received_from o es = data_of (msgs_of id (sent st)) ++ parked_bytes s /\
  N.of_nat (length (data_of (msgs_of id (sent st)))) <= PORT_STREAM_WINDOW_BYTES + granted_to id es /\
  acks_of (msgs_of id (sent st)) <= taken_bytes s /\
  Forall frame_ok (sent st).
Proof.
  intros Htr Hnd Eo. destruct (trace_history options es st Htr Hnd) as (h & [I _ Hrecv Hgr]).
  destruct (hi_law _ _ I o id s Eo) as [_ Eb _ Hw Ha Ht]. specialize (Hgr o id s Eo).
  rewrite <- Hrecv. split_and!; [done|lia|lia|apply (hi_frames _ _ I)].
Qed.

(** C18: The allowlist, whatever happens: every stream in the map is to a port
    of the last [ports.allow] (none before the first) that is not reserved;
    ids are in the map once; and there are at most [maxStreams]. A port taken
    off the list has no stream left. *)
Theorem supervisor_allowlist es st :
  trace options es st ->
  NoDup (map fst (streams st)) /\
  (length (streams st) <= maxStreams options)%nat /\
  forall id o, (id, o) ∈ streams st -> exists s,
    objects st !! o = Some (id, s) /\ closed s = false /\
    port s ∈ last_allowed es /\ port s ∉ reservedPorts options.
Proof.
  intros Htr. destruct (trace_allow options es st Htr) as [I Ea].
  split; [apply (al_map _ _ I)|]. split; [apply (al_cap _ _ I)|].
  intros id o Hin. destruct (proj1 (mi_live _ (al_map _ _ I) id o) Hin) as (s & Eo & Hc).
  exists s. destruct (al_ports _ _ I id o s Hin Eo) as [Hp Hr].
  split_and!; try done. apply js_dedup_elem_of. by rewrite <- Ea.
Qed.

(** What is parked behind the window gets through: whatever the acks, as
    soon as they grant as much as is parked, all of it has been sent, in order,
    nothing is parked any more, and a guest's end of file that waited behind
    it is reported, after the last byte. *)
Theorem parked_bytes_flush es st o id s p ns :
  trace options es st -> NoDup (opened_ids es) ->
  objects st !! o = Some (id, s) -> closed s = false -> parked s = Some p ->
  Forall (fun n => 0 < n <= PORT_STREAM_WINDOW_BYTES) ns -> N.of_nat (length p) <= foldr N.add 0 ns ->
  let st' := fold_left (fun st n => handle options (w_ack id n) st) ns st in
  exists s' ms, objects st' !! o = Some (id, s') /\ sent st' = sent st ++ ms /\
    data_of ms = p /\ parked s' = None /\
    (guestEndPending s = true -> last ms = Some (m_close id close_end)).
Proof.
  intros Htr Hnd Eo Hc Ep Hns Hl. destruct (trace_history options es st Htr Hnd) as (h & [I _ _ _]).
  destruct (handle_acks options ns h st o id s I Eo) as [E1 E2].
  pose proof (sl_parked _ _ _ _ (hi_law _ _ I o id s Eo)) as Hp. unfold parked_bytes in Hp.
  rewrite Ep in Hp.
  destruct (ack_all_flush id ns s p (mi_objects _ (hi_map _ _ I) _ _ _ Eo) Hc Ep Hp Hns Hl) as (F1 & F2 & F3).
  by eexists _, _.
Qed.
End Properties.

(** ** Concrete runs *)

Section Witnesses.
#[local] Existing Instance node_base64.

(** A run, checked to be one. *)
Fixpoint run_all (options : PortStreamsOptions) (es : list Event) (st : PortStreams) :
    option PortStreams :=
  match es with
  | [] => Some st
  | e :: es => if enabled e st then run_all options es (run options e st) else None
  end.

Lemma run_all_trace options es0 es st st' :
  trace options es0 st -> run_all options es st = Some st' -> trace options (es0 ++ es) st'.
Proof.
  revert es0 st. induction es as [|e es IH]; intros es0 st Htr; cbn.
  - intros [= ->]. by rewrite app_nil_r.
  - destruct (enabled e st) eqn:He; [|done]. intros Hr. rewrite cons_middle, app_assoc.
    eapply IH; [|done]. by constructor.
Qed.

Definition witness_options : PortStreamsOptions := {| reservedPorts := [22]; maxStreams := 2 |}.
Definition witness_id : jsstr := js "s1".

(** An allowed port is dialed, answers a request and closes; port 22 and a
    port not allowed are refused. *)
Definition witness_events : list Event :=
  [ e_item (w_allow [3000; 22]); e_item (w_open witness_id 3000); e_connect 0;
    e_item (w_data witness_id (js "R0VU")); e_written 0 false; e_immediate 0;
    e_data 0 [79; 75]; e_end 0;
    e_item (w_open (js "s2") 22); e_item (w_open (js "s3") 8080) ].

Definition witness_state : PortStreams :=
  default createPortStreams (run_all witness_options witness_events createPortStreams).

Lemma witness_trace : trace witness_options witness_events witness_state.
Proof. apply (run_all_trace _ [] _ createPortStreams); [constructor|]. vm_compute. reflexivity. Qed.

Lemma witness_fresh : NoDup (opened_ids witness_events).
Proof. apply (bool_decide_unpack _). vm_compute. reflexivity. Qed.

(** An exchange: one answer, an ack, the reply, the end. *)
Lemma supervisor_protocol_witness :
  msgs_of witness_id (sent witness_state) =
    [m_opened witness_id; m_ack witness_id 3; m_data witness_id (js "T0s=");
     m_close witness_id close_end] /\
  exists ph, run_phase ph_new (msgs_of witness_id (sent witness_state)) = Some ph.
Proof.
  split; [vm_compute; reflexivity|].
  exact (proj2 (supervisor_protocol witness_options witness_events witness_state witness_trace
    witness_fresh witness_id)).
Defined.

Lemma supervisor_flow_witness :
  exists s, objects witness_state !! 0%nat = Some (witness_id, s) /\
    received_from 0 witness_events = [79; 75] /\
    received_from 0 witness_events = data_of (msgs_of witness_id (sent witness_state)) ++ parked_bytes s /\
    acks_of (msgs_of witness_id (sent witness_state)) <= taken_bytes s.
Proof.
  eexists. split; [vm_compute; reflexivity|]. split; [reflexivity|].
  edestruct (supervisor_flow witness_options witness_events witness_state 0%nat witness_id)
    as (E & _ & Ha & _); [exact witness_trace|exact witness_fresh|vm_compute; reflexivity|].
  split; [exact E|exact Ha].
Defined.

Lemma supervisor_allowlist_witness :
  streams witness_state = [(witness_id, 0%nat)] /\
  (length (streams witness_state) <= 2)%nat.
Proof.
  split; [vm_compute; reflexivity|].
  exact (proj1 (proj2 (supervisor_allowlist witness_options witness_events witness_state witness_trace))).
Defined.

(** A guest that sends one byte more than the window, then ends: the byte and
    the end wait for an ack. *)
Definition flush_events (chunk : bytes) : list Event :=
  [e_item (w_allow [3000]); e_item (w_open witness_id 3000); e_connect 0; e_data 0 chunk; e_end 0].

Lemma flush_trace chunk :
  is_bytes chunk -> N.of_nat (length chunk) = PORT_STREAM_WINDOW_BYTES + 1 ->
  exists st s p, trace witness_options (flush_events chunk) st /\
    objects st !! 0%nat = Some (witness_id, s) /\ closed s = false /\ guestEndPending s = true /\
    parked s = Some p /\ N.of_nat (length p) = 1.
Proof.
  intros Hb Hl. unfold flush_events.
  set (st3 := default createPortStreams (run_all witness_options
    [e_item (w_allow [3000]); e_item (w_open witness_id 3000); e_connect 0] createPortStreams)).
  assert (trace witness_options [e_item (w_allow [3000]); e_item (w_open witness_id 3000); e_connect 0] st3)
    as H3 by (apply (run_all_trace _ [] _ createPortStreams); [constructor|vm_compute; reflexivity]).
  set (s3 := set_opened true (on_socket (fun k => set_timeoutMs 0 (set_connectArmed false k)) (new_stream 3000))).
  assert (objects st3 = [(witness_id, s3)]) as E3 by (vm_compute; reflexivity). clearbody st3.
  assert (0 < length chunk)%nat as Hpos by (unfold PORT_STREAM_WINDOW_BYTES in Hl; lia).
  assert (enabled (e_data 0 chunk) st3 = true) as He.
  { unfold enabled. rewrite E3. cbn -[Nat.ltb]. rewrite bool_decide_eq_true_2 by done.
    by rewrite (proj2 (Nat.ltb_lt _ _) Hpos). }
  pose proof (trace_snoc _ _ _ _ H3 He) as H4.
  destruct (cut PORT_STREAM_WINDOW_BYTES chunk) as [[credit rest] parts] eqn:Ecut.
  pose proof (cut_spec _ _ _ _ _ Ecut) as (Ed & _ & Ec & Hr).
  assert (N.of_nat (length rest) = 1 /\ credit = 0) as [Hrest ->].
  { rewrite Ed, length_app in Hl. destruct Hr as [->| ->]; [cbn in Hl|]; lia. }
  destruct rest as [|b rest]; [done|].
  set (st4 := run witness_options (e_data 0 chunk) st3) in *.
  assert (objects st4 = [(witness_id,
    on_socket (set_paused true) (set_parked (Some (b :: rest)) (set_sendCredit 0 (set_parked None s3))))]) as E4.
  { subst st4. cbn [run]. unfold act. rewrite E3. cbn [lookup list_lookup]. unfold on_data, pumpGuestBytes.
    cbn [s3 new_stream closed set_opened on_socket set_socket parked set_parked sendCredit].
    rewrite Ecut. reflexivity. }
  clearbody st4.
  assert (enabled (e_end 0) st4 = true) as He4 by (unfold enabled; by rewrite E4).
  pose proof (trace_snoc _ _ _ _ H4 He4) as H5. eexists _, _, (b :: rest). split; [exact H5|].
  cbn [run]. unfold act. rewrite E4. cbn. split; [reflexivity|]. by split_and!.
Qed.

Lemma parked_bytes_flush_witness :
  exists st s p, trace witness_options (flush_events (repeat 7 (N.to_nat (PORT_STREAM_WINDOW_BYTES + 1)))) st /\
    parked s = Some p /\ p <> [] /\
    exists ms, sent (fold_left (fun st n => handle witness_options (w_ack witness_id n) st) [1] st) =
      sent st ++ ms /\ data_of ms = p /\ last ms = Some (m_close witness_id close_end).
Proof.
  destruct (flush_trace (repeat 7 (N.to_nat (PORT_STREAM_WINDOW_BYTES + 1))))
    as (st & s & p & Htr & Eo & Hc & Hg & Ep & Hl).
  - apply Forall_forall. intros x Hx. apply list_elem_of_In, repeat_spec in Hx. subst x. unfold is_byte. lia.
  - rewrite repeat_length. apply N2Nat.id.
  - exists st, s, p. split; [done|]. split; [done|]. split; [by intros ->|].
    destruct (parked_bytes_flush witness_options _ st 0%nat witness_id s p [1] Htr)
      as (s' & ms & _ & E1 & E2 & _ & E3); try done.
    + apply (bool_decide_unpack _). reflexivity.
    + constructor; [split; [reflexivity|discriminate]|constructor].
    + rewrite Hl. reflexivity.
    + exists ms. split; [done|]. split; [done|]. by apply E3.
Defined.

(** A dial cut short by a shrinking allowlist is never answered. *)
Lemma revoked_dial_unanswered :
  exists st, trace witness_options
      [e_item (w_allow [3000]); e_item (w_open witness_id 3000); e_item (w_allow []); e_closed 0] st /\
    sent st = [] /\ streams st = [].
Proof.
  eexists. split; [|split].
  - apply (run_all_trace _ [] _ createPortStreams); [constructor|vm_compute; reflexivity].
  - reflexivity.
  - reflexivity.
Qed.
End Witnesses.
