(* ===== verification/PortHub.v ===== *)
(** * Port streams, runner half: [apps/runner/src/port-hub.ts]

    [PortDuplex] is the stream the relay pipes through, one definition per
    method; [PortHub] the map of streams, the counts per sandbox, and one
    definition per operation and message. What Node's [Duplex] keeps for the
    class (the readable buffer, the end of file, the end of the writable side)
    is part of the record. *)
From S2P Require Import Prelude JsBytes PortWire.
Local Open Scope N_scope.

Module Hub.

Definition PORT_OPEN_TIMEOUT_MS : N := 10000.
Definition MAX_RUNNER_PORT_STREAMS_PER_SANDBOX : N := 32.

(** The write [_write] has not finished, and Node's own state: the bytes pushed
    and not read, whether [push(null)] ran, whether [_final] ran. *)
Record PortDuplex := {
  credit : N;
  unackedOut : N;
  pendingWrite : option bytes;
  ended : bool;
  buffered : bytes;
  eof : bool;
  finished : bool;
}.

(** Field updates. *)
Section Setters.
Definition set_credit (v : N) (d : PortDuplex) : PortDuplex :=
  {| credit := v; unackedOut := unackedOut d; pendingWrite := pendingWrite d; ended := ended d;
     buffered := buffered d; eof := eof d; finished := finished d |}.
Definition set_unackedOut (v : N) (d : PortDuplex) : PortDuplex :=
  {| credit := credit d; unackedOut := v; pendingWrite := pendingWrite d; ended := ended d;
     buffered := buffered d; eof := eof d; finished := finished d |}.
Definition set_pendingWrite (v : option bytes) (d : PortDuplex) : PortDuplex :=
  {| credit := credit d; unackedOut := unackedOut d; pendingWrite := v; ended := ended d;
     buffered := buffered d; eof := eof d; finished := finished d |}.
Definition set_ended (v : bool) (d : PortDuplex) : PortDuplex :=
  {| credit := credit d; unackedOut := unackedOut d; pendingWrite := pendingWrite d; ended := v;
     buffered := buffered d; eof := eof d; finished := finished d |}.
Definition set_buffered (v : bytes) (d : PortDuplex) : PortDuplex :=
  {| credit := credit d; unackedOut := unackedOut d; pendingWrite := pendingWrite d; ended := ended d;
     buffered := v; eof := eof d; finished := finished d |}.
Definition set_eof (v : bool) (d : PortDuplex) : PortDuplex :=
  {| credit := credit d; unackedOut := unackedOut d; pendingWrite := pendingWrite d; ended := ended d;
     buffered := buffered d; eof := v; finished := finished d |}.
Definition set_finished (v : bool) (d : PortDuplex) : PortDuplex :=
  {| credit := credit d; unackedOut := unackedOut d; pendingWrite := pendingWrite d; ended := ended d;
     buffered := buffered d; eof := eof d; finished := v |}.
End Setters.

Definition new_duplex : PortDuplex :=
  {| credit := PORT_STREAM_WINDOW_BYTES; unackedOut := 0; pendingWrite := None; ended := false;
     buffered := []; eof := false; finished := false |}.

Definition readableLength (d : PortDuplex) : N := N.of_nat (length (buffered d)).

(** ** The duplex *)

Section Duplex.
Variable readableHighWaterMark : N.
Variable streamId : jsstr.

(** [_write]; its callback is what lets Node call it again. *)
Definition _write (chunk : bytes) (d : PortDuplex) : PortDuplex * list WorkItem :=
  let '(credit, rest, parts) := cut (credit d) chunk in
  let d := set_credit credit d in
  let items := map (fun part => w_data streamId (to_base64 part)) parts in
  if (0 <? length rest)%nat then (set_pendingWrite (Some rest) d, items) else (d, items).

Definition grant (bytes : N) (d : PortDuplex) : PortDuplex * list WorkItem :=
  let d := set_credit (N.min PORT_STREAM_WINDOW_BYTES (credit d + bytes)) d in
  match pendingWrite d with
  | Some p => if 0 <? credit d then _write p (set_pendingWrite None d) else (d, [])
  | None => (d, [])
  end.

Definition _final (d : PortDuplex) : PortDuplex * list WorkItem :=
  (set_finished true d, [w_close streamId close_end]).

Definition _read (d : PortDuplex) : PortDuplex * list WorkItem :=
  if 0 <? unackedOut d then
    let g := N.min (unackedOut d) PORT_STREAM_WINDOW_BYTES in
    (set_unackedOut (unackedOut d - g) d, [w_ack streamId g])
  else (d, []).

(** Node's [push(bytes)]: after the end of file an error, which destroys the
    stream ([None]); a stream that flows hands the bytes to its consumer;
    otherwise they are buffered. The boolean is [push]'s result. *)
Definition push (flowing : bool) (bytes : bytes) (d : PortDuplex) : option (PortDuplex * list N * bool) :=
  if eof d then if (0 <? length bytes)%nat then None else Some (d, [], false)
  else if flowing && (readableLength d =? 0) then Some (d, bytes, true)
  else
    let d := set_buffered (buffered d ++ bytes) d in
    Some (d, [], (readableLength d <? readableHighWaterMark) || (readableLength d =? 0)).

(** [deliver]: [None] when it destroys the stream; else what the consumer is
    handed and what is sent. *)
Definition deliver (flowing : bool) (bytes : bytes) (d : PortDuplex) :
    option (PortDuplex * list N * list WorkItem) :=
  let len := N.of_nat (length bytes) in
  let d := set_unackedOut (unackedOut d + len) d in
  if readableHighWaterMark + PORT_STREAM_WINDOW_BYTES + PORT_CHUNK_RAW_BYTES <? readableLength d + len
  then None
  else
    '(d, out, more) ← push flowing bytes d;
    if more : bool then let '(d, items) := _read d in Some (d, out, items) else Some (d, out, []).
End Duplex.

(** ** The hub *)

(** [settle] is whether the open is still to be answered; the timer runs while
    it is. *)
Record HubStream := {
  sandboxId : jsstr;
  duplex : PortDuplex;
  opened : bool;
  settle : bool;
}.

(** What the hub does to the outside: a frame sent, an open settled (with
    [None] when it resolves), bytes handed to a stream's consumer. *)
Inductive Out :=
  | to_sandbox (sandboxId : jsstr) (item : WorkItem)
  | settled (streamId : jsstr) (error : option PortOpenErrorCode)
  | handed (streamId : jsstr) (b : bytes).

(** [streams] in insertion order, [perSandbox], the sandboxes whose socket is
    up, and what was done. *)
Record PortHub := {
  streams : list (jsstr * HubStream);
  perSandbox : gmap jsstr N;
  connected : list jsstr;
  log : list Out;
}.

Definition createPortHub : PortHub :=
  {| streams := []; perSandbox := ∅; connected := []; log := [] |}.

Section Hub.
Context `{NodeBase64}.
Variable readableHighWaterMark : N.
Variable maxStreamsPerSandbox : N.

Definition with_streams (l : list (jsstr * HubStream)) (h : PortHub) : PortHub :=
  {| streams := l; perSandbox := perSandbox h; connected := connected h; log := log h |}.
Definition with_counts (m : gmap jsstr N) (h : PortHub) : PortHub :=
  {| streams := streams h; perSandbox := m; connected := connected h; log := log h |}.
Definition with_connected (l : list jsstr) (h : PortHub) : PortHub :=
  {| streams := streams h; perSandbox := perSandbox h; connected := l; log := log h |}.
Definition say (o : Out) (h : PortHub) : PortHub :=
  {| streams := streams h; perSandbox := perSandbox h; connected := connected h; log := log h ++ [o] |}.

Definition get (streamId : jsstr) (h : PortHub) : option HubStream :=
  snd <$> List.find (fun e => bool_decide (fst e = streamId)) (streams h).

Definition countFor (sandboxId : jsstr) (h : PortHub) : N := default 0 (perSandbox h !! sandboxId).

Definition track (streamId : jsstr) (s : HubStream) (h : PortHub) : PortHub :=
  let h := with_streams (streams h ++ [(streamId, s)]) h in
  with_counts (<[sandboxId s := countFor (sandboxId s) h + 1]> (perSandbox h)) h.

Definition drop (streamId : jsstr) (h : PortHub) : PortHub :=
  match get streamId h with
  | None => h
  | Some s =>
      let h := with_streams (List.filter (fun e => negb (bool_decide (fst e = streamId))) (streams h)) h in
      let left := countFor (sandboxId s) h - 1 in
      if 0 <? left then with_counts (<[sandboxId s := left]> (perSandbox h)) h
      else with_counts (delete (sandboxId s) (perSandbox h)) h
  end.

(** [sendToSandbox], which the runner's socket server provides: it sends when
    the sandbox is connected, and says so. *)
Definition is_connected (sandboxId : jsstr) (h : PortHub) : bool := bool_decide (sandboxId ∈ connected h).
Definition sendToSandbox (sandboxId : jsstr) (item : WorkItem) (h : PortHub) : PortHub :=
  if is_connected sandboxId h then say (to_sandbox sandboxId item) h else h.

(** [duplex.destroy()]: [_destroy], whose effect is [onDestroy]. *)
Definition destroy (streamId : jsstr) (h : PortHub) : PortHub :=
  match get streamId h with
  | None => h
  | Some s =>
      let h := if opened s && negb (ended (duplex s))
               then sendToSandbox (sandboxId s) (w_close streamId close_abort) h else h in
      drop streamId h
  end.

(** [emit]: a frame that cannot be sent destroys the stream. *)
Definition emit (sandboxId streamId : jsstr) (h : PortHub) (item : WorkItem) : PortHub :=
  if is_connected sandboxId h then say (to_sandbox sandboxId item) h else destroy streamId h.

Definition set_stream (streamId : jsstr) (s : HubStream) (h : PortHub) : PortHub :=
  with_streams (map (fun e => if bool_decide (fst e = streamId) then (streamId, s) else e) (streams h)) h.

Definition with_duplex (d : PortDuplex) (s : HubStream) : HubStream :=
  {| sandboxId := sandboxId s; duplex := d; opened := opened s; settle := settle s |}.

(** A method of a stream's duplex, and what it emits. *)
Definition on_duplex (streamId : jsstr) (f : jsstr -> PortDuplex -> PortDuplex * list WorkItem)
    (h : PortHub) : PortHub :=
  match get streamId h with
  | None => h
  | Some s =>
      let '(d, items) := f streamId (duplex s) in
      fold_left (emit (sandboxId s) streamId) items (set_stream streamId (with_duplex d s) h)
  end.

Definition on_deliver (flowing : bool) (streamId : jsstr) (bytes : bytes) (h : PortHub) : PortHub :=
  match get streamId h with
  | None => h
  | Some s =>
      match deliver readableHighWaterMark streamId flowing bytes (duplex s) with
      | None => destroy streamId h
      | Some (d, out, items) =>
          let h := set_stream streamId (with_duplex d s) h in
          let h := if (0 <? length out)%nat then say (handed streamId out) h else h in
          fold_left (emit (sandboxId s) streamId) items h
      end
  end.

(** [open], up to its first wait; [streamId] is the random id it draws. *)
Definition open (streamId sandboxId : jsstr) (port : N) (h : PortHub) : PortHub :=
  if maxStreamsPerSandbox <=? countFor sandboxId h then say (settled streamId (Some limit)) h
  else
    let h := track streamId {| sandboxId := sandboxId; duplex := new_duplex; opened := false; settle := true |} h in
    if is_connected sandboxId h then say (to_sandbox sandboxId (w_open streamId port)) h
    else say (settled streamId (Some no_sandbox)) (drop streamId h).

(** The timer of [open]. *)
Definition on_timeout (streamId : jsstr) (h : PortHub) : PortHub :=
  match get streamId h with
  | None => h
  | Some s =>
      let h := drop streamId h in
      let h := sendToSandbox (sandboxId s) (w_close streamId close_abort) h in
      say (settled streamId (Some timeout)) h
  end.

Definition handle (flowing : bool) (from : jsstr) (message : SupervisorMessage) (h : PortHub) : PortHub :=
  let streamId := message_stream message in
  match get streamId h with
  | None => h
  | Some s =>
      if negb (bool_decide (sandboxId s = from)) then h
      else match message with
           | m_opened _ =>
               if opened s || negb (settle s) then h
               else
                 let h := set_stream streamId
                   {| sandboxId := sandboxId s; duplex := duplex s; opened := true; settle := false |} h in
                 say (settled streamId None) h
           | m_error _ code =>
               if opened s || negb (settle s) then h
               else say (settled streamId (Some code)) (drop streamId h)
           | m_data _ dataBase64 =>
               if negb (opened s) then h else on_deliver flowing streamId (from_base64 dataBase64) h
           | m_ack _ bytes => on_duplex streamId (fun id => grant id bytes) h
           | m_close _ mode =>
               if negb (opened s) then
                 if settle s then say (settled streamId (Some failed)) (drop streamId h) else h
               else
                 let d := set_ended true (duplex s) in
                 match mode with
                 | close_end => set_stream streamId (with_duplex (set_eof true d) s) h
                 | close_abort => destroy streamId (set_stream streamId (with_duplex d s) h)
                 end
           end
  end.

Definition setAllowed (sandboxId : jsstr) (ports : list N) : PortHub -> PortHub :=
  sendToSandbox sandboxId (w_allow ports).

Definition sandboxGone (sandboxId' : jsstr) (h : PortHub) : PortHub :=
  fold_left (fun h e =>
    match get (fst e) h with
    | None => h
    | Some s =>
        if negb (bool_decide (sandboxId s = sandboxId')) then h
        else if settle s then say (settled (fst e) (Some no_sandbox)) (drop (fst e) h)
        else destroy (fst e) (set_stream (fst e) (with_duplex (set_ended true (duplex s)) s) h)
    end) (streams h) h.

(** ** Runs *)

(** The calls of the relay and the runner, the frames, the timers, and what
    Node and the consumer do to a stream that was handed out. *)
Inductive Event :=
  | h_open (streamId sandboxId : jsstr) (port : N)
  | h_frame (flowing : bool) (from : jsstr) (message : SupervisorMessage)
  | h_allow (sandboxId : jsstr) (ports : list N)
  | h_gone (sandboxId : jsstr)
  | h_connect (sandboxId : jsstr) | h_disconnect (sandboxId : jsstr)
  | h_timeout (streamId : jsstr)
  | h_write (streamId : jsstr) (chunk : bytes)
  | h_final (streamId : jsstr)
  | h_consume (streamId : jsstr) (n : nat)
  | h_read (streamId : jsstr)
  | h_destroy (streamId : jsstr).

(** The consumer takes the first [n] bytes of the buffer. *)
Definition consume (streamId : jsstr) (n : nat) (h : PortHub) : PortHub :=
  match get streamId h with
  | None => h
  | Some s =>
      let d := duplex s in
      say (handed streamId (take n (buffered d)))
        (set_stream streamId (with_duplex (set_buffered (list.drop n (buffered d)) d) s) h)
  end.

Definition run (e : Event) (h : PortHub) : PortHub :=
  match e with
  | h_open id sb port => open id sb port h
  | h_frame flowing from message => handle flowing from message h
  | h_allow sb ports => setAllowed sb ports h
  | h_gone sb => sandboxGone sb h
  | h_connect sb => with_connected (sb :: connected h) h
  | h_disconnect sb => with_connected (List.filter (fun x => negb (bool_decide (x = sb))) (connected h)) h
  | h_timeout id => on_timeout id h
  | h_write id chunk => on_duplex id (fun id => _write id chunk) h
  | h_final id => on_duplex id _final h
  | h_consume id n => consume id n h
  | h_read id => on_duplex id _read h
  | h_destroy id => destroy id h
  end.

(** What Node documents of a stream: one [_write] at a time, [_final] once and
    after the last; [_read] while the buffer is below the mark; and nobody has
    a stream before its open resolved. A timer that is cleared does not fire. *)
Definition enabled (e : Event) (h : PortHub) : bool :=
  let stream id (p : HubStream -> bool) := match get id h with Some s => p s | None => false end in
  let writable s := opened s && negb (finished (duplex s)) &&
    match pendingWrite (duplex s) with Some _ => false | None => true end in
  match e with
  | h_open _ _ _ | h_allow _ _ | h_gone _ | h_connect _ | h_disconnect _ => true
  | h_frame _ _ _ => true
  | h_timeout id => stream id settle
  | h_write id chunk => stream id (fun s => writable s && bool_decide (is_bytes chunk))
  | h_final id => stream id writable
  | h_consume id n => stream id (fun s => opened s && (0 <? n)%nat && (n <=? length (buffered (duplex s)))%nat)
  | h_read id => stream id (fun s => opened s && negb (eof (duplex s)) &&
      ((readableLength (duplex s) <? readableHighWaterMark) || (readableLength (duplex s) =? 0)))
  | h_destroy id => stream id opened
  end.

Inductive trace : list Event -> PortHub -> Prop :=
  | trace_nil : trace [] createPortHub
  | trace_snoc es h e : trace es h -> enabled e h = true -> trace (es ++ [e]) (run e h).
End Hub.
End Hub.
