(* ===== verification/PortHubSpec.v ===== *)
(** * What the runner's port hub promises

    The methods of a stream ([duplex_ok]), then the hub: the counts behind the
    cap, each open settled once, the fence between sandboxes, and the memory a
    guest that ignores the window can take. *)
From S2P Require Import Prelude JsBytes PortWire PortHub.
Import Hub.
Local Open Scope N_scope.

(** ** One stream *)

Section Duplex.
Context `{NodeBase64}.
Variable hwm : N.
Variable streamId : jsstr.

(** The state of a duplex between events. *)
Record duplex_ok (d : PortDuplex) : Prop := {
  dk_credit : credit d <= PORT_STREAM_WINDOW_BYTES;
  dk_pending p : pendingWrite d = Some p -> p <> [] /\ credit d = 0;
  dk_buffer : readableLength d <= hwm + unackedOut d;
  dk_bound : readableLength d <= hwm + PORT_STREAM_WINDOW_BYTES + PORT_CHUNK_RAW_BYTES;
}.

Lemma new_duplex_ok : duplex_ok new_duplex.
Proof. constructor; try done; unfold readableLength; cbn [new_duplex buffered length N.of_nat unackedOut credit]; lia. Qed.

(** What the frames of a stream carry toward the guest. *)
Definition item_payload (i : WorkItem) : bytes :=
  match i with w_data _ b => from_base64 b | _ => [] end.
Definition item_grant (i : WorkItem) : N := match i with w_ack _ n => n | _ => 0 end.
Definition items_data (l : list WorkItem) : bytes := flat_map item_payload l.
Definition items_acks (l : list WorkItem) : N := foldr (fun i n => item_grant i + n) 0 l.

Lemma items_data_app l l' : items_data (l ++ l') = items_data l ++ items_data l'.
Proof. apply flat_map_app. Qed.
Lemma items_acks_app l l' : items_acks (l ++ l') = items_acks l + items_acks l'.
Proof. unfold items_acks. induction l as [|i l IH]; cbn; [done|]. rewrite IH. lia. Qed.

(** A frame within the bounds of the wire. *)
Definition item_ok (i : WorkItem) : Prop :=
  match i with
  | w_data id b => id = streamId /\ b <> [] /\ N.of_nat (length b) <= PORT_CHUNK_BASE64_CHARS /\
      N.of_nat (length (from_base64 b)) <= PORT_CHUNK_RAW_BYTES
  | w_ack id n => id = streamId /\ 0 < n <= PORT_STREAM_WINDOW_BYTES
  | w_close id _ => id = streamId
  | _ => False
  end.

Lemma parts_items parts :
  Forall chunk_ok parts -> is_bytes (concat parts) ->
  let l := map (fun p => w_data streamId (to_base64 p)) parts in
  items_data l = concat parts /\ Forall item_ok l /\ items_acks l = 0.
Proof.
  induction 1 as [|p parts [Hn Hl] _ IH]; cbn; [done|].
  intros [Hp Hps]%is_bytes_app. destruct (IH Hps) as (E & Hf & Ha).
  rewrite from_base64_to_base64 by done. unfold items_data in *. rewrite E. split_and!; [done| |done].
  constructor; [|done]. cbn. rewrite from_base64_to_base64 by done. split_and!; [done|..].
  - by intros ?%to_base64_nil.
  - rewrite length_to_base64. unfold PORT_CHUNK_BASE64_CHARS, PORT_CHUNK_RAW_BYTES in *.
    apply N.mul_le_mono_r, N.Div0.div_le_mono. lia.
  - done.
Qed.

Definition pending_bytes (d : PortDuplex) : bytes := default [] (pendingWrite d).

(** What a method changes: the bytes toward the guest come out in order, the
    credit pays for what is sent, the readable side keeps its books. *)
Record method_law (received granted : N) (taken : bytes)
    (d d' : PortDuplex) (items : list WorkItem) : Prop := {
  ml_ok : duplex_ok d';
  ml_items : Forall item_ok items;
  ml_data : pending_bytes d ++ taken = items_data items ++ pending_bytes d';
  ml_bytes : is_bytes (pending_bytes d');
  ml_credit : credit d' + N.of_nat (length (items_data items)) <= credit d + granted;
  ml_acks : unackedOut d' + items_acks items = unackedOut d + received;
}.

Lemma _write_law chunk d :
  duplex_ok d -> pendingWrite d = None -> is_bytes chunk ->
  method_law 0 0 chunk d (fst (_write streamId chunk d)) (snd (_write streamId chunk d)).
Proof.
  intros [] Hp Hc. unfold _write.
  destruct (cut (credit d) chunk) as [[c rest] parts] eqn:Ecut.
  apply cut_spec in Ecut as (-> & Hparts & Ec & Hr). apply is_bytes_app in Hc as [Hpb Hrb].
  destruct (parts_items parts Hparts Hpb) as (Ed & Hf & Ha).
  destruct rest as [|b rest]; cbn -[items_data items_acks].
  - constructor; unfold pending_bytes; cbn -[items_data items_acks]; rewrite ?Ed, ?Ha, ?Hp; cbn;
      rewrite ?app_nil_r; try done; try lia.
    constructor; cbn; try done; [lia|]. intros p. by rewrite Hp.
  - destruct Hr as [?|Hr]; [done|]. subst c.
    constructor; unfold pending_bytes; cbn -[items_data items_acks]; rewrite ?Ed, ?Ha, ?Hp; try done; try lia.
    constructor; cbn; try done. by intros p [= <-].
Qed.

Lemma grant_law n d :
  duplex_ok d -> is_bytes (pending_bytes d) ->
  method_law 0 n [] d (fst (grant streamId n d)) (snd (grant streamId n d)).
Proof.
  intros Hd Hb. unfold grant. set (c := N.min _ _). assert (c <= credit d + n /\ c <= PORT_STREAM_WINDOW_BYTES) as [Hc Hw] by lia.
  assert (forall p, pendingWrite d = p -> (p = None \/ c = 0) ->
    method_law 0 n [] d (set_credit c d) []) as Hsame.
  { intros p Ep Hor. constructor; unfold pending_bytes in *; cbn; rewrite ?app_nil_r; try done; try lia.
    destruct Hd. constructor; cbn; try done. intros p' Ep'. split; [by destruct (dk_pending0 p')|].
    destruct Hor as [->| ->]; [congruence|done]. }
  cbn [set_credit pendingWrite credit]. destruct (pendingWrite d) as [p|] eqn:Ep; [|by apply (Hsame None); [|left]].
  destruct (N.ltb_spec 0 c); [|apply (Hsame (Some p)); [done|right; lia]].
  destruct (_write_law p (set_pendingWrite None (set_credit c d))) as [W1 W2 W3 W4 W5 W6].
  - destruct Hd. by constructor.
  - done.
  - unfold pending_bytes in Hb. by rewrite Ep in Hb.
  - cbn -[items_data items_acks] in *. constructor; try done; try lia.
    unfold pending_bytes in *. rewrite Ep, app_nil_r. exact W3.
Qed.

Lemma _final_law d :
  duplex_ok d -> is_bytes (pending_bytes d) ->
  method_law 0 0 [] d (fst (_final streamId d)) (snd (_final streamId d)).
Proof.
  intros [] Hb. constructor; cbn; rewrite ?app_nil_r; try done; try lia;
    by repeat constructor.
Qed.

Lemma _read_law d :
  duplex_ok d -> is_bytes (pending_bytes d) ->
  readableLength d <= hwm ->
  method_law 0 0 [] d (fst (_read streamId d)) (snd (_read streamId d)).
Proof.
  intros [] Hb Hl. unfold _read. destruct (N.ltb_spec 0 (unackedOut d)); cbn;
    constructor; unfold pending_bytes; cbn; rewrite ?app_nil_r; try done; try lia.
  - constructor; try done. unfold readableLength in *. cbn [set_unackedOut buffered unackedOut]. lia.
  - constructor; [|done]. cbn. split; [done|]. unfold PORT_STREAM_WINDOW_BYTES. lia.
Qed.

Lemma push_spec flowing b d d' out more :
  push hwm flowing b d = Some (d', out, more) ->
  buffered d ++ b = out ++ buffered d' \/ eof d = true /\ b = [] /\ d' = d /\ out = [].
Proof.
  unfold push. destruct (eof d).
  - destruct b; [|done]. intros [= <- <- <-]. by right.
  - destruct (flowing && (readableLength d =? 0)) eqn:E.
    + intros [= <- <- <-]. left. apply andb_true_iff in E as [_ E%N.eqb_eq].
      unfold readableLength in E. destruct (buffered d); [|done]. by rewrite app_nil_r.
    + intros [= <- <- <-]. by left.
Qed.

(** Delivering: what the consumer is handed and the buffer are the old buffer
    and the new bytes, in order. *)
Lemma deliver_law flowing b d d' out items :
  duplex_ok d -> is_bytes (pending_bytes d) ->
  deliver hwm streamId flowing b d = Some (d', out, items) ->
  method_law (N.of_nat (length b)) 0 [] d d' items /\ buffered d ++ b = out ++ buffered d' /\
  eof d' = eof d /\ ended d' = ended d /\ finished d' = finished d /\
  (items = [] \/ exists n, items = [w_ack streamId n]) /\ pendingWrite d' = pendingWrite d.
Proof.
  intros [] Hb. unfold deliver. set (len := N.of_nat (length b)).
  set (d1 := set_unackedOut (unackedOut d + len) d).
  destruct (N.ltb_spec (hwm + PORT_STREAM_WINDOW_BYTES + PORT_CHUNK_RAW_BYTES) (readableLength d1 + len)) as [|Hroom];
    [done|].
  destruct (push hwm flowing b d1) as [[[d2 o2] more]|] eqn:Epush; [|done]. cbn [mbind option_bind].
  assert (readableLength d1 = readableLength d) as El by done. rewrite El in Hroom.
  assert (duplex_ok d2 /\ (more = true -> readableLength d2 <= hwm) /\ pendingWrite d2 = pendingWrite d /\
    credit d2 = credit d /\ unackedOut d2 = unackedOut d + len /\ buffered d ++ b = o2 ++ buffered d2 /\
    eof d2 = eof d /\ ended d2 = ended d /\ finished d2 = finished d)
    as (Hok & Hmore & E1 & E2 & E3 & E4 & E5 & E6 & E7).
  { unfold push in Epush. change (eof d1) with (eof d) in Epush. rewrite El in Epush.
    destruct (eof d) eqn:Eeof.
    - destruct b; [|done]. injection Epush as <- <- <-. cbn in *.
      split_and!; try done; [|by rewrite app_nil_r]. constructor; cbn; try done. lia.
    - destruct (flowing && (readableLength d =? 0)) eqn:Ef; injection Epush as <- <- <-.
      + apply andb_true_iff in Ef as [_ Ef%N.eqb_eq].
        split_and!; try done.
        * constructor; cbn; try done; lia.
        * cbn. lia.
        * unfold readableLength in Ef. cbn. destruct (buffered d); [|done]. cbn. by rewrite app_nil_r.
      + change (buffered d1) with (buffered d).
        assert (readableLength (set_buffered (buffered d ++ b) d1) = readableLength d + len) as El2.
        { unfold readableLength. cbn. rewrite length_app. lia. }
        split_and!; try done.
        * assert (unackedOut (set_buffered (buffered d ++ b) d1) = unackedOut d + len) as Eu by done.
          constructor; rewrite ?El2, ?Eu; try done; lia.
        * rewrite El2. intros [H1%N.ltb_lt|H1%N.eqb_eq]%orb_true_iff; lia. }
  clear Epush. destruct more.
  - destruct (_read_law d2 Hok) as [R1 R2 R3 R4 R5 R6];
      [unfold pending_bytes in *; by rewrite E1|by apply Hmore|].
    assert (buffered (fst (_read streamId d2)) = buffered d2 /\ eof (fst (_read streamId d2)) = eof d2 /\
      ended (fst (_read streamId d2)) = ended d2 /\ finished (fst (_read streamId d2)) = finished d2 /\
      (snd (_read streamId d2) = [] \/ exists n, snd (_read streamId d2) = [w_ack streamId n]) /\
      pendingWrite (fst (_read streamId d2)) = pendingWrite d2)
      as (F1 & F2 & F3 & F4 & F5 & F6)
      by (unfold _read; destruct (0 <? unackedOut d2); cbn; split_and!; eauto).
    destruct (_read streamId d2) as [d3 items3]. cbn [fst snd] in *. intros [= <- <- <-].
    split; [|split_and!; try congruence; done].
    constructor; try done; [|rewrite <- E2; done|lia]. unfold pending_bytes in *. by rewrite <- E1.
  - intros [= <- <- <-]. split; [|split_and!; try congruence; try by left].
    constructor; unfold pending_bytes in *; cbn; rewrite ?app_nil_r; try done; rewrite ?E1; try done; lia.
Qed.
End Duplex.

(** ** The map *)

Lemma get_set_stream_eq id s s0 h : get id h = Some s0 -> get id (set_stream id s h) = Some s.
Proof.
  unfold get, set_stream. cbn. induction (streams h) as [|[id' s'] l IH]; cbn; [done|].
  destruct (bool_decide_reflect (id' = id)) as [->|Hne]; cbn.
  - by rewrite bool_decide_eq_true_2.
  - rewrite bool_decide_eq_false_2 by done. apply IH.
Qed.

Lemma get_set_stream_ne id id' s h : id' <> id -> get id' (set_stream id s h) = get id' h.
Proof.
  intros Hne. unfold get, set_stream. cbn. f_equal.
  induction (streams h) as [|[k x] l IH]; cbn; [done|].
  destruct (bool_decide_reflect (k = id)) as [->|]; cbn.
  - rewrite !bool_decide_eq_false_2 by done. apply IH.
  - destruct (bool_decide (k = id')); [done|apply IH].
Qed.

Lemma find_filter_ne id id' (l : list (jsstr * HubStream)) :
  id' <> id ->
  List.find (fun e => bool_decide (fst e = id')) (List.filter (fun e => negb (bool_decide (fst e = id))) l) =
  List.find (fun e => bool_decide (fst e = id')) l.
Proof.
  intros Hne. induction l as [|[k x] l IH]; cbn; [done|].
  destruct (bool_decide_reflect (k = id)) as [->|]; cbn.
  - rewrite bool_decide_eq_false_2 by done. apply IH.
  - destruct (bool_decide (k = id')); [done|apply IH].
Qed.

Lemma get_drop_eq id h : get id (drop id h) = None.
Proof.
  unfold drop. destruct (get id h) as [s|] eqn:E; [|done].
  destruct (0 <? _); unfold get; cbn;
    (destruct (List.find _ _) as [[k x]|] eqn:F; [|done]); apply find_some in F as [F1 F2];
    apply list_elem_of_In, elem_of_lfilter in F1 as [_ F1]; cbn in *; by rewrite F2 in F1.
Qed.

Lemma get_drop_ne id id' h : id' <> id -> get id' (drop id h) = get id' h.
Proof.
  intros Hne. unfold drop. destruct (get id h) as [s|]; [|done].
  destruct (0 <? _); unfold get; cbn; by rewrite find_filter_ne.
Qed.

Lemma get_say id o h : get id (say o h) = get id h.
Proof. done. Qed.

Lemma get_sendToSandbox id sb i h : get id (sendToSandbox sb i h) = get id h.
Proof. unfold sendToSandbox. by destruct (is_connected sb h). Qed.

Lemma get_Some_elem id s h :
  NoDup (map fst (streams h)) -> get id h = Some s <-> (id, s) ∈ streams h.
Proof.
  intros Hnd. unfold get. split.
  - intros ([k x] & E & ->)%fmap_Some. apply find_some in E as [Hin E].
    apply bool_decide_eq_true in E. cbn in *. subst. by apply list_elem_of_In.
  - intros Hin. destruct (List.find _ (streams h)) as [[k x]|] eqn:E.
    + apply find_some in E as [Hin' E]. apply bool_decide_eq_true in E. cbn in E. subst k.
      apply list_elem_of_In in Hin'. cbn. f_equal.
      assert ((id, x) = (id, s)) as [= ->]; [|done].
      by apply (NoDup_fmap_elem_eq fst (streams h)).
    + exfalso. apply list_elem_of_In in Hin. apply (find_none _ _ E) in Hin. cbn in Hin.
      by rewrite bool_decide_eq_true_2 in Hin.
Qed.

(** The number of live streams of a sandbox. *)
Definition count (sb : jsstr) (l : list (jsstr * HubStream)) : N :=
  N.of_nat (length (List.filter (fun e => bool_decide (sandboxId (snd e) = sb)) l)).

Definition settles (id : jsstr) (l : list Out) : list (option PortOpenErrorCode) :=
  flat_map (fun o => match o with settled id' r => if bool_decide (id' = id) then [r] else [] | _ => [] end) l.

Lemma settles_app id l l' : settles id (l ++ l') = settles id l ++ settles id l'.
Proof. apply flat_map_app. Qed.

Section Hub.
Context `{NodeBase64}.
Variable hwm : N.
Variable maxStreams : N.

(** A stream of the map: its open is pending exactly until it is opened, and
    nothing is written to it before. *)
Record stream_ok (s : HubStream) : Prop := {
  sk_settle : settle s = negb (opened s);
  sk_duplex : duplex_ok hwm (duplex s);
  sk_pending : is_bytes (pending_bytes (duplex s));
  sk_quiet : opened s = false -> pendingWrite (duplex s) = None;
}.

(** The hub between events; [used] are the stream ids drawn so far. *)
Record hub_inv (used : list jsstr) (h : PortHub) : Prop := {
  hv_keys : NoDup (map fst (streams h));
  hv_used id : get id h <> None -> id ∈ used;
  hv_count sb : countFor sb h = count sb (streams h);
  hv_cap sb : countFor sb h <= maxStreams;
  hv_streams id s : get id h = Some s -> stream_ok s;
  hv_fresh id : id ∉ used -> settles id (log h) = [];
  hv_pending id s : get id h = Some s -> settle s = true -> settles id (log h) = [];
  hv_settled id : id ∈ used -> (forall s, get id h = Some s -> settle s = false) ->
    exists r, settles id (log h) = [r];
}.

Lemma hub_inv_nil : hub_inv [] createPortHub.
Proof. constructor; cbn; try done; [constructor|intros sb; apply N.le_0_l|by intros id ?%elem_of_nil]. Qed.

(** Saying anything but an answer changes nothing. *)
Lemma hub_inv_say used h o :
  (forall id, settles id [o] = []) -> hub_inv used h -> hub_inv used (say o h).
Proof.
  intros Ho []. constructor; cbn [say streams log]; try done.
  - intros id Hid. rewrite settles_app, Ho, app_nil_r. auto.
  - intros id s E Hs. rewrite settles_app, Ho, app_nil_r. eauto.
  - intros id Hid Hs. rewrite settles_app, Ho, app_nil_r. auto.
Qed.

Lemma hub_inv_send used h sb i : hub_inv used h -> hub_inv used (sendToSandbox sb i h).
Proof. intros I. unfold sendToSandbox. destruct (is_connected sb h); [by apply hub_inv_say|done]. Qed.

Lemma map_fst_set_stream id s h : map fst (streams (set_stream id s h)) = map fst (streams h).
Proof.
  unfold set_stream. cbn. induction (streams h) as [|[k x] l IH]; cbn; [done|].
  destruct (bool_decide_reflect (k = id)) as [->|]; cbn; by rewrite IH.
Qed.

Lemma count_set_stream sb id s s0 h :
  NoDup (map fst (streams h)) -> get id h = Some s0 -> sandboxId s = sandboxId s0 ->
  count sb (streams (set_stream id s h)) = count sb (streams h).
Proof.
  intros Hnd Hget%get_Some_elem Esb; [|done]. unfold count, set_stream. cbn. f_equal.
  assert (forall x, (id, x) ∈ streams h -> sandboxId x = sandboxId s) as Hx.
  { intros x Hx. assert ((id, x) = (id, s0)) as [= ->]; [|done].
    by apply (NoDup_fmap_elem_eq fst (streams h)). }
  clear Hnd Hget. induction (streams h) as [|[k x] l IH]; cbn; [done|].
  destruct (bool_decide_reflect (k = id)) as [->|]; cbn.
  - rewrite <- (Hx x) by (by left). destruct (bool_decide _); cbn; rewrite IH; try done;
      intros y Hy; apply Hx; by right.
  - destruct (bool_decide _); cbn; rewrite IH; try done; intros y Hy; apply Hx; by right.
Qed.

(** A stream replaced by one of the same sandbox, as answered as before. *)
Lemma hub_inv_set used h id s s0 :
  hub_inv used h -> get id h = Some s0 -> sandboxId s = sandboxId s0 -> settle s = settle s0 ->
  stream_ok s -> hub_inv used (set_stream id s h).
Proof.
  intros I Hget Esb Ese Hok.
  assert (forall id' s', get id' (set_stream id s h) = Some s' -> id' = id /\ s' = s \/ get id' h = Some s') as Hg.
  { intros id' s'. destruct (decide (id' = id)) as [->|Hne].
    - rewrite (get_set_stream_eq _ _ _ _ Hget). intros [= <-]. by left.
    - rewrite get_set_stream_ne by done. by right. }
  constructor.
  - rewrite map_fst_set_stream. apply I.
  - intros id' Hid. apply (hv_used _ _ I). destruct (get id' (set_stream id s h)) as [s'|] eqn:E; [|done].
    destruct (Hg id' s' E) as [[-> _]| ->]; [by rewrite Hget|done].
  - intros sb. rewrite (count_set_stream sb id s s0) by (done || apply I). apply (hv_count _ _ I).
  - apply (hv_cap _ _ I).
  - intros id' s' [[-> ->]|E]%Hg; [done|by apply (hv_streams _ _ I id')].
  - apply (hv_fresh _ _ I).
  - intros id' s' [[-> ->]|E]%Hg Hs; [by apply (hv_pending _ _ I id s0); [|congruence]|by apply (hv_pending _ _ I id' s')].
  - intros id' Hid Hs. apply (hv_settled _ _ I id' Hid). intros s' E'.
    destruct (decide (id' = id)) as [->|Hne].
    + rewrite <- (Hs s) by (by eapply get_set_stream_eq). congruence.
    + apply Hs. by rewrite get_set_stream_ne.
Qed.

Lemma count_remove sb id s (l : list (jsstr * HubStream)) :
  NoDup (map fst l) -> (id, s) ∈ l ->
  count sb (List.filter (fun e => negb (bool_decide (fst e = id))) l) +
    (if bool_decide (sandboxId s = sb) then 1 else 0) = count sb l.
Proof.
  unfold count. induction l as [|[k x] l IH]; cbn; [by intros _ ?%elem_of_nil|].
  intros [Hn Hl]%NoDup_cons [[= -> ->]|Hin]%elem_of_cons.
  - rewrite bool_decide_eq_true_2 by done. cbn.
    assert (List.filter (fun e => negb (bool_decide (fst e = k))) l = l) as ->.
    { apply filter_all. intros [k' x'] Hx. cbn. rewrite bool_decide_eq_false_2; [done|]. intros ->.
      apply Hn, elem_of_lmap. by exists (k, x'). }
    destruct (bool_decide (sandboxId x = sb)); cbn; lia.
  - assert (k <> id) as Hne by (intros ->; apply Hn, elem_of_lmap; by exists (id, s)).
    rewrite bool_decide_eq_false_2 by done. cbn. specialize (IH Hl Hin).
    destruct (bool_decide (sandboxId x = sb)); cbn [length]; lia.
Qed.

Lemma streams_drop id h s : get id h = Some s ->
  streams (drop id h) = List.filter (fun e => negb (bool_decide (fst e = id))) (streams h).
Proof. intros E. unfold drop. rewrite E. by destruct (0 <? _). Qed.

Lemma log_drop id h : log (drop id h) = log h.
Proof. unfold drop. destruct (get id h); [by destruct (0 <? _)|done]. Qed.

Lemma countFor_drop sb id h s :
  get id h = Some s ->
  countFor sb (drop id h) = countFor sb h - (if bool_decide (sandboxId s = sb) then 1 else 0).
Proof.
  intros E. unfold drop. rewrite E. unfold countFor. cbn.
  destruct (bool_decide_reflect (sandboxId s = sb)) as [<-|Hne].
  - destruct (N.ltb_spec 0 (default 0 (perSandbox h !! sandboxId s) - 1)); cbn.
    + by rewrite lookup_insert_eq.
    + rewrite lookup_delete_eq. cbn. lia.
  - destruct (0 <? _); cbn; [rewrite lookup_insert_ne by done|rewrite lookup_delete_ne by done]; lia.
Qed.

(** A stream leaves the map, answered. *)
Lemma hub_inv_drop used h h' id s outs :
  hub_inv used h -> get id h = Some s ->
  streams h' = streams (drop id h) -> perSandbox h' = perSandbox (drop id h) -> log h' = log h ++ outs ->
  (forall id', id' <> id -> settles id' outs = []) -> (exists r, settles id (log h') = [r]) ->
  hub_inv used h'.
Proof.
  intros I Hget Es Ec El Hout Hset.
  assert (forall id', get id' h' = get id' (drop id h)) as Eg by (intros id'; unfold get; by rewrite Es).
  assert (forall sb, countFor sb h' = countFor sb (drop id h)) as Ecf by (intros sb; unfold countFor; by rewrite Ec).
  assert (forall id' s', get id' h' = Some s' -> id' <> id /\ get id' h = Some s') as Hg.
  { intros id' s'. rewrite Eg. destruct (decide (id' = id)) as [->|]; [by rewrite get_drop_eq|].
    by rewrite get_drop_ne. }
  constructor.
  - rewrite Es, (streams_drop id h s Hget). pose proof (hv_keys _ _ I) as Hnd. revert Hnd. clear.
    induction (streams h) as [|[k x] l IH]; cbn; [done|]. intros [Hn Hl]%NoDup_cons.
    case_bool_decide; cbn; [auto|]. constructor; [|auto]. intros (e' & E & He')%elem_of_lmap.
    apply Hn, elem_of_lmap. exists e'. by apply elem_of_lfilter in He' as [? _].
  - intros id' Hid. apply (hv_used _ _ I). destruct (get id' h') as [s'|] eqn:E; [|done].
    destruct (Hg id' s' E) as [_ ->]. done.
  - intros sb. rewrite Ecf, (countFor_drop sb id h s Hget), Es, (streams_drop id h s Hget), (hv_count _ _ I).
    apply get_Some_elem in Hget; [|apply I].
    rewrite <- (count_remove sb id s (streams h) (hv_keys _ _ I) Hget). destruct (bool_decide _); lia.
  - intros sb. rewrite Ecf, (countFor_drop sb id h s Hget). pose proof (hv_cap _ _ I sb).
    destruct (bool_decide _); lia.
  - intros id' s' [_ E]%Hg. by apply (hv_streams _ _ I id').
  - intros id' Hid. rewrite El, settles_app, (hv_fresh _ _ I id' Hid), Hout; [done|].
    intros ->. apply Hid, (hv_used _ _ I). by rewrite Hget.
  - intros id' s' [Hne E]%Hg Hs. rewrite El, settles_app, Hout by done.
    by rewrite (hv_pending _ _ I id' s').
  - intros id' Hid Hs. destruct (decide (id' = id)) as [->|Hne]; [done|].
    rewrite El, settles_app, Hout, app_nil_r by done. apply (hv_settled _ _ I id' Hid).
    intros s' E. apply Hs. by rewrite Eg, get_drop_ne.
Qed.

(** An answered stream is destroyed. *)
Lemma hub_inv_destroy used h id :
  hub_inv used h -> (forall s, get id h = Some s -> settle s = false) -> hub_inv used (destroy id h).
Proof.
  intros I Hset. unfold destroy. destruct (get id h) as [s|] eqn:Hget; [|done].
  set (h1 := if opened s && _ then _ else h).
  assert (hub_inv used h1) as I1 by (subst h1; case_tests; [by apply hub_inv_send|done]).
  assert (get id h1 = Some s) as Hget1 by (subst h1; case_tests; by rewrite ?get_sendToSandbox).
  eapply (hub_inv_drop used h1 _ id s []); try done; [by rewrite app_nil_r, log_drop|].
  rewrite log_drop. apply (hv_settled _ _ I1 id); [apply (hv_used _ _ I1); by rewrite Hget1|].
  intros s'. rewrite Hget1. intros [= <-]. by apply Hset.
Qed.

Lemma get_destroy_eq id h : get id (destroy id h) = None.
Proof.
  unfold destroy. destruct (get id h) as [s|] eqn:E; [|done]. apply get_drop_eq.
Qed.

Lemma emits_inv used sb id items h :
  hub_inv used h -> (items <> [] -> forall s, get id h = Some s -> settle s = false) ->
  hub_inv used (fold_left (emit sb id) items h).
Proof.
  revert h. induction items as [|i items IH]; intros h I Hs; cbn; [done|]. unfold emit at 2.
  destruct (is_connected sb h); apply IH.
  - by apply hub_inv_say.
  - intros _. by apply Hs.
  - by apply hub_inv_destroy; [|apply Hs].
  - intros _ s. by rewrite get_destroy_eq.
Qed.

(** A method of a stream. *)
Lemma on_duplex_inv used h id f :
  hub_inv used h ->
  (forall s, get id h = Some s ->
    stream_ok (with_duplex (fst (f id (duplex s))) s) /\ (opened s = false -> snd (f id (duplex s)) = [])) ->
  hub_inv used (on_duplex id f h).
Proof.
  intros I Hf. unfold on_duplex. destruct (get id h) as [s|] eqn:Hget; [|done].
  destruct (Hf s eq_refl) as [Hok Hq]. destruct (f id (duplex s)) as [d items]. cbn [fst snd] in *.
  apply emits_inv; [by apply (hub_inv_set used h id _ s)|].
  intros Hne s'. rewrite (get_set_stream_eq _ _ _ _ Hget). intros [= <-]. cbn.
  rewrite (sk_settle _ (hv_streams _ _ I id s Hget)). destruct (opened s); [done|].
  by destruct (Hne (Hq eq_refl)).
Qed.

(** The pending open is answered, and its stream dropped. *)
Lemma reject_inv used h id s r :
  hub_inv used h -> get id h = Some s -> settle s = true -> hub_inv used (say (settled id r) (drop id h)).
Proof.
  intros I Hget Hs. eapply (hub_inv_drop used h _ id s [settled id r]); try done.
  - cbn. by rewrite log_drop.
  - intros id' Hne. cbn. by rewrite bool_decide_eq_false_2.
  - exists r. cbn [say log]. rewrite log_drop, settles_app, (hv_pending _ _ I id s Hget Hs). cbn.
    by rewrite bool_decide_eq_true_2.
Qed.

Lemma on_timeout_inv used h id :
  hub_inv used h -> (forall s, get id h = Some s -> settle s = true) -> hub_inv used (on_timeout id h).
Proof.
  intros I Hs. unfold on_timeout. destruct (get id h) as [s|] eqn:Hget; [|done].
  set (h1 := sendToSandbox _ _ (drop id h)).
  assert (exists outs, log h1 = log h ++ outs /\ forall id', settles id' outs = []) as (outs & El & Eo).
  { subst h1. unfold sendToSandbox. destruct (is_connected _ _); cbn; rewrite log_drop; eauto.
    exists []. by rewrite app_nil_r. }
  eapply (hub_inv_drop used h _ id s (outs ++ [settled id (Some timeout)])); try done.
  - cbn. subst h1. unfold sendToSandbox. by destruct (is_connected _ _).
  - cbn. subst h1. unfold sendToSandbox. by destruct (is_connected _ _).
  - cbn. by rewrite El, app_assoc.
  - intros id' Hne. rewrite settles_app, Eo. cbn. by rewrite bool_decide_eq_false_2.
  - exists (Some timeout). cbn [say log]. rewrite El, !settles_app, Eo, (hv_pending _ _ I id s Hget (Hs s eq_refl)). cbn.
    by rewrite bool_decide_eq_true_2.
Qed.

Lemma streams_track id s h : streams (track id s h) = streams h ++ [(id, s)].
Proof. done. Qed.

Lemma get_track id id' s h :
  get id h = None -> get id' (track id s h) = if decide (id' = id) then Some s else get id' h.
Proof.
  unfold get. rewrite streams_track. intros Hnone.
  assert (List.find (fun e => bool_decide (fst e = id)) (streams h) = None) as Hn
    by (by destruct (List.find _ (streams h))).
  clear Hnone. induction (streams h) as [|[k x] l IH]; cbn in *.
  - destruct (decide (id' = id)) as [->|]; [by rewrite bool_decide_eq_true_2|].
    by rewrite bool_decide_eq_false_2.
  - destruct (bool_decide_reflect (k = id)) as [|Hne]; [done|].
    destruct (bool_decide_reflect (k = id')) as [->|]; [by rewrite decide_False by done|by apply IH].
Qed.

(** A fresh stream is tracked; its open is pending. *)
Lemma track_inv used h id sb :
  hub_inv used h -> id ∉ used -> countFor sb h < maxStreams ->
  hub_inv (id :: used) (track id {| sandboxId := sb; duplex := new_duplex; opened := false; settle := true |} h).
Proof.
  intros I Hid Hcap. set (s := {| sandboxId := sb |}).
  assert (get id h = None) as Hnone.
  { destruct (get id h) eqn:E; [|done]. destruct Hid. apply (hv_used _ _ I). by rewrite E. }
  assert (forall sb', countFor sb' (track id s h) = countFor sb' h + if bool_decide (sb = sb') then 1 else 0) as Hc.
  { intros sb'. unfold countFor at 1, track. cbn. destruct (bool_decide_reflect (sb = sb')) as [<-|Hne].
    - by rewrite lookup_insert_eq.
    - rewrite lookup_insert_ne by done. unfold countFor. lia. }
  constructor.
  - rewrite streams_track, map_app. apply NoDup_app. split; [apply I|]. split; [|by apply NoDup_singleton].
    intros k ((k', x) & -> & Hin)%elem_of_lmap. cbn. intros ->%list_elem_of_singleton.
    apply get_Some_elem in Hin; [|apply I]. congruence.
  - intros id'. rewrite get_track by done. destruct (decide (id' = id)) as [->|]; [by left|].
    intros Hid'. right. by apply (hv_used _ _ I).
  - intros sb'. rewrite Hc, (hv_count _ _ I). unfold count. rewrite streams_track, List.filter_app, length_app.
    cbn. destruct (bool_decide (sb = sb')); cbn; lia.
  - intros sb'. rewrite Hc. destruct (bool_decide_reflect (sb = sb')) as [<-|]; [lia|].
    pose proof (hv_cap _ _ I sb'). lia.
  - intros id' s'. rewrite get_track by done. destruct (decide (id' = id)) as [->|].
    + intros [= <-]. constructor; cbn; try done; [apply new_duplex_ok|constructor].
    + apply (hv_streams _ _ I).
  - intros id' [Hne Hn]%not_elem_of_cons. by apply (hv_fresh _ _ I).
  - intros id' s'. rewrite get_track by done. destruct (decide (id' = id)) as [->|].
    + intros _ _. by apply (hv_fresh _ _ I).
    + apply (hv_pending _ _ I).
  - intros id' [->|Hin]%elem_of_cons Hs.
    + specialize (Hs s). rewrite get_track, decide_True in Hs by done. by specialize (Hs eq_refl).
    + apply (hv_settled _ _ I id' Hin). intros s' E. apply Hs. rewrite get_track by done.
      rewrite decide_False; [done|]. intros ->. congruence.
Qed.

(** A refusal answers an open that was never tracked. *)
Lemma hub_inv_refuse used h id r :
  hub_inv used h -> id ∉ used -> hub_inv (id :: used) (say (settled id r) h).
Proof.
  intros I Hid. assert (get id h = None) as Hnone.
  { destruct (get id h) eqn:E; [|done]. destruct Hid. apply (hv_used _ _ I). by rewrite E. }
  assert (forall id', id' <> id -> settles id' (log h ++ [settled id r]) = settles id' (log h)) as Hne.
  { intros id' Hne. rewrite settles_app. cbn. by rewrite bool_decide_eq_false_2, app_nil_r. }
  destruct I. constructor; cbn [say streams log]; try done.
  - intros id' Hid'. right. auto.
  - intros id' [Hn Hu]%not_elem_of_cons. rewrite Hne by done. auto.
  - intros id' s E Hs. rewrite Hne by (intros ->; unfold get in *; cbn in E; congruence). eauto.
  - intros id' [->|Hin]%elem_of_cons Hs.
    + exists r. rewrite settles_app, hv_fresh0 by done. cbn. by rewrite bool_decide_eq_true_2.
    + rewrite Hne by (by intros ->). by apply hv_settled0.
Qed.

Lemma open_inv used h id sb port :
  hub_inv used h -> id ∉ used -> hub_inv (id :: used) (open maxStreams id sb port h).
Proof.
  intros I Hid. unfold open. destruct (N.leb_spec maxStreams (countFor sb h)) as [|Hcap].
  { by apply hub_inv_refuse. }
  pose proof (track_inv used h id sb I Hid Hcap) as It. destruct (is_connected sb _).
  - by apply hub_inv_say.
  - eapply reject_inv; [done| |].
    + rewrite get_track; [by rewrite decide_True|].
      destruct (get id h) eqn:E; [|done]. destruct Hid. apply (hv_used _ _ I). by rewrite E.
    + done.
Qed.

Lemma on_deliver_inv used h id flowing b s :
  hub_inv used h -> get id h = Some s -> opened s = true ->
  hub_inv used (on_deliver hwm flowing id b h).
Proof.
  intros I Hget Ho. pose proof (hv_streams _ _ I id s Hget) as Hs.
  assert (settle s = false) as Hse by (rewrite (sk_settle _ Hs), Ho; done).
  unfold on_deliver. rewrite Hget.
  destruct (deliver hwm id flowing b (duplex s)) as [[[d out] items]|] eqn:Ed.
  2: { apply hub_inv_destroy; [done|]. intros s'. rewrite Hget. by intros [= <-]. }
  destruct (deliver_law hwm id flowing b (duplex s) d out items (sk_duplex _ Hs) (sk_pending _ Hs) Ed)
    as [[M1 _ _ M4 _ _] _].
  assert (stream_ok (with_duplex d s)) as Hok.
  { constructor; try done; [apply Hs|]. cbn. congruence. }
  pose proof (hub_inv_set used h id (with_duplex d s) s I Hget eq_refl eq_refl Hok) as I1.
  assert (forall s', get id (set_stream id (with_duplex d s) h) = Some s' -> settle s' = false) as Hse'.
  { intros s'. rewrite (get_set_stream_eq _ _ _ _ Hget). by intros [= <-]. }
  apply emits_inv; [|intros _ s'; case_tests; rewrite ?get_say; apply Hse'].
  case_tests; [by apply hub_inv_say|done].
Qed.

Lemma grant_inv used h id n : hub_inv used h -> hub_inv used (on_duplex id (fun id => grant id n) h).
Proof.
  intros I. apply on_duplex_inv; [done|]. intros s Hget. pose proof (hv_streams _ _ I id s Hget) as Hs.
  destruct (grant_law hwm id n (duplex s) (sk_duplex _ Hs) (sk_pending _ Hs)) as [M1 _ _ M4 _ _].
  assert (opened s = false -> snd (grant id n (duplex s)) = [] /\
    pendingWrite (fst (grant id n (duplex s))) = None) as Hq.
  { intros Ho. unfold grant. cbn. rewrite (sk_quiet _ Hs Ho). cbn. by rewrite (sk_quiet _ Hs Ho). }
  split; [|intros Ho; by apply Hq]. constructor; try done; [apply Hs|intros Ho; by apply Hq].
Qed.

Lemma handle_inv used h flowing from m : hub_inv used h -> hub_inv used (handle hwm flowing from m h).
Proof.
  intros I. unfold handle. destruct (get (message_stream m) h) as [s|] eqn:Hget; [|done].
  destruct (negb _); [done|]. pose proof (hv_streams _ _ I _ s Hget) as Hs.
  pose proof (sk_settle _ Hs) as Ese. destruct m as [id|id b|id n|id mode|id code]; cbn [message_stream] in *.
  - destruct (opened s) eqn:Ho, (settle s) eqn:Hset; cbn; try done.
    set (s' := {| opened := true |}).
    assert (forall id' s0, get id' (set_stream id s' h) = Some s0 -> id' = id /\ s0 = s' \/ id' <> id /\ get id' h = Some s0) as Hg.
    { intros id' s0. destruct (decide (id' = id)) as [->|Hne].
      - rewrite (get_set_stream_eq _ _ _ _ Hget). intros [= <-]. by left.
      - rewrite get_set_stream_ne by done. by right. }
    assert (forall id', id' <> id -> settles id' (log h ++ [settled id None]) = settles id' (log h)) as Hne.
    { intros id' Hne. rewrite settles_app. cbn. by rewrite bool_decide_eq_false_2, app_nil_r. }
    constructor; cbn [say log].
    + change (streams (say _ _)) with (streams (set_stream id s' h)). rewrite map_fst_set_stream. apply I.
    + intros id' Hid. apply (hv_used _ _ I).
      destruct (get id' (set_stream id s' h)) as [s0|] eqn:E; [|by rewrite get_say in Hid].
      destruct (Hg id' s0 E) as [[-> _]|[_ ->]]; [by rewrite Hget|done].
    + intros sb. change (streams (say _ _)) with (streams (set_stream id s' h)).
      rewrite (count_set_stream sb id s' s) by (done || apply I). apply (hv_count _ _ I).
    + apply (hv_cap _ _ I).
    + intros id' s0 [[-> ->]|[_ E]]%Hg; [|by apply (hv_streams _ _ I id')]. constructor; cbn; try done; apply Hs.
    + intros id' Hid. rewrite Hne; [by apply (hv_fresh _ _ I)|]. intros ->. apply Hid, (hv_used _ _ I). by rewrite Hget.
    + intros id' s0 [[-> ->]|[Hn E]]%Hg Hset'; [done|]. rewrite Hne by done. by apply (hv_pending _ _ I id' s0).
    + intros id' Hid Hset'. destruct (decide (id' = id)) as [->|Hn].
      * exists None. change (log (set_stream id s' h)) with (log h). rewrite settles_app, (hv_pending _ _ I id s Hget Hset). cbn. by rewrite bool_decide_eq_true_2.
      * rewrite Hne by done. apply (hv_settled _ _ I id' Hid). intros s0 E. apply Hset'.
        by rewrite get_say, get_set_stream_ne.
  - destruct (opened s) eqn:Ho; [|done]. by apply (on_deliver_inv used h id flowing _ s).
  - by apply grant_inv.
  - destruct (opened s) eqn:Ho; cbn [negb].
    + destruct Hs. assert (stream_ok (with_duplex (set_ended true (duplex s)) s)) as Hok1.
      { constructor; cbn; try done. by destruct sk_duplex0. }
      assert (stream_ok (with_duplex (set_eof true (set_ended true (duplex s))) s)) as Hok2.
      { constructor; cbn; try done. by destruct sk_duplex0. }
      destruct mode; [by apply (hub_inv_set used h id _ s)|].
      apply hub_inv_destroy; [by apply (hub_inv_set used h id _ s)|].
      intros s'. rewrite (get_set_stream_eq _ _ _ _ Hget). intros [= <-]. cbn in *. by rewrite Ese.
    + destruct (settle s) eqn:Hset; [|done]. by apply (reject_inv used h id s).
  - destruct (opened s) eqn:Ho, (settle s) eqn:Hset; cbn; try done. by apply (reject_inv used h id s).
Qed.

Lemma sandboxGone_inv used h sb : hub_inv used h -> hub_inv used (sandboxGone sb h).
Proof.
  unfold sandboxGone. generalize (streams h) as l. intros l. revert h.
  induction l as [|e l IH]; intros h I; cbn [fold_left]; [done|]. apply IH.
  destruct (get (fst e) h) as [s|] eqn:Hget; [|done]. destruct (negb _); [done|].
  destruct (settle s) eqn:Hset; [by apply (reject_inv used h (fst e) s)|].
  pose proof (hv_streams _ _ I _ s Hget) as Hs. apply hub_inv_destroy.
  - apply (hub_inv_set used h (fst e) _ s); try done. destruct Hs as [? [] ? ?]. by constructor.
  - intros s'. rewrite (get_set_stream_eq _ _ _ _ Hget). by intros [= <-].
Qed.

Lemma consume_inv used h id n :
  hub_inv used h -> hub_inv used (consume id n h).
Proof.
  intros I. unfold consume. destruct (get id h) as [s|] eqn:Hget; [|done].
  pose proof (hv_streams _ _ I _ s Hget) as Hs. apply hub_inv_say; [done|].
  apply (hub_inv_set used h id _ s); try done. destruct Hs as [? [] ? ?].
  assert (readableLength (set_buffered (list.drop n (buffered (duplex s))) (duplex s)) <= readableLength (duplex s)).
  { unfold readableLength. cbn. rewrite length_drop. lia. }
  constructor; try done. constructor; try done; cbn -[readableLength] in *; lia.
Qed.

(** The stream ids the hub drew. *)
Definition drawn (e : Event) : list jsstr := match e with h_open id _ _ => [id] | _ => [] end.
Definition drawn_ids (es : list Event) : list jsstr := flat_map drawn es.

Lemma run_inv used h e :
  hub_inv used h -> enabled hwm e h = true -> Forall (fun id => id ∉ used) (drawn e) ->
  hub_inv (drawn e ++ used) (run hwm maxStreams e h).
Proof.
  intros I He Hf.
  assert (forall id p, match get id h with Some s => p s | None => false end = true ->
    exists s, get id h = Some s /\ p s = true) as Hst by (intros id p; destruct (get id h); [eauto|done]).
  destruct e as [id sb port|flowing from m|sb ports|sb|sb|sb|id|id chunk|id|id n|id|id];
    cbn [run drawn app]; cbn [enabled] in He; cbv zeta beta in He.
  - apply Forall_cons_1 in Hf as [Hf _]. by apply open_inv.
  - by apply handle_inv.
  - by apply hub_inv_send.
  - by apply sandboxGone_inv.
  - destruct I. by constructor.
  - destruct I. by constructor.
  - apply on_timeout_inv; [done|]. apply Hst in He as (s & -> & He). by intros s' [= <-].
  - apply Hst in He as (s & Hget & He). to_prop. pose proof (hv_streams _ _ I id s Hget) as Hs.
    assert (pendingWrite (duplex s) = None) as Hp by (by destruct (pendingWrite (duplex s))).
    apply on_duplex_inv; [done|]. intros s'. rewrite Hget. intros [= <-].
    destruct (_write_law hwm id chunk (duplex s) (sk_duplex _ Hs) Hp) as [M1 _ _ M4 _ _]; [done|].
    split; [|congruence]. constructor; try done; [apply Hs|]. cbn. congruence.
  - apply Hst in He as (s & Hget & He). to_prop. pose proof (hv_streams _ _ I id s Hget) as Hs.
    apply on_duplex_inv; [done|]. intros s'. rewrite Hget. intros [= <-].
    destruct (_final_law hwm id (duplex s) (sk_duplex _ Hs) (sk_pending _ Hs)) as [M1 _ _ M4 _ _].
    split; [|congruence]. constructor; try done; [apply Hs|]. cbn. congruence.
  - by apply consume_inv.
  - apply Hst in He as (s & Hget & He). to_prop. pose proof (hv_streams _ _ I id s Hget) as Hs.
    assert (readableLength (duplex s) <= hwm) as Hl.
    { match goal with H : _ || _ = true |- _ => apply orb_true_iff in H as [?%N.ltb_lt|?%N.eqb_eq]; lia end. }
    apply on_duplex_inv; [done|]. intros s'. rewrite Hget. intros [= <-].
    destruct (_read_law hwm id (duplex s) (sk_duplex _ Hs) (sk_pending _ Hs) Hl) as [M1 _ _ M4 _ _].
    split; [|congruence]. constructor; try done; [apply Hs|]. cbn. congruence.
  - apply Hst in He as (s & Hget & He). apply hub_inv_destroy; [done|]. intros s'. rewrite Hget. intros [= <-].
    by rewrite (sk_settle _ (hv_streams _ _ I id s Hget)), He.
Qed.

Lemma trace_inv es h :
  trace hwm maxStreams es h -> NoDup (drawn_ids es) ->
  exists used, (forall id, id ∈ used <-> id ∈ drawn_ids es) /\ hub_inv used h.
Proof.
  induction 1 as [|es h e _ IH He]; [intros _; exists []; split; [done|apply hub_inv_nil]|].
  unfold drawn_ids. rewrite flat_map_app. cbn. rewrite app_nil_r. intros (Hnd & Hdis & _)%NoDup_app.
  destruct (IH Hnd) as (used & Hu & I). exists (drawn e ++ used). split.
  - intros id. rewrite !elem_of_app, Hu. unfold drawn_ids. tauto.
  - apply run_inv; [done..|]. apply Forall_forall. intros id Hin Hid. apply Hu in Hid. by apply (Hdis id).
Qed.
End Hub.

(** ** The fence between sandboxes *)

Section Fence.
Context `{NodeBase64}.
Variable from id : jsstr.

(** The stream a frame toward the supervisor names. *)
Definition item_stream (i : WorkItem) : option jsstr :=
  match i with
  | w_open id' _ | w_data id' _ | w_ack id' _ | w_close id' _ => Some id'
  | w_allow _ => None
  end.

(** What concerns the stream [id] of the sandbox [from]: a frame is sent to
    that sandbox and names that stream. *)
Definition concerns (o : Out) : Prop :=
  match o with
  | to_sandbox sb item => sb = from /\ item_stream item = Some id
  | settled id' _ | handed id' _ => id' = id
  end.

Definition names (i : WorkItem) : Prop := item_stream i = Some id.

Lemma _write_names chunk d : Forall names (snd (_write id chunk d)).
Proof.
  unfold _write. destruct (cut _ _) as [[c rest] parts]. case_tests; apply Forall_fmap, Forall_forall; by intros x _.
Qed.

Lemma grant_names n d : Forall names (snd (grant id n d)).
Proof. unfold grant. destruct (pendingWrite _) as [p|]; [case_tests; [apply _write_names|]|]; by constructor. Qed.

Lemma deliver_names hwm flowing b d d' out items :
  deliver hwm id flowing b d = Some (d', out, items) -> Forall names items.
Proof.
  unfold deliver. case_tests; [done|]. destruct (push _ _ _ _) as [[[d0 o] []]|]; cbn; [|intros [= <- <- <-]; by constructor|done].
  unfold _read. case_tests; intros [= <- <- <-]; by repeat constructor.
Qed.

(** From [h] to [h'] only the stream [id] of [from] was touched. *)
Record touches (h h' : PortHub) : Prop := {
  to_own s : get id h' = Some s -> sandboxId s = from;
  to_get id' : id' <> id -> get id' h' = get id' h;
  to_count sb : sb <> from -> countFor sb h' = countFor sb h;
  to_log : exists outs, log h' = log h ++ outs /\ Forall concerns outs;
}.

Definition owned (h : PortHub) : Prop := forall s, get id h = Some s -> sandboxId s = from.

Lemma touches_refl h : owned h -> touches h h.
Proof. intros Ho. constructor; try done. exists []. by rewrite app_nil_r. Qed.

Lemma touches_trans h h' h'' : touches h h' -> touches h' h'' -> touches h h''.
Proof.
  intros [? G1 C1 (o1 & E1 & F1)] [? G2 C2 (o2 & E2 & F2)]. constructor; [done|..].
  - intros id' Hne. by rewrite G2, G1.
  - intros sb Hne. by rewrite C2, C1.
  - exists (o1 ++ o2). rewrite E2, E1, app_assoc. split; [done|]. by apply Forall_app.
Qed.

Lemma touches_say h o : owned h -> concerns o -> touches h (say o h).
Proof. intros Ho Hc. constructor; try done. exists [o]. by repeat constructor. Qed.

Lemma touches_set h s s0 :
  get id h = Some s0 -> sandboxId s = from -> touches h (set_stream id s h).
Proof.
  intros E Es. constructor; try done.
  - intros s'. rewrite (get_set_stream_eq _ _ _ _ E). by intros [= <-].
  - intros id' Hne. by apply get_set_stream_ne.
  - exists []. by rewrite app_nil_r.
Qed.

Lemma touches_drop h : owned h -> touches h (drop id h).
Proof.
  intros Ho. constructor.
  - intros s. by rewrite get_drop_eq.
  - intros id' Hne. by apply get_drop_ne.
  - intros sb Hne. destruct (get id h) as [s|] eqn:E; [|unfold drop; by rewrite E].
    rewrite (countFor_drop sb id h s E), bool_decide_eq_false_2; [lia|]. rewrite (Ho s E). congruence.
  - exists []. by rewrite log_drop, app_nil_r.
Qed.

Lemma touches_destroy h : owned h -> touches h (destroy id h).
Proof.
  intros Ho. unfold destroy. destruct (get id h) as [s|] eqn:E; [|by apply touches_refl].
  eapply touches_trans; [|apply touches_drop].
  - case_tests; [|by apply touches_refl]. unfold sendToSandbox. case_tests; [|by apply touches_refl].
    apply touches_say; [done|]. split; [by apply Ho|done].
  - intros s'. case_tests; rewrite ?get_sendToSandbox, E; intros [= <-]; by apply Ho.
Qed.

Lemma touches_emits items h :
  Forall names items -> owned h -> touches h (fold_left (emit from id) items h).
Proof.
  intros Hn. revert h. induction Hn as [|i items Hi Hn IH]; intros h Ho; cbn; [by apply touches_refl|].
  assert (touches h (emit from id h i)) as Ht.
  { unfold emit. case_tests; [by apply touches_say|by apply touches_destroy]. }
  eapply touches_trans; [done|]. apply IH. intros s. apply (to_own _ _ Ht).
Qed.

Lemma touches_reject h r : owned h -> touches h (say (settled id r) (drop id h)).
Proof.
  intros Ho. eapply touches_trans; [by apply touches_drop|]. apply touches_say; [|done].
  intros s. by rewrite get_drop_eq.
Qed.

Lemma touches_duplex h f :
  (forall d, Forall names (snd (f id d))) -> owned h -> touches h (on_duplex id f h).
Proof.
  intros Hf Ho. unfold on_duplex. destruct (get id h) as [s|] eqn:E; [|by apply touches_refl].
  specialize (Hf (duplex s)). destruct (f id (duplex s)) as [d items]. rewrite (Ho s E).
  assert (touches h (set_stream id (with_duplex d s) h)) as Ht by (by apply (touches_set h _ s); [|exact (Ho s E)]).
  eapply touches_trans; [done|]. apply touches_emits; [done|]. intros s'. apply (to_own _ _ Ht).
Qed.

Lemma touches_deliver hwm h flowing b : owned h -> touches h (on_deliver hwm flowing id b h).
Proof.
  intros Ho. unfold on_deliver. destruct (get id h) as [s|] eqn:E; [|by apply touches_refl].
  destruct (deliver _ _ _ _ _) as [[[d out] items]|] eqn:Ed; [|by apply touches_destroy].
  apply deliver_names in Ed.
  rewrite (Ho s E).
  assert (touches h (set_stream id (with_duplex d s) h)) as Ht by (by apply (touches_set h _ s); [|exact (Ho s E)]).
  assert (touches h (if (0 <? length out)%nat then say (handed id out) (set_stream id (with_duplex d s) h)
    else set_stream id (with_duplex d s) h)) as Ht2.
  { case_tests; [|done]. eapply touches_trans; [done|]. apply touches_say; [|done]. intros s'. apply (to_own _ _ Ht). }
  eapply touches_trans; [done|]. apply touches_emits; [done|]. intros s'. apply (to_own _ _ Ht2).
Qed.

Lemma touches_handle hwm flowing m h :
  message_stream m = id -> owned h -> touches h (handle hwm flowing from m h).
Proof.
  intros Em Ho. unfold handle. rewrite Em. destruct (get id h) as [s|] eqn:E; [|by apply touches_refl].
  destruct (negb _); [by apply touches_refl|]. pose proof (Ho s E) as Es.
  assert (forall s', sandboxId s' = sandboxId s -> touches h (set_stream id s' h)) as Hset.
  { intros s' E'. apply (touches_set h s' s); congruence. }
  assert (forall s', sandboxId s' = sandboxId s -> owned (set_stream id s' h)) as Hown.
  { intros s' E' s0. apply (to_own _ _ (Hset s' E')). }
  destruct m; cbn in Em; subst; case_tests; try by apply touches_refl.
  - set (s' := {| opened := true |}). eapply touches_trans; [by apply (Hset s')|].
    apply touches_say; [by apply (Hown s')|done].
  - by apply touches_deliver.
  - apply touches_duplex; [|done]. intros d. apply grant_names.
  - by apply touches_reject.
  - by apply (Hset (with_duplex (set_eof true (set_ended true (duplex s))) s)).
  - set (s' := with_duplex (set_ended true (duplex s)) s).
    eapply touches_trans; [by apply (Hset s')|]. apply touches_destroy. by apply (Hown s').
  - by apply touches_reject.
Qed.
End Fence.

(** ** Properties *)

Section Properties.
Context `{NodeBase64}.
Variable hwm : N.
Variable maxStreams : N.

(** C37: Every [open] settles once. For each stream id drawn, at any point of
    any run: either its promise was settled exactly once, or it has not been
    settled, its stream is in the map with the timer running, and the timer's
    firing, possible at once, rejects it with [timeout], takes the stream out
    of the map, and sends the supervisor an abort of that stream first when its
    sandbox is connected, and nothing else. The ids drawn are distinct. *)
Theorem open_settles_once es h id :
  trace hwm maxStreams es h -> NoDup (drawn_ids es) -> id ∈ drawn_ids es ->
  (exists r, settles id (log h) = [r]) \/
  (exists s, get id h = Some s /\ settles id (log h) = [] /\ enabled hwm (h_timeout id) h = true /\
   let h' := run hwm maxStreams (h_timeout id) h in
   get id h' = None /\
   log h' = log h ++ (if is_connected (sandboxId s) h
                      then [to_sandbox (sandboxId s) (w_close id close_abort)] else []) ++
            [settled id (Some timeout)] /\
   settles id (log h') = [Some timeout]).
Proof.
  intros Htr Hnd Hid. destruct (trace_inv hwm maxStreams es h Htr Hnd) as (used & Hu & I).
  destruct (get id h) as [s|] eqn:Hget; [destruct (settle s) eqn:Hs|].
  - right. assert (settles id (log h) = []) as E by (by apply (hv_pending _ _ _ _ I id s)).
    exists s. split; [done|]. split; [done|]. cbn [run enabled]. unfold on_timeout. rewrite Hget.
    split; [done|]. cbn zeta. split; [rewrite get_say, get_sendToSandbox; apply get_drop_eq|].
    assert (is_connected (sandboxId s) (drop id h) = is_connected (sandboxId s) h) as Ec.
    { unfold is_connected, drop. rewrite Hget. by case_tests. }
    unfold sendToSandbox. rewrite Ec. set (sends := if is_connected (sandboxId s) h then _ else []).
    assert (log (say (settled id (Some timeout)) (if is_connected (sandboxId s) h
      then say (to_sandbox (sandboxId s) (w_close id close_abort)) (drop id h) else drop id h)) =
      log h ++ sends ++ [settled id (Some timeout)]) as El.
    { unfold sends. pose proof (log_drop id h) as El. revert El. generalize (drop id h). intros h0 El.
      destruct (is_connected (sandboxId s) h); cbn [say log]; rewrite El, <-?app_assoc; done. }
    rewrite El. split; [done|]. rewrite !settles_app, E. unfold sends.
    destruct (is_connected (sandboxId s) h); cbn; by rewrite bool_decide_eq_true_2.
  - left. apply (hv_settled _ _ _ _ I id); [by apply Hu|]. intros s'. rewrite Hget. by intros [= <-].
  - left. apply (hv_settled _ _ _ _ I id); [by apply Hu|]. by rewrite Hget.
Qed.

(** The cap and its count: the number the cap is checked against is, for
    every sandbox, the number of its streams in the map, and never exceeds the
    cap; ids are in the map once. *)
Theorem hub_counts es h :
  trace hwm maxStreams es h -> NoDup (drawn_ids es) ->
  NoDup (map fst (streams h)) /\
  forall sb, countFor sb h = count sb (streams h) /\ countFor sb h <= maxStreams.
Proof.
  intros Htr Hnd. destruct (trace_inv hwm maxStreams es h Htr Hnd) as (used & _ & I).
  split; [apply I|]. intros sb. split; [apply (hv_count _ _ _ _ I)|apply (hv_cap _ _ _ _ I)].
Qed.

(** The memory a stream takes in the runner, whatever frames its guest
    sends: the readable buffer stays within the high-water mark, one window
    and one chunk; the credit toward the guest within the window; and a write
    is held back only when the credit is spent. *)
Theorem hub_stream_bounds es h id s :
  trace hwm maxStreams es h -> NoDup (drawn_ids es) -> get id h = Some s ->
  readableLength (duplex s) <= hwm + PORT_STREAM_WINDOW_BYTES + PORT_CHUNK_RAW_BYTES /\
  credit (duplex s) <= PORT_STREAM_WINDOW_BYTES /\
  (forall p, pendingWrite (duplex s) = Some p -> p <> [] /\ credit (duplex s) = 0).
Proof.
  intros Htr Hnd Hget. destruct (trace_inv hwm maxStreams es h Htr Hnd) as (used & _ & I).
  destruct (sk_duplex _ _ (hv_streams _ _ _ _ I id s Hget)). by split_and!.
Qed.

(** C38: The fence: a frame is only ever acted on for the sandbox whose
    authenticated connection it came over. When it names a stream of another
    sandbox, nothing at all changes; and whatever it says, streams other than
    the one it names keep their state, other sandboxes keep their counts, and
    all that is sent, settled or handed out concerns that sandbox and that
    stream. *)
Theorem hub_fence flowing from m h :
  let h' := handle hwm flowing from m h in
  ((forall s, get (message_stream m) h = Some s -> sandboxId s <> from) -> h' = h) /\
  (forall id, id <> message_stream m -> get id h' = get id h) /\
  (forall sb, sb <> from -> countFor sb h' = countFor sb h) /\
  exists outs, log h' = log h ++ outs /\ Forall (concerns from (message_stream m)) outs.
Proof.
  cbn zeta. assert ((forall s, get (message_stream m) h = Some s -> sandboxId s <> from) ->
    handle hwm flowing from m h = h) as Hno.
  { intros Hf. unfold handle. destruct (get (message_stream m) h) as [s|] eqn:E; [|done].
    by rewrite bool_decide_eq_false_2 by (by apply Hf). }
  split; [done|]. destruct (get (message_stream m) h) as [s|] eqn:E.
  2: { rewrite Hno by done. split_and!; try done. exists []. by rewrite app_nil_r. }
  destruct (decide (sandboxId s = from)) as [Es|Hne].
  - assert (owned from (message_stream m) h) as Ho by (intros s'; rewrite E; by intros [= <-]).
    by destruct (touches_handle from (message_stream m) hwm flowing m h eq_refl Ho).
  - rewrite Hno by (by intros s' [= <-]). split_and!; try done. exists []. by rewrite app_nil_r.
Qed.
End Properties.

(** ** Concrete runs *)

Section Witnesses.
#[local] Existing Instance node_base64.

Fixpoint run_events (hwm maxStreams : N) (es : list Event) (h : PortHub) : option PortHub :=
  match es with
  | [] => Some h
  | e :: es => if enabled hwm e h then run_events hwm maxStreams es (run hwm maxStreams e h) else None
  end.

Lemma run_events_trace hwm maxStreams es0 es h h' :
  trace hwm maxStreams es0 h -> run_events hwm maxStreams es h = Some h' ->
  trace hwm maxStreams (es0 ++ es) h'.
Proof.
  revert es0 h. induction es as [|e es IH]; intros es0 h Htr; cbn.
  - intros [= ->]. by rewrite app_nil_r.
  - destruct (enabled hwm e h) eqn:He; [|done]. intros Hr. rewrite cons_middle, app_assoc.
    eapply IH; [|done]. by constructor.
Qed.

Definition witness_box : jsstr := js "box".

(** A request and its reply; a second open left pending; a third one over the
    cap of two. *)
Definition hub_witness_events : list Event :=
  [ h_connect witness_box; h_open (js "a") witness_box 3000; h_frame false witness_box (m_opened (js "a"));
    h_write (js "a") [71; 69; 84]; h_frame false witness_box (m_ack (js "a") 3);
    h_frame false witness_box (m_data (js "a") (js "T0s=")); h_consume (js "a") 1;
    h_open (js "b") witness_box 3001; h_open (js "c") witness_box 3002 ].

Definition witness_hub : PortHub :=
  default createPortHub (run_events 16384 2 hub_witness_events createPortHub).

Lemma hub_witness_trace : trace 16384 2 hub_witness_events witness_hub.
Proof. apply (run_events_trace _ _ [] _ createPortHub); [constructor|]. vm_compute. reflexivity. Qed.

Lemma hub_witness_fresh : NoDup (drawn_ids hub_witness_events).
Proof. apply (bool_decide_unpack _). vm_compute. reflexivity. Qed.

(** The pending open is still to be answered. *)
Lemma open_settles_once_witness :
  settles (js "a") (log witness_hub) = [None] /\
  settles (js "c") (log witness_hub) = [Some limit] /\
  settles (js "b") (log (run 16384 2 (h_timeout (js "b")) witness_hub)) = [Some timeout].
Proof.
  split; [vm_compute; reflexivity|]. split; [vm_compute; reflexivity|].
  destruct (open_settles_once 16384 2 hub_witness_events witness_hub (js "b") hub_witness_trace hub_witness_fresh)
    as [[r E]|(s & _ & _ & _ & _ & _ & E)].
  - apply (bool_decide_unpack _). vm_compute. reflexivity.
  - assert (settles (js "b") (log witness_hub) = []) as E' by (vm_compute; reflexivity). congruence.
  - exact E.
Defined.

Lemma hub_counts_witness :
  countFor witness_box witness_hub = 2 /\ countFor witness_box witness_hub = count witness_box (streams witness_hub).
Proof.
  split; [vm_compute; reflexivity|].
  exact (proj1 (proj2 (hub_counts 16384 2 hub_witness_events witness_hub hub_witness_trace hub_witness_fresh) witness_box)).
Defined.

Lemma hub_stream_bounds_witness :
  exists s, get (js "a") witness_hub = Some s /\ buffered (duplex s) = [75] /\
    readableLength (duplex s) <= 16384 + PORT_STREAM_WINDOW_BYTES + PORT_CHUNK_RAW_BYTES.
Proof.
  eexists. split; [vm_compute; reflexivity|]. split; [reflexivity|].
  refine (proj1 (hub_stream_bounds 16384 2 hub_witness_events witness_hub (js "a") _ hub_witness_trace hub_witness_fresh _)).
  vm_compute. reflexivity.
Defined.
End Witnesses.
