(* ===== verification/PortFlow.v ===== *)
(** * Port streams, end to end

    One open stream: the supervisor's half ([PortStreams]) and the runner's
    ([PortHub]) with the frames between them in two queues, each delivered in
    order. Two byte streams come out of it: what the guest's socket delivers
    reaches the relay's consumer, and what the relay writes reaches the guest's
    socket; and the two windows bound what is on the way. *)
From S2P Require Import Prelude JsBytes PortWire PortHub PortHubSpec PortStreams PortStreamsSpec.
Local Open Scope N_scope.

Section Pair.
Context `{NodeBase64}.
Variable hwm : N.
Variable id : jsstr.

(** Why the runner's half stopped. *)
Inductive Reset := by_window | by_guest | by_consumer.

(** The two halves, the frames on the way, and what each end gave and got. *)
Record Pair := {
  guest : Stream;
  relay : Hub.PortDuplex;
  toGuest : list WorkItem;
  toRunner : list SupervisorMessage;
  reset : option Reset;
  fromGuest : bytes;
  toConsumer : bytes;
  fromRelay : bytes;
}.

(** Both halves just after [port.opened]. *)
Definition start (port : N) : Pair :=
  {| guest := fst (on_connect id (new_stream port)); relay := Hub.new_duplex; toGuest := []; toRunner := [];
     reset := None; fromGuest := []; toConsumer := []; fromRelay := [] |}.

(** What the guest's socket does by itself. *)
Definition guest_event (op : Op) : Prop :=
  match op with
  | op_data _ | op_end | op_error _ | op_teardown _ | op_written _ | op_immediate => True
  | _ => False
  end.

(** What the supervisor does with a frame. *)
Definition op_of (i : WorkItem) : option Op :=
  match i with
  | w_data _ b => Some (op_write (from_base64 b))
  | w_ack _ n => Some (op_ack n)
  | w_close _ close_end => Some op_runnerEnd
  | w_close _ close_abort => Some (op_teardown false)
  | _ => None
  end.

Definition guest_acts (op : Op) (p : Pair) : Pair :=
  {| guest := fst (run_op op id (guest p)); relay := relay p; toGuest := toGuest p;
     toRunner := toRunner p ++ snd (run_op op id (guest p)); reset := reset p;
     fromGuest := fromGuest p ++ received op; toConsumer := toConsumer p; fromRelay := fromRelay p |}.

Definition relay_acts (r : Hub.PortDuplex * list WorkItem) (p : Pair) : Pair :=
  {| guest := guest p; relay := fst r; toGuest := toGuest p ++ snd r; toRunner := toRunner p;
     reset := reset p; fromGuest := fromGuest p; toConsumer := toConsumer p; fromRelay := fromRelay p |}.

Definition relay_takes (chunk : bytes) (p : Pair) : Pair :=
  {| guest := guest p; relay := relay p; toGuest := toGuest p; toRunner := toRunner p; reset := reset p;
     fromGuest := fromGuest p; toConsumer := toConsumer p; fromRelay := fromRelay p ++ chunk |}.

Definition consumer_gets (out : bytes) (p : Pair) : Pair :=
  {| guest := guest p; relay := relay p; toGuest := toGuest p; toRunner := toRunner p; reset := reset p;
     fromGuest := fromGuest p; toConsumer := toConsumer p ++ out; fromRelay := fromRelay p |}.

Definition with_toGuest (l : list WorkItem) (p : Pair) : Pair :=
  {| guest := guest p; relay := relay p; toGuest := l; toRunner := toRunner p; reset := reset p;
     fromGuest := fromGuest p; toConsumer := toConsumer p; fromRelay := fromRelay p |}.

Definition with_toRunner (l : list SupervisorMessage) (p : Pair) : Pair :=
  {| guest := guest p; relay := relay p; toGuest := toGuest p; toRunner := l; reset := reset p;
     fromGuest := fromGuest p; toConsumer := toConsumer p; fromRelay := fromRelay p |}.

(** The runner destroys its half: the guest hears of it unless it has ended. *)
Definition stop (why : Reset) (p : Pair) : Pair :=
  {| guest := guest p; relay := relay p;
     toGuest := toGuest p ++ (if Hub.ended (relay p) then [] else [w_close id close_abort]);
     toRunner := toRunner p; reset := Some why;
     fromGuest := fromGuest p; toConsumer := toConsumer p; fromRelay := fromRelay p |}.

(** What the hub does with a frame of an opened stream. *)
Definition runner_gets (flowing : bool) (m : SupervisorMessage) (p : Pair) : Pair :=
  match reset p, m with
  | None, m_data _ b =>
      match Hub.deliver hwm id flowing (from_base64 b) (relay p) with
      | None => stop by_window p
      | Some (d, out, items) => consumer_gets out (relay_acts (d, items) p)
      end
  | None, m_ack _ n => relay_acts (Hub.grant id n (relay p)) p
  | None, m_close _ close_end => relay_acts (Hub.set_eof true (Hub.set_ended true (relay p)), []) p
  | None, m_close _ close_abort => stop by_guest (relay_acts (Hub.set_ended true (relay p), []) p)
  | _, _ => p
  end.

Inductive step (p : Pair) : Pair -> Prop :=
  | st_guest op : guest_event op -> op_ok op (guest p) -> step p (guest_acts op p)
  | st_to_guest i l op : toGuest p = i :: l -> op_of i = Some op -> step p (guest_acts op (with_toGuest l p))
  | st_to_runner flowing m l : toRunner p = m :: l -> step p (runner_gets flowing m (with_toRunner l p))
  | st_write chunk :
      reset p = None -> Hub.finished (relay p) = false -> Hub.pendingWrite (relay p) = None ->
      is_bytes chunk -> step p (relay_takes chunk (relay_acts (Hub._write id chunk (relay p)) p))
  | st_final :
      reset p = None -> Hub.finished (relay p) = false -> Hub.pendingWrite (relay p) = None ->
      step p (relay_acts (Hub._final id (relay p)) p)
  | st_read :
      reset p = None -> Hub.eof (relay p) = false ->
      Hub.readableLength (relay p) < hwm \/ Hub.readableLength (relay p) = 0 ->
      step p (relay_acts (Hub._read id (relay p)) p)
  | st_consume n :
      reset p = None ->
      step p (consumer_gets (take n (Hub.buffered (relay p)))
        (relay_acts (Hub.set_buffered (list.drop n (Hub.buffered (relay p))) (relay p), []) p))
  | st_destroy : reset p = None -> step p (stop by_consumer p).

(** ** The invariant *)

(** The frames toward the guest, in order: data, then at most one end, acks
    anywhere. *)
Definition item_next (ended : bool) (i : WorkItem) : option bool :=
  match i with
  | w_data _ _ => if ended then None else Some false
  | w_close _ close_end => if ended then None else Some true
  | _ => Some ended
  end.

Fixpoint run_items (ended : bool) (l : list WorkItem) : option bool :=
  match l with
  | [] => Some ended
  | i :: l => e ← item_next ended i; run_items e l
  end.

Lemma run_items_app e l l' : run_items e (l ++ l') = e' ← run_items e l; run_items e' l'.
Proof.
  revert e. induction l as [|i l IH]; intros e; [done|]. cbn. destruct (item_next e i); [apply IH|done].
Qed.

Definition phase_at (d : Hub.PortDuplex) : Phase := if Hub.eof d then ph_ended else ph_open.

Record pair_inv (p : Pair) : Prop := {
  pi_guest : op_inv (guest p);
  pi_opened : opened (guest p) = true;
  pi_relay : duplex_ok hwm (relay p);
  pi_parked : is_bytes (parked_bytes (guest p));
  pi_pending : is_bytes (pending_bytes (relay p));
  pi_toGuest : Forall (item_ok id) (toGuest p);
  pi_toRunner : Forall frame_ok (toRunner p);
  pi_order : closed (guest p) = false -> run_items (runnerEnded (guest p)) (toGuest p) = Some (Hub.finished (relay p));
  pi_phase : reset p = None ->
    exists ph, run_phase (phase_at (relay p)) (toRunner p) = Some ph /\ at_phase (guest p) ph;
  pi_in : reset p = None ->
    fromGuest p = toConsumer p ++ Hub.buffered (relay p) ++ data_of (toRunner p) ++ parked_bytes (guest p);
  pi_out : closed (guest p) = false ->
    fromRelay p = concat (written (socket (guest p))) ++ items_data (toGuest p) ++ pending_bytes (relay p);
  pi_prefix : concat (written (socket (guest p))) `prefix_of` fromRelay p;
  pi_window_in : sendCredit (guest p) + N.of_nat (length (data_of (toRunner p))) +
    Hub.unackedOut (relay p) + items_acks (toGuest p) <= PORT_STREAM_WINDOW_BYTES;
  pi_window_out : Hub.credit (relay p) + N.of_nat (length (items_data (toGuest p))) +
    untaken (guest p) + unackedInbound (guest p) + acks_of (toRunner p) <= PORT_STREAM_WINDOW_BYTES;
  pi_final : Hub.finished (relay p) = true -> Hub.pendingWrite (relay p) = None;
  pi_reset : reset p <> Some by_window;
}.

(** A part of the invariant the step does not touch. *)
Ltac kept I :=
  first [ exact (pi_guest _ I)
        | exact (pi_opened _ I)
        | exact (pi_relay _ I)
        | exact (pi_parked _ I)
        | exact (pi_pending _ I)
        | exact (pi_toGuest _ I)
        | exact (pi_toRunner _ I)
        | exact (pi_order _ I)
        | exact (pi_phase _ I)
        | exact (pi_in _ I)
        | exact (pi_out _ I)
        | exact (pi_prefix _ I)
        | exact (pi_window_in _ I)
        | exact (pi_window_out _ I)
        | exact (pi_final _ I)
        | exact (pi_reset _ I) ].

Lemma start_inv port : pair_inv (start port).
Proof.
  constructor; cbn; try done; try (by constructor); try lia.
  - apply new_duplex_ok.
  - intros _. exists ph_open. split; [done|]. by right.
Qed.

(** The guest's half acts; [l] is what is left on the way to it. *)
Lemma guest_step p l op :
  pair_inv p -> op_ok op (guest p) -> is_bytes (received op) -> Forall (item_ok id) l ->
  window_grant op + items_acks l <= items_acks (toGuest p) ->
  N.of_nat (length (given op (guest p))) + N.of_nat (length (items_data l)) <=
    N.of_nat (length (items_data (toGuest p))) ->
  (closed (guest p) = true -> given op (guest p) = []) ->
  (closed (guest p) = false ->
    given op (guest p) ++ items_data l = items_data (toGuest p) /\
    run_items (match op with op_runnerEnd => true | _ => runnerEnded (guest p) end) l =
      Some (Hub.finished (relay p))) ->
  pair_inv (guest_acts op (with_toGuest l p)).
Proof.
  intros I Hok Hrec Hl Hw Hg Hcl Hop. pose proof (pi_guest _ I) as Hs.
  destruct (run_op_bytes op id (guest p) Hs Hok (pi_parked _ I) Hrec) as (B1 & B2 & B3 & B4 & B5).
  destruct (run_op_socket op id (guest p) Hs Hok) as (S1 & S2 & S3 & S4 & S5).
  pose proof (pi_window_in _ I). pose proof (pi_window_out _ I).
  constructor; cbn [guest_acts with_toGuest guest relay toGuest toRunner reset fromGuest toConsumer fromRelay];
    try kept I; try done.
  - by apply run_op_inv.
  - by apply S5, pi_opened.
  - apply Forall_app. split; [apply I|done].
  - intros Hc. destruct (S4 Hc) as [Hc0 ->]. by apply Hop.
  - intros Hr. destruct (pi_phase _ I Hr) as (ph & Hph & Hat).
    destruct (run_op_phase op id (guest p) ph Hs Hok Hat) as (ph' & Hph' & Hat').
    exists ph'. split; [|done]. by rewrite run_phase_app, Hph.
  - intros Hr. by rewrite (pi_in _ I Hr), data_of_app, <- !app_assoc, B1.
  - intros Hc. destruct (S4 Hc) as [Hc0 _]. destruct (Hop Hc0) as [Hd _].
    by rewrite (pi_out _ I Hc0), S1, <- Hd, <- !app_assoc.
  - rewrite S1. destruct (closed (guest p)) eqn:Hc.
    + rewrite Hcl, app_nil_r by done. apply I.
    + destruct (Hop eq_refl) as [Hd _]. rewrite (pi_out _ I Hc), <- Hd.
      exists (items_data l ++ pending_bytes (relay p)). by rewrite <- !app_assoc.
  - rewrite data_of_app, length_app. lia.
  - rewrite acks_of_app. lia.
Qed.

Lemma guest_event_step p op :
  pair_inv p -> guest_event op -> op_ok op (guest p) -> pair_inv (guest_acts op p).
Proof.
  intros I He Hok. assert (p = with_toGuest (toGuest p) p) as E by (by destruct p).
  rewrite E at 1. destruct op; try done; apply guest_step; try done; try kept I; cbn; try lia;
    try (by constructor); try (intros Hc; split; [done|by apply (pi_order _ I)]).
  apply Hok.
Qed.

Lemma frame_step p i l op :
  pair_inv p -> toGuest p = i :: l -> op_of i = Some op -> pair_inv (guest_acts op (with_toGuest l p)).
Proof.
  intros I E Ei. pose proof (pi_toGuest _ I) as Hall. rewrite E in Hall.
  apply Forall_cons_1 in Hall as [Hi Hl]. pose proof (pi_order _ I) as Hord. rewrite E in Hord.
  assert (forall op', op_ok op' (guest p) -> is_bytes (received op') ->
    window_grant op' <= item_grant i ->
    (closed (guest p) = true -> given op' (guest p) = []) ->
    (closed (guest p) = false -> given op' (guest p) = item_payload i /\
      run_items (match op' with op_runnerEnd => true | _ => runnerEnded (guest p) end) l =
        Some (Hub.finished (relay p))) ->
    pair_inv (guest_acts op' (with_toGuest l p))) as Hgo.
  { intros op' Hok Hrec Hw Hcl Hop. apply guest_step; try done; rewrite ?E; cbn -[items_acks items_data].
    - change (items_acks (i :: l)) with (item_grant i + items_acks l). lia.
    - change (items_data (i :: l)) with (item_payload i ++ items_data l). rewrite length_app.
      destruct (closed (guest p)); [rewrite Hcl by done; cbn; lia|destruct Hop as [-> _]; [done|lia]].
    - change (items_data (i :: l)) with (item_payload i ++ items_data l).
      intros Hc. by destruct (Hop Hc) as [-> Hop2]. }
  clear E. destruct i as [id' port|id' b|id' n|id' [|]|ports]; cbn in Ei; simplify_eq; apply Hgo; try done;
    try (by constructor); cbn.
  - by intros ->.
  - intros Hc. specialize (Hord Hc). cbn in Hord. rewrite Hc, (pi_opened _ I). cbn.
    by destruct (runnerEnded (guest p)).
  - intros Hc. by specialize (Hord Hc).
  - intros Hc. specialize (Hord Hc). cbn in Hord. by destruct (runnerEnded (guest p)).
  - intros Hc. by specialize (Hord Hc).
Qed.

(** The runner's half acts: what it sends, hands out and is written, and [l],
    what is left on the way to it. *)
Lemma relay_step p received granted taken d items l out :
  pair_inv p -> reset p = None ->
  method_law hwm id received granted taken (relay p) d items ->
  Forall frame_ok l ->
  granted + acks_of l <= acks_of (toRunner p) ->
  received + N.of_nat (length (data_of l)) <= N.of_nat (length (data_of (toRunner p))) ->
  Hub.buffered (relay p) ++ data_of (toRunner p) = out ++ Hub.buffered d ++ data_of l ->
  run_items (Hub.finished (relay p)) items = Some (Hub.finished d) ->
  (Hub.finished d = true -> Hub.pendingWrite d = None) ->
  (forall ph, run_phase (phase_at (relay p)) (toRunner p) = Some ph -> run_phase (phase_at d) l = Some ph) ->
  pair_inv (relay_takes taken (consumer_gets out (relay_acts (d, items) (with_toRunner l p)))).
Proof.
  intros I Hr [M1 M2 M3 M4 M5 M6] Hl Ha Hd Hin Hit Hfin Hph.
  pose proof (pi_window_in _ I). pose proof (pi_window_out _ I).
  pose proof (f_equal length M3) as Hlen. rewrite !length_app in Hlen.
  constructor; cbn [relay_takes consumer_gets relay_acts with_toRunner guest relay toGuest toRunner reset
      fromGuest toConsumer fromRelay fst snd]; try kept I; try done.
  - apply Forall_app. split; [apply I|done].
  - intros Hc. by rewrite run_items_app, (pi_order _ I Hc).
  - intros _. destruct (pi_phase _ I Hr) as (ph & Hp & Hat). eauto.
  - intros _. rewrite (pi_in _ I Hr), <- app_assoc. f_equal.
    rewrite app_assoc, Hin, <- !app_assoc. done.
  - intros Hc. rewrite (pi_out _ I Hc), items_data_app, <- !app_assoc. by rewrite <- M3.
  - destruct (pi_prefix _ I) as [k ->]. exists (k ++ taken). by rewrite app_assoc.
  - rewrite items_acks_app. lia.
  - rewrite items_data_app, length_app. lia.
Qed.

(** Stopped, the runner's half only takes frames off the queue. *)
Lemma pop_step p l :
  pair_inv p -> reset p <> None -> Forall frame_ok l -> acks_of l <= acks_of (toRunner p) ->
  N.of_nat (length (data_of l)) <= N.of_nat (length (data_of (toRunner p))) ->
  pair_inv (with_toRunner l p).
Proof.
  intros I Hr Hl Ha Hd. pose proof (pi_window_in _ I). pose proof (pi_window_out _ I).
  constructor; cbn [with_toRunner guest relay toGuest toRunner reset fromGuest toConsumer fromRelay];
    try kept I; try done; lia.
Qed.

Lemma stop_step p why : pair_inv p -> why <> by_window -> pair_inv (stop why p).
Proof.
  intros I Hw. pose proof (pi_window_in _ I). pose proof (pi_window_out _ I).
  set (more := if Hub.ended (relay p) then [] else [w_close id close_abort]).
  assert (Forall (item_ok id) more /\ items_data more = [] /\ items_acks more = 0 /\
    forall e, run_items e more = Some e) as (F1 & F2 & F3 & F4).
  { subst more. destruct (Hub.ended (relay p)); [done|]. split_and!; try done. by repeat constructor. }
  constructor; cbn [stop guest relay toGuest toRunner reset fromGuest toConsumer fromRelay]; fold more;
    try kept I; try done.
  - apply Forall_app. split; [apply I|done].
  - intros Hc. rewrite run_items_app, (pi_order _ I Hc). apply F4.
  - intros Hc. by rewrite (pi_out _ I Hc), items_data_app, F2, app_nil_r.
  - rewrite items_acks_app, F3. lia.
  - rewrite items_data_app, F2, app_nil_r. lia.
  - congruence.
Qed.

(** The data frame at the head of the queue fits, and comes before the end. *)
Lemma deliver_fits p flowing b l sid :
  pair_inv p -> reset p = None -> toRunner p = m_data sid b :: l ->
  exists r, Hub.deliver hwm id flowing (from_base64 b) (relay p) = Some r.
Proof.
  intros I Hr E. destruct (pi_phase _ I Hr) as (ph & Hph & _). rewrite E in Hph.
  assert (Hub.eof (relay p) = false) as Heof by (unfold phase_at in Hph; by destruct (Hub.eof (relay p))).
  pose proof (pi_window_in _ I) as Hw. rewrite E in Hw.
  change (data_of (m_data sid b :: l)) with (from_base64 b ++ data_of l) in Hw. rewrite length_app in Hw.
  pose proof (dk_buffer _ _ (pi_relay _ I)) as Hb.
  unfold Hub.deliver. set (len := N.of_nat (length (from_base64 b))) in *.
  set (d1 := Hub.set_unackedOut _ _).
  assert (Hub.readableLength d1 = Hub.readableLength (relay p)) as El by done.
  destruct (N.ltb_spec (hwm + PORT_STREAM_WINDOW_BYTES + PORT_CHUNK_RAW_BYTES) (Hub.readableLength d1 + len))
    as [Hlt|_]; [lia|].
  unfold Hub.push. change (Hub.eof d1) with (Hub.eof (relay p)). rewrite Heof.
  destruct (flowing && _); cbn [mbind option_bind].
  - destruct (Hub._read id d1). eauto.
  - destruct (_ || _); [|eauto]. destruct (Hub._read _ _). eauto.
Qed.

Lemma method_id d d' :
  duplex_ok hwm d -> is_bytes (pending_bytes d) -> Hub.credit d' = Hub.credit d ->
  Hub.unackedOut d' = Hub.unackedOut d -> Hub.pendingWrite d' = Hub.pendingWrite d ->
  Hub.readableLength d' <= Hub.readableLength d -> method_law hwm id 0 0 [] d d' [].
Proof.
  intros [] Hb E1 E2 E3 E4. unfold pending_bytes in *.
  constructor; unfold pending_bytes; rewrite ?E3, ?app_nil_r; cbn; try done; try lia.
  constructor; rewrite ?E1, ?E2, ?E3; try done; lia.
Qed.

Lemma relay_state p : consumer_gets [] p = p.
Proof. destruct p. unfold consumer_gets. cbn. by rewrite app_nil_r. Qed.
Lemma relay_takes_nil p : relay_takes [] p = p.
Proof. destruct p. unfold relay_takes. cbn. by rewrite app_nil_r. Qed.
Lemma with_toRunner_id p : with_toRunner (toRunner p) p = p.
Proof. by destruct p. Qed.

Lemma data_of_cons m l : data_of (m :: l) = payload m ++ data_of l.
Proof. done. Qed.
Lemma acks_of_cons m l : acks_of (m :: l) = granted m + acks_of l.
Proof. done. Qed.

Lemma run_items_data parts :
  run_items false (map (fun p => w_data id (to_base64 p)) parts) = Some false.
Proof. by induction parts. Qed.

(** The runner's half acts by itself. *)
Lemma relay_acts_step p granted taken d items out :
  pair_inv p -> reset p = None -> method_law hwm id 0 granted taken (relay p) d items -> granted = 0 ->
  Hub.buffered (relay p) = out ++ Hub.buffered d ->
  run_items (Hub.finished (relay p)) items = Some (Hub.finished d) ->
  (Hub.finished d = true -> Hub.pendingWrite d = None) -> Hub.eof d = Hub.eof (relay p) ->
  pair_inv (relay_takes taken (consumer_gets out (relay_acts (d, items) p))).
Proof.
  intros I Hr M -> Hin Hit Hf He.
  pose proof (relay_step p 0 0 taken d items (toRunner p) out I Hr M (pi_toRunner _ I)) as Hs.
  rewrite with_toRunner_id in Hs. apply Hs; try done.
  - by rewrite Hin, <- app_assoc.
  - unfold phase_at. by rewrite He.
Qed.

Lemma relay_quiet_step p d items :
  pair_inv p -> reset p = None -> method_law hwm id 0 0 [] (relay p) d items ->
  Hub.buffered (relay p) = Hub.buffered d ->
  run_items (Hub.finished (relay p)) items = Some (Hub.finished d) ->
  (Hub.finished d = true -> Hub.pendingWrite d = None) -> Hub.eof d = Hub.eof (relay p) ->
  pair_inv (relay_acts (d, items) p).
Proof.
  intros I Hr M Hin Hit Hf He. rewrite <- (relay_takes_nil (relay_acts _ _)), <- (relay_state (relay_acts _ _)).
  by apply (relay_acts_step p 0).
Qed.

(** Granting: nothing about the end changes, and after it nothing is sent. *)
Lemma grant_state n d :
  (Hub.finished d = true -> Hub.pendingWrite d = None) ->
  let r := Hub.grant id n d in
  Hub.buffered (fst r) = Hub.buffered d /\ Hub.eof (fst r) = Hub.eof d /\
  Hub.finished (fst r) = Hub.finished d /\ run_items (Hub.finished d) (snd r) = Some (Hub.finished d) /\
  (Hub.finished d = true -> Hub.pendingWrite (fst r) = None).
Proof.
  intros Hf. unfold Hub.grant. cbn. destruct (Hub.pendingWrite d) as [p|] eqn:Ep; [|by split_and!].
  assert (Hub.finished d = false) as Ef by (destruct (Hub.finished d); [by specialize (Hf eq_refl)|done]).
  rewrite Ef. case_tests; [|by split_and!]. unfold Hub._write.
  destruct (cut _ _) as [[c rest] parts]. pose proof (run_items_data parts).
  case_tests; cbn; by split_and!.
Qed.

Lemma runner_gets_step p flowing m l :
  pair_inv p -> toRunner p = m :: l -> pair_inv (runner_gets flowing m (with_toRunner l p)).
Proof.
  intros I E. pose proof (pi_toRunner _ I) as Hall. rewrite E in Hall.
  apply Forall_cons_1 in Hall as [Hm Hl].
  assert (forall p', pair_inv p' -> toRunner p' = m :: l -> reset p' <> None -> pair_inv (with_toRunner l p')) as Hpop.
  { intros p' I' E' Hr. apply pop_step; try done; rewrite E', ?acks_of_cons, ?data_of_cons, ?length_app; lia. }
  unfold runner_gets. cbn [with_toRunner reset relay]. destruct (reset p) as [r|] eqn:Hr.
  { apply Hpop; [done|done|by rewrite Hr]. }
  destruct (pi_phase _ I Hr) as (ph & Hph & _). rewrite E in Hph.
  pose proof (pi_relay _ I) as Hd. pose proof (pi_pending _ I) as Hb.
  destruct m as [sid|sid b|sid n|sid [|]|sid code].
  - exfalso. unfold phase_at in Hph. by destruct (Hub.eof (relay p)).
  - destruct (deliver_fits p flowing b l sid I Hr E) as [[[d out] items] Edel]. rewrite Edel.
    destruct (deliver_law hwm id flowing _ _ _ _ _ Hd Hb Edel) as (M & Eb & Ee & _ & Ef & Hit & Ep).
    rewrite <- (relay_takes_nil (consumer_gets _ _)).
    apply (relay_step p (N.of_nat (length (from_base64 b))) 0 [] d items l out); try done;
      rewrite ?E, ?acks_of_cons, ?data_of_cons, ?length_app; cbn [payload granted]; try lia.
    + by rewrite app_assoc, Eb, <- app_assoc.
    + rewrite Ef. by destruct Hit as [->|[n ->]].
    + rewrite Ef, Ep. apply (pi_final _ I).
    + unfold phase_at. rewrite Ee. intros ph0 Hp. by destruct (Hub.eof (relay p)).
  - rewrite <- (relay_takes_nil (relay_acts _ _)), <- (relay_state (relay_acts _ _)).
    pose proof (grant_law hwm id n (relay p) Hd Hb) as M.
    destruct (grant_state n (relay p) (pi_final _ I)) as (F1 & F2 & F3 & F4 & F5).
    destruct (Hub.grant id n (relay p)) as [d items]. cbn [fst snd] in *.
    apply (relay_step p 0 n [] d items l []); try done;
      rewrite ?E, ?acks_of_cons, ?data_of_cons, ?F1, ?F3; cbn [payload granted app]; try lia; try done.
    unfold phase_at. rewrite F2. intros ph0 Hp. by destruct (Hub.eof (relay p)).
  - rewrite <- (relay_takes_nil (relay_acts _ _)), <- (relay_state (relay_acts _ _)).
    apply (relay_step p 0 0 [] _ [] l []); try done;
      rewrite ?E, ?acks_of_cons, ?data_of_cons; cbn [payload granted app]; try lia; try done.
    + by apply method_id.
    + apply (pi_final _ I).
    + unfold phase_at in *. cbn. by destruct (Hub.eof (relay p)).
  - set (d := Hub.set_ended true (relay p)).
    assert (pair_inv (relay_acts (d, []) p)) as I1.
    { apply relay_quiet_step; try done; [by apply method_id|apply (pi_final _ I)]. }
    apply (Hpop (stop by_guest (relay_acts (d, []) p))); [by apply stop_step|done|done].
  - exfalso. unfold phase_at in Hph. by destruct (Hub.eof (relay p)).
Qed.

Lemma step_inv p p' : step p p' -> pair_inv p -> pair_inv p'.
Proof.
  intros Hst I. pose proof (pi_relay _ I) as Hd. pose proof (pi_pending _ I) as Hb.
  destruct Hst as [op He Hok|i l op E Eo|flowing m l E|chunk Hr Hf Hp Hc|Hr Hf Hp|Hr He Hl|n Hr|Hr].
  - by apply guest_event_step.
  - by apply (frame_step p i).
  - by apply runner_gets_step.
  - pose proof (_write_law hwm id chunk (relay p) Hd Hp Hc) as M.
    assert (Hub.buffered (fst (Hub._write id chunk (relay p))) = Hub.buffered (relay p) /\
      Hub.eof (fst (Hub._write id chunk (relay p))) = Hub.eof (relay p) /\
      Hub.finished (fst (Hub._write id chunk (relay p))) = false /\
      run_items false (snd (Hub._write id chunk (relay p))) = Some false) as (F1 & F2 & F3 & F4).
    { unfold Hub._write. destruct (cut _ _) as [[c rest] parts]. pose proof (run_items_data parts).
      case_tests; cbn; by split_and!. }
    destruct (Hub._write id chunk (relay p)) as [d items]. cbn [fst snd] in *.
    rewrite <- (relay_state (relay_acts _ _)). apply (relay_acts_step p 0); try done; rewrite ?F3, ?Hf; done.
  - cbn [Hub._final]. apply relay_quiet_step; try done; [by apply (_final_law hwm id)|by rewrite Hf].
  - assert (Hub.readableLength (relay p) <= hwm) as Hle by lia.
    pose proof (_read_law hwm id (relay p) Hd Hb Hle) as M. pose proof (pi_final _ I) as Hfin.
    assert (exists d items, Hub._read id (relay p) = (d, items) /\ Hub.buffered d = Hub.buffered (relay p) /\
      Hub.eof d = Hub.eof (relay p) /\ Hub.finished d = Hub.finished (relay p) /\
      Hub.pendingWrite d = Hub.pendingWrite (relay p) /\
      forall f, run_items f items = Some f) as (d & items & E & F1 & F2 & F3 & F4 & F5).
    { unfold Hub._read. case_tests; cbn; eauto 10. }
    rewrite E in *. apply relay_quiet_step; try done; rewrite ?F3, ?F4; done.
  - rewrite <- (relay_takes_nil (consumer_gets _ _)). apply (relay_acts_step p 0); try done; try apply (pi_final _ I).
    + apply method_id; try done. unfold Hub.readableLength. cbn. rewrite length_drop. lia.
    + cbn. by rewrite take_drop.
  - by apply stop_step.
Qed.
End Pair.

(** ** Properties *)

Lemma reachable_inv `{NodeBase64} hwm id port p : rtc (step hwm id) (start id port) p -> pair_inv hwm id p.
Proof.
  intros Hr. remember (start id port) as p0 eqn:E. assert (pair_inv hwm id p0) as I by (subst; apply start_inv).
  clear E. induction Hr as [|p0 p1 p2 Hst _ IH]; [done|]. by apply IH, (step_inv hwm id p0).
Qed.

(** C11: The two halves are two byte streams. In every interleaving of the
    guest, the relay, its consumer and the delivery of frames: until the
    runner's half stops, what the guest's socket delivered is, in order,
    without loss or repetition, what the consumer got, what is buffered for
    it, what is on the way and what is parked; and what the guest's socket was
    given is always a prefix of what the relay wrote, the rest of which, while
    the stream is up, is on the way or held back. *)
Theorem port_pair_integrity `{NodeBase64} hwm id port p :
  rtc (step hwm id) (start id port) p ->
  (reset p = None ->
    fromGuest p = toConsumer p ++ Hub.buffered (relay p) ++ data_of (toRunner p) ++ parked_bytes (guest p)) /\
  concat (written (socket (guest p))) `prefix_of` fromRelay p /\
  (closed (guest p) = false ->
    fromRelay p = concat (written (socket (guest p))) ++ items_data (toGuest p) ++ pending_bytes (relay p)).
Proof. intros Hr. destruct (reachable_inv hwm id port p Hr). by split_and!. Qed.

(** C29: The windows hold end to end. At every point: the bytes on the way to
    the runner and those it has not acknowledged, with the credit the
    supervisor has left, are at most one window, and likewise the bytes on the
    way to the guest and those its socket has not taken; so the runner's
    buffer is at most its high-water mark and a window, and the runner never
    cuts a stream of an unmodified supervisor for exceeding the window. *)
Theorem port_pair_windows `{NodeBase64} hwm id port p :
  rtc (step hwm id) (start id port) p ->
  sendCredit (guest p) + N.of_nat (length (data_of (toRunner p))) + Hub.unackedOut (relay p) +
    items_acks (toGuest p) <= PORT_STREAM_WINDOW_BYTES /\
  Hub.credit (relay p) + N.of_nat (length (items_data (toGuest p))) + untaken (guest p) +
    unackedInbound (guest p) + acks_of (toRunner p) <= PORT_STREAM_WINDOW_BYTES /\
  Hub.readableLength (relay p) <= hwm + PORT_STREAM_WINDOW_BYTES /\
  reset p <> Some by_window.
Proof.
  intros Hr. destruct (reachable_inv hwm id port p Hr). split_and!; try done.
  pose proof (dk_buffer _ _ pi_relay0). lia.
Qed.

(** ** Concrete runs *)

Section Witnesses.
#[local] Existing Instance node_base64.

Definition witness_id : jsstr := js "s1".

(** A request, its ack, a reply, and the consumer reads half of it. *)
Definition w0 : Pair := start witness_id 3000.
Definition w1 : Pair := relay_takes [71; 69; 84] (relay_acts (Hub._write witness_id [71; 69; 84] (relay w0)) w0).
Definition w2 : Pair := guest_acts witness_id (op_write (from_base64 (js "R0VU"))) (with_toGuest [] w1).
Definition w3 : Pair := guest_acts witness_id (op_written false) w2.
Definition w4 : Pair := guest_acts witness_id op_immediate w3.
Definition w5 : Pair := runner_gets 16384 witness_id false (m_ack witness_id 3) (with_toRunner [] w4).
Definition w6 : Pair := guest_acts witness_id (op_data [79; 75]) w5.
Definition w7 : Pair := runner_gets 16384 witness_id false (m_data witness_id (js "T0s=")) (with_toRunner [] w6).
Definition w8 : Pair := consumer_gets (take 1 (Hub.buffered (relay w7)))
  (relay_acts (Hub.set_buffered (list.drop 1 (Hub.buffered (relay w7))) (relay w7), []) w7).

Lemma witness_run : rtc (step 16384 witness_id) w0 w8.
Proof.
  apply (rtc_l _ _ w1); [apply st_write; try (vm_compute; reflexivity); by repeat constructor|].
  apply (rtc_l _ _ w2); [apply (st_to_guest _ _ _ (w_data witness_id (js "R0VU"))); vm_compute; reflexivity|].
  apply (rtc_l _ _ w3); [apply st_guest; [done|split; [apply (bool_decide_unpack _); vm_compute; reflexivity|done]]|].
  apply (rtc_l _ _ w4); [apply st_guest; vm_compute; reflexivity|].
  apply (rtc_l _ _ w5); [apply st_to_runner; vm_compute; reflexivity|].
  apply (rtc_l _ _ w6); [apply st_guest; [done|by split_and!; try (vm_compute; reflexivity); repeat constructor]|].
  apply (rtc_l _ _ w7); [apply st_to_runner; vm_compute; reflexivity|].
  apply (rtc_l _ _ w8); [apply st_consume; vm_compute; reflexivity|]. apply rtc_refl.
Qed.

Lemma port_pair_integrity_witness :
  fromGuest w8 = [79; 75] /\ toConsumer w8 = [79] /\
  fromGuest w8 = toConsumer w8 ++ Hub.buffered (relay w8) ++ data_of (toRunner w8) ++ parked_bytes (guest w8) /\
  concat (written (socket (guest w8))) `prefix_of` fromRelay w8.
Proof.
  split; [vm_compute; reflexivity|]. split; [vm_compute; reflexivity|].
  destruct (port_pair_integrity 16384 witness_id 3000 w8 witness_run) as (Hin & Hpre & _).
  split; [apply Hin; vm_compute; reflexivity|exact Hpre].
Defined.

Lemma port_pair_windows_witness :
  Hub.readableLength (relay w8) = 1 /\
  Hub.readableLength (relay w8) <= 16384 + PORT_STREAM_WINDOW_BYTES /\ reset w8 <> Some by_window.
Proof.
  split; [vm_compute; reflexivity|].
  exact (proj2 (proj2 (port_pair_windows 16384 witness_id 3000 w8 witness_run))).
Defined.

(** A consumer that goes away after the guest's end, with its own side still
    open: the runner sends nothing, and the supervisor keeps the stream, half
    closed. *)
Lemma abandoned_half_closed :
  exists p, rtc (step 16384 witness_id) (start witness_id 3000) p /\
    reset p = Some by_consumer /\ toGuest p = [] /\ toRunner p = [] /\
    closed (guest p) = false /\ guestEndSent (guest p) = true /\ runnerEnded (guest p) = false.
Proof.
  set (p1 := guest_acts witness_id op_end w0).
  set (p2 := runner_gets 16384 witness_id false (m_close witness_id close_end) (with_toRunner [] p1)).
  exists (stop witness_id by_consumer p2). split.
  - apply (rtc_l _ _ p1); [apply st_guest; [done|by split_and!]|].
    apply (rtc_l _ _ p2); [apply st_to_runner; vm_compute; reflexivity|].
    apply rtc_once, st_destroy. vm_compute. reflexivity.
  - vm_compute. by split_and!.
Qed.
End Witnesses.
