(* ===== verification/TurnEvents.v ===== *)
(** * Turn events: [apps/runner/src/turn-events.ts]

    The runner's buffer of a turn's events: merging adjacent text, bounding and
    cleaning what the events carry, splitting into posts, and the collector
    that decides when each turn is flushed. The event vocabulary is
    [packages/agent-protocol/src/events.ts]. *)
From S2P Require Import Prelude JsJson JsBytes.
Local Open Scope N_scope.

(** ** The vocabulary *)

Record TurnUsage := {
  inputTokens : Z;
  outputTokens : Z;
  cacheReadInputTokens : option Z;
  cacheCreationInputTokens : option Z;
  promptTokens : option Z;
}.

Inductive NoticeLevel := info | warn.

Inductive AgentEvent :=
  | turn_started
  | text_delta (text : jsstr)
  | thinking_delta (text : jsstr)
  | text (text : jsstr)
  | tool_started (callId name : jsstr)
  | tool_finished (callId name : jsstr) (input : option jsstr) (output : jsstr) (isError : option bool)
      (exitCode : option Z)
  | approval_pending (description : jsstr)
  | notice (level : NoticeLevel) (text : jsstr)
  | message_joined (followUpId : jsstr)
  | message_sent_now (moved : bool) (toolName : option jsstr)
  | turn_done (usage : option TurnUsage)
  | error (message : jsstr) (code : option jsstr).

Definition isTerminalEvent (event : AgentEvent) : bool :=
  match event with turn_done _ | error _ _ => true | _ => false end.

(** The JSON of an event, its members in the schema's order. *)
Definition opt_member {A} (key : jsstr) (f : A -> json) (v : option A) : list (jsstr * json) :=
  match v with Some a => [(key, f a)] | None => [] end.

Definition num (z : Z) : json := JNum (number_text z).

Definition usage_json (u : TurnUsage) : json :=
  JObj ([(js "inputTokens", num (inputTokens u)); (js "outputTokens", num (outputTokens u))] ++
        opt_member (js "cacheReadInputTokens") num (cacheReadInputTokens u) ++
        opt_member (js "cacheCreationInputTokens") num (cacheCreationInputTokens u) ++
        opt_member (js "promptTokens") num (promptTokens u)).

Definition event_members (event : AgentEvent) : list (jsstr * json) :=
  match event with
  | turn_started => [(js "type", JStr (js "turn.started"))]
  | text_delta t => [(js "type", JStr (js "text.delta")); (js "text", JStr t)]
  | thinking_delta t => [(js "type", JStr (js "thinking.delta")); (js "text", JStr t)]
  | text t => [(js "type", JStr (js "text")); (js "text", JStr t)]
  | tool_started callId name =>
      [(js "type", JStr (js "tool.started")); (js "callId", JStr callId); (js "name", JStr name)]
  | tool_finished callId name input output isError exitCode =>
      [(js "type", JStr (js "tool.finished")); (js "callId", JStr callId); (js "name", JStr name)] ++
      opt_member (js "input") JStr input ++ [(js "output", JStr output)] ++
      opt_member (js "isError") JBool isError ++ opt_member (js "exitCode") num exitCode
  | approval_pending d => [(js "type", JStr (js "approval.pending")); (js "description", JStr d)]
  | notice level t =>
      [(js "type", JStr (js "notice"));
       (js "level", JStr (match level with info => js "info" | warn => js "warn" end)); (js "text", JStr t)]
  | message_joined f => [(js "type", JStr (js "message.joined")); (js "followUpId", JStr f)]
  | message_sent_now moved toolName =>
      [(js "type", JStr (js "message.sent_now")); (js "moved", JBool moved)] ++
      opt_member (js "toolName") JStr toolName
  | turn_done usage => [(js "type", JStr (js "turn.done"))] ++ opt_member (js "usage") usage_json usage
  | error message code =>
      [(js "type", JStr (js "error")); (js "message", JStr message)] ++ opt_member (js "code") JStr code
  end.

Definition event_json (event : AgentEvent) : json := JObj (event_members event).

(** ** Merging, bounding, splitting *)

Definition MAX_EVENTS_PER_POST : nat := 100.
Definition MAX_EVENT_TEXT_CHARS : N := 16000.
Definition MAX_BATCH_CHARS : N := 256000.
Definition FLUSH_INTERVAL_MS : N := 250.

(** The text of two textual events of one type, joined. *)
Definition merge (previous event : AgentEvent) : option AgentEvent :=
  match previous, event with
  | text_delta t, text_delta u => Some (text_delta (t ++ u))
  | thinking_delta t, thinking_delta u => Some (thinking_delta (t ++ u))
  | _, _ => None
  end.

(** One turn of the loop of [coalesce]. *)
Definition coalesce_step (out : list AgentEvent) (event : AgentEvent) : list AgentEvent :=
  match last out with
  | Some previous =>
      match merge previous event with
      | Some merged => removelast out ++ [merged]
      | None => out ++ [event]
      end
  | None => out ++ [event]
  end.

Definition coalesce (events : list AgentEvent) : list AgentEvent := fold_left coalesce_step events [].

(** [chunk]; the state of the loop is [i] and [chunks]. *)
Definition chunk_step {T} (items : list T) (size : nat) (s : nat * list (list T)) :
    (nat * list (list T)) + list (list T) :=
  let '(i, chunks) := s in
  if (i <? length items)%nat then inl ((i + size)%nat, chunks ++ [take size (drop i items)]) else inr chunks.

Definition chunk {T} (items : list T) (size : nat) : list (list T) :=
  default [] (js_while (chunk_step items size) (S (length items)) (0%nat, [])).

Definition NUL : N := 0.

(** [value.split(NUL).join("")] is [value] without its NULs. *)
Definition clean (value : jsstr) : jsstr :=
  let withoutNul := if has_char NUL value then join [] (split_on NUL value) else value in
  let len := N.of_nat (length withoutNul) in
  if len <=? MAX_EVENT_TEXT_CHARS then withoutNul
  else take (N.to_nat MAX_EVENT_TEXT_CHARS) withoutNul ++ [10; 8230] ++ js " [truncated " ++
       dec (len - MAX_EVENT_TEXT_CHARS) ++ js " characters]".

Definition clamp (event : AgentEvent) : AgentEvent :=
  match event with
  | text_delta t => text_delta (clean t)
  | thinking_delta t => thinking_delta (clean t)
  | text t => text (clean t)
  | tool_started callId name => tool_started (clean callId) (clean name)
  | tool_finished callId name input output isError exitCode =>
      tool_finished (clean callId) (clean name) (clean <$> input) (clean output) isError exitCode
  | approval_pending d => approval_pending (clean d)
  | notice level t => notice level (clean t)
  | error message code =>
      error (clean message) (match code with Some (c :: s) => Some (clean (c :: s)) | _ => code end)
  | message_joined f => message_joined (clean f)
  | message_sent_now moved toolName => message_sent_now moved (clean <$> toolName)
  | turn_started => turn_started
  | turn_done usage => turn_done usage
  end.

(** The loop of [chunkBySize]: [batches], [current], [size]. *)
Definition cost (event : AgentEvent) : N := N.of_nat (length (stringify (event_json event))) + 1.

Definition chunkBySize_step (maxChars : N) (s : list (list AgentEvent) * list AgentEvent * N)
    (event : AgentEvent) : list (list AgentEvent) * list AgentEvent * N :=
  let '(batches, current, size) := s in
  let '(batches, current, size) :=
    if (0 <? length current)%nat && (maxChars <? size + cost event)
    then (batches ++ [current], [], 0) else (batches, current, size) in
  (batches, current ++ [event], size + cost event).

Definition chunkBySize (events : list AgentEvent) (maxChars : N) : list (list AgentEvent) :=
  let '(batches, current, _) := fold_left (chunkBySize_step maxChars) events ([], [], 0) in
  if (0 <? length current)%nat then batches ++ [current] else batches.

(** ** The collector *)

Record Buffered := {
  sandboxId : jsstr;
  conversationId : jsstr;
  events : list AgentEvent;
  timer : bool;
}.

(** The [turn.events] report. *)
Record Post := {
  p_sandboxId : jsstr;
  p_conversationId : jsstr;
  p_turnId : jsstr;
  p_events : list AgentEvent;
}.

(** [buffers], in insertion order, and the posts made. *)
Record Collector := {
  buffers : list (jsstr * Buffered);
  posts : list Post;
}.

Definition createTurnEventCollector : Collector := {| buffers := []; posts := [] |}.

Definition get_buffer (turnId : jsstr) (c : Collector) : option Buffered :=
  snd <$> List.find (fun e => bool_decide (fst e = turnId)) (buffers c).

Definition del_buffer (turnId : jsstr) (l : list (jsstr * Buffered)) : list (jsstr * Buffered) :=
  List.filter (fun e => negb (bool_decide (fst e = turnId))) l.

(** [Map.prototype.set]: a key that is there keeps its place. *)
Definition set_buffer (turnId : jsstr) (b : Buffered) (l : list (jsstr * Buffered)) : list (jsstr * Buffered) :=
  if existsb (fun e => bool_decide (fst e = turnId)) l
  then map (fun e => if bool_decide (fst e = turnId) then (turnId, b) else e) l
  else l ++ [(turnId, b)].

(** The batches of a flush. *)
Definition batches_of (evs : list AgentEvent) : list (list AgentEvent) :=
  flat_map (fun byCount => chunkBySize byCount MAX_BATCH_CHARS)
    (chunk (map clamp (coalesce evs)) MAX_EVENTS_PER_POST).

Definition flush (turnId : jsstr) (c : Collector) : Collector :=
  match get_buffer turnId c with
  | None => c
  | Some buffered =>
      {| buffers := del_buffer turnId (buffers c);
         posts := posts c ++
           if (length (events buffered) =? 0)%nat then [] else
           map (fun batch => {| p_sandboxId := sandboxId buffered; p_conversationId := conversationId buffered;
                                p_turnId := turnId; p_events := batch |}) (batches_of (events buffered)) |}
  end.

Definition flushConversation (conversation except : jsstr) (c : Collector) : Collector :=
  fold_left (fun c e =>
    if negb (bool_decide (fst e = except)) && bool_decide (conversationId (snd e) = conversation)
    then flush (fst e) c else c) (buffers c) c.

Definition add (sandbox conversation turnId : jsstr) (event : AgentEvent) (c : Collector) : Collector :=
  let buffered := default {| sandboxId := sandbox; conversationId := conversation; events := []; timer := false |}
                    (get_buffer turnId c) in
  let buffered := {| sandboxId := sandboxId buffered; conversationId := conversationId buffered;
                     events := events buffered ++ [event]; timer := timer buffered |} in
  if isTerminalEvent event then
    let c := {| buffers := set_buffer turnId buffered (buffers c); posts := posts c |} in
    flush turnId (flushConversation conversation turnId c)
  else
    let buffered := {| sandboxId := sandboxId buffered; conversationId := conversationId buffered;
                       events := events buffered; timer := true |} in
    {| buffers := set_buffer turnId buffered (buffers c); posts := posts c |}.

Definition flushAll (c : Collector) : Collector := fold_left (fun c e => flush (fst e) c) (buffers c) c.

(** The calls on a collector; a timer's firing is a [flush]. *)
Inductive Call :=
  | c_add (sandbox conversation turnId : jsstr) (event : AgentEvent)
  | c_flush (turnId : jsstr)
  | c_flushAll.

Definition call (x : Call) (c : Collector) : Collector :=
  match x with
  | c_add sandbox conversation turnId event => add sandbox conversation turnId event c
  | c_flush turnId => flush turnId c
  | c_flushAll => flushAll c
  end.

Definition run (calls : list Call) : Collector := fold_left (fun c x => call x c) calls createTurnEventCollector.
