(* ===== verification/TurnEventsSpec.v ===== *)
(** * What the turn-event collector promises

    Merging keeps the text, splitting keeps the events, every post fits the
    wire, no event is lost, repeated or reordered, and a turn's end is posted
    after everything its conversation still held. *)
From S2P Require Import Prelude JsJson JsBytes TurnEvents.
Local Open Scope N_scope.

(** ** Merging *)

(** An event as what a reader sees of it: textual events by the character. *)
Inductive atom := a_char (thinking : bool) (c : N) | a_event (event : AgentEvent).

Definition atoms (event : AgentEvent) : list atom :=
  match event with
  | text_delta t => map (a_char false) t
  | thinking_delta t => map (a_char true) t
  | _ => [a_event event]
  end.

Fixpoint unmergeable (l : list AgentEvent) : Prop :=
  match l with
  | a :: (b :: _) as l' => merge a b = None /\ unmergeable l'
  | _ => True
  end.

Lemma unmergeable_snoc l a b :
  unmergeable (l ++ [a]) -> merge a b = None -> unmergeable (l ++ [a; b]).
Proof.
  induction l as [|x l IH]; intros Hl Hab; [done|]. destruct l as [|y l]; cbn in *; [tauto|].
  destruct Hl. split; [done|]. by apply IH.
Qed.

Lemma unmergeable_last l a b m :
  unmergeable (l ++ [a]) -> merge a b = Some m -> unmergeable (l ++ [m]).
Proof.
  intros Hl Hm. assert (forall x, merge x a = None -> merge x m = None) as Hx.
  { intros x. destruct a, b; try done; injection Hm as <-; by destruct x. }
  induction l as [|x l IH]; [done|]. destruct l as [|y l]; cbn in *.
  - split; [|done]. apply Hx, Hl.
  - destruct Hl. split; [done|]. by apply IH.
Qed.

Lemma merge_atoms a b m : merge a b = Some m -> atoms m = atoms a ++ atoms b.
Proof. destruct a, b; try done; intros [= <-]; apply map_app. Qed.

Lemma coalesce_step_spec out event :
  unmergeable out ->
  unmergeable (coalesce_step out event) /\
  flat_map atoms (coalesce_step out event) = flat_map atoms out ++ atoms event.
Proof.
  intros Hu. unfold coalesce_step. destruct (last out) as [a|] eqn:El.
  - apply last_Some in El as [l ->]. rewrite removelast_app, app_nil_r by done.
    destruct (merge a event) as [m|] eqn:Em.
    + split; [by apply (unmergeable_last l a event)|].
      rewrite !flat_map_app. cbn. by rewrite (merge_atoms _ _ _ Em), !app_nil_r, app_assoc.
    + split; [rewrite <- app_assoc; by apply unmergeable_snoc|].
      rewrite flat_map_app. cbn. by rewrite app_nil_r.
  - apply last_None in El as ->. cbn. by rewrite app_nil_r.
Qed.

Lemma coalesce_run evs out :
  unmergeable out ->
  unmergeable (fold_left coalesce_step evs out) /\
  flat_map atoms (fold_left coalesce_step evs out) = flat_map atoms out ++ flat_map atoms evs.
Proof.
  revert out. induction evs as [|e evs IH]; intros out Hu; cbn; [by rewrite app_nil_r|].
  destruct (coalesce_step_spec out e Hu) as [H1 H2]. destruct (IH _ H1) as [H3 H4].
  split; [done|]. by rewrite H4, H2, app_assoc.
Qed.

Lemma coalesce_nonempty evs : evs <> [] -> coalesce evs <> [].
Proof.
  assert (forall l out, out <> [] -> fold_left coalesce_step l out <> []) as Hgo.
  { induction l as [|e l IH]; intros out Ho; [done|]. cbn. apply IH. unfold coalesce_step.
    destruct (last out) as [a|]; [destruct (merge a e)|]; by intros [_ [=]]%app_nil. }
  intros He. destruct evs as [|e evs]; [done|]. unfold coalesce. cbn. by apply Hgo.
Qed.

(** The last event, when it is no text, stays last. *)
Lemma coalesce_last evs e :
  atoms e = [a_event e] -> exists l, coalesce (evs ++ [e]) = l ++ [e].
Proof.
  intros He. unfold coalesce. rewrite fold_left_app. cbn [fold_left].
  generalize (fold_left coalesce_step evs []) as out. intros out. unfold coalesce_step.
  destruct (last out) as [a|]; [|eexists; reflexivity].
  assert (merge a e = None) as ->; [|eexists; reflexivity].
  destruct e; try (by destruct a); cbn in He; match goal with H : map _ ?t = _ |- _ => by destruct t end.
Qed.

(** ** Splitting *)

Lemma chunk_loop {T} (items : list T) size fuel i chunks :
  (0 < size)%nat -> (length items - i < fuel)%nat ->
  exists rest, js_while (chunk_step items size) fuel (i, chunks) = Some (chunks ++ rest) /\
    concat rest = drop i items /\ Forall (fun c => c <> [] /\ (length c <= size)%nat) rest.
Proof.
  intros Hs. revert i chunks. induction fuel as [|fuel IH]; intros i chunks Hf; [lia|].
  cbn [js_while chunk_step]. destruct (Nat.ltb_spec i (length items)) as [Hlt|Hge].
  - destruct (IH (i + size)%nat (chunks ++ [take size (drop i items)])) as (rest & E & Hc & Hall); [lia|].
    exists (take size (drop i items) :: rest). rewrite E, <- app_assoc. split; [done|]. split.
    + cbn. rewrite Hc, <- drop_drop. apply take_drop.
    + constructor; [|done]. rewrite length_take, length_drop. split; [|lia].
      intros E0%(f_equal length). rewrite length_take, length_drop in E0. cbn in E0. lia.
  - exists []. rewrite app_nil_r, drop_ge by lia. by split_and!.
Qed.

Lemma chunk_spec {T} (items : list T) size :
  (0 < size)%nat ->
  concat (chunk items size) = items /\ Forall (fun c => c <> [] /\ (length c <= size)%nat) (chunk items size).
Proof.
  intros Hs. destruct (chunk_loop items size (S (length items)) 0 [] Hs) as (rest & E & Hc & Hall); [lia|].
  unfold chunk. rewrite E. cbn. by rewrite drop_0 in Hc.
Qed.

Definition costs (l : list AgentEvent) : N := foldr (fun e n => cost e + n) 0 l.

Lemma costs_app l l' : costs (l ++ l') = costs l + costs l'.
Proof. unfold costs. induction l as [|e l IH]; cbn; [done|]. rewrite IH. lia. Qed.

(** A batch holds one event, or fits. *)
Definition batch_ok (maxChars : N) (l : list AgentEvent) : Prop :=
  l <> [] /\ (length l = 1%nat \/ costs l <= maxChars).

(** The loop's state: what was batched, the batch being filled, its size. *)
Definition split_inv (maxChars : N) (done_evs : list AgentEvent)
    (s : list (list AgentEvent) * list AgentEvent * N) : Prop :=
  concat s.1.1 ++ s.1.2 = done_evs /\ Forall (batch_ok maxChars) s.1.1 /\ s.2 = costs s.1.2 /\
  (s.1.2 = [] \/ batch_ok maxChars s.1.2).

Lemma chunkBySize_step_inv maxChars evs s e :
  split_inv maxChars evs s -> split_inv maxChars (evs ++ [e]) (chunkBySize_step maxChars s e).
Proof.
  destruct s as [[batches current] size]. unfold split_inv. cbn [fst snd].
  intros (E & Hb & Hs & Hc). unfold chunkBySize_step.
  destruct ((0 <? length current)%nat && (maxChars <? size + cost e)) eqn:Ef; cbn [fst snd].
  - apply andb_true_iff in Ef as [Ef _]. destruct Hc as [->|Hc]; [done|].
    split_and!.
    + rewrite concat_app. cbn. by rewrite app_nil_r, E.
    + apply Forall_app. split; [done|]. by constructor.
    + cbn. lia.
    + right. split; [done|]. by left.
  - split_and!.
    + by rewrite app_assoc, E.
    + done.
    + rewrite costs_app, Hs. cbn. lia.
    + right. split; [by intros [_ [=]]%app_nil|]. destruct current as [|x current]; [by left|].
      right. apply N.ltb_ge in Ef. rewrite costs_app. cbn in *. lia.
Qed.

Lemma chunkBySize_run maxChars l evs s :
  split_inv maxChars evs s -> split_inv maxChars (evs ++ l) (fold_left (chunkBySize_step maxChars) l s).
Proof.
  revert evs s. induction l as [|e l IH]; intros evs s H; cbn [fold_left]; [by rewrite app_nil_r|].
  rewrite (cons_middle e evs l), app_assoc. by apply IH, chunkBySize_step_inv.
Qed.

Lemma chunkBySize_spec evs maxChars :
  concat (chunkBySize evs maxChars) = evs /\ Forall (batch_ok maxChars) (chunkBySize evs maxChars).
Proof.
  assert (split_inv maxChars [] ([], [], 0)) as H0 by (unfold split_inv; cbn; split_and!; try done; by left).
  apply (chunkBySize_run maxChars evs) in H0. unfold chunkBySize.
  destruct (fold_left _ evs _) as [[b c] s]. destruct H0 as (E1 & E2 & _ & E4). cbn [fst snd app] in *.
  destruct E4 as [->|Hc]; cbn.
  - rewrite app_nil_r in E1. by split.
  - destruct c as [|x c]; [by destruct Hc|]. cbn. rewrite concat_app. cbn. rewrite app_nil_r.
    split; [done|]. apply Forall_app. split; [done|]. by constructor.
Qed.

Lemma batches_of_concat evs : concat (batches_of evs) = map clamp (coalesce evs).
Proof.
  unfold batches_of. destruct (chunk_spec (map clamp (coalesce evs)) MAX_EVENTS_PER_POST) as [E _]; [unfold MAX_EVENTS_PER_POST; lia|].
  transitivity (concat (chunk (map clamp (coalesce evs)) MAX_EVENTS_PER_POST)); [|done]. clear E.
  induction (chunk _ _) as [|c l IH]; [done|]. cbn.
  rewrite concat_app, IH. by rewrite (proj1 (chunkBySize_spec c MAX_BATCH_CHARS)).
Qed.

Lemma batches_of_ok evs :
  Forall (fun b => batch_ok MAX_BATCH_CHARS b /\ (length b <= MAX_EVENTS_PER_POST)%nat) (batches_of evs).
Proof.
  unfold batches_of. destruct (chunk_spec (map clamp (coalesce evs)) MAX_EVENTS_PER_POST) as [_ Hall]; [unfold MAX_EVENTS_PER_POST; lia|].
  induction Hall as [|c l [_ Hc] _ IH]; [constructor|]. cbn. apply Forall_app. split; [|done].
  destruct (chunkBySize_spec c MAX_BATCH_CHARS) as [E Hb]. apply Forall_forall. intros b Hin.
  rewrite Forall_forall in Hb. split; [by apply Hb|]. etrans; [|exact Hc]. rewrite <- E.
  apply list_elem_of_split in Hin as (l1 & l2 & ->). rewrite concat_app, length_app. cbn. rewrite length_app. lia.
Qed.

(** ** Bounding *)

Definition strings (event : AgentEvent) : list jsstr :=
  match event with
  | turn_started | turn_done _ => []
  | text_delta t | thinking_delta t | text t | notice _ t => [t]
  | tool_started callId name => [callId; name]
  | tool_finished callId name input output _ _ => [callId; name] ++ option_list input ++ [output]
  | approval_pending d => [d]
  | message_joined f => [f]
  | message_sent_now _ toolName => option_list toolName
  | error message code => message :: option_list code
  end.

Definition numbers (event : AgentEvent) : list Z :=
  match event with
  | tool_finished _ _ _ _ _ exitCode => option_list exitCode
  | turn_done (Some u) =>
      [inputTokens u; outputTokens u] ++ option_list (cacheReadInputTokens u) ++
      option_list (cacheCreationInputTokens u) ++ option_list (promptTokens u)
  | _ => []
  end.

Definition chars (event : AgentEvent) : N := N.of_nat (length (concat (strings event))).
Definition chars_of (l : list AgentEvent) : N := foldr (fun e n => chars e + n) 0 l.

Lemma chars_of_app l l' : chars_of (l ++ l') = chars_of l + chars_of l'.
Proof. unfold chars_of. induction l as [|e l IH]; cbn; [done|]. rewrite IH. lia. Qed.

Lemma chars_of_elem e l : e ∈ l -> chars e <= chars_of l.
Proof. induction 1 as [|e x l _ IH]; cbn; unfold chars_of in *; cbn; lia. Qed.

Definition no_nul (s : jsstr) : Prop := Forall (fun c => c <> NUL) s.

Lemma strip_nul s : join [] (split_on NUL s) = List.filter (fun c => negb (c =? NUL)) s.
Proof.
  induction s as [|c s IH]; [done|]. cbn. assert (split_on NUL s <> []) as Hne.
  { destruct s as [|d s]; [done|]. cbn. destruct (d =? NUL); [done|]. by destruct (split_on NUL s). }
  destruct (c =? NUL); cbn.
  - destruct (split_on NUL s); [done|]. by rewrite <- IH.
  - destruct (split_on NUL s) as [|w ws]; [done|]. rewrite <- IH. cbn. by destruct ws.
Qed.

Lemma without_nul s :
  (if has_char NUL s then join [] (split_on NUL s) else s) = List.filter (fun c => negb (c =? NUL)) s.
Proof.
  destruct (has_char NUL s) eqn:E; [apply strip_nul|]. symmetry. apply filter_all.
  intros x Hx. destruct (N.eqb_spec x NUL) as [->|]; [|done]. exfalso.
  assert (has_char NUL s = true) as E'; [|congruence]. apply existsb_exists. exists NUL. split; [|done].
  by apply list_elem_of_In.
Qed.

Lemma length_filter_le {A} (f : A -> bool) l : (length (List.filter f l) <= length l)%nat.
Proof. induction l as [|x l IH]; cbn; [lia|]. destruct (f x); cbn; lia. Qed.

Lemma digits_no_nul fuel n : no_nul (digits fuel n).
Proof.
  revert n. induction fuel as [|f IH]; intros n; [constructor|]. cbn [digits].
  assert (forall d, no_nul [48 + d]) as Hd.
  { intros d. apply Forall_cons. split; [unfold NUL; lia|]. constructor. }
  destruct (n <? 10); [done|]. apply Forall_app. split; [apply IH|apply Hd].
Qed.

(** A cleaned string has no NUL and at most the cap and the marker. *)
Lemma clean_spec s :
  no_nul (clean s) /\ (N.of_nat (length s) < 10 ^ 16 -> N.of_nat (length (clean s)) <= 16042).
Proof.
  unfold clean. rewrite without_nul. set (w := List.filter _ s).
  assert (no_nul w) as Hw.
  { apply Forall_forall. intros c [_ Hc]%elem_of_lfilter. by apply negb_true_iff, N.eqb_neq in Hc. }
  assert (length w <= length s)%nat as Hl by apply length_filter_le. clearbody w.
  destruct (N.leb_spec (N.of_nat (length w)) MAX_EVENT_TEXT_CHARS) as [Hle|Hgt].
  - split; [done|]. unfold MAX_EVENT_TEXT_CHARS in Hle. lia.
  - split.
    + apply Forall_app. split; [by apply Forall_take|].
      repeat (apply Forall_app; split); try apply digits_no_nul; repeat constructor; discriminate.
    + intros Hs. rewrite !length_app, length_take.
      assert (length (dec (N.of_nat (length w) - MAX_EVENT_TEXT_CHARS)) <= 16)%nat as Hd.
      { apply length_dec; [|lia]. change (N.of_nat 16) with 16. lia. }
      change (length (js " [truncated ")) with 12%nat. change (length (js " characters]")) with 12%nat.
      cbn [length]. unfold MAX_EVENT_TEXT_CHARS in *. rewrite !Nat2N.inj_add, Nat2N.inj_min, N2Nat.id. lia.
Qed.

Lemma clamp_no_nul e : Forall no_nul (strings (clamp e)).
Proof.
  assert (forall s, no_nul (clean s)) as H by (intros s; apply clean_spec).
  destruct e; cbn; repeat constructor; try apply H.
  - destruct input; cbn; repeat constructor; apply H.
  - destruct toolName; cbn; repeat constructor; apply H.
  - destruct code as [[|c s]|]; cbn; repeat constructor. apply H.
Qed.

(** ** The JSON of a clamped event *)

Definition member_cost (m : jsstr * json) : nat := length (quote m.1) + length (stringify m.2) + 2.

Definition member_text (m : jsstr * json) : jsstr := quote m.1 ++ [58] ++ stringify m.2.

Lemma members_cost members :
  foldr (fun w n => length w + 1 + n)%nat 0%nat (map member_text members) =
  foldr (fun m n => member_cost m + n)%nat 0%nat members.
Proof.
  induction members as [|m l IH]; [done|]. cbn [map foldr]. rewrite IH. unfold member_cost, member_text.
  rewrite !length_app. cbn [length]. lia.
Qed.

Lemma length_object members :
  members <> [] ->
  length (stringify (JObj members)) = S (foldr (fun m n => member_cost m + n)%nat 0%nat members).
Proof.
  intros Hne. change (stringify (JObj members)) with ([123] ++ join [44] (map member_text members) ++ [125]).
  rewrite !length_app, <- members_cost, <- (length_join_one 44) by (by destruct members). cbn [length]. lia.
Qed.

(** What a member costs whose value is a cleaned string or a safe integer. *)
Lemma clean_cost key s :
  N.of_nat (length s) < 10 ^ 16 ->
  N.of_nat (member_cost (key, JStr (clean s))) <= N.of_nat (length (quote key)) + 96256.
Proof.
  intros Hs. unfold member_cost. cbn [fst snd stringify]. pose proof (length_quote (clean s)).
  pose proof (proj2 (clean_spec s) Hs). lia.
Qed.

Lemma num_cost key z :
  safe_integer z -> (member_cost (key, num z) <= length (quote key) + 19)%nat.
Proof. intros Hz. unfold member_cost. cbn [fst snd num stringify]. pose proof (length_number_text z Hz). lia. Qed.

(** The total of the members' costs, in [N]. *)
Definition members_total (l : list (jsstr * json)) : N :=
  foldr (fun m n => N.of_nat (member_cost m) + n) 0 l.

Lemma members_total_app l l' : members_total (l ++ l') = members_total l + members_total l'.
Proof. unfold members_total. induction l as [|m l IH]; cbn [app foldr]; [done|]. rewrite IH. lia. Qed.

Lemma members_total_nat l :
  N.of_nat (foldr (fun m n => member_cost m + n)%nat 0%nat l) = members_total l.
Proof. unfold members_total. induction l as [|m l IH]; cbn [foldr]; [done|]. by rewrite Nat2N.inj_add, IH. Qed.

Lemma cost_total e : cost e = members_total (event_members e) + 2.
Proof.
  unfold cost, event_json. rewrite length_object by (by destruct e).
  rewrite Nat2N.inj_succ, members_total_nat. lia.
Qed.

Lemma short_total key v :
  N.of_nat (length (quote key)) <= 32 -> N.of_nat (length (stringify v)) <= 32 -> members_total [(key, v)] <= 66.
Proof. unfold members_total, member_cost. cbn. lia. Qed.

Lemma clean_total key s :
  N.of_nat (length (quote key)) <= 32 -> N.of_nat (length s) < 10 ^ 16 ->
  members_total [(key, JStr (clean s))] <= 96288.
Proof. intros Hk Hs. pose proof (clean_cost key s Hs). unfold members_total. cbn [foldr]. lia. Qed.

Lemma clean_opt_total key (v : option jsstr) :
  N.of_nat (length (quote key)) <= 32 -> Forall (fun s => N.of_nat (length s) < 10 ^ 16) (option_list v) ->
  members_total (opt_member key JStr (clean <$> v)) <= 96288.
Proof.
  intros Hk Hv. destruct v as [s|]; [|cbn; lia]. apply Forall_cons_1 in Hv as [Hs _].
  by apply clean_total.
Qed.

Lemma num_opt_total key (v : option Z) :
  N.of_nat (length (quote key)) <= 32 -> Forall safe_integer (option_list v) ->
  members_total (opt_member key num v) <= 66.
Proof.
  intros Hk Hv. destruct v as [z|]; [|cbn; lia]. apply Forall_cons_1 in Hv as [Hz _].
  pose proof (num_cost key z Hz). unfold members_total. cbn [opt_member foldr]. lia.
Qed.

Lemma usage_total u :
  Forall safe_integer (numbers (turn_done (Some u))) -> members_total [(js "usage", usage_json u)] <= 512.
Proof.
  cbn [numbers app]. intros [H1 [H2 H]%Forall_cons_1]%Forall_cons_1.
  apply Forall_app in H as [H3 [H4 H5]%Forall_app].
  unfold members_total. cbn [foldr]. unfold member_cost. cbn [fst snd]. unfold usage_json at 1.
  rewrite length_object by done.
  match goal with |- context [foldr ?f 0%nat ?l] =>
    assert (N.of_nat (foldr f 0%nat l) = members_total l) as E
      by apply members_total_nat end.
  pose proof (num_cost (js "inputTokens") _ H1) as C1. pose proof (num_cost (js "outputTokens") _ H2) as C2.
  change (length (quote (js "inputTokens"))) with 13%nat in C1.
  change (length (quote (js "outputTokens"))) with 14%nat in C2.
  rewrite !members_total_app in E.
  pose proof (num_opt_total (js "cacheReadInputTokens") _ ltac:(vm_compute; discriminate) H3).
  pose proof (num_opt_total (js "cacheCreationInputTokens") _ ltac:(vm_compute; discriminate) H4).
  pose proof (num_opt_total (js "promptTokens") _ ltac:(vm_compute; discriminate) H5).
  unfold members_total at 1 in E. cbn [foldr] in E.
  change (length (quote (js "usage"))) with 7%nat. lia.
Qed.

Definition small (e : AgentEvent) : Prop := Forall safe_integer (numbers e).

Lemma strings_short e :
  chars e < 10 ^ 16 -> Forall (fun s => N.of_nat (length s) < 10 ^ 16) (strings e).
Proof.
  unfold chars. intros Hc. apply Forall_forall. intros s Hin. eapply N.le_lt_trans; [|exact Hc].
  apply list_elem_of_split in Hin as (l1 & l2 & ->). rewrite concat_app, length_app. cbn. rewrite length_app. lia.
Qed.

Lemma members_total_cons m l : members_total (m :: l) = members_total [m] + members_total l.
Proof. apply (members_total_app [m]). Qed.

(** One clamped event never comes near the wire's cap. *)
Lemma clamp_cost e : small e -> chars e < 10 ^ 16 -> cost (clamp e) <= 386000.
Proof.
  intros Hn Hc%strings_short. rewrite cost_total.
  assert (forall k s, N.of_nat (length (quote k)) <= 32 -> N.of_nat (length (quote s)) <= 32 ->
    members_total [(k, JStr s)] <= 66) as Hshort by (intros k s H1 H2; by apply short_total).
  assert (forall k b, N.of_nat (length (quote k)) <= 32 -> members_total [(k, JBool b)] <= 66) as Hbool.
  { intros k b H1. apply short_total; [done|]. by destruct b. }
  destruct e; cbn [strings app] in Hc; cbn [clamp event_members];
    repeat match goal with H : Forall _ (_ :: _) |- _ => apply Forall_cons in H as [? H] end;
    rewrite ?members_total_app;
    repeat match goal with
    | |- context [members_total (?m :: ?a :: ?l)] => rewrite (members_total_cons m (a :: l))
    end;
    try match goal with |- context [members_total [(js "type", JStr ?s)]] =>
      pose proof (Hshort (js "type") s ltac:(vm_compute; discriminate) ltac:(vm_compute; discriminate)) end;
    repeat match goal with
    | H : N.of_nat (length ?s) < _ |- context [members_total [(?k, JStr (clean ?s))]] =>
        pose proof (clean_total k s ltac:(vm_compute; discriminate) H); clear H
    end.
  all: try lia.
  - apply Forall_app in Hc as [Hi [Ho _]%Forall_cons_1].
    pose proof (clean_opt_total (js "input") input ltac:(vm_compute; discriminate) Hi).
    pose proof (clean_total (js "output") output ltac:(vm_compute; discriminate) Ho).
    pose proof (num_opt_total (js "exitCode") exitCode ltac:(vm_compute; discriminate) Hn).
    assert (members_total (opt_member (js "isError") JBool isError) <= 66).
    { destruct isError as [b|]; [by apply Hbool|cbn; lia]. }
    lia.
  - assert (members_total [(js "level", JStr (match level with info => js "info" | warn => js "warn" end))] <= 66).
    { destruct level; by apply Hshort. }
    lia.
  - pose proof (Hbool (js "moved") moved ltac:(vm_compute; discriminate)).
    pose proof (clean_opt_total (js "toolName") toolName ltac:(vm_compute; discriminate) Hc). lia.
  - destruct usage as [u|]; [|change (members_total (opt_member _ _ None)) with 0; lia].
    pose proof (usage_total u Hn). cbn [opt_member]. lia.
  - destruct code as [[|c s]|]; cbn [opt_member];
      [|apply Forall_cons in Hc as [Hs _]|change (members_total []) with 0; lia].
    + pose proof (Hshort (js "code") [] ltac:(vm_compute; discriminate) ltac:(vm_compute; discriminate)). lia.
    + pose proof (clean_total (js "code") (c :: s) ltac:(vm_compute; discriminate) Hs). lia.
Qed.

(** Merging neither adds characters nor touches numbers. *)
Lemma coalesce_step_chars out e n :
  chars_of out = n -> Forall small out -> small e ->
  chars_of (coalesce_step out e) = n + chars e /\ Forall small (coalesce_step out e).
Proof.
  intros <- Ho He.
  assert (chars_of (out ++ [e]) = chars_of out + chars e /\ Forall small (out ++ [e])) as Happ.
  { rewrite chars_of_app. split; [cbn; lia|]. apply Forall_app. split; [done|]. by constructor. }
  unfold coalesce_step. destruct (last out) as [a|] eqn:El; [|done].
  apply last_Some in El as [l ->]. destruct (merge a e) as [m|] eqn:Em; [|done].
  rewrite removelast_app, app_nil_r by done. apply Forall_app in Ho as [Ho _].
  rewrite !chars_of_app. assert (chars m = chars a + chars e /\ small m) as [Hm1 Hm2].
  { destruct a, e; try done; injection Em as <-; (split; [|constructor]);
      unfold chars; cbn; rewrite !length_app; cbn; lia. }
  split; [cbn; lia|]. apply Forall_app. split; [done|]. by constructor.
Qed.

Lemma coalesce_chars evs :
  Forall small evs -> chars_of (coalesce evs) = chars_of evs /\ Forall small (coalesce evs).
Proof.
  intros Hs. assert (forall out, Forall small out ->
    chars_of (fold_left coalesce_step evs out) = chars_of out + chars_of evs /\
    Forall small (fold_left coalesce_step evs out)) as Hgo; [|by destruct (Hgo [])].
  induction Hs as [|e evs He _ IH]; intros out Ho; cbn [fold_left]; [cbn; split; [lia|done]|].
  destruct (coalesce_step_chars out e _ eq_refl Ho He) as [H1 H2]. destruct (IH _ H2) as [H3 H4].
  split; [|done]. rewrite H3, H1. unfold chars_of. cbn [foldr]. lia.
Qed.

(** ** What a post may hold *)

Definition MAX_EVENT_BATCH_CHARS : N := 1000000.

(** The wire's check of a [turn.events] report, and what its column refuses. *)
Definition wire_ok (evs : list AgentEvent) : Prop :=
  (1 <= length evs <= MAX_EVENTS_PER_POST)%nat /\
  N.of_nat (length (stringify (JArr (map event_json evs)))) <= MAX_EVENT_BATCH_CHARS /\
  Forall (fun e => Forall no_nul (strings e)) evs.

Lemma array_cost evs :
  evs <> [] -> N.of_nat (length (stringify (JArr (map event_json evs)))) = costs evs + 1.
Proof.
  intros Hne. change (stringify (JArr (map event_json evs)))
    with ([91] ++ join [44] (map stringify (map event_json evs)) ++ [93]).
  rewrite !length_app. cbn [length].
  pose proof (length_join_one 44 (map stringify (map event_json evs)) ltac:(by destruct evs)) as E.
  assert (N.of_nat (foldr (fun w n => length w + 1 + n)%nat 0%nat (map stringify (map event_json evs))) = costs evs) as E'.
  { clear. unfold costs. induction evs as [|e evs IH]; [done|]. cbn [map foldr]. unfold cost at 1. lia. }
  lia.
Qed.

Lemma batches_of_fit evs :
  Forall small evs -> chars_of evs < 10 ^ 16 -> Forall wire_ok (batches_of evs).
Proof.
  intros Hs Hc. destruct (coalesce_chars evs Hs) as [Ec Hs']. apply Forall_forall. intros b Hb.
  pose proof (batches_of_ok evs) as Hok. rewrite Forall_forall in Hok.
  destruct (Hok b Hb) as [[Hne Hfit] Hlen].
  assert (Forall (fun e => exists e', e = clamp e' /\ small e' /\ chars e' < 10 ^ 16) b) as Hall.
  { apply Forall_forall. intros e He. assert (e ∈ concat (batches_of evs)) as Hin.
    { apply list_elem_of_In, in_concat. exists b. by rewrite <- !list_elem_of_In. }
    rewrite batches_of_concat in Hin. apply elem_of_lmap in Hin as (e' & -> & He').
    exists e'. rewrite Forall_forall in Hs'. split_and!; [done|by apply Hs'|].
    pose proof (chars_of_elem _ _ He'). lia. }
  split; [|split].
  - destruct b; [done|]. cbn in *. lia.
  - rewrite array_cost by done. unfold MAX_EVENT_BATCH_CHARS. destruct Hfit as [H1|Hle].
    + destruct b as [|e [|e' b]]; try done. apply Forall_cons in Hall as [(e' & -> & Hsm & Hch) _].
      pose proof (clamp_cost e' Hsm Hch). cbn. lia.
    + unfold MAX_BATCH_CHARS in Hle. lia.
  - eapply Forall_impl; [exact Hall|]. intros e (e' & -> & _). apply clamp_no_nul.
Qed.
