(* ===== verification/TurnEventsRuns.v ===== *)
(** * The turn-event collector over any calls

    The runs of [TurnEvents.run]: every post fits the wire, a turn's posts and
    its buffer carry exactly what was added, a buffered turn has a timer, and
    a terminal event empties its conversation in order. *)
From S2P Require Import Prelude JsJson JsBytes TurnEvents TurnEventsSpec.
Local Open Scope N_scope.

(** ** The map of buffers *)

Definition keys (l : list (jsstr * Buffered)) : list jsstr := map fst l.

Lemma get_buffer_elem t c b : get_buffer t c = Some b -> (t, b) ∈ buffers c.
Proof.
  unfold get_buffer. destruct (List.find _ (buffers c)) as [[t' b']|] eqn:E; [|done]. intros [= <-].
  apply List.find_some in E as [Hin Ht%bool_decide_eq_true]. cbn in *. subst t'. by apply list_elem_of_In.
Qed.

Lemma elem_get_buffer t b c :
  NoDup (keys (buffers c)) -> (t, b) ∈ buffers c -> get_buffer t c = Some b.
Proof.
  intros Hnd Hin. unfold get_buffer. destruct (List.find _ (buffers c)) as [[t' b']|] eqn:E; cbn.
  - apply List.find_some in E as [Hin' Ht%bool_decide_eq_true]. cbn in Ht. subst t'.
    apply list_elem_of_In in Hin'. pose proof (NoDup_fmap_elem_eq fst (buffers c) (t, b) (t, b') Hnd Hin Hin' eq_refl).
    congruence.
  - apply list_elem_of_In in Hin. pose proof (List.find_none _ _ E _ Hin) as Hf. cbn in Hf.
    by rewrite bool_decide_eq_true_2 in Hf.
Qed.

Lemma get_buffer_keys t c : get_buffer t c = None <-> t ∉ keys (buffers c).
Proof.
  unfold get_buffer. split.
  - destruct (List.find _ _) eqn:E; [done|]. intros _ (x & -> & Hin)%elem_of_lmap.
    apply list_elem_of_In in Hin. pose proof (List.find_none _ _ E _ Hin) as Hf. cbn in Hf.
    by rewrite bool_decide_eq_true_2 in Hf.
  - intros Hn. destruct (List.find _ _) as [x|] eqn:E; [|done].
    apply List.find_some in E as [Hin Ht%bool_decide_eq_true]. destruct Hn. apply elem_of_lmap.
    exists x. split; [done|]. by apply list_elem_of_In.
Qed.

Lemma del_buffer_elem t l e : e ∈ del_buffer t l <-> e ∈ l /\ e.1 <> t.
Proof. unfold del_buffer. rewrite elem_of_lfilter, negb_true_iff, bool_decide_eq_false. tauto. Qed.

Lemma keys_filter_nodup (f : jsstr * Buffered -> bool) l : NoDup (keys l) -> NoDup (keys (List.filter f l)).
Proof.
  induction l as [|x l IH]; [done|]. cbn. intros [Hx Hl]%NoDup_cons. destruct (f x); cbn; [|by apply IH].
  apply NoDup_cons. split; [|by apply IH]. intros (y & E & [Hy _]%elem_of_lfilter)%elem_of_lmap.
  destruct Hx. apply elem_of_lmap. by exists y.
Qed.

Lemma keys_set t b l : keys (set_buffer t b l) = keys l \/ ((t ∉ keys l) /\ keys (set_buffer t b l) = keys l ++ [t]).
Proof.
  unfold set_buffer. destruct (existsb _ l) eqn:E.
  - left. unfold keys. rewrite map_map. apply map_ext. intros x. case_bool_decide; cbn; congruence.
  - right. split; [|unfold keys; by rewrite map_app]. intros (x & -> & Hx)%elem_of_lmap.
    assert (existsb (fun e => bool_decide (fst e = fst x)) l = true) as E'; [|congruence].
    apply existsb_exists. exists x. rewrite <- list_elem_of_In. split; [done|]. by apply bool_decide_eq_true.
Qed.

Lemma keys_set_nodup t b l : NoDup (keys l) -> NoDup (keys (set_buffer t b l)).
Proof.
  intros Hnd. destruct (keys_set t b l) as [->|[Hn ->]]; [done|]. apply NoDup_app.
  split_and!; [done| |apply NoDup_singleton]. intros x Hx ->%list_elem_of_singleton. done.
Qed.

Lemma set_buffer_other t b l e : e ∈ set_buffer t b l -> e = (t, b) \/ (e ∈ l /\ e.1 <> t).
Proof.
  unfold set_buffer. destruct (existsb _ l) eqn:E.
  - intros (x & -> & Hx)%elem_of_lmap. case_bool_decide; [by left|by right].
  - intros [Hin| ->%list_elem_of_singleton]%elem_of_app; [|by left].
    right. split; [done|]. intros <-. assert (existsb (fun x => bool_decide (fst x = fst e)) l = true); [|congruence].
    apply existsb_exists. exists e. rewrite <- list_elem_of_In. split; [done|]. by apply bool_decide_eq_true.
Qed.

Lemma find_replaced (t t' : jsstr) (b : Buffered) l :
  List.find (fun e => bool_decide (fst e = t')) (map (fun e => if bool_decide (fst e = t) then (t, b) else e) l) =
  if bool_decide (t' = t) then (if existsb (fun e => bool_decide (fst e = t)) l then Some (t, b) else None)
  else List.find (fun e => bool_decide (fst e = t')) l.
Proof.
  induction l as [|x l IH]; cbn [map List.find existsb]; [by case_bool_decide|]. rewrite IH. clear IH.
  destruct (decide (fst x = t)) as [<-|Hx].
  - rewrite (bool_decide_eq_true_2 _ eq_refl). cbn [fst orb]. repeat case_bool_decide; congruence.
  - rewrite (bool_decide_eq_false_2 _ Hx). cbn [orb]. repeat case_bool_decide; congruence.
Qed.

Lemma find_app {A} (f : A -> bool) l k :
  List.find f (l ++ k) = match List.find f l with Some x => Some x | None => List.find f k end.
Proof. induction l as [|x l IH]; [done|]. cbn. destruct (f x); [done|apply IH]. Qed.

Lemma get_set t b t' c ps :
  get_buffer t' {| buffers := set_buffer t b (buffers c); posts := ps |} =
  if bool_decide (t' = t) then Some b else get_buffer t' c.
Proof.
  unfold get_buffer, set_buffer. cbn. destruct (existsb _ _) eqn:E.
  - rewrite find_replaced, E. by case_bool_decide.
  - rewrite find_app. case_bool_decide as Ht; [subst t'|].
    + destruct (List.find _ (buffers c)) as [x|] eqn:Ef; cbn; [|by rewrite bool_decide_eq_true_2].
      apply List.find_some in Ef as [H1 H2]. assert (existsb (fun e => bool_decide (fst e = t)) (buffers c) = true); [|congruence].
      apply existsb_exists. by exists x.
    + destruct (List.find _ (buffers c)); cbn; [done|]. by rewrite bool_decide_eq_false_2.
Qed.

Lemma find_deleted (t t' : jsstr) l :
  List.find (fun e => bool_decide (fst e = t')) (del_buffer t l) =
  if bool_decide (t' = t) then None else List.find (fun e => bool_decide (fst e = t')) l.
Proof.
  unfold del_buffer. induction l as [|x l IH]; cbn [List.filter List.find]; [by case_bool_decide|].
  destruct (decide (fst x = t)) as [<-|Hx].
  - rewrite (bool_decide_eq_true_2 _ eq_refl). cbn [negb]. rewrite IH. repeat case_bool_decide; congruence.
  - rewrite (bool_decide_eq_false_2 _ Hx). cbn [negb List.find]. rewrite IH. repeat case_bool_decide; congruence.
Qed.

Lemma get_del t t' c ps :
  get_buffer t' {| buffers := del_buffer t (buffers c); posts := ps |} =
  if bool_decide (t' = t) then None else get_buffer t' c.
Proof. unfold get_buffer. cbn [buffers]. rewrite find_deleted. by case_bool_decide. Qed.

(** ** The primitive steps *)

(** What a flush of a buffered turn posts. *)
Definition posts_of (e : jsstr * Buffered) : list Post :=
  if (length (events (snd e)) =? 0)%nat then [] else
  map (fun batch => {| p_sandboxId := sandboxId (snd e); p_conversationId := conversationId (snd e);
                       p_turnId := fst e; p_events := batch |}) (batches_of (events (snd e))).

Definition push (t : jsstr) (b : Buffered) (c : Collector) : Collector :=
  {| buffers := set_buffer t b (buffers c); posts := posts c |}.

Lemma flush_eq t c :
  flush t c = match get_buffer t c with
              | None => c
              | Some b => {| buffers := del_buffer t (buffers c); posts := posts c ++ posts_of (t, b) |}
              end.
Proof. done. Qed.

(** The buffer of a turn once [event] is in it. *)
Definition grown (s v t : jsstr) (event : AgentEvent) (c : Collector) : Buffered :=
  let old := default {| sandboxId := s; conversationId := v; events := []; timer := false |} (get_buffer t c) in
  {| sandboxId := sandboxId old; conversationId := conversationId old; events := events old ++ [event];
     timer := if isTerminalEvent event then timer old else true |}.

Lemma add_eq s v t event c :
  add s v t event c =
  let c := push t (grown s v t event c) c in
  if isTerminalEvent event then flush t (flushConversation v t c) else c.
Proof. unfold add, grown, push. by destruct (isTerminalEvent event). Qed.

Section kept.
Context (I : Collector -> Prop) (Hflush : forall t c, I c -> I (flush t c)).

Lemma flushConversation_kept v t c : I c -> I (flushConversation v t c).
Proof.
  unfold flushConversation. generalize (buffers c) as l. intros l. revert c.
  induction l as [|e l IH]; intros c Hc; cbn [fold_left]; [done|]. apply IH. case_match; [by apply Hflush|done].
Qed.

Lemma flushAll_kept c : I c -> I (flushAll c).
Proof.
  unfold flushAll. generalize (buffers c) as l. intros l. revert c.
  induction l as [|e l IH]; intros c Hc; cbn [fold_left]; [done|]. by apply IH, Hflush.
Qed.
End kept.

(** A run is pushes and flushes: an invariant of the calls so far need only be
    kept by these. *)
Definition added (calls : list Call) : list (jsstr * AgentEvent) :=
  flat_map (fun x => match x with c_add _ _ t e => [(t, e)] | _ => [] end) calls.

Definition all_added (calls : list Call) : list AgentEvent := map snd (added calls).

Section runs.
Context (I : list (jsstr * AgentEvent) -> Collector -> Prop).
Context (Hstart : I [] createTurnEventCollector).
Context (Hflush : forall l t c, I l c -> I l (flush t c)).
Context (Hpush : forall l s v t e c, I l c -> I (l ++ [(t, e)]) (push t (grown s v t e c) c)).

Lemma run_keeps calls : I (added calls) (run calls).
Proof.
  induction calls as [|x calls IH] using rev_ind; [exact Hstart|]. unfold run in *.
  rewrite fold_left_app. cbn [fold_left]. unfold added in *. rewrite flat_map_app. cbn [flat_map].
  destruct x as [s v t e|t|]; cbn [call]; rewrite ?app_nil_r.
  - apply (Hpush _ s v t e) in IH. rewrite add_eq. cbv zeta. case_match; [|done].
    apply Hflush, flushConversation_kept; [apply Hflush|done].
  - by apply Hflush.
  - apply flushAll_kept; [apply Hflush|done].
Qed.
End runs.

(** ** The properties *)

(** C30: whatever is added, in any order of adds, timers and shutdowns, the collector never posts a batch that
    the wire refuses: every post has from 1 to 100 events, serialises to at most 1,000,000 characters, and
    carries no U+0000 (the events' numbers being safe integers, and the text fed in under 10^16 characters). *)
Theorem posts_fit calls :
  Forall small (all_added calls) -> chars_of (all_added calls) < 10 ^ 16 ->
  Forall (fun p => wire_ok (p_events p)) (posts (run calls)).
Proof.
  set (I := fun l c => Forall small (map (@snd jsstr AgentEvent) l) -> chars_of (map (@snd jsstr AgentEvent) l) < 10 ^ 16 ->
    (forall e, e ∈ buffers c -> Forall small (events (snd e)) /\ chars_of (events (snd e)) <= chars_of (map (@snd jsstr AgentEvent) l)) /\
    Forall (fun p => wire_ok (p_events p)) (posts c)).
  assert (I (added calls) (run calls)) as H; [|intros H1 H2; by apply H].
  apply run_keeps; unfold I; clear I.
  - intros _ _. split; [|constructor]. intros e He. by apply elem_of_nil in He.
  - intros l t c H Hs Hc. destruct (H Hs Hc) as [Hb Hp]. rewrite flush_eq.
    destruct (get_buffer t c) as [b|] eqn:Eg; [|done]. split.
    + intros e [He _]%del_buffer_elem. by apply Hb.
    + cbn [posts]. apply Forall_app. split; [done|]. unfold posts_of. cbn [fst snd].
      destruct (Hb _ (get_buffer_elem _ _ _ Eg)) as [H1 H2]. cbn [snd] in *. case_match; [constructor|].
      apply Forall_fmap. eapply Forall_impl; [apply batches_of_fit; [done|lia]|done].
  - intros l s v t e c H. rewrite map_app, Forall_app, chars_of_app. cbn [map snd].
    intros [Hs [He _]%Forall_cons_1] Hc.
    change (chars_of [e]) with (chars e + 0) in *.
    destruct (H Hs ltac:(lia)) as [Hb Hp]. split; [|done].
    change (chars_of [e]) with (chars e + 0).
    intros x [->|[Hx _]]%set_buffer_other; [|destruct (Hb x Hx); split; [done|lia]].
    unfold grown. cbn [snd events]. rewrite Forall_app, chars_of_app. change (chars_of [e]) with (chars e + 0).
    destruct (get_buffer t c) as [b|] eqn:Eg; cbn [default events].
    + destruct (Hb _ (get_buffer_elem _ _ _ Eg)) as [H1 H2]. cbn [snd] in *. split; [|unfold id; lia].
      split; [done|]. by constructor.
    + change (chars_of []) with 0. split; [|lia]. split; [done|]. by constructor.
Qed.

(** What a turn's posts carry, what its buffer holds, and what was added to it. *)
Definition posted (t : jsstr) (c : Collector) : list AgentEvent :=
  flat_map p_events (List.filter (fun p => bool_decide (p_turnId p = t)) (posts c)).

Definition held (t : jsstr) (c : Collector) : list AgentEvent := from_option events [] (get_buffer t c).

Definition added_to (t : jsstr) (l : list (jsstr * AgentEvent)) : list AgentEvent :=
  map snd (List.filter (fun x => bool_decide (fst x = t)) l).

Lemma posted_posts_of t t' b c bs :
  posted t {| buffers := bs; posts := posts c ++ posts_of (t', b) |} =
  posted t c ++ if bool_decide (t' = t) then map clamp (coalesce (events b)) else [].
Proof.
  unfold posted. cbn [posts]. rewrite List.filter_app, flat_map_app. f_equal. unfold posts_of. cbn [fst snd].
  destruct (Nat.eqb_spec (length (events b)) 0) as [E|_].
  - apply nil_length_inv in E. rewrite E. by case_bool_decide.
  - rewrite <- batches_of_concat. induction (batches_of (events b)) as [|x l IH]; cbn; [by case_bool_decide|].
    case_bool_decide; cbn; [by rewrite IH|done].
Qed.

Lemma batches_nil : batches_of [] = [].
Proof. reflexivity. Qed.

(** C20: no event of a turn is lost, repeated or moved: at any time, the turn's posts carry, each string bounded
    by [clamp], a sequence of events which followed by the turn's buffer reads - text by the character, any
    other event whole - exactly as what was added to the turn. *)
Theorem transcript_kept t calls :
  exists sent, posted t (run calls) = map clamp sent /\
    flat_map atoms sent ++ flat_map atoms (held t (run calls)) = flat_map atoms (added_to t (added calls)).
Proof.
  apply (run_keeps (fun l c => exists sent, posted t c = map clamp sent /\
    flat_map atoms sent ++ flat_map atoms (held t c) = flat_map atoms (added_to t l))).
  - by exists [].
  - intros l t' c (sent & Hp & Ha). rewrite flush_eq. destruct (get_buffer t' c) as [b|] eqn:Eg; [|by exists sent].
    rewrite posted_posts_of. unfold held in *. rewrite get_del. case_bool_decide as E1; case_bool_decide as E2; try congruence.
    + exists (sent ++ coalesce (events b)). subst t'. rewrite Eg in Ha. cbn in *.
      rewrite Hp, map_app, flat_map_app, app_nil_r, <- Ha. split; [done|]. f_equal.
      apply (proj2 (coalesce_run (events b) [] Logic.I)).
    + exists sent. by rewrite app_nil_r.
  - intros l s v t' e c (sent & Hp & Ha). exists sent. split; [done|].
    unfold added_to in *. rewrite List.filter_app, map_app, flat_map_app, <- Ha, <- app_assoc. f_equal. clear Hp Ha.
    unfold held, push. rewrite get_set. cbn [List.filter fst].
    case_bool_decide as E1; case_bool_decide as E2; try congruence; [|by rewrite app_nil_r].
    subst t'. cbn [from_option]. unfold grown. cbn [events map snd]. rewrite flat_map_app. f_equal.
    by destruct (get_buffer t c).
Qed.

Lemma keys_distinct calls : NoDup (keys (buffers (run calls))).
Proof.
  apply (run_keeps (fun _ c => NoDup (keys (buffers c)))).
  - constructor.
  - intros _ t c H. rewrite flush_eq. destruct (get_buffer t c); [|done]. by apply keys_filter_nodup.
  - intros _ s v t e c H. by apply keys_set_nodup.
Qed.

(** A buffered turn holds events and its timer runs. *)
Definition armed (b : Buffered) : Prop := timer b = true /\ events b <> [].

Lemma flush_not t c e : e ∈ buffers (flush t c) -> fst e <> t.
Proof.
  rewrite flush_eq. destruct (get_buffer t c) as [b|] eqn:Eg; [by intros [_ Hne]%del_buffer_elem|].
  intros He <-. apply get_buffer_keys in Eg. destruct Eg. apply elem_of_lmap. by exists e.
Qed.

(** Every buffer but those of the turns in [P] is armed. *)
Definition armed_but (P : jsstr -> Prop) (c : Collector) : Prop :=
  forall e, e ∈ buffers c -> ~ P (fst e) -> armed (snd e).

Lemma flush_armed P t c : armed_but P c -> armed_but P (flush t c).
Proof.
  intros H e. rewrite flush_eq. destruct (get_buffer t c); [|by apply H].
  intros [He _]%del_buffer_elem. by apply H.
Qed.

Lemma add_armed s v t e c : armed_but (fun _ => False) c -> armed_but (fun _ => False) (add s v t e c).
Proof.
  intros Hc. rewrite add_eq. cbv zeta. destruct (isTerminalEvent e) eqn:Ee.
  - assert (armed_but (fun k => k = t) (flushConversation v t (push t (grown s v t e c) c))) as H.
    { apply flushConversation_kept; [intros ??; apply flush_armed|].
      intros x [->|[Hx _]]%set_buffer_other Hne; [done|]. apply Hc; tauto. }
    intros x Hx _. apply (flush_armed _ t _ H x Hx). by apply flush_not in Hx.
  - intros x [->|[Hx _]]%set_buffer_other _; [|apply Hc; tauto].
    unfold grown. rewrite Ee. split; [done|]. cbn. by intros [_ [=]]%app_nil.
Qed.

Lemma run_armed calls : armed_but (fun _ => False) (run calls).
Proof.
  induction calls as [|x calls IH] using rev_ind; [by intros e He%elem_of_nil|]. unfold run in *.
  rewrite fold_left_app. cbn [fold_left]. destruct x as [s v t e|t|]; cbn [call].
  - by apply add_armed.
  - by apply flush_armed.
  - apply flushAll_kept; [intros ??; apply flush_armed|done].
Qed.

(** No event waits forever: in every reachable state a turn that has a buffer has events in it and a timer
    pending, whose firing posts them and removes the buffer. *)
Theorem buffered_turns_armed calls t b :
  get_buffer t (run calls) = Some b ->
  armed b /\ get_buffer t (flush t (run calls)) = None /\
  exists ps, posts (flush t (run calls)) = posts (run calls) ++ ps /\ ps <> [] /\
    flat_map p_events ps = map clamp (coalesce (events b)).
Proof.
  intros Hb. assert (armed b) as Ha by (apply (run_armed calls (t, b)); [by apply get_buffer_elem|tauto]).
  split; [done|]. rewrite flush_eq, Hb. split; [rewrite get_del; by rewrite bool_decide_eq_true_2|].
  exists (posts_of (t, b)). split; [done|]. unfold posts_of. cbn [fst snd]. destruct Ha as [_ Hne].
  destruct (Nat.eqb_spec (length (events b)) 0) as [E|_]; [by apply nil_length_inv in E|].
  rewrite <- batches_of_concat. split.
  - intros E%map_eq_nil. apply (coalesce_nonempty _ Hne). apply (map_eq_nil clamp). by rewrite <- batches_of_concat, E.
  - induction (batches_of (events b)) as [|x l IH]; cbn; [done|]. by rewrite IH.
Qed.

(** A flush of selected buffers posts them in the map's order. *)
Lemma flushes_eq (sel : jsstr * Buffered -> bool) l c :
  NoDup (keys l) -> (forall e, e ∈ l -> get_buffer (fst e) c = Some (snd e)) ->
  let c' := fold_left (fun c e => if sel e then flush (fst e) c else c) l c in
  posts c' = posts c ++ flat_map posts_of (List.filter sel l) /\
  forall e, e ∈ buffers c' <-> e ∈ buffers c /\ forall x, x ∈ l -> sel x = true -> fst x <> fst e.
Proof.
  cbv zeta. revert c. induction l as [|x l IH]; intros c Hnd Hl; cbn [fold_left].
  - cbn. rewrite app_nil_r. split; [done|]. intros e. split; [|tauto]. intros He. split; [done|]. by intros x Hx%elem_of_nil.
  - apply NoDup_cons in Hnd as [Hx Hnd]. assert (forall e, e ∈ l -> fst e <> fst x) as Hne.
    { intros e He E. destruct Hx. change (fst x ∈ map fst l). apply elem_of_lmap. by exists e. }
    cbn [List.filter]. destruct (sel x) eqn:Ex.
    + pose proof (Hl x ltac:(by left)) as Ex'. rewrite flush_eq, Ex'.
      destruct (IH {| buffers := del_buffer (fst x) (buffers c); posts := posts c ++ posts_of (fst x, snd x) |} Hnd) as [H1 H2].
      { intros e He. rewrite get_del, bool_decide_eq_false_2 by (by apply Hne). apply Hl. by right. }
      split.
      * rewrite H1. cbn [posts flat_map]. rewrite <- app_assoc. by destruct x.
      * intros e. rewrite H2. cbn [buffers]. rewrite del_buffer_elem. split.
        -- intros [[He Hxe] Hr]. split; [done|]. intros y [->|Hy]%elem_of_cons; [congruence|by apply Hr].
        -- intros [He Hr]. split; [split; [done|]|intros y Hy; apply Hr; by right].
           intros E. by apply (Hr x ltac:(by left) Ex).
    + destruct (IH c Hnd) as [H1 H2]; [intros e He; apply Hl; by right|]. split; [done|].
      intros e. rewrite H2. split; intros [He Hr]; (split; [done|]).
      * intros y [->|Hy]%elem_of_cons; [congruence|by apply Hr].
      * intros y Hy. apply Hr. by right.
Qed.

Lemma filter_set_buffer (sel : jsstr * Buffered -> bool) t b l :
  (forall b', sel (t, b') = false) -> List.filter sel (set_buffer t b l) = List.filter sel l.
Proof.
  intros Hs. unfold set_buffer. destruct (existsb _ l).
  - induction l as [|[k x] l IH]; [done|]. cbn. case_bool_decide as Hk; cbn; rewrite IH.
    + cbn in Hk. subst k. by rewrite !Hs.
    + done.
  - rewrite List.filter_app. cbn. by rewrite Hs, app_nil_r.
Qed.

(** The other turns a conversation holds. *)
Definition others (v t : jsstr) (e : jsstr * Buffered) : bool :=
  negb (bool_decide (fst e = t)) && bool_decide (conversationId (snd e) = v).

Lemma posts_of_events x : flat_map p_events (posts_of x) = map clamp (coalesce (events (snd x))).
Proof.
  unfold posts_of. destruct (Nat.eqb_spec (length (events (snd x))) 0) as [E|_].
  - apply nil_length_inv in E. by rewrite E.
  - rewrite <- batches_of_concat. induction (batches_of (events (snd x))) as [|b l IH]; cbn; [done|]. by rewrite IH.
Qed.

Lemma flat_map_concat_posts l :
  flat_map p_events (flat_map posts_of l) = flat_map (fun x => map clamp (coalesce (events (snd x)))) l.
Proof. induction l as [|x l IH]; [done|]. cbn. by rewrite flat_map_app, IH, posts_of_events. Qed.

Lemma terminal_posts calls s v t e :
  isTerminalEvent e = true ->
  let c := run calls in
  posts (add s v t e c) =
    posts c ++ flat_map posts_of (List.filter (others v t) (buffers c)) ++ posts_of (t, grown s v t e c) /\
  forall x, x ∈ buffers (add s v t e c) -> fst x <> t /\ conversationId (snd x) <> v.
Proof.
  cbv zeta. intros He. rewrite add_eq. cbv zeta. rewrite He. set (c := run calls). set (g := grown s v t e c).
  assert (NoDup (keys (buffers (push t g c)))) as Hnd by (apply keys_set_nodup, keys_distinct).
  destruct (flushes_eq (others v t) (buffers (push t g c)) (push t g c) Hnd) as [H1 H2].
  { intros x Hx. apply elem_get_buffer; [done|]. by destruct x. }
  change (fold_left _ _ _) with (flushConversation v t (push t g c)) in H1, H2.
  set (c' := flushConversation v t (push t g c)) in *.
  assert (get_buffer t c' = Some g) as Hg.
  { apply elem_get_buffer.
    - unfold c'. apply (flushConversation_kept (fun c => NoDup (keys (buffers c)))); [|done].
      intros t' x Hx. rewrite flush_eq. destruct (get_buffer t' x); [|done]. by apply keys_filter_nodup.
    - apply H2. split; [apply get_buffer_elem; unfold push; by rewrite get_set, bool_decide_eq_true_2|].
      intros x _ [Hx _]%andb_true_iff E. cbn in E. by rewrite E, bool_decide_eq_true_2 in Hx. }
  split.
  - rewrite flush_eq, Hg. cbn [posts]. rewrite H1, <- app_assoc. cbn [posts push].
    unfold push. cbn [buffers]. rewrite filter_set_buffer; [done|].
    intros b. unfold others. cbn. by rewrite bool_decide_eq_true_2.
  - intros x Hx. assert (fst x <> t) as Hxt by by apply flush_not in Hx. split; [done|].
    rewrite flush_eq, Hg in Hx. apply del_buffer_elem in Hx as [[Hin Hx]%H2 _]. intros E.
    apply (Hx x Hin); [|done]. unfold others. rewrite bool_decide_eq_false_2, bool_decide_eq_true_2 by done. done.
Qed.

(** A turn's end is never posted before what its conversation said: adding a terminal event posts, in this
    order, everything the conversation's other turns still held, turn by turn in buffering order, then
    everything the turn itself held, the terminal event last; and leaves nothing buffered for the turn or the
    conversation. *)
Theorem terminal_flushes_conversation calls s v t e :
  isTerminalEvent e = true ->
  let c := run calls in
  let c' := add s v t e c in
  exists earlier own final,
    posts c' = posts c ++ earlier ++ own /\
    flat_map p_events earlier =
      flat_map (fun x => map clamp (coalesce (events (snd x)))) (List.filter (others v t) (buffers c)) /\
    flat_map p_events own = map clamp (coalesce (held t c ++ [e])) /\
    flat_map p_events own = final ++ [clamp e] /\ Forall (fun p => p_turnId p = t) own /\
    get_buffer t c' = None /\ forall t' b, get_buffer t' c' = Some b -> conversationId b <> v.
Proof.
  cbv zeta. intros He. destruct (terminal_posts calls s v t e He) as [H1 H2].
  assert (atoms e = [a_event e]) as Ha by by destruct e.
  assert (events (grown s v t e (run calls)) = held t (run calls) ++ [e]) as Hev.
  { unfold grown, held. cbn [events]. by destruct (get_buffer t (run calls)). }
  destruct (coalesce_last (held t (run calls)) e Ha) as [l Hl].
  exists (flat_map posts_of (List.filter (others v t) (buffers (run calls)))), (posts_of (t, grown s v t e (run calls))), (map clamp l).
  split_and!.
  - done.
  - apply flat_map_concat_posts.
  - rewrite posts_of_events. cbn [snd]. by rewrite Hev.
  - rewrite posts_of_events. cbn [snd]. by rewrite Hev, Hl, map_app.
  - unfold posts_of. case_match; [constructor|]. apply Forall_fmap, Forall_true. done.
  - apply get_buffer_keys. intros (x & E & Hx)%elem_of_lmap. destruct (H2 x Hx). by subst t.
  - intros t' b Hb%get_buffer_elem. by destruct (H2 _ Hb).
Qed.

(** ** Witnesses *)

Definition sample_calls : list Call :=
  [c_add (js "s") (js "v") (js "t1") turn_started; c_add (js "s") (js "v") (js "t1") (text_delta (js "he"));
   c_add (js "s") (js "v") (js "t2") (text_delta (js "o")); c_add (js "s") (js "v") (js "t1") (text_delta (js "llo"));
   c_add (js "s") (js "v") (js "t2") (tool_finished (js "c") (js "sh") None [97; 0; 98] None (Some 1%Z))].

Definition sample_end : Call := c_add (js "s") (js "v") (js "t1") (turn_done None).

Lemma posts_fit_witness :
  Forall (fun p => wire_ok (p_events p)) (posts (run (sample_calls ++ [sample_end]))) /\
  posts (run (sample_calls ++ [sample_end])) =
    [{| p_sandboxId := js "s"; p_conversationId := js "v"; p_turnId := js "t2";
        p_events := [text_delta (js "o"); tool_finished (js "c") (js "sh") None (js "ab") None (Some 1%Z)] |};
     {| p_sandboxId := js "s"; p_conversationId := js "v"; p_turnId := js "t1";
        p_events := [turn_started; text_delta (js "hello"); turn_done None] |}].
Proof.
  split; [|vm_compute; reflexivity]. apply posts_fit; [|vm_compute; reflexivity].
  repeat constructor.
Defined.

Lemma buffered_turns_armed_witness :
  exists b, get_buffer (js "t1") (run sample_calls) = Some b /\ armed b.
Proof.
  eexists. split; [vm_compute; reflexivity|].
  apply (buffered_turns_armed sample_calls (js "t1")). vm_compute. reflexivity.
Defined.

Lemma terminal_flushes_conversation_witness :
  get_buffer (js "t1") (add (js "s") (js "v") (js "t1") (turn_done None) (run sample_calls)) = None.
Proof.
  destruct (terminal_flushes_conversation sample_calls (js "s") (js "v") (js "t1") (turn_done None) eq_refl)
    as (e & o & f & _ & _ & _ & _ & _ & H & _). exact H.
Defined.

(** ** What the bounds leave *)

(** The cut at 16,000 units may fall inside a pair; the control plane's [storable]
    ([TurnText]) repairs the half character before it stores it. *)
Example clean_cuts_pair :
  let s := replicate (N.to_nat 15999) 97 ++ [0xD83D; 0xDE00] in
  well_formed s = true /\ well_formed (clean s) = false.
Proof. vm_compute. done. Qed.

(** One clamped event can be larger than a batch's target, though never than the wire's cap. *)
Example one_event_exceeds_a_batch :
  let s := replicate (N.to_nat 16000) 1 in
  MAX_BATCH_CHARS < cost (clamp (tool_finished s s (Some s) s None None)).
Proof. vm_compute. reflexivity. Qed.

(** A buffered turn's events go out under the sandbox that spoke first, whoever spoke the rest. *)
Example first_speaker_signs :
  posts (run [c_add (js "A") (js "v") (js "t") (text_delta (js "a"));
              c_add (js "B") (js "v") (js "t") (notice warn (js "b")); c_flush (js "t")]) =
  [{| p_sandboxId := js "A"; p_conversationId := js "v"; p_turnId := js "t";
      p_events := [text_delta (js "a"); notice warn (js "b")] |}].
Proof. vm_compute. reflexivity. Qed.
