(* ===== verification/PostEvents.v ===== *)
(** * Posting events: [apps/runner/src/control-plane.ts]

    Which failures prove that a request was never applied, and the client's
    [postEvents]: batches of at most a hundred events, each retried in place
    only on such a failure. The network's answers are an argument. *)
From S2P Require Import Prelude.
Local Open Scope nat_scope.

(** ** What a call can throw *)

(** One connection attempt inside a fetch error: an [Error] with its [code]
    when that is a string, or any other value. *)
Inductive Attempt := an_error (code : option jsstr) | not_an_error.

(** The [cause] of an error, when it is an [Error]: an [AggregateError] has
    the attempts it gathers. *)
Inductive Cause := single (code : option jsstr) | aggregate (errors : list Attempt).

Inductive Thrown :=
  | ControlPlaneError (status : Z)
  | other_error (cause : option Cause)
  | no_error.

Definition RETRYABLE_EVENT_STATUSES : list Z := [429; 500; 503]%Z.
Definition EVENT_POST_ATTEMPTS : nat := 4.
Definition MAX_RUNNER_EVENTS_PER_POST : nat := 100.

Definition NEVER_SENT_CODES : list jsstr := [js "ECONNREFUSED"; js "ENOTFOUND"; js "EAI_AGAIN"].

Definition neverLeft (attempt : Attempt) : bool :=
  match attempt with
  | an_error (Some code) => bool_decide (code ∈ NEVER_SENT_CODES)
  | _ => false
  end.

Definition requestNeverSent (error : Thrown) : bool :=
  match error with
  | other_error (Some cause) =>
      let attempts := match cause with aggregate errors => errors | single code => [an_error code] end in
      (0 <? length attempts) && forallb neverLeft attempts
  | _ => false
  end.

Definition isProvablyUnapplied (error : Thrown) : bool :=
  match error with
  | ControlPlaneError status => bool_decide (status ∈ RETRYABLE_EVENT_STATUSES)
  | _ => requestNeverSent error
  end.

(** ** One request *)

(** How a fetch ends: a response, with whether its body is JSON, or a throw. *)
Inductive Fetched := response (status : Z) (json : bool) | fetch_failed (error : Thrown).

(** [call]: a result, or what it throws; [response.json()] throws a plain
    [SyntaxError]. *)
Definition call (answer : Fetched) : option Thrown :=
  match answer with
  | response status json =>
      if negb ((200 <=? status) && (status <=? 299))%Z then Some (ControlPlaneError status)
      else if (status =? 204)%Z then None
      else if json then None else Some (other_error None)
  | fetch_failed error => Some error
  end.

Section postEvents.
Context {Event : Type}.

(** A request made: what it carried and how the call ended. *)
Record Request := { r_events : list Event; r_error : option Thrown }.

(** The retry loop of one batch: the requests it made and what it threw. *)
Definition attempt_step (body : list Event) (answer : nat -> Fetched) (s : nat * list Request) :
    (nat * list Request) + (list Request * option Thrown) :=
  let '(attempt, made) := s in
  let error := call (answer attempt) in
  let made := made ++ [{| r_events := body; r_error := error |}] in
  match error with
  | None => inr (made, None)
  | Some e =>
      if (EVENT_POST_ATTEMPTS <=? attempt) || negb (isProvablyUnapplied e) then inr (made, Some e)
      else inl (S attempt, made)
  end.

Definition post_batch (body : list Event) (answer : nat -> Fetched) : list Request * option Thrown :=
  default ([], None) (js_while (attempt_step body answer) (S EVENT_POST_ATTEMPTS) (1, [])).

(** [postEvents]; [answers] gives the answer to each attempt of the batch
    that starts at an index. *)
Definition postEvents_step (events : list Event) (answers : nat -> nat -> Fetched) (s : nat * list Request) :
    (nat * list Request) + (list Request * option Thrown) :=
  let '(i, made) := s in
  if i <? length events then
    let '(more, error) := post_batch (take MAX_RUNNER_EVENTS_PER_POST (drop i events)) (answers i) in
    match error with
    | Some e => inr (made ++ more, Some e)
    | None => inl (i + MAX_RUNNER_EVENTS_PER_POST, made ++ more)
    end
  else inr (made, None).

Definition postEvents (events : list Event) (answers : nat -> nat -> Fetched) : list Request * option Thrown :=
  default ([], None) (js_while (postEvents_step events answers) (S (length events)) (0, [])).

(** ** What it promises *)

Definition unapplied (r : Request) : bool :=
  match r_error r with Some e => isProvablyUnapplied e | None => false end.

(** The requests of one batch: every one but the last provably failed. *)
Lemma attempts_run body answer fuel attempt made :
  EVENT_POST_ATTEMPTS < fuel + attempt -> attempt <= EVENT_POST_ATTEMPTS ->
  exists earlier final, js_while (attempt_step body answer) fuel (attempt, made) =
      Some (made ++ earlier ++ [final], r_error final) /\
    Forall (fun r => r_events r = body) (earlier ++ [final]) /\ Forall (fun r => unapplied r = true) earlier /\
    length earlier + attempt <= EVENT_POST_ATTEMPTS /\
    ((exists e, r_error final = Some e /\ isProvablyUnapplied e = true) ->
     length earlier + attempt = EVENT_POST_ATTEMPTS).
Proof.
  revert attempt made. induction fuel as [|fuel IH]; intros attempt made Hf Ha; [lia|].
  cbn [js_while attempt_step]. set (r := {| r_events := body; r_error := call (answer attempt) |}).
  assert (Forall (fun r => r_events r = body) [r]) as Hr by by constructor.
  destruct (call (answer attempt)) as [e|] eqn:Ec.
  - destruct (Nat.leb_spec EVENT_POST_ATTEMPTS attempt) as [Hle|Hlt]; cbn [orb].
    + exists [], r. cbn. split_and!; try done; lia.
    + destruct (isProvablyUnapplied e) eqn:Ee; cbn [negb].
      * destruct (IH (S attempt) (made ++ [r])) as (l & f & E & H1 & H2 & H3 & H4); [lia..|].
        exists (r :: l), f. rewrite E, <- app_assoc. split; [done|]. split; [by constructor|]. split; [by constructor|].
        cbn [length]. split; [lia|]. intros H5. specialize (H4 H5). lia.
      * exists [], r. cbn. split_and!; try done. intros (e' & [= <-] & H). congruence.
  - exists [], r. cbn. split_and!; try done. by intros (e' & [=] & _).
Qed.

Lemma post_batch_spec body answer :
  exists earlier final, post_batch body answer = (earlier ++ [final], r_error final) /\
    Forall (fun r => r_events r = body) (earlier ++ [final]) /\ Forall (fun r => unapplied r = true) earlier /\
    length (earlier ++ [final]) <= EVENT_POST_ATTEMPTS /\
    ((exists e, r_error final = Some e /\ isProvablyUnapplied e = true) ->
     length (earlier ++ [final]) = EVENT_POST_ATTEMPTS).
Proof.
  destruct (attempts_run body answer (S EVENT_POST_ATTEMPTS) 1 []) as (l & f & E & H1 & H2 & H3 & H4);
    [unfold EVENT_POST_ATTEMPTS; lia..|].
  exists l, f. unfold post_batch. rewrite E. rewrite length_app. cbn [length].
  split_and!; try done; try lia.
Qed.

(** The requests that may have been applied. *)
Definition maybe_applied (made : list Request) : list Event :=
  flat_map r_events (List.filter (fun r => negb (unapplied r)) made).

Lemma maybe_applied_app l l' : maybe_applied (l ++ l') = maybe_applied l ++ maybe_applied l'.
Proof. unfold maybe_applied. by rewrite List.filter_app, flat_map_app. Qed.

Lemma maybe_applied_none l : Forall (fun r => unapplied r = true) l -> maybe_applied l = [].
Proof. unfold maybe_applied. induction 1 as [|r l Hr _ IH]; [done|]. cbn. by rewrite Hr. Qed.

Definition sized (r : Request) : Prop := 1 <= length (r_events r) <= MAX_RUNNER_EVENTS_PER_POST.

Lemma postEvents_run events answers fuel i made :
  length events - i < fuel -> i <= length events \/ maybe_applied made = events ->
  (i <= length events -> maybe_applied made = take i events) -> Forall sized made ->
  exists out error, js_while (postEvents_step events answers) fuel (i, made) = Some (out, error) /\
    Forall sized out /\
    (exists rest, events = maybe_applied out ++ rest /\ (error = None -> rest = [])).
Proof.
  revert i made. induction fuel as [|fuel IH]; intros i made Hf Hi Hm Hs; [lia|].
  cbn [js_while postEvents_step]. destruct (Nat.ltb_spec i (length events)) as [Hlt|Hge].
  - set (body := take MAX_RUNNER_EVENTS_PER_POST (drop i events)).
    destruct (post_batch_spec body (answers i)) as (l & f & E & Hb & Hl & _). rewrite E.
    assert (maybe_applied (l ++ [f]) = if unapplied f then [] else body) as Hlf.
    { rewrite maybe_applied_app, (maybe_applied_none l Hl). apply Forall_app in Hb as [_ [Hf' _]%Forall_cons_1].
      unfold maybe_applied. cbn. destruct (unapplied f); cbn; [done|]. by rewrite app_nil_r, Hf'. }
    assert (Forall sized (l ++ [f])) as Hsz.
    { eapply Forall_impl; [exact Hb|]. intros r Hr. unfold sized. rewrite Hr. subst body.
      rewrite length_take, length_drop. unfold MAX_RUNNER_EVENTS_PER_POST. lia. }
    assert (maybe_applied made = take i events) as Hm' by (apply Hm; lia).
    assert (take (i + MAX_RUNNER_EVENTS_PER_POST) events = take i events ++ body) as Ht.
    { subst body. by rewrite take_take_drop. }
    destruct (r_error f) as [e|] eqn:Ef.
    + exists (made ++ l ++ [f]), (Some e). split; [done|]. split; [by apply Forall_app|].
      rewrite maybe_applied_app, Hlf, Hm'. destruct (unapplied f).
      * exists (drop i events). rewrite app_nil_r. by rewrite take_drop.
      * exists (drop (i + MAX_RUNNER_EVENTS_PER_POST) events). rewrite <- Ht. by rewrite take_drop.
    + assert (unapplied f = false) as Hu by (unfold unapplied; by rewrite Ef).
      apply IH; [unfold MAX_RUNNER_EVENTS_PER_POST; lia| | |by apply Forall_app].
      * destruct (decide (i + MAX_RUNNER_EVENTS_PER_POST <= length events)); [by left|right].
        rewrite maybe_applied_app, Hlf, Hm', Hu, <- Ht, take_ge; [done|lia].
      * intros _. by rewrite maybe_applied_app, Hlf, Hm', Hu, <- Ht.
  - exists made, None. split; [done|]. split; [done|]. exists []. rewrite app_nil_r.
    destruct Hi as [Hi|Hi]; [|done]. assert (i = length events) as -> by lia.
    rewrite Hm by lia. by rewrite take_ge.
Qed.

(** Whatever the network answers, what a call of [postEvents] may have
    applied is a prefix of the events, each once and in order - all of them
    when it returns -, in requests of one to a hundred events. *)
Lemma postEvents_spec events answers :
  let '(made, error) := postEvents events answers in
  Forall sized made /\ exists rest, events = maybe_applied made ++ rest /\ (error = None -> rest = []).
Proof.
  destruct (postEvents_run events answers (S (length events)) 0 []) as (out & error & E & H); [lia|left; lia|done|constructor|].
  unfold postEvents. by rewrite E.
Qed.

(** One event is one batch. *)
Lemma postEvents_one e answers : postEvents [e] answers = post_batch [e] (answers 0).
Proof.
  unfold postEvents. cbn [length js_while postEvents_step]. cbn [Nat.ltb Nat.leb drop take MAX_RUNNER_EVENTS_PER_POST].
  destruct (post_batch_spec [e] (answers 0)) as (l & f & E & _). rewrite E.
  destruct (r_error f) as [x|] eqn:Ef; reflexivity.
Qed.
End postEvents.
Arguments Request : clear implicits.
