(* ===== verification/ReportChain.v ===== *)
(** * The report chain: [apps/runner/src/report-chain.ts]

    The chain as its state - the promise chain as the list of the sends on it,
    the counters, the re-send loops - and one function per thing that can
    happen to it: a report, the start of a send, the end of its post, the
    [finally] behind it, the end of a re-send's sleep, and the continuation of
    a re-send after its post. *)
From S2P Require Import Prelude PostEvents.
Local Open Scope nat_scope.

Definition MAX_QUEUED_REPORTS : Z := 200.
Definition TERMINAL_RESERVE : Z := 64.
Definition MAX_PENDING_RESENDS : Z := 64.
Definition MAX_PENDING_RESENDS_PER_SANDBOX : Z := 8.
Definition MAX_RESENDS : Z := 64.
Definition RESEND_BASE_MS : Z := 2000.
Definition RESEND_CAP_MS : Z := 60000.

(** The ceiling of a delay; [resendDelayMs] draws uniformly below it. *)
Definition resendCeiling (attempt : Z) : Z := Z.min RESEND_CAP_MS (RESEND_BASE_MS * 2 ^ attempt).

(** What the chain reads of a [RunnerEvent]; [body] is the rest. *)
Record RunnerEvent := {
  kind : jsstr;
  sandboxId : jsstr;
  turnId : jsstr;
  errorCode : option jsstr;
  body : jsstr;
}.

Definition DEATH_CODES : list jsstr := [js "agent_start_failed"; js "agent_restarted"].

Definition isTurnFinished (event : RunnerEvent) : bool := bool_decide (kind event = js "turn.finished").

Definition isResendable (event : RunnerEvent) : bool :=
  isTurnFinished event &&
  negb (match errorCode event with Some code => bool_decide (code ∈ DEATH_CODES) | None => false end).

(** A send on the chain: the post of a report, or of a re-send ([it_again]).
    [it_id] numbers the reports accepted, for the statements. *)
Record Item := { it_id : nat; it_event : RunnerEvent; it_again : bool }.

(** The first send of the chain: its callback not called, its post under way,
    or its promise settled with the [finally] behind it still to come. *)
Inductive Head := waiting | posting | settled.

(** A run of [resend]: asleep, awaiting its [postInOrder], or with its
    outcome. *)
Inductive Phase := sleeping | inOrder | answered (outcome : option Thrown).

Record Resend := { rs_event : RunnerEvent; attempt : Z; phase : Phase }.

Inductive Warning :=
  | w_queue_full (event : RunnerEvent)
  | w_failed (event : RunnerEvent) (error : Thrown)
  | w_resending (event : RunnerEvent) (error : Thrown)
  | w_may_have_landed (event : RunnerEvent) (error : Thrown)
  | w_gave_up (event : RunnerEvent).

(** The re-send bookkeeping: the two counters and the loops running. *)
Record Resends := {
  pendingResends : gmap jsstr Z;
  totalPendingResends : Z;
  loops : gmap nat Resend;
}.

(** What happened, for the statements: the warnings, the requests made, the
    sends queued, the sends whose post ended, and the reports accepted. *)
Record Journal := {
  warned : list Warning;
  requests : list (nat * Request RunnerEvent);
  enqueued : list Item;
  posted : list Item;
  accepted : list RunnerEvent;
}.

Record ReportChain := {
  chain : list Item;
  head : Head;
  queued : Z;
  resends : Resends;
  journal : Journal;
}.

Definition createReportChain : ReportChain :=
  {| chain := []; head := waiting; queued := 0;
     resends := {| pendingResends := ∅; totalPendingResends := 0; loops := ∅ |};
     journal := {| warned := []; requests := []; enqueued := []; posted := []; accepted := [] |} |}.

(** ** Updates *)

Definition warn (w : Warning) (c : ReportChain) : ReportChain :=
  {| chain := chain c; head := head c; queued := queued c; resends := resends c;
     journal := {| warned := warned (journal c) ++ [w]; requests := requests (journal c);
                   enqueued := enqueued (journal c); posted := posted (journal c); accepted := accepted (journal c) |} |}.

Definition set_resends (r : Resends) (c : ReportChain) : ReportChain :=
  {| chain := chain c; head := head c; queued := queued c; resends := r; journal := journal c |}.

Definition set_loops (l : gmap nat Resend) (c : ReportChain) : ReportChain :=
  set_resends {| pendingResends := pendingResends (resends c);
                 totalPendingResends := totalPendingResends (resends c); loops := l |} c.

(** [enqueue]. *)
Definition enqueue (item : Item) (c : ReportChain) : ReportChain :=
  {| chain := chain c ++ [item]; head := head c; queued := (queued c + 1)%Z; resends := resends c;
     journal := {| warned := warned (journal c); requests := requests (journal c);
                   enqueued := enqueued (journal c) ++ [item]; posted := posted (journal c);
                   accepted := accepted (journal c) |} |}.

(** ** The re-send counters *)

Definition holdResend (sandboxId : jsstr) (r : Resends) : option Resends :=
  let held := default 0%Z (pendingResends r !! sandboxId) in
  if ((MAX_PENDING_RESENDS <=? totalPendingResends r) || (MAX_PENDING_RESENDS_PER_SANDBOX <=? held))%Z then None
  else Some {| pendingResends := <[sandboxId := (held + 1)%Z]> (pendingResends r);
               totalPendingResends := (totalPendingResends r + 1)%Z; loops := loops r |}.

Definition releaseResend (sandboxId : jsstr) (r : Resends) : Resends :=
  let left := (default 1 (pendingResends r !! sandboxId) - 1)%Z in
  {| pendingResends := if (0 <? left)%Z then <[sandboxId := left]> (pendingResends r)
                       else delete sandboxId (pendingResends r);
     totalPendingResends := (totalPendingResends r - 1)%Z; loops := loops r |}.

(** ** The handlers *)

(** A loop's start: its first sleep. *)
Definition resend (id : nat) (event : RunnerEvent) (c : ReportChain) : ReportChain :=
  set_loops (<[id := {| rs_event := event; attempt := 0; phase := sleeping |}]> (loops (resends c))) c.

Definition failed (id : nat) (event : RunnerEvent) (error : Thrown) (c : ReportChain) : ReportChain :=
  let only_warn := warn (w_failed event error) c in
  if isResendable event && isProvablyUnapplied error then
    match holdResend (sandboxId event) (resends c) with
    | Some r => resend id event (warn (w_resending event error) (set_resends r c))
    | None => only_warn
    end
  else only_warn.

Definition report (event : RunnerEvent) (c : ReportChain) : ReportChain :=
  let cap := if isTurnFinished event then (MAX_QUEUED_REPORTS + TERMINAL_RESERVE)%Z else MAX_QUEUED_REPORTS in
  if (cap <=? queued c)%Z then warn (w_queue_full event) c
  else
    let j := journal c in
    let c := enqueue {| it_id := length (accepted j); it_event := event; it_again := false |} c in
    {| chain := chain c; head := head c; queued := queued c; resends := resends c;
       journal := {| warned := warned j; requests := requests j; enqueued := enqueued (journal c);
                     posted := posted j; accepted := accepted j ++ [event] |} |}.

(** The callback of the first send runs: its post starts. *)
Definition start (c : ReportChain) : option ReportChain :=
  match head c, chain c with
  | waiting, _ :: _ => Some {| chain := chain c; head := posting; queued := queued c; resends := resends c; journal := journal c |}
  | _, _ => None
  end.

(** The first send's post ends, the network having given [answers]. *)
Definition settle (answers : nat -> nat -> Fetched) (c : ReportChain) : option ReportChain :=
  match head c, chain c with
  | posting, item :: _ =>
      let '(made, error) := postEvents [it_event item] answers in
      let j := journal c in
      let c := {| chain := chain c; head := settled; queued := queued c; resends := resends c;
                  journal := {| warned := warned j; requests := requests j ++ map (pair (it_id item)) made;
                                enqueued := enqueued j; posted := posted j ++ [item]; accepted := accepted j |} |} in
      Some (if it_again item then
              set_loops (alter (fun r => {| rs_event := rs_event r; attempt := attempt r; phase := answered error |})
                               (it_id item) (loops (resends c))) c
            else match error with
                 | None => c
                 | Some e => failed (it_id item) (it_event item) e c
                 end)
  | _, _ => None
  end.

(** The [finally] behind the first send. *)
Definition finally (c : ReportChain) : option ReportChain :=
  match head c, chain c with
  | settled, _ :: rest =>
      Some {| chain := rest; head := waiting; queued := (queued c - 1)%Z; resends := resends c; journal := journal c |}
  | _, _ => None
  end.

(** A loop's sleep ends: its post joins the chain. *)
Definition wake (id : nat) (c : ReportChain) : option ReportChain :=
  match loops (resends c) !! id with
  | Some r =>
      match phase r with
      | sleeping =>
          Some (enqueue {| it_id := id; it_event := rs_event r; it_again := true |}
            (set_loops (<[id := {| rs_event := rs_event r; attempt := attempt r; phase := inOrder |}]> (loops (resends c))) c))
      | _ => None
      end
  | None => None
  end.

(** The end of a loop: [finally] releases its place. *)
Definition end_loop (id : nat) (event : RunnerEvent) (c : ReportChain) : ReportChain :=
  let r := releaseResend (sandboxId event) (resends c) in
  set_resends {| pendingResends := pendingResends r; totalPendingResends := totalPendingResends r;
                 loops := delete id (loops r) |} c.

(** A loop goes on with the outcome of its post. *)
Definition resume (id : nat) (c : ReportChain) : option ReportChain :=
  match loops (resends c) !! id with
  | Some {| rs_event := event; attempt := attempt; phase := answered outcome |} =>
      Some match outcome with
      | None => end_loop id event c
      | Some error =>
          if negb (isProvablyUnapplied error) then end_loop id event (warn (w_may_have_landed event error) c)
          else
            let attempt := (attempt + 1)%Z in
            if (attempt <? MAX_RESENDS)%Z
            then set_loops (<[id := {| rs_event := event; attempt := attempt; phase := sleeping |}]> (loops (resends c))) c
            else end_loop id event (warn (w_gave_up event) c)
      end
  | _ => None
  end.

(** ** Runs *)

Inductive Op :=
  | o_report (event : RunnerEvent)
  | o_start
  | o_settle (answers : nat -> nat -> Fetched)
  | o_finally
  | o_wake (id : nat)
  | o_resume (id : nat).

Definition step (op : Op) (c : ReportChain) : option ReportChain :=
  match op with
  | o_report event => Some (report event c)
  | o_start => start c
  | o_settle answers => settle answers c
  | o_finally => finally c
  | o_wake id => wake id c
  | o_resume id => resume id c
  end.

Definition run (ops : list Op) (c : ReportChain) : option ReportChain :=
  foldl (fun c op => c ≫= step op) (Some c) ops.
