(* ===== verification/ReportChainSpec.v ===== *)
(** * What the report chain promises

    Reports are posted one at a time in the order they were made; no request
    that may have been applied is ever made again; only turn ends that are no
    death reports are re-sent, at most 64 times; the queue and the re-sends
    are bounded; and once reports stop, everything is attempted. *)
From S2P Require Import Prelude PostEvents ReportChain.
Local Open Scope nat_scope.

(** The sends whose post has not ended. *)
Definition unsettled (c : ReportChain) : list Item :=
  match head c with settled => tail (chain c) | _ => chain c end.

Definition firsts (l : list Item) : list Item := List.filter (fun it => negb (it_again it)) l.
Definition agains (id : nat) (l : list Item) : list Item :=
  List.filter (fun it => it_again it && (it_id it =? id)) l.

(** The requests made for a report. *)
Definition reqs (id : nat) (c : ReportChain) : list (Request RunnerEvent) :=
  map snd (List.filter (fun x => fst x =? id) (requests (journal c))).

Definition all_unapplied (l : list (Request RunnerEvent)) : Prop := Forall (fun r => unapplied r = true) l.

(** At most the last request may have been applied. *)
Definition once (l : list (Request RunnerEvent)) : Prop :=
  exists earlier rest, l = earlier ++ rest /\ all_unapplied earlier /\ length rest <= 1.

(** ** The order of the sends *)

Record queue_inv (c : ReportChain) : Prop := {
  q_queued : queued c = Z.of_nat (length (chain c));
  q_head : head c <> waiting -> chain c <> [];
  q_log : enqueued (journal c) = posted (journal c) ++ unsettled c;
  q_first : map (fun it => (it_id it, it_event it)) (firsts (enqueued (journal c))) =
            imap pair (accepted (journal c));
}.

(** ** The re-send loops *)

Definition item_ok (c : ReportChain) (it : Item) : Prop :=
  accepted (journal c) !! it_id it = Some (it_event it) /\
  if it_again it
  then exists r, loops (resends c) !! it_id it = Some r /\ phase r = inOrder
  else loops (resends c) !! it_id it = None /\ agains (it_id it) (enqueued (journal c)) = [].

Definition loop_ok (c : ReportChain) (id : nat) (r : Resend) : Prop :=
  accepted (journal c) !! id = Some (rs_event r) /\ isResendable (rs_event r) = true /\
  (0 <= attempt r < MAX_RESENDS)%Z /\
  (phase r = inOrder -> exists it, it ∈ unsettled c /\ it_id it = id /\ it_again it = true) /\
  Z.of_nat (length (agains id (enqueued (journal c)))) =
    (attempt r + match phase r with sleeping => 0 | _ => 1 end)%Z.

Record loops_inv (c : ReportChain) : Prop := {
  l_nodup : NoDup (map it_id (unsettled c));
  l_items : forall it, it ∈ unsettled c -> item_ok c it;
  l_loops : forall id r, loops (resends c) !! id = Some r -> loop_ok c id r;
  l_events : forall it, it ∈ enqueued (journal c) ->
    accepted (journal c) !! it_id it = Some (it_event it) /\ (it_again it = true -> isResendable (it_event it) = true);
  l_agains : forall id, (Z.of_nat (length (agains id (enqueued (journal c)))) <= MAX_RESENDS)%Z;
  l_fresh : forall id, length (accepted (journal c)) <= id -> agains id (enqueued (journal c)) = [];
}.

(** ** The requests *)

Definition may_go_on (r : Resend) : bool :=
  match phase r with
  | answered None => false
  | answered (Some e) => isProvablyUnapplied e
  | _ => true
  end.

Record reqs_inv (c : ReportChain) : Prop := {
  r_once : forall id, once (reqs id c);
  r_items : forall it, it ∈ unsettled c -> all_unapplied (reqs (it_id it) c);
  r_loops : forall id r, loops (resends c) !! id = Some r -> may_go_on r = true -> all_unapplied (reqs id c);
  r_fresh : forall id, length (accepted (journal c)) <= id -> reqs id c = [];
  r_same : forall id r, (id, r) ∈ requests (journal c) ->
    exists e, accepted (journal c) !! id = Some e /\ r_events r = [e];
}.

(** ** The counters *)

Definition of_sandbox (s : jsstr) (m : gmap nat Resend) : gmap nat Resend :=
  filter (fun x => sandboxId (rs_event (snd x)) = s) m.

Definition counts_inv (r : Resends) : Prop :=
  totalPendingResends r = Z.of_nat (size (loops r)) /\ (totalPendingResends r <= MAX_PENDING_RESENDS)%Z /\
  forall s, default 0%Z (pendingResends r !! s) = Z.of_nat (size (of_sandbox s (loops r))) /\
    (default 0%Z (pendingResends r !! s) <= MAX_PENDING_RESENDS_PER_SANDBOX)%Z /\
    (pendingResends r !! s <> Some 0%Z).

Lemma size_of_sandbox_insert s id r m :
  m !! id = None ->
  size (of_sandbox s (<[id := r]> m)) =
  (if decide (sandboxId (rs_event r) = s) then 1 else 0) + size (of_sandbox s m).
Proof.
  intros Hn. unfold of_sandbox. rewrite map_filter_insert. cbn [snd]. destruct (decide _).
  - rewrite map_size_insert_None; [done|]. apply map_lookup_filter_None. by left.
  - by rewrite delete_id.
Qed.

Lemma size_of_sandbox_delete s id r m :
  m !! id = Some r ->
  size (of_sandbox s m) =
  (if decide (sandboxId (rs_event r) = s) then 1 else 0) + size (of_sandbox s (delete id m)).
Proof.
  intros Hr. rewrite <- (insert_delete_id m id r Hr) at 1. apply size_of_sandbox_insert, lookup_delete_eq.
Qed.

Lemma counts_hold id e r r' :
  counts_inv r -> loops r !! id = None -> holdResend (sandboxId e) r = Some r' ->
  counts_inv {| pendingResends := pendingResends r'; totalPendingResends := totalPendingResends r';
                loops := <[id := {| rs_event := e; attempt := 0; phase := sleeping |}]> (loops r') |}.
Proof.
  intros (H1 & H2 & H3) Hn. unfold holdResend.
  destruct (_ || _)%bool eqn:E; [done|]. intros [= <-]. apply orb_false_iff in E as [E1%Z.leb_gt E2%Z.leb_gt].
  unfold counts_inv. cbn [loops pendingResends totalPendingResends].
  rewrite map_size_insert_None by done. split; [lia|]. split; [lia|]. intros s.
  rewrite size_of_sandbox_insert by done. cbn [rs_event]. destruct (H3 s) as (H4 & H5 & H6).
  destruct (decide (sandboxId e = s)) as [<-|Hne].
  - rewrite lookup_insert_eq. cbn [default]. unfold Datatypes.id in *. split; [lia|]. split; [lia|]. intros [=]. lia.
  - rewrite lookup_insert_ne by done. by split_and!.
Qed.

Lemma counts_update id r0 r1 R :
  counts_inv R -> loops R !! id = Some r0 -> rs_event r1 = rs_event r0 ->
  counts_inv {| pendingResends := pendingResends R; totalPendingResends := totalPendingResends R;
                loops := <[id := r1]> (loops R) |}.
Proof.
  intros (H1 & H2 & H3) Hr He. unfold counts_inv. cbn [loops pendingResends totalPendingResends].
  rewrite map_size_insert_Some by eauto. split_and!; [done..|]. intros s.
  rewrite <- insert_delete_eq, size_of_sandbox_insert by apply lookup_delete_eq.
  rewrite He, <- size_of_sandbox_delete by done. apply H3.
Qed.

Lemma counts_release id r R :
  counts_inv R -> loops R !! id = Some r ->
  let R' := releaseResend (sandboxId (rs_event r)) R in
  counts_inv {| pendingResends := pendingResends R'; totalPendingResends := totalPendingResends R';
                loops := delete id (loops R') |}.
Proof.
  intros (H1 & H2 & H3) Hr. cbv zeta. unfold counts_inv, releaseResend. cbn [loops pendingResends totalPendingResends].
  rewrite map_size_delete_Some by eauto.
  assert (size (loops R) <> 0) as Hnz by (intros E%map_size_empty_inv; by rewrite E in Hr).
  split; [lia|]. split; [lia|]. intros s. destruct (H3 s) as (H4 & H5 & H6).
  rewrite (size_of_sandbox_delete s _ _ _ Hr) in H4. set (k := sandboxId (rs_event r)) in *.
  destruct (decide (k = s)) as [<-|Hne].
  - destruct (pendingResends R !! k) as [n|] eqn:En; cbn [default] in *; unfold Datatypes.id in *; [|lia].
    destruct (Z.ltb_spec 0 (n - 1)).
    + rewrite lookup_insert_eq. cbn [default]. unfold Datatypes.id. split; [lia|]. split; [lia|]. intros [=]. lia.
    + rewrite lookup_delete_eq. cbn. split; [lia|]. split; [unfold MAX_PENDING_RESENDS_PER_SANDBOX; lia|done].
  - destruct (0 <? _)%Z; rewrite ?lookup_insert_ne, ?lookup_delete_ne by done; by split_and!.
Qed.

(** ** What an operation leaves alone *)

(** The queue and what was sent are the same. *)
Definition same_queue (c c' : ReportChain) : Prop :=
  chain c' = chain c /\ head c' = head c /\ queued c' = queued c /\ requests (journal c') = requests (journal c) /\
  enqueued (journal c') = enqueued (journal c) /\ posted (journal c') = posted (journal c) /\
  accepted (journal c') = accepted (journal c).

Lemma same_queue_inv c c' : same_queue c c' -> queue_inv c -> queue_inv c'.
Proof.
  intros (E1 & E2 & E3 & E4 & E5 & E6 & E7) [H1 H2 H3 H4].
  constructor; unfold unsettled in *; by rewrite ?E1, ?E2, ?E3, ?E5, ?E6, ?E7.
Qed.

(** [failed] starts a loop, or only warns. *)
Lemma failed_cases id e err c :
  same_queue c (failed id e err c) /\
  (resends (failed id e err c) = resends c \/
   isResendable e = true /\ isProvablyUnapplied err = true /\
   exists r, holdResend (sandboxId e) (resends c) = Some r /\
     resends (failed id e err c) =
       {| pendingResends := pendingResends r; totalPendingResends := totalPendingResends r;
          loops := <[id := {| rs_event := e; attempt := 0; phase := sleeping |}]> (loops r) |}).
Proof.
  unfold failed. destruct (isResendable e), (isProvablyUnapplied err); cbn [andb]; try (split; [by split_and!|by left]).
  destruct (holdResend _ _) as [r|] eqn:E; (split; [by split_and!|]); [right|by left].
  split_and!; try done. by exists r.
Qed.

(** [resume] ends the loop, or puts it to sleep for its next attempt. *)
Lemma resume_cases id c c' :
  resume id c = Some c' ->
  exists r o, loops (resends c) !! id = Some r /\ phase r = answered o /\ same_queue c c' /\
    ((let R := releaseResend (sandboxId (rs_event r)) (resends c) in
      resends c' = {| pendingResends := pendingResends R; totalPendingResends := totalPendingResends R;
                      loops := delete id (loops R) |}) \/
     (exists err, o = Some err /\ isProvablyUnapplied err = true /\ (attempt r + 1 < MAX_RESENDS)%Z /\
      resends c' = {| pendingResends := pendingResends (resends c); totalPendingResends := totalPendingResends (resends c);
        loops := <[id := {| rs_event := rs_event r; attempt := (attempt r + 1)%Z; phase := sleeping |}]> (loops (resends c)) |})).
Proof.
  unfold resume. destruct (loops (resends c) !! id) as [[e a [| |o]]|] eqn:E; try done.
  intros [= <-]. exists {| rs_event := e; attempt := a; phase := answered o |}, o.
  split; [done|]. split; [done|]. destruct o as [err|]; [|split; [by split_and!|by left]].
  destruct (isProvablyUnapplied err) eqn:Ee; cbn [negb]; [|split; [by split_and!|by left]].
  cbn [attempt rs_event]. destruct (Z.ltb_spec (a + 1) MAX_RESENDS); (split; [by split_and!|]); [right|by left].
  exists err. by split_and!.
Qed.

Lemma firsts_app l l' : firsts (l ++ l') = firsts l ++ firsts l'.
Proof. apply List.filter_app. Qed.

(** A send joined the queue. *)
Definition pushed (it : Item) (c c' : ReportChain) : Prop :=
  chain c' = chain c ++ [it] /\ head c' = head c /\ queued c' = (queued c + 1)%Z /\
  requests (journal c') = requests (journal c) /\ enqueued (journal c') = enqueued (journal c) ++ [it] /\
  posted (journal c') = posted (journal c).

Definition cap_of (e : RunnerEvent) : Z :=
  if isTurnFinished e then MAX_QUEUED_REPORTS + TERMINAL_RESERVE else MAX_QUEUED_REPORTS.

Definition first_item (e : RunnerEvent) (c : ReportChain) : Item :=
  {| it_id := length (accepted (journal c)); it_event := e; it_again := false |}.

Lemma report_cases e c :
  resends (report e c) = resends c /\
  ((cap_of e <= queued c)%Z /\ same_queue c (report e c) \/
   (queued c < cap_of e)%Z /\ pushed (first_item e c) c (report e c) /\
   accepted (journal (report e c)) = accepted (journal c) ++ [e]).
Proof.
  unfold report. fold (cap_of e). destruct (Z.leb_spec (cap_of e) (queued c)); (split; [done|]).
  - left. split; [done|]. by split_and!.
  - right. split; [done|]. by split_and!.
Qed.

Lemma wake_cases id c c' :
  wake id c = Some c' ->
  exists r, loops (resends c) !! id = Some r /\ phase r = sleeping /\
    pushed {| it_id := id; it_event := rs_event r; it_again := true |} c c' /\
    accepted (journal c') = accepted (journal c) /\
    resends c' = {| pendingResends := pendingResends (resends c); totalPendingResends := totalPendingResends (resends c);
      loops := <[id := {| rs_event := rs_event r; attempt := attempt r; phase := inOrder |}]> (loops (resends c)) |}.
Proof.
  unfold wake. destruct (loops (resends c) !! id) as [r|] eqn:E; [|done]. destruct (phase r) eqn:Ep; try done.
  intros [= <-]. exists r. by split_and!.
Qed.

(** The first send's post ended. *)
Lemma settle_cases answers c c' :
  settle answers c = Some c' ->
  exists it rest made error, head c = posting /\ chain c = it :: rest /\ chain c' = chain c /\ head c' = settled /\
    queued c' = queued c /\ postEvents [it_event it] answers = (made, error) /\
    requests (journal c') = requests (journal c) ++ map (pair (it_id it)) made /\
    enqueued (journal c') = enqueued (journal c) /\ posted (journal c') = posted (journal c) ++ [it] /\
    accepted (journal c') = accepted (journal c) /\
    if it_again it then
      resends c' = {| pendingResends := pendingResends (resends c); totalPendingResends := totalPendingResends (resends c);
        loops := alter (fun r => {| rs_event := rs_event r; attempt := attempt r; phase := answered error |})
                   (it_id it) (loops (resends c)) |}
    else resends c' = resends c \/
      exists err r, error = Some err /\ isResendable (it_event it) = true /\ isProvablyUnapplied err = true /\
        holdResend (sandboxId (it_event it)) (resends c) = Some r /\
        resends c' = {| pendingResends := pendingResends r; totalPendingResends := totalPendingResends r;
          loops := <[it_id it := {| rs_event := it_event it; attempt := 0; phase := sleeping |}]> (loops r) |}.
Proof.
  unfold settle. destruct (head c) eqn:Eh; try done. destruct (chain c) as [|it rest] eqn:Ec; [done|].
  destruct (postEvents [it_event it] answers) as [made error] eqn:Ep.
  intros [= <-]. exists it, rest, made, error. destruct (it_again it) eqn:Ea; [by split_and!|].
  destruct error as [err|]; [|split_and!; try done; by left].
  match goal with |- context [failed ?i ?e ?x ?d] =>
    destruct (failed_cases i e x d) as [(E1 & E2 & E3 & E4 & E5 & E6 & E7) Hr]; set (d' := failed i e x d) in * end.
  cbn [chain head queued journal requests enqueued posted accepted resends] in *.
  split_and!; try done; try congruence.
  destruct Hr as [Hr|(H1 & H2 & r & H3 & H4)]; [by left|right]. exists err, r. by split_and!.
Qed.

Lemma finally_cases c c' :
  finally c = Some c' ->
  exists it rest, head c = settled /\ chain c = it :: rest /\ chain c' = rest /\ head c' = waiting /\
    queued c' = (queued c - 1)%Z /\ resends c' = resends c /\ journal c' = journal c.
Proof.
  unfold finally. destruct (head c) eqn:Eh; try done. destruct (chain c) as [|it rest] eqn:Ec; [done|].
  intros [= <-]. by exists it, rest.
Qed.

Lemma start_cases c c' :
  start c = Some c' ->
  exists it rest, head c = waiting /\ chain c = it :: rest /\ chain c' = chain c /\ head c' = posting /\
    queued c' = queued c /\ resends c' = resends c /\ journal c' = journal c.
Proof.
  unfold start. destruct (head c) eqn:Eh; try done. destruct (chain c) as [|it rest] eqn:Ec; [done|].
  intros [= <-]. by exists it, rest.
Qed.

(** ** The order of the sends, kept *)

Lemma pushed_unsettled it c c' : queue_inv c -> pushed it c c' -> unsettled c' = unsettled c ++ [it].
Proof.
  intros H (E1 & E2 & _). unfold unsettled. rewrite E1, E2. destruct (head c) eqn:Eh; try done.
  destruct (chain c) eqn:Ec; [|done]. destruct (q_head c H); [by rewrite Eh|done].
Qed.

Lemma pushed_queue it c c' :
  queue_inv c -> pushed it c c' ->
  map (fun it => (it_id it, it_event it)) (firsts (enqueued (journal c) ++ [it])) = imap pair (accepted (journal c')) ->
  queue_inv c'.
Proof.
  intros H Hp Hf. pose proof (pushed_unsettled _ _ _ H Hp) as Hu. destruct H as [H1 H2 H3 H4].
  destruct Hp as (E1 & E2 & E3 & E4 & E5 & E6). constructor.
  - rewrite E1, E3, length_app. cbn. lia.
  - intros _. rewrite E1. by intros [_ [=]]%app_nil.
  - by rewrite E5, E6, Hu, H3, app_assoc.
  - by rewrite E5.
Qed.

Lemma step_queue op c c' : queue_inv c -> step op c = Some c' -> queue_inv c'.
Proof.
  intros H Hs. destruct op as [e| |answers| |id|id]; cbn [step] in Hs.
  - injection Hs as <-. destruct (report_cases e c) as [_ [[_ Hq]|(_ & Hp & Ha)]]; [by apply (same_queue_inv c)|].
    apply (pushed_queue _ _ _ H Hp). rewrite Ha, firsts_app, map_app, (q_first c H), imap_app. cbn. by rewrite Nat.add_0_r.
  - apply start_cases in Hs as (it & rest & Eh & Ec & E1 & E2 & E3 & E4 & E5). destruct H as [H1 H2 H3 H4].
    unfold unsettled in *. rewrite Eh in *. constructor; unfold unsettled; rewrite ?E1, ?E2, ?E3, ?E5; try done. by rewrite Ec.
  - apply settle_cases in Hs as (it & rest & made & err & Eh & Ec & E1 & E2 & E3 & _ & E4 & E5 & E6 & E7 & _).
    destruct H as [H1 H2 H3 H4]. unfold unsettled in *. rewrite Eh in *.
    constructor; unfold unsettled; rewrite ?E1, ?E2, ?E3, ?E5, ?E6, ?E7; try done; [by rewrite Ec|].
    rewrite H3, Ec, <- app_assoc. done.
  - apply finally_cases in Hs as (it & rest & Eh & Ec & E1 & E2 & E3 & E4 & E5). destruct H as [H1 H2 H3 H4].
    unfold unsettled in *. rewrite Eh, Ec in *. constructor; unfold unsettled; rewrite ?E1, ?E2, ?E3, ?E5; try done.
    cbn [length] in *. lia.
  - apply wake_cases in Hs as (r & _ & _ & Hp & Ha & _). apply (pushed_queue _ _ _ H Hp).
    rewrite Ha, firsts_app. cbn. by rewrite app_nil_r, (q_first c H).
  - apply resume_cases in Hs as (r & o & _ & _ & Hq & _). by apply (same_queue_inv c).
Qed.

(** ** The loops, kept *)

Definition inv (c : ReportChain) : Prop :=
  queue_inv c /\ loops_inv c /\ reqs_inv c /\ counts_inv (resends c).

Lemma alter_some {A} (f : A -> A) (m : gmap nat A) i x : m !! i = Some x -> alter f i m = <[i := f x]> m.
Proof. intros H. rewrite <- (insert_id m i x H) at 1. by rewrite alter_insert_eq. Qed.

Lemma agains_app id l l' : agains id (l ++ l') = agains id l ++ agains id l'.
Proof. apply List.filter_app. Qed.

Lemma agains_one id it : agains id [it] = if it_again it && (it_id it =? id) then [it] else [].
Proof. done. Qed.

(** A loop that is not in the queue has no send there. *)
Lemma no_item id r c :
  loops_inv c -> loops (resends c) !! id = Some r -> phase r <> inOrder ->
  forall it, it ∈ unsettled c -> it_id it <> id.
Proof.
  intros H Hr Hp it Hit E. destruct (l_items c H it Hit) as [_ Hi]. rewrite E in Hi.
  destruct (it_again it); [destruct Hi as (r' & E' & ?)|destruct Hi as [E' _]]; congruence.
Qed.

Lemma item_id_lt c it : loops_inv c -> it ∈ unsettled c -> it_id it < length (accepted (journal c)).
Proof. intros H Hit. destruct (l_items c H it Hit) as [Ha _]. by apply lookup_lt_Some in Ha. Qed.

(** The queue's new send is a report's. *)
Lemma loops_report e c c' :
  queue_inv c -> loops_inv c -> pushed (first_item e c) c c' -> resends c' = resends c ->
  accepted (journal c') = accepted (journal c) ++ [e] -> loops_inv c'.
Proof.
  intros Hq H Hp Hr Ha. pose proof (pushed_unsettled _ _ _ Hq Hp) as Hu.
  destruct Hp as (_ & _ & _ & _ & He & _). set (n := length (accepted (journal c))) in *.
  assert (forall id, agains id (enqueued (journal c')) = agains id (enqueued (journal c))) as Hag.
  { intros id. rewrite He, agains_app. cbn. by rewrite app_nil_r. }
  assert (forall id x, accepted (journal c) !! id = Some x -> accepted (journal c') !! id = Some x) as Hacc.
  { intros id x Hx. rewrite Ha. by apply lookup_app_l_Some. }
  assert (accepted (journal c') !! n = Some e) as Hn by (rewrite Ha; by apply list_lookup_middle).
  constructor.
  - rewrite Hu, map_app. apply NoDup_app. split_and!; [apply (l_nodup c H)| |apply NoDup_singleton].
    intros x (it & -> & Hit)%elem_of_lmap Hx%list_elem_of_singleton. cbn in Hx.
    pose proof (item_id_lt c it H Hit). subst n. lia.
  - intros it. rewrite Hu. intros [Hit| ->%list_elem_of_singleton]%elem_of_app; unfold item_ok; rewrite Hr, Hag.
    + destruct (l_items c H it Hit) as [H1 H2]. split; [by apply Hacc|done].
    + cbn [it_id it_event it_again first_item]. split; [done|]. split; [|by apply (l_fresh c H)].
      destruct (loops (resends c) !! n) as [r|] eqn:E; [|done]. destruct (l_loops c H _ _ E) as [H1 _].
      apply lookup_lt_Some in H1. subst n. lia.
  - intros id r. rewrite Hr. intros Hl. destruct (l_loops c H id r Hl) as (H1 & H2 & H3 & H4 & H5).
    unfold loop_ok. rewrite Hag. split_and!; try done; try lia; [by apply Hacc|].
    intros Hi. destruct (H4 Hi) as (it & H6 & H7). exists it. split; [|done]. rewrite Hu. apply elem_of_app. by left.
  - intros it. rewrite He. intros [Hit| ->%list_elem_of_singleton]%elem_of_app; [|done].
    destruct (l_events c H it Hit) as [H1 H2]. split; [by apply Hacc|done].
  - intros id. rewrite Hag. apply (l_agains c H).
  - intros id Hid. rewrite Hag. apply (l_fresh c H). rewrite Ha, length_app in Hid. cbn in Hid. lia.
Qed.

(** A loop joins the queue. *)
Lemma loops_wake id r c c' :
  queue_inv c -> loops_inv c -> loops (resends c) !! id = Some r -> phase r = sleeping ->
  pushed {| it_id := id; it_event := rs_event r; it_again := true |} c c' ->
  accepted (journal c') = accepted (journal c) ->
  loops (resends c') = <[id := {| rs_event := rs_event r; attempt := attempt r; phase := inOrder |}]> (loops (resends c)) ->
  loops_inv c'.
Proof.
  intros Hq H Hl Hs Hp Ha Hr. pose proof (pushed_unsettled _ _ _ Hq Hp) as Hu.
  destruct Hp as (_ & _ & _ & _ & He & _). destruct (l_loops c H id r Hl) as (R1 & R2 & R3 & _ & R5). rewrite Hs in R5.
  assert (forall it, it ∈ unsettled c -> it_id it <> id) as Hno by (apply (no_item id r c H Hl); by rewrite Hs).
  assert (forall k, agains k (enqueued (journal c')) =
    agains k (enqueued (journal c)) ++ if id =? k then [{| it_id := id; it_event := rs_event r; it_again := true |}] else []) as Hag.
  { intros k. by rewrite He, agains_app, agains_one. }
  constructor.
  - rewrite Hu, map_app. apply NoDup_app. split_and!; [apply (l_nodup c H)| |apply NoDup_singleton].
    intros x (it & -> & Hit)%elem_of_lmap Hx%list_elem_of_singleton. by apply (Hno it).
  - intros it. rewrite Hu. unfold item_ok. rewrite Ha, Hr.
    intros [Hit| ->%list_elem_of_singleton]%elem_of_app; cbn [it_id it_event it_again].
    + rewrite lookup_insert_ne by (intros E; by apply (Hno it Hit)).
      rewrite Hag. destruct (Nat.eqb_spec id (it_id it)) as [E|_]; [by destruct (Hno it Hit)|].
      rewrite app_nil_r. by apply (l_items c H).
    + split; [done|]. eexists. by rewrite lookup_insert_eq.
  - intros k r'. rewrite Hr. unfold loop_ok. rewrite Ha, Hag. destruct (decide (id = k)) as [<-|Hne].
    + rewrite lookup_insert_eq, Nat.eqb_refl. intros [= <-]. cbn [rs_event attempt phase]. split_and!; try done; try lia.
      * intros _. eexists. split; [rewrite Hu; apply elem_of_app; right; by left|done].
      * rewrite length_app. cbn [length]. lia.
    + rewrite lookup_insert_ne by done. intros Hl'. destruct (Nat.eqb_spec id k) as [|_]; [done|].
      rewrite app_nil_r. destruct (l_loops c H k r' Hl') as (H1 & H2 & H3 & H4 & H5). split_and!; try done; try lia.
      intros Hi. destruct (H4 Hi) as (it & H6 & H7). exists it. split; [rewrite Hu; apply elem_of_app; by left|done].
  - intros it. rewrite He, Ha. intros [Hit| ->%list_elem_of_singleton]%elem_of_app; [by apply (l_events c H)|done].
  - intros k. rewrite Hag. pose proof (l_agains c H k). destruct (Nat.eqb_spec id k) as [<-|_]; rewrite length_app; cbn [length]; lia.
  - intros k. rewrite Ha, Hag. intros Hk. rewrite (l_fresh c H k Hk).
    destruct (Nat.eqb_spec id k) as [<-|_]; [|done]. apply lookup_lt_Some in R1. lia.
Qed.

(** What holds of a loop that is not in the queue. *)
Definition idle_ok (c : ReportChain) (id : nat) (r : Resend) : Prop :=
  phase r <> inOrder /\ accepted (journal c) !! id = Some (rs_event r) /\ isResendable (rs_event r) = true /\
  (0 <= attempt r < MAX_RESENDS)%Z /\
  Z.of_nat (length (agains id (enqueued (journal c)))) =
    (attempt r + match phase r with sleeping => 0 | _ => 1 end)%Z.

(** One loop changes, and has no send in the queue afterwards. *)
Lemma loops_update id o c c' :
  loops_inv c -> enqueued (journal c') = enqueued (journal c) -> accepted (journal c') = accepted (journal c) ->
  (forall it, it ∈ unsettled c' <-> it ∈ unsettled c /\ it_id it <> id) -> NoDup (map it_id (unsettled c')) ->
  loops (resends c') = partial_alter (fun _ => o) id (loops (resends c)) ->
  (forall r, o = Some r -> idle_ok c id r) -> loops_inv c'.
Proof.
  intros H He Ha Hu Hnd Hl Ho. constructor; [done| | |rewrite He, Ha; apply (l_events c H)| |].
  - intros it [Hit Hne]%Hu. unfold item_ok. rewrite He, Ha, Hl, lookup_partial_alter_ne by done.
    by apply (l_items c H).
  - intros k r. unfold loop_ok. rewrite He, Ha, Hl. destruct (decide (id = k)) as [<-|Hne].
    + rewrite lookup_partial_alter_eq. intros Hr. destruct (Ho r Hr) as (H1 & H2 & H3 & H4 & H5). by split_and!; try lia.
    + rewrite lookup_partial_alter_ne by done. intros Hr. destruct (l_loops c H k r Hr) as (H1 & H2 & H3 & H4 & H5).
      split_and!; try done; try lia. intros Hi. destruct (H4 Hi) as (it & H6 & H7 & H8). exists it.
      split; [apply Hu; split; [done|congruence]|done].
  - rewrite He. apply (l_agains c H).
  - rewrite He, Ha. apply (l_fresh c H).
Qed.

Lemma loops_settle answers c c' :
  loops_inv c -> settle answers c = Some c' -> loops_inv c'.
Proof.
  intros H Hs. apply settle_cases in Hs as (it & rest & made & err & Eh & Ec & E1 & E2 & _ & _ & _ & E5 & _ & E7 & Hr).
  assert (unsettled c = it :: rest) as Hu by (unfold unsettled; by rewrite Eh, Ec).
  assert (unsettled c' = rest) as Hu' by (unfold unsettled; by rewrite E2, E1, Ec).
  pose proof (l_nodup c H) as Hnd. rewrite Hu in Hnd. cbn in Hnd. apply NoDup_cons in Hnd as [Hn Hnd].
  destruct (l_items c H it ltac:(rewrite Hu; by left)) as [Hacc Hit].
  assert (forall x, x ∈ unsettled c' <-> x ∈ unsettled c /\ it_id x <> it_id it) as Hsub.
  { intros x. rewrite Hu, Hu'. split; [|by intros [[->|Hx]%elem_of_cons Hne]].
    intros Hx. split; [by right|]. intros E. destruct Hn. rewrite <- E. change (it_id x ∈ map it_id rest).
    apply elem_of_lmap. by exists x. }
  assert (forall o, loops (resends c') = partial_alter (fun _ => o) (it_id it) (loops (resends c)) ->
    (forall r, o = Some r -> idle_ok c (it_id it) r) -> loops_inv c') as Hgo.
  { intros o. apply loops_update; try done. by rewrite Hu'. }
  destruct (it_again it) eqn:Ea.
  - destruct Hit as (r & El & Ep). destruct (l_loops c H _ _ El) as (R1 & R2 & R3 & _ & R5). rewrite Ep in R5.
    rewrite (alter_some _ _ _ _ El) in Hr.
    apply (Hgo (Some {| rs_event := rs_event r; attempt := attempt r; phase := answered err |})); [by rewrite Hr|].
    intros r' [= <-]. split_and!; cbn [rs_event attempt phase]; try done; lia.
  - destruct Hit as [El Hag]. destruct Hr as [Hr|(x & r & -> & Hres & _ & Hh & Hr)].
    + apply (Hgo None); [|done]. rewrite Hr. change (loops (resends c) = delete (it_id it) (loops (resends c))).
      by rewrite delete_id.
    + apply (Hgo (Some {| rs_event := it_event it; attempt := 0; phase := sleeping |})).
      * rewrite Hr. cbn [loops]. unfold holdResend in Hh. destruct (_ || _)%bool; [done|]. by injection Hh as <-.
      * intros r' [= <-]. split_and!; cbn [rs_event attempt phase]; try done. by rewrite Hag.
Qed.

Lemma loops_resume id c c' : loops_inv c -> resume id c = Some c' -> loops_inv c'.
Proof.
  intros H Hs. apply resume_cases in Hs as (r & o & El & Ep & (E1 & E2 & _ & _ & E5 & _ & E7) & Hr).
  assert (unsettled c' = unsettled c) as Hu by (unfold unsettled; by rewrite E1, E2).
  assert (forall o, loops (resends c') = partial_alter (fun _ => o) id (loops (resends c)) ->
    (forall r, o = Some r -> idle_ok c id r) -> loops_inv c') as Hgo.
  { intros o'. apply loops_update; try done; rewrite Hu; [|apply (l_nodup c H)].
    intros it. split; [|by intros [? _]]. intros Hit. split; [done|]. apply (no_item id r c H El); [|done]. by rewrite Ep. }
  destruct (l_loops c H _ _ El) as (R1 & R2 & R3 & _ & R5). rewrite Ep in R5.
  destruct Hr as [Hr|(err & -> & _ & Hlt & Hr)].
  - apply (Hgo None); [by rewrite Hr|done].
  - apply (Hgo (Some {| rs_event := rs_event r; attempt := (attempt r + 1)%Z; phase := sleeping |})); [by rewrite Hr|].
    intros r' [= <-]. split_and!; cbn [rs_event attempt phase]; try done; lia.
Qed.

Lemma loops_same c c' :
  loops_inv c -> resends c' = resends c -> enqueued (journal c') = enqueued (journal c) ->
  accepted (journal c') = accepted (journal c) -> unsettled c' = unsettled c -> loops_inv c'.
Proof.
  intros [H1 H2 H3 H4 H5 H6] Er Ee Ea Eu.
  constructor; unfold item_ok, loop_ok in *; by rewrite ?Er, ?Ee, ?Ea, ?Eu.
Qed.

Lemma step_loops op c c' : queue_inv c -> loops_inv c -> step op c = Some c' -> loops_inv c'.
Proof.
  intros Hq H Hs. destruct op as [e| |answers| |id|id]; cbn [step] in Hs.
  - injection Hs as <-. destruct (report_cases e c) as [Hr [[_ (E1 & E2 & _ & _ & E5 & _ & E7)]|(_ & Hp & Ha)]].
    + apply (loops_same c); try done. unfold unsettled. by rewrite E1, E2.
    + by apply (loops_report e c).
  - apply start_cases in Hs as (it & rest & Eh & Ec & E1 & E2 & _ & E4 & E5).
    apply (loops_same c); try done; [by rewrite E5..|]. unfold unsettled. by rewrite E1, E2, Eh.
  - by apply (loops_settle answers c).
  - apply finally_cases in Hs as (it & rest & Eh & Ec & E1 & E2 & _ & E4 & E5).
    apply (loops_same c); try done; [by rewrite E5..|]. unfold unsettled. by rewrite E1, E2, Eh, Ec.
  - apply wake_cases in Hs as (r & El & Ep & Hp & Ha & Hr). eapply loops_wake; eauto. by rewrite Hr.
  - by apply (loops_resume id c).
Qed.

(** ** The requests, kept *)

Lemma posted_one e answers made error :
  postEvents [e] answers = (made, error) ->
  exists earlier final, made = earlier ++ [final] /\ error = r_error final /\ all_unapplied earlier /\
    Forall (fun r => r_events r = [e]) made.
Proof.
  rewrite postEvents_one. destruct (post_batch_spec [e] (answers 0)) as (l & f & E & H1 & H2 & _).
  rewrite E. intros [= <- <-]. by exists l, f.
Qed.

Lemma reqs_app id c c' k made :
  requests (journal c') = requests (journal c) ++ map (pair k) made ->
  reqs id c' = reqs id c ++ if k =? id then made else [].
Proof.
  intros E. unfold reqs. rewrite E, List.filter_app, map_app. f_equal. clear E.
  induction made as [|r l IH]; [by destruct (k =? id)|]. cbn [map List.filter fst].
  destruct (k =? id); [|done]. cbn [map snd]. by f_equal.
Qed.

Lemma all_unapplied_app l l' : all_unapplied (l ++ l') <-> all_unapplied l /\ all_unapplied l'.
Proof. apply Forall_app. Qed.

Lemma once_snoc l earlier final : all_unapplied l -> all_unapplied earlier -> once (l ++ earlier ++ [final]).
Proof.
  intros H1 H2. exists (l ++ earlier), [final]. rewrite <- app_assoc. split_and!; [done| |done].
  by apply all_unapplied_app.
Qed.

(** Nothing was requested: sends may only leave, and loops that may go on
    only be such, or started on what provably failed. *)
Lemma reqs_quiet c c' :
  reqs_inv c -> requests (journal c') = requests (journal c) ->
  (exists l, accepted (journal c') = accepted (journal c) ++ l) ->
  (forall it, it ∈ unsettled c' -> it ∈ unsettled c \/ all_unapplied (reqs (it_id it) c)) ->
  (forall id r, loops (resends c') !! id = Some r -> may_go_on r = true -> all_unapplied (reqs id c)) ->
  reqs_inv c'.
Proof.
  intros H Er [l Ea] Hu Hl. assert (forall id, reqs id c' = reqs id c) as E by (intros id; unfold reqs; by rewrite Er).
  constructor.
  - intros id. rewrite E. apply (r_once c H).
  - intros it Hit. rewrite E. destruct (Hu it Hit) as [Hit'|]; [by apply (r_items c H)|done].
  - intros id r. rewrite E. apply Hl.
  - intros id Hid. rewrite E. apply (r_fresh c H). rewrite Ea, length_app in Hid. lia.
  - intros id r. rewrite Er, Ea. intros (e & He & Hr)%(r_same c H). exists e. split; [|done]. by apply lookup_app_l_Some.
Qed.

Lemma reqs_settle answers c c' :
  loops_inv c -> reqs_inv c -> settle answers c = Some c' -> reqs_inv c'.
Proof.
  intros Hl H Hs. apply settle_cases in Hs as (it & rest & made & err & Eh & Ec & E1 & E2 & _ & Hp & E4 & E5 & _ & E7 & Hr).
  apply posted_one in Hp as (earlier & final & -> & -> & Hun & Hsame).
  assert (unsettled c = it :: rest) as Hu by (unfold unsettled; by rewrite Eh, Ec).
  assert (unsettled c' = rest) as Hu' by (unfold unsettled; by rewrite E2, E1, Ec).
  pose proof (l_nodup c Hl) as Hnd. rewrite Hu in Hnd. cbn in Hnd. apply NoDup_cons in Hnd as [Hn _].
  destruct (l_items c Hl it ltac:(rewrite Hu; by left)) as [Hacc Hit].
  pose proof (r_items c H it ltac:(rewrite Hu; by left)) as Hold.
  assert (forall id, reqs id c' = reqs id c ++ if it_id it =? id then earlier ++ [final] else []) as E
    by (intros id; by apply reqs_app).
  constructor.
  - intros id. rewrite E. destruct (Nat.eqb_spec (it_id it) id) as [<-|_]; [by apply once_snoc|].
    rewrite app_nil_r. apply (r_once c H).
  - intros x. rewrite Hu', E. intros Hx. destruct (Nat.eqb_spec (it_id it) (it_id x)) as [Ex|_].
    + destruct Hn. rewrite Ex. change (it_id x ∈ map it_id rest). apply elem_of_lmap. by exists x.
    + rewrite app_nil_r. apply (r_items c H). rewrite Hu. by right.
  - intros id r Hlr Hgo. rewrite E. destruct (Nat.eqb_spec (it_id it) id) as [<-|Hne].
    + assert (unapplied final = true) as Hf.
      2: { apply all_unapplied_app. split; [done|]. apply all_unapplied_app. split; [done|]. by apply Forall_singleton. }
      destruct (it_again it); [destruct Hit as (r0 & El & _)|destruct Hit as [El _]].
      * rewrite Hr, (alter_some _ _ _ _ El) in Hlr. cbn [loops] in Hlr. rewrite lookup_insert_eq in Hlr.
        injection Hlr as <-. unfold may_go_on, unapplied in *. cbn [phase] in Hgo. by destruct (r_error final).
      * destruct Hr as [Hr|(x & r1 & Ex & _ & Hx & _)]; [rewrite Hr in Hlr; congruence|]. unfold unapplied. by rewrite Ex.
    + rewrite app_nil_r. apply (r_loops c H id r); [|done]. revert Hlr. destruct (it_again it).
      * rewrite Hr. cbn [loops]. by rewrite lookup_alter_ne.
      * destruct Hr as [->|(x & r1 & _ & _ & _ & Hh & ->)]; [done|]. cbn [loops]. rewrite lookup_insert_ne by done.
        unfold holdResend in Hh. destruct (_ || _)%bool; [done|]. by injection Hh as <-.
  - intros id. rewrite E7. intros Hid. rewrite E, (r_fresh c H id Hid). apply lookup_lt_Some in Hacc.
    by destruct (Nat.eqb_spec (it_id it) id) as [<-|_]; [lia|].
  - intros id r. rewrite E4, E7. intros [Hin|(r' & [= -> ->] & Hin)%elem_of_lmap]%elem_of_app; [by apply (r_same c H)|].
    exists (it_event it). split; [done|]. rewrite Forall_forall in Hsame. by apply Hsame.
Qed.

Lemma step_reqs op c c' : queue_inv c -> loops_inv c -> reqs_inv c -> step op c = Some c' -> reqs_inv c'.
Proof.
  intros Hq Hl H Hs. destruct op as [e| |answers| |id|id]; cbn [step] in Hs.
  - injection Hs as <-. destruct (report_cases e c) as [Hr [[_ (E1 & E2 & _ & E4 & E5 & _ & E7)]|(_ & Hp & Ha)]].
    + apply (reqs_quiet c); try done; [exists []; by rewrite app_nil_r| |rewrite Hr; apply (r_loops c H)].
      intros it. unfold unsettled. rewrite E1, E2. by left.
    + apply (reqs_quiet c); try done; [apply Hp|by exists [e]| |rewrite Hr; apply (r_loops c H)].
      intros it. rewrite (pushed_unsettled _ _ _ Hq Hp). intros [Hit| ->%list_elem_of_singleton]%elem_of_app; [by left|right].
      cbn [it_id first_item]. rewrite (r_fresh c H) by done. constructor.
  - apply start_cases in Hs as (it & rest & Eh & Ec & E1 & E2 & _ & E4 & E5).
    apply (reqs_quiet c); rewrite ?E4, ?E5; try done; [exists []; by rewrite app_nil_r| |apply (r_loops c H)].
    intros x. unfold unsettled. rewrite E1, E2, Eh. by left.
  - by apply (reqs_settle answers c).
  - apply finally_cases in Hs as (it & rest & Eh & Ec & E1 & E2 & _ & E4 & E5).
    apply (reqs_quiet c); rewrite ?E4, ?E5; try done; [exists []; by rewrite app_nil_r| |apply (r_loops c H)].
    intros x. unfold unsettled. rewrite E1, E2, Eh, Ec. by left.
  - apply wake_cases in Hs as (r & El & Ep & Hp & Ha & Hr).
    assert (all_unapplied (reqs id c)) as Hid by (apply (r_loops c H id r El); unfold may_go_on; by rewrite Ep).
    apply (reqs_quiet c); try done; [apply Hp|exists []; by rewrite app_nil_r| |].
    + intros it. rewrite (pushed_unsettled _ _ _ Hq Hp). intros [Hit| ->%list_elem_of_singleton]%elem_of_app; [by left|by right].
    + intros k x. rewrite Hr. cbn [loops]. destruct (decide (id = k)) as [<-|Hne]; [done|].
      rewrite lookup_insert_ne by done. apply (r_loops c H).
  - apply resume_cases in Hs as (r & o & El & Ep & (E1 & E2 & _ & E4 & _ & _ & E7) & Hr).
    apply (reqs_quiet c); try done; [exists []; by rewrite app_nil_r| |].
    + intros it. unfold unsettled. rewrite E1, E2. by left.
    + intros k x. destruct Hr as [->|(err & -> & Hun & _ & ->)]; cbn [loops].
      * unfold releaseResend. cbn [loops]. intros [_ Hk]%lookup_delete_Some. by apply (r_loops c H).
      * destruct (decide (id = k)) as [<-|Hne]; [|rewrite lookup_insert_ne by done; apply (r_loops c H)].
        intros _ _. apply (r_loops c H id r El). unfold may_go_on. by rewrite Ep.
Qed.

(** ** The counters, kept *)

Lemma step_counts op c c' : loops_inv c -> counts_inv (resends c) -> step op c = Some c' -> counts_inv (resends c').
Proof.
  intros Hl H Hs. destruct op as [e| |answers| |id|id]; cbn [step] in Hs.
  - injection Hs as <-. by destruct (report_cases e c) as [-> _].
  - by apply start_cases in Hs as (? & ? & _ & _ & _ & _ & _ & -> & _).
  - apply settle_cases in Hs as (it & rest & made & err & Eh & Ec & _ & _ & _ & _ & _ & _ & _ & _ & Hr).
    destruct (l_items c Hl it) as [_ Hit]; [unfold unsettled; rewrite Eh, Ec; by left|]. destruct (it_again it).
    + destruct Hit as (r & El & _). rewrite Hr, (alter_some _ _ _ _ El). by apply (counts_update _ r).
    + destruct Hr as [->|(x & r & _ & _ & _ & Hh & ->)]; [done|]. eapply counts_hold; [done|apply Hit|done].
  - by apply finally_cases in Hs as (? & ? & _ & _ & _ & _ & _ & -> & _).
  - apply wake_cases in Hs as (r & El & _ & _ & _ & ->). by apply (counts_update _ r).
  - apply resume_cases in Hs as (r & o & El & _ & _ & [->|(err & _ & _ & _ & ->)]).
    + by apply counts_release.
    + by apply (counts_update _ r).
Qed.

Lemma chain_start_inv : inv createReportChain.
Proof.
  split; [|split; [|split]].
  - by constructor.
  - constructor; cbn; [constructor|by intros it Hit%elem_of_nil| |by intros it Hit%elem_of_nil|done..].
    intros id r. by rewrite lookup_empty.
  - constructor; cbn; [|by intros it Hit%elem_of_nil| |done|by intros id r Hr%elem_of_nil].
    + intros _. exists [], []. split_and!; [done|constructor|cbn; lia].
    + intros id r. by rewrite lookup_empty.
  - split_and!; by cbn.
Qed.

Lemma chain_step_inv op c c' : inv c -> step op c = Some c' -> inv c'.
Proof.
  intros (H1 & H2 & H3 & H4) Hs.
  split; [by apply (step_queue op c)|]. split; [by apply (step_loops op c)|]. split; [by apply (step_reqs op c)|by apply (step_counts op c)].
Qed.

Lemma run_app ops op c : run (ops ++ [op]) c = run ops c ≫= step op.
Proof. unfold run. by rewrite foldl_app. Qed.

(** An invariant of the steps holds of every run. *)
Lemma run_ind (P : ReportChain -> Prop) ops c c' :
  P c -> (forall op x x', P x -> step op x = Some x' -> P x') -> run ops c = Some c' -> P c'.
Proof.
  intros Hc Hstep. revert c'. induction ops as [|op ops IH] using rev_ind; intros c'; [by intros [= <-]|].
  rewrite run_app. destruct (run ops c) as [x|]; [|done]. cbn. intros Hs. by apply (Hstep op x), Hs; apply IH.
Qed.

Lemma chain_run_inv ops c : run ops createReportChain = Some c -> inv c.
Proof. apply run_ind; [apply chain_start_inv|]. intros op x x'. apply chain_step_inv. Qed.
