(* ===== verification/ReportChainRuns.v ===== *)
(** * The report chain over any run

    Order, safety of the re-sends, bounds and termination of the runs of
    [ReportChain.step] from [createReportChain], from the invariant of
    [ReportChainSpec]. *)
From S2P Require Import Prelude PostEvents ReportChain ReportChainSpec.
Local Open Scope nat_scope.

Lemma firsts_events c : queue_inv c -> map it_event (firsts (enqueued (journal c))) = accepted (journal c).
Proof.
  intros Hq. transitivity (map snd (imap pair (accepted (journal c)))); [by rewrite <- (q_first c Hq), map_map|].
  change (snd <$> imap pair (accepted (journal c)) = accepted (journal c)). rewrite fmap_imap.
  transitivity (imap (fun _ => id) (accepted (journal c))); [by apply imap_ext|].
  apply (eq_trans (imap_const id (accepted (journal c)))), list_fmap_id.
Qed.

(** Reports reach the control plane one at a time, in the order they were made: at any time the first posts
    made, followed by those still queued, are exactly the reports accepted, in order; and every send, re-sends
    included, is posted in the order it joined the queue. *)
Theorem reports_in_order ops c :
  run ops createReportChain = Some c ->
  map it_event (firsts (posted (journal c))) ++ map it_event (firsts (unsettled c)) = accepted (journal c) /\
  posted (journal c) ++ unsettled c = enqueued (journal c).
Proof.
  intros (Hq & _)%chain_run_inv. split; [|symmetry; apply (q_log c Hq)].
  rewrite <- map_app, <- firsts_app, <- (q_log c Hq).
  by apply firsts_events.
Qed.

(** C19: nothing is ever applied twice: whatever the network answers and however posts, sleeps and re-sends
    interleave, a request that may have been applied is the last one ever made for its report, and every
    request made for a report carries that report and nothing else. *)
Theorem never_applied_twice ops c id earlier r later :
  run ops createReportChain = Some c ->
  reqs id c = earlier ++ r :: later ->
  (unapplied r = false -> later = []) /\
  exists e, accepted (journal c) !! id = Some e /\ r_events r = [e].
Proof.
  intros (_ & _ & Hr & _)%chain_run_inv E. split.
  - intros Hu. destruct (r_once c Hr id) as (l & rest & E' & Hl & Hlen). rewrite E in E'.
    destruct (decide (length earlier < length l)) as [Hlt|Hge].
    + exfalso. assert (l !! length earlier = Some r) as Hin.
      { rewrite <- (lookup_app_l l rest) by done. rewrite <- E'. by apply list_lookup_middle. }
      unfold all_unapplied in Hl. rewrite Forall_forall in Hl. apply list_elem_of_lookup_2, Hl in Hin. congruence.
    + apply (f_equal length) in E'. rewrite !length_app in E'. cbn in E'. destruct later; [done|cbn in E'; lia].
  - assert (r ∈ reqs id c) as Hin by (rewrite E; apply elem_of_app; right; by left).
    unfold reqs in Hin. apply elem_of_lmap in Hin as ([k x] & -> & [Hin Hk%Nat.eqb_eq]%elem_of_lfilter).
    cbn in Hk. subst k. by apply (r_same c Hr).
Qed.

(** Only a turn's end that is no death report is posted again, and at most 64 times. *)
Theorem only_turn_ends_resent ops c it :
  run ops createReportChain = Some c -> it ∈ enqueued (journal c) -> it_again it = true ->
  kind (it_event it) = js "turn.finished" /\
  (forall code, errorCode (it_event it) = Some code -> code ∉ DEATH_CODES) /\
  (Z.of_nat (length (agains (it_id it) (enqueued (journal c)))) <= MAX_RESENDS)%Z.
Proof.
  intros (_ & Hl & _)%chain_run_inv Hit Ha. destruct (l_events c Hl it Hit) as [_ Hr]. specialize (Hr Ha).
  unfold isResendable, isTurnFinished in Hr. apply andb_true_iff in Hr as [H1%bool_decide_eq_true H2].
  split; [done|]. split; [|apply (l_agains c Hl)]. intros code Hc. rewrite Hc in H2.
  by apply negb_true_iff, bool_decide_eq_false in H2.
Qed.

(** The backoff of all the re-sends of one turn's end stays under an hour and three seconds. *)
Lemma resend_budget :
  foldr (fun a s => (resendCeiling (Z.of_nat a) + s)%Z) 0%Z (seq 0 (Z.to_nat MAX_RESENDS)) = 3602000%Z.
Proof. vm_compute. reflexivity. Qed.

(** ** Bounds *)

(** First posts in the queue: all, and those that end no turn. *)
Definition plain (l : list Item) : list Item :=
  List.filter (fun it => negb (it_again it) && negb (isTurnFinished (it_event it))) l.

Definition caps (c : ReportChain) : Prop :=
  (Z.of_nat (length (firsts (chain c))) <= MAX_QUEUED_REPORTS + TERMINAL_RESERVE)%Z /\
  (Z.of_nat (length (plain (chain c))) <= MAX_QUEUED_REPORTS)%Z.

Lemma length_filter_bound {A} (f : A -> bool) l : length (List.filter f l) <= length l.
Proof. induction l as [|x l IH]; cbn; [lia|]. destruct (f x); cbn; lia. Qed.

Lemma step_caps op c c' : queue_inv c -> caps c -> step op c = Some c' -> caps c'.
Proof.
  intros Hq [H1 H2] Hs. unfold caps. destruct op as [e| |answers| |id|id]; cbn [step] in Hs.
  - injection Hs as <-. destruct (report_cases e c) as [_ [[_ (-> & _)]|(Hlt & (-> & _) & _)]]; [done|].
    rewrite (q_queued c Hq) in Hlt. unfold firsts, plain in *. rewrite !List.filter_app, !length_app.
    pose proof (length_filter_bound (fun it => negb (it_again it)) (chain c)).
    pose proof (length_filter_bound (fun it => negb (it_again it) && negb (isTurnFinished (it_event it))) (chain c)).
    unfold cap_of, MAX_QUEUED_REPORTS, TERMINAL_RESERVE in *. cbn. destruct (isTurnFinished e); cbn; lia.
  - by apply start_cases in Hs as (? & ? & _ & _ & -> & _).
  - by apply settle_cases in Hs as (? & ? & ? & ? & _ & _ & -> & _).
  - apply finally_cases in Hs as (it & rest & _ & E & -> & _). rewrite E in *. revert H1 H2.
    unfold firsts, plain. cbn [List.filter]. destruct (_ && _)%bool, (negb _); cbn [length]; lia.
  - apply wake_cases in Hs as (r & _ & _ & (-> & _) & _). unfold firsts, plain in *.
    rewrite !List.filter_app. cbn. by rewrite !app_nil_r.
  - by apply resume_cases in Hs as (? & ? & _ & _ & (-> & _) & _).
Qed.

Lemma run_caps ops c : run ops createReportChain = Some c -> caps c.
Proof.
  intros Hr. apply (run_ind (fun c => inv c /\ caps c) ops createReportChain c); [split; [apply chain_start_inv|by cbn]| |done].
  intros op x x' [H1 H2] Hs. split; [by apply (chain_step_inv op x)|]. apply (step_caps op x); [apply H1|done|done].
Qed.

Definition re_sends (l : list Item) : list Item := List.filter it_again l.

(** Distinct keys of a map are at most its size. *)
Lemma keys_le_size {A} (l : list nat) (m : gmap nat A) :
  NoDup l -> (forall k, k ∈ l -> is_Some (m !! k)) -> length l <= size m.
Proof.
  intros Hnd Hk. rewrite <- size_dom, <- (size_list_to_set (C := gset nat) l Hnd). apply subseteq_size.
  intros k Hin%elem_of_list_to_set. by apply elem_of_dom, Hk.
Qed.

Lemma re_sends_bound c : inv c -> length (re_sends (unsettled c)) <= size (loops (resends c)).
Proof.
  intros (_ & Hl & _). rewrite <- (length_map it_id). apply keys_le_size.
  - unfold re_sends. pose proof (l_nodup c Hl) as Hnd. revert Hnd. generalize (unsettled c) as l.
    induction l as [|x l IH]; [done|]. cbn. intros [Hx Hnd]%NoDup_cons. destruct (it_again x); cbn; [|by apply IH].
    apply NoDup_cons. split; [|by apply IH]. intros (y & E & [Hy _]%elem_of_lfilter)%elem_of_lmap.
    destruct Hx. change (it_id x ∈ map it_id l). apply elem_of_lmap. by exists y.
  - intros k (it & -> & [Hit Ha]%elem_of_lfilter)%elem_of_lmap. destruct (l_items c Hl it Hit) as [_ Hi].
    rewrite Ha in Hi. destruct Hi as (r & -> & _). done.
Qed.

Lemma length_split l : length l = length (firsts l) + length (re_sends l).
Proof.
  unfold firsts, re_sends. induction l as [|x l IH]; cbn [List.filter length]; [done|].
  destruct (it_again x); cbn [negb length]; lia.
Qed.

(** An untrusted sandbox cannot grow the chain: at any time at most 200 reports that end no turn are queued,
    264 reports in all, and 329 sends with the re-sends; the counters are the number of re-sends running, in
    all and per sandbox, and never pass 64 and 8. *)
Theorem chain_bounds ops c :
  run ops createReportChain = Some c ->
  queued c = Z.of_nat (length (chain c)) /\ (queued c <= 329)%Z /\
  (Z.of_nat (length (plain (chain c))) <= 200)%Z /\ (Z.of_nat (length (firsts (chain c))) <= 264)%Z /\
  totalPendingResends (resends c) = Z.of_nat (size (loops (resends c))) /\ size (loops (resends c)) <= 64 /\
  forall s, default 0%Z (pendingResends (resends c) !! s) = Z.of_nat (size (of_sandbox s (loops (resends c)))) /\
    size (of_sandbox s (loops (resends c))) <= 8.
Proof.
  intros Hr. pose proof (run_caps _ _ Hr) as [C1 C2]. apply chain_run_inv in Hr as Hi.
  pose proof (re_sends_bound c Hi) as Hb. destruct Hi as (Hq & _ & _ & (K1 & K2 & K3)).
  unfold MAX_PENDING_RESENDS, MAX_PENDING_RESENDS_PER_SANDBOX, MAX_QUEUED_REPORTS, TERMINAL_RESERVE in *.
  assert (length (re_sends (chain c)) <= S (length (re_sends (unsettled c)))) as Hc.
  { unfold unsettled. destruct (head c); [lia..|]. destruct (chain c) as [|x l]; [cbn; lia|]. cbn. destruct (it_again x); cbn; lia. }
  pose proof (length_split (chain c)). pose proof (q_queued c Hq).
  split_and!; try done; try lia. intros s. destruct (K3 s) as (K4 & K5 & _). split; [done|lia].
Qed.

(** ** Termination *)

Definition is_report (op : Op) : bool := match op with o_report _ => true | _ => false end.

(** The steps a queued send, and a loop, can still take. *)
Definition item_weight (it : Item) : Z := if it_again it then 3 else 387.

Definition loop_weight (r : Resend) : Z :=
  (6 * (MAX_RESENDS - attempt r) - match phase r with sleeping => 0 | inOrder => 4 | answered _ => 5 end)%Z.

Definition items_weight (l : list Item) : Z := foldr (fun it s => (item_weight it + s)%Z) 0%Z l.
Definition loops_weight (m : gmap nat Resend) : Z := map_fold (fun _ r s => (loop_weight r + s)%Z) 0%Z m.

(** The steps left once reports stop. *)
Definition steps_left (c : ReportChain) : Z :=
  (items_weight (unsettled c) + match head c with waiting => 0 | posting => -1 | settled => 1 end +
   loops_weight (loops (resends c)))%Z.

Lemma loops_weight_insert id r m : m !! id = None -> loops_weight (<[id := r]> m) = (loop_weight r + loops_weight m)%Z.
Proof. intros Hn. unfold loops_weight. rewrite map_fold_insert_L; [done| |done]. intros. lia. Qed.

Lemma loops_weight_delete id r m :
  m !! id = Some r -> loops_weight m = (loop_weight r + loops_weight (delete id m))%Z.
Proof. intros Hr. rewrite <- (insert_delete_id m id r Hr) at 1. apply loops_weight_insert, lookup_delete_eq. Qed.

Lemma loops_weight_update id r r' m :
  m !! id = Some r -> loops_weight (<[id := r']> m) = (loops_weight m - loop_weight r + loop_weight r')%Z.
Proof.
  intros Hr. rewrite <- insert_delete_eq, loops_weight_insert by apply lookup_delete_eq.
  rewrite (loops_weight_delete id r m Hr). lia.
Qed.

Lemma items_weight_app l l' : items_weight (l ++ l') = (items_weight l + items_weight l')%Z.
Proof. unfold items_weight. induction l as [|x l IH]; cbn; [done|]. rewrite IH. lia. Qed.

Lemma settle_decreases answers c c' :
  loops_inv c -> settle answers c = Some c' -> (steps_left c' <= steps_left c - 1)%Z.
Proof.
  intros Hl Hs. apply settle_cases in Hs as (it & rest & made & err & Eh & Ec & E1 & E2 & _ & _ & _ & _ & _ & _ & Hr).
  assert (unsettled c = it :: rest) as Hu by (unfold unsettled; by rewrite Eh, Ec).
  assert (unsettled c' = rest) as Hu' by (unfold unsettled; by rewrite E2, E1, Ec).
  destruct (l_items c Hl it ltac:(rewrite Hu; by left)) as [_ Hit].
  unfold steps_left. rewrite Hu, Hu', Eh, E2. cbn [items_weight foldr]. fold (items_weight rest).
  unfold item_weight. destruct (it_again it).
  - destruct Hit as (r & El & Ep). rewrite Hr, (alter_some _ _ _ _ El). cbn [loops].
    rewrite (loops_weight_update _ _ _ _ El). unfold loop_weight. cbn [attempt phase]. rewrite Ep. lia.
  - destruct Hit as [El _]. destruct Hr as [->|(x & r & _ & _ & _ & Hh & ->)]; [lia|].
    unfold holdResend in Hh. destruct (_ || _)%bool; [done|]. injection Hh as <-. cbn [loops].
    rewrite loops_weight_insert by done. unfold loop_weight, MAX_RESENDS. cbn [attempt phase]. lia.
Qed.

Lemma step_decreases op c c' :
  inv c -> is_report op = false -> step op c = Some c' -> (steps_left c' <= steps_left c - 1)%Z.
Proof.
  intros (Hq & Hl & _) Hop Hs. destruct op as [e| |answers| |id|id]; cbn [step] in Hs; [done| | | | |].
  - apply start_cases in Hs as (it & rest & Eh & Ec & E1 & E2 & _ & E4 & _).
    unfold steps_left, unsettled. rewrite E1, E2, E4, Eh. lia.
  - by apply (settle_decreases answers).
  - apply finally_cases in Hs as (it & rest & Eh & Ec & E1 & E2 & _ & E4 & _).
    unfold steps_left, unsettled. rewrite E1, E2, E4, Eh, Ec. cbn [tail]. lia.
  - apply wake_cases in Hs as (r & El & Ep & Hp & _ & Hr). unfold steps_left.
    rewrite (pushed_unsettled _ _ _ Hq Hp), items_weight_app, Hr. cbn [loops].
    rewrite (loops_weight_update _ _ _ _ El). destruct Hp as (_ & -> & _).
    unfold loop_weight. cbn [attempt phase]. rewrite Ep. cbn [items_weight foldr item_weight it_again]. lia.
  - apply resume_cases in Hs as (r & o & El & Ep & (E1 & E2 & _) & Hr). unfold steps_left, unsettled. rewrite E1, E2.
    destruct (l_loops c Hl id r El) as (_ & _ & Ha & _). destruct Hr as [->|(err & -> & _ & Hlt & ->)]; cbn [loops].
    + unfold releaseResend. cbn [loops]. rewrite (loops_weight_delete id r (loops (resends c)) El).
      unfold loop_weight. rewrite Ep. lia.
    + rewrite (loops_weight_update _ _ _ _ El). unfold loop_weight. cbn [attempt phase]. rewrite Ep. lia.
Qed.

Lemma loops_weight_nonneg c : loops_inv c -> (0 <= loops_weight (loops (resends c)))%Z.
Proof.
  intros Hl. assert (forall id r, loops (resends c) !! id = Some r -> (0 <= loop_weight r)%Z) as H.
  { intros id r Hr. destruct (l_loops c Hl id r Hr) as (_ & _ & Ha & _). unfold loop_weight. destruct (phase r); lia. }
  revert H. generalize (loops (resends c)) as m. clear. intros m. induction m as [|i x m Hi IH] using map_ind; intros H.
  - done.
  - rewrite loops_weight_insert by done. pose proof (H i x (lookup_insert_eq _ _ _)).
    assert (0 <= loops_weight m)%Z; [|lia]. apply IH. intros k r Hk. apply (H k).
    rewrite lookup_insert_ne; [done|]. intros ->. congruence.
Qed.

Lemma items_weight_nonneg l : (0 <= items_weight l)%Z.
Proof. unfold items_weight. induction l as [|x l IH]; cbn [foldr]; [lia|]. unfold item_weight in *. destruct (it_again x); lia. Qed.

Lemma steps_left_nonneg c : inv c -> (0 <= steps_left c)%Z.
Proof.
  intros (Hq & Hl & _). pose proof (loops_weight_nonneg c Hl). pose proof (items_weight_nonneg (unsettled c)) as Hi.
  unfold steps_left. destruct (head c) eqn:Eh; try lia.
  unfold unsettled in *. rewrite Eh in *. destruct (chain c) as [|x l] eqn:Ec; [by destruct (q_head c Hq); rewrite ?Eh|].
  change (items_weight (x :: l)) with (item_weight x + items_weight l)%Z.
  pose proof (items_weight_nonneg l). unfold item_weight. destruct (it_again x); lia.
Qed.

(** A state with work has a step. *)
Lemma progress c :
  inv c -> chain c <> [] \/ loops (resends c) <> ∅ -> exists op, is_report op = false /\ is_Some (step op c).
Proof.
  intros (Hq & Hl & _) Hw. destruct (chain c) as [|it rest] eqn:Ec.
  - destruct Hw as [|Hne]; [done|]. apply map_choose in Hne as (id & r & Hr). destruct (phase r) eqn:Ep.
    + exists (o_wake id). cbn [step]. unfold wake. rewrite Hr, Ep. split; [done|]. by eexists.
    + destruct (l_loops c Hl id r Hr) as (_ & _ & _ & Hi & _). destruct (Hi Ep) as (it & Hit & _).
      unfold unsettled in Hit. rewrite Ec in Hit. by destruct (head c); apply elem_of_nil in Hit.
    + exists (o_resume id). cbn [step]. unfold resume. rewrite Hr. destruct r as [e a p]. cbn in Ep. subst p.
      split; [done|]. by eexists.
  - destruct (head c) eqn:Eh.
    + exists o_start. cbn [step]. unfold start. rewrite Eh, Ec. split; [done|]. by eexists.
    + exists (o_settle (fun _ _ => response 204 true)). cbn [step]. unfold settle. rewrite Eh, Ec.
      split; [done|]. destruct (postEvents _ _). by eexists.
    + exists o_finally. cbn [step]. unfold finally. rewrite Eh, Ec. split; [done|]. by eexists.
Qed.

Lemma later_run later c c' :
  inv c -> forallb (fun op => negb (is_report op)) later = true -> run later c = Some c' ->
  inv c' /\ (steps_left c' + Z.of_nat (length later) <= steps_left c)%Z.
Proof.
  intros Hi. revert c'. induction later as [|op later IH] using rev_ind; intros c' Hf Hr.
  - injection Hr as <-. split; [done|]. cbn. lia.
  - rewrite run_app in Hr. rewrite forallb_app in Hf. apply andb_true_iff in Hf as [Hf Hop].
    cbn in Hop. rewrite andb_true_r in Hop. apply negb_true_iff in Hop.
    destruct (run later c) as [x|] eqn:Ex; [|done]. destruct (IH x Hf eq_refl) as [Hx Hlt]. cbn in Hr.
    pose proof (step_decreases op x c' Hx Hop Hr). split; [by apply (chain_step_inv op x)|].
    rewrite length_app. cbn. lia.
Qed.

(** C31: the chain drains: once no report arrives, whatever the network answers and in whatever order things
    happen, only finitely many steps remain, and when none can happen any more every accepted report has been
    posted, the queue is empty and no re-send is left. *)
Theorem chain_drains ops c later c' :
  run ops createReportChain = Some c -> forallb (fun op => negb (is_report op)) later = true ->
  run later c = Some c' ->
  (Z.of_nat (length later) <= steps_left c)%Z /\
  ((forall op, is_report op = false -> step op c' = None) ->
   chain c' = [] /\ queued c' = 0%Z /\ loops (resends c') = ∅ /\
   map it_event (firsts (posted (journal c'))) = accepted (journal c')).
Proof.
  intros Hr%chain_run_inv Hf Hl. destruct (later_run later c c' Hr Hf Hl) as [Hi Hlt].
  pose proof (steps_left_nonneg c' Hi). split; [lia|]. intros Hstuck.
  assert (chain c' = [] /\ loops (resends c') = ∅) as [Ec El].
  { destruct (decide (chain c' = [])) as [Ec|Ec], (decide (loops (resends c') = ∅)) as [El|El]; [done|..];
      destruct (progress c' Hi ltac:(tauto)) as (op & Hop & x & Hx); by rewrite Hstuck in Hx. }
  destruct Hi as (Hq & _). split; [done|]. split; [by rewrite (q_queued c' Hq), Ec|]. split; [done|].
  assert (unsettled c' = []) as Hu by (unfold unsettled; rewrite Ec; by destruct (head c')).
  pose proof (q_log c' Hq) as Elog. rewrite Hu, app_nil_r in Elog. rewrite <- Elog.
  by apply firsts_events.
Qed.

(** ** Witnesses *)

Definition sample_end : RunnerEvent :=
  {| kind := js "turn.finished"; sandboxId := js "s"; turnId := js "t"; errorCode := None; body := [] |}.
Definition sample_text : RunnerEvent :=
  {| kind := js "turn.events"; sandboxId := js "s"; turnId := js "t"; errorCode := None; body := [] |}.

Definition busy (_ _ : nat) : Fetched := response 503 false.
Definition refused (_ _ : nat) : Fetched :=
  fetch_failed (other_error (Some (aggregate [an_error (Some (js "ECONNREFUSED"))]))).
Definition fine (_ _ : nat) : Fetched := response 204 false.

(** A turn's end that finds the control plane down, and text that arrives
    meanwhile. *)
Definition sample_ops : list Op :=
  [o_report sample_end; o_start; o_settle busy; o_report sample_text; o_finally; o_wake 0; o_start; o_settle fine;
   o_finally; o_start; o_settle refused; o_resume 0; o_finally; o_wake 0].

Definition sample_later : list Op := [o_start; o_settle fine; o_resume 0; o_finally].

Definition sample_state : ReportChain := default createReportChain (run sample_ops createReportChain).

Lemma sample_run : run sample_ops createReportChain = Some sample_state.
Proof. vm_compute. reflexivity. Qed.

Lemma reports_in_order_witness :
  map it_event (firsts (posted (journal sample_state))) ++ map it_event (firsts (unsettled sample_state)) =
    [sample_end; sample_text].
Proof. rewrite (proj1 (reports_in_order sample_ops sample_state sample_run)). vm_compute. reflexivity. Defined.

Lemma never_applied_twice_witness :
  exists earlier r, reqs 1 sample_state = earlier ++ [r] /\ unapplied r = false /\ r_events r = [sample_text].
Proof.
  destruct (never_applied_twice sample_ops sample_state 1 [] {| r_events := [sample_text]; r_error := None |} []
    sample_run ltac:(vm_compute; reflexivity)) as [_ (e & _ & H)].
  exists [], {| r_events := [sample_text]; r_error := None |}. split; [vm_compute; reflexivity|]. split; [reflexivity|].
  rewrite H. injection H as <-. reflexivity.
Defined.

Lemma only_turn_ends_resent_witness :
  kind sample_end = js "turn.finished" /\
  (Z.of_nat (length (agains 0 (enqueued (journal sample_state)))) <= MAX_RESENDS)%Z.
Proof.
  destruct (only_turn_ends_resent sample_ops sample_state {| it_id := 0; it_event := sample_end; it_again := true |}
    sample_run ltac:(vm_compute; right; right; left) eq_refl) as (H1 & _ & H2).
  split; [exact H1|exact H2].
Defined.

Lemma chain_bounds_witness :
  queued sample_state = 1%Z /\ totalPendingResends (resends sample_state) = 1%Z /\ (queued sample_state <= 329)%Z.
Proof.
  destruct (chain_bounds sample_ops sample_state sample_run) as (H1 & H2 & _ & _ & H3 & _).
  split; [rewrite H1; vm_compute; reflexivity|]. split; [rewrite H3; vm_compute; reflexivity|exact H2].
Defined.

Lemma chain_drains_witness :
  exists c', run sample_later sample_state = Some c' /\ (Z.of_nat (length sample_later) <= steps_left sample_state)%Z /\
    chain c' = [] /\ map it_event (firsts (posted (journal c'))) = [sample_end; sample_text].
Proof.
  eexists. split; [vm_compute; reflexivity|].
  destruct (chain_drains sample_ops sample_state sample_later _ sample_run eq_refl ltac:(vm_compute; reflexivity)) as [H1 H2].
  split; [exact H1|]. destruct H2 as (H3 & _ & _ & H4); [|split; [exact H3|rewrite H4; reflexivity]].
  intros [| | | |id|id]; try done; intros _; vm_compute; reflexivity.
Defined.
