(* ===== verification/Reconcile.v ===== *)
(** * The reconciler's verdicts: [apps/runner/src/reconcile-classify.ts]

    The verdict on one container from the control plane's facts, the memory of
    vanished sandboxes across passes, what each promises, and how a verdict
    moves in time. *)
From S2P Require Import Prelude.
Local Open Scope Z_scope.

Inductive ReconcileVerdict := leave | boot_crash | channelless | stray | dead.

#[export] Instance ReconcileVerdict_eq_dec : EqDecision ReconcileVerdict.
Proof. solve_decision. Defined.

Record ReconcileGraces := { bootDialInMs : Z; droppedMs : Z; inheritedMs : Z }.

(** A [null] phase and a missing one read the same. *)
Record Snapshot := { containerRef : jsstr; running : bool; phase : option jsstr; resumable : bool }.

Record RunnerSandboxChannel := { ch_containerRef : option jsstr; ch_channel : jsstr; ch_since : option Z }.

Record ClassifyInput := {
  snapshot : Snapshot;
  believed : option jsstr;
  channel : option RunnerSandboxChannel;
  now : Z;
  reconcilerSince : Z;
  sessions : bool;
  graces : ReconcileGraces;
}.

Definition eqs (s : jsstr) (t : jsstr) : bool := bool_decide (s = t).

Definition terminal (phase : option jsstr) : bool :=
  match phase with None => true | Some p => eqs p (js "Failed") || eqs p (js "Succeeded") end.

Definition reconnecting (state : jsstr) (since : option Z) (input : ClassifyInput) : bool :=
  if negb (sessions input) || negb (resumable (snapshot input)) then false
  else if eqs state (js "dropped") then
    match since with Some s => now input - s <? droppedMs (graces input) | None => false end
  else
    let anchor := Z.max (if eqs state (js "lost") then default 0 since else 0) (reconcilerSince input) in
    now input - anchor <? inheritedMs (graces input).

(** [channel?.containerRef != null && channel.containerRef !== snapshot.containerRef]. *)
Definition newer_container (input : ClassifyInput) : bool :=
  match channel input ≫= ch_containerRef with
  | Some ref => negb (eqs ref (containerRef (snapshot input)))
  | None => false
  end.

Definition classifySandbox (input : ClassifyInput) : ReconcileVerdict :=
  if newer_container input then leave
  else
    let state := match channel input with Some c => ch_channel c | None => js "none" end in
    let since := channel input ≫= ch_since in
    if negb (running (snapshot input)) then
      if eqs state (js "awaiting") then
        match since with
        | Some s => if terminal (phase (snapshot input)) && (bootDialInMs (graces input) <? now input - s)
                    then boot_crash else leave
        | None => leave
        end
      else if eqs state (js "held") || eqs state (js "starting") then leave
      else dead
    else if eqs state (js "held") || eqs state (js "awaiting") || eqs state (js "starting") then leave
    else if reconnecting state since input then leave
    else match believed input with
         | Some b => if eqs b (js "stopped") || eqs b (js "failed") then stray else channelless
         | None => channelless
         end.

(** [vanishedSandboxes]; [statuses] lists [Object.entries], [present] and
    [previous] are the sets. *)
Definition vanished_step (present previous : gset jsstr) (s : list jsstr * gset jsstr) (entry : jsstr * jsstr) :
    list jsstr * gset jsstr :=
  let '(report, missing) := s in
  let '(sandboxId, status) := entry in
  if negb (eqs status (js "running")) || bool_decide (sandboxId ∈ present) then (report, missing)
  else if bool_decide (sandboxId ∈ previous) then (report ++ [sandboxId], missing)
  else (report, {[sandboxId]} ∪ missing).

Definition vanishedSandboxes (statuses : option (list (jsstr * jsstr))) (present previous : gset jsstr) :
    list jsstr * gset jsstr :=
  fold_left (vanished_step present previous) (default [] statuses) ([], ∅).

(** ** The verdict *)

Definition at_time (t : Z) (input : ClassifyInput) : ClassifyInput :=
  {| snapshot := snapshot input; believed := believed input; channel := channel input; now := t;
     reconcilerSince := reconcilerSince input; sessions := sessions input; graces := graces input |}.

(** When the grace of a running container without a channel ends. *)
Definition grace_end (state : jsstr) (since : option Z) (input : ClassifyInput) : option Z :=
  if sessions input && resumable (snapshot input) then
    if eqs state (js "dropped") then (fun s => s + droppedMs (graces input)) <$> since
    else Some (Z.max (if eqs state (js "lost") then default 0 since else 0) (reconcilerSince input) +
               inheritedMs (graces input))
  else None.

Lemma reconnecting_spec state since input :
  reconnecting state since input = match grace_end state since input with Some t => now input <? t | None => false end.
Proof.
  unfold reconnecting, grace_end. destruct (sessions input), (resumable (snapshot input)); cbn [andb orb negb]; try done.
  destruct (eqs state (js "dropped")).
  - destruct since as [s|]; [|done]. cbn. apply eq_true_iff_eq. rewrite !Z.ltb_lt. lia.
  - apply eq_true_iff_eq. rewrite !Z.ltb_lt. lia.
Qed.

(** What the facts say, the clock aside: nothing to do, or a verdict, at once
    or from a moment on. *)
Inductive Due := never | at_once (v : ReconcileVerdict) | from (t : Z) (v : ReconcileVerdict).

Definition channel_state (input : ClassifyInput) : jsstr :=
  match channel input with Some c => ch_channel c | None => js "none" end.

Definition parked (input : ClassifyInput) : bool :=
  match believed input with Some b => eqs b (js "stopped") || eqs b (js "failed") | None => false end.

Definition due (input : ClassifyInput) : Due :=
  let state := channel_state input in
  let since := channel input ≫= ch_since in
  if newer_container input || eqs state (js "held") || eqs state (js "starting") then never
  else if eqs state (js "awaiting") then
    match running (snapshot input), since with
    | false, Some s => if terminal (phase (snapshot input)) then from (s + bootDialInMs (graces input) + 1) boot_crash
                       else never
    | _, _ => never
    end
  else if negb (running (snapshot input)) then at_once dead
  else
    let v := if parked input then stray else channelless in
    match grace_end state since input with Some t => from t v | None => at_once v end.

Definition due_verdict (d : Due) (t : Z) : ReconcileVerdict :=
  match d with never => leave | at_once v => v | from t0 v => if t0 <=? t then v else leave end.

Lemma eqs_true s t : eqs s t = true <-> s = t.
Proof. apply bool_decide_eq_true. Qed.

(** The facts alone decide the verdict and the moment it falls: a container someone owns is left alone, a
    dead container is dead at once, a spawn that never connected is a boot crash once its dial-in grace is
    over, and a running container without a channel is left until its own grace ends, then stray or
    channelless; the clock decides nothing else, so a verdict once given is given at every later moment. *)
Theorem classifySandbox_due input :
  classifySandbox input = due_verdict (due input) (now input) /\
  (forall t, due (at_time t input) = due input) /\
  (forall t, now input <= t -> classifySandbox input <> leave -> classifySandbox (at_time t input) = classifySandbox input).
Proof.
  assert (forall input, classifySandbox input = due_verdict (due input) (now input)) as H.
  - clear. intros input. unfold classifySandbox, due. fold (channel_state input).
    destruct (newer_container input); [done|]. cbn [orb].
    destruct (eqs (channel_state input) (js "held")) eqn:Eh, (eqs (channel_state input) (js "starting")) eqn:Es,
      (eqs (channel_state input) (js "awaiting")) eqn:Ea; cbn [orb];
      repeat match goal with H : eqs _ _ = true |- _ => apply eqs_true in H end;
      try match goal with H1 : ?x = js _, H2 : ?x = js _ |- _ => rewrite H1 in H2; discriminate H2 end;
      destruct (running (snapshot input)); cbn [negb]; try done.
    + destruct (channel input ≫= ch_since) as [s|]; [|done]. destruct (terminal _); [|done]. cbn [andb due_verdict].
      destruct (Z.ltb_spec (bootDialInMs (graces input)) (now input - s)), (Z.leb_spec (s + bootDialInMs (graces input) + 1) (now input));
        done || lia.
    + rewrite reconnecting_spec. destruct (grace_end _ _ _) as [t|]; cbn [due_verdict].
      * destruct (Z.ltb_spec (now input) t), (Z.leb_spec t (now input)); try lia; [done|].
        unfold parked. by destruct (believed input).
      * unfold parked. by destruct (believed input).
  - split; [apply H|]. split; [done|]. intros t Ht. rewrite !H. change (due (at_time t input)) with (due input).
    cbn [now at_time]. destruct (due input) as [|v|t0 v]; [done..|]. cbn [due_verdict].
    destruct (Z.leb_spec t0 (now input)), (Z.leb_spec t0 t); (done || lia).
Qed.

(** ** Vanished sandboxes *)

(** A pass of the reconciler: the statuses it was given and the sandboxes it
    saw, or a pass without statuses. *)
Definition Pass : Type := option (list (jsstr * jsstr)) * gset jsstr.

Definition missing_in (s : jsstr) (p : Pass) : Prop := (s, js "running") ∈ default [] p.1 /\ s ∉ p.2.

#[export] Instance missing_in_dec s p : Decision (missing_in s p).
Proof. unfold missing_in. apply _. Defined.

Lemma vanished_run present previous l r m :
  let '(r', m') := fold_left (vanished_step present previous) l (r, m) in
  forall s, (s ∈ r' <-> s ∈ r \/ (s, js "running") ∈ l /\ (s ∉ present) /\ s ∈ previous) /\
    (s ∈ m' <-> s ∈ m \/ (s, js "running") ∈ l /\ (s ∉ present) /\ s ∉ previous).
Proof.
  revert r m. induction l as [|[k v] l IH]; intros r m; cbn [fold_left].
  - intros s. split; split; try tauto; intros [?|[[]%elem_of_nil _]]; done.
  - unfold vanished_step at 2.
    destruct (negb (eqs v (js "running")) || bool_decide (k ∈ present)) eqn:E.
    + specialize (IH r m). destruct (fold_left _ l _) as [r' m']. intros s. destruct (IH s) as [-> ->].
      assert ((s, js "running") ∈ (k, v) :: l /\ (s ∉ present) <-> (s, js "running") ∈ l /\ s ∉ present) as Hs.
      { rewrite elem_of_cons. split; [|tauto]. intros [[[= -> <-]|] Hp]; [|done].
        apply orb_true_iff in E as [E%negb_true_iff|E%bool_decide_eq_true]; [|done].
        unfold eqs in E. by rewrite bool_decide_eq_true_2 in E. }
      tauto.
    + apply orb_false_iff in E as [E%negb_false_iff%eqs_true E'%bool_decide_eq_false]. subst v.
      destruct (bool_decide (k ∈ previous)) eqn:Ep; [apply bool_decide_eq_true in Ep|apply bool_decide_eq_false in Ep].
      * specialize (IH (r ++ [k]) m). destruct (fold_left _ l _) as [r' m']. intros s. destruct (IH s) as [-> ->].
        rewrite elem_of_app, list_elem_of_singleton, elem_of_cons. split; [|naive_solver].
        split; [intros [[?| ->]|?]; [by left|right; by split; [left|]|tauto]|].
        intros [?|([[= ->]|?] & ? & ?)]; tauto.
      * specialize (IH r ({[k]} ∪ m)). destruct (fold_left _ l _) as [r' m']. intros s. destruct (IH s) as [-> ->].
        rewrite elem_of_union, elem_of_singleton, elem_of_cons. split; [naive_solver|].
        split; [intros [[->|?]|?]; [right; by split; [left|]|by left|tauto]|].
        intros [?|([[= ->]|?] & ? & ?)]; tauto.
Qed.

Lemma vanished_spec statuses present previous s :
  let '(report, missing) := vanishedSandboxes statuses present previous in
  (s ∈ report <-> missing_in s (statuses, present) /\ s ∈ previous) /\
  (s ∈ missing <-> missing_in s (statuses, present) /\ s ∉ previous).
Proof.
  unfold vanishedSandboxes. pose proof (vanished_run present previous (default [] statuses) [] ∅) as H.
  destruct (fold_left _ _ _) as [r m]. destruct (H s) as [-> ->]. unfold missing_in. cbn [fst snd].
  rewrite elem_of_nil. split; set_solver.
Qed.

(** The memory after some passes, each handing its own to the next; a copy
    that stands down forgets, as a pass without statuses does. *)
Definition memory (l : list Pass) : gset jsstr :=
  fold_left (fun m p => (vanishedSandboxes p.1 p.2 m).2) l ∅.

(** How many of the last passes, in a row, saw a sandbox missing. *)
Fixpoint streak (s : jsstr) (rev_passes : list Pass) : nat :=
  match rev_passes with
  | p :: l => if decide (missing_in s p) then S (streak s l) else 0%nat
  | [] => 0%nat
  end.

Lemma memory_streak s l : s ∈ memory l <-> Nat.Odd (streak s (rev l)).
Proof.
  induction l as [|p l IH] using rev_ind.
  - cbn. split; [set_solver|]. intros [k Hk]. lia.
  - assert (memory (l ++ [p]) = (vanishedSandboxes p.1 p.2 (memory l)).2) as -> by (unfold memory; by rewrite fold_left_app).
    rewrite rev_app_distr. cbn [rev app streak]. set (m := memory l) in *. pose proof (vanished_spec p.1 p.2 m s) as H.
    destruct (vanishedSandboxes p.1 p.2 m) as [r m'] eqn:E. destruct H as [_ H]. cbn [snd].
    rewrite H, IH. destruct p as [st pr]. cbn [fst snd]. case_decide as Hd.
    + rewrite Nat.Odd_succ, <- Nat.even_spec, <- Nat.odd_spec, <- Nat.negb_odd. destruct (Nat.odd _); cbn; naive_solver.
    + split; [tauto|]. intros [k Hk]. lia.
Qed.

(** One stale read never reports a healthy sandbox gone, and a sandbox that stays gone is reported: over any
    history of passes, a sandbox believed running is reported vanished by a pass exactly when the number of
    passes in a row that saw it missing, this one included, is even - so never on a first sight, and on every
    second one. *)
Theorem vanished_streak l p s :
  s ∈ (vanishedSandboxes p.1 p.2 (memory l)).1 <->
  streak s (p :: rev l) <> 0%nat /\ Nat.Even (streak s (p :: rev l)).
Proof.
  pose proof (vanished_spec p.1 p.2 (memory l) s) as H. destruct (vanishedSandboxes _ _ _) as [r m]. destruct H as [H _].
  cbn [fst]. rewrite H, memory_streak. destruct p as [st pr]. cbn [streak fst snd]. case_decide as Hd.
  - rewrite Nat.Even_succ. split; intros [_ Ho]; by split.
  - split; [tauto|]. by intros [? _].
Qed.
