(* ===== verification/SshDemux.v ===== *)
(** * Docker's multiplexed stream: [apps/ssh-terminator/src/backend/docker/demux.ts]

    The demultiplexer of an exec's output as a function of its buffer, and what
    it promises: frames come out as the daemon put them in, however the stream
    is cut into chunks. *)
From S2P Require Import Prelude JsBytes.
Local Open Scope N_scope.

Definition HEADER_SIZE : nat := 8.
Definition STDOUT : N := 1.
Definition STDERR : N := 2.

Inductive Sink := stdout | stderr.

(** What the demultiplexer does: a write to a sink, and [onBackpressure]. *)
Inductive Output := wrote (sink : Sink) (payload : bytes) | backpressure (sink : Sink).

Section Demux.
(** Whether a sink's [write] returns true; it may depend on what went before. *)
Context (write_ok : list Output -> Sink -> bytes -> bool).

Definition sink_of (streamType : N) : option Sink :=
  if streamType =? STDOUT then Some stdout else if streamType =? STDERR then Some stderr else None.

(** One frame's payload handed on. *)
Definition emit (streamType : N) (payload : bytes) (out : list Output) : list Output :=
  if (length payload =? 0)%nat then out
  else match sink_of streamType with
       | Some sink => out ++ wrote sink payload :: (if write_ok out sink payload then [] else [backpressure sink])
       | None => out
       end.

(** One turn of the loop of [write]. *)
Definition demux_step (s : bytes * list Output) : (bytes * list Output) + (bytes * list Output) :=
  let '(buffered, out) := s in
  if (length buffered <? HEADER_SIZE)%nat then inr s
  else
    let payloadLength := N.to_nat (be_value (subarray 4 8 buffered)) in
    if (length buffered <? HEADER_SIZE + payloadLength)%nat then inr s
    else
      let streamType := nth 0 buffered 0 in
      let payload := subarray HEADER_SIZE (HEADER_SIZE + payloadLength) buffered in
      inl (drop (HEADER_SIZE + payloadLength) buffered, emit streamType payload out).

Definition drain (s : bytes * list Output) : bytes * list Output :=
  default s (js_while demux_step (S (length s.1)) s).

Definition write (s : bytes * list Output) (chunk : bytes) : bytes * list Output :=
  let '(buffered, out) := s in
  drain (if (length buffered =? 0)%nat then chunk else buffered ++ chunk, out).

(** ** The loop *)

Lemma demux_step_decreases s s' : demux_step s = inl s' -> (length s'.1 < length s.1)%nat.
Proof.
  destruct s as [b out]. unfold demux_step. destruct (Nat.ltb_spec (length b) HEADER_SIZE); [done|].
  destruct (Nat.ltb_spec (length b) (HEADER_SIZE + N.to_nat (be_value (subarray 4 8 b)))); [done|].
  intros [= <-]. cbn [fst]. rewrite length_drop. unfold HEADER_SIZE in *. lia.
Qed.

Lemma drain_unfold s : drain s = match demux_step s with inl s' => drain s' | inr r => r end.
Proof.
  unfold drain. rewrite (js_while_unfold demux_step (fun s => length s.1) demux_step_decreases s).
  destruct (demux_step s) as [s'|r] eqn:E; [|done].
  destruct (js_while_total demux_step (fun s => length s.1) demux_step_decreases (S (length s'.1)) s') as [r ->]; [lia|].
  done.
Qed.

(** A frame as the daemon sends it. *)
Definition frame (f : N * bytes) (pad : bytes) : bytes := f.1 :: pad ++ be_bytes 4 (N.of_nat (length f.2)) ++ f.2.

Definition frame_ok (f : N * bytes) : Prop := N.of_nat (length f.2) < 2 ^ 32.

(** Less than a frame. *)
Definition incomplete (b : bytes) : Prop :=
  (length b < HEADER_SIZE)%nat \/ (length b < HEADER_SIZE + N.to_nat (be_value (subarray 4 8 b)))%nat.

Lemma drain_incomplete b out : incomplete b -> drain (b, out) = (b, out).
Proof.
  intros H. rewrite drain_unfold. unfold demux_step. destruct (Nat.ltb_spec (length b) HEADER_SIZE); [done|].
  destruct H as [|H]; [lia|]. apply Nat.ltb_lt in H. by rewrite H.
Qed.

Lemma drain_frame f pad rest out :
  frame_ok f -> length pad = 3%nat -> drain (frame f pad ++ rest, out) = drain (rest, emit f.1 f.2 out).
Proof.
  intros Hf Hp. destruct f as [t payload]. unfold frame_ok in Hf. cbn [fst snd] in *.
  destruct pad as [|p1 [|p2 [|p3 [|]]]]; try done. unfold frame. cbn [fst snd].
  set (len := be_bytes 4 (N.of_nat (length payload))).
  assert (length len = 4)%nat as Hl by apply length_be_bytes.
  assert (be_value len = N.of_nat (length payload)) as Hv by (by apply (be_value_be_bytes_small 4)).
  destruct len as [|a [|b [|c [|d [|]]]]]; try done. clear Hl.
  rewrite drain_unfold. unfold demux_step. cbn [app].
  match goal with |- context [(length ?l <? HEADER_SIZE)%nat] => set (buf := l) end.
  assert (subarray 4 8 buf = [a; b; c; d]) as -> by done. rewrite Hv, Nat2N.id.
  assert (length buf = HEADER_SIZE + length payload + length rest)%nat as Hb.
  { unfold buf, HEADER_SIZE. cbn [length]. rewrite length_app. lia. }
  destruct (Nat.ltb_spec (length buf) HEADER_SIZE); [lia|].
  destruct (Nat.ltb_spec (length buf) (HEADER_SIZE + length payload)); [lia|].
  assert (drop (HEADER_SIZE + length payload) buf = rest) as ->.
  { unfold buf, HEADER_SIZE. cbn [Nat.add drop]. by rewrite drop_app_length. }
  assert (subarray HEADER_SIZE (HEADER_SIZE + length payload) buf = payload) as ->; [|done].
  unfold subarray. change (drop HEADER_SIZE buf) with (payload ++ rest).
  replace (HEADER_SIZE + length payload - HEADER_SIZE)%nat with (length payload) by lia. by rewrite take_app_length.
Qed.

Definition emits (frames : list (N * bytes)) (out : list Output) : list Output :=
  fold_left (fun out f => emit f.1 f.2 out) frames out.

(** Frames, each with its padding. *)
Definition stream (frames : list ((N * bytes) * bytes)) : bytes := flat_map (fun x => frame x.1 x.2) frames.

Definition frames_ok (frames : list ((N * bytes) * bytes)) : Prop :=
  Forall (fun x => frame_ok x.1 /\ length x.2 = 3%nat) frames.

Lemma drain_frames frames tl out :
  frames_ok frames -> incomplete tl -> drain (stream frames ++ tl, out) = (tl, emits (map fst frames) out).
Proof.
  intros Hf Ht. revert out. induction Hf as [|x frames [Hx Hp] _ IH]; intros out; [by apply drain_incomplete|].
  unfold stream. cbn [flat_map]. rewrite <- app_assoc, drain_frame by done. apply IH.
Qed.

(** ** Chunks *)

(** The loop stops short of a frame. *)
Lemma demux_step_stop s r : demux_step s = inr r -> r = s /\ incomplete s.1.
Proof.
  destruct s as [b out]. unfold demux_step, incomplete.
  destruct (Nat.ltb_spec (length b) HEADER_SIZE); [intros [= <-]; split; [done|by left]|].
  destruct (Nat.ltb_spec (length b) (HEADER_SIZE + N.to_nat (be_value (subarray 4 8 b)))); [|done].
  intros [= <-]. split; [done|by right].
Qed.

Lemma drain_stuck s : incomplete (drain s).1.
Proof.
  induction s as [s IH] using (well_founded_induction (Wf_nat.well_founded_ltof _ (fun s => length s.1))).
  rewrite drain_unfold. destruct (demux_step s) as [s'|r] eqn:E; [apply IH, demux_step_decreases, E|].
  by destruct (demux_step_stop _ _ E) as [-> H].
Qed.

(** What more bytes add comes after what is there. *)
Lemma drain_app b c out : drain (b ++ c, out) = drain ((drain (b, out)).1 ++ c, (drain (b, out)).2).
Proof.
  remember (length b) as n eqn:En. revert b out En.
  induction n as [n IH] using (well_founded_induction Wf_nat.lt_wf). intros b out ->.
  rewrite (drain_unfold (b, out)). destruct (demux_step (b, out)) as [[b' out']|r] eqn:E.
  - pose proof (demux_step_decreases _ _ E) as Hlt. cbn [fst] in Hlt. rewrite <- (IH _ Hlt b' out' eq_refl).
    rewrite drain_unfold. unfold demux_step in *.
    destruct (Nat.ltb_spec (length b) HEADER_SIZE) as [|H8]; [done|].
    set (n := N.to_nat (be_value (subarray 4 8 b))) in *.
    destruct (Nat.ltb_spec (length b) (HEADER_SIZE + n)) as [|Hn]; [done|]. injection E as <- <-.
    assert (forall from to, (from <= to <= length b)%nat -> subarray from to (b ++ c) = subarray from to b) as Hs.
    { intros from to [H1 H2]. unfold subarray. rewrite drop_app_le, take_app_le; [done| |lia].
      rewrite length_drop. lia. }
    rewrite Hs by (unfold HEADER_SIZE in H8; lia). fold n. rewrite length_app, Hs by lia.
    destruct (Nat.ltb_spec (length b + length c) HEADER_SIZE); [lia|].
    destruct (Nat.ltb_spec (length b + length c) (HEADER_SIZE + n)); [lia|].
    rewrite drop_app_le by lia. do 3 f_equal. apply app_nth1. unfold HEADER_SIZE in H8. lia.
  - by destruct (demux_step_stop _ _ E) as [-> _].
Qed.

Lemma write_eq b out c : write (b, out) c = drain (b ++ c, out).
Proof. unfold write. destruct b; [done|]. reflexivity. Qed.

Lemma writes_concat chunks b out :
  incomplete b -> fold_left write chunks (b, out) = drain (b ++ concat chunks, out).
Proof.
  revert b out. induction chunks as [|c chunks IH]; intros b out Hb; cbn [fold_left concat].
  - by rewrite app_nil_r, drain_incomplete.
  - rewrite write_eq, app_assoc, (drain_app (b ++ c)). destruct (drain (b ++ c, out)) as [b' out'] eqn:E.
    rewrite IH; [done|]. pose proof (drain_stuck (b ++ c, out)) as H. by rewrite E in H.
Qed.

(** A frame comes out whole, once and on its own stream, however the bytes arrive: for any frames and the
    start of another one, cut into chunks anywhere, the demultiplexer has handed on exactly the payloads of
    the standard output and error frames, in order (empty ones and other stream types skipped), telling the
    caller to pause after each write its sink reported full, and holds exactly the bytes of the unfinished
    frame. *)
Theorem demux_frames chunks frames tl :
  frames_ok frames -> incomplete tl -> concat chunks = stream frames ++ tl ->
  fold_left write chunks ([], []) = (tl, emits (map fst frames) []).
Proof.
  intros Hf Ht E. rewrite writes_concat by (left; cbn; unfold HEADER_SIZE; lia). cbn [app]. rewrite E.
  by apply drain_frames.
Qed.
End Demux.

Definition sample_frames : list ((N * bytes) * bytes) :=
  [((1, js "hello"), [0; 0; 0]); ((2, js "oops"), [0; 0; 0]); ((0, js "echo"), [0; 0; 0]); ((1, []), [0; 0; 0])].

Lemma demux_frames_witness :
  fold_left (write (fun _ _ _ => true)) (map (fun b => [b]) (stream sample_frames ++ [1; 0; 0])) ([], []) =
  ([1; 0; 0], [wrote stdout (js "hello"); wrote stderr (js "oops")]).
Proof.
  apply (demux_frames (fun _ _ _ => true) (map (fun b => [b]) (stream sample_frames ++ [1; 0; 0])) sample_frames [1; 0; 0]).
  - repeat constructor.
  - left. cbn. unfold HEADER_SIZE. lia.
  - vm_compute. reflexivity.
Defined.
