(* ===== verification/TurnText.v ===== *)
(** * The text of turns: [storable] and [deriveTitle] of [packages/api/src/services/turn-service.ts]

    What the control plane does to the strings of a runner's report before
    they reach the database, and how a conversation is named after the message
    that opened it. *)
From S2P Require Import Prelude JsJson JsBytes TurnEvents.
Local Open Scope N_scope.

(** ** [storable] *)

Module Store.

Definition REPLACEMENT : N := 0xFFFD.

Definition next_low (s : jsstr) : bool := match s with d :: _ => is_low d | [] => false end.

(** [LONE_SURROGATE] at one position: a high surrogate no low one follows, or
    a low surrogate no high one precedes. *)
Definition LONE_SURROGATE (prev : bool) (c : N) (s : jsstr) : bool :=
  (is_high c && negb (next_low s)) || (negb prev && is_low c).

(** [replace(LONE_SURROGATE, "\uFFFD")]; [prev] tells whether the unit before
    is a high surrogate. *)
Fixpoint replace_lone (prev : bool) (s : jsstr) : jsstr :=
  match s with
  | [] => []
  | c :: s' => (if LONE_SURROGATE prev c s' then REPLACEMENT else c) :: replace_lone (is_high c) s'
  end.

(** [storable] on a string. *)
Definition storable_string (value : jsstr) : jsstr :=
  let withoutNul := if has_char NUL value then join [] (split_on NUL value) else value in
  replace_lone false withoutNul.

(** [storable]: the members of an object keep their keys. *)
Fixpoint storable (value : json) : json :=
  match value with
  | JStr s => JStr (storable_string s)
  | JArr items => JArr (map storable items)
  | JObj members => JObj (map (fun m => (m.1, storable m.2)) members)
  | JNull => JNull
  | JBool b => JBool b
  | JNum raw => JNum raw
  end.

(** [storable] on an event of the vocabulary. *)
Definition storable_event (event : AgentEvent) : AgentEvent :=
  match event with
  | turn_started => turn_started
  | text_delta t => text_delta (storable_string t)
  | thinking_delta t => thinking_delta (storable_string t)
  | text t => text (storable_string t)
  | tool_started callId name => tool_started (storable_string callId) (storable_string name)
  | tool_finished callId name input output isError exitCode =>
      tool_finished (storable_string callId) (storable_string name) (storable_string <$> input)
        (storable_string output) isError exitCode
  | approval_pending d => approval_pending (storable_string d)
  | notice level t => notice level (storable_string t)
  | message_joined f => message_joined (storable_string f)
  | message_sent_now moved toolName => message_sent_now moved (storable_string <$> toolName)
  | turn_done usage => turn_done usage
  | error message code => error (storable_string message) (storable_string <$> code)
  end.

(** What PostgreSQL and the database client accept in a text value: no
    U+0000, and every surrogate in a pair. *)
Fixpoint paired (s : jsstr) : bool :=
  match s with
  | [] => true
  | c :: s' =>
      if is_high c then match s' with d :: s'' => is_low d && paired s'' | [] => false end
      else negb (is_low c) && paired s'
  end.

Definition storable_text (s : jsstr) : bool := negb (has_char NUL s) && paired s.

(** Every string value of a JSON value, the keys of its objects apart. *)
Fixpoint strings (value : json) : list jsstr :=
  match value with
  | JStr s => [s]
  | JArr items => flat_map strings items
  | JObj members => flat_map (fun m => strings m.2) members
  | JNull | JBool _ | JNum _ => []
  end.

End Store.

(** ** [deriveTitle] *)

Module Title.

Definition MAX_DERIVED_TITLE_LENGTH : nat := 80.

(** [message.replace(/\s+/g, " ")]; [inrun] tells whether the unit before was
    white space of the same run. *)
Fixpoint collapse (inrun : bool) (s : jsstr) : jsstr :=
  match s with
  | [] => []
  | c :: s' =>
      if is_js_space c then (if inrun then collapse true s' else 32 :: collapse true s')
      else c :: collapse false s'
  end.

(** [cut.lastIndexOf(" ")], [None] for -1. *)
Definition last_index_of (c : N) (s : jsstr) : option nat :=
  (fun i => (length s - S i)%nat) <$> index_of c (rev s).

(** The comparison [lastSpace > 80 * 0.6] is with 48. *)
Definition deriveTitle (message : jsstr) : option jsstr :=
  let flat := trim (collapse false message) in
  if (length flat =? 0)%nat then None
  else if (length flat <=? MAX_DERIVED_TITLE_LENGTH)%nat then Some flat
  else
    let cut := take MAX_DERIVED_TITLE_LENGTH flat in
    Some ((match last_index_of 32 cut with
           | Some lastSpace => if (48 <? lastSpace)%nat then take lastSpace cut else cut
           | None => cut
           end) ++ [8230]).

End Title.

(** ** What [storable] guarantees *)

Import Store.

Lemma is_low_not_high c : is_low c = true -> is_high c = false.
Proof. unfold is_low, is_high. rewrite andb_true_iff, andb_false_iff, !N.leb_le, !N.leb_gt. lia. Qed.

Lemma next_low_irrelevant s prev : next_low s = false -> replace_lone prev s = replace_lone false s.
Proof.
  destruct s as [|c s]; [done|]. cbn [next_low replace_lone]. intros Hc.
  unfold LONE_SURROGATE. by rewrite Hc, !andb_false_r.
Qed.

(** The unfolding of [replace_lone] after a unit that is no high surrogate, by
    what the text starts with. *)
Lemma replace_lone_pair c d s :
  is_high c = true -> is_low d = true -> replace_lone false (c :: d :: s) = c :: d :: replace_lone false s.
Proof.
  intros Hc Hd. pose proof (is_low_not_high d Hd) as Hnd. cbn [replace_lone]. unfold LONE_SURROGATE. cbn [next_low negb].
  rewrite Hc, Hd, Hnd. assert (is_low c = false) as ->; [|done].
  destruct (is_low c) eqn:E; [apply is_low_not_high in E; congruence|done].
Qed.

Lemma replace_lone_high c s :
  is_high c = true -> next_low s = false -> replace_lone false (c :: s) = REPLACEMENT :: replace_lone false s.
Proof.
  intros Hc Hs. cbn [replace_lone]. unfold LONE_SURROGATE. rewrite Hc, Hs. cbn [negb andb orb].
  by rewrite (next_low_irrelevant s true Hs).
Qed.

Lemma replace_lone_other c s :
  is_high c = false ->
  replace_lone false (c :: s) = (if is_low c then REPLACEMENT else c) :: replace_lone false s.
Proof. intros Hc. cbn [replace_lone]. unfold LONE_SURROGATE. rewrite Hc. by destruct (is_low c). Qed.

(** Induction over a text by the pairs and single units [replace_lone] sees. *)
Lemma surrogate_ind (P : jsstr -> Prop) :
  P [] ->
  (forall c d s, is_high c = true -> is_low d = true -> P s -> P (c :: d :: s)) ->
  (forall c s, is_high c = true -> next_low s = false -> P s -> P (c :: s)) ->
  (forall c s, is_high c = false -> P s -> P (c :: s)) ->
  forall s, P s.
Proof.
  intros H0 Hp Hh Ho s. remember (length s) as n eqn:Hn. revert s Hn.
  induction (lt_wf n) as [n _ IH]. intros s ->. destruct s as [|c s]; [done|].
  destruct (is_high c) eqn:Hc; [|apply Ho; [done|]; eapply IH; [|done]; cbn; lia].
  destruct (next_low s) eqn:Hs; [|apply Hh; [done|done|]; eapply IH; [|done]; cbn; lia].
  destruct s as [|d s]; [done|]. apply Hp; [done|done|]. eapply IH; [|done]. cbn. lia.
Qed.

Lemma paired_replace_lone s : paired (replace_lone false s) = true.
Proof.
  induction s as [|c d s Hc Hd IH|c s Hc Hs IH|c s Hc IH] using surrogate_ind; [done| | |].
  - rewrite replace_lone_pair by done. cbn [paired]. by rewrite Hc, Hd.
  - by rewrite replace_lone_high by done.
  - rewrite replace_lone_other by done. destruct (is_low c) eqn:El; cbn [paired]; [done|]. by rewrite Hc, El.
Qed.

Lemma replace_lone_paired s : paired s = true -> replace_lone false s = s.
Proof.
  induction s as [|c d s Hc Hd IH|c s Hc Hs IH|c s Hc IH] using surrogate_ind; [done| | |]; cbn [paired].
  - rewrite Hc, Hd. intros Hp. rewrite replace_lone_pair by done. by rewrite IH.
  - rewrite Hc. destruct s as [|d s]; [done|]. cbn [next_low] in Hs. by rewrite Hs.
  - rewrite Hc. rewrite replace_lone_other by done. destruct (is_low c); [done|]. cbn [negb andb]. intros Hp. by rewrite IH.
Qed.

Lemma replace_lone_NUL s : NUL ∉ s -> NUL ∉ replace_lone false s.
Proof.
  assert (NUL <> REPLACEMENT) as Hr by done.
  induction s as [|c d s Hc Hd IH|c s Hc Hs IH|c s Hc IH] using surrogate_ind; [done| | |];
    rewrite ?not_elem_of_cons; intros Hn.
  - rewrite replace_lone_pair by done. rewrite !not_elem_of_cons. tauto.
  - rewrite replace_lone_high by done. rewrite not_elem_of_cons. tauto.
  - rewrite replace_lone_other by done. rewrite not_elem_of_cons. destruct (is_low c); tauto.
Qed.

Lemma join_split_NUL s : NUL ∉ join [] (split_on NUL s).
Proof.
  assert (forall ws, (forall w, w ∈ ws -> NUL ∉ w) -> NUL ∉ join [] ws) as H.
  { induction ws as [|w [|w' ws] IH]; intros Hw; cbn [join]; [apply not_elem_of_nil|apply Hw; left|].
    rewrite app_nil_l, elem_of_app. intros [Hin|Hin]; [by eapply Hw; [left|]|].
    apply IH in Hin; [done|]. intros v Hv. apply Hw. by right. }
  apply H. intros w. apply split_on_pieces.
Qed.

Lemma storable_string_text s : storable_text (storable_string s) = true.
Proof.
  unfold storable_text, storable_string. rewrite paired_replace_lone, andb_true_r, negb_true_iff, has_char_false.
  apply replace_lone_NUL. destruct (has_char NUL s) eqn:E; [apply join_split_NUL|by apply has_char_false].
Qed.

Lemma storable_string_id s : storable_text s = true -> storable_string s = s.
Proof.
  unfold storable_text, storable_string. rewrite andb_true_iff, negb_true_iff. intros [-> Hp].
  by apply replace_lone_paired.
Qed.

(** Induction on a JSON value through its arrays and objects. *)
Lemma json_nested_ind (P : json -> Prop) :
  P JNull -> (forall b, P (JBool b)) -> (forall r, P (JNum r)) -> (forall s, P (JStr s)) ->
  (forall items, Forall P items -> P (JArr items)) ->
  (forall members, Forall (fun m => P m.2) members -> P (JObj members)) -> forall v, P v.
Proof.
  intros Hn Hb Hr Hs Ha Ho. fix IH 1. intros [|b|r|s|items|members]; [done|apply Hb|apply Hr|apply Hs| |].
  - apply Ha. induction items as [|v items IHi]; constructor; [apply IH|apply IHi].
  - apply Ho. induction members as [|[k v] members IHi]; constructor; [apply IH|apply IHi].
Qed.

(** Every string value of what [storable] returns can be stored, and a value
    whose strings can all be stored comes back unchanged: the sanitizer
    changes only what the database would refuse. *)
Theorem storable_spec value :
  forallb storable_text (strings (storable value)) = true /\
  (forallb storable_text (strings value) = true -> storable value = value).
Proof.
  induction value as [|b|r|s|items IH|members IH] using json_nested_ind; [done|done|done| | |];
    cbn [strings storable forallb].
  - rewrite storable_string_text. split; [done|]. rewrite andb_true_r. intros Hs. by rewrite storable_string_id.
  - induction IH as [|v items [H1 H2] _ [IH1 IH2]]; [done|]. cbn [map flat_map]. rewrite !forallb_app, H1, IH1.
    split; [done|]. rewrite andb_true_iff. intros [Hv Hi]. rewrite H2 by done.
    injection (IH2 Hi) as Hm. by rewrite Hm.
  - induction IH as [|[k v] members [H1 H2] _ [IH1 IH2]]; [done|]. cbn [map flat_map fst snd].
    cbn [snd] in H1, H2. rewrite !forallb_app, H1, IH1.
    split; [done|]. rewrite andb_true_iff. intros [Hv Hi]. rewrite H2 by done.
    injection (IH2 Hi) as Hm. by rewrite Hm.
Qed.

(** On the events of the vocabulary it is [storable] of their JSON. *)
Lemma storable_event_json event : event_json (storable_event event) = storable (event_json event).
Proof.
  destruct event as [| | | | |callId name [input|] output [e|] [c|]| |[]| | moved [n|]|[u|]|m [c|]]; try done;
    destruct u as [i o [cr|] [cc|] [pt|]]; done.
Qed.

(** What a runner's [clean] cut in the middle of a surrogate pair is repaired
    here. *)
Example storable_cut_pair : storable_string [104; 0xD83D] = [104; REPLACEMENT].
Proof. reflexivity. Qed.

(** A key is not a value: [storable] leaves it as it came. *)
Example storable_keeps_keys : storable (JObj [([NUL], JStr [NUL; 65])]) = JObj [([NUL], JStr [65])].
Proof. reflexivity. Qed.

(** ** What a derived title is *)

Import Title.

Lemma collapse_blank inrun s : forallb is_js_space (collapse inrun s) = forallb is_js_space s.
Proof.
  revert inrun. induction s as [|c s IH]; intros inrun; [done|]. cbn [collapse].
  destruct (is_js_space c) eqn:Hc; cbn [forallb]; rewrite ?Hc; [|done].
  destruct inrun; cbn [forallb]; by rewrite IH.
Qed.

Lemma trim_start_nil s : trim_start s = [] <-> forallb is_js_space s = true.
Proof. induction s as [|c s IH]; [done|]. cbn. destruct (is_js_space c); done. Qed.

Lemma trim_start_blank s : forallb is_js_space (trim_start s) = forallb is_js_space s.
Proof. induction s as [|c s IH]; [done|]. cbn. destruct (is_js_space c) eqn:Hc; [by rewrite IH|]. cbn. by rewrite Hc. Qed.

Lemma forallb_rev (f : N -> bool) s : forallb f (rev s) = forallb f s.
Proof.
  induction s as [|c s IH]; [done|]. cbn. rewrite forallb_app, IH. cbn. by rewrite andb_true_r, andb_comm.
Qed.

Lemma trim_nil s : trim s = [] <-> forallb is_js_space s = true.
Proof.
  unfold trim. rewrite <- (trim_start_blank s), <- forallb_rev, <- trim_start_nil.
  split; [|by intros ->]. intros H. by rewrite <- (rev_involutive (trim_start _)), H.
Qed.

Lemma last_index_of_lt c s i : last_index_of c s = Some i -> (i < length s)%nat.
Proof.
  unfold last_index_of. destruct (index_of c (rev s)) as [j|] eqn:E; [|done]. cbn. intros [= <-].
  apply index_of_Some in E as (_ & _ & E). rewrite length_rev in E. lia.
Qed.

(** A message gives a title exactly when it is not all white space; the title
    is the collapsed message itself when it fits, and otherwise more than 48
    and at most 80 units of its start and an ellipsis. *)
Theorem deriveTitle_spec message :
  (deriveTitle message = None <-> forallb is_js_space message = true) /\
  (forall t, deriveTitle message = Some t ->
     let flat := trim (collapse false message) in
     (t = flat /\ (0 < length flat <= 80)%nat) \/
     (exists start rest, flat = start ++ rest /\ t = start ++ [8230] /\ (48 < length start <= 80)%nat /\
        (80 < length flat)%nat)).
Proof.
  unfold deriveTitle. set (flat := trim (collapse false message)).
  assert (length flat = 0%nat <-> forallb is_js_space message = true) as Hf.
  { rewrite <- (collapse_blank false), <- trim_nil. fold flat. apply length_zero_iff_nil. }
  destruct (Nat.eqb_spec (length flat) 0) as [H0|H0]; [split; [tauto|done]|].
  destruct (Nat.leb_spec (length flat) MAX_DERIVED_TITLE_LENGTH) as [Hl|Hl]; unfold MAX_DERIVED_TITLE_LENGTH in *.
  - split; [split; [done|tauto]|]. intros t [= <-]. left. split; [done|lia].
  - split; [split; [done|tauto]|]. intros t [= <-]. right.
    assert (forall n, (48 < n <= 80)%nat -> exists start rest, flat = start ++ rest /\
      take n (take 80 flat) ++ [8230] = start ++ [8230] /\ (48 < length start <= 80)%nat /\ (80 < length flat)%nat) as Hcut.
    { intros n Hn. exists (take n flat), (drop n flat). rewrite take_drop, take_take, length_take.
      replace (n `min` 80)%nat with n by lia. split_and!; [done|done|lia|lia|lia]. }
    destruct (last_index_of 32 (take 80 flat)) as [i|] eqn:Ei.
    + apply last_index_of_lt in Ei. rewrite length_take in Ei.
      destruct (Nat.ltb_spec 48 i); [apply Hcut; lia|]. specialize (Hcut 80%nat). rewrite take_take in Hcut. apply Hcut. lia.
    + specialize (Hcut 80%nat). rewrite take_take in Hcut. apply Hcut. lia.
Qed.

Example deriveTitle_lines :
  deriveTitle (js "  fix" ++ [10; 9] ++ js "the build ") = Some (js "fix the build").
Proof. reflexivity. Qed.
