(* ===== verification/Programs.v ===== *)
(** * Programs whose statements interleave

    A program over a shared state is a tree: it ends with an answer or a throw,
    or runs one statement and goes on with what the statement answered.
    Statements are atomic; between two of them anything may happen. *)
From S2P Require Import Prelude.

Section Prog.
Context {Env St Exn : Type}.

Inductive prog (A : Type) : Type :=
| Ret (a : A)
| Throw (x : Exn)
| Stmt {X : Type} (f : Env -> St -> X * St) (k : X -> prog A).
End Prog.
Arguments prog : clear implicits.
Arguments Ret {Env St Exn A} a.
Arguments Throw {Env St Exn A} x.
Arguments Stmt {Env St Exn A X} f k.

Section Ops.
Context {Env St Exn : Type}.
Implicit Types s : St.

Fixpoint prog_bind_def {A B} (g : A -> prog Env St Exn B) (p : prog Env St Exn A) : prog Env St Exn B :=
  match p with
  | Ret a => g a
  | Throw x => Throw x
  | Stmt f k => Stmt f (fun y => prog_bind_def g (k y))
  end.

#[export] Instance prog_bind : MBind (prog Env St Exn) := fun A B g p => prog_bind_def g p.
#[export] Instance prog_ret : MRet (prog Env St Exn) := fun A a => Ret a.
#[export] Instance prog_fmap : FMap (prog Env St Exn) := fun A B g p => p ≫= fun a => Ret (g a).

(** [try p catch h] *)
Fixpoint catch {A} (p : prog Env St Exn A) (h : Exn -> prog Env St Exn A) : prog Env St Exn A :=
  match p with
  | Ret a => Ret a
  | Throw x => h x
  | Stmt f k => Stmt f (fun y => catch (k y) h)
  end.

(** A statement that answers, one that may throw, a read, a write. *)
Definition query {X} (f : Env -> St -> X * St) : prog Env St Exn X := Stmt f Ret.
Definition exec {X} (f : Env -> St -> (X + Exn) * St) : prog Env St Exn X :=
  Stmt f (fun r => match r with inl y => Ret y | inr x => Throw x end).
Definition ask {X} (f : Env -> St -> X) : prog Env St Exn X := query (fun e s => (f e s, s)).
Definition alter_state (f : Env -> St -> St) : prog Env St Exn () := query (fun e s => ((), f e s)).

(** [for (const x of l) await body(x)] *)
Fixpoint each {A} (body : A -> prog Env St Exn ()) (l : list A) : prog Env St Exn () :=
  match l with
  | [] => mret ()
  | x :: l' => body x;; each body l'
  end.

(** A program on its own: [es n] is what the moment gives its [n]-th
    statement. *)
Fixpoint run {A} (es : nat -> Env) (p : prog Env St Exn A) (s : St) : (A + Exn) * St :=
  match p with
  | Ret a => (inl a, s)
  | Throw x => (inr x, s)
  | Stmt f k => let '(y, s') := f (es 0%nat) s in run (fun n => es (S n)) (k y) s'
  end.

(** *** Running step by step *)

Definition later_moments (es : nat -> Env) : nat -> Env := fun n => es (S n).

Lemma run_exec {A X} es (f : Env -> St -> (X + Exn) * St) (g : X -> prog Env St Exn A) s :
  run es (exec f ≫= g) s =
  match f (es 0%nat) s with
  | (inl y, s') => run (later_moments es) (g y) s'
  | (inr x, s') => (inr x, s')
  end.
Proof. cbn. by destruct (f (es 0%nat) s) as [[y|x] s']. Qed.

Lemma run_query {A X} es (f : Env -> St -> X * St) (g : X -> prog Env St Exn A) s :
  run es (query f ≫= g) s = let '(y, s') := f (es 0%nat) s in run (later_moments es) (g y) s'.
Proof. done. Qed.

Lemma run_ask {A X} es (f : Env -> St -> X) (g : X -> prog Env St Exn A) s :
  run es (ask f ≫= g) s = run (later_moments es) (g (f (es 0%nat) s)) s.
Proof. done. Qed.

Lemma run_assoc {A B C} es (p : prog Env St Exn A) (g : A -> prog Env St Exn B) (h : B -> prog Env St Exn C) s :
  run es ((p ≫= g) ≫= h) s = run es (p ≫= (fun a => g a ≫= h)) s.
Proof.
  unfold mbind, prog_bind. revert es s. induction p as [a|x|X f k IH]; intros es s; cbn; [done|done|].
  destruct (f (es 0%nat) s) as [y s']. apply IH.
Qed.

(** A program that answers, then another. *)
Lemma run_bind {A B} es (p : prog Env St Exn A) (g : A -> prog Env St Exn B) s a s' :
  run es p s = (inl a, s') -> exists n, run es (p ≫= g) s = run (fun m => es (n + m)%nat) (g a) s'.
Proof.
  unfold mbind, prog_bind. revert es s. induction p as [b|x|X f k IH]; intros es s E; cbn in *; [|done|].
  - exists 0%nat. by injection E as -> ->.
  - destruct (f (es 0%nat) s) as [y s1]. destruct (IH y _ _ E) as [n En]. by exists (S n).
Qed.

(** A program that answers is not caught. *)
Lemma run_catch {A} es (p : prog Env St Exn A) h s a s' : run es p s = (inl a, s') -> run es (catch p h) s = (inl a, s').
Proof.
  revert es s. induction p as [b|x|X f k IH]; intros es s E; cbn in *; [done|done|].
  destruct (f (es 0%nat) s) as [y s1]. by apply IH.
Qed.

(** A pool of programs whose statements interleave: a new program starts, in
    a state it may start in, one takes a statement, one is lost with its
    process. *)
Section Pool.
Context (starts : St -> prog Env St Exn () -> Prop).

Inductive pool_step : list (prog Env St Exn ()) * St -> list (prog Env St Exn ()) * St -> Prop :=
| pool_start p ps s : starts s p -> pool_step (ps, s) (ps ++ [p], s)
| pool_stmt {X} i (f : Env -> St -> X * St) k ps s e :
    ps !! i = Some (Stmt f k) -> pool_step (ps, s) (<[i := k (f e s).1]> ps, (f e s).2)
| pool_lost i ps s : pool_step (ps, s) (take i ps ++ drop (S i) ps, s).

(** The states of a run, any number of steps apart. *)
Definition pool_run : list (prog Env St Exn ()) * St -> list (prog Env St Exn ()) * St -> Prop := rtc pool_step.
End Pool.

(** The statements of a schedule, by a pool that has started. *)
Fixpoint pool_exec (schedule : list (nat * Env)) (c : list (prog Env St Exn ()) * St) : list (prog Env St Exn ()) * St :=
  match schedule with
  | [] => c
  | (i, e) :: schedule' =>
      match c.1 !! i with
      | Some (Stmt f k) => pool_exec schedule' (<[i := k (f e c.2).1]> c.1, (f e c.2).2)
      | _ => pool_exec schedule' c
      end
  end.

Lemma pool_exec_run starts schedule c : pool_run starts c (pool_exec schedule c).
Proof.
  revert c. induction schedule as [|[i e] schedule IH]; intros [ps s]; cbn [pool_exec fst snd]; [apply rtc_refl|].
  destruct (ps !! i) as [[a|x|X f k]|] eqn:E; [apply IH|apply IH| |apply IH].
  eapply rtc_l, IH. by apply pool_stmt.
Qed.

(** A program running alone is a run of the pool. *)
Lemma pool_run_last starts ps es (p : prog Env St Exn ()) s :
  exists p', pool_run starts (ps ++ [p], s) (ps ++ [p'], (run es p s).2).
Proof.
  revert es s. induction p as [a|x|X f k IH]; intros es s; cbn [run].
  - by exists (Ret a).
  - by exists (Throw x).
  - destruct (f (es 0%nat) s) as [y s'] eqn:Ef. destruct (IH y (fun n => es (S n)) s') as [p' Hp]. exists p'.
    eapply rtc_l; [|exact Hp].
    pose proof (pool_stmt starts (length ps) f k (ps ++ [Stmt f k]) s (es 0%nat)) as Hs.
    rewrite Ef in Hs. cbn [fst snd] in Hs. replace (ps ++ [k y]) with (<[length ps := k y]> (ps ++ [Stmt f k])).
    + apply Hs. by rewrite lookup_app_r, Nat.sub_diag.
    + rewrite insert_app_r_alt, Nat.sub_diag; done.
Qed.

Lemma pool_begin starts ps s : (forall p, p ∈ ps -> starts s p) -> pool_run starts ([], s) (ps, s).
Proof.
  induction ps as [|p ps IH] using rev_ind; intros H; [apply rtc_refl|].
  eapply rtc_r; [apply IH; intros q Hq; apply H, elem_of_app; by left|]. apply pool_start, H, elem_of_app. right. by apply list_elem_of_singleton.
Qed.
End Ops.

(** ** Rely and guarantee

    What a program establishes while others run: a state invariant [I], a
    relation [R] every statement respects, and what a program has learned,
    which must survive the statements of the others. *)

Section Rely.
Context {Env St Exn : Type}.
Implicit Types s : St.

Section Safe.
Context (I : St -> Prop) (R : St -> St -> Prop) `{!PreOrder R}.

Definition stable (K : St -> Prop) : Prop := forall s s', I s -> I s' -> R s s' -> K s -> K s'.

Fixpoint safe {A} (K : St -> Prop) (p : prog Env St Exn A) (Q : A -> St -> Prop) : Prop :=
  match p with
  | Ret a => forall s, I s -> K s -> Q a s
  | Throw _ => True
  | Stmt f k => forall e s, I s -> K s ->
      I (f e s).2 /\ R s (f e s).2 /\ exists K', stable K' /\ K' (f e s).2 /\ safe K' (k (f e s).1) Q
  end.

Definition any : St -> Prop := fun _ => True.
Definition done_any {A} : A -> St -> Prop := fun _ _ => True.

Lemma stable_any : stable any.
Proof. done. Qed.

Lemma stable_and K1 K2 : stable K1 -> stable K2 -> stable (fun s => K1 s /\ K2 s).
Proof. intros H1 H2 s s' Hs Hs' HR [? ?]. split; [by apply (H1 s s')|by apply (H2 s s')]. Qed.

Lemma stable_pure (P : Prop) : stable (fun _ => P).
Proof. by intros s s2 _ _ _ HP. Qed.

Lemma safe_weaken {A} (K K2 : St -> Prop) (p : prog Env St Exn A) Q :
  (forall s, I s -> K s -> K2 s) -> safe K2 p Q -> safe K p Q.
Proof. destruct p as [a|x|X f k]; cbn [safe]; intros HK H; [eauto|done|]. intros e s Hs HKs. apply H; auto. Qed.

Lemma safe_post {A} K (p : prog Env St Exn A) (Q Q2 : A -> St -> Prop) :
  (forall a s, I s -> Q a s -> Q2 a s) -> safe K p Q -> safe K p Q2.
Proof.
  intros HQ. revert K. induction p as [a|x|X f k IH]; intros K; cbn [safe]; [eauto|done|]. intros H e s Hs HKs.
  destruct (H e s Hs HKs) as (? & ? & K' & ? & ? & ?). split_and!; [done|done|]. exists K'. split_and!; [done|done|]. by apply IH.
Qed.

Lemma safe_bind {A B} K (p : prog Env St Exn A) (g : A -> prog Env St Exn B) (Q : A -> St -> Prop) Q2 :
  safe K p Q -> (forall a, safe (Q a) (g a) Q2) -> safe K (p ≫= g) Q2.
Proof.
  unfold mbind, prog_bind. intros Hp Hg. revert K Hp.
  induction p as [a|x|X f k IH]; intros K Hp; cbn [prog_bind_def safe] in *; [|done|].
  - eapply safe_weaken; [|apply Hg]. auto.
  - intros e s Hs HKs. destruct (Hp e s Hs HKs) as (? & ? & K' & ? & ? & ?). split_and!; [done|done|]. exists K'. split_and!; [done|done|].
    by apply IH.
Qed.

(** The rest of a program that forgets what it learned. *)
Lemma safe_seq {A B} K (p : prog Env St Exn A) (g : A -> prog Env St Exn B) Q :
  safe K p done_any -> (forall a, safe any (g a) Q) -> safe K (p ≫= g) Q.
Proof. intros Hp Hg. eapply safe_bind; [exact Hp|]. intros a. eapply safe_weaken; [|apply Hg]. done. Qed.

Lemma safe_catch {A} K (p : prog Env St Exn A) h Q :
  safe K p Q -> (forall x, safe any (h x) Q) -> safe K (catch p h) Q.
Proof.
  intros Hp Hh. revert K Hp. induction p as [a|x|X f k IH]; intros K Hp; cbn [catch safe] in *; [done| |].
  - eapply safe_weaken; [|apply Hh]. done.
  - intros e s Hs HKs. destruct (Hp e s Hs HKs) as (? & ? & K' & ? & ? & ?). split_and!; [done|done|]. exists K'. split_and!; [done|done|].
    by apply IH.
Qed.

Lemma safe_ret {A} (K : St -> Prop) (a : A) (Q : A -> St -> Prop) : (forall s, I s -> K s -> Q a s) -> safe K (mret a) Q.
Proof. done. Qed.

(** Going on under knowledge with a pure part. *)
Lemma safe_pure {A} (K : St -> Prop) (P : Prop) (p : prog Env St Exn A) Q :
  (P -> safe K p Q) -> safe (fun s => K s /\ P) p Q.
Proof.
  destruct p as [a|x|X f k]; cbn [safe]; [intros Hp s Hs [HK HP]; by apply (Hp HP)|done|].
  intros Hp e s Hs [HK HP]. by apply (Hp HP).
Qed.

Lemma safe_only {A} (P : Prop) (p : prog Env St Exn A) Q : (P -> safe any p Q) -> safe (fun _ => P) p Q.
Proof. intros Hp. apply (safe_weaken _ (fun s => any s /\ P)); [by split|]. by apply safe_pure. Qed.

(** What a statement answers becomes knowledge, when it is stable. *)
Lemma safe_query {X} (K : St -> Prop) (f : Env -> St -> X * St) (Q : X -> St -> Prop) :
  (forall y, stable (Q y)) ->
  (forall e s, I s -> K s -> I (f e s).2 /\ R s (f e s).2 /\ Q (f e s).1 (f e s).2) -> safe K (query f) Q.
Proof.
  intros HQ Hf e s Hs HKs. destruct (Hf e s Hs HKs) as (? & ? & ?). split_and!; [done|done|]. exists (Q (f e s).1). split_and!; [done|done|].
  by cbn.
Qed.

Lemma safe_exec {X} (K : St -> Prop) (f : Env -> St -> (X + Exn) * St) (Q : X -> St -> Prop) :
  (forall y, stable (Q y)) ->
  (forall e s, I s -> K s -> I (f e s).2 /\ R s (f e s).2 /\ match (f e s).1 with inl y => Q y (f e s).2 | inr _ => True end) ->
  safe K (exec f) Q.
Proof.
  intros HQ Hf e s Hs HKs. destruct (Hf e s Hs HKs) as (? & ? & HQs). split_and!; [done|done|].
  destruct (f e s).1 as [y|x]; [exists (Q y)|exists any]; cbn; auto using stable_any.
Qed.

Lemma safe_ask {X} (K : St -> Prop) (f : Env -> St -> X) (Q : X -> St -> Prop) :
  (forall y, stable (Q y)) -> (forall e s, I s -> K s -> Q (f e s) s) -> safe K (ask f) Q.
Proof. intros HQ Hf. apply safe_query; [done|]. intros e s Hs HKs. cbn. split_and!; [done|reflexivity|by apply Hf]. Qed.

Lemma safe_ask_any {X} (K : St -> Prop) (f : Env -> St -> X) : safe K (ask f) done_any.
Proof. by apply safe_ask. Qed.

Lemma safe_each {A} (body : A -> prog Env St Exn ()) l : (forall a, a ∈ l -> safe any (body a) done_any) -> safe any (each body l) done_any.
Proof.
  induction l as [|a l IH]; intros H; [by apply safe_ret|]. cbn [each]. apply safe_seq; [apply H; set_solver|].
  intros _. apply IH. set_solver.
Qed.

(** *** Runs *)

Lemma run_safe {A} es K (p : prog Env St Exn A) s Q :
  safe K p Q -> I s -> K s ->
  I (run es p s).2 /\ R s (run es p s).2 /\ match (run es p s).1 with inl a => Q a (run es p s).2 | inr _ => True end.
Proof.
  revert es K s. induction p as [a|x|X f k IH]; intros es K s Hp Hs HK; cbn [run]; [split_and!; [done|reflexivity|by apply Hp]|by split_and!|].
  destruct (Hp (es 0%nat) s Hs HK) as (HI & HR & K' & _ & HK' & Hk). destruct (f (es 0%nat) s) as [y s']. cbn in *.
  destruct (IH y (fun n => es (S n)) K' s' Hk HI HK') as (? & ? & ?). split_and!; [done|by transitivity s'|done].
Qed.

(** A program that may start, with what it knows then. *)
Definition startable (s : St) (p : prog Env St Exn ()) : Prop := exists K, stable K /\ K s /\ safe K p done_any.

Definition pool_ok (ps : list (prog Env St Exn ())) (s : St) : Prop :=
  I s /\ forall i p, ps !! i = Some p -> startable s p.

Lemma startable_any s (p : prog Env St Exn ()) : safe any p done_any -> startable s p.
Proof. intros H. exists any. split_and!; [apply stable_any|done|done]. Qed.

Lemma pool_ok_step starts ps s ps' s' :
  (forall s p, I s -> starts s p -> startable s p) -> pool_ok ps s -> pool_step starts (ps, s) (ps', s') -> pool_ok ps' s' /\ R s s'.
Proof.
  intros Hst [Hs Hps] Hstep. inversion Hstep as [p ps0 s0 Hp|X i f k ps0 s0 e Hi|i ps0 s0]; subst.
  - split; [|reflexivity]. split; [done|]. intros j q [Hq|[_ Hq]]%lookup_app_Some; [by eapply Hps|].
    apply list_lookup_singleton_Some in Hq as [_ <-]. by apply Hst.
  - destruct (Hps i _ Hi) as (K & _ & HK & Hsafe). destruct (Hsafe e s Hs HK) as (HI & HR & K' & HK's & HK' & Hk).
    split; [|done]. split; [done|]. intros j q Hq. destruct (decide (j = i)) as [->|Hne].
    + rewrite list_lookup_insert_eq in Hq by (by eapply lookup_lt_Some). injection Hq as <-. by exists K'.
    + rewrite list_lookup_insert_ne in Hq by done. destruct (Hps j q Hq) as (Kj & Hj & HKj & Hsj). exists Kj. split_and!; [done| |done].
      by eapply (Hj s).
  - split; [|reflexivity]. split; [done|]. intros j q [Hq|[_ Hq]]%lookup_app_Some.
    + apply lookup_take_Some in Hq as [Hq _]. by eapply Hps.
    + rewrite lookup_drop in Hq. by eapply Hps.
Qed.

Lemma pool_ok_run starts ps s ps' s' :
  (forall s p, I s -> starts s p -> startable s p) -> pool_ok ps s -> pool_run starts (ps, s) (ps', s') -> pool_ok ps' s' /\ R s s'.
Proof.
  intros Hst Hok Hrun. remember (ps, s) as a eqn:Ha. remember (ps', s') as b eqn:Hb. revert ps s Ha Hok.
  induction Hrun as [a|a [ps1 s1] b Hstep _ IH]; intros ps s -> Hok; subst.
  - injection Hb as -> ->. split; [done|reflexivity].
  - destruct (pool_ok_step _ _ _ _ _ Hst Hok Hstep) as [Hok1 HR]. destruct (IH eq_refl ps1 s1 eq_refl Hok1) as [? ?].
    split; [done|]. by transitivity s1.
Qed.

(** From a first state on, every state of a run leads to the later ones by
    [R], under [I]. *)
Lemma pool_safe starts s ps s1 ps' s' :
  (forall s p, I s -> starts s p -> startable s p) -> I s ->
  pool_run starts ([], s) (ps, s1) -> pool_run starts (ps, s1) (ps', s') -> I s' /\ R s1 s'.
Proof.
  intros Hst Hs Hrun Hrun'. assert (pool_ok [] s) as Hok by (split; [done|intros ? ? [=]]).
  destruct (pool_ok_run _ _ _ _ _ Hst Hok Hrun) as [Hok1 _]. by destruct (pool_ok_run _ _ _ _ _ Hst Hok1 Hrun') as [[? _] ?].
Qed.
End Safe.
End Rely.

#[export] Hint Resolve stable_any stable_pure stable_and : core.
