(* ===== verification/TurnDb.v ===== *)
(** * The turns table and the programs over it

    The rows of [turns], [conversations], [sandboxes], [conversation_attachments]
    and [turn_events] ([packages/db/prisma/schema.prisma]) as far as the life of
    a turn reads and writes them, the partial unique index over active turns,
    the statements of the database client as functions of the whole state, and
    programs: trees of such statements, the form every service function of
    [turn-service.ts], [due-work.ts], [sandbox-service.ts] and
    [follow-up-service.ts] takes in this development. *)
From S2P Require Import Prelude JsJson.
From S2P Require Export Programs.

(** ** Statuses: [validations/conversation.ts] *)

Inductive TurnStatus := Queued | Dispatched | Running | Done | Failed | Aborted | Joining | Joined.

#[export] Instance TurnStatus_eq_dec : EqDecision TurnStatus.
Proof. solve_decision. Defined.

Definition ACTIVE_TURN_STATUSES : list TurnStatus := [Queued; Dispatched; Running].

(** [status in statuses] *)
Definition one_of (statuses : list TurnStatus) (s : TurnStatus) : bool := bool_decide (s ∈ statuses).

Definition isActiveTurnStatus (s : TurnStatus) : bool := one_of ACTIVE_TURN_STATUSES s.

Definition MAX_JOINING_FOLLOW_UPS : nat := 10.

(** The name of a status on the wire and in the table. *)
Definition status_text (s : TurnStatus) : jsstr :=
  match s with
  | Queued => js "queued" | Dispatched => js "dispatched" | Running => js "running" | Done => js "done"
  | Failed => js "failed" | Aborted => js "aborted" | Joining => js "joining" | Joined => js "joined"
  end.

(** ** Rows *)

Record Turn := mkTurn {
  id : jsstr;
  conversationId : jsstr;
  source : jsstr;
  userId : option jsstr;
  message : jsstr;
  sourceThreadId : option jsstr;
  sourceEventId : option jsstr;
  followUpOfTurnId : option jsstr;
  createdAt : Z;
  status : TurnStatus;
  abortRequested : bool;
  error : option jsstr;
  errorCode : option jsstr;
  usage : option json;
  steerDeliveredAt : option Z;
  sendNowRequested : bool;
  promotedAt : option Z;
  retriedAt : option Z;
  ceilingWarnedAt : option Z;
  lastProgressAt : option Z;
  startedAt : option Z;
  finishedAt : option Z;
  updatedAt : Z;
}.

Definition set_status (v : TurnStatus) (t : Turn) : Turn :=
  mkTurn (id t) (conversationId t) (source t) (userId t) (message t) (sourceThreadId t) (sourceEventId t)
    (followUpOfTurnId t) (createdAt t) v (abortRequested t) (error t) (errorCode t) (usage t)
    (steerDeliveredAt t) (sendNowRequested t) (promotedAt t) (retriedAt t) (ceilingWarnedAt t)
    (lastProgressAt t) (startedAt t) (finishedAt t) (updatedAt t).

Definition set_abortRequested (v : bool) (t : Turn) : Turn :=
  mkTurn (id t) (conversationId t) (source t) (userId t) (message t) (sourceThreadId t) (sourceEventId t)
    (followUpOfTurnId t) (createdAt t) (status t) v (error t) (errorCode t) (usage t) (steerDeliveredAt t)
    (sendNowRequested t) (promotedAt t) (retriedAt t) (ceilingWarnedAt t) (lastProgressAt t) (startedAt t)
    (finishedAt t) (updatedAt t).

Definition set_error (v : option jsstr) (t : Turn) : Turn :=
  mkTurn (id t) (conversationId t) (source t) (userId t) (message t) (sourceThreadId t) (sourceEventId t)
    (followUpOfTurnId t) (createdAt t) (status t) (abortRequested t) v (errorCode t) (usage t)
    (steerDeliveredAt t) (sendNowRequested t) (promotedAt t) (retriedAt t) (ceilingWarnedAt t)
    (lastProgressAt t) (startedAt t) (finishedAt t) (updatedAt t).

Definition set_errorCode (v : option jsstr) (t : Turn) : Turn :=
  mkTurn (id t) (conversationId t) (source t) (userId t) (message t) (sourceThreadId t) (sourceEventId t)
    (followUpOfTurnId t) (createdAt t) (status t) (abortRequested t) (error t) v (usage t) (steerDeliveredAt
    t) (sendNowRequested t) (promotedAt t) (retriedAt t) (ceilingWarnedAt t) (lastProgressAt t) (startedAt
    t) (finishedAt t) (updatedAt t).

Definition set_usage (v : option json) (t : Turn) : Turn :=
  mkTurn (id t) (conversationId t) (source t) (userId t) (message t) (sourceThreadId t) (sourceEventId t)
    (followUpOfTurnId t) (createdAt t) (status t) (abortRequested t) (error t) (errorCode t) v
    (steerDeliveredAt t) (sendNowRequested t) (promotedAt t) (retriedAt t) (ceilingWarnedAt t)
    (lastProgressAt t) (startedAt t) (finishedAt t) (updatedAt t).

Definition set_steerDeliveredAt (v : option Z) (t : Turn) : Turn :=
  mkTurn (id t) (conversationId t) (source t) (userId t) (message t) (sourceThreadId t) (sourceEventId t)
    (followUpOfTurnId t) (createdAt t) (status t) (abortRequested t) (error t) (errorCode t) (usage t) v
    (sendNowRequested t) (promotedAt t) (retriedAt t) (ceilingWarnedAt t) (lastProgressAt t) (startedAt t)
    (finishedAt t) (updatedAt t).

Definition set_sendNowRequested (v : bool) (t : Turn) : Turn :=
  mkTurn (id t) (conversationId t) (source t) (userId t) (message t) (sourceThreadId t) (sourceEventId t)
    (followUpOfTurnId t) (createdAt t) (status t) (abortRequested t) (error t) (errorCode t) (usage t)
    (steerDeliveredAt t) v (promotedAt t) (retriedAt t) (ceilingWarnedAt t) (lastProgressAt t) (startedAt t)
    (finishedAt t) (updatedAt t).

Definition set_promotedAt (v : option Z) (t : Turn) : Turn :=
  mkTurn (id t) (conversationId t) (source t) (userId t) (message t) (sourceThreadId t) (sourceEventId t)
    (followUpOfTurnId t) (createdAt t) (status t) (abortRequested t) (error t) (errorCode t) (usage t)
    (steerDeliveredAt t) (sendNowRequested t) v (retriedAt t) (ceilingWarnedAt t) (lastProgressAt t)
    (startedAt t) (finishedAt t) (updatedAt t).

Definition set_retriedAt (v : option Z) (t : Turn) : Turn :=
  mkTurn (id t) (conversationId t) (source t) (userId t) (message t) (sourceThreadId t) (sourceEventId t)
    (followUpOfTurnId t) (createdAt t) (status t) (abortRequested t) (error t) (errorCode t) (usage t)
    (steerDeliveredAt t) (sendNowRequested t) (promotedAt t) v (ceilingWarnedAt t) (lastProgressAt t)
    (startedAt t) (finishedAt t) (updatedAt t).

Definition set_ceilingWarnedAt (v : option Z) (t : Turn) : Turn :=
  mkTurn (id t) (conversationId t) (source t) (userId t) (message t) (sourceThreadId t) (sourceEventId t)
    (followUpOfTurnId t) (createdAt t) (status t) (abortRequested t) (error t) (errorCode t) (usage t)
    (steerDeliveredAt t) (sendNowRequested t) (promotedAt t) (retriedAt t) v (lastProgressAt t) (startedAt
    t) (finishedAt t) (updatedAt t).

Definition set_lastProgressAt (v : option Z) (t : Turn) : Turn :=
  mkTurn (id t) (conversationId t) (source t) (userId t) (message t) (sourceThreadId t) (sourceEventId t)
    (followUpOfTurnId t) (createdAt t) (status t) (abortRequested t) (error t) (errorCode t) (usage t)
    (steerDeliveredAt t) (sendNowRequested t) (promotedAt t) (retriedAt t) (ceilingWarnedAt t) v (startedAt
    t) (finishedAt t) (updatedAt t).

Definition set_startedAt (v : option Z) (t : Turn) : Turn :=
  mkTurn (id t) (conversationId t) (source t) (userId t) (message t) (sourceThreadId t) (sourceEventId t)
    (followUpOfTurnId t) (createdAt t) (status t) (abortRequested t) (error t) (errorCode t) (usage t)
    (steerDeliveredAt t) (sendNowRequested t) (promotedAt t) (retriedAt t) (ceilingWarnedAt t)
    (lastProgressAt t) v (finishedAt t) (updatedAt t).

Definition set_finishedAt (v : option Z) (t : Turn) : Turn :=
  mkTurn (id t) (conversationId t) (source t) (userId t) (message t) (sourceThreadId t) (sourceEventId t)
    (followUpOfTurnId t) (createdAt t) (status t) (abortRequested t) (error t) (errorCode t) (usage t)
    (steerDeliveredAt t) (sendNowRequested t) (promotedAt t) (retriedAt t) (ceilingWarnedAt t)
    (lastProgressAt t) (startedAt t) v (updatedAt t).

Definition set_updatedAt (v : Z) (t : Turn) : Turn :=
  mkTurn (id t) (conversationId t) (source t) (userId t) (message t) (sourceThreadId t) (sourceEventId t)
    (followUpOfTurnId t) (createdAt t) (status t) (abortRequested t) (error t) (errorCode t) (usage t)
    (steerDeliveredAt t) (sendNowRequested t) (promotedAt t) (retriedAt t) (ceilingWarnedAt t)
    (lastProgressAt t) (startedAt t) (finishedAt t) v.

Inductive SandboxStatus := Unprovisioned | Starting | SbRunning | Stopping | Stopped | SbFailed.

#[export] Instance SandboxStatus_eq_dec : EqDecision SandboxStatus.
Proof. solve_decision. Defined.

(** The columns of a sandbox the turn code reads or writes. *)
Record Sandbox := mkSandbox {
  sb_status : SandboxStatus;
  stopRequestedAt : option Z;
  wakeReason : option jsstr;
  lastActiveAt : option Z;
  lastEngagedAt : option Z;
}.

(** The columns of a conversation the turn code writes. *)
Record Conversation := mkConversation {
  title : option jsstr;
  lastSeq : Z;
  harnessSessionRef : option jsstr;
}.

Record Attachment := mkAttachment {
  at_conversationId : jsstr;
  at_userId : option jsstr;
  at_status : jsstr;
  at_turnId : option jsstr;
  at_inbound : bool;
  at_name : jsstr;
  at_createdAt : Z;
}.

Record EventRow := mkEventRow {
  ev_conversationId : jsstr;
  ev_turnId : jsstr;
  ev_seq : Z;
  ev_type : jsstr;
  ev_payload : json;
}.

(** What the turn code does outside the database: an event batch published on
    the bus, an automation settled ([settleAutomationRun] called for a run). *)
Inductive Effect :=
| published (conversationId : jsstr) (events : list EventRow)
| settled (turnId : jsstr) (outcome : TurnStatus).

Record Db := mkDb {
  turns : gmap jsstr Turn;
  conversations : gmap jsstr Conversation;
  sandboxes : gmap jsstr Sandbox;
  attachments : gmap jsstr Attachment;
  turnEvents : list EventRow;
  effects : list Effect;
}.

(** The row of a conversation or sandbox that nothing has written to yet. *)
Definition new_conversation : Conversation := mkConversation None 0 None.
Definition new_sandbox : Sandbox := mkSandbox Unprovisioned None None None None.

Definition conversation (db : Db) (c : jsstr) : Conversation := default new_conversation (conversations db !! c).
Definition sandbox (db : Db) (s : jsstr) : Sandbox := default new_sandbox (sandboxes db !! s).

Definition set_turns (v : gmap jsstr Turn) (db : Db) : Db :=
  mkDb v (conversations db) (sandboxes db) (attachments db) (turnEvents db) (effects db).
Definition set_conversation (c : jsstr) (v : Conversation) (db : Db) : Db :=
  mkDb (turns db) (<[c := v]> (conversations db)) (sandboxes db) (attachments db) (turnEvents db) (effects db).
Definition set_sandbox (s : jsstr) (v : Sandbox) (db : Db) : Db :=
  mkDb (turns db) (conversations db) (<[s := v]> (sandboxes db)) (attachments db) (turnEvents db) (effects db).
Definition set_attachments (v : gmap jsstr Attachment) (db : Db) : Db :=
  mkDb (turns db) (conversations db) (sandboxes db) v (turnEvents db) (effects db).
Definition add_events (rows : list EventRow) (db : Db) : Db :=
  mkDb (turns db) (conversations db) (sandboxes db) (attachments db) (turnEvents db ++ rows) (effects db).
Definition add_effect (x : Effect) (db : Db) : Db :=
  mkDb (turns db) (conversations db) (sandboxes db) (attachments db) (turnEvents db) (effects db ++ [x]).

(** ** Statements

    A statement takes what the moment gives it — the clock, the identifier the
    database generates for a new row, the rows another transaction holds
    locked, whether the database answers — and the state. *)
Record Env := mkEnv {
  now : Z;
  uuid : jsstr;
  locked : jsstr -> bool;
  answers : bool;
}.

(** What a statement or a program may throw. *)
Inductive Exn :=
| P2002
| IntegerOutOfRange
| ServiceError (code message : jsstr)
| Unavailable.

(** The rows the turn code never changes: which agent a conversation belongs
    to, its kind, its agent's workspace and sandbox, and the sandbox's runner.
    A conversation exists when it has an agent. And what the turn code asks of
    the rest of the program: whether a source is a platform job's run
    ([platform-jobs.ts]), what stands between an agent and its model
    ([findAgentLlmBlocker]: a message and a code), and the sentence of each
    failure code ([validations/conversation.ts]). *)
Class World := {
  conv_agent : jsstr -> option jsstr;
  conv_direct : jsstr -> bool;
  conv_user : jsstr -> option jsstr;
  conv_source : jsstr -> jsstr;
  agent_workspace : jsstr -> jsstr;
  agent_sandbox : jsstr -> option jsstr;
  sandbox_runner : jsstr -> jsstr;
  isPlatformJobRun : jsstr -> bool;
  findAgentLlmBlocker : Env -> jsstr -> jsstr -> option (jsstr * jsstr);
  failure_message : jsstr -> jsstr;
}.

(** The rows of a table. *)
Definition rows {A} (table : gmap jsstr A) : list A := (map_to_list table).*2.

(** The partial unique index [turns_one_active_per_conversation]. *)
Definition index_ok (ts : gmap jsstr Turn) : bool :=
  bool_decide (NoDup (map conversationId (List.filter (fun t => isActiveTurnStatus (status t)) (rows ts)))).

(** [UPDATE turns SET data WHERE cond]: the rows it changed, as they are after
    it; a row that breaks the index undoes the whole statement. *)
Definition update_turns (cond : Turn -> bool) (data : Turn -> Turn) (db : Db) : (list Turn + Exn) * Db :=
  let ts := (fun t => if cond t then data t else t) <$> turns db in
  if index_ok ts then (inl (map data (List.filter cond (rows (turns db)))), set_turns ts db)
  else (inr P2002, db).

(** An update of the client also stamps [updatedAt]. *)
Definition client (e : Env) (data : Turn -> Turn) (t : Turn) : Turn := set_updatedAt (now e) (data t).

(** [INSERT INTO turns]: the primary key and the index may refuse it. *)
Definition insert_turn (t : Turn) (db : Db) : (Turn + Exn) * Db :=
  match turns db !! id t with
  | Some _ => (inr P2002, db)
  | None =>
      let ts := <[id t := t]> (turns db) in
      if index_ok ts then (inl t, set_turns ts db) else (inr P2002, db)
  end.

(** [ORDER BY key ASC], and the first row of it. *)
Definition order_by {A} (key : A -> Z) (l : list A) : list A := js_sort (fun a b => (key a <=? key b)%Z) l.

Definition select_turns (cond : Turn -> bool) (db : Db) : list Turn := List.filter cond (rows (turns db)).

Definition oldest (cond : Turn -> bool) (db : Db) : option Turn := head (order_by createdAt (select_turns cond db)).

Definition newest (cond : Turn -> bool) (db : Db) : option Turn :=
  head (order_by (fun t => (- createdAt t)%Z) (select_turns cond db)).

(** [conversation.updateMany] on the conversation [c]; [sandbox.updateMany] on
    the sandbox [s]. *)
Definition update_conversation (c : jsstr) (cond : Conversation -> bool) (data : Conversation -> Conversation)
    (db : Db) : Db :=
  if cond (conversation db c) then set_conversation c (data (conversation db c)) db else db.

Definition update_sandbox (s : jsstr) (cond : Sandbox -> bool) (data : Sandbox -> Sandbox) (db : Db) : nat * Db :=
  if cond (sandbox db s) then (1%nat, set_sandbox s (data (sandbox db s)) db) else (0%nat, db).

(** [lastSeq: { increment: n }], a 32-bit column: the new value. *)
Definition bump_seq (c : jsstr) (n : nat) (db : Db) : (Z + Exn) * Db :=
  let row := conversation db c in
  let v := (lastSeq row + Z.of_nat n)%Z in
  if (v <? 2 ^ 31)%Z then (inl v, set_conversation c (mkConversation (title row) v (harnessSessionRef row)) db)
  else (inr IntegerOutOfRange, db).

(** ** Programs *)
Abbreviation prog := (Programs.prog Env Db Exn).

(** The pools of programs that may start in any state. *)
Abbreviation pool_run starts := (Programs.pool_run (fun _ : Db => starts)).

(** The statements of the client. *)
Definition updateMany (cond : Env -> Db -> Turn -> bool) (data : Env -> Turn -> Turn) : prog (list Turn) :=
  exec (fun e db => update_turns (cond e db) (client e (data e)) db).

Definition rawUpdate (cond : Env -> Db -> Turn -> bool) (data : Env -> Turn -> Turn) : prog (list Turn) :=
  exec (fun e db => update_turns (cond e db) (data e) db).

(** A call that is rejected when the database does not answer. *)
Definition reach {A} (p : prog A) : prog A :=
  up ← ask (fun e _ => answers e);
  if up : bool then p else Throw Unavailable.

Definition tell (x : Effect) : prog () := query (fun _ db => ((), add_effect x db)).
