(* ===== verification/TurnService.v ===== *)
(** * The turn service: [packages/api/src/services/turn-service.ts]

    The functions that create, promote, recover, stop and close turns and
    record their events, as programs over the tables of [TurnDb]. A transaction
    is the sequence of its statements, except the ones that must be seen whole:
    a row created with its attachments, and an event batch numbered under its
    conversation's row lock. *)
From S2P Require Import Prelude JsJson JsBytes TurnEvents TurnText TurnDb.
Local Open Scope Z_scope.

Section Service.
Context {W : World}.

(** ** Fences *)

(** The sandbox of a conversation's agent. *)
Definition conv_sandbox (c : jsstr) : option jsstr := conv_agent c ≫= agent_sandbox.

(** Who is reporting: the runner's token and the sandbox's channel. *)
Record ReporterIdentity := mkReporter {
  runnerId : jsstr;
  sandboxId : jsstr;
}.

(** The conversation's agent owns this sandbox, and it sits on this runner. *)
Definition hosted (r : ReporterIdentity) (c : jsstr) : bool :=
  match conv_sandbox c with
  | Some s => bool_decide (s = sandboxId r) && bool_decide (sandbox_runner s = runnerId r)
  | None => false
  end.

Record TurnOrigin := mkOrigin {
  o_source : jsstr;
  o_userId : option jsstr;
  directWake : option jsstr;
  o_sourceThreadId : option jsstr;
  o_sourceEventId : option jsstr;
}.

Definition in_workspace (ws c : jsstr) : bool :=
  match conv_agent c with Some a => bool_decide (agent_workspace a = ws) | None => false end.

(** [visibleTo]: what a person may read. *)
Definition visible (ws c viewer : jsstr) : bool :=
  in_workspace ws c && (negb (conv_direct c) || bool_decide (conv_user c = Some viewer)).

(** [requireConversation], [requireSystemConversation],
    [requireDirectWakeConversation] by the origin, and the platform-job rule. *)
Definition may_write (ws c : jsstr) (origin : TurnOrigin) : bool :=
  match o_userId origin with
  | Some viewer => visible ws c viewer
  | None =>
      match directWake origin with
      | Some agentId => bool_decide (conv_agent c = Some agentId) && in_workspace ws c && conv_direct c
      | None => in_workspace ws c && negb (conv_direct c)
      end
  end
  && negb ((isPlatformJobRun (conv_source c) || isPlatformJobRun (o_source origin))
           && negb (bool_decide (conv_source c = o_source origin))).

Definition NOT_FOUND (message : jsstr) : Exn := ServiceError (js "NOT_FOUND") message.
Definition CONFLICT (message : jsstr) : Exn := ServiceError (js "CONFLICT") message.
Definition UNPROCESSABLE (message : jsstr) : Exn := ServiceError (js "UNPROCESSABLE") message.

(** The title of the conversation read, when the origin may write there. *)
Definition requireConversationFor (ws c : jsstr) (origin : TurnOrigin) : prog (option jsstr) :=
  t ← ask (fun _ db => if may_write ws c origin then Some (title (conversation db c)) else None);
  match t with
  | Some t => mret t
  | None => Throw (NOT_FOUND (js "Conversation not found"))
  end.

(** ** Sandboxes *)

Definition wakeSandboxFor (agentId : jsstr) (reason : option jsstr) : prog () :=
  match agent_sandbox agentId with
  | None => mret ()
  | Some s =>
      query (fun _ db => ((), (update_sandbox s
        (fun row => bool_decide (sb_status row = Stopped) || bool_decide (sb_status row = SbFailed))
        (fun row => mkSandbox Unprovisioned (stopRequestedAt row) reason (lastActiveAt row) (lastEngagedAt row)) db).2))
  end.

(** [markSandboxEngaged] on one sandbox. *)
Definition engage (e : Env) (s : jsstr) (db : Db) : Db :=
  (update_sandbox s (fun row => bool_decide (sb_status row = SbRunning))
    (fun row => mkSandbox (sb_status row) (stopRequestedAt row) (wakeReason row) (Some (now e)) (Some (now e))) db).2.

Definition markSandboxEngaged (s : option jsstr) : prog () :=
  match s with
  | None => mret ()
  | Some s => query (fun e db => ((), engage e s db))
  end.

(** ** Creating turns *)

Definition MAX_ATTACHMENT_ROWS_PER_MESSAGE : nat := 20.
Definition MAX_ATTACHMENTS_PER_MESSAGE : nat := 10.

Definition bindable (c : jsstr) (userId : option jsstr) (ids : list jsstr) (st : jsstr) (i : jsstr) (a : Attachment) : bool :=
  bool_decide (i ∈ ids) && bool_decide (at_conversationId a = c) && bool_decide (at_userId a = userId) &&
  bool_decide (at_status a = st) && bool_decide (at_turnId a = None).

(** [conversationAttachment.updateMany]: the count, and the table. *)
Definition bind_rows (cond : jsstr -> Attachment -> bool) (data : Attachment -> Attachment)
    (table : gmap jsstr Attachment) : nat * gmap jsstr Attachment :=
  (length (List.filter (fun '(i, a) => cond i a) (map_to_list table)),
   map_imap (fun i a => Some (if cond i a then data a else a)) table).

(** [bindAttachmentsToTurn] ([attachment-service.ts]) inside a transaction. *)
Definition bindAttachmentsToTurn (c turnId : jsstr) (userId : option jsstr) (attachmentIds : list jsstr) (db : Db) :
    (() + Exn) * Db :=
  let ids := js_dedup attachmentIds in
  if (length ids =? 0)%nat then (inl (), db)
  else if (MAX_ATTACHMENT_ROWS_PER_MESSAGE <? length ids)%nat then
    (inr (UNPROCESSABLE (js "A message may reference at most 20 attachments.")), db)
  else
    let '(bound, t1) := bind_rows (bindable c userId ids (js "pending"))
      (fun a => mkAttachment (at_conversationId a) (at_userId a) (js "bound") (Some turnId) (at_inbound a) (at_name a)
                  (at_createdAt a)) (attachments db) in
    let '(failed, t2) := bind_rows (bindable c userId ids (js "failed"))
      (fun a => mkAttachment (at_conversationId a) (at_userId a) (at_status a) (Some turnId) (at_inbound a) (at_name a)
                  (at_createdAt a)) t1 in
    let db' := set_attachments t2 db in
    if (MAX_ATTACHMENTS_PER_MESSAGE <? bound)%nat then
      (inr (UNPROCESSABLE (js "A message may carry at most 10 attachments.")), db')
    else if negb (bound + failed =? length ids)%nat then
      (inr (UNPROCESSABLE (js "An attachment is missing, already sent, or not yours. Re-upload and try again.")), db')
    else (inl (), db').

(** The name of the first inbound attachment, by creation time. *)
Definition firstAttachmentName (db : Db) (turnId : jsstr) : option jsstr :=
  at_name <$> head (order_by at_createdAt
    (List.filter (fun a => bool_decide (at_turnId a = Some turnId) && at_inbound a) (rows (attachments db)))).

(** The row [createTurnRowWithAttachments] inserts. *)
Definition new_turn (e : Env) (c message : jsstr) (st : TurnStatus) (origin : TurnOrigin)
    (followUpOf : option jsstr) : Turn :=
  mkTurn (uuid e) c (o_source origin) (o_userId origin) message (o_sourceThreadId origin) (o_sourceEventId origin)
    followUpOf (now e) st false None None None None false None None None None None None (now e).

(** The row and the binds of its attachments commit together; the answer to a
    commit may be lost too. *)
Definition insert_with_attachments (c message : jsstr) (st : TurnStatus) (followUpOf : option jsstr)
    (origin : TurnOrigin) (attachmentIds : list jsstr) (e : Env) (db : Db) : (Turn + Exn) * Db :=
  match insert_turn (new_turn e c message st origin followUpOf) db with
  | (inl turn, db1) =>
      match attachmentIds with
      | [] => (inl turn, db1)
      | _ =>
          match bindAttachmentsToTurn c (id turn) (o_userId origin) attachmentIds db1 with
          | (inl _, db2) => (inl turn, db2)
          | (inr x, _) => (inr x, db)
          end
      end
  | (inr x, _) => (inr x, db)
  end.

Definition createTurnRowWithAttachments (c message : jsstr) (st : TurnStatus) (followUpOf : option jsstr)
    (origin : TurnOrigin) (attachmentIds : list jsstr) : prog Turn :=
  turn ← reach (exec (insert_with_attachments c message st followUpOf origin attachmentIds));
  reach (mret turn).

Definition is_id (i : jsstr) (t : Turn) : bool := bool_decide (id t = i).
Definition in_conv (c : jsstr) (t : Turn) : bool := bool_decide (conversationId t = c).
Definition has_status (statuses : list TurnStatus) (t : Turn) : bool := one_of statuses (status t).

(** The data of the terminal writes. *)
Definition abort_data (e : Env) (t : Turn) : Turn := set_finishedAt (Some (now e)) (set_status Aborted t).

Definition fail_data (message : jsstr) (code : option jsstr) (e : Env) (t : Turn) : Turn :=
  set_finishedAt (Some (now e))
    (match code with Some _ => set_errorCode code | None => fun t => t end
      (set_error (Some message) (set_status Failed t))).

(** The title a first message gives, when the conversation has none. *)
Definition nameConversation (c message : jsstr) (title0 : option jsstr) (turn : Turn) : prog () :=
  if negb (conv_direct c) && bool_decide (title0 = None) then
    t ← (match Title.deriveTitle message with
         | Some t => mret (Some t)
         | None => reach (ask (fun _ db => firstAttachmentName db (id turn)))
         end);
    match t with
    | None => mret ()
    | Some t =>
        reach (query (fun _ db => ((), update_conversation c (fun row => bool_decide (title row = None))
          (fun row => mkConversation (Some t) (lastSeq row) (harnessSessionRef row)) db)))
    end
  else mret ().

(** Door 1 of the credential check, the wake and the engagement. *)
Definition admitTurn (ws c : jsstr) (origin : TurnOrigin) (turn : Turn) : prog Turn :=
  match conv_agent c with
  | None => mret turn
  | Some agentId =>
      blocker ← reach (ask (fun e _ => findAgentLlmBlocker e ws agentId));
      match blocker with
      | Some (message, code) =>
          rs ← reach (updateMany (fun _ _ => is_id (id turn)) (fail_data message (Some code)));
          mret (default turn (head rs))
      | None =>
          reach (wakeSandboxFor agentId None);;
          (if isPlatformJobRun (o_source origin) then mret () else reach (markSandboxEngaged (agent_sandbox agentId)));;
          mret turn
      end
  end.

Definition createTurn (ws c message : jsstr) (origin : TurnOrigin) (attachmentIds : list jsstr) : prog Turn :=
  title0 ← reach (requireConversationFor ws c origin);
  catch
    (turn ← createTurnRowWithAttachments c message Queued None origin attachmentIds;
     nameConversation c message title0 turn;;
     admitTurn ws c origin turn)
    (fun x => match x with
              | P2002 => Throw (CONFLICT (js "This conversation already has a turn in progress"))
              | x => Throw x
              end).

Definition createFollowUp (c targetTurnId message : jsstr) (origin : TurnOrigin) (attachmentIds : list jsstr) :
    prog Turn :=
  createTurnRowWithAttachments c message Joining (Some targetTurnId) origin attachmentIds.

(** ** Promotion and recovery *)

Definition parked (c : jsstr) (t : Turn) : bool := in_conv c t && has_status [Joining] t.

Definition promote_data (e : Env) (t : Turn) : Turn := set_promotedAt (Some (now e)) (set_status Queued t).

Definition promoteOldestParkedFollowUp (c : jsstr) : prog bool :=
  updateMany (fun _ _ t => parked c t && abortRequested t) abort_data;;
  oldestRow ← ask (fun _ db => oldest (parked c) db);
  match oldestRow with
  | None => mret false
  | Some row =>
      count ← catch
        (rs ← updateMany (fun _ _ t => is_id (id row) t && has_status [Joining] t) promote_data;
         mret (length rs))
        (fun x => match x with P2002 => mret 0%nat | x => Throw x end);
      if (count =? 0)%nat then mret false
      else
        match conv_agent c with Some agentId => wakeSandboxFor agentId None | None => mret () end;;
        mret true
  end.

(** The cold-death revival. *)
Definition reviveColdTurns (fence : Turn -> bool) : prog nat :=
  rs ← updateMany
    (fun _ _ t => fence t && has_status [Dispatched] t && bool_decide (startedAt t = None)
                  && bool_decide (retriedAt t = None))
    (fun e t => set_retriedAt (Some (now e)) (set_status Queued t));
  mret (length rs).

Definition resume_data (e : Env) (t : Turn) : Turn :=
  set_ceilingWarnedAt None (set_lastProgressAt None (set_retriedAt (Some (now e)) (set_status Queued t))).

(** The mid-run resume: the turns put back in the queue. *)
Definition resumeInterruptedTurns (fence : Turn -> bool) : prog (list Turn) :=
  updateMany
    (fun _ _ t => fence t && has_status [Dispatched; Running] t && negb (bool_decide (startedAt t = None))
                  && bool_decide (retriedAt t = None) && negb (abortRequested t)
                  && negb (isPlatformJobRun (source t)))
    resume_data.

(** [turnEvent.createMany] under the unique index on conversation and number. *)
Definition row_key (r : EventRow) : jsstr * Z := (ev_conversationId r, ev_seq r).

Definition insert_events (new : list EventRow) (db : Db) : (() + Exn) * Db :=
  if bool_decide (NoDup (map row_key (turnEvents db ++ new))) then (inl (), add_events new db) else (inr P2002, db).

(** One statement of a transaction, whose failure undoes the whole of it. *)
Definition within {X Y} (r : (X + Exn) * Db) (db : Db) (k : X -> Db -> (Y + Exn) * Db) : (Y + Exn) * Db :=
  match r with
  | (inl x, db') => k x db'
  | (inr x, _) => (inr x, db)
  end.

(** [writeConversationNotice] ([conversation-notice.ts]): one durable notice,
    numbered under the conversation's row lock and published after the commit. *)
Definition notice_row (c turnId : jsstr) (seq : Z) (level text : jsstr) : EventRow :=
  mkEventRow c turnId seq (js "notice")
    (JObj [(js "type", JStr (js "notice")); (js "level", JStr level); (js "text", JStr text)]).

Definition append_notice (c turnId level text : jsstr) (db : Db) : (EventRow + Exn) * Db :=
  within (bump_seq c 1 db) db (fun seq db1 =>
    let row := notice_row c turnId seq level text in
    within (insert_events [row] db1) db (fun _ db2 => (inl row, db2))).

Definition writeConversationNotice (c turnId level text : jsstr) : prog bool :=
  match conv_agent c with
  | None => mret false
  | Some _ =>
      row ← exec (fun _ => append_notice c turnId level text);
      tell (published c [row]);;
      mret true
  end.

(** [AGENT_RESUMING_NOTICE] is the sentence named [agent_resuming]. *)
Definition writeResumeNotices (resumed : list Turn) : prog () :=
  each (fun t =>
    catch (writeConversationNotice (conversationId t) (id t) (js "info") (failure_message (js "agent_resuming"));; mret ())
          (fun _ => mret ())) resumed.

Definition failStrandedTurns (fence : Turn -> bool) (cause : option (jsstr * jsstr)) : prog nat :=
  match cause with
  | Some (message, code) =>
      rs ← updateMany (fun _ _ t => fence t && has_status [Dispatched; Running] t) (fail_data message (Some code));
      mret (length rs)
  | None =>
      neverStarted ← updateMany
        (fun _ _ t => fence t && has_status [Dispatched] t && bool_decide (startedAt t = None))
        (fail_data (failure_message (js "agent_start_failed")) (Some (js "agent_start_failed")));
      started ← updateMany (fun _ _ t => fence t && has_status [Dispatched; Running] t)
        (fail_data (failure_message (js "agent_restarted")) (Some (js "agent_restarted")));
      mret (length neverStarted + length started)%nat
  end.

(** ** Stopping a turn *)

(** What [settleAutomationRun] is told: the run and how it ended. The cron,
    watch, webhook and pair bookkeeping behind it is not modelled. *)
Definition settleAutomationRun (turnId : jsstr) (outcome : TurnStatus) : prog () := tell (settled turnId outcome).

Definition find_turn (cond : Turn -> bool) : prog (option Turn) := ask (fun _ db => head (select_turns cond db)).

Definition seen_turn (ws viewer i : jsstr) (t : Turn) : bool := is_id i t && visible ws (conversationId t) viewer.

Definition sweepFollowUps (c : jsstr) (extra : Turn -> bool) : prog () :=
  updateMany (fun _ _ t => extra t && parked c t) abort_data;; mret ().

(** Handed to the run of [i]. *)
Definition delivered_to (i : jsstr) (t : Turn) : bool :=
  bool_decide (followUpOfTurnId t = Some i) && negb (bool_decide (steerDeliveredAt t = None)).

Record AbortAnswer := mkAbortAnswer {
  aborted : bool;
  delivered : bool;
}.

Definition already_finished : Exn := CONFLICT (js "This turn has already finished").

(** One attempt; [None] is [continue]. *)
Definition abort_attempt (ws turnId viewer : jsstr) : prog (option AbortAnswer) :=
  found ← find_turn (seen_turn ws viewer turnId);
  match found with
  | None => Throw (NOT_FOUND (js "Turn not found"))
  | Some turn =>
      if has_status [Joining] turn then
        rs ← updateMany (fun _ _ t => is_id turnId t && has_status [Joining] t) abort_data;
        mret (if (length rs =? 0)%nat then None else Some (mkAbortAnswer true false))
      else if negb (isActiveTurnStatus (status turn)) then Throw already_finished
      else if has_status [Queued] turn then
        rs ← updateMany (fun _ _ t => is_id turnId t && has_status [Queued] t) abort_data;
        if (length rs =? 0)%nat then mret None
        else
          sweepFollowUps (conversationId turn) (fun _ => true);;
          settleAutomationRun turnId Aborted;;
          mret (Some (mkAbortAnswer true false))
      else
        updateMany (fun _ _ => is_id turnId) (fun _ => set_abortRequested true);;
        sweepFollowUps (conversationId turn) (fun t => negb (delivered_to turnId t));;
        updateMany (fun _ _ t => parked (conversationId turn) t && delivered_to turnId t)
          (fun _ => set_abortRequested true);;
        mret (Some (mkAbortAnswer false true))
  end.

(** [for (let attempt = 0; attempt < 2; ...)] *)
Fixpoint abort_attempts (n : nat) (ws turnId viewer : jsstr) : prog AbortAnswer :=
  match n with
  | O => Throw already_finished
  | S n' =>
      a ← abort_attempt ws turnId viewer;
      match a with Some answer => mret answer | None => abort_attempts n' ws turnId viewer end
  end.

Definition abortTurn (ws turnId viewer : jsstr) : prog AbortAnswer := abort_attempts 2 ws turnId viewer.

(** ** Send now *)

Definition has_attachments (db : Db) (t : Turn) : bool :=
  existsb (fun a => bool_decide (at_turnId a = Some (id t))) (rows (attachments db)).

(** [steerAttachments]: whether the runner of the conversation delivers files
    into a live run. *)
Definition behindFiles (steerAttachments : bool) (db : Db) (row : Turn) : bool :=
  negb steerAttachments &&
  (has_attachments db row ||
   existsb (has_attachments db)
     (select_turns (fun t => parked (conversationId row) t && (createdAt t <? createdAt row)) db)).

Definition requestSendNow (ws followUpId viewer : jsstr) (steerAttachments : bool) : prog () :=
  found ← find_turn (seen_turn ws viewer followUpId);
  match found with
  | None => Throw (NOT_FOUND (js "Message not found"))
  | Some row =>
      match has_status [Joining] row, followUpOfTurnId row with
      | true, Some targetId =>
          behind ← ask (fun _ db => behindFiles steerAttachments db row);
          if (behind : bool) then Throw (CONFLICT (js "Messages with files are read once the agent finishes"))
          else
            target ← find_turn (is_id targetId);
            if match target with Some t => isActiveTurnStatus (status t) | None => false end then
              rs ← updateMany (fun _ _ t => is_id followUpId t && has_status [Joining] t) (fun _ => set_sendNowRequested true);
              if (length rs =? 0)%nat then Throw (CONFLICT (js "The agent already has this message")) else mret ()
            else Throw (CONFLICT (js "The agent finished before it could read this message"))
      | _, _ => Throw (CONFLICT (js "The agent already has this message"))
      end
  end.

(** ** Events *)

(** [DURABILITY]: the event kinds that become rows. *)
Definition DURABILITY (event : AgentEvent) : bool :=
  match event with
  | turn_started => true
  | tool_started _ _ => true
  | tool_finished _ _ _ _ _ _ => true
  | approval_pending _ => true
  | turn_done _ => true
  | TurnEvents.error _ _ => true
  | text _ => true
  | notice _ _ => true
  | text_delta _ => false
  | thinking_delta _ => false
  | message_joined _ => false
  | message_sent_now _ _ => false
  end.

(** [event.type] *)
Definition event_type (event : AgentEvent) : jsstr :=
  match event_members event with (_, JStr t) :: _ => t | _ => [] end.

Definition is_started (event : AgentEvent) : bool := match event with turn_started => true | _ => false end.

(** The batch as [PublishedEvent]s, numbered from [firstSeq]. *)
Definition number_events (c turnId : jsstr) (firstSeq : Z) (events : list AgentEvent) : list (AgentEvent * EventRow) :=
  imap (fun i event => (event, mkEventRow c turnId (firstSeq + Z.of_nat i) (event_type event) (event_json event))) events.

(** [settleJoinedFollowUps]: which rows, and their data. *)
Definition joins (c targetTurnId : jsstr) (followUpIds : list jsstr) (t : Turn) : bool :=
  bool_decide (id t ∈ followUpIds) && parked c t && delivered_to targetTurnId t.

Definition join_data (e : Env) (t : Turn) : Turn := set_finishedAt (Some (now e)) (set_status Joined t).

(** The first [turn.started] stamps [startedAt]. *)
Definition start_data (e : Env) (t : Turn) : Turn :=
  set_updatedAt (now e)
    (set_startedAt (match startedAt t with Some s => Some s | None => Some (now e) end) (set_status Running t)).

(** [turnBelongsToReporter]: the turn's source. *)
Definition turnBelongsToReporter (r : ReporterIdentity) (c turnId : jsstr) (db : Db) : option jsstr :=
  source <$> head (select_turns (fun t => is_id turnId t && in_conv c t && hosted r c) db).

Definition joined_ids (events : list AgentEvent) : list jsstr :=
  omap (fun event => match event with message_joined f => Some f | _ => None end) events.

(** The transaction of [applyTurnEvents]: what is published, or [None] when the
    reporter does not host the turn. *)
Definition apply_batch (r : ReporterIdentity) (c turnId : jsstr) (clean : list AgentEvent) (e : Env) (db : Db) :
    (option (list EventRow) + Exn) * Db :=
  match turnBelongsToReporter r c turnId db with
  | None => (inl None, db)
  | Some src =>
      within (bump_seq c (length clean) db) db (fun lastSeq db1 =>
        let numbered := number_events c turnId (lastSeq - Z.of_nat (length clean) + 1) clean in
        within (insert_events (List.filter (fun p => DURABILITY p.1) numbered).*2 db1) db (fun _ db2 =>
          within (if existsb is_started clean
                  then update_turns (fun t => is_id turnId t && has_status [Dispatched] t) (start_data e) db2
                  else (inl [], db2)) db (fun _ db3 =>
            within (match joined_ids clean with
                    | [] => (inl [], db3)
                    | ids => update_turns (joins c turnId ids) (client e (join_data e)) db3
                    end) db (fun _ db4 =>
              (inl (Some numbered.*2),
               if isPlatformJobRun src then db4 else engage e (sandboxId r) db4)))))
  end.

Definition applyTurnEvents (r : ReporterIdentity) (c turnId : jsstr) (events : list AgentEvent) : prog bool :=
  match events with
  | [] => mret true
  | _ =>
      batch ← exec (apply_batch r c turnId (map Store.storable_event events));
      match batch with
      | Some published_rows => tell (published c published_rows);; mret true
      | None => mret false
      end
  end.

(** The heartbeat. *)
Definition applyTurnProgress (r : ReporterIdentity) (c turnId : jsstr) (sessionRef : option jsstr) : prog () :=
  rs ← updateMany
    (fun _ _ t => is_id turnId t && in_conv c t && has_status [Running] t && hosted r (conversationId t))
    (fun e => set_lastProgressAt (Some (now e)));
  match head rs with
  | None => mret ()
  | Some turn =>
      if isPlatformJobRun (source turn) then mret ()
      else
        match sessionRef with
        | Some (x :: ref) =>
            query (fun _ db => ((), update_conversation c
              (fun row => match conv_sandbox c with
                          | Some s => bool_decide (stopRequestedAt (sandbox db s) = None)
                          | None => false
                          end && negb (bool_decide (harnessSessionRef row = Some (x :: ref))))
              (fun row => mkConversation (title row) (lastSeq row) (Some (x :: ref))) db))
        | _ => mret ()
        end;;
        markSandboxEngaged (Some (sandboxId r))
  end.

(** ** Closing a turn *)

Record FinishTurnInput := mkFinish {
  reporter : ReporterIdentity;
  f_conversationId : jsstr;
  f_turnId : jsstr;
  f_status : TurnStatus;
  f_error : option jsstr;
  f_errorCode : option jsstr;
  f_usage : option json;
  f_sessionRef : option jsstr;
  followUps : list (jsstr * bool);
}.

(** [storable(report)]; the outcome of a follow-up is [true] for ["joined"]. *)
Definition storable_report (i : FinishTurnInput) : FinishTurnInput :=
  mkFinish (mkReporter (Store.storable_string (runnerId (reporter i))) (Store.storable_string (sandboxId (reporter i))))
    (Store.storable_string (f_conversationId i)) (Store.storable_string (f_turnId i)) (f_status i)
    (Store.storable_string <$> f_error i) (Store.storable_string <$> f_errorCode i) (Store.storable <$> f_usage i)
    (Store.storable_string <$> f_sessionRef i) (map (fun p => (Store.storable_string p.1, p.2)) (followUps i)).

(** The keys of [TURN_FAILURE_COPY]; each entry's code is its key. *)
Definition TURN_FAILURE_COPY : list jsstr :=
  [js "agent_restarted"; js "agent_start_failed"; js "model_provider_error"; js "trial_credit_exhausted";
   js "harness_busy"; js "harness_no_terminal"; js "transcript_rejected"; js "model_endpoint_not_found";
   js "model_key_not_attached"; js "model_key_unreadable"; js "blocked_by_policy"; js "gateway_unavailable";
   js "home_read_only"; js "home_read_only_held"; js "model_refused"; js "model_empty_response"].

(** [knownFailureCopy]: the code, whose sentence is [failure_message]. *)
Definition knownFailureCopy (i : FinishTurnInput) : option jsstr :=
  match f_errorCode i with
  | Some code =>
      if bool_decide (f_status i = Failed) && bool_decide (code ∈ TURN_FAILURE_COPY) then Some code else None
  | None => None
  end.

Definition deathReport (i : FinishTurnInput) : bool :=
  bool_decide (f_status i = Failed) &&
  (bool_decide (f_errorCode i = Some (js "agent_start_failed")) ||
   bool_decide (f_errorCode i = Some (js "agent_restarted"))).

(** The reporter's own turn: the id, the conversation and the fence. *)
Definition own (i : FinishTurnInput) (t : Turn) : bool :=
  is_id (f_turnId i) t && in_conv (f_conversationId i) t && hosted (reporter i) (conversationId t).

Definition close_data (i : FinishTurnInput) (e : Env) (t : Turn) : Turn :=
  let known := knownFailureCopy i in
  let t := set_error (match known with Some code => Some (failure_message code) | None => f_error i end)
             (set_status (f_status i) t) in
  let t := match known with Some code => set_errorCode (Some code) t | None => t end in
  let t := match f_usage i with Some u => set_usage (Some u) t | None => t end in
  set_finishedAt (Some (now e)) t.

Definition persistSession (c : jsstr) (cond : Db -> bool) (sessionRef : option jsstr) : prog () :=
  match sessionRef with
  | Some (x :: ref) =>
      query (fun _ db => ((), update_conversation c
        (fun _ => match conv_sandbox c with
                  | Some s => bool_decide (stopRequestedAt (sandbox db s) = None)
                  | None => false
                  end && cond db)
        (fun row => mkConversation (title row) (lastSeq row) (Some (x :: ref))) db))
  | _ => mret ()
  end.

(** The recovery door: [Some] of the resumed turns when the turn runs again. *)
Definition recoverTurn (i : FinishTurnInput) : prog (option (list Turn)) :=
  if deathReport i then
    n ← reviveColdTurns (own i);
    if (0 <? n)%nat then mret (Some [])
    else
      rs ← resumeInterruptedTurns (own i);
      mret (match rs with [] => None | _ => Some rs end)
  else mret None.

(** What the report still says when it lost the close. *)
Definition salvage (i : FinishTurnInput) : prog () :=
  match f_usage i with
  | Some u =>
      updateMany (fun _ _ t => own i t && has_status [Failed; Aborted] t && bool_decide (usage t = None))
        (fun _ => set_usage (Some u));; mret ()
  | None => mret ()
  end;;
  persistSession (f_conversationId i)
    (fun db => hosted (reporter i) (f_conversationId i) &&
      existsb (fun t => is_id (f_turnId i) t && in_conv (f_conversationId i) t && has_status [Failed; Aborted] t)
        (rows (turns db)) &&
      negb (existsb (fun t => in_conv (f_conversationId i) t && isActiveTurnStatus (status t)) (rows (turns db))))
    (f_sessionRef i).

(** The statements of a close that won. *)
Definition afterClose (i : FinishTurnInput) : prog () :=
  persistSession (f_conversationId i) (fun _ => true) (f_sessionRef i);;
  match map fst (List.filter (fun p => p.2) (followUps i)) with
  | [] => mret ()
  | ids => updateMany (fun _ _ => joins (f_conversationId i) (f_turnId i) ids) join_data;; mret ()
  end;;
  (if bool_decide (f_status i = Aborted)
   then updateMany (fun _ _ => parked (f_conversationId i)) abort_data;; mret ()
   else mret ());;
  catch (promoteOldestParkedFollowUp (f_conversationId i);; mret ()) (fun _ => mret ());;
  settleAutomationRun (f_turnId i) (f_status i).

Definition closable (i : FinishTurnInput) : list TurnStatus :=
  if bool_decide (f_status i = Failed) then [Dispatched; Running] else ACTIVE_TURN_STATUSES.

Definition finishTurn (report : FinishTurnInput) : prog () :=
  let i := storable_report report in
  recovered ← recoverTurn i;
  match recovered with
  | Some resumed => writeResumeNotices resumed
  | None =>
      closed ← updateMany (fun _ _ t => own i t && has_status (closable i) t) (close_data i);
      match closed with
      | [] => salvage i
      | _ => afterClose i
      end
  end.

(** A turn a sweep failed. *)
Record SweptTurn := mkSwept {
  sw_turnId : jsstr;
  sw_conversationId : jsstr;
  sw_error : jsstr;
  sw_errorCode : jsstr;
}.

Definition settleSweptTurns (swept : list SweptTurn) : prog () :=
  each (fun s => settleAutomationRun (sw_turnId s) Failed) swept.

(** A turn born finished: its row and its events in one transaction. *)
Definition materialize (c message src : jsstr) (events : list AgentEvent) (e : Env) (db : Db) :
    (option (list EventRow) + Exn) * Db :=
  match conv_agent c with
  | None => (inl None, db)
  | Some _ =>
      let all := events ++ [turn_done None] in
      within (bump_seq c (length all) db) db (fun lastSeq db1 =>
        let firstSeq := lastSeq - Z.of_nat (length all) + 1 in
        let t := mkTurn (uuid e) c src None message None None None (now e) Done false None None None None false None
                   None None None (Some (now e)) (Some (now e)) (now e) in
        within (insert_turn t db1) db (fun turn db2 =>
          let numbered := (number_events c (id turn) firstSeq all).*2 in
          within (insert_events numbered db2) db (fun _ db3 => (inl (Some numbered), db3))))
  end.

Definition materializeBornDoneTurn (c message src : jsstr) (events : list AgentEvent) : prog () :=
  batch ← exec (materialize c message src events);
  match batch with
  | Some published_rows => tell (published c published_rows)
  | None => mret ()
  end.

(** ** Reading the transcript *)

Record Page := mkPage {
  page_events : list EventRow;
  nextSince : Z;
  hasMore : bool;
}.

Definition readTranscriptEvents (c : jsstr) (since until : option Z) (limit : option nat) (db : Db) : Page :=
  let limit := Nat.min (default 200%nat limit) 500 in
  let events := take (S limit) (order_by ev_seq (List.filter (fun r =>
    bool_decide (ev_conversationId r = c) &&
    match since with Some s => s <? ev_seq r | None => true end &&
    match until with Some u => ev_seq r <=? u | None => true end) (turnEvents db))) in
  let page := take limit events in
  mkPage page (match last page with Some r => ev_seq r | None => default 0 since end) (limit <? length events)%nat.

End Service.
