(* ===== verification/TurnDoors.v ===== *)
(** * The doors around a turn: claims, sweeps, sandbox deaths and sends

    The arms of [claimDueWork] that hand turns out and the sweeps that end them
    ([packages/api/src/services/due-work.ts]), what a sandbox's death, respawn
    or restart does to the turns it carried ([sandbox-service.ts]), the send
    door and the promotion pass ([follow-up-service.ts]), and the poll's order
    of sweeps ([routes/runner.ts]). *)
From S2P Require Import Prelude JsJson JsBytes TurnEvents TurnText TurnDb TurnService.
Local Open Scope Z_scope.

(** The tunable windows of [lib/env.ts], in seconds. *)
Class Windows := {
  TURN_CEILING_SECONDS : Z;
  TURN_CEILING_WARNING_SECONDS : Z;
  TURN_STALL_SECONDS : Z;
  STALE_DISPATCH_SECONDS : Z;
}.

(** What a runner advertised ([runnerCapabilitiesSchema]). *)
Record Capabilities := mkCapabilities {
  steerMessages : bool;
  steerAttachments : bool;
  sendNow : bool;
}.

(** A poll's caller: the runner, what it can do, and which of its sandboxes the
    asking copy holds the channel of ([channelHeldBy]). *)
Record Caller := mkCaller {
  caller_runner : jsstr;
  capabilities : Capabilities;
  channelHeld : jsstr -> bool;
}.

Section Doors.
Context {W : World} {T : Windows}.

(** ** The claim arms *)

Definition TURN_LIMIT : nat := 5.
Definition WAKE_PRIORITY_AGE_SECONDS : Z := 600.

(** [COALESCE(retried_at, promoted_at, created_at)] *)
Definition waited_since (t : Turn) : Z :=
  match retriedAt t, promotedAt t with
  | Some r, _ => r
  | None, Some p => p
  | None, None => createdAt t
  end.

Definition ago (e : Env) (seconds : Z) : Z := now e - seconds * 1000.

(** The sandbox of the turn, on the caller's runner and channel. *)
Definition claimable (caller : Caller) (db : Db) (t : Turn) : option Sandbox :=
  match conv_sandbox (conversationId t) with
  | Some s =>
      if bool_decide (sandbox_runner s = caller_runner caller) && channelHeld caller s then Some (sandbox db s) else None
  | None => None
  end.

(** The first rows of the order that no other transaction holds
    ([FOR UPDATE SKIP LOCKED], [LIMIT]). *)
Definition claimed (cond : Turn -> bool) (key : Turn -> Z) (limit : nat) (e : Env) (db : Db) : list jsstr :=
  map id (take limit (order_by key (List.filter (fun t => cond t && negb (locked e (id t))) (rows (turns db))))).

Definition claim (cond : Env -> Db -> Turn -> bool) (key : Env -> Turn -> Z) (data : Env -> Turn -> Turn) :
    prog (list Turn) :=
  rawUpdate (fun e db t => bool_decide (id t ∈ claimed (cond e db) (key e) TURN_LIMIT e db)) data.

Definition touch (e : Env) (t : Turn) : Turn := set_updatedAt (now e) t.

Definition running_box (caller : Caller) (db : Db) (t : Turn) : bool :=
  match claimable caller db t with Some s => bool_decide (sb_status s = SbRunning) | None => false end.

Definition by_creation (e : Env) (t : Turn) : Z := createdAt t.

(** Stops handed to the runner: the flag is cleared by the hand-over. *)
Definition claimAborts (caller : Caller) : prog (list Turn) :=
  claim (fun _ db t => match claimable caller db t with Some _ => true | None => false end &&
                       abortRequested t && has_status [Dispatched; Running; Failed] t)
    by_creation (fun e t => touch e (set_abortRequested false t)).

(** The turn a follow-up steers into. *)
Definition target_in (statuses : list TurnStatus) (db : Db) (t : Turn) : bool :=
  match followUpOfTurnId t with
  | Some i => match turns db !! i with Some target => has_status statuses target | None => false end
  | None => false
  end.

(** The FIFO guard: an older parked sibling not handed over, or handed to
    another run. *)
Definition blocked_by_older (db : Db) (t : Turn) : bool :=
  existsb (fun older => parked (conversationId t) older && (createdAt older <? createdAt t) &&
                        (bool_decide (steerDeliveredAt older = None) ||
                         negb (bool_decide (followUpOfTurnId older = followUpOfTurnId t))))
    (rows (turns db)).

Definition steerable (caller : Caller) (db : Db) (t : Turn) : bool :=
  running_box caller db t && has_status [Joining] t && bool_decide (steerDeliveredAt t = None) &&
  target_in [Dispatched; Running] db t && steerMessages (capabilities caller) &&
  (steerAttachments (capabilities caller) || negb (has_attachments db t)) && negb (blocked_by_older db t).

Definition claimSteers (caller : Caller) : prog (list Turn) :=
  claim (fun _ => steerable caller) by_creation (fun e t => touch e (set_steerDeliveredAt (Some (now e)) t)).

Definition claimCeilingWarnings (caller : Caller) : prog (list Turn) :=
  claim (fun e db t =>
      running_box caller db t && has_status [Running] t && bool_decide (ceilingWarnedAt t = None) &&
      (waited_since t <? ago e (TURN_CEILING_SECONDS - TURN_CEILING_WARNING_SECONDS)) &&
      steerMessages (capabilities caller))
    by_creation (fun e => set_ceilingWarnedAt (Some (now e))).

(** [AUTOMATION_SOURCES] and [userVisibleTurn]. *)
Definition AUTOMATION_SOURCES : list jsstr :=
  [js "cron"; js "watch"; js "webhook"; js "peer_task"; js "memory_review"].

Definition userVisibleTurn (e : Env) (t : Turn) : bool :=
  negb (bool_decide (source t ∈ AUTOMATION_SOURCES)) || (waited_since t <? ago e WAKE_PRIORITY_AGE_SECONDS).

Definition dispatchable (caller : Caller) (e : Env) (db : Db) (t : Turn) : bool :=
  match claimable caller db t with
  | Some s => bool_decide (sb_status s = SbRunning) && bool_decide (stopRequestedAt s = None)
  | None => false
  end &&
  (has_status [Queued] t || (has_status [Dispatched] t && (updatedAt t <? ago e STALE_DISPATCH_SECONDS))).

(** [ORDER BY CASE ... END, created_at]: the rows are sorted by creation, then
    the user-visible ones come first. *)
Definition claimed_turns (caller : Caller) (e : Env) (db : Db) : list jsstr :=
  let due := order_by createdAt
    (List.filter (fun t => dispatchable caller e db t && negb (locked e (id t))) (rows (turns db))) in
  map id (take TURN_LIMIT (List.filter (userVisibleTurn e) due ++ List.filter (fun t => negb (userVisibleTurn e t)) due)).

Definition claimTurns (caller : Caller) : prog (list Turn) :=
  rawUpdate (fun e db t => bool_decide (id t ∈ claimed_turns caller e db)) (fun e t => touch e (set_status Dispatched t)).

Definition claimSendNows (caller : Caller) : prog (list Turn) :=
  claim (fun _ db t =>
      running_box caller db t && sendNowRequested t && has_status [Joining] t &&
      negb (bool_decide (steerDeliveredAt t = None)) && target_in [Running] db t && sendNow (capabilities caller))
    by_creation (fun e t => touch e (set_sendNowRequested false t)).

Record DueTurns := mkDue {
  due_aborts : list Turn;
  due_steers : list Turn;
  due_warnings : list Turn;
  due_turns : list Turn;
  due_sendNows : list Turn;
}.

(** The arms of [claimDueWork] over turns, in its order. *)
Definition claimDueTurns (caller : Caller) : prog DueTurns :=
  aborts ← claimAborts caller;
  steers ← claimSteers caller;
  warnings ← claimCeilingWarnings caller;
  dispatched ← claimTurns caller;
  sendNows ← claimSendNows caller;
  mret (mkDue aborts steers warnings dispatched sendNows).

(** ** Sweeps *)

Definition never_started (t : Turn) : bool := bool_decide (startedAt t = None).

Definition past_ceiling (e : Env) (t : Turn) : bool :=
  isActiveTurnStatus (status t) &&
  (waited_since t <? ago e (if never_started t then Z.min TURN_CEILING_SECONDS 1800 else TURN_CEILING_SECONDS)).

(** The copy and code of a turn past its ceiling. *)
Definition ceiling_copy (never : bool) : jsstr * jsstr :=
  if never then (failure_message (js "agent_never_started"), js "agent_start_failed")
  else (failure_message (js "turn_time_limit"), js "turn_time_limit").

Definition reclaim_data (e : Env) (t : Turn) : Turn :=
  let '(message, code) := ceiling_copy (never_started t) in
  touch e (set_finishedAt (Some (now e)) (set_abortRequested (negb (never_started t))
    (set_errorCode (Some code) (set_error (Some message) (set_status Failed t))))).

Definition swept (message code : jsstr) (t : Turn) : SweptTurn := mkSwept (id t) (conversationId t) message code.

Definition reclaimStaleTurns : prog (list SweptTurn) :=
  rs ← rawUpdate (fun e _ => past_ceiling e) reclaim_data;
  mret (map (fun t => let '(message, code) := ceiling_copy (never_started t) in swept message code t) rs).

Definition stalled (e : Env) (t : Turn) : bool :=
  has_status [Running] t &&
  match lastProgressAt t with Some p => p <? ago e TURN_STALL_SECONDS | None => false end.

Definition stall_data (e : Env) (t : Turn) : Turn :=
  touch e (set_finishedAt (Some (now e)) (set_abortRequested true
    (set_errorCode (Some (js "turn_stalled")) (set_error (Some (failure_message (js "turn_stalled"))) (set_status Failed t))))).

Definition failStalledTurns : prog (list SweptTurn) :=
  rs ← rawUpdate (fun e _ => stalled e) stall_data;
  mret (map (swept (failure_message (js "turn_stalled")) (js "turn_stalled")) rs).

Definition has_active (db : Db) (c : jsstr) : bool :=
  existsb (fun a => in_conv c a && isActiveTurnStatus (status a)) (rows (turns db)).

Definition expireWedgedFollowUps : prog nat :=
  rs ← rawUpdate
    (fun e db t => has_status [Joining] t && (createdAt t <? ago e TURN_CEILING_SECONDS) &&
                   negb (has_active db (conversationId t)))
    (fun e t => touch e (fail_data (failure_message (js "follow_up_expired")) None e t));
  mret (length rs).

(** At most twenty conversations owing a promotion, in any order. *)
Definition listConversationsWithParkedFollowUps : prog (list jsstr) :=
  ask (fun _ db => take 20 (js_dedup (map conversationId
    (select_turns (fun t => has_status [Joining] t && negb (has_active db (conversationId t))) db)))).

(** ** Follow-ups: [follow-up-service.ts] *)

Definition promoteParkedFollowUps : prog () :=
  cs ← listConversationsWithParkedFollowUps;
  each (fun c => catch (promoteOldestParkedFollowUp c;; mret ()) (fun _ => mret ())) cs.

Definition SEND_ATTEMPTS : nat := 3.

Definition activeTurnOf (c : jsstr) : prog (option Turn) :=
  ask (fun _ db => newest (fun t => in_conv c t && isActiveTurnStatus (status t)) db).

Inductive SendMessageOutcome :=
| SentTurn (turn : Turn)
| SentFollowUp (turn : Turn).

(** [FOLLOW_UP_CAP_MESSAGE] is the sentence named [follow_up_cap]. *)
Definition cap_refusal : Exn := CONFLICT (failure_message (js "follow_up_cap")).

(** The end of an attempt that found its target. *)
Definition followUpOn (c message : jsstr) (origin : TurnOrigin) (attachmentIds : list jsstr) (target : Turn) :
    prog SendMessageOutcome :=
  waiting ← reach (ask (fun _ db => length (select_turns (parked c) db)));
  if (MAX_JOINING_FOLLOW_UPS <=? waiting)%nat then Throw cap_refusal
  else
    followUp ← createFollowUp c (id target) message origin attachmentIds;
    stillActive ← reach (find_turn (fun t => is_id (id target) t && isActiveTurnStatus (status t)));
    match stillActive with
    | Some _ => mret (SentFollowUp followUp)
    | None =>
        catch (promoteOldestParkedFollowUp c;; mret ()) (fun _ => mret ());;
        mret (SentFollowUp followUp)
    end.

(** [createTurn], with [None] for the [CONFLICT] the loop continues on. *)
Definition tryCreateTurn (ws c message : jsstr) (origin : TurnOrigin) (attachmentIds : list jsstr) : prog (option Turn) :=
  catch (turn ← createTurn ws c message origin attachmentIds; mret (Some turn))
    (fun x => match x with
              | ServiceError code m => if bool_decide (code = js "CONFLICT") then mret None else Throw (ServiceError code m)
              | x => Throw x
              end).

(** One attempt: an outcome, or [None] for [continue]. *)
Definition send_attempt (ws c message : jsstr) (origin : TurnOrigin) (attachmentIds : list jsstr) :
    prog (option SendMessageOutcome) :=
  target ← reach (activeTurnOf c);
  match target with
  | Some target => Some <$> followUpOn c message origin attachmentIds target
  | None =>
      promoted ← reach (promoteOldestParkedFollowUp c);
      if (promoted : bool) then
        target ← reach (activeTurnOf c);
        match target with
        | Some target => Some <$> followUpOn c message origin attachmentIds target
        | None => mret None
        end
      else
        created ← tryCreateTurn ws c message origin attachmentIds;
        mret (SentTurn <$> created)
  end.

Fixpoint send_attempts (n : nat) (ws c message : jsstr) (origin : TurnOrigin) (attachmentIds : list jsstr) :
    prog SendMessageOutcome :=
  match n with
  | O => Throw cap_refusal
  | S n' =>
      o ← send_attempt ws c message origin attachmentIds;
      match o with Some outcome => mret outcome | None => send_attempts n' ws c message origin attachmentIds end
  end.

Definition sendConversationMessage (ws c message : jsstr) (origin : TurnOrigin) (attachmentIds : list jsstr) :
    prog SendMessageOutcome :=
  reach (requireConversationFor ws c origin);;
  send_attempts SEND_ATTEMPTS ws c message origin attachmentIds.

(** ** Sandbox doors: [sandbox-service.ts] *)

(** Sandbox rows change by these doors and by the rest of the program (start
    and stop claims, provisioning); [writeSandbox] is any such write. *)
Definition writeSandbox (s : jsstr) (data : Sandbox -> Sandbox) : prog () :=
  query (fun _ db => ((), (update_sandbox s (fun _ => true) data db).2)).

(** A status report of the runner: the status, why ([reasonCode]), and whether
    the report's replica and container fences admit it. *)
Record StatusReport := mkReport {
  rp_sandboxId : jsstr;
  rp_runnerId : jsstr;
  rp_status : SandboxStatus;
  rp_reasonCode : option jsstr;
  rp_admitted : bool;
}.

Definition report_fence (p : StatusReport) : ReporterIdentity := mkReporter (rp_runnerId p) (rp_sandboxId p).

Definition homeReadOnly (p : StatusReport) : bool :=
  bool_decide (rp_status p = Stopped) && bool_decide (rp_reasonCode p = Some (js "home_read_only")).

(** Where a report may still be true. *)
Definition report_applies (p : StatusReport) (s : SandboxStatus) : bool :=
  match rp_status p with
  | Stopped => bool_decide (s = SbRunning) || bool_decide (s = Stopping)
  | Starting => negb (bool_decide (s = SbRunning))
  | SbFailed => negb (bool_decide (s = SbRunning))
  | _ => true
  end.

Definition recordStatus (p : StatusReport) : prog nat :=
  query (fun e db => update_sandbox (rp_sandboxId p)
    (fun row => bool_decide (sandbox_runner (rp_sandboxId p) = rp_runnerId p) && rp_admitted p &&
                report_applies p (sb_status row))
    (fun row => mkSandbox (rp_status p) (stopRequestedAt row) (wakeReason row)
       (if bool_decide (rp_status p = SbRunning) then Some (now e) else lastActiveAt row) (lastEngagedAt row)) db).

Record Stranded := mkStranded {
  st_revived : nat;
  st_resumed : list Turn;
  st_failed : nat;
}.

(** The three arms, in their order. *)
Definition recoverAll (fence : Turn -> bool) : prog Stranded :=
  revived ← reviveColdTurns fence;
  resumed ← resumeInterruptedTurns fence;
  failed ← failStrandedTurns fence None;
  mret (mkStranded revived resumed failed).

Definition waiting_fence (p : StatusReport) (t : Turn) : bool := hosted (report_fence p) (conversationId t).

Definition parkWaiting (p : StatusReport) (message code : jsstr) : prog () :=
  updateMany (fun _ _ t => has_status [Queued; Joining] t && waiting_fence p t) (fail_data message (Some code));; mret ().

Definition START_FAILURE_PATIENCE_SECONDS : Z := 150.

Definition applyStartFailureReason (p : StatusReport) : prog () :=
  match rp_reasonCode p with
  | None => mret ()
  | Some code =>
      if bool_decide (code = js "image_unavailable") then
        parkWaiting p (failure_message (js "image_unavailable")) (js "image_unavailable")
      else
        waitedOut ← ask (fun e db => existsb (fun t => has_status [Queued] t && waiting_fence p t &&
                                   (waited_since t <? ago e START_FAILURE_PATIENCE_SECONDS)) (rows (turns db)));
        if negb (waitedOut : bool) then mret ()
        else if bool_decide (code = js "at_capacity") then
          parkWaiting p (failure_message (js "at_capacity")) (js "at_capacity")
        else parkWaiting p (failure_message (js "agent_start_failed")) (js "agent_start_failed")
  end.

(** [applyRunnerEvent] on a status report: the status, then the strand door,
    then the failed-start patience. *)
Definition strand (p : StatusReport) : prog () :=
  out ← (if homeReadOnly p then
           n ← failStrandedTurns (waiting_fence p) (Some (failure_message (js "home_read_only"), js "home_read_only"));
           mret (mkStranded 0 [] n)
         else recoverAll (waiting_fence p));
  (if ((0 <? st_revived out) || (0 <? length (st_resumed out)))%nat
   then query (fun _ db => ((), (update_sandbox (rp_sandboxId p)
          (fun row => bool_decide (sandbox_runner (rp_sandboxId p) = rp_runnerId p) &&
                      (bool_decide (sb_status row = Stopped) || bool_decide (sb_status row = SbFailed)))
          (fun row => mkSandbox Unprovisioned (stopRequestedAt row) (wakeReason row) (lastActiveAt row) (lastEngagedAt row))
          db).2))
   else mret ());;
  writeResumeNotices (st_resumed out).

Definition applyRunnerEvent (p : StatusReport) : prog () :=
  count ← recordStatus p;
  if (count =? 0)%nat then mret ()
  else
    (match rp_status p with Stopped | SbFailed => strand p | _ => mret () end);;
    match rp_status p with SbFailed => applyStartFailureReason p | _ => mret () end.

Definition agent_fence (agentId ws : jsstr) (t : Turn) : bool :=
  bool_decide (conv_agent (conversationId t) = Some agentId) && bool_decide (agent_workspace agentId = ws).

Definition requestSandboxRespawn (agentId ws : jsstr) : prog () :=
  match agent_sandbox agentId with
  | None => mret ()
  | Some s =>
      count ← query (fun _ db => update_sandbox s
        (fun row => bool_decide (agent_workspace agentId = ws) &&
                    (bool_decide (sb_status row = Starting) || bool_decide (sb_status row = SbRunning)))
        (fun row => mkSandbox Unprovisioned (stopRequestedAt row) (wakeReason row) (lastActiveAt row) (lastEngagedAt row)) db);
      if (count =? 0)%nat then mret ()
      else out ← recoverAll (agent_fence agentId ws); writeResumeNotices (st_resumed out)
  end.

(** The sessions of an agent's conversations, forgotten. *)
Definition forget_sessions (agentId ws : jsstr) (db : Db) : Db :=
  mkDb (turns db)
    (map_imap (fun c row => Some (if bool_decide (conv_agent c = Some agentId) && bool_decide (agent_workspace agentId = ws)
                                  then mkConversation (title row) (lastSeq row) None else row)) (conversations db))
    (sandboxes db) (attachments db) (turnEvents db) (effects db).

Definition requestAgentRestart (agentId ws : jsstr) : prog () :=
  query (fun _ db => ((), forget_sessions agentId ws db));;
  updateMany (fun _ _ t => agent_fence agentId ws t && has_status [Dispatched; Running] t)
    (fail_data (failure_message (js "agent_restarted")) (Some (js "agent_restarted")));;
  match agent_sandbox agentId with
  | None => mret ()
  | Some s =>
      query (fun e db => ((), (update_sandbox s
        (fun row => bool_decide (agent_workspace agentId = ws) &&
                    (bool_decide (sb_status row = Starting) || bool_decide (sb_status row = SbRunning) ||
                     bool_decide (sb_status row = Stopping)))
        (fun row => mkSandbox (sb_status row) (Some (now e)) (wakeReason row) (lastActiveAt row) (lastEngagedAt row)) db).2))
  end.

(** [releaseClaim] and [parkUnstartableClaim] ([due-work.ts]). *)
Definition releaseClaim (s runner : jsstr) : prog () :=
  query (fun _ db => ((), (update_sandbox s
    (fun row => bool_decide (sandbox_runner s = runner) && bool_decide (sb_status row = Starting))
    (fun row => mkSandbox Unprovisioned (stopRequestedAt row) (wakeReason row) (lastActiveAt row) (lastEngagedAt row)) db).2)).

Definition parkUnstartableClaim (s runner message code : jsstr) : prog () :=
  count ← query (fun _ db => update_sandbox s
    (fun row => bool_decide (sandbox_runner s = runner) && bool_decide (sb_status row = Starting))
    (fun row => mkSandbox SbFailed (stopRequestedAt row) (wakeReason row) (lastActiveAt row) (lastEngagedAt row)) db);
  if (count =? 0)%nat then mret ()
  else
    updateMany (fun _ _ t => bool_decide (conv_sandbox (conversationId t) = Some s) &&
                             has_status (ACTIVE_TURN_STATUSES ++ [Joining]) t)
      (fail_data message (Some code));; mret ().

(** ** The poll: [routes/runner.ts]

    The passes of [runPollSweeps] that sweep turns, in their order; a sweep
    that throws is logged and the next one runs. Between the two halves the
    code fires crons, evaluations and watches and runs the platform's jobs, and
    after them it sweeps peer tasks, desktops and attachments; those passes are
    not modelled. *)
Definition quietly (p : prog ()) : prog () := catch p (fun _ => mret ()).

(** The recovery of parked follow-ups. *)
Definition follow_up_sweeps : prog () :=
  quietly promoteParkedFollowUps;;
  quietly (expireWedgedFollowUps;; mret ()).

Definition runPollSweeps : prog () :=
  quietly (rs ← reclaimStaleTurns; settleSweptTurns rs);;
  quietly (rs ← failStalledTurns; settleSweptTurns rs);;
  follow_up_sweeps.

(** ** The program

    Every call that may run against the tables. *)
Inductive service : prog () -> Prop :=
| call_createTurn ws c message origin ids : service (createTurn ws c message origin ids;; mret ())
| call_send ws c message origin ids : service (sendConversationMessage ws c message origin ids;; mret ())
| call_abort ws i viewer : service (abortTurn ws i viewer;; mret ())
| call_sendNow ws i viewer b : service (requestSendNow ws i viewer b)
| call_events r c i events : service (applyTurnEvents r c i events;; mret ())
| call_progress r c i ref : service (applyTurnProgress r c i ref)
| call_finish i : f_status i ∈ [Done; Failed; Aborted] -> service (finishTurn i)
| call_bornDone c message src events : service (materializeBornDoneTurn c message src events)
| call_notice c i level text : service (writeConversationNotice c i level text;; mret ())
| call_claim caller : service (claimDueTurns caller;; mret ())
| call_sweeps : service runPollSweeps
| call_runnerEvent p : service (applyRunnerEvent p)
| call_respawn a ws : service (requestSandboxRespawn a ws)
| call_restart a ws : service (requestAgentRestart a ws)
| call_release s runner : service (releaseClaim s runner)
| call_park s runner message code : service (parkUnstartableClaim s runner message code)
| call_wake a reason : service (wakeSandboxFor a reason)
| call_sandbox s data : service (writeSandbox s data).

End Doors.
