(* ===== verification/TurnRuns.v ===== *)
(** * Reasoning on interleaved programs

    A relation every statement of a program respects holds between any two
    states of a run of any pool of such programs; the rules that break a
    program into its statements, and what one update of the turns table does. *)
From S2P Require Import Prelude JsJson TurnDb.

(** ** Statements everywhere in a program *)

(** Every statement a program may come to, in whatever states the statements
    before it found, relates the states before and after it by [R]. *)
Fixpoint always {A} (R : Db -> Db -> Prop) (p : prog A) : Prop :=
  match p with
  | Ret _ | Throw _ => True
  | Stmt f k => forall e db, R db (f e db).2 /\ always R (k (f e db).1)
  end.

Create HintDb turndb discriminated.
#[export] Hint Constants Opaque : turndb.

Section Always.
Context (R : Db -> Db -> Prop).

Lemma always_ret {A} (a : A) : always R (mret a).
Proof. done. Qed.

Lemma always_throw {A} x : always R (Throw x : prog A).
Proof. done. Qed.

Lemma always_bind {A B} (p : prog A) (g : A -> prog B) :
  always R p -> (forall a, always R (g a)) -> always R (p ≫= g).
Proof.
  intros Hp Hg. unfold mbind, prog_bind. induction p as [a|x|X f k IH]; cbn in *; [apply Hg|done|].
  intros e db. destruct (Hp e db) as [Hf Hk]. split; [done|]. apply IH, Hk.
Qed.

(** The continuation of a read only meets what the read may answer. *)
Lemma always_ask_bind {X A} (f : Env -> Db -> X) (g : X -> prog A) `{!Reflexive R} :
  (forall e db, always R (g (f e db))) -> always R (ask f ≫= g).
Proof. intros Hg e db. split; [cbn; reflexivity|]. apply Hg. Qed.

Lemma always_fmap {A B} (g : A -> B) (p : prog A) : always R p -> always R (g <$> p).
Proof. intros Hp. apply always_bind; [done|]. intros a. exact I. Qed.

Lemma always_catch {A} (p : prog A) h : always R p -> (forall x, always R (h x)) -> always R (catch p h).
Proof.
  intros Hp Hh. induction p as [a|x|X f k IH]; cbn in *; [done|apply Hh|].
  intros e db. destruct (Hp e db) as [Hf Hk]. split; [done|]. apply IH, Hk.
Qed.

Lemma always_query {X} (f : Env -> Db -> X * Db) : (forall e db, R db (f e db).2) -> always R (query f).
Proof. intros Hf e db. by split. Qed.

Lemma always_exec {X} (f : Env -> Db -> (X + Exn) * Db) : (forall e db, R db (f e db).2) -> always R (exec f).
Proof. intros Hf e db. split; [apply Hf|]. cbn. by destruct (f e db).1. Qed.

Lemma always_each {A} (body : A -> prog ()) l : (forall a, always R (body a)) -> always R (each body l).
Proof. intros Hb. induction l as [|a l IH]; [done|]. cbn [each]. apply always_bind; [apply Hb|]. by intros []. Qed.

Context `{!Reflexive R}.

Lemma always_ask {X} (f : Env -> Db -> X) : always R (ask f).
Proof. apply always_query. intros e db. cbn. reflexivity. Qed.

Lemma always_reach {A} (p : prog A) : always R p -> always R (reach p).
Proof. intros Hp. apply always_bind; [apply always_ask|]. by intros []. Qed.

Lemma always_reach_ask {X A} (f : Env -> Db -> X) (g : X -> prog A) :
  (forall e db, always R (g (f e db))) -> always R (reach (ask f) ≫= g).
Proof.
  intros Hg e db. split; [cbn; reflexivity|]. cbn. destruct (answers e); [|done].
  intros e1 db1. split; [cbn; reflexivity|]. apply Hg.
Qed.

Lemma always_update (cond : Env -> Db -> Turn -> bool) (data : Env -> Turn -> Turn) :
  (forall e db, R db (update_turns (cond e db) (data e) db).2) -> always R (rawUpdate cond data).
Proof. intros H. apply always_exec. intros e db. apply H. Qed.

(** ** Runs *)

Context `{!Transitive R}.

Lemma run_always {A} es (p : prog A) db : always R p -> R db (run es p db).2.
Proof.
  revert es db. induction p as [a|x|X f k IH]; intros es db Hp; cbn [run]; [reflexivity|reflexivity|].
  cbn in Hp. destruct (Hp (es 0%nat) db) as [Hf Hk].
  destruct (f (es 0%nat) db) as [y db']. cbn in Hf, Hk. transitivity db'; [done|]. by apply IH.
Qed.

(** Whatever starts, interleaves or is lost: the relation holds between the
    state a run begins in and any state it reaches, and what is in flight then
    respects it. *)
Lemma pool_always (starts : prog () -> Prop) ps db ps' db' :
  (forall p, starts p -> always R p) -> Forall (always R) ps ->
  pool_run starts (ps, db) (ps', db') -> R db db' /\ Forall (always R) ps'.
Proof.
  intros Hs. unfold pool_run. intros Hps Hrun.
  remember (ps, db) as a eqn:Ha. remember (ps', db') as b eqn:Hb. revert ps db Ha Hps.
  induction Hrun as [a|a c b Hstep _ IH]; intros ps db -> Hps; subst.
  { injection Hb as -> ->. by split. }
  inversion Hstep as [p ps0 db0 Hp|X i f k ps0 db0 e Hi|i ps0 db0]; subst.
  - eapply IH; [done|done|]. apply Forall_app. split; [done|]. constructor; [by apply Hs|done].
  - pose proof (Forall_lookup_1 _ _ _ _ Hps Hi) as Hp. cbn in Hp. destruct (Hp e db) as [Hf Hk].
    destruct (IH eq_refl _ _ eq_refl) as [HR Hps']; [by apply Forall_insert|].
    split; [|done]. transitivity (f e db).2; [apply Hf|done].
  - eapply IH; [done|done|]. apply Forall_app. split; [by apply Forall_take|by apply Forall_drop].
Qed.
End Always.

(** Break a program into its statements. *)
Ltac walk :=
  repeat match goal with
  | H : always ?R ?p |- always ?R ?p => exact H
  | |- always _ (_ ≫= _) => apply always_bind; [|intros ?]
  | |- always _ (_ <$> _) => apply always_fmap
  | |- always _ (catch _ _) => apply always_catch; [|intros ?]
  | |- always _ (mret _) => apply always_ret
  | |- always _ (Throw _) => apply always_throw
  | |- always _ (Ret _) => exact I
  | |- always _ (reach _) => apply always_reach; [typeclasses eauto|]
  | |- always _ (ask _) => apply always_ask; try typeclasses eauto
  | |- always _ (each _ _) => apply always_each; intros ?
  | |- always _ (if ?b then _ else _) => destruct b
  | |- always _ (match ?x with _ => _ end) => destruct x
  | |- always _ _ => solve [auto 2 with turndb nocore]
  end.

(** ** One update of the turns *)

Lemma index_ok_spec ts :
  index_ok ts = true <->
  forall i j ti tj, ts !! i = Some ti -> ts !! j = Some tj ->
    isActiveTurnStatus (status ti) = true -> isActiveTurnStatus (status tj) = true ->
    conversationId ti = conversationId tj -> i = j.
Proof.
  unfold index_ok. rewrite bool_decide_eq_true. unfold rows.
  transitivity (forall i j ti tj, (i, ti) ∈ map_to_list ts -> (j, tj) ∈ map_to_list ts ->
    isActiveTurnStatus (status ti) = true -> isActiveTurnStatus (status tj) = true ->
    conversationId ti = conversationId tj -> i = j); [|by setoid_rewrite elem_of_map_to_list].
  pose proof (NoDup_fst_map_to_list ts) as Hnd.
  induction (map_to_list ts) as [|[k t] l IH]; cbn.
  { split; [|constructor]. intros _ i j ti tj Hi. by apply elem_of_nil in Hi. }
  cbn in Hnd. apply NoDup_cons in Hnd as [Hk Hnd]. specialize (IH Hnd).
  assert (forall i ti, (i, ti) ∈ l -> i ∈ l.*1) as Hfst by (intros i ti Hi; apply list_elem_of_fmap; by exists (i, ti)).
  destruct (isActiveTurnStatus (status t)) eqn:Ha; cbn.
  - rewrite NoDup_cons, IH. split.
    + intros [Hn Hu] i j ti tj Hi Hj Hai Haj Hc. apply elem_of_cons in Hi as [[= -> ->]|Hi], Hj as [[= -> ->]|Hj]; [done| | |by eapply Hu].
      * exfalso. apply Hn. rewrite Hc. apply elem_of_lmap. exists tj. split; [done|]. apply elem_of_lfilter. split; [|done].
        apply list_elem_of_fmap. by exists (j, tj).
      * exfalso. apply Hn. rewrite <- Hc. apply elem_of_lmap. exists ti. split; [done|]. apply elem_of_lfilter. split; [|done].
        apply list_elem_of_fmap. by exists (i, ti).
    + intros Hu. split.
      * rewrite elem_of_lmap. intros (tj & Hc & [Hj Haj]%elem_of_lfilter). apply list_elem_of_fmap in Hj as ([j tj'] & Heq & Hj).
        cbn in Heq. subst tj'. assert (k = j) as <- by (eapply Hu; [by left|by right|done|done|done]).
        by apply Hk, (Hfst k tj).
      * intros i j ti tj Hi Hj. apply Hu; by right.
  - rewrite IH. split.
    + intros Hu i j ti tj Hi Hj Hai Haj. apply elem_of_cons in Hi as [[= -> ->]|Hi], Hj as [[= -> ->]|Hj];
        [congruence|congruence|congruence|]. by eapply Hu.
    + intros Hu i j ti tj Hi Hj. apply Hu; by right.
Qed.

(** The table after an update that the index lets through. *)
Definition updated (cond : Turn -> bool) (data : Turn -> Turn) (ts : gmap jsstr Turn) : gmap jsstr Turn :=
  (fun t => if cond t then data t else t) <$> ts.

Lemma lookup_updated cond data ts i :
  updated cond data ts !! i = (fun t => if cond t then data t else t) <$> ts !! i.
Proof. apply lookup_fmap. Qed.

Lemma update_turns_cases cond data db :
  (index_ok (updated cond data (turns db)) = true /\
   update_turns cond data db =
     (inl (map data (List.filter cond (rows (turns db)))), set_turns (updated cond data (turns db)) db)) \/
  (index_ok (updated cond data (turns db)) = false /\ update_turns cond data db = (inr P2002, db)).
Proof. unfold update_turns. fold (updated cond data (turns db)). destruct (index_ok _); [left|right]; done. Qed.

(** A relation between states that an update of the turns respects: it is
    reflexive, and it holds when the new table passes the index. *)
Lemma update_turns_rel (R : Db -> Db -> Prop) `{!Reflexive R} cond data db :
  (index_ok (updated cond data (turns db)) = true -> R db (set_turns (updated cond data (turns db)) db)) ->
  R db (update_turns cond data db).2.
Proof. intros H. destruct (update_turns_cases cond data db) as [[Hi ->]|[_ ->]]; [by apply H|reflexivity]. Qed.

(** An update that makes no row active that was not, and moves none to another
    conversation, is never refused. *)
Lemma update_fits cond data db :
  index_ok (turns db) = true ->
  (forall t, cond t = true -> conversationId (data t) = conversationId t /\
     (isActiveTurnStatus (status (data t)) = true -> isActiveTurnStatus (status t) = true)) ->
  update_turns cond data db =
    (inl (map data (List.filter cond (rows (turns db)))), set_turns (updated cond data (turns db)) db) /\
  index_ok (updated cond data (turns db)) = true.
Proof.
  intros Hi Hd. destruct (update_turns_cases cond data db) as [[? ->]|[Hn _]]; [done|].
  exfalso. apply not_true_iff_false in Hn. apply Hn. apply index_ok_spec. intros i j ti tj.
  rewrite !lookup_updated. intros Hti Htj.
  apply fmap_Some in Hti as (t1 & H1 & ->), Htj as (t2 & H2 & ->).
  assert (forall t, let t' := if cond t then data t else t in
    conversationId t' = conversationId t /\ (isActiveTurnStatus (status t') = true -> isActiveTurnStatus (status t) = true)) as Hk.
  { intros t. cbn. destruct (cond t) eqn:E; [by apply Hd|done]. }
  destruct (Hk t1) as [C1 A1], (Hk t2) as [C2 A2]. intros B1 B2. rewrite C1, C2. intros Hc.
  by apply (proj1 (index_ok_spec _) Hi i j t1 t2); auto.
Qed.

Lemma elem_of_rows {A} (table : gmap jsstr A) a : a ∈ rows table <-> exists i, table !! i = Some a.
Proof.
  unfold rows. rewrite list_elem_of_fmap. setoid_rewrite <- elem_of_map_to_list.
  split; [intros ([i b] & -> & H); by exists i|intros [i H]; by exists (i, a)].
Qed.

Lemma elem_of_select cond db t : t ∈ select_turns cond db <-> (exists i, turns db !! i = Some t) /\ cond t = true.
Proof. unfold select_turns. by rewrite elem_of_lfilter, elem_of_rows. Qed.

(** The transaction combinator undoes everything when a statement throws. *)
Lemma within_rel {X Y} (R : Db -> Db -> Prop) `{!Reflexive R} (r : (X + Exn) * Db) db (k : X -> Db -> (Y + Exn) * Db) :
  (forall y db1, r = (inl y, db1) -> R db (k y db1).2) ->
  R db (match r with (inl y, db1) => k y db1 | (inr x, _) => (inr x, db) end).2.
Proof. destruct r as [[y|x] db1]; [by intros H; apply H|reflexivity]. Qed.

(** ** Programs running alone are a run of the pool *)

(** Programs one after another, each with its own moments, run to their end. *)
Definition serve (calls : list ((nat -> Env) * prog ())) (db : Db) : Db :=
  fold_left (fun db c => (run c.1 c.2 db).2) calls db.

Lemma pool_serve_from starts ps calls db :
  Forall (fun c => starts c.2) calls -> exists ps', pool_run starts (ps, db) (ps', serve calls db).
Proof.
  revert db ps. induction calls as [|[es p] calls IH]; intros db ps Hs; [by exists ps|].
  apply Forall_cons in Hs as [Hp Hs]. cbn. destruct (pool_run_last (fun _ => starts) ps es p db) as [p' Hp'].
  destruct (IH (run es p db).2 (ps ++ [p']) Hs) as [ps' Hrest]. exists ps'.
  eapply rtc_l; [by apply pool_start|]. by etransitivity.
Qed.

Lemma pool_serve starts calls db :
  Forall (fun c => starts c.2) calls -> exists ps, pool_run starts ([], db) (ps, serve calls db).
Proof. apply pool_serve_from. Qed.

(** The first statements of a program, and what is left of it. *)
Fixpoint steps {A} (n : nat) (es : nat -> Env) (p : prog A) (db : Db) : prog A * Db :=
  match n, p with
  | S n', Stmt f k => let '(y, db') := f (es 0%nat) db in steps n' (fun m => es (S m)) (k y) db'
  | _, _ => (p, db)
  end.

(** ** Sorted reads *)

Section OrderBy.
Context {A : Type} (key : A -> Z).

Lemma order_by_total a b : (key a <=? key b)%Z = true \/ (key b <=? key a)%Z = true.
Proof. lia. Qed.

Lemma order_by_trans a b c : (key a <=? key b)%Z = true -> (key b <=? key c)%Z = true -> (key a <=? key c)%Z = true.
Proof. lia. Qed.

Lemma order_by_elem_of x l : x ∈ order_by key l <-> x ∈ l.
Proof. apply js_sort_elem_of. Qed.

Lemma order_by_Permutation l : order_by key l ≡ₚ l.
Proof. apply js_sort_Permutation. Qed.

Lemma order_by_sorted l : StronglySorted (fun a b => (key a <= key b)%Z) (order_by key l).
Proof.
  pose proof (js_sort_sorted _ order_by_total order_by_trans l) as H. unfold order_by.
  induction H as [|x k Hk IH Hx]; constructor; [done|]. eapply Forall_impl; [exact Hx|]. cbn. intros y Hy.
  apply Is_true_eq_true in Hy. lia.
Qed.

Lemma order_by_filter P l : order_by key (List.filter P l) = List.filter P (order_by key l).
Proof. apply js_sort_filter; [apply order_by_total|apply order_by_trans]. Qed.

(** The first of the order is a least element. *)
Lemma order_by_head l x : head (order_by key l) = Some x -> x ∈ l /\ forall y, y ∈ l -> (key x <= key y)%Z.
Proof.
  intros H. pose proof (order_by_sorted l) as Hs. destruct (order_by key l) as [|z k] eqn:E; [done|]. injection H as ->.
  assert (forall y, y ∈ l <-> y ∈ x :: k) as Hin by (intros y; by rewrite <- E, order_by_elem_of).
  split; [apply Hin; by left|]. intros y Hy%Hin. apply elem_of_cons in Hy as [->|Hy]; [lia|].
  inversion Hs as [|? ? _ Hf]; subst. rewrite Forall_forall in Hf. by apply Hf.
Qed.

Lemma order_by_head_None l : head (order_by key l) = None <-> l = [].
Proof.
  split; [|by intros ->]. intros H. destruct (order_by key l) eqn:E; [|done].
  apply Permutation_nil_r. by rewrite <- E, order_by_Permutation.
Qed.

(** What comes after an element of a list without ties is what is above it. *)
Lemma filter_above l1 x l2 :
  StronglySorted (fun a b => (key a <= key b)%Z) (l1 ++ x :: l2) -> NoDup (map key (l1 ++ x :: l2)) ->
  List.filter (fun y => (key x <? key y)%Z) (l1 ++ x :: l2) = l2.
Proof.
  induction l1 as [|y l1 IH]; cbn; intros Hs Hn; inversion Hs as [|? ? Hs' Hf]; subst;
    apply NoDup_cons in Hn as [Hk Hn]; rewrite Forall_forall in Hf.
  - rewrite (proj2 (Z.ltb_ge _ _)) by lia. apply filter_all. intros z Hz. apply Z.ltb_lt.
    assert (key x <= key z)%Z by (by apply Hf). assert (key x <> key z); [|lia].
    intros He. apply Hk. rewrite He. apply elem_of_lmap. by exists z.
  - rewrite (proj2 (Z.ltb_ge _ _)); [by apply IH|]. apply Hf. apply elem_of_app. right. by left.
Qed.
End OrderBy.
