(* ===== verification/TurnSample.v ===== *)
(** * A small installation

    Two agents of one workspace, each with its sandbox on one runner and one
    conversation, for the examples of the files that follow. *)
From S2P Require Import Prelude JsJson JsBytes TurnEvents TurnText TurnDb TurnService TurnDoors TurnRuns.
Local Open Scope Z_scope.

Definition sample_world (blocker : option (jsstr * jsstr)) : World := {|
  conv_agent c := if bool_decide (c = js "c1") then Some (js "a1") else if bool_decide (c = js "c2") then Some (js "a2")
                  else None;
  conv_direct _ := false;
  conv_user _ := None;
  conv_source c := if bool_decide (c = js "c2") then js "cron" else js "web";
  agent_workspace _ := js "w";
  agent_sandbox a := if bool_decide (a = js "a1") then Some (js "s1") else if bool_decide (a = js "a2") then Some (js "s2")
                     else None;
  sandbox_runner _ := js "r";
  isPlatformJobRun _ := false;
  findAgentLlmBlocker _ _ _ := blocker;
  failure_message code := code;
|}.

Definition sample_windows : Windows := {|
  TURN_CEILING_SECONDS := 21600;
  TURN_CEILING_WARNING_SECONDS := 900;
  TURN_STALL_SECONDS := 600;
  STALE_DISPATCH_SECONDS := 90;
|}.

(** No model-key blocker. *)
Definition clear_world : World := sample_world None.

(** Both sandboxes up, no turns. *)
Definition up : Sandbox := mkSandbox SbRunning None None None None.

Definition fresh_db : Db := mkDb ∅ ∅ {[ js "s1" := up; js "s2" := up ]} ∅ [] [].

(** A moment that lasts the whole program. *)
Definition at_time (t : Z) (i : String.string) : nat -> Env := fun _ => mkEnv t (js i) (fun _ => false) true.
Arguments at_time t i%_string_scope.

Definition person : TurnOrigin := mkOrigin (js "web") (Some (js "u")) None None None.

Definition reporter1 : ReporterIdentity := mkReporter (js "r") (js "s1").
Definition reporter2 : ReporterIdentity := mkReporter (js "r") (js "s2").

Definition all_capable : Caller := mkCaller (js "r") (mkCapabilities true true true) (fun _ => true).

(** The row of a turn in a state. *)
Definition row (i : String.string) (db : Db) : option Turn := turns db !! js i.
Arguments row i%_string_scope db.

Definition status_of (i : String.string) (db : Db) : option TurnStatus := status <$> row i db.
Arguments status_of i%_string_scope db.

Section Calls.
Context {W : World} {T : Windows}.

(** A person posts in a conversation; the runner polls; the harness of a
    turn's sandbox starts it. *)
Definition posts (t : Z) (i c : String.string) : (nat -> Env) * prog () :=
  (at_time t i, (sendConversationMessage (js "w") (js c) (js "hello") person [];; mret ())).
Definition polls (t : Z) : (nat -> Env) * prog () := (at_time t "-", (claimDueTurns all_capable;; mret ())).
Definition begins (t : Z) (r : ReporterIdentity) (c i : String.string) : (nat -> Env) * prog () :=
  (at_time t "-", (applyTurnEvents r (js c) (js i) [turn_started];; mret ())).
Definition closes (t : Z) (r : ReporterIdentity) (c i : String.string) (s : TurnStatus) (code : option jsstr) :
    (nat -> Env) * prog () :=
  (at_time t "-", finishTurn (mkFinish r (js c) (js i) s None code None None [])).
Definition stops (t : Z) (i : String.string) : (nat -> Env) * prog () :=
  (at_time t "-", (abortTurn (js "w") (js i) (js "u");; mret ())).
Definition dies (t : Z) (s : String.string) : (nat -> Env) * prog () :=
  (at_time t "-", applyRunnerEvent (mkReport (js s) (js "r") Stopped None true)).
End Calls.
Arguments posts {W} t i%_string_scope c%_string_scope.
Arguments begins {W} t r c%_string_scope i%_string_scope.
Arguments closes {W} t r c%_string_scope i%_string_scope s code.
Arguments stops {W} t i%_string_scope.
Arguments dies {W} t s%_string_scope.

(** A message, its dispatch and its start; a follow-up sent while it runs and
    handed over; the stop of the first turn; the aborted close. *)
Definition a_day {W : World} {T : Windows} : list ((nat -> Env) * prog ()) :=
  [posts 1000 "t1" "c1"; polls 2000; begins 3000 reporter1 "c1" "t1"; posts 4000 "t2" "c1"; polls 5000].

(** The calls of a sample day are calls of the program. *)
Create HintDb served discriminated.
#[export] Hint Constants Opaque : served.

Section Served.
Context {W : World} {T : Windows}.

Lemma posts_served t i c : service (posts t i c).2.
Proof. apply call_send. Qed.

Lemma polls_served t : service (polls t).2.
Proof. apply call_claim. Qed.

Lemma begins_served t r c i : service (begins t r c i).2.
Proof. apply call_events. Qed.

Lemma closes_served t r c i s code : s ∈ [Done; Failed; Aborted] -> service (closes t r c i s code).2.
Proof. apply (call_finish (mkFinish r (js c) (js i) s None code None None [])). Qed.

Lemma stops_served t i : service (stops t i).2.
Proof. apply call_abort. Qed.

Lemma dies_served t s : service (dies t s).2.
Proof. apply call_runnerEvent. Qed.
End Served.

#[export] Hint Resolve posts_served polls_served begins_served closes_served stops_served dies_served : served.

Ltac serves :=
  repeat first
    [ apply Forall_nil_2
    | apply Forall_cons_2; [solve [auto with served nocore | apply closes_served; rewrite !elem_of_cons; tauto]|] ].
