(* ===== verification/TurnRows.v ===== *)
(** * The rows of turns

    What a turn's row may be and what it may become: the row type, the graph of
    statuses, the clocks that are set once, and that every update the code
    makes keeps to them. *)
From S2P Require Import Prelude JsJson JsBytes TurnEvents TurnText TurnDb TurnService TurnDoors TurnRuns.
Local Open Scope Z_scope.

(** ** The row type *)

Definition is_final (s : TurnStatus) : bool := one_of [Done; Failed; Aborted; Joined] s.

Definition set {A} (o : option A) : bool := match o with Some _ => true | None => false end.

(** What every row satisfies: it is finished exactly when its status says so;
    a running turn has started; a started turn that waits again was resumed; a
    parked follow-up was neither started, promoted nor retried; a joined one
    was delivered; an active follow-up was promoted; a code means a failure;
    the liveness clocks mean a start. *)
Definition turn_wf (t : Turn) : bool :=
  eqb (is_final (status t)) (set (finishedAt t)) &&
  implb (has_status [Running] t) (set (startedAt t)) &&
  implb (has_status [Queued; Dispatched] t && set (startedAt t)) (set (retriedAt t)) &&
  implb (has_status [Joining; Joined] t)
        (negb (set (startedAt t)) && negb (set (retriedAt t)) && negb (set (promotedAt t)) && set (followUpOfTurnId t)) &&
  implb (has_status [Joined] t) (set (steerDeliveredAt t)) &&
  implb (isActiveTurnStatus (status t)) (eqb (set (followUpOfTurnId t)) (set (promotedAt t))) &&
  implb (set (errorCode t)) (has_status [Failed] t) &&
  implb (set (lastProgressAt t) || set (ceilingWarnedAt t)) (set (startedAt t)).

(** ** What a row may become *)

(** The transitions of the code. *)
Definition edge (a b : TurnStatus) : bool :=
  match a with
  | Joining => one_of [Queued; Joined; Aborted; Failed] b
  | Queued => one_of [Dispatched; Done; Aborted; Failed] b
  | Dispatched => one_of [Running; Queued; Done; Aborted; Failed] b
  | Running => one_of [Queued; Done; Aborted; Failed] b
  | Done | Failed | Aborted | Joined => false
  end.

(** How many status changes a row has left at most. *)
Definition rank (t : Turn) : nat :=
  (match status t with
   | Joining => 4 | Queued => 3 | Dispatched => 2 | Running => 1
   | Done | Failed | Aborted | Joined => 0
   end + (if is_final (status t) || set (retriedAt t) then 0 else 4))%nat.

(** The columns no update writes. *)
Definition key (t : Turn) :=
  (id t, conversationId t, source t, userId t, message t, sourceThreadId t, sourceEventId t, followUpOfTurnId t,
   createdAt t).

(** A clock that is set never changes. *)
Definition kept {A} (o o' : option A) : Prop := o = None \/ o' = o.

Record clocks_kept (t t' : Turn) : Prop := mkClocks {
  kept_started : kept (startedAt t) (startedAt t');
  kept_retried : kept (retriedAt t) (retriedAt t');
  kept_promoted : kept (promotedAt t) (promotedAt t');
  kept_delivered : kept (steerDeliveredAt t) (steerDeliveredAt t');
}.

(** What a finished row keeps for good. *)
Definition verdict (t : Turn) := (status t, error t, errorCode t, finishedAt t).

(** *** Row computations

    A status test leaves a few statuses; the row type then is a test of which
    columns are set. *)
Ltac bools :=
  cbn [set implb negb andb orb eqb];
  first [ done | match goal with |- context [set ?x] => destruct x; bools end | idtac ].

Ltac row_wf := cbv -[set implb negb andb orb eqb]; bools.

Ltac row_rank :=
  first [ by left | right; apply Nat.ltb_lt; reflexivity
        | match goal with |- context [retriedAt (mkTurn _ _ _ _ _ _ _ _ _ _ _ _ _ _ _ _ _ ?re _ _ _ _ _)] =>
            destruct re; right; apply Nat.ltb_lt; reflexivity end
        | match goal with re : option Z |- _ => destruct re; right; apply Nat.ltb_lt; reflexivity end ].

Ltac row_later :=
  split_and!;
    [ reflexivity
    | split; first [by right | by left]
    | right; split; [first [reflexivity | apply rtc_once; reflexivity] | row_rank | done] ].

(** Cases on the columns a goal tests, dropping the rows that are not well
    formed. *)
Ltac row_prune Hw :=
  cbv -[set implb negb andb orb eqb] in Hw; cbn [set implb negb andb orb eqb] in Hw;
  repeat match type of Hw with
  | context [set ?x] => destruct x; cbn [set implb negb andb orb eqb] in Hw; try discriminate Hw
  end.

Ltac row_cases t Hc :=
  let s := fresh "s" in let re := fresh "re" in
  destruct t as [? ? ? ? ? ? ? ? ? s ? ? ? ? ? ? ? re ? ? ? ? ?];
  destruct s; try (exfalso; clear -Hc; vm_compute in Hc; discriminate).

(** The two halves of [lawful] apart: the columns of a well-formed row decide
    both. *)
Ltac row :=
  let t := fresh "t" in let Hc := fresh "Hc" in let Hw := fresh "Hw" in
  intros t Hc Hw; row_cases t Hc;
  (split; [ first [ clear Hw; row_later | row_prune Hw; row_later ] | revert Hw; clear Hc; row_wf ]).

(** The same, for a condition that also tests the clocks of the run. *)
Ltac row_clocks :=
  let t := fresh "t" in let Hc := fresh "Hc" in let Hw := fresh "Hw" in
  let s := fresh "s" in
  intros t Hc Hw; destruct t as [? ? ? ? ? ? ? [?|] ? s ? ? ? ? [?|] ? ? [?|] ? ? [?|] ? ?];
  destruct s; try (exfalso; clear -Hc; vm_compute in Hc; discriminate);
  (split; [ first [ clear Hw; row_later | row_prune Hw; row_later ] | revert Hw; clear Hc; row_wf ]).

Section Lifecycle.
Context {W : World} {T : Windows}.

(** A row the credential check of [createTurn] failed: that write has no
    status guard. *)
Definition refused (t : Turn) : Prop :=
  status t = Failed /\
  exists e ws a message code, findAgentLlmBlocker e ws a = Some (message, code) /\ errorCode t = Some code.

(** The status moved along transitions and used up rank, or stayed. *)
Record moved (t t' : Turn) : Prop := mkMoved {
  moved_path : rtc (fun a b => edge a b = true) (status t) (status t');
  moved_rank : status t' = status t /\ rank t' = rank t \/ (rank t' < rank t)%nat;
  moved_final : is_final (status t) = true -> verdict t' = verdict t;
}.

Definition later (t t' : Turn) : Prop := key t' = key t /\ clocks_kept t t' /\ (refused t' \/ moved t t').

#[export] Instance kept_preorder {A} : PreOrder (@kept A).
Proof.
  split; [intros o; by right|]. unfold kept. intros a b c [->| ->] [->| ->]; auto.
Qed.

#[export] Instance clocks_preorder : PreOrder clocks_kept.
Proof.
  split; [intros t; by split|]. intros a b c [] []. split; by etransitivity.
Qed.

#[export] Instance moved_preorder : PreOrder moved.
Proof.
  split; [intros t; split; [reflexivity|by left|done]|].
  intros a b c [P1 R1 F1] [P2 R2 F2]. split; [by etransitivity|lia || intuition (congruence || lia)|].
  intros Ha. specialize (F1 Ha). rewrite <- F1. apply F2. injection F1 as E1 _ _ _. by rewrite E1.
Qed.

#[export] Instance later_preorder : PreOrder later.
Proof.
  split; [intros t; split_and!; [done|reflexivity|right; reflexivity]|].
  intros a b c (K1 & C1 & M1) (K2 & C2 & M2). split_and!; [congruence|by etransitivity|].
  destruct M2 as [M2|M2]; [by left|]. destruct M1 as [[Hs (e & ws & ag & m & code & Hb & Hc)]|M1];
    [|right; by etransitivity].
  left. destruct M2 as [_ _ F]. unfold verdict in F. rewrite Hs in F. specialize (F eq_refl). injection F as Hs' _ Hc' _.
  split; [congruence|]. exists e, ws, ag, m, code. by rewrite Hc'.
Qed.

(** ** States *)

(** Rows are stored under their identifiers, are well formed, and no
    conversation has two active turns. *)
Definition valid (db : Db) : Prop :=
  (forall i t, turns db !! i = Some t -> id t = i /\ turn_wf t = true) /\ index_ok (turns db) = true.

(** From a valid state: no row is lost, every row only moves on, and validity
    is kept. *)
Definition evolves (db db' : Db) : Prop :=
  valid db ->
  valid db' /\ forall i t, turns db !! i = Some t -> exists t', turns db' !! i = Some t' /\ later t t'.

#[export] Instance evolves_preorder : PreOrder evolves.
Proof.
  split.
  - intros db Hv. split; [done|]. intros i t Hi. by exists t.
  - intros a b c H1 H2 Hv. destruct (H1 Hv) as [Hb L1]. destruct (H2 Hb) as [Hc L2]. split; [done|].
    intros i t (t' & Ht' & La)%L1. apply L2 in Ht' as (t2 & Ht2 & Lb). exists t2. split; [done|]. by etransitivity.
Qed.

(** A write that leaves the turns alone. *)
Lemma evolves_same db db' : turns db' = turns db -> evolves db db'.
Proof. intros E. unfold evolves, valid. rewrite E. intros Hv. split; [done|]. intros i t Hi. by exists t. Qed.

(** What the data of an update may do to the rows its condition selects. *)
Definition lawful (cond : Turn -> bool) (data : Turn -> Turn) : Prop :=
  forall t, cond t = true -> turn_wf t = true -> later t (data t) /\ turn_wf (data t) = true.

(** An update whose condition, on the rows of a valid table, implies what its
    data needs. *)
Lemma evolves_updated cond good data db :
  (valid db -> forall t, turns db !! id t = Some t -> cond t = true -> good t = true) ->
  lawful good data -> index_ok (updated cond data (turns db)) = true ->
  evolves db (set_turns (updated cond data (turns db)) db).
Proof.
  intros Hg Hl Hi Hv. specialize (Hg Hv). destruct Hv as [Hr _].
  assert (forall i t, turns db !! i = Some t ->
    let t' := if cond t then data t else t in later t t' /\ id t' = i /\ turn_wf t' = true) as Hrow.
  { intros i t Ht. pose proof (Hr _ _ Ht) as [Hid Hwf]. cbn. destruct (cond t) eqn:E; [|by split].
    destruct (Hl t (Hg t ltac:(by rewrite Hid) E) Hwf) as [L Hw]. split_and!; [done| |done].
    destruct L as (K & _). unfold key in K. congruence. }
  split; [split; [|done]|]; intros i t; cbn; rewrite ?lookup_updated.
  - destruct (turns db !! i) as [t0|] eqn:Ht; [|done]. cbn. intros [= <-]. by apply Hrow.
  - intros Ht. rewrite Ht. cbn. eexists. split; [done|]. by apply (Hrow i).
Qed.

Lemma evolves_update_rows cond good data db :
  (valid db -> forall t, turns db !! id t = Some t -> cond t = true -> good t = true) -> lawful good data ->
  evolves db (update_turns cond data db).2.
Proof. intros Hg Hl. apply update_turns_rel; [apply _|]. by apply evolves_updated with good. Qed.

Lemma evolves_update_turns cond data db : lawful cond data -> evolves db (update_turns cond data db).2.
Proof. intros Hl. by apply evolves_update_rows with cond. Qed.

Lemma evolves_insert t db : turn_wf t = true -> evolves db (insert_turn t db).2.
Proof.
  intros Hw. unfold insert_turn. destruct (turns db !! id t) as [t0|] eqn:E; [reflexivity|].
  destruct (index_ok _) eqn:Hi; [|reflexivity]. cbn. intros [Hr _]. split; [split; [|done]|]; cbn.
  - intros i t'. rewrite lookup_insert_Some. intros [[<- <-]|[_ Ht']]; [done|by apply Hr].
  - intros i t' Ht'. exists t'. rewrite lookup_insert_ne; [by split|]. intros <-. congruence.
Qed.

Lemma later_touch v t t' : later t t' -> later t (set_updatedAt v t').
Proof.
  intros (K & [] & M). split_and!; [exact K|by split|]. destruct M as [R|[]]; [by left|right; by split].
Qed.

Lemma lawful_client e cond data : lawful cond data -> lawful cond (client e data).
Proof.
  intros H t Ht Hwf. destruct (H t Ht Hwf) as [L Hw]. split; [by apply later_touch|exact Hw].
Qed.

(** *** The updates of the code *)

Definition open_statuses : list TurnStatus := [Joining; Queued; Dispatched; Running].

Lemma lawful_abort e : lawful (has_status open_statuses) (abort_data e).
Proof. row. Qed.

Lemma lawful_promote e : lawful (has_status [Joining]) (promote_data e).
Proof. row. Qed.

Lemma lawful_fail message code e : lawful (has_status open_statuses) (fail_data message code e).
Proof. destruct code; row. Qed.

Lemma lawful_flag v : lawful (fun _ => true) (set_abortRequested v).
Proof. row. Qed.

Lemma lawful_sendNow v : lawful (fun _ => true) (set_sendNowRequested v).
Proof. row. Qed.

Lemma lawful_usage v : lawful (fun _ => true) (set_usage v).
Proof. row. Qed.

Lemma lawful_touch e : lawful (fun _ => true) (touch e).
Proof. row. Qed.

Lemma lawful_dispatch e : lawful (has_status [Queued; Dispatched]) (fun t => touch e (set_status Dispatched t)).
Proof. row. Qed.

Lemma lawful_progress e : lawful (has_status [Running]) (set_lastProgressAt (Some (now e))).
Proof. row. Qed.

Lemma lawful_warn e : lawful (has_status [Running]) (set_ceilingWarnedAt (Some (now e))).
Proof. row. Qed.

Lemma lawful_sweep e b message code :
  lawful (has_status ACTIVE_TURN_STATUSES) (fun t => touch e (set_finishedAt (Some (now e)) (set_abortRequested b
    (set_errorCode (Some code) (set_error (Some message) (set_status Failed t)))))).
Proof. row. Qed.

Lemma lawful_reclaim e : lawful (has_status ACTIVE_TURN_STATUSES) (reclaim_data e).
Proof.
  intros t Hc Hw. unfold reclaim_data. destruct (ceiling_copy (never_started t)) as [message code].
  by apply (lawful_sweep e (negb (never_started t)) message code).
Qed.

Lemma lawful_stall e : lawful (has_status [Running]) (stall_data e).
Proof. row. Qed.

Lemma lawful_revive e :
  lawful (fun t => has_status [Dispatched] t && bool_decide (startedAt t = None) && bool_decide (retriedAt t = None))
    (fun t => set_retriedAt (Some (now e)) (set_status Queued t)).
Proof. row_clocks. Qed.

Lemma lawful_resume e :
  lawful (fun t => has_status [Dispatched; Running] t && negb (bool_decide (startedAt t = None))
                   && bool_decide (retriedAt t = None)) (resume_data e).
Proof. row_clocks. Qed.

Lemma lawful_join e :
  lawful (fun t => has_status [Joining] t && negb (bool_decide (steerDeliveredAt t = None))) (join_data e).
Proof. row_clocks. Qed.

Lemma lawful_steer e :
  lawful (fun t => has_status [Joining] t && bool_decide (steerDeliveredAt t = None))
    (fun t => touch e (set_steerDeliveredAt (Some (now e)) t)).
Proof. row_clocks. Qed.

Lemma lawful_start e : lawful (has_status [Dispatched]) (start_data e).
Proof. row_clocks. Qed.

Lemma knownFailureCopy_failed i code : knownFailureCopy i = Some code -> f_status i = Failed.
Proof.
  unfold knownFailureCopy. destruct (f_errorCode i); [|done]. destruct (bool_decide (f_status i = Failed)) eqn:E; [|done].
  intros _. by to_prop.
Qed.

Lemma lawful_close i e :
  f_status i ∈ [Done; Failed; Aborted] -> lawful (has_status ACTIVE_TURN_STATUSES) (close_data i e).
Proof.
  intros Hs. unfold close_data. destruct (knownFailureCopy i) as [code|] eqn:Hk.
  - apply knownFailureCopy_failed in Hk. rewrite Hk. destruct (f_usage i); row.
  - clear Hk. rewrite !elem_of_cons in Hs. destruct (f_usage i);
      (destruct Hs as [Hs|[Hs|[Hs|Hs%elem_of_nil]]]; [rewrite Hs; row..|done]).
Qed.

(** The credential check closes its own row whatever has become of it. *)
Lemma lawful_refuse e ws a message code cond :
  findAgentLlmBlocker e ws a = Some (message, code) -> forall e', lawful cond (fail_data message (Some code) e').
Proof.
  intros Hb e' t _ Hw. split; [|revert Hw; clear Hb; destruct t as [? ? ? ? ? ? ? ? ? []]; row_wf].
  split_and!; [done|by split; right|]. left. split; [done|]. by exists e, ws, a, message, code.
Qed.

Lemma lawful_weaken (cond cond' : Turn -> bool) data :
  (forall t, cond' t = true -> cond t = true) -> lawful cond data -> lawful cond' data.
Proof. intros Hc H t Ht. by apply H, Hc. Qed.

End Lifecycle.

(** Conditions that imply a status test. *)
Lemma has_status_mono l k t : forallb (fun s => one_of k s) l = true -> has_status l t = true -> has_status k t = true.
Proof.
  intros Hl Hs. apply (proj1 (forallb_In _ _) Hl). unfold has_status, one_of in Hs. by apply bool_decide_eq_true in Hs.
Qed.

(** The condition of an update implies what its data needs. *)
Ltac implied :=
  let Hc := fresh "Hc" in
  intros ? Hc; cbn beta in Hc; unfold joins, stalled, past_ceiling, parked, delivered_to in Hc;
  rewrite ?andb_true_iff in Hc; destruct_and?; rewrite ?andb_true_iff;
  first [ tauto | split_and!; assumption
        | match goal with
          | H : has_status ?l ?t = true |- has_status ?k ?t = true => apply (has_status_mono l k); [reflexivity|exact H]
          end ].

Ltac lawfully H := intros ? ?; eapply lawful_weaken; [|solve [eapply H; eauto]]; implied.
