(* ===== verification/TurnPrograms.v ===== *)
(** * Every statement of every program

    A relation between states that the few kinds of writes respect holds
    between any two states of any run: the kinds are an interface
    ([Respects]), and the service functions are taken apart once, against it. *)
From S2P Require Import Prelude JsJson JsBytes TurnEvents TurnText TurnDb TurnService TurnDoors TurnRuns TurnRows.
Local Open Scope Z_scope.

(** What a relation owes to hold along every run: an update of the turns whose
    data is lawful on the rows it meets, the creation of a row, a write to a
    sandbox or to a conversation that leaves its counter, an effect outside the
    database, and the three statements that append to the transcript. *)
Class Respects {W : World} (R : Db -> Db -> Prop) := {
  respects_preorder :: PreOrder R;
  respects_update cond good data db :
    (valid db -> forall t, turns db !! id t = Some t -> cond t = true -> good t = true) ->
    lawful good data -> R db (update_turns cond data db).2;
  respects_create c message st f origin ids e db :
    turn_wf (new_turn e c message st origin f) = true -> R db (insert_with_attachments c message st f origin ids e db).2;
  respects_sandbox s cond data db : R db (update_sandbox s cond data db).2;
  respects_conversation c cond data db :
    (forall x, lastSeq (data x) = lastSeq x) -> R db (update_conversation c cond data db);
  respects_forget a ws db : R db (forget_sessions a ws db);
  respects_published c rows db : R db (add_effect (published c rows) db);
  respects_notice c i level text db : R db (append_notice c i level text db).2;
  respects_batch r c i events e db : R db (apply_batch r c i events e db).2;
  respects_born c message src events e db : R db (materialize c message src events e db).2;
}.

(** And for the three service functions that settle automations. *)
Class Settles (R : Db -> Db -> Prop) := {
  respects_settled i outcome db : R db (add_effect (settled i outcome) db);
}.

Section Programs.
Context {W : World} {T : Windows} (R : Db -> Db -> Prop) `{!Respects R} `{!Settles R}.

(** ** The programs, statement by statement *)

Lemma always_rows cond good data :
  (forall e db, valid db -> forall t, turns db !! id t = Some t -> cond e db t = true -> good t = true) ->
  (forall e, lawful good (data e)) -> always R (rawUpdate cond data).
Proof. intros Hg Hl. apply always_exec. intros e db. apply respects_update with good; [apply Hg|apply Hl]. Qed.

Lemma always_rawUpdate cond data :
  (forall e db, lawful (cond e db) (data e)) -> always R (rawUpdate cond data).
Proof. intros H. apply always_exec. intros e db. by apply respects_update with (cond e db). Qed.

Lemma always_updateMany cond data :
  (forall e db, lawful (cond e db) (data e)) -> always R (updateMany cond data).
Proof.
  intros H. apply always_exec. intros e db. apply respects_update with (cond e db); [done|]. apply lawful_client, H.
Qed.

Lemma always_createRow c message st f origin ids :
  (forall e, turn_wf (new_turn e c message st origin f) = true) ->
  always R (createTurnRowWithAttachments c message st f origin ids).
Proof.
  intros Hw. unfold createTurnRowWithAttachments. walk. apply always_exec. intros e db. by apply respects_create.
Qed.

Ltac sandbox_write := apply always_query; intros ? ?; cbn [snd]; apply respects_sandbox.
Ltac conversation_write := apply always_query; intros ? ?; cbn [snd]; by apply respects_conversation.

Lemma always_wake a reason : always R (wakeSandboxFor a reason).
Proof.
  unfold wakeSandboxFor. destruct (agent_sandbox a) as [s|]; [|done]. sandbox_write.
Qed.

Lemma always_engaged s : always R (markSandboxEngaged s).
Proof. destruct s as [s|]; [|done]. unfold engage. sandbox_write. Qed.

Lemma always_name c message title0 turn : always R (nameConversation c message title0 turn).
Proof.
  unfold nameConversation. destruct (negb _ && _); [|done]. apply always_bind; [by walk|].
  intros [t|]; [|done]. apply always_reach; [apply _|]. conversation_write.
Qed.

Lemma always_publish c rows : always R (tell (published c rows)).
Proof. apply always_query. intros e db. apply respects_published. Qed.

Lemma always_settled i outcome : always R (tell (settled i outcome)).
Proof. apply always_query. intros e db. apply respects_settled. Qed.

#[local] Hint Resolve always_wake always_engaged always_name always_publish always_settled : turndb.

Lemma always_promote c : always R (promoteOldestParkedFollowUp c).
Proof.
  unfold promoteOldestParkedFollowUp. walk.
  - apply always_updateMany. lawfully lawful_abort.
  - apply always_updateMany. lawfully lawful_promote.
Qed.

Lemma always_revive fence : always R (reviveColdTurns fence).
Proof. unfold reviveColdTurns. walk. apply always_updateMany. lawfully lawful_revive. Qed.

Lemma always_resume fence : always R (resumeInterruptedTurns fence).
Proof. apply always_updateMany. lawfully lawful_resume. Qed.

Lemma always_notice c i level text : always R (writeConversationNotice c i level text).
Proof.
  unfold writeConversationNotice. walk. apply always_exec. intros e db. apply respects_notice.
Qed.

Lemma always_notices resumed : always R (writeResumeNotices resumed).
Proof. unfold writeResumeNotices. walk. apply always_notice. Qed.

Lemma always_failStranded fence cause : always R (failStrandedTurns fence cause).
Proof. unfold failStrandedTurns. walk; apply always_updateMany; lawfully lawful_fail. Qed.

#[local] Hint Resolve always_promote always_revive always_resume always_notice always_notices always_failStranded : turndb.

Lemma always_sweep c extra : always R (sweepFollowUps c extra).
Proof. unfold sweepFollowUps. walk. apply always_updateMany. lawfully lawful_abort. Qed.

#[local] Hint Resolve always_sweep : turndb.

Lemma always_abort ws i viewer : always R (abortTurn ws i viewer).
Proof.
  unfold abortTurn. generalize 2%nat as n. induction n as [|n IH]; cbn [abort_attempts]; [done|].
  unfold abort_attempt, find_turn, settleAutomationRun. walk.
  - apply always_updateMany. lawfully lawful_abort.
  - apply always_updateMany. lawfully lawful_abort.
  - apply always_updateMany. lawfully lawful_flag.
  - apply always_updateMany. lawfully lawful_flag.
Qed.

Lemma always_sendNow ws i viewer b : always R (requestSendNow ws i viewer b).
Proof. unfold requestSendNow, find_turn. walk. apply always_updateMany. lawfully lawful_sendNow. Qed.

#[local] Hint Resolve always_abort always_sendNow : turndb.

(** *** Events and closes *)

Lemma always_events r c i events : always R (applyTurnEvents r c i events).
Proof. unfold applyTurnEvents. walk. apply always_exec. intros e db. apply respects_batch. Qed.

Lemma always_progressed r c i ref : always R (applyTurnProgress r c i ref).
Proof.
  unfold applyTurnProgress. walk.
  - apply always_updateMany. lawfully lawful_progress.
  - conversation_write.
Qed.

Lemma always_persist c cond ref : always R (persistSession c cond ref).
Proof. unfold persistSession. walk. conversation_write. Qed.

#[local] Hint Resolve always_events always_progressed always_persist : turndb.

Lemma always_recover i : always R (recoverTurn i).
Proof. unfold recoverTurn. walk. Qed.

Lemma always_salvage i : always R (salvage i).
Proof. unfold salvage. walk. apply always_updateMany. lawfully lawful_usage. Qed.

Lemma always_afterClose i : always R (afterClose i).
Proof.
  unfold afterClose, settleAutomationRun. walk; apply always_updateMany; [lawfully lawful_join|lawfully lawful_abort].
Qed.

#[local] Hint Resolve always_recover always_salvage always_afterClose : turndb.

Lemma always_finish i : f_status i ∈ [Done; Failed; Aborted] -> always R (finishTurn i).
Proof.
  intros Hs. unfold finishTurn. walk. apply always_updateMany. intros e db.
  eapply lawful_weaken; [|apply lawful_close; exact Hs].
  unfold closable. cbn [f_status storable_report]. intros t Hc. rewrite !andb_true_iff in Hc. destruct Hc as [_ Hc].
  destruct (bool_decide _); [|done]. by apply (has_status_mono [Dispatched; Running]).
Qed.

Lemma always_settleSwept rs : always R (settleSweptTurns rs).
Proof. unfold settleSweptTurns, settleAutomationRun. walk. Qed.

Lemma always_bornDone c message src events : always R (materializeBornDoneTurn c message src events).
Proof.
  unfold materializeBornDoneTurn. walk. apply always_exec. intros e db. apply respects_born.
Qed.

#[local] Hint Resolve always_finish always_settleSwept always_bornDone : turndb.

(** *** Creations and sends *)

(** What the credential check writes is what it answered. *)
Lemma always_admit ws c origin turn : always R (admitTurn ws c origin turn).
Proof.
  unfold admitTurn. destruct (conv_agent c) as [a|]; [|done]. apply always_reach_ask; [apply _|]. intros e db.
  destruct (findAgentLlmBlocker e ws a) as [[message code]|] eqn:Hb; walk.
  apply always_updateMany. intros e' db'. by eapply lawful_refuse.
Qed.

Lemma always_createTurn ws c message origin ids : always R (createTurn ws c message origin ids).
Proof.
  unfold createTurn, requireConversationFor. pose proof (always_admit ws c origin) as Ha. walk. by apply always_createRow.
Qed.

Lemma always_createFollowUp c i message origin ids : always R (createFollowUp c i message origin ids).
Proof. by apply always_createRow. Qed.

#[local] Hint Resolve always_createTurn always_createFollowUp : turndb.

Lemma always_followUpOn c message origin ids target : always R (followUpOn c message origin ids target).
Proof. unfold followUpOn, find_turn. walk. Qed.

#[local] Hint Resolve always_followUpOn : turndb.

Lemma always_send ws c message origin ids : always R (sendConversationMessage ws c message origin ids).
Proof.
  unfold sendConversationMessage. apply always_bind; [unfold requireConversationFor; walk|intros ?].
  generalize SEND_ATTEMPTS as n. induction n as [|n IH]; cbn [send_attempts]; [done|].
  unfold send_attempt, tryCreateTurn, activeTurnOf. walk.
Qed.

(** *** Claims and sweeps *)

Lemma claimed_cond cond key limit e db t :
  valid db -> turns db !! id t = Some t -> bool_decide (id t ∈ claimed cond key limit e db) = true -> cond t = true.
Proof.
  intros [Hr _] Ht Hc. apply bool_decide_eq_true in Hc. unfold claimed in Hc. apply elem_of_lmap in Hc as (t' & Hid & Hin).
  apply elem_of_take in Hin as (n & Hin & _). apply list_elem_of_lookup_2 in Hin.
  unfold order_by in Hin. rewrite js_sort_elem_of, elem_of_lfilter in Hin. destruct Hin as [Hin Hc].
  apply elem_of_rows in Hin as [i Hi]. apply andb_true_iff in Hc as [Hc _].
  destruct (Hr i t' Hi) as [<- _]. rewrite <- Hid in Hi. congruence.
Qed.

Lemma always_claim cond key data good :
  (forall e db t, cond e db t = true -> good t = true) -> (forall e, lawful good (data e)) ->
  always R (claim cond key data).
Proof.
  intros Hg Hl. apply always_exec. intros e db. apply respects_update with good; [|apply Hl].
  intros Hv t Ht Hc. eapply Hg. by eapply claimed_cond.
Qed.

(** A condition read off a conjunction. *)
Ltac conjunct := intros ? ? ?; cbv beta; rewrite ?andb_true_iff; tauto.

Lemma claimed_turns_cond caller e db t :
  valid db -> turns db !! id t = Some t -> bool_decide (id t ∈ claimed_turns caller e db) = true ->
  dispatchable caller e db t = true.
Proof.
  intros [Hr _] Ht Hc. apply bool_decide_eq_true in Hc. unfold claimed_turns in Hc. apply elem_of_lmap in Hc as (t' & Hid & Hin).
  apply elem_of_take in Hin as (n & Hin & _). apply list_elem_of_lookup_2 in Hin.
  assert (exists i, turns db !! i = Some t' /\ dispatchable caller e db t' = true) as (i & Hi & Hd).
  { rewrite elem_of_app, !elem_of_lfilter in Hin. unfold order_by in Hin. rewrite !js_sort_elem_of, !elem_of_lfilter in Hin.
    rewrite !andb_true_iff, elem_of_rows in Hin. naive_solver. }
  destruct (Hr i t' Hi) as [<- _]. rewrite <- Hid in Hi. congruence.
Qed.

Lemma lawful_touched data good e : lawful good data -> lawful good (fun t => touch e (data t)).
Proof. apply (lawful_client e). Qed.

Lemma always_claimDue caller : always R (claimDueTurns caller).
Proof.
  unfold claimDueTurns, claimAborts, claimSteers, claimCeilingWarnings, claimSendNows. walk.
  - apply always_claim with (fun _ => true); [done|]. intros e. apply (lawful_touched (set_abortRequested false)), lawful_flag.
  - eapply always_claim; [|apply lawful_steer]. unfold steerable. conjunct.
  - eapply always_claim; [|apply lawful_warn]. cbn. conjunct.
  - apply always_exec. intros e db. eapply respects_update; [|apply lawful_dispatch].
    intros Hv t Ht Hc. eapply claimed_turns_cond in Hc; [|done|done]. unfold dispatchable in Hc.
    rewrite andb_true_iff, orb_true_iff, andb_true_iff in Hc. destruct Hc as [_ [Hc|[Hc _]]]; (eapply has_status_mono; [|exact Hc]; reflexivity).
  - apply always_claim with (fun _ => true); [done|]. intros e.
    apply (lawful_touched (set_sendNowRequested false)), lawful_sendNow.
Qed.

Lemma always_reclaim : always R reclaimStaleTurns.
Proof. unfold reclaimStaleTurns. walk. apply always_rawUpdate. lawfully lawful_reclaim. Qed.

Lemma always_stalled : always R failStalledTurns.
Proof. unfold failStalledTurns. walk. apply always_rawUpdate. lawfully lawful_stall. Qed.

Lemma always_expire : always R expireWedgedFollowUps.
Proof.
  unfold expireWedgedFollowUps. walk. apply always_rawUpdate. intros e db. apply lawful_touched.
  eapply lawful_weaken; [|apply lawful_fail]. implied.
Qed.

#[local] Hint Resolve always_claimDue always_reclaim always_stalled always_expire : turndb.

Lemma always_sweeps : always R runPollSweeps.
Proof.
  unfold runPollSweeps, follow_up_sweeps, quietly, promoteParkedFollowUps, listConversationsWithParkedFollowUps. walk.
Qed.

(** *** Sandbox doors *)

Lemma always_recoverAll fence : always R (recoverAll fence).
Proof. unfold recoverAll. walk. Qed.

Lemma always_park p message code : always R (parkWaiting p message code).
Proof. unfold parkWaiting. walk. apply always_updateMany. lawfully lawful_fail. Qed.

#[local] Hint Resolve always_recoverAll always_park : turndb.

Lemma always_startFailure p : always R (applyStartFailureReason p).
Proof. unfold applyStartFailureReason. walk. Qed.

Lemma always_strand p : always R (strand p).
Proof. unfold strand. walk. sandbox_write. Qed.

#[local] Hint Resolve always_startFailure always_strand : turndb.

Lemma always_runnerEvent p : always R (applyRunnerEvent p).
Proof. unfold applyRunnerEvent, recordStatus. walk. sandbox_write. Qed.

Lemma always_respawn a ws : always R (requestSandboxRespawn a ws).
Proof. unfold requestSandboxRespawn. walk. sandbox_write. Qed.

Lemma always_restart a ws : always R (requestAgentRestart a ws).
Proof.
  unfold requestAgentRestart. walk; [apply always_query; intros ? ?; apply respects_forget| |sandbox_write]. apply always_updateMany. lawfully lawful_fail.
Qed.

Lemma always_parkClaim s runner message code : always R (parkUnstartableClaim s runner message code).
Proof. unfold parkUnstartableClaim. walk; [sandbox_write|]. apply always_updateMany. lawfully lawful_fail. Qed.

#[local] Hint Resolve always_runnerEvent always_respawn always_restart always_parkClaim always_send always_sweeps : turndb.

(** All service functions but three settle nothing. *)
Lemma service_settling p :
  service p ->
  (exists ws i viewer, p = (abortTurn ws i viewer;; mret ())) \/
  (exists i, f_status i ∈ [Done; Failed; Aborted] /\ p = finishTurn i) \/
  p = runPollSweeps \/ always R p.
Proof.
  destruct 1; first [ by left; eauto | by right; left; eauto | by right; right; left
    | right; right; right; first [solve [walk] | unfold releaseClaim, writeSandbox; sandbox_write] ].
Qed.

(** Every statement of every service function. *)
Lemma service_always p : service p -> always R p.
Proof.
  destruct 1; first [solve [walk] | unfold releaseClaim, writeSandbox; sandbox_write].
Qed.

Lemma pool_respects db ps db' : pool_run service ([], db) (ps, db') -> R db db'.
Proof. intros Hrun. by apply (pool_always R service) in Hrun as [? _]; [|apply service_always|]. Qed.

(** Between any two states of a run, whatever is in flight at the first. *)
Lemma pool_respects_between db0 ps db ps' db' :
  pool_run service ([], db0) (ps, db) -> pool_run service (ps, db) (ps', db') -> R db0 db /\ R db db'.
Proof.
  intros H1 H2. apply (pool_always R service) in H1 as [HR1 Hps]; [|apply service_always|done].
  by apply (pool_always R service) in H2 as [HR2 _]; [|apply service_always|].
Qed.
End Programs.
