(* ===== verification/TurnLifecycle.v ===== *)
(** * The life of a turn

    Under any interleaving of every service function: rows keep their type,
    move only along the transitions, keep their clocks and their verdict, and
    no conversation has two active turns. *)
From S2P Require Import Prelude JsJson JsBytes TurnEvents TurnText TurnDb TurnService TurnDoors TurnRuns TurnRows.
From S2P Require Import TurnPrograms TurnSample.
Local Open Scope Z_scope.

Section Lifecycle.
Context {W : World} {T : Windows}.

(** ** Every write keeps turns valid and moving *)

Lemma turns_update_sandbox s cond data db : turns (update_sandbox s cond data db).2 = turns db.
Proof. unfold update_sandbox. by destruct (cond _). Qed.

Lemma turns_update_conversation c cond data db : turns (update_conversation c cond data db) = turns db.
Proof. unfold update_conversation. by destruct (cond _). Qed.

Lemma turns_engage e s db : turns (engage e s db) = turns db.
Proof. apply turns_update_sandbox. Qed.

Lemma turns_bump_seq c n db seq db' : bump_seq c n db = (inl seq, db') -> turns db' = turns db.
Proof. unfold bump_seq. destruct (_ <? _); [|done]. by intros [= _ <-]. Qed.

Lemma turns_bind c i u ids db : turns (bindAttachmentsToTurn c i u ids db).2 = turns db.
Proof.
  unfold bindAttachmentsToTurn. destruct (_ =? 0)%nat; [done|]. destruct (_ <? _)%nat; [done|].
  destruct (bind_rows _ _ (attachments db)) as [b t1], (bind_rows _ _ t1) as [f t2].
  by case_tests.
Qed.

(** A statement of a transaction that began in [db]: what it leaves, and the
    rest of the transaction from there. *)
Lemma evolves_within {X Y} db db0 (r : (X + Exn) * Db) (k : X -> Db -> (Y + Exn) * Db) :
  evolves db db0 -> evolves db0 r.2 -> (forall y db1, evolves db db1 -> evolves db (k y db1).2) ->
  evolves db (within r db k).2.
Proof.
  unfold within. destruct r as [[y|x] db1]; cbn; intros H0 H Hk; [|reflexivity]. apply Hk. by transitivity db0.
Qed.

Lemma evolves_bump_seq c n db : evolves db (bump_seq c n db).2.
Proof.
  pose proof (turns_bump_seq c n db) as H. destruct (bump_seq c n db) as [[seq|x] db1] eqn:E.
  - apply evolves_same. by apply (H seq).
  - unfold bump_seq in E. destruct (_ <? _); [done|]. injection E as _ <-. reflexivity.
Qed.

Lemma evolves_insert_events new db : evolves db (insert_events new db).2.
Proof. unfold insert_events. destruct (bool_decide _); [by apply evolves_same|reflexivity]. Qed.

#[local] Hint Resolve evolves_bump_seq evolves_insert_events : turndb.

Lemma evolves_create c message st f origin ids e db :
  turn_wf (new_turn e c message st origin f) = true ->
  evolves db (insert_with_attachments c message st f origin ids e db).2.
Proof.
  intros Hw. unfold insert_with_attachments.
  pose proof (evolves_insert _ db Hw) as Hi. destruct (insert_turn _ db) as [[turn|x] db1]; [|reflexivity].
  cbn in Hi. destruct ids as [|i ids]; [done|].
  pose proof (turns_bind c (id turn) (o_userId origin) (i :: ids) db1) as Hb.
  destruct (bindAttachmentsToTurn _ _ _ _ _) as [[u|x] db2]; [|reflexivity]. cbn in *.
  transitivity db1; [done|]. by apply evolves_same.
Qed.

Lemma evolves_batch r c i clean e db : evolves db (apply_batch r c i clean e db).2.
Proof.
  unfold apply_batch. destruct (turnBelongsToReporter r c i db) as [src|]; [|reflexivity].
  eapply evolves_within; [reflexivity|apply evolves_bump_seq|intros seq db1 H1].
  eapply evolves_within; [exact H1|apply evolves_insert_events|intros u db2 H2].
  eapply evolves_within; [exact H2| |intros rs db3 H3].
  { destruct (existsb _ _); [|reflexivity]. apply evolves_update_turns. eapply lawful_weaken; [|apply lawful_start]. implied. }
  eapply evolves_within; [exact H3| |intros rs' db4 H4].
  { destruct (joined_ids clean) as [|f ids]; [reflexivity|]. apply evolves_update_turns, lawful_client.
    eapply lawful_weaken; [|apply lawful_join]. implied. }
  cbn. destruct (isPlatformJobRun src); [done|]. transitivity db4; [done|]. apply evolves_same, turns_engage.
Qed.

#[export] Instance evolves_respects : Respects evolves.
Proof.
  split; [apply _|..].
  - intros. by eapply evolves_update_rows.
  - intros. by apply evolves_create.
  - intros. apply evolves_same, turns_update_sandbox.
  - intros. apply evolves_same, turns_update_conversation.
  - intros. by apply evolves_same.
  - intros. by apply evolves_same.
  - intros. eapply evolves_within; [reflexivity|apply evolves_bump_seq|intros seq db1 H1].
    eapply evolves_within; [exact H1|apply evolves_insert_events|done].
  - intros. apply evolves_batch.
  - intros c message src events e db. unfold materialize. destruct (conv_agent c); [|reflexivity].
    eapply evolves_within; [reflexivity|apply evolves_bump_seq|intros seq db1 H1].
    eapply evolves_within; [exact H1|by apply evolves_insert|intros t db2 H2].
    eapply evolves_within; [exact H2|apply evolves_insert_events|done].
Qed.

#[export] Instance evolves_settles : Settles evolves.
Proof. split. intros i o db. by apply evolves_same. Qed.

Lemma pool_evolves db ps db' : pool_run service ([], db) (ps, db') -> evolves db db'.
Proof. apply (pool_respects evolves). Qed.

(** ** What holds of every run *)

(** C26: under any interleaving of every service function, lost programs
    included, the turns table stays well typed: each row is stored under its
    identifier and is well formed, and two active turns of one conversation
    are one turn. *)
Theorem turns_well_typed db ps db' :
  valid db -> pool_run service ([], db) (ps, db') ->
  (forall i t, turns db' !! i = Some t -> id t = i /\ turn_wf t = true) /\
  (forall i j ti tj, turns db' !! i = Some ti -> turns db' !! j = Some tj ->
     isActiveTurnStatus (status ti) = true -> isActiveTurnStatus (status tj) = true ->
     conversationId ti = conversationId tj -> i = j).
Proof. intros Hv Hrun. destruct (pool_evolves _ _ _ Hrun Hv) as [[Hr Hi] _]. split; [done|]. by apply index_ok_spec. Qed.

(** C2: between any two states of a run, whatever is in flight at the first, a
    turn's row is never lost, keeps what it was asked and its clocks once set
    (so it is recovered at most once), and has moved along the transitions,
    each of which uses up one of at most eight; a finished one keeps its
    status, error and end for good. The one exception is a row that the
    credential check of its own creation fails, whatever it is by then. *)
Theorem turn_history db0 ps db ps' db' i t :
  valid db0 -> pool_run service ([], db0) (ps, db) -> pool_run service (ps, db) (ps', db') -> turns db !! i = Some t ->
  exists t', turns db' !! i = Some t' /\ key t' = key t /\ clocks_kept t t' /\ (rank t <= 8)%nat /\
    (refused t' \/
     rtc (fun a b => edge a b = true) (status t) (status t') /\
     (status t' = status t \/ (rank t' < rank t)%nat) /\
     (is_final (status t) = true -> verdict t' = verdict t)).
Proof.
  intros Hv H1 H2 Ht. destruct (pool_respects_between evolves _ _ _ _ _ H1 H2) as [E1 E2].
  destruct (E1 Hv) as [Hv1 _]. destruct (E2 Hv1) as [_ Hl].
  destruct (Hl i t Ht) as (t' & Ht' & K & C & M). exists t'. split_and!; [done|done|done| |].
  - unfold rank. destruct (status t), (is_final _ || _); cbn; lia.
  - destruct M as [M|[P R F]]; [by left|right]. split_and!; [done| |done]. destruct R as [[R _]|R]; auto.
Qed.

(** *** The recoveries always fit the index *)

(** reviving and resuming turns never runs into the index that allows one
    active turn per conversation, so neither needs the handler promotion
    has. *)
Theorem recovery_fits_index es fence db :
  index_ok (turns db) = true ->
  (exists n, (run es (reviveColdTurns fence) db).1 = inl n) /\
  (exists rs, (run es (resumeInterruptedTurns fence) db).1 = inl rs).
Proof.
  assert (forall t, has_status [Dispatched] t = true \/ has_status [Dispatched; Running] t = true ->
    isActiveTurnStatus (status t) = true) as Ha.
  { intros t [H|H]; by apply (has_status_mono _ ACTIVE_TURN_STATUSES) in H. }
  intros Hi. split.
  - destruct (update_fits (fun t => fence t && has_status [Dispatched] t && bool_decide (startedAt t = None)
                  && bool_decide (retriedAt t = None)) (client (es 0%nat)
                (fun t => set_retriedAt (Some (now (es 0%nat))) (set_status Queued t))) db Hi) as [Hrs _].
    { intros t Hc. rewrite !andb_true_iff in Hc. split; [done|]. intros _. apply Ha. tauto. }
    eexists. cbn. by rewrite Hrs.
  - destruct (update_fits (fun t => fence t && has_status [Dispatched; Running] t && negb (bool_decide (startedAt t = None))
                  && bool_decide (retriedAt t = None) && negb (abortRequested t)
                  && negb (isPlatformJobRun (source t))) (client (es 0%nat) (resume_data (es 0%nat))) db Hi) as [Hrs _].
    { intros t Hc. rewrite !andb_true_iff in Hc. split; [done|]. intros _. apply Ha. tauto. }
    eexists. cbn. by rewrite Hrs.
Qed.
End Lifecycle.

(** ** Witnesses *)

Section Witness.
#[local] Existing Instances clear_world sample_windows.

Lemma fresh_valid : valid fresh_db.
Proof. split; [|reflexivity]. intros i t. cbn. by rewrite lookup_empty. Qed.

Lemma a_day_serves : Forall (fun c => service c.2) a_day.
Proof. unfold a_day. serves. Qed.

Lemma turns_well_typed_witness :
  exists ps db', pool_run service ([], fresh_db) (ps, db') /\ status_of "t1" db' = Some Running /\
    (forall i t, turns db' !! i = Some t -> id t = i /\ turn_wf t = true).
Proof.
  destruct (pool_serve service a_day fresh_db a_day_serves) as [ps Hrun].
  exists ps, (serve a_day fresh_db). split; [exact Hrun|]. split; [vm_compute; reflexivity|].
  exact (proj1 (turns_well_typed _ _ _ fresh_valid Hrun)).
Defined.

(** The first message on the morning of the day, and at its end. *)
Definition morning : Db := serve [posts 1000 "t1" "c1"] fresh_db.

Lemma morning_valid : valid morning.
Proof.
  destruct (pool_serve service [posts 1000 "t1" "c1"] fresh_db) as [ps Hrun]; [unfold a_day; serves|].
  exact (proj1 (pool_evolves _ _ _ Hrun fresh_valid)).
Qed.

Lemma turn_history_witness :
  exists ps ps' db' t t', pool_run service ([], fresh_db) (ps, morning) /\ pool_run service (ps, morning) (ps', db') /\
    turns morning !! js "t1" = Some t /\ turns db' !! js "t1" = Some t' /\ key t' = key t /\ clocks_kept t t'.
Proof.
  destruct (pool_serve service [posts 1000 "t1" "c1"] fresh_db) as [ps Hrun]; [unfold a_day; serves|].
  destruct (pool_serve_from service ps [polls 2000; begins 3000 reporter1 "c1" "t1"] morning) as [ps' Hrun'];
    [serves|].
  destruct (turns morning !! js "t1") as [t|] eqn:Ht; [|vm_compute in Ht; discriminate].
  destruct (turn_history _ _ _ _ _ (js "t1") t fresh_valid Hrun Hrun' Ht) as (t' & Ht' & K & C & _).
  exists ps, ps', (serve [polls 2000; begins 3000 reporter1 "c1" "t1"] morning), t, t'.
  split_and!; [exact Hrun|exact Hrun'|exact eq_refl|exact Ht'|exact K|exact C].
Defined.

Lemma recovery_fits_index_witness :
  index_ok (turns morning) = true /\
  exists n, (run (at_time 0 "-") (reviveColdTurns (fun _ => true)) morning).1 = inl n.
Proof.
  split; [vm_compute; reflexivity|].
  exact (proj1 (recovery_fits_index (at_time 0 "-") (fun _ => true) morning ltac:(vm_compute; reflexivity))).
Defined.
End Witness.
