(* ===== verification/TurnTranscript.v ===== *)
(** * The transcript

    Event numbers come from the conversation's counter under its row lock:
    they are never given twice, a later commit never has a number a reader has
    passed, and paging through the transcript meets every row once. *)
From S2P Require Import Prelude JsJson JsBytes TurnEvents TurnText TurnDb TurnService TurnDoors TurnRuns TurnRows.
From S2P Require Import TurnPrograms TurnSample.
Local Open Scope Z_scope.

Section Transcript.
Context {W : World} {T : Windows}.

Definition counter (db : Db) (c : jsstr) : Z := lastSeq (conversation db c).

(** Numbers are unique in their conversation and at most its counter. *)
Definition numbered (db : Db) : Prop :=
  NoDup (map row_key (turnEvents db)) /\
  (forall r, r ∈ turnEvents db -> ev_seq r <= counter db (ev_conversationId r)).

(** From numbered events: they stay numbered, counters only grow, and what is
    appended is numbered beyond the counter of before. *)
Definition appends (db db' : Db) : Prop :=
  numbered db ->
  numbered db' /\ (forall c, counter db c <= counter db' c) /\
  exists new, turnEvents db' = turnEvents db ++ new /\ (forall r, r ∈ new -> counter db (ev_conversationId r) < ev_seq r).

Lemma appends_same db db' :
  turnEvents db' = turnEvents db -> (forall c, counter db' c = counter db c) -> appends db db'.
Proof.
  intros He Hc Hn. split_and!.
  - destruct Hn as [Hd Hb]. split; rewrite He; [done|]. intros r Hr. rewrite Hc. by apply Hb.
  - intros c. rewrite Hc. lia.
  - exists []. rewrite app_nil_r. split; [done|]. intros r Hr. by apply elem_of_nil in Hr.
Qed.

#[export] Instance appends_preorder : PreOrder appends.
Proof.
  split; [intros db; by apply appends_same|].
  intros a b c H1 H2 Hn. destruct (H1 Hn) as (Hb & C1 & n1 & E1 & N1). destruct (H2 Hb) as (Hc & C2 & n2 & E2 & N2).
  split_and!; [done|intros x; specialize (C1 x); specialize (C2 x); lia|].
  exists (n1 ++ n2). rewrite E2, E1, app_assoc. split; [done|]. intros r [Hr|Hr]%elem_of_app; [by apply N1|].
  specialize (N2 r Hr). specialize (C1 (ev_conversationId r)). lia.
Qed.

Lemma conversation_set c x db c' :
  conversation (set_conversation c x db) c' = if bool_decide (c' = c) then x else conversation db c'.
Proof.
  unfold conversation, set_conversation. cbn. destruct (bool_decide _) eqn:E; to_prop.
  - subst. by rewrite lookup_insert_eq.
  - by rewrite lookup_insert_ne.
Qed.

(** The counter of [c] has moved by [n] to [seq], and nothing was appended. *)
Definition bumped (c : jsstr) (n : nat) (db : Db) (seq : Z) (db1 : Db) : Prop :=
  seq = counter db c + Z.of_nat n /\ turnEvents db1 = turnEvents db /\
  (forall c', counter db1 c' = if bool_decide (c' = c) then seq else counter db c').

Lemma bump_seq_spec c n db seq db1 : bump_seq c n db = (inl seq, db1) -> bumped c n db seq db1.
Proof.
  unfold bump_seq. destruct (_ <? _); [|done].
  intros [= <- <-]. split_and!; [done|done|]. intros c'. unfold counter. rewrite conversation_set.
  by destruct (bool_decide _).
Qed.

Lemma bumped_insert_turn c n db seq db1 t db2 r :
  bumped c n db seq db1 -> insert_turn t db1 = (inl r, db2) -> bumped c n db seq db2.
Proof.
  intros (Hs & He & Hc). unfold insert_turn. case_match; [done|]. case_match; [|done]. intros [= _ <-]. done.
Qed.

Lemma bumped_appends c n db seq db1 : bumped c n db seq db1 -> appends db db1.
Proof.
  intros (Hs & He & Hc) [Hu Hb].
  assert (forall x, counter db x <= counter db1 x) as Hle.
  { intros x. rewrite Hc. destruct (bool_decide _) eqn:E; to_prop; [subst x; lia|lia]. }
  split_and!; [split; rewrite He; [done|]|done|].
  - intros r Hr. specialize (Hb r Hr). specialize (Hle (ev_conversationId r)). lia.
  - exists []. rewrite app_nil_r. split; [done|]. intros r Hr. by apply elem_of_nil in Hr.
Qed.

(** Rows numbered inside a fresh block of the counter. *)
Definition in_block (c : jsstr) (seq : Z) (n : nat) (r : EventRow) : Prop :=
  ev_conversationId r = c /\ seq - Z.of_nat n < ev_seq r <= seq.

(** Appending such rows after the counter moved past them: the unique index
    lets them in, and the transcript only grew. *)
Lemma append_block c n rs db seq db1 :
  bumped c n db seq db1 -> (forall r, r ∈ rs -> in_block c seq n r) -> NoDup (map ev_seq rs) ->
  numbered db ->
  insert_events rs db1 = (inl (), add_events rs db1) /\ appends db (add_events rs db1).
Proof.
  intros (Hseq & He & Hc) Hin Hnd [Hu Hb].
  assert (NoDup (map row_key (turnEvents db1 ++ rs))) as Hd.
  { rewrite He, map_app. apply NoDup_app. split_and!; [done| |].
    - intros k (r & -> & Hr)%elem_of_lmap (r' & Hk & Hr')%elem_of_lmap. destruct (Hin r' Hr') as [Hcr Hs].
      injection Hk as Hk1 Hk2. specialize (Hb r Hr). rewrite Hk1, Hcr in Hb. lia.
    - apply (NoDup_fmap_1 snd). change (NoDup (map snd (map row_key rs))). by rewrite map_map. }
  split; [unfold insert_events; by rewrite (proj2 (bool_decide_eq_true _) Hd)|].
  intros _. cbn. split_and!.
  - split; [done|]. cbn. rewrite He. intros r [Hr|Hr]%elem_of_app.
    + specialize (Hb r Hr). change (ev_seq r <= counter db1 (ev_conversationId r)). rewrite Hc.
      destruct (bool_decide _) eqn:E; to_prop; [rewrite E in Hb; lia|lia].
    + destruct (Hin r Hr) as [Hcr Hs]. change (ev_seq r <= counter db1 (ev_conversationId r)). rewrite Hc, Hcr.
      rewrite bool_decide_true by done. lia.
  - intros x. change (counter db x <= counter db1 x). rewrite Hc. destruct (bool_decide _) eqn:E; to_prop; [subst x; lia|lia].
  - exists rs. rewrite He. split; [done|]. intros r Hr. destruct (Hin r Hr) as [-> Hs]. lia.
Qed.

(** The rows of a batch are a block. *)
Lemma in_number_events c i first events r :
  r ∈ (number_events c i first events).*2 ->
  ev_conversationId r = c /\ first <= ev_seq r < first + Z.of_nat (length events).
Proof.
  unfold number_events. rewrite list_elem_of_fmap. intros ([ev r'] & -> & Hin). cbn.
  apply list_elem_of_lookup in Hin as [k Hk]. rewrite list_lookup_imap in Hk. apply fmap_Some in Hk as (x & Hx & Heq).
  injection Heq as -> ->. cbn. apply lookup_lt_Some in Hx. split; [done|lia].
Qed.

Lemma NoDup_number_events c i first events : NoDup (map ev_seq (number_events c i first events).*2).
Proof.
  apply NoDup_alt. intros a b x. change (map ev_seq ?l) with (ev_seq <$> l). rewrite !list_lookup_fmap.
  unfold number_events. rewrite !list_lookup_imap.
  destruct (events !! a), (events !! b); cbn; try done. intros [= <-] [= He]. lia.
Qed.

Lemma durable_rows (l : list (AgentEvent * EventRow)) : (List.filter (fun p => DURABILITY p.1) l).*2 `sublist_of` l.*2.
Proof.
  induction l as [|[ev r] l IH]; cbn; [constructor|]. destruct (DURABILITY ev); cbn; by constructor.
Qed.

Lemma sublist_map {A B} (f : A -> B) l k : l `sublist_of` k -> map f l `sublist_of` map f k.
Proof. induction 1; cbn; by constructor. Qed.

(** What [bump_seq] numbers for a batch, and what of it is stored. *)
Lemma append_numbered c i events db seq db1 :
  bumped c (length events) db seq db1 -> numbered db ->
  let all := number_events c i (seq - Z.of_nat (length events) + 1) events in
  forall stored, stored `sublist_of` all.*2 ->
  insert_events stored db1 = (inl (), add_events stored db1) /\ appends db (add_events stored db1).
Proof.
  intros Hb Hn all stored Hs. apply (append_block c (length events) stored db seq); [done| |  |done].
  - intros r Hr. assert (r ∈ all.*2) as Hin by (by eapply elem_of_sublist).
    apply in_number_events in Hin as [Hc Hi]. split; [done|lia].
  - pose proof (NoDup_number_events c i (seq - Z.of_nat (length events) + 1) events) as Hd.
    apply (sublist_map ev_seq) in Hs. by eapply sublist_NoDup.
Qed.

Lemma appends_update_turns cond data db : appends db (update_turns cond data db).2.
Proof. apply update_turns_rel; [apply _|]. intros _. by apply appends_same. Qed.

Lemma appends_insert t db : appends db (insert_turn t db).2.
Proof. unfold insert_turn. case_match; [reflexivity|]. case_match; [by apply appends_same|reflexivity]. Qed.

Lemma appends_sandbox s cond data db : appends db (update_sandbox s cond data db).2.
Proof. unfold update_sandbox. case_match; by apply appends_same. Qed.

Lemma appends_conversation c cond data db :
  (forall x, lastSeq (data x) = lastSeq x) -> appends db (update_conversation c cond data db).
Proof.
  intros Hd. unfold update_conversation. destruct (cond _); [|reflexivity]. apply appends_same; [done|].
  intros c'. unfold counter. rewrite conversation_set. destruct (bool_decide _) eqn:E; to_prop; [subst; apply Hd|done].
Qed.

Lemma appends_forget a ws db : appends db (forget_sessions a ws db).
Proof.
  apply appends_same; [done|]. intros c. unfold counter, conversation, forget_sessions. cbn.
  rewrite map_lookup_imap. destruct (conversations db !! c) as [x|]; cbn; [|done]. by destruct (_ && _).
Qed.

Lemma appends_bind c i u ids db : appends db (bindAttachmentsToTurn c i u ids db).2.
Proof.
  unfold bindAttachmentsToTurn. destruct (_ =? 0)%nat; [reflexivity|]. destruct (_ <? _)%nat; [reflexivity|].
  destruct (bind_rows _ _ (attachments db)) as [b t1], (bind_rows _ _ t1) as [f t2].
  case_tests; by apply appends_same.
Qed.

Lemma appends_intro db db' : (numbered db -> appends db db') -> appends db db'.
Proof. intros H Hn. exact (H Hn Hn). Qed.

Lemma appends_within {X Y} db db0 (r : (X + Exn) * Db) (k : X -> Db -> (Y + Exn) * Db) :
  appends db db0 -> appends db0 r.2 -> (forall y db1, appends db db1 -> appends db (k y db1).2) ->
  appends db (within r db k).2.
Proof.
  unfold within. destruct r as [[y|x] db1]; cbn; intros H0 H Hk; [|reflexivity]. apply Hk. by transitivity db0.
Qed.

(** A transaction that starts by numbering a block. *)
Lemma appends_within_bump {Y} c n db (k : Z -> Db -> (Y + Exn) * Db) :
  (forall seq db1, bumped c n db seq db1 -> appends db (k seq db1).2) ->
  appends db (within (bump_seq c n db) db k).2.
Proof.
  intros H. unfold within. destruct (bump_seq c n db) as [[seq|x] db1] eqn:E; [|reflexivity].
  by apply H, bump_seq_spec.
Qed.

(** Storing the block: it succeeds, and the rest of the transaction follows. *)
Lemma appends_within_block {Y} c i events db seq db1 stored (k : () -> Db -> (Y + Exn) * Db) :
  bumped c (length events) db seq db1 ->
  stored `sublist_of` (number_events c i (seq - Z.of_nat (length events) + 1) events).*2 ->
  (appends db (add_events stored db1) -> appends db (k () (add_events stored db1)).2) ->
  appends db (within (insert_events stored db1) db k).2.
Proof.
  intros Hb Hs Hk. apply appends_intro. intros Hn.
  destruct (append_numbered c i events db seq db1 Hb Hn stored Hs) as [Hi Ha].
  unfold within. rewrite Hi. by apply Hk.
Qed.

Lemma appends_batch r c i clean e db : appends db (apply_batch r c i clean e db).2.
Proof.
  unfold apply_batch. destruct (turnBelongsToReporter r c i db) as [src|]; [|reflexivity].
  apply appends_within_bump. intros seq db1 Hb.
  apply (appends_within_block c i clean db seq db1); [done|apply durable_rows|intros Ha].
  eapply appends_within; [exact Ha| |intros rs db3 H3].
  { destruct (existsb _ _); [apply appends_update_turns|reflexivity]. }
  eapply appends_within; [exact H3| |intros rs' db4 H4].
  { destruct (joined_ids clean); [reflexivity|apply appends_update_turns]. }
  cbn. destruct (isPlatformJobRun src); [done|]. transitivity db4; [done|]. apply appends_sandbox.
Qed.

Lemma appends_born c message src events e db : appends db (materialize c message src events e db).2.
Proof.
  unfold materialize. destruct (conv_agent c); [|reflexivity].
  apply appends_within_bump. intros seq db1 Hb. unfold within at 1.
  destruct (insert_turn _ db1) as [[t|x] db2] eqn:E; [|reflexivity].
  apply (appends_within_block c (id t) (events ++ [turn_done None]) db seq db2);
    [by eapply bumped_insert_turn|reflexivity|done].
Qed.

Lemma appends_notice c i level text db : appends db (append_notice c i level text db).2.
Proof.
  unfold append_notice. apply appends_within_bump. intros seq db1 Hb. apply appends_intro. intros Hn.
  destruct (append_block c 1 [notice_row c i seq level text] db seq db1 Hb) as [Hi Ha]; [| |done|].
  - intros r ->%list_elem_of_singleton. split; [done|cbn; lia].
  - apply NoDup_singleton.
  - unfold within. by rewrite Hi.
Qed.

Lemma appends_create c message st f origin ids e db :
  appends db (insert_with_attachments c message st f origin ids e db).2.
Proof.
  unfold insert_with_attachments. pose proof (appends_insert (new_turn e c message st origin f) db) as Hi.
  destruct (insert_turn _ db) as [[turn|x] db1]; [|reflexivity]. cbn in Hi. destruct ids as [|i ids]; [done|].
  pose proof (appends_bind c (id turn) (o_userId origin) (i :: ids) db1) as Hb.
  destruct (bindAttachmentsToTurn _ _ _ _ _) as [[u|x] db2]; [|reflexivity]. cbn in *. by transitivity db1.
Qed.

#[export] Instance appends_respects : Respects appends.
Proof.
  split; [apply _|..]; intros; eauto using appends_update_turns, appends_create, appends_sandbox, appends_conversation,
    appends_forget, appends_notice, appends_batch, appends_born.
  by apply appends_same.
Qed.

#[export] Instance appends_settles : Settles appends.
Proof. split. intros i o db. by apply appends_same. Qed.

(** ** History, then tail *)

Definition up_to (c : jsstr) (n : Z) (r : EventRow) : bool := bool_decide (ev_conversationId r = c) && (ev_seq r <=? n).

(** C9: between any two states of a run, from tables whose events are
    numbered and whatever is in flight at the first, event numbers stay unique
    in their conversation and at most its counter, counters never go back, the
    transcript only grows at its end and what is new is numbered above the
    counter; so a reader who has read a conversation up to any number the
    counter had reached has read it for good: no event with a number up to
    there ever appears later, and reading history and then tailing from it
    misses nothing. *)
Theorem transcript_tail db0 ps db ps' db' c n :
  numbered db0 -> pool_run service ([], db0) (ps, db) -> pool_run service (ps, db) (ps', db') -> n <= counter db c ->
  numbered db' /\ counter db c <= counter db' c /\
  (exists new, turnEvents db' = turnEvents db ++ new /\
     forall r, r ∈ new -> counter db (ev_conversationId r) < ev_seq r) /\
  List.filter (up_to c n) (turnEvents db') = List.filter (up_to c n) (turnEvents db).
Proof.
  intros Hn H1 H2 Hle. destruct (pool_respects_between appends _ _ _ _ _ H1 H2) as [A1 A2].
  destruct (A1 Hn) as (Hn1 & _). destruct (A2 Hn1) as (Hn' & Hc & new & He & Hnew).
  split_and!; [done|done|by exists new|]. rewrite He, List.filter_app.
  rewrite (filter_none (up_to c n) new); [by rewrite app_nil_r|]. intros r Hr. unfold up_to.
  destruct (bool_decide _) eqn:E; [|done]. to_prop. cbn. specialize (Hnew r Hr). rewrite E in Hnew. lia.
Qed.

(** Reading page by page from a cursor. *)
Fixpoint read_pages (fuel : nat) (c : jsstr) (since : Z) (limit : nat) (db : Db) : list EventRow :=
  match fuel with
  | O => []
  | S f =>
      let p := readTranscriptEvents c (Some since) None (Some limit) db in
      page_events p ++ if hasMore p then read_pages f c (nextSince p) limit db else []
  end.

Definition after (c : jsstr) (since : Z) (r : EventRow) : bool :=
  bool_decide (ev_conversationId r = c) && (since <? ev_seq r).

(** The conversation's events beyond a number, in their order. *)
Definition tail (c : jsstr) (since : Z) (db : Db) : list EventRow :=
  order_by ev_seq (List.filter (after c since) (turnEvents db)).

Lemma NoDup_tail c since db : numbered db -> NoDup (map ev_seq (tail c since db)).
Proof.
  intros [Hd _]. unfold tail.
  assert (NoDup (map ev_seq (List.filter (after c since) (turnEvents db)))) as H.
  { induction (turnEvents db) as [|r l IH]; cbn in *; [constructor|]. apply NoDup_cons in Hd as [Hk Hd].
    destruct (after c since r) eqn:E; [|by apply IH]. cbn. apply NoDup_cons. split; [|by apply IH].
    intros (r' & Hs & [Hr' E']%elem_of_lfilter)%elem_of_lmap. apply Hk. apply elem_of_lmap. exists r'. split; [|done].
    unfold after in E, E'. rewrite andb_true_iff, bool_decide_eq_true in E, E'. unfold row_key. f_equal; [|done].
    destruct E as [-> _], E' as [-> _]. done. }
  by rewrite (Permutation_map ev_seq (order_by_Permutation ev_seq _)).
Qed.

Lemma tail_from c since x l1 l2 db :
  numbered db -> tail c since db = l1 ++ x :: l2 -> tail c (ev_seq x) db = l2.
Proof.
  intros Hn Ht. pose proof (NoDup_tail c since db Hn) as Hd. rewrite Ht in Hd.
  pose proof (order_by_sorted ev_seq (List.filter (after c since) (turnEvents db))) as Hs.
  fold (tail c since db) in Hs. rewrite Ht in Hs.
  rewrite <- (filter_above ev_seq l1 x l2 Hs Hd), <- Ht. unfold tail. rewrite <- order_by_filter. f_equal.
  rewrite filter_filter_comp. apply filter_ext_in. intros r Hr.
  assert (x ∈ tail c since db) as Hx by (rewrite Ht; apply elem_of_app; right; by left).
  apply order_by_elem_of, elem_of_lfilter in Hx as [_ Hx]. unfold after in *. apply andb_true_iff in Hx as [_ Hx].
  destruct (bool_decide (ev_conversationId r = c)); cbn; [|done]. lia.
Qed.

(** C32: paging through a conversation's transcript from any cursor, with any page
    size of at least one, ends and gives every event beyond the cursor once,
    in order. *)
Theorem transcript_pages fuel c since limit db :
  numbered db -> (1 <= limit)%nat -> (length (tail c since db) < fuel)%nat ->
  read_pages fuel c since limit db = tail c since db.
Proof.
  intros Hn Hl. revert since. induction fuel as [|f IH]; intros since Hf; [lia|]. cbn [read_pages].
  set (m := Nat.min limit 500).
  assert (readTranscriptEvents c (Some since) None (Some limit) db =
    mkPage (take m (tail c since db))
      (match last (take m (tail c since db)) with Some r => ev_seq r | None => since end)
      (m <? length (tail c since db))%nat) as ->.
  { unfold readTranscriptEvents. cbn [default Datatypes.id]. fold m.
    rewrite (filter_ext_in _ (after c since)); [|intros r _; unfold after; by rewrite andb_true_r].
    fold (tail c since db).
    assert (take m (take (S m) (tail c since db)) = take m (tail c since db)) as Ht by (rewrite take_take; f_equal; lia).
    assert ((m <? length (take (S m) (tail c since db))) = (m <? length (tail c since db)))%nat as Hh.
    { rewrite length_take. destruct (Nat.ltb_spec m (length (tail c since db))); [apply Nat.ltb_lt|apply Nat.ltb_ge]; lia. }
    cbv zeta. by rewrite Ht, Hh. }
  cbn [page_events hasMore nextSince]. destruct (Nat.ltb_spec m (length (tail c since db))) as [Hm|Hm].
  - destruct m as [|k] eqn:Em; [lia|]. destruct (lookup_lt_is_Some_2 (tail c since db) k ltac:(lia)) as [x Hx].
    pose proof (take_drop_middle _ _ _ Hx) as Hmid. rewrite (take_S_r _ _ _ Hx), last_snoc.
    rewrite IH; rewrite (tail_from c since x _ _ db Hn (eq_sym Hmid)).
    + rewrite <- Hmid at 3. by rewrite <- app_assoc.
    + rewrite length_drop. lia.
  - rewrite take_ge by lia. by rewrite app_nil_r.
Qed.

(** ** What a batch does *)

Lemma bump_seq_fits c n db :
  counter db c + Z.of_nat n < 2 ^ 31 ->
  exists db1, bump_seq c n db = (inl (counter db c + Z.of_nat n), db1) /\ turns db1 = turns db /\ effects db1 = effects db.
Proof.
  intros Hlt. unfold bump_seq. fold (counter db c). rewrite (proj2 (Z.ltb_lt _ _) Hlt). by eexists.
Qed.

(** The turns after a batch: the start, then the joins. *)
Definition after_batch (e : Env) (c i : jsstr) (clean : list AgentEvent) (ts : gmap jsstr Turn) : gmap jsstr Turn :=
  let started :=
    if existsb is_started clean
    then updated (fun t => is_id i t && has_status [Dispatched] t) (start_data e) ts else ts in
  match joined_ids clean with
  | [] => started
  | ids => updated (joins c i ids) (client e (join_data e)) started
  end.

Lemma start_fits e i db :
  index_ok (turns db) = true ->
  update_turns (fun t => is_id i t && has_status [Dispatched] t) (start_data e) db =
    (inl (map (start_data e) (List.filter (fun t => is_id i t && has_status [Dispatched] t) (rows (turns db)))),
     set_turns (updated (fun t => is_id i t && has_status [Dispatched] t) (start_data e) (turns db)) db) /\
  index_ok (updated (fun t => is_id i t && has_status [Dispatched] t) (start_data e) (turns db)) = true.
Proof.
  intros Hi. apply update_fits; [done|]. intros t Hc. apply andb_true_iff in Hc as [_ Hc]. split; [done|].
  intros _. by apply (has_status_mono _ ACTIVE_TURN_STATUSES) in Hc.
Qed.

Lemma join_fits e c i ids db :
  index_ok (turns db) = true ->
  update_turns (joins c i ids) (client e (join_data e)) db =
    (inl (map (client e (join_data e)) (List.filter (joins c i ids) (rows (turns db)))),
     set_turns (updated (joins c i ids) (client e (join_data e)) (turns db)) db) /\
  index_ok (updated (joins c i ids) (client e (join_data e)) (turns db)) = true.
Proof. intros Hi. by apply update_fits. Qed.

(** The last statements of the transaction never fail. *)
Lemma batch_turns {Y} e c i clean db db2 (k : Db -> (Y + Exn) * Db) :
  index_ok (turns db2) = true ->
  within (if existsb is_started clean
          then update_turns (fun t => is_id i t && has_status [Dispatched] t) (start_data e) db2
          else (inl [], db2)) db (fun _ db3 =>
    within (match joined_ids clean with
            | [] => (inl [], db3)
            | ids => update_turns (joins c i ids) (client e (join_data e)) db3
            end) db (fun _ db4 => k db4)) =
  k (set_turns (after_batch e c i clean (turns db2)) db2).
Proof.
  intros Hi. unfold after_batch.
  set (db3 := set_turns (if existsb is_started clean
     then updated (fun t => is_id i t && has_status [Dispatched] t) (start_data e) (turns db2) else turns db2) db2).
  assert (index_ok (turns db3) = true /\ exists rs, (if existsb is_started clean
          then update_turns (fun t => is_id i t && has_status [Dispatched] t) (start_data e) db2
          else (inl [], db2)) = (inl rs, db3)) as [Hi3 [rs ->]].
  { unfold db3. destruct (start_fits e i db2 Hi) as [E Hi2]. destruct (existsb _ _).
    - split; [done|]. by eexists.
    - split; [done|]. exists []. by destruct db2. }
  unfold within. destruct (joined_ids clean) as [|f ids]; [done|].
  destruct (join_fits e c i (f :: ids) db3 Hi3) as [-> _]. done.
Qed.

Lemma engaged_same b e s db :
  let db' := if b : bool then db else engage e s db in
  turns db' = turns db /\ turnEvents db' = turnEvents db /\ effects db' = effects db /\
  (forall c, counter db' c = counter db c).
Proof. cbn. unfold engage, update_sandbox. case_tests; done. Qed.

Lemma apply_batch_accepted e r c i clean src db :
  index_ok (turns db) = true -> numbered db -> turnBelongsToReporter r c i db = Some src ->
  counter db c + Z.of_nat (length clean) < 2 ^ 31 ->
  let numbers := number_events c i (counter db c + 1) clean in
  exists db', apply_batch r c i clean e db = (inl (Some numbers.*2), db') /\
    turnEvents db' = turnEvents db ++ (List.filter (fun p => DURABILITY p.1) numbers).*2 /\
    turns db' = after_batch e c i clean (turns db) /\ effects db' = effects db /\
    counter db' c = counter db c + Z.of_nat (length clean).
Proof.
  intros Hi Hn Hb Hlt numbers. unfold apply_batch. rewrite Hb.
  destruct (bump_seq_fits c (length clean) db Hlt) as (db1 & E1 & T1 & F1). rewrite E1. unfold within at 1.
  pose proof (bump_seq_spec _ _ _ _ _ E1) as Hbump.
  destruct (append_numbered c i clean db _ db1 Hbump Hn _ (durable_rows _)) as [E2 _].
  replace (counter db c + Z.of_nat (length clean) - Z.of_nat (length clean) + 1) with (counter db c + 1) in * by lia.
  fold numbers in E2 |- *. unfold within at 1. rewrite E2.
  set (stored := (List.filter (fun p => DURABILITY p.1) numbers).*2) in *.
  destruct Hbump as (_ & Ev & Hc). rewrite batch_turns by (cbn; by rewrite T1).
  eexists. split; [reflexivity|].
  edestruct (engaged_same (isPlatformJobRun src) e (sandboxId r)) as (A & B & C & D). rewrite A, B, C, D. cbn.
  rewrite Ev, F1, T1. split_and!; [done|done|done|].
  change (counter db1 c = counter db c + Z.of_nat (length clean)). rewrite Hc. by rewrite bool_decide_true.
Qed.

Lemma event_payload_strings event :
  forallb Store.storable_text (Store.strings (event_json (Store.storable_event event))) = true.
Proof. rewrite storable_event_json. apply storable_spec. Qed.

(** A batch is all or nothing. A reporter that does not host the turn is
    answered false and nothing changes. From one that does, while the
    conversation's 32-bit counter has room, the batch is accepted whatever it
    carries: its events get the next numbers in order, the durable ones are
    stored, all of them are published after the commit, their text is such that the
    database accepts it, the turn has started if the batch says so, and the
    follow-ups it says were read are joined. *)
Theorem applyTurnEvents_spec es r c i events db :
  index_ok (turns db) = true -> numbered db -> events <> [] ->
  match turnBelongsToReporter r c i db with
  | None => run es (applyTurnEvents r c i events) db = (inl false, db)
  | Some _ =>
      counter db c + Z.of_nat (length events) < 2 ^ 31 ->
      let clean := map Store.storable_event events in
      let numbers := number_events c i (counter db c + 1) clean in
      exists db', run es (applyTurnEvents r c i events) db = (inl true, db') /\
        turnEvents db' = turnEvents db ++ (List.filter (fun p => DURABILITY p.1) numbers).*2 /\
        effects db' = effects db ++ [published c numbers.*2] /\
        turns db' = after_batch (es 0%nat) c i clean (turns db) /\
        counter db' c = counter db c + Z.of_nat (length events) /\
        (forall row, row ∈ numbers.*2 -> forallb Store.storable_text (Store.strings (ev_payload row)) = true)
  end.
Proof.
  intros Hi Hn He. destruct events as [|ev events]; [done|]. set (clean := map Store.storable_event (ev :: events)).
  destruct (turnBelongsToReporter r c i db) as [src|] eqn:Hb.
  - cbv zeta. intros Hlt. set (numbers := number_events c i (counter db c + 1) clean).
    destruct (apply_batch_accepted (es 0%nat) r c i clean src db Hi Hn Hb) as (db' & E & A & B & C & D).
    { unfold clean. by rewrite length_map. }
    exists (add_effect (published c numbers.*2) db'). split_and!; [|done|cbn; by rewrite C|done| |].
    + unfold applyTurnEvents. rewrite run_exec. fold clean. by rewrite E.
    + cbn. unfold clean in D. rewrite length_map in D. exact D.
    + intros row Hrow. unfold numbers, number_events in Hrow. apply list_elem_of_fmap in Hrow as ([x y] & -> & Hrow).
      apply list_elem_of_lookup in Hrow as [k Hk]. rewrite list_lookup_imap in Hk.
      apply fmap_Some in Hk as (z & Hz & [= -> ->]). cbn. unfold clean in Hz.
      rewrite list_lookup_fmap in Hz. apply fmap_Some in Hz as (z' & _ & ->). apply event_payload_strings.
  - unfold applyTurnEvents. rewrite run_exec. unfold apply_batch. by rewrite Hb.
Qed.
End Transcript.

(** ** Witnesses *)

Section Witness.
#[local] Existing Instances clear_world sample_windows.

Lemma fresh_numbered : numbered fresh_db.
Proof. split; [constructor|]. intros r Hr. by apply elem_of_nil in Hr. Qed.

(** The day's state: one event, numbered 1. *)
Definition evening : Db := serve a_day fresh_db.

Lemma evening_numbered : numbered evening.
Proof.
  destruct (pool_serve service a_day fresh_db) as [ps Hrun]; [unfold a_day; serves|].
  exact (proj1 (pool_respects appends _ _ _ Hrun fresh_numbered)).
Qed.

Lemma transcript_tail_witness :
  exists ps ps' db', pool_run service ([], fresh_db) (ps, evening) /\ pool_run service (ps, evening) (ps', db') /\
    counter evening (js "c1") = 1 /\ counter db' (js "c1") = 2 /\
    List.filter (up_to (js "c1") 1) (turnEvents db') = List.filter (up_to (js "c1") 1) (turnEvents evening).
Proof.
  destruct (pool_serve service a_day fresh_db) as [ps Hrun]; [unfold a_day; serves|].
  destruct (pool_serve_from service ps [begins 9000 reporter1 "c1" "t1"] evening) as [ps' Hrun']; [unfold a_day; serves|].
  exists ps, ps', (serve [begins 9000 reporter1 "c1" "t1"] evening).
  split; [exact Hrun|]. split; [exact Hrun'|]. split; [vm_compute; reflexivity|]. split; [vm_compute; reflexivity|].
  refine (proj2 (proj2 (proj2 (transcript_tail _ _ _ _ _ (js "c1") 1 fresh_numbered Hrun Hrun' _)))). vm_compute. discriminate.
Defined.

Lemma transcript_pages_witness :
  (length (tail (js "c1") 0 evening) < 2)%nat /\ read_pages 2 (js "c1") 0 1 evening = tail (js "c1") 0 evening.
Proof.
  split; [vm_compute; lia|]. apply (transcript_pages 2 (js "c1") 0 1 evening evening_numbered); [lia|vm_compute; lia].
Defined.

Lemma applyTurnEvents_spec_witness :
  index_ok (turns evening) = true /\
  exists db', run (at_time 9000 "-") (applyTurnEvents reporter1 (js "c1") (js "t1") [turn_done None]) evening = (inl true, db') /\
    counter db' (js "c1") = 2.
Proof.
  assert (index_ok (turns evening) = true) as Hi by (vm_compute; reflexivity). split; [exact Hi|].
  pose proof (applyTurnEvents_spec (at_time 9000 "-") reporter1 (js "c1") (js "t1") [turn_done None] evening Hi
    evening_numbered ltac:(discriminate)) as H.
  assert (turnBelongsToReporter reporter1 (js "c1") (js "t1") evening = Some (js "web")) as E by (vm_compute; reflexivity).
  rewrite E in H. destruct (H ltac:(vm_compute; reflexivity)) as (db' & Hr & _ & _ & _ & Hc & _).
  exists db'. split; [exact Hr|]. rewrite Hc. vm_compute. reflexivity.
Defined.
End Witness.
