(* ===== verification/TurnSettle.v ===== *)
(** * An automation is settled at most once

    A closed run's automation is settled after the close has committed, by the
    program that made the close. A program therefore owes settlements: exactly
    of the turns it has itself moved to a terminal status. No two programs of
    a pool can owe the same one, because a finished turn is never finished
    again. *)
From S2P Require Import Prelude JsJson JsBytes TurnEvents TurnText TurnDb TurnService TurnDoors TurnRuns TurnRows.
From S2P Require Import TurnPrograms TurnLifecycle TurnSample.
Local Open Scope Z_scope.

(** The turns settled, in order. *)
Definition settled_ids (xs : list Effect) : list jsstr :=
  omap (fun x => match x with settled i _ => Some i | published _ _ => None end) xs.

Definition finished (db : Db) (i : jsstr) : Prop := exists t, turns db !! i = Some t /\ is_final (status t) = true.

(** The turns a statement finished. *)
Definition newly (db db' : Db) (i : jsstr) : Prop :=
  (exists t, turns db !! i = Some t /\ is_final (status t) = false) /\ finished db' i.

Section Settle.
Context {W : World} {T : Windows}.

(** ** Owing *)

(** A program that may still settle the turns [toks]: every statement settles
    only turns it holds, each once, and what it holds afterwards is what is
    left and what it has just finished; [Q] is what it holds when it ends. *)
Fixpoint owes {A} (toks : jsstr -> Prop) (p : prog A) (Q : A -> (jsstr -> Prop) -> Prop) : Prop :=
  match p with
  | Ret a => Q a toks
  | Throw _ => True
  | Stmt f k => forall e db, valid db -> (forall i, toks i -> finished db i) ->
      exists new toks',
        effects (f e db).2 = effects db ++ new /\
        NoDup (settled_ids new) /\ (forall i, i ∈ settled_ids new -> toks i) /\
        (forall i, toks' i -> toks i /\ i ∉ settled_ids new \/ newly db (f e db).2 i) /\
        owes toks' (k (f e db).1) Q
  end.

(** Holding anything is fine at the end. *)
Definition anyway {A} : A -> (jsstr -> Prop) -> Prop := fun _ _ => True.

Lemma owes_bind {A B} toks (p : prog A) (g : A -> prog B) Q Q' :
  owes toks p Q -> (forall a toks', Q a toks' -> owes toks' (g a) Q') -> owes toks (p ≫= g) Q'.
Proof.
  intros Hp Hg. unfold mbind, prog_bind. revert toks Hp. induction p as [a|x|X f k IH]; cbn; intros toks Hp;
    [by apply Hg|done|].
  intros e db Hv Ht. destruct (Hp e db Hv Ht) as (new & toks' & A1 & A2 & A3 & A4 & A5).
  exists new, toks'. split_and!; [done|done|done|done|]. by apply IH.
Qed.

Lemma owes_mono {A} toks (p : prog A) Q Q' :
  (forall a toks', Q a toks' -> Q' a toks') -> owes toks p Q -> owes toks p Q'.
Proof.
  intros HQ. revert toks. induction p as [a|x|X f k IH]; cbn; intros toks Hp; [by apply HQ|done|].
  intros e db Hv Ht. destruct (Hp e db Hv Ht) as (new & toks' & A1 & A2 & A3 & A4 & A5).
  exists new, toks'. split_and!; [done|done|done|done|]. by apply IH.
Qed.

Lemma owes_catch {A} toks (p : prog A) h Q :
  owes toks p Q -> (forall x toks', owes toks' (h x) Q) -> owes toks (catch p h) Q.
Proof.
  intros Hp Hh. revert toks Hp. induction p as [a|x|X f k IH]; cbn; intros toks Hp; [done|apply Hh|].
  intros e db Hv Ht. destruct (Hp e db Hv Ht) as (new & toks' & A1 & A2 & A3 & A4 & A5).
  exists new, toks'. split_and!; [done|done|done|done|]. by apply IH.
Qed.

(** Holding more than it needs. *)
Lemma owes_more {A} (toks toks2 : jsstr -> Prop) (p : prog A) :
  (forall i, toks i -> toks2 i) -> owes toks p anyway -> owes toks2 p anyway.
Proof.
  intros Hle. destruct p as [a|x|X f k]; cbn; [done|done|]. intros Hp e db Hv Ht.
  destruct (Hp e db Hv) as (new & toks' & A1 & A2 & A3 & A4 & A5); [auto|].
  exists new, toks'. split_and!; [done|done|auto| |done]. intros i [[Hi Hn]|Hi]%A4; auto.
Qed.

(** Statements that settle nothing. *)
Definition quiet (db db' : Db) : Prop := exists new, effects db' = effects db ++ new /\ settled_ids new = [].

#[export] Instance quiet_preorder : PreOrder quiet.
Proof.
  split; [intros db; exists []; by rewrite app_nil_r|]. intros a b c (n1 & E1 & S1) (n2 & E2 & S2).
  exists (n1 ++ n2). split; [by rewrite E2, E1, app_assoc|]. unfold settled_ids in *. by rewrite omap_app, S1, S2.
Qed.

Lemma quiet_same db db' : effects db' = effects db -> quiet db db'.
Proof. intros E. exists []. by rewrite app_nil_r. Qed.

Lemma owes_quiet {A} toks (p : prog A) : always quiet p -> owes toks p (fun _ toks' => toks' = toks).
Proof.
  induction p as [a|x|X f k IH]; cbn; intros Hp; [done|done|]. intros e db Hv Ht.
  destruct (Hp e db) as [(new & He & Hn) Hk]. exists new, toks. rewrite Hn.
  split_and!; [done|constructor|by intros i Hi%elem_of_nil| |by apply IH].
  intros i Hi. left. split; [done|]. apply not_elem_of_nil.
Qed.

(** Settling a turn that is held. *)
Lemma owes_settle toks i outcome :
  toks i -> owes toks (settleAutomationRun i outcome) (fun _ toks' => toks' = fun j => toks j /\ j <> i).
Proof.
  intros Hi e db Hv Ht. exists [settled i outcome], (fun j => toks j /\ j <> i). cbn.
  split_and!; [done|apply NoDup_singleton|by intros j ->%list_elem_of_singleton| |done].
  intros j [Hj Hne]. left. split; [done|]. by intros ->%list_elem_of_singleton.
Qed.

(** An update that closes the rows it selects: what it answers is held. *)
Lemma owes_close toks cond data :
  (forall e db t, cond e db t = true -> is_final (status t) = false) ->
  (forall e t, id (data e t) = id t /\ is_final (status (data e t)) = true) ->
  owes toks (rawUpdate cond data)
    (fun rs toks' => (forall i, toks i -> toks' i) /\ NoDup (map id rs) /\ forall t, t ∈ rs -> toks' (id t) /\ exists e db t0, cond e db t0 = true /\ id t = id t0).
Proof.
  intros Hc Hd e db Hv Ht. exists [].
  destruct (update_turns_cases (cond e db) (data e) db) as [[_ ->]|[_ ->]]; cbn.
  - exists (fun i => toks i \/ newly db (set_turns (updated (cond e db) (data e) (turns db)) db) i).
    rewrite app_nil_r. split_and!; [done|constructor|by intros i Hi%elem_of_nil| |by left| |].
    + intros i [Hi|Hi]; [left; split; [done|apply not_elem_of_nil]|by right].
    + destruct Hv as [Hr _]. rewrite map_map. rewrite (map_ext _ id) by (intros t; apply Hd).
      assert (NoDup (map id (rows (turns db)))) as Hnd.
      { assert (map id (rows (turns db)) = (map_to_list (turns db)).*1) as ->; [|apply NoDup_fst_map_to_list].
        unfold rows. rewrite map_map. apply map_ext_in. intros [i t] Hin%list_elem_of_In.
        apply elem_of_map_to_list in Hin. by apply Hr in Hin as [? _]. }
      clear Hr. induction (rows (turns db)) as [|t l IH]; cbn; [constructor|]. cbn in Hnd.
      apply NoDup_cons in Hnd as [Hn Hnd]. destruct (cond e db t); cbn; [|by apply IH].
      apply NoDup_cons. split; [|by apply IH]. intros (t' & Hid & [Ht' _]%elem_of_lfilter)%elem_of_lmap.
      apply Hn. apply elem_of_lmap. by exists t'.
    + intros t (t0 & -> & [Hin Hcond]%elem_of_lfilter)%elem_of_lmap. destruct (Hd e t0) as [-> Hterm].
      split; [|by exists e, db, t0]. right.
      apply elem_of_rows in Hin as [i Hi]. destruct Hv as [Hr _]. destruct (Hr _ _ Hi) as [<- _].
      split; [exists t0; split; [done|by eapply Hc]|]. exists (data e t0). split; [|done]. cbn.
      rewrite lookup_updated, Hi. cbn. by rewrite Hcond.
  - exists toks. rewrite app_nil_r. split_and!; [done|constructor|by intros i Hi%elem_of_nil| |done].
    intros i Hi. left. split; [done|apply not_elem_of_nil].
Qed.

(** ** Everything but the settling is quiet *)

Lemma quiet_update_turns cond data db : quiet db (update_turns cond data db).2.
Proof. apply update_turns_rel; [apply _|]. intros _. by apply quiet_same. Qed.

Lemma quiet_sandbox s cond data db : quiet db (update_sandbox s cond data db).2.
Proof. unfold update_sandbox. case_match; by apply quiet_same. Qed.

Lemma quiet_within {X Y} db db0 (r : (X + Exn) * Db) (k : X -> Db -> (Y + Exn) * Db) :
  quiet db db0 -> quiet db0 r.2 -> (forall y db1, quiet db db1 -> quiet db (k y db1).2) -> quiet db (within r db k).2.
Proof.
  unfold within. destruct r as [[y|x] db1]; cbn; intros H0 H Hk; [|reflexivity]. apply Hk. by transitivity db0.
Qed.

Lemma quiet_bump_seq c n db : quiet db (bump_seq c n db).2.
Proof. unfold bump_seq. case_match; by apply quiet_same. Qed.

Lemma quiet_insert_events new db : quiet db (insert_events new db).2.
Proof. unfold insert_events. case_match; by apply quiet_same. Qed.

Lemma quiet_insert t db : quiet db (insert_turn t db).2.
Proof. unfold insert_turn. repeat case_match; by apply quiet_same. Qed.

Lemma quiet_bind c i u ids db : quiet db (bindAttachmentsToTurn c i u ids db).2.
Proof.
  unfold bindAttachmentsToTurn. destruct (_ =? 0)%nat; [reflexivity|]. destruct (_ <? _)%nat; [reflexivity|].
  destruct (bind_rows _ _ (attachments db)) as [b t1], (bind_rows _ _ t1) as [f t2].
  case_tests; by apply quiet_same.
Qed.

Lemma quiet_create c message st f origin ids e db : quiet db (insert_with_attachments c message st f origin ids e db).2.
Proof.
  unfold insert_with_attachments. pose proof (quiet_insert (new_turn e c message st origin f) db) as Hi.
  destruct (insert_turn _ db) as [[turn|x] db1]; [|reflexivity]. cbn in Hi. destruct ids as [|i ids]; [done|].
  pose proof (quiet_bind c (id turn) (o_userId origin) (i :: ids) db1) as Hb.
  destruct (bindAttachmentsToTurn _ _ _ _ _) as [[u|x] db2]; [|reflexivity]. cbn in *. by transitivity db1.
Qed.

Lemma quiet_batch r c i clean e db : quiet db (apply_batch r c i clean e db).2.
Proof.
  unfold apply_batch. destruct (turnBelongsToReporter r c i db) as [src|]; [|reflexivity].
  eapply quiet_within; [reflexivity|apply quiet_bump_seq|intros seq db1 H1].
  eapply quiet_within; [exact H1|apply quiet_insert_events|intros u db2 H2].
  eapply quiet_within; [exact H2| |intros rs db3 H3].
  { destruct (existsb _ _); [apply quiet_update_turns|reflexivity]. }
  eapply quiet_within; [exact H3| |intros rs' db4 H4].
  { destruct (joined_ids clean); [reflexivity|apply quiet_update_turns]. }
  cbn. destruct (isPlatformJobRun src); [done|]. transitivity db4; [done|]. apply quiet_sandbox.
Qed.

#[export] Instance quiet_respects : Respects quiet.
Proof.
  split; [apply _|..]; intros; eauto using quiet_update_turns, quiet_create, quiet_sandbox, quiet_batch.
  - unfold update_conversation. case_match; by apply quiet_same.
  - by apply quiet_same.
  - by exists [published c rows].
  - eapply quiet_within; [reflexivity|apply quiet_bump_seq|intros seq db1 H1].
    eapply quiet_within; [exact H1|apply quiet_insert_events|done].
  - unfold materialize. destruct (conv_agent c); [|reflexivity].
    eapply quiet_within; [reflexivity|apply quiet_bump_seq|intros seq db1 H1].
    eapply quiet_within; [exact H1|apply quiet_insert|intros t db2 H2].
    eapply quiet_within; [exact H2|apply quiet_insert_events|done].
Qed.

(** ** The three that settle *)

Lemma owes_skip {A B} toks (p : prog A) (g : A -> prog B) Q :
  always quiet p -> (forall a, owes toks (g a) Q) -> owes toks (p ≫= g) Q.
Proof. intros Hp Hg. eapply owes_bind; [by apply owes_quiet|]. by intros a toks' ->. Qed.

Lemma terminal_of l t : forallb (fun s => negb (is_final s)) l = true -> has_status l t = true -> is_final (status t) = false.
Proof.
  intros Hl Hs. unfold has_status, one_of in Hs. to_prop. apply negb_true_iff. exact (proj1 (forallb_In _ _) Hl _ Hs).
Qed.

(** One update that settles nothing. *)
Ltac quiet_update H := apply (always_updateMany quiet); lawfully H.

Lemma owes_abort_attempt ws i viewer toks : owes toks (abort_attempt ws i viewer) anyway.
Proof.
  unfold abort_attempt, find_turn. apply owes_skip; [apply always_ask, _|]. intros [turn|]; [|done].
  destruct (has_status [Joining] turn).
  { apply owes_skip; [|done]. quiet_update lawful_abort. }
  destruct (negb _); [done|]. destruct (has_status [Queued] turn).
  - eapply owes_bind.
    { apply owes_close; [|done]. intros e db t Hc. apply andb_true_iff in Hc as [_ Hc]. by eapply terminal_of, Hc. }
    cbn beta. intros rs toks' (_ & _ & Hrs). destruct rs as [|t rs]; cbn [length Nat.eqb]; [done|].
    apply owes_skip; [apply (always_sweep quiet)|]. intros _.
    eapply owes_bind; [|done]. apply owes_settle. destruct (Hrs t) as (Ht & e & db & t0 & Hc & Hid); [by left|].
    apply andb_true_iff in Hc as [Hc _]. unfold is_id in Hc. to_prop. congruence.
  - apply owes_skip; [quiet_update lawful_flag|]. intros _.
    apply owes_skip; [apply (always_sweep quiet)|]. intros _.
    apply owes_skip; [quiet_update lawful_flag|]. done.
Qed.

Lemma owes_abort ws i viewer toks : owes toks (abortTurn ws i viewer;; mret ()) anyway.
Proof.
  apply owes_bind with anyway; [|done]. unfold abortTurn. generalize 2%nat as n. intros n. revert toks.
  induction n as [|n IH]; intros toks; cbn [abort_attempts]; [done|].
  apply owes_bind with anyway; [apply owes_abort_attempt|]. intros [a|] toks' _; [done|apply IH].
Qed.

Lemma owes_finish i toks : f_status i ∈ [Done; Failed; Aborted] -> owes toks (finishTurn i) anyway.
Proof.
  intros Hs. unfold finishTurn. set (j := storable_report i). apply owes_skip; [apply (always_recover quiet)|].
  intros [rs|]; [eapply owes_mono; [|apply owes_quiet, (always_notices quiet)]; done|].
  eapply owes_bind.
  { apply owes_close.
    - intros e db t Hc. apply andb_true_iff in Hc as [_ Hc]. unfold closable in Hc.
      destruct (bool_decide _); by eapply terminal_of, Hc.
    - intros e t. unfold client, close_data. split; [by case_match; case_match|].
      assert (status (client e (close_data j e) t) = f_status i) as Hst by (unfold client, close_data; by case_match; case_match).
      change (is_final (status (client e (close_data j e) t)) = true). rewrite Hst.
      rewrite !elem_of_cons in Hs. by destruct Hs as [->|[->|[->|Hs%elem_of_nil]]]. }
  cbn beta. intros closed toks' (_ & _ & Hc). destruct closed as [|t closed].
  { eapply owes_mono; [|apply owes_quiet, (always_salvage quiet)]. done. }
  unfold afterClose. apply owes_skip; [apply (always_persist quiet)|]. intros _.
  apply owes_skip; [case_match; [done|]; walk; quiet_update lawful_join|]. intros _.
  apply owes_skip; [case_match; [|done]; walk; quiet_update lawful_abort|]. intros _.
  apply owes_skip.
  { apply always_catch; [|done]. apply always_bind; [apply (always_promote quiet)|done]. }
  intros _. eapply owes_mono; [|apply owes_settle]; [done|].
  destruct (Hc t) as (Ht & e & db & t0 & Hcond & Hid); [by left|].
  apply andb_true_iff in Hcond as [Hcond _]. unfold own, is_id in Hcond. rewrite !andb_true_iff in Hcond.
  destruct Hcond as [[Hi _] _]. to_prop. congruence.
Qed.

(** Settling a list of different turns that are held. *)
Lemma owes_settleSwept toks rs :
  NoDup (map sw_turnId rs) -> (forall s, s ∈ rs -> toks (sw_turnId s)) -> owes toks (settleSweptTurns rs) anyway.
Proof.
  revert toks. unfold settleSweptTurns. induction rs as [|s rs IH]; intros toks Hn Ht; [done|]. cbn [map each] in *. apply NoDup_cons in Hn as [Hs Hn].
  eapply owes_bind; [apply owes_settle, Ht; by left|]. cbn beta. intros _ toks' ->. apply IH; [done|].
  intros s' Hs'. split; [apply Ht; by right|]. intros He. apply Hs. rewrite <- He. apply elem_of_lmap. by exists s'.
Qed.

Lemma owes_sweep toks cond data (f : Turn -> SweptTurn) :
  (forall t, sw_turnId (f t) = id t) ->
  (forall e db t, cond e db t = true -> is_final (status t) = false) ->
  (forall e t, id (data e t) = id t /\ is_final (status (data e t)) = true) ->
  owes toks (quietly (rs ← (rs ← rawUpdate cond data; mret (map f rs)); settleSweptTurns rs)) anyway.
Proof.
  intros Hf Hc Hd. apply owes_catch; [|done]. eapply owes_bind.
  - eapply owes_bind; [apply owes_close; eassumption|]. cbn beta. intros rs toks' (_ & Hn & Hrs).
    instantiate (1 := fun rs toks' => NoDup (map sw_turnId rs) /\ forall s, s ∈ rs -> toks' (sw_turnId s)).
    cbn. split.
    + rewrite map_map. by rewrite (map_ext _ id).
    + intros s (t & -> & Ht)%elem_of_lmap. rewrite Hf. by apply Hrs.
  - cbn. intros rs toks' [Hn Hrs]. by apply owes_settleSwept.
Qed.

Lemma owes_sweeps toks : owes toks runPollSweeps anyway.
Proof.
  unfold runPollSweeps, follow_up_sweeps. apply owes_bind with anyway.
  { apply owes_sweep; [intros t; unfold ceiling_copy; by case_match| |].
    - intros e db t Hc. unfold past_ceiling in Hc. apply andb_true_iff in Hc as [Hc _].
      by apply (terminal_of ACTIVE_TURN_STATUSES).
    - intros e t. unfold reclaim_data, ceiling_copy. by case_match. }
  intros _ toks1 _. apply owes_bind with anyway.
  { apply owes_sweep; [done| |done]. intros e db t Hc. unfold stalled in Hc. apply andb_true_iff in Hc as [Hc _].
    by apply (terminal_of [Running]). }
  intros _ toks2 _. apply owes_skip.
  { unfold quietly, promoteParkedFollowUps, listConversationsWithParkedFollowUps. pose proof (always_promote quiet). walk. }
  intros _. eapply owes_mono; [|apply owes_quiet]; [done|]. unfold quietly. pose proof (always_expire quiet). walk.
Qed.

Lemma service_owes p : service p -> owes (fun _ => False) p anyway.
Proof.
  intros [(ws & i & viewer & ->)|[(i & Hs & ->)|[->|Hq]]]%(service_settling quiet);
    [apply owes_abort|by apply owes_finish|apply owes_sweeps|].
  eapply owes_mono; [|by apply owes_quiet]. done.
Qed.

(** ** The pool *)

(** What each program holds: finished turns, not settled yet, no two programs
    the same. *)
Record holdings (ps : list (prog ())) (db : Db) (held : list (jsstr -> Prop)) : Prop := mkHoldings {
  h_owes : Forall2 (fun p toks => owes toks p anyway) ps held;
  h_apart : forall a b ta tb i, held !! a = Some ta -> held !! b = Some tb -> ta i -> tb i -> a = b;
  h_finished : forall a ta i, held !! a = Some ta -> ta i -> finished db i;
  h_unsettled : forall a ta i, held !! a = Some ta -> ta i -> i ∉ settled_ids (effects db);
}.

Record books (ps : list (prog ())) (db : Db) : Prop := mkBooks {
  b_valid : valid db;
  b_evolve : Forall (always evolves) ps;
  b_once : NoDup (settled_ids (effects db));
  b_settled : forall i, i ∈ settled_ids (effects db) -> finished db i;
  b_held : exists held, holdings ps db held;
}.

Lemma finished_evolves db db' i : evolves db db' -> valid db -> finished db i -> finished db' i.
Proof.
  intros He Hv (t & Ht & Hterm). destruct (He Hv) as [_ Hl]. destruct (Hl i t Ht) as (t' & Ht' & _ & _ & M).
  exists t'. split; [done|]. destruct M as [[Hs _]|[_ _ F]]; [by rewrite Hs|].
  specialize (F Hterm). unfold verdict in F. injection F as -> _ _ _. done.
Qed.

Lemma settled_ids_app a b : settled_ids (a ++ b) = settled_ids a ++ settled_ids b.
Proof. apply omap_app. Qed.

Lemma books_start ps db p : service p -> books ps db -> books (ps ++ [p]) db.
Proof.
  intros Hp [Hv He Ho Hs [held [H1 H2 H3 H4]]]. split; [done| |done|done|].
  { apply Forall_app. split; [done|]. constructor; [|done]. by apply service_always; [apply _|apply _|]. }
  exists (held ++ [fun _ => False]).
  assert (forall a ta, (held ++ [fun _ => False]) !! a = Some ta -> held !! a = Some ta \/ ta = fun _ => False) as Hl.
  { intros a ta [Ha|[_ Ha]]%lookup_app_Some; [by left|right]. by apply list_lookup_singleton_Some in Ha as [_ <-]. }
  split.
  - apply Forall2_app; [done|]. constructor; [by apply service_owes|constructor].
  - intros a b ta tb i [Ha| ->]%Hl [Hb| ->]%Hl; [by eapply H2|done..].
  - intros a ta i [Ha| ->]%Hl; [by eapply H3|done].
  - intros a ta i [Ha| ->]%Hl; [by eapply H4|done].
Qed.

Lemma books_lost ps db n : books ps db -> books (take n ps ++ drop (S n) ps) db.
Proof.
  intros [Hv He Ho Hs [held [H1 H2 H3 H4]]]. split; [done| |done|done|].
  { apply Forall_app. split; [by apply Forall_take|by apply Forall_drop]. }
  exists (take n held ++ drop (S n) held).
  set (old := fun a => if (a <? n)%nat then a else S a).
  assert (forall a ta, (take n held ++ drop (S n) held) !! a = Some ta -> held !! old a = Some ta) as Hl.
  { intros a ta. rewrite <- delete_take_drop. unfold old. intros Ha. destruct (Nat.ltb_spec a n).
    - by rewrite list_lookup_delete_lt in Ha.
    - by rewrite list_lookup_delete_ge in Ha. }
  assert (forall a b, old a = old b -> a = b) as Hinj.
  { intros a b. unfold old. destruct (Nat.ltb_spec a n), (Nat.ltb_spec b n); lia. }
  split.
  - apply Forall2_app; [by apply Forall2_take|by apply Forall2_drop].
  - intros a b ta tb i Ha%Hl Hb%Hl Hi Hj. apply Hinj. by eapply H2.
  - intros a ta i Ha%Hl. by eapply H3.
  - intros a ta i Ha%Hl. by eapply H4.
Qed.

Lemma books_stmt {X} n (f : Env -> Db -> X * Db) k ps db e :
  ps !! n = Some (Stmt f k) -> books ps db -> books (<[n := k (f e db).1]> ps) (f e db).2.
Proof.
  intros Hn [Hv He Ho Hs [held [H1 H2 H3 H4]]].
  destruct (Forall2_lookup_l _ _ _ _ _ H1 Hn) as (toks & Htoks & Hp). cbn in Hp.
  destruct (Hp e db Hv) as (new & toks' & E1 & E2 & E3 & E4 & E5); [by intros i; eapply H3|].
  pose proof (Forall_lookup_1 _ _ _ _ He Hn) as Hev. cbn in Hev. destruct (Hev e db) as [Hstep Hk].
  destruct (Hstep Hv) as [Hv' _].
  assert (forall i, finished db i -> finished (f e db).2 i) as Hfin by (intros i; by apply finished_evolves).
  assert (forall i, newly db (f e db).2 i -> ~ finished db i) as Hnew.
  { intros i [(t & Ht & Hf) _] (t' & Ht' & Hf'). congruence. }
  assert (forall i, i ∈ settled_ids new -> finished db i) as Hnf by (intros i Hi; by eapply H3, E3).
  split; [done|by apply Forall_insert|..].
  - rewrite E1, settled_ids_app. apply NoDup_app. split_and!; [done| |done]. intros i Hi Hi2. exact (H4 _ _ _ Htoks (E3 _ Hi2) Hi).
  - rewrite E1, settled_ids_app. intros i [Hi|Hi]%elem_of_app; auto.
  - exists (<[n := toks']> held).
    assert (forall a ta i, <[n := toks']> held !! a = Some ta -> ta i ->
      (exists tb, held !! a = Some tb /\ tb i /\ i ∉ settled_ids new) \/ a = n /\ newly db (f e db).2 i) as Hl.
    { intros a ta i [(<- & <- & _)|[Hne Ha]]%list_lookup_insert_Some Hi.
      - apply E4 in Hi as [[Hi Hi2]|Hi]; [left; by exists toks|by right].
      - left. exists ta. split_and!; [done|done|]. intros Hi2%E3. by apply Hne, (H2 n a toks ta i). }
    split.
    + by apply Forall2_insert.
    + intros a b ta tb i Ha Hb Hi Hj.
      destruct (Hl _ _ _ Ha Hi) as [(ta' & Ha' & Hi' & _)|[-> Hi']], (Hl _ _ _ Hb Hj) as [(tb' & Hb' & Hj' & _)|[-> Hj']];
        [by eapply H2| | |done]; exfalso; eapply Hnew; eauto.
    + intros a ta i Ha Hi. destruct (Hl _ _ _ Ha Hi) as [(tb & Hb & Hj & _)|[_ [_ ?]]]; [|done]. eauto.
    + intros a ta i Ha Hi. rewrite E1, settled_ids_app, not_elem_of_app.
      destruct (Hl _ _ _ Ha Hi) as [(tb & Hb & Hj & Hn2)|[_ Hj]]; [split; [by eapply H4|done]|].
      split; intros Hi2; eapply Hnew; eauto.
Qed.

(** C13: however many programs close, stop and sweep turns at once, whatever is
    lost of them and however late a report arrives, the automation of a turn
    is settled at most once, and only once the turn has finished. *)
Theorem settled_at_most_once db ps db' :
  valid db -> effects db = [] -> pool_run service ([], db) (ps, db') ->
  NoDup (settled_ids (effects db')) /\ (forall i, i ∈ settled_ids (effects db') -> finished db' i).
Proof.
  intros Hv He Hrun. assert (books ps db') as [_ _ Ho Hs _]; [|done].
  assert (books [] db) as Hb.
  { split; [done|done|by rewrite He; constructor|by rewrite He; intros i Hi%elem_of_nil|].
    exists []. split; [constructor|done..]. }
  unfold pool_run in Hrun. remember ([], db) as a eqn:Ha. remember (ps, db') as b eqn:Hbq.
  clear Hv He. assert (books a.1 a.2) as Hba by (by subst). clear Hb Ha.
  revert ps db' Hbq. induction Hrun as [a|a c b Hstep _ IH]; intros ps' db2 ->; [done|].
  apply IH; [|done]. destruct Hstep as [p ps0 db0 Hp|X n f k ps0 db0 e Hi|n ps0 db0]; cbn in *.
  - by apply books_start.
  - by apply books_stmt.
  - by apply books_lost.
Qed.
End Settle.

(** ** Witness, and the order that settles nothing *)

Section Witness.
#[local] Existing Instances clear_world sample_windows.

(** A scheduled run, and its box coming back. *)
Definition cron_origin : TurnOrigin := mkOrigin (js "cron") None None None None.
Definition fires (t : Z) (i : String.string) : (nat -> Env) * prog () :=
  (at_time t i, (createTurn (js "w") (js "c2") (js "run") cron_origin [];; mret ())).
Arguments fires t i%_string_scope.
Definition boots (s : String.string) : (nat -> Env) * prog () := (at_time 0 "-", writeSandbox (js s) (fun _ => up)).
Arguments boots s%_string_scope.

Definition report_of_death : (nat -> Env) * prog () := closes 8000 reporter2 "c2" "t1" Failed (Some (js "agent_restarted")).

Lemma fires_served t i : service (fires t i).2.
Proof. apply call_createTurn. Qed.

Lemma boots_served s : service (boots s).2.
Proof. apply call_sandbox. Qed.

Lemma report_served : service report_of_death.2.
Proof. apply closes_served. rewrite !elem_of_cons. tauto. Qed.

#[local] Hint Resolve fires_served boots_served report_served : served.

(** It starts, its box dies, it is resumed and starts again. *)
Definition resumed_run : list ((nat -> Env) * prog ()) :=
  [fires 1000 "t1"; polls 2000; begins 3000 reporter2 "c2" "t1"; dies 4000 "s2"; boots "s2"; polls 5000;
   begins 6000 reporter2 "c2" "t1"].

Lemma settled_at_most_once_witness :
  exists ps db', pool_run service ([], fresh_db) (ps, db') /\ settled_ids (effects db') = [js "t1"] /\
    NoDup (settled_ids (effects db')).
Proof.
  destruct (pool_serve service (resumed_run ++ [report_of_death; dies 9000 "s2"]) fresh_db) as [ps Hrun].
  { unfold resumed_run. cbn [app]. serves. }
  exists ps, (serve (resumed_run ++ [report_of_death; dies 9000 "s2"]) fresh_db).
  split; [exact Hrun|]. split; [vm_compute; reflexivity|].
  exact (proj1 (settled_at_most_once _ _ _ fresh_valid eq_refl Hrun)).
Defined.

(** The second death closes the run with the same words in both orders of its
    two reports; when the sandbox's own report comes first, the strand door
    fails the turn without settling it, and the late report of the turn finds
    it closed: the schedule never learns of this failure. *)
Example stranded_run_unsettled :
  let finished_first := serve (resumed_run ++ [report_of_death; dies 9000 "s2"]) fresh_db in
  let stopped_first := serve (resumed_run ++ [dies 7000 "s2"; report_of_death]) fresh_db in
  (status_of "t1" finished_first, errorCode <$> row "t1" finished_first, settled_ids (effects finished_first)) =
    (Some Failed, Some (Some (js "agent_restarted")), [js "t1"]) /\
  (status_of "t1" stopped_first, errorCode <$> row "t1" stopped_first, settled_ids (effects stopped_first)) =
    (Some Failed, Some (Some (js "agent_restarted")), []).
Proof. vm_compute. split; reflexivity. Qed.
End Witness.
