(* ===== verification/TurnFence.v ===== *)
(** * The reporter fence

    A sandbox names the conversation and the turn it reports on, and neither
    is to be believed: only its runner's token and its own channel are. What a
    report can touch is its own sandbox's conversations, statement by
    statement, whatever else runs in between. *)
From S2P Require Import Prelude JsJson JsBytes TurnEvents TurnText TurnDb TurnService TurnDoors TurnRuns TurnRows.
From S2P Require Import TurnPrograms TurnTranscript TurnLifecycle TurnSample.
Local Open Scope Z_scope.

Section Fence.
Context {W : World} {T : Windows}.

(** What may leave the database: a batch published to a conversation of the
    reporter's sandbox, the automation settled of a turn of one. *)
Definition own_effect (r : ReporterIdentity) (db : Db) (x : Effect) : Prop :=
  match x with
  | published c _ => hosted r c = true
  | settled i _ => exists t, turns db !! i = Some t /\ hosted r (conversationId t) = true
  end.

(** Nothing outside the conversations of the reporter's sandbox changes: no
    row of a turn, no turn created, no conversation, no other sandbox, no
    attachment; no event is appended or published there, and no automation
    settled of a turn there. *)
Record fenced (r : ReporterIdentity) (db db' : Db) : Prop := mkFenced {
  fenced_turns : forall i t, turns db !! i = Some t -> hosted r (conversationId t) = false -> turns db' !! i = Some t;
  fenced_created : forall i, turns db !! i = None -> turns db' !! i = None;
  fenced_conversations : forall c, hosted r c = false -> conversation db' c = conversation db c;
  fenced_sandboxes : forall s, s <> sandboxId r -> sandbox db' s = sandbox db s;
  fenced_attachments : attachments db' = attachments db;
  fenced_events : exists new, turnEvents db' = turnEvents db ++ new /\
    forall e, e ∈ new -> hosted r (ev_conversationId e) = true;
  fenced_effects : exists new, effects db' = effects db ++ new /\ Forall (own_effect r db) new;
}.

Ltac no_events := exists []; cbn; rewrite app_nil_r; split; [done|by intros ? ?%elem_of_nil].
Ltac no_effects := exists []; cbn; rewrite app_nil_r; split; [done|constructor].

(** A turn hosted later was hosted before. *)
Lemma own_effect_before r db db' x :
  (forall i t, turns db !! i = Some t -> hosted r (conversationId t) = false -> turns db' !! i = Some t) ->
  (forall i, turns db !! i = None -> turns db' !! i = None) -> own_effect r db' x -> own_effect r db x.
Proof.
  intros Ht0 N. destruct x as [c rs|i o]; [done|]. cbn. intros (t & Ht & Hh).
  destruct (turns db !! i) as [t0|] eqn:E; [|apply N in E; congruence]. exists t0. split; [done|].
  destruct (hosted r (conversationId t0)) eqn:H0; [done|]. specialize (Ht0 i t0 E H0). congruence.
Qed.

#[export] Instance fenced_preorder r : PreOrder (fenced r).
Proof.
  split.
  - intros db. split; try done; [no_events|no_effects].
  - intros a b c [T1 N1 C1 S1 A1 (n1 & E1 & H1) (m1 & F1 & P1)] [T2 N2 C2 S2 A2 (n2 & E2 & H2) (m2 & F2 & P2)]. split; auto.
    + intros x Hx. rewrite C2, C1; auto.
    + intros s Hs. rewrite S2, S1; auto.
    + congruence.
    + exists (n1 ++ n2). split; [by rewrite E2, E1, app_assoc|]. intros e [He|He]%elem_of_app; auto.
    + exists (m1 ++ m2). split; [by rewrite F2, F1, app_assoc|]. apply Forall_app. split; [done|].
      eapply Forall_impl; [exact P2|]. intros x. by apply own_effect_before.
Qed.

(** ** The kinds of writes *)

Lemma fenced_update_turns r cond data db :
  (forall i t, turns db !! i = Some t -> cond t = true -> hosted r (conversationId t) = true) ->
  fenced r db (update_turns cond data db).2.
Proof.
  intros Hc. apply (update_turns_rel (fenced r)). intros _. split; cbn; try done; [| |no_events|no_effects].
  - intros i t Ht Hh. rewrite lookup_updated, Ht. cbn. destruct (cond t) eqn:E; [|done]. apply (Hc i) in E; [congruence|done].
  - intros i Hi. by rewrite lookup_updated, Hi.
Qed.

Lemma conversation_set_other c x db c' : c' <> c -> conversation (set_conversation c x db) c' = conversation db c'.
Proof. intros Hne. unfold conversation. cbn. by rewrite lookup_insert_ne. Qed.

Lemma fenced_set_conversation r c x db : hosted r c = true -> fenced r db (set_conversation c x db).
Proof.
  intros Hh. split; try done; [|no_events|no_effects]. intros c' Hc'. apply conversation_set_other. intros ->. congruence.
Qed.

Lemma fenced_update_conversation r c cond data db :
  hosted r c = true -> fenced r db (update_conversation c cond data db).
Proof. intros Hh. unfold update_conversation. destruct (cond _); [by apply fenced_set_conversation|reflexivity]. Qed.

Lemma fenced_update_sandbox r cond data db : fenced r db (update_sandbox (sandboxId r) cond data db).2.
Proof.
  unfold update_sandbox. destruct (cond _); [|reflexivity]. cbn. split; try done; [|no_events|no_effects].
  intros s Hs. unfold sandbox. cbn. by rewrite lookup_insert_ne.
Qed.

Lemma fences_effect r x db : own_effect r db x -> fenced r db (add_effect x db).
Proof. intros Hx. split; try done; [no_events|]. exists [x]. split; [done|]. by apply Forall_singleton. Qed.

Lemma fences_published r c rs db : hosted r c = true -> fenced r db (add_effect (published c rs) db).
Proof. exact (fences_effect r (published c rs) db). Qed.

Lemma fenced_add_events r rs db :
  (forall e, e ∈ rs -> hosted r (ev_conversationId e) = true) -> fenced r db (add_events rs db).
Proof. intros H. split; try done; [by exists rs|no_effects]. Qed.

Lemma fenced_insert_events r rs db :
  (forall e, e ∈ rs -> hosted r (ev_conversationId e) = true) -> fenced r db (insert_events rs db).2.
Proof. intros H. unfold insert_events. destruct (bool_decide _); [by apply fenced_add_events|reflexivity]. Qed.

Lemma fenced_bump r c n db : hosted r c = true -> fenced r db (bump_seq c n db).2.
Proof. intros H. unfold bump_seq. destruct (_ <? _); [by apply fenced_set_conversation|reflexivity]. Qed.

(** The sandbox of a conversation the reporter hosts is the reporter's. *)
Lemma hosted_sandbox r c : hosted r c = true -> exists a, conv_agent c = Some a /\ agent_sandbox a = Some (sandboxId r).
Proof.
  unfold hosted, conv_sandbox. destruct (conv_agent c) as [a|]; cbn; [|done].
  destruct (agent_sandbox a) as [s|] eqn:E; [|done]. rewrite andb_true_iff, bool_decide_eq_true. intros [-> _]. by exists a.
Qed.

(** ** Under interference

    A program between whose statements anything the program does may happen:
    it last left the state [db0], and finds one that has evolved from it. [R]
    relates the states around each of its statements, [Q] its answer and the
    state it leaves. *)
Fixpoint relies {A} (R : Db -> Db -> Prop) (Q : A -> Db -> Prop) (db0 : Db) (p : prog A) : Prop :=
  match p with
  | Ret a => Q a db0
  | Throw _ => True
  | Stmt f k => forall e db, valid db -> evolves db0 db -> R db (f e db).2 /\ relies R Q (f e db).2 (k (f e db).1)
  end.

Lemma relies_bind {A B} R (Q : B -> Db -> Prop) db0 (p : prog A) (g : A -> prog B) :
  relies R (fun a db1 => relies R Q db1 (g a)) db0 p -> relies R Q db0 (p ≫= g).
Proof.
  unfold mbind, prog_bind. revert db0. induction p as [a|x|X f k IH]; cbn; intros db0 Hp; [done|done|].
  intros e db Hv He. destruct (Hp e db Hv He) as [HR Hk]. split; [done|]. by apply IH.
Qed.

Lemma relies_catch {A} R (Q : A -> Db -> Prop) db0 p h :
  relies R Q db0 p -> (forall x db1, relies R Q db1 (h x)) -> relies R Q db0 (catch p h).
Proof.
  intros Hp Hh. revert db0 Hp. induction p as [a|x|X f k IH]; cbn; intros db0 Hp; [done|apply Hh|].
  intros e db Hv He. destruct (Hp e db Hv He) as [HR Hk]. split; [done|]. by apply IH.
Qed.

Lemma relies_always {A} R (Q : A -> Db -> Prop) db0 p :
  always R p -> (forall a db1, Q a db1) -> relies R Q db0 p.
Proof.
  intros Hp HQ. revert db0. induction p as [a|x|X f k IH]; cbn in *; intros db0; [done|done|].
  intros e db _ _. destruct (Hp e db) as [HR Hk]. split; [done|]. by apply IH.
Qed.

Lemma relies_mono {A} R (Q Q' : A -> Db -> Prop) db0 p :
  (forall a db1, Q a db1 -> Q' a db1) -> relies R Q db0 p -> relies R Q' db0 p.
Proof.
  intros HQ. revert db0. induction p as [a|x|X f k IH]; cbn; intros db0 Hp; [by apply HQ|done|].
  intros e db Hv He. destruct (Hp e db Hv He) as [HR Hk]. split; [done|]. by apply IH.
Qed.

(** A row keeps its conversation. *)
Lemma row_later db0 db i t0 t :
  valid db0 -> evolves db0 db -> turns db0 !! i = Some t0 -> turns db !! i = Some t -> conversationId t = conversationId t0.
Proof.
  intros Hv He Hi Ht. destruct (He Hv) as [_ Hl]. destruct (Hl i t0 Hi) as (t' & Ht' & K & _).
  rewrite Ht in Ht'. injection Ht' as <-. unfold key in K. congruence.
Qed.

Lemma hosted_parked r c t : hosted r c = true -> parked c t = true -> hosted r (conversationId t) = true.
Proof. intros Hh Ht. unfold parked, in_conv in Ht. apply andb_true_iff in Ht as [Ht _]. to_prop. congruence. Qed.

Lemma fenced_wake r a s reason :
  agent_sandbox a = Some s -> s = sandboxId r -> always (fenced r) (wakeSandboxFor a reason).
Proof. unfold wakeSandboxFor. intros -> ->. apply always_query. intros e db. apply fenced_update_sandbox. Qed.


(** ** The three reports *)

Section Hosted.
Context (r : ReporterIdentity) (c : jsstr) (Hh : hosted r c = true).

Lemma always_fenced_updateMany cond data :
  (forall e db t, cond e db t = true -> hosted r (conversationId t) = true) ->
  always (fenced r) (updateMany cond data).
Proof. intros H. apply always_exec. intros e db. apply fenced_update_turns. intros i t _. apply H. Qed.

Lemma parked_fenced t : parked c t = true -> hosted r (conversationId t) = true.
Proof. unfold parked, in_conv. intros [Ht _]%andb_true_iff. to_prop. congruence. Qed.

Lemma joins_fenced i ids t : joins c i ids t = true -> hosted r (conversationId t) = true.
Proof. unfold joins. rewrite !andb_true_iff. intros [[_ Ht] _]. by apply parked_fenced. Qed.

Lemma always_fenced_persist cond ref : always (fenced r) (persistSession c cond ref).
Proof.
  unfold persistSession. walk. apply always_query. intros e db. by apply fenced_update_conversation.
Qed.

Lemma always_fenced_wake reason :
  always (fenced r) (match conv_agent c with Some a => wakeSandboxFor a reason | None => mret () end).
Proof.
  pose proof Hh as H. unfold hosted, conv_sandbox in H. destruct (conv_agent c) as [a|]; [|done]. cbn in H.
  unfold wakeSandboxFor. destruct (agent_sandbox a) as [s|]; [|done]. apply andb_true_iff in H as [H _]. to_prop. subst.
  apply always_query. intros e db. apply fenced_update_sandbox.
Qed.

(** The promotion writes the row it read: rows keep their conversations. *)
Lemma relies_promote db0 : relies (fenced r) (fun _ _ => True) db0 (promoteOldestParkedFollowUp c).
Proof.
  unfold promoteOldestParkedFollowUp. apply relies_bind, relies_always.
  { apply always_fenced_updateMany. intros e db t [Ht _]%andb_true_iff. by apply parked_fenced. }
  intros _ db0'. apply relies_bind. intros e1 db1 Hv1 _. split; [reflexivity|]. cbn [fst snd relies].
  destruct (oldest (parked c) db1) as [row|] eqn:E; [|done].
  assert (turns db1 !! id row = Some row /\ hosted r (conversationId row) = true) as [Hrow Hc].
  { unfold oldest in E. apply order_by_head in E as [[[i Hi] Hp]%elem_of_select _]. apply parked_fenced in Hp.
    destruct (proj1 Hv1 i row Hi) as [<- _]. done. }
  assert (forall n db2, relies (fenced r) (fun _ _ => True) db2 (if (n =? 0)%nat then mret false else
    match conv_agent c with Some agentId => wakeSandboxFor agentId None | None => mret () end;; mret true)) as Hwake.
  { intros n db2. destruct (n =? 0)%nat; [done|]. apply relies_bind, relies_always; [by apply always_fenced_wake|done]. }
  apply relies_bind. apply relies_catch; [|intros [] db2; try done; apply Hwake].
  intros e2 db2 Hv2 He2. split.
  - apply fenced_update_turns. intros i t Ht [Hi _]%andb_true_iff. unfold is_id in Hi. to_prop.
    destruct (proj1 Hv2 i t Ht) as [Hid _]. rewrite (row_later db1 db2 (id row) row t); try done. congruence.
  - destruct (update_turns _ _ db2) as [[rs|x] db3]; [apply Hwake|destruct x; first [apply Hwake|done]].
Qed.
End Hosted.

Lemma own_fenced i t : own i t = true -> hosted (reporter i) (conversationId t) = true.
Proof. unfold own. by intros [_ ?]%andb_true_iff. Qed.

Lemma own_hosted i t : own i t = true -> hosted (reporter i) (f_conversationId i) = true.
Proof. unfold own, in_conv. rewrite !andb_true_iff. intros [[_ Hc] Hh]. to_prop. congruence. Qed.

(** An update that selects no row changes nothing and answers none. *)
Lemma update_turns_none cond data db : (forall t, cond t = false) -> update_turns cond data db = (inl [], db) \/
  exists x, update_turns cond data db = (inr x, db).
Proof.
  intros Hc. destruct (update_turns_cases cond data db) as [[_ ->]|[_ ->]]; [left|right; by exists P2002].
  assert (updated cond data (turns db) = turns db) as ->.
  { apply map_eq. intros i. rewrite lookup_updated. destruct (turns db !! i); cbn; by rewrite ?Hc. }
  replace (List.filter cond (rows (turns db))) with (@nil Turn); [by destruct db|].
  induction (rows (turns db)) as [|t l IH]; cbn; by rewrite ?Hc.
Qed.

Lemma relies_updated_rows r db0 cond data :
  (forall t, cond t = true -> hosted r (conversationId t) = true) ->
  (forall e t, conversationId (data e t) = conversationId t) ->
  relies (fenced r) (fun rs _ => Forall (fun t => hosted r (conversationId t) = true) rs) db0
    (updateMany (fun _ _ => cond) data).
Proof.
  intros Hc Hd e db _ _. split; [apply fenced_update_turns; intros i t _; apply Hc|].
  destruct (update_turns_cases cond (client e (data e)) db) as [[_ E]|[_ E]]; cbn; rewrite E; [|done]. cbn.
  apply Forall_forall. intros t (t0 & -> & [_ Ht]%elem_of_lfilter)%elem_of_lmap. cbn. rewrite Hd. by apply Hc.
Qed.

Lemma relies_none r Q db0 cond data :
  (forall e db t, cond e db t = false) -> (forall db, Q [] db) -> relies (fenced r) Q db0 (updateMany cond data).
Proof.
  intros Hc HQ e db _ _. destruct (update_turns_none (cond e db) (client e (data e)) db (Hc e db)) as [E|[x E]];
    cbn; rewrite E; (split; [reflexivity|]); [apply HQ|done].
Qed.

(** A transaction whose statements all stay inside. *)
Lemma fences_within {X Y} r (f : (X + Exn) * Db) db (k : X -> Db -> (Y + Exn) * Db) :
  (forall x db1, f = (inl x, db1) -> fenced r db (k x db1).2) -> fenced r db (within f db k).2.
Proof. intros H. unfold within. destruct f as [[x|x] db1]; [by apply H|reflexivity]. Qed.

Lemma relies_notices r db0 rs :
  Forall (fun t => hosted r (conversationId t) = true) rs ->
  relies (fenced r) (fun _ _ => True) db0 (writeResumeNotices rs).
Proof.
  intros Hrs. apply relies_always; [|done]. unfold writeResumeNotices. induction Hrs as [|t l Ht _ IH]; cbn [each]; [done|].
  apply always_bind; [|by intros _]. apply always_catch; [|done]. apply always_bind; [|done].
  unfold writeConversationNotice. walk.
  - apply always_exec. intros e db. unfold append_notice. apply fences_within. intros seq db1 E1.
    assert (fenced r db db1) as H1 by (pose proof (fenced_bump r (conversationId t) 1 db Ht) as H; by rewrite E1 in H).
    apply fences_within. intros y db2 E2. cbn. transitivity db1; [done|].
    pose proof (fenced_insert_events r [notice_row (conversationId t) (id t) seq (js "info") (failure_message (js "agent_resuming"))] db1) as H.
    rewrite E2 in H. apply H. intros ev [->|[]%elem_of_nil]%elem_of_cons. exact Ht.
  - apply always_query. intros e2 db2. by apply fences_published.
Qed.

(** The batch: nothing outside the conversation it names. *)
Lemma bump_turns c n db : turns (bump_seq c n db).2 = turns db.
Proof. unfold bump_seq. by destruct (_ <? _). Qed.

Lemma insert_events_turns rs db : turns (insert_events rs db).2 = turns db.
Proof. unfold insert_events. by destruct (bool_decide _). Qed.

Lemma fenced_batch r c i events e db : valid db -> fenced r db (apply_batch r c i events e db).2.
Proof.
  intros Hv. unfold apply_batch, turnBelongsToReporter.
  destruct (head _) as [t|] eqn:E; [|reflexivity]. cbn [fmap option_fmap option_map].
  assert (t ∈ select_turns (fun t => is_id i t && in_conv c t && hosted r c) db) as [[j0 Hj0] Ht]%elem_of_select
    by (destruct (select_turns _ db); [done|injection E as ->; by left]).
  rewrite !andb_true_iff in Ht. unfold is_id, in_conv in Ht. destruct Ht as [[Hid Hc] Hh]. to_prop. clear E.
  destruct (proj1 Hv j0 t Hj0) as [Hk _].
  apply fences_within. intros seq db1 E1. pose proof (fenced_bump r c (length events) db Hh) as H1.
  pose proof (bump_turns c (length events) db) as T1. rewrite E1 in H1, T1. cbn [snd] in H1, T1. apply fences_within. intros y db2 E2.
  apply (f_equal snd) in E2. cbn [snd] in E2.
  assert (fenced r db db2) as H2.
  { transitivity db1; [done|]. rewrite <- E2. apply fenced_insert_events. intros ev (q & -> & Hq)%list_elem_of_fmap.
    apply elem_of_lfilter in Hq as [Hq _]. apply (list_elem_of_fmap_2 snd), in_number_events in Hq as [Hq _]. congruence. }
  assert (turns db2 = turns db) as T2 by (rewrite <- E2; etransitivity; [apply insert_events_turns|exact T1]).
  apply fences_within. intros z db3 E3.
  assert (fenced r db db3) as H3.
  { transitivity db2; [done|]. destruct (existsb _ _); [|by injection E3 as _ <-].
    apply (f_equal snd) in E3. cbn [snd] in E3. rewrite <- E3. apply fenced_update_turns. rewrite T2. intros j t' Hj [Hi _]%andb_true_iff. unfold is_id in Hi. to_prop.
    destruct (proj1 Hv j t' Hj) as [Hk' _]. congruence. }
  apply fences_within. intros u db4 E4.
  assert (fenced r db db4) as H4.
  { transitivity db3; [done|]. destruct (joined_ids events); [by injection E4 as _ <-|].
    apply (f_equal snd) in E4. cbn [snd] in E4. rewrite <- E4. apply fenced_update_turns.
    intros j t' _ Hj. by eapply joins_fenced. }
  cbn [snd]. destruct (isPlatformJobRun _); [done|]. transitivity db4; [done|]. apply fenced_update_sandbox.
Qed.

(** The turn [i] is the reporter's, and stays so. *)
Definition owned (r : ReporterIdentity) (i : jsstr) (db : Db) : Prop :=
  valid db /\ exists t, turns db !! i = Some t /\ hosted r (conversationId t) = true.

Lemma owned_evolves r i db db' : owned r i db -> evolves db db' -> owned r i db'.
Proof.
  intros (Hv & t & Ht & Hh) He. destruct (He Hv) as [Hv' Hl]. destruct (Hl i t Ht) as (t' & Ht' & K & _).
  split; [done|]. exists t'. split; [done|]. unfold key in K. congruence.
Qed.

Lemma relies_seq_owned {A B} r i Q db0 (p : prog A) (g : A -> prog B) :
  owned r i db0 -> always evolves p -> relies (fenced r) (fun _ _ => True) db0 p ->
  (forall a db1, owned r i db1 -> relies (fenced r) Q db1 (g a)) -> relies (fenced r) Q db0 (p ≫= g).
Proof.
  intros Ho Hp Hr Hg. unfold mbind, prog_bind. revert db0 Ho Hp Hr.
  induction p as [a|x|X f k IH]; cbn; intros db0 Ho Hp Hr; [by apply Hg|done|].
  intros e db Hv He. destruct (Hr e db Hv He) as [HR Hk]. destruct (Hp e db) as [Hf Hp']. split; [done|].
  apply IH; [|done|done]. eapply owned_evolves; [|exact Hf]. by eapply owned_evolves.
Qed.

Lemma relies_settle r i outcome db0 :
  owned r i db0 -> relies (fenced r) (fun _ _ => True) db0 (settleAutomationRun i outcome).
Proof.
  intros Ho e db Hv He. split; [|done]. apply fences_effect. by destruct (owned_evolves _ _ _ _ Ho He) as [_ ?].
Qed.

(** What follows a close that won, of a turn of the reporter's. *)
Lemma relies_afterClose s db0 :
  hosted (reporter s) (f_conversationId s) = true -> owned (reporter s) (f_turnId s) db0 ->
  relies (fenced (reporter s)) (fun _ _ => True) db0 (afterClose s).
Proof.
  intros Hh Ho. unfold afterClose.
  apply (relies_seq_owned _ (f_turnId s)); [done|apply always_persist, _|by apply relies_always; [apply always_fenced_persist|]|].
  intros _ db1 H1. apply (relies_seq_owned _ (f_turnId s)); [done| | |].
  { walk. apply always_updateMany; [apply _|]. lawfully lawful_join. }
  { apply relies_always; [|done]. walk. apply always_fenced_updateMany. intros e db t. by apply joins_fenced. }
  intros _ db2 H2. apply (relies_seq_owned _ (f_turnId s)); [done| | |].
  { walk. apply always_updateMany; [apply _|]. lawfully lawful_abort. }
  { apply relies_always; [|done]. walk. apply always_fenced_updateMany. intros e db t. by apply parked_fenced. }
  intros _ db3 H3. apply (relies_seq_owned _ (f_turnId s)); [done| | |].
  { apply always_catch; [|done]. apply always_bind; [apply always_promote, _|done]. }
  { apply relies_catch; [|done]. apply relies_bind. by refine (relies_mono _ _ _ _ _ _ (relies_promote _ _ Hh _)). }
  intros _ db4. apply relies_settle.
Qed.

(** The close: what it closed is the reporter's. *)
Lemma relies_close s db0 :
  f_status s ∈ [Done; Failed; Aborted] ->
  relies (fenced (reporter s)) (fun closed db1 => closed <> [] -> owned (reporter s) (f_turnId s) db1) db0
    (updateMany (fun _ _ t => own s t && has_status (closable s) t) (close_data s)).
Proof.
  intros Hs e db Hv _. split.
  { apply fenced_update_turns. intros i t _ [Ht _]%andb_true_iff. by apply own_fenced. }
  assert (evolves db (update_turns (fun t => own s t && has_status (closable s) t) (client e (close_data s e)) db).2) as He.
  { apply evolves_update_turns, lawful_client. eapply lawful_weaken; [|apply lawful_close; exact Hs].
    intros t [_ Hc]%andb_true_iff. unfold closable in Hc. destruct (bool_decide _); [|done].
    by apply (has_status_mono [Dispatched; Running]). }
  destruct (update_turns_cases (fun t => own s t && has_status (closable s) t) (client e (close_data s e)) db) as [[_ E]|[_ E]];
    rewrite E in He |- *; [|done]. cbn [fst snd relies]. intros Hne.
  destruct (List.filter _ _) as [|t l] eqn:Ef; [done|].
  assert (t ∈ List.filter (fun t => own s t && has_status (closable s) t) (rows (turns db))) as Ht by (rewrite Ef; by left).
  apply elem_of_lfilter in Ht as [[j Hj]%elem_of_rows [Ht _]%andb_true_iff].
  pose proof (own_fenced _ _ Ht) as Hh. unfold own, is_id in Ht. rewrite !andb_true_iff in Ht. destruct Ht as [[Hid _] _]. to_prop.
  destruct (proj1 Hv j t Hj) as [Hk _]. apply (owned_evolves _ _ db); [|exact He]. split; [done|]. exists t. split; [congruence|done].
Qed.

(** The runner report that hosts the conversation it names. *)
Lemma relies_finish_hosted i db0 :
  f_status i ∈ [Done; Failed; Aborted] ->
  hosted (reporter (storable_report i)) (f_conversationId (storable_report i)) = true ->
  relies (fenced (reporter (storable_report i))) (fun _ _ => True) db0 (finishTurn i).
Proof.
  intros Hst. unfold finishTurn. set (s := storable_report i). set (r := reporter s). intros Hh.
  assert (f_status s ∈ [Done; Failed; Aborted]) as Hs by exact Hst.
  assert (forall cond : Turn -> bool, (forall t, cond t = true -> own s t = true) -> forall t, cond t = true ->
    hosted r (conversationId t) = true) as Hown by (intros cond Hc t Ht; by apply own_fenced, Hc).
  assert (forall db1, owned r (f_turnId s) db1 -> relies (fenced r) (fun _ _ => True) db1 (afterClose s)) as Hclose
    by (intros db1; apply (relies_afterClose s _ Hh)).
  assert (forall db1, relies (fenced r) (fun _ _ => True) db1
    (closed ← updateMany (fun _ _ t => own s t && has_status (closable s) t) (close_data s);
      match closed with [] => salvage s | _ => afterClose s end)) as Hlate.
  { intros db1. apply relies_bind. refine (relies_mono _ _ _ _ _ _ (relies_close s _ Hs)). intros [|t l] db2 Ho; [|by apply Hclose, Ho].
    apply relies_always; [|done]. unfold salvage. walk; [|by apply always_fenced_persist].
    apply always_fenced_updateMany. intros e db. apply (Hown (fun t => own s t && _ && _)). intros t Ht.
    rewrite !andb_true_iff in Ht. tauto. }
  apply relies_bind. unfold recoverTurn. destruct (deathReport s); [|by apply Hlate].
  apply relies_bind. unfold reviveColdTurns. apply relies_bind, relies_always.
  { apply always_fenced_updateMany. intros e db. apply (Hown (fun t => own s t && _ && _ && _)). intros t Ht.
    rewrite !andb_true_iff in Ht. tauto. }
  intros rs db1. cbn [relies mret prog_ret]. destruct (_ <? _)%nat; [by apply relies_notices|].
  apply relies_bind. refine (relies_mono _ _ _ _ _ _ (relies_updated_rows r _ _ _ _ _)).
  - intros [|t l] db2 Hl; [by apply Hlate|by apply relies_notices].
  - intros t Ht. rewrite !andb_true_iff in Ht. apply own_fenced. tauto.
  - done.
Qed.

(** A report on a conversation its sandbox does not host does nothing. *)
Lemma relies_finish_stranger i db0 :
  hosted (reporter (storable_report i)) (f_conversationId (storable_report i)) = false ->
  relies (fenced (reporter (storable_report i))) (fun _ _ => True) db0 (finishTurn i).
Proof.
  unfold finishTurn. set (s := storable_report i). set (r := reporter s). intros Hh.
  assert (forall t, own s t = false) as Hown.
  { intros t. destruct (own s t) eqn:E; [|done]. apply own_hosted in E. unfold r in Hh. congruence. }
  assert (forall db1, relies (fenced r) (fun _ _ => True) db1
    (closed ← updateMany (fun _ _ t => own s t && has_status (closable s) t) (close_data s);
      match closed with [] => salvage s | _ => afterClose s end)) as Hlate.
  { intros db1. apply relies_bind, relies_none; [intros e db t; by rewrite Hown|]. intros db2. unfold salvage.
    assert (forall db3, relies (fenced r) (fun _ _ => True) db3 (persistSession (f_conversationId s)
      (fun db => hosted (reporter s) (f_conversationId s) &&
        existsb (fun t => is_id (f_turnId s) t && in_conv (f_conversationId s) t && has_status [Failed; Aborted] t)
          (rows (turns db)) &&
        negb (existsb (fun t => in_conv (f_conversationId s) t && isActiveTurnStatus (status t)) (rows (turns db))))
      (f_sessionRef s))) as Hp.
    { intros db3. apply relies_always; [|done]. unfold persistSession. fold r. walk. apply always_query. intros e db. rewrite Hh.
      unfold update_conversation. by rewrite andb_false_r. }
    apply relies_bind. destruct (f_usage s) as [u|]; [|apply Hp].
    apply relies_bind, relies_none; [intros e db t; by rewrite Hown|]. intros db3. apply Hp. }
  apply relies_bind. unfold recoverTurn. destruct (deathReport s); [|by apply Hlate].
  apply relies_bind. unfold reviveColdTurns. apply relies_bind, relies_none; [intros e db t; by rewrite Hown|].
  intros db1. change (0 <? length [])%nat with false. cbn [relies mret prog_ret]. apply relies_bind.
  apply relies_none; [intros e db t; by rewrite Hown|]. intros db2. by apply Hlate.
Qed.

Lemma batch_hosted r c i events e db rs db' : apply_batch r c i events e db = (inl (Some rs), db') -> hosted r c = true.
Proof.
  unfold apply_batch, turnBelongsToReporter. destruct (head _) as [t|] eqn:E; [|done]. intros _.
  assert (t ∈ select_turns (fun t => is_id i t && in_conv c t && hosted r c) db) as [_ Ht]%elem_of_select
    by (destruct (select_turns _ db); [done|injection E as ->; by left]).
  rewrite !andb_true_iff in Ht. tauto.
Qed.

Lemma relies_events r c i events db0 : relies (fenced r) (fun _ _ => True) db0 (applyTurnEvents r c i events).
Proof.
  destruct events as [|ev events]; [done|]. unfold applyTurnEvents. apply relies_bind. intros e db Hv _.
  split.
  - pose proof (fenced_batch r c i (map Store.storable_event (ev :: events)) e db Hv) as H. exact H.
  - destruct (apply_batch _ _ _ _ _ _) as [[[rs|]|x] db1] eqn:E; [|exact I|exact I]. apply batch_hosted in E.
    intros e' db' _ _. split; [by apply fences_published|exact I].
Qed.

Lemma relies_progress r c i ref db0 : relies (fenced r) (fun _ _ => True) db0 (applyTurnProgress r c i ref).
Proof.
  unfold applyTurnProgress. apply relies_bind. destruct (hosted r c) eqn:Hh.
  - apply relies_always.
    + apply always_fenced_updateMany. intros e db t Ht. rewrite !andb_true_iff in Ht. tauto.
    + intros [|t l] db1; [done|]. cbn [head]. apply relies_always; [|done]. walk.
      * apply always_query. intros e db. by apply fenced_update_conversation.
      * apply always_query. intros e db. apply fenced_update_sandbox.
  - apply relies_none; [|done]. intros e db t. unfold in_conv. apply not_true_iff_false. rewrite !andb_true_iff.
    intros [[[_ Hc] _] Ht]. to_prop. congruence.
Qed.

(** C16: whatever other functions of the service do to the tables in between, no
    statement of a report touches anything outside the conversations of the
    reporter's own sandbox: an event batch, a heartbeat or a close (with one of
    the final statuses the wire admits) that names another sandbox's
    conversation or turn leaves every row, transcript and subscriber of it
    alone, and settles the automation of a turn of the reporter's own
    conversations only. A settlement is one event here; the bookkeeping of
    crons, watches, webhooks and pairs it starts, which may message other
    conversations, is not modelled. *)
Theorem reporter_fence r c i events ref report db0 :
  reporter (storable_report report) = r -> f_status report ∈ [Done; Failed; Aborted] ->
  relies (fenced r) (fun _ _ => True) db0 (applyTurnEvents r c i events) /\
  relies (fenced r) (fun _ _ => True) db0 (applyTurnProgress r c i ref) /\
  relies (fenced r) (fun _ _ => True) db0 (finishTurn report).
Proof.
  intros <- Hs. split_and!; [apply relies_events|apply relies_progress|].
  destruct (hosted (reporter (storable_report report)) (f_conversationId (storable_report report))) eqn:Hh;
    [by apply relies_finish_hosted|by apply relies_finish_stranger].
Qed.
End Fence.

(** ** Witness *)

Section Witness.
#[local] Existing Instances clear_world sample_windows.

Definition running_day : Db := serve [posts 1000 "t1" "c1"; polls 2000; begins 3000 reporter1 "c1" "t1"] fresh_db.

(** The second sandbox closes the first one's running turn. *)
Definition forged : FinishTurnInput := mkFinish reporter2 (js "c1") (js "t1") Failed None None None None [].

Lemma reporter_fence_witness :
  reporter (storable_report forged) = reporter2 /\ f_status forged ∈ [Done; Failed; Aborted] /\
  relies (fenced reporter2) (fun _ _ => True) running_day (finishTurn forged) /\
  status_of "t1" running_day = Some Running /\
  status_of "t1" (run (at_time 4000 "-") (finishTurn forged) running_day).2 = Some Running.
Proof.
  assert (reporter (storable_report forged) = reporter2) as Hr by (vm_compute; reflexivity).
  assert (f_status forged ∈ [Done; Failed; Aborted]) as Hs by (right; left).
  split; [exact Hr|]. split; [exact Hs|]. split; [|split; vm_compute; reflexivity].
  exact (proj2 (proj2 (reporter_fence reporter2 (js "c1") (js "t1") [] None forged running_day Hr Hs))).
Defined.
End Witness.
