(* ===== verification/TurnSends.v ===== *)
(** * One message, one row

    The send door tries up to three times, and each try may create a turn or a
    follow-up, promote somebody else's, or lose a race: whatever happens in
    between its statements, and whichever of its calls the database fails, a
    send that answers has created exactly one row, one that refuses none, and
    none ever two. *)
From S2P Require Import Prelude JsJson JsBytes TurnEvents TurnText TurnDb TurnService TurnDoors TurnRuns TurnRows.
From S2P Require Import TurnPrograms TurnLifecycle TurnSample.
Local Open Scope Z_scope.

(** ** Counting creations

    [creates row Q E posted p]: between statements anything that leaves the
    tables valid may happen; every statement of [p] keeps the set of turns or,
    once and only while [posted] is false, adds one row that [row] describes;
    [Q] holds of the answer and of whether the row exists, and [E] of what is
    thrown. *)
Fixpoint creates {A} (row : Turn -> Prop) (Q : A -> bool -> Prop) (E : Exn -> bool -> Prop) (posted : bool)
    (p : prog A) : Prop :=
  match p with
  | Ret a => Q a posted
  | Throw x => E x posted
  | Stmt f k => forall e db, valid db ->
      (dom (turns (f e db).2) = dom (turns db) /\ creates row Q E posted (k (f e db).1)) \/
      (posted = false /\
       exists t, turns db !! id t = None /\ row t /\ turns (f e db).2 = <[id t := t]> (turns db) /\
         creates row Q E true (k (f e db).1))
  end.

Section Rules.
Context (row : Turn -> Prop).

Lemma creates_mono {A} (Q Q' : A -> bool -> Prop) (E E' : Exn -> bool -> Prop) b p :
  (forall a b, Q a b -> Q' a b) -> (forall x b, E x b -> E' x b) -> creates row Q E b p -> creates row Q' E' b p.
Proof.
  intros HQ HE. revert b. induction p as [a|x|X f k IH]; cbn; intros b Hp; [by apply HQ|by apply HE|].
  intros e db Hv. destruct (Hp e db Hv) as [[Hd Hk]|(Hb & t & Ht & Hr & Hi & Hk)]; [left|right].
  - split; [done|]. by apply IH.
  - split; [done|]. exists t. split_and!; [done..|]. by apply IH.
Qed.

Lemma creates_bind {A B} (Q : B -> bool -> Prop) E b (p : prog A) (g : A -> prog B) :
  creates row (fun a b => creates row Q E b (g a)) E b p -> creates row Q E b (p ≫= g).
Proof.
  unfold mbind, prog_bind. revert b. induction p as [a|x|X f k IH]; cbn; intros b Hp; [done|done|].
  intros e db Hv. destruct (Hp e db Hv) as [[Hd Hk]|(Hb & t & Ht & Hr & Hi & Hk)]; [left|right].
  - split; [done|]. by apply IH.
  - split; [done|]. exists t. split_and!; [done..|]. by apply IH.
Qed.

Lemma creates_catch {A} (Q : A -> bool -> Prop) E b p h :
  creates row Q (fun x b => creates row Q E b (h x)) b p -> creates row Q E b (catch p h).
Proof.
  revert b. induction p as [a|x|X f k IH]; cbn; intros b Hp; [done|done|].
  intros e db Hv. destruct (Hp e db Hv) as [[Hd Hk]|(Hb & t & Ht & Hr & Hi & Hk)]; [left|right].
  - split; [done|]. by apply IH.
  - split; [done|]. exists t. split_and!; [done..|]. by apply IH.
Qed.

(** Programs that create nothing: [same_ids] at every statement. *)
Definition same_ids (db db' : Db) : Prop := dom (turns db') = dom (turns db).

#[export] Instance same_ids_preorder : PreOrder same_ids.
Proof. split; unfold same_ids; [done|]. intros a b c H1 H2. congruence. Qed.

Lemma creates_same {A} (Q : A -> bool -> Prop) E b p :
  always same_ids p -> (forall a, Q a b) -> (forall x, E x b) -> creates row Q E b p.
Proof.
  intros Hp HQ HE. induction p as [a|x|X f k IH]; cbn in *; [done|done|]. intros e db _. destruct (Hp e db) as [Hd Hk].
  left. split; [exact Hd|]. by apply IH.
Qed.

Lemma creates_ask {X A} (f : Env -> Db -> X) (g : X -> prog A) Q E b :
  (forall e db, valid db -> creates row Q E b (g (f e db))) -> creates row Q E b (ask f ≫= g).
Proof. intros Hg e db Hv. left. split; [done|]. by apply Hg. Qed.
End Rules.

(** An update keeps the rows it does not delete. *)
Lemma same_ids_update cond data db : same_ids db (update_turns cond data db).2.
Proof.
  apply (update_turns_rel same_ids). intros _. unfold same_ids. cbn. apply dom_fmap_L.
Qed.

Section Sends.
Context {W : World} {T : Windows} (row : Turn -> Prop).

Lemma creates_query {X A} (f : Env -> Db -> X * Db) (g : X -> prog A) Q E b :
  (forall e db, turns (f e db).2 = turns db) -> (forall x, creates row Q E b (g x)) -> creates row Q E b (query f ≫= g).
Proof. intros Hf Hg e db _. left. split; [by rewrite Hf|apply Hg]. Qed.

(** A call that may fail. *)
Lemma creates_reach {A B} (p : prog A) (g : A -> prog B) Q (E : Exn -> bool -> Prop) b :
  E Unavailable b -> creates row Q E b (p ≫= g) -> creates row Q E b (reach p ≫= g).
Proof. intros HE Hp e db _. left. split; [done|]. cbn. by destruct (answers e). Qed.

Lemma creates_reach_last {A} (p : prog A) Q (E : Exn -> bool -> Prop) b :
  E Unavailable b -> creates row Q E b p -> creates row Q E b (reach p).
Proof. intros HE Hp e db _. left. split; [done|]. cbn. by destruct (answers e). Qed.

(** The statement that creates. *)
Lemma insert_with_attachments_turns c message st f origin ids e db :
  (exists x, insert_with_attachments c message st f origin ids e db = (inr x, db)) \/
  (exists db', insert_with_attachments c message st f origin ids e db = (inl (new_turn e c message st origin f), db') /\
     turns db !! uuid e = None /\ turns db' = <[uuid e := new_turn e c message st origin f]> (turns db)).
Proof.
  unfold insert_with_attachments, insert_turn. cbn [id new_turn].
  destruct (turns db !! uuid e) eqn:Hn; [left; by eexists|]. destruct (index_ok _); [|left; by eexists].
  destruct ids as [|i ids]; [right; by eexists|].
  pose proof (turns_bind c (uuid e) (o_userId origin) (i :: ids)
    (set_turns (<[uuid e:=new_turn e c message st origin f]> (turns db)) db)) as Hb.
  cbn [id new_turn]. destruct (bindAttachmentsToTurn _ _ _ _ _) as [[u|x] db2]; [right|left; by eexists].
  exists db2. split_and!; [done|done|exact Hb].
Qed.

Lemma creates_create {A} c message st f origin ids (g : Turn -> prog A) Q E :
  (forall e, row (new_turn e c message st origin f)) -> (forall x, E x false) -> E Unavailable true ->
  (forall t, creates row Q E true (g t)) ->
  creates row Q E false (createTurnRowWithAttachments c message st f origin ids ≫= g).
Proof.
  intros Hr HE HU Hg. apply creates_bind, creates_reach; [apply HE|]. intros e db _.
  assert (forall t, creates row (fun a b => creates row Q E b (g a)) E true (reach (mret t))) as Hk
    by (intros t; apply creates_reach_last; [exact HU|exact (Hg t)]).
  destruct (insert_with_attachments_turns c message st f origin ids e db)
    as [[x ->]|(db' & -> & Hn & Hi)]; [left; split; [done|apply HE]|right].
  split; [done|]. exists (new_turn e c message st origin f). split_and!; [done|apply Hr|exact Hi|apply Hk].
Qed.

Lemma always_same_query {X} (f : Env -> Db -> X * Db) :
  (forall e db, turns (f e db).2 = turns db) -> always same_ids (query f).
Proof. intros Hf. apply always_query. intros e db. unfold same_ids. by rewrite Hf. Qed.

Lemma same_promote c : always same_ids (promoteOldestParkedFollowUp c).
Proof.
  unfold promoteOldestParkedFollowUp, wakeSandboxFor. walk.
  - apply always_update. intros e db. apply same_ids_update.
  - apply always_update. intros e db. apply same_ids_update.
  - apply always_same_query. intros e db. apply turns_update_sandbox.
Qed.

(** The answers a call may give with a row, and the throws it may end with: a
    row is only left by a call of the database that failed. *)
Definition answered {A} (_ : A) (posted : bool) : Prop := posted = true.
Definition refused_call (x : Exn) (posted : bool) : Prop := x <> Unavailable -> posted = false.

Lemma refused_nothing x : refused_call x false.
Proof. done. Qed.

Lemma refused_unavailable b : refused_call Unavailable b.
Proof. by intros []. Qed.

#[local] Hint Resolve refused_nothing refused_unavailable : core.

(** A follow-up. *)
Lemma creates_followUp c message origin ids target :
  (forall e, row (new_turn e c message Joining origin (Some (id target)))) ->
  creates row answered refused_call false (followUpOn c message origin ids target).
Proof.
  intros Hr. unfold followUpOn. apply creates_reach; [done|]. apply creates_ask. intros e db _. destruct (_ <=? _)%nat; [done|].
  apply creates_create; [done..|]. intros t. apply creates_reach; [done|]. apply creates_ask. intros e1 db1 _. destruct (head _); [done|].
  apply creates_bind, creates_catch, creates_bind, creates_same; [apply same_promote|done|done].
Qed.

(** A turn: once its row is there, only a failed call throws. *)
Lemma creates_wake {A} a reason (g : () -> prog A) Q E b :
  E Unavailable b -> creates row Q E b (g ()) -> creates row Q E b (reach (wakeSandboxFor a reason) ≫= g).
Proof.
  intros HE Hg. apply creates_reach; [done|]. unfold wakeSandboxFor. destruct (agent_sandbox a) as [s|]; [|done].
  apply creates_query; [|by intros []]. intros e db. apply turns_update_sandbox.
Qed.

Lemma creates_engaged {A} s (g : () -> prog A) Q E b :
  E Unavailable b -> creates row Q E b (g ()) -> creates row Q E b (reach (markSandboxEngaged s) ≫= g).
Proof.
  intros HE Hg. apply creates_reach; [done|]. destruct s as [s|]; [|done]. apply creates_query; [|by intros []]. intros e db. apply turns_engage.
Qed.

Lemma creates_name {A} c message title0 turn (g : () -> prog A) Q (E : Exn -> bool -> Prop) b :
  E Unavailable b -> creates row Q E b (g ()) -> creates row Q E b (nameConversation c message title0 turn ≫= g).
Proof.
  intros HE Hg. unfold nameConversation. destruct (_ && _); [|done]. apply creates_bind.
  assert (forall t : option jsstr, creates row (fun a b => creates row Q E b (g a)) E b
    (match t with None => mret () | Some t => reach (query (fun _ db => ((), update_conversation c (fun row => bool_decide (title row = None))
          (fun row => mkConversation (Some t) (lastSeq row) (harnessSessionRef row)) db))) end)) as Ht.
  { intros [t|]; [|done]. apply creates_reach_last; [done|]. intros e db _. left.
    split; [cbn [snd]; by rewrite turns_update_conversation|done]. }
  destruct (Title.deriveTitle message) as [t|]; [exact (Ht (Some t))|].
  apply creates_reach; [done|]. apply creates_ask. intros e db _. apply Ht.
Qed.

Lemma creates_admit ws c origin turn (Q : Turn -> bool -> Prop) (E : Exn -> bool -> Prop) :
  E Unavailable true -> (forall t, Q t true) -> creates row Q E true (admitTurn ws c origin turn).
Proof.
  intros HE HQ. unfold admitTurn. destruct (conv_agent c) as [a|]; [|apply HQ].
  apply creates_reach; [done|]. apply creates_ask. intros e db _.
  destruct (findAgentLlmBlocker e ws a) as [[message code]|].
  - apply creates_reach; [done|]. intros e1 db1 Hv. left. split; [apply same_ids_update|].
    destruct (update_fits (is_id (id turn)) (client e1 (fail_data message (Some code) e1)) db1) as [-> _]; [apply Hv|done|].
    apply HQ.
  - apply creates_wake; [done|]. destruct (isPlatformJobRun _); [apply HQ|]. apply creates_engaged; [done|apply HQ].
Qed.

Lemma creates_turn ws c message origin ids :
  (forall e, row (new_turn e c message Queued origin None)) ->
  creates row answered refused_call false (createTurn ws c message origin ids).
Proof.
  intros Hr. unfold createTurn. apply creates_reach; [done|]. apply creates_bind.
  unfold requireConversationFor. apply creates_ask. intros e0 db0 _.
  destruct (if may_write ws c origin then _ else _) as [title0|]; [|done].
  apply creates_catch, creates_create; [done|by intros []|exact (refused_unavailable true)|]. intros t.
  apply creates_name; [exact (refused_unavailable true)|]. apply creates_admit; [exact (refused_unavailable true)|done].
Qed.

(** What an attempt leaves: its row exactly when it has an outcome. *)
Definition attempted {A} (o : option A) (posted : bool) : Prop := posted = match o with Some _ => true | None => false end.

Lemma creates_attempt ws c message origin ids :
  (forall e, row (new_turn e c message Queued origin None)) ->
  (forall e i, row (new_turn e c message Joining origin (Some i))) ->
  creates row attempted refused_call false (send_attempt ws c message origin ids).
Proof.
  intros Hq Hj. unfold send_attempt, activeTurnOf.
  assert (forall target, creates row attempted refused_call false (Some <$> followUpOn c message origin ids target)) as Hf.
  { intros target. apply creates_bind. refine (creates_mono _ _ _ _ _ _ _ _ _ (creates_followUp _ _ _ _ _ _)); [|done|done].
    by intros o b ->. }
  apply creates_reach; [done|]. apply creates_ask. intros e db _. destruct (newest _ db) as [target|]; [apply Hf|].
  apply creates_reach; [done|]. apply creates_bind, creates_same; [apply same_promote| |done]. intros [].
  - apply creates_reach; [done|]. apply creates_ask. intros e1 db1 _. destruct (newest _ db1); [apply Hf|done].
  - apply creates_bind, creates_catch, creates_bind.
    refine (creates_mono _ _ _ _ _ _ _ _ _ (creates_turn _ _ _ _ _ Hq)).
    + by intros t b ->.
    + intros x b Hx. destruct x as [| |code m|]; [exact Hx|exact Hx| |exact Hx].
      unfold refused_call in Hx. rewrite Hx by done. cbn. by destruct (bool_decide _).
Qed.
End Sends.

(** What a send may create: the message, in the conversation, by its author;
    a turn of its own or a parked follow-up of another. *)
Definition sent_row (c message : jsstr) (origin : TurnOrigin) (t : Turn) : Prop :=
  conversationId t = c /\ TurnDb.message t = message /\ source t = o_source origin /\ userId t = o_userId origin /\
  (status t = Queued /\ followUpOfTurnId t = None \/ status t = Joining /\ is_Some (followUpOfTurnId t)).

(** C15: whatever runs between its statements and leaves the tables valid, and
    whichever of its calls the database fails, a send creates at most one row, the message in its
    conversation; one that answers has created it, and one that throws has
    created none unless a call failed: the retries never post twice, a refusal
    has posted nothing, and nothing but a failed call is thrown once the row
    exists. *)
Theorem send_posts_once `{World, Windows} ws c message origin ids :
  creates (sent_row c message origin) (fun _ posted => posted = true)
    (fun x posted => x <> Unavailable -> posted = false) false
    (sendConversationMessage ws c message origin ids).
Proof.
  unfold sendConversationMessage. apply creates_reach; [by intros []|]. apply creates_bind.
  unfold requireConversationFor. apply creates_ask. intros e0 db0 _.
  destruct (if may_write ws c origin then _ else _) as [title0|]; [|done]. cbn [creates mret prog_ret].
  assert (forall e, sent_row c message origin (new_turn e c message Queued origin None)) as Hq by (intros e; split_and!; auto).
  assert (forall e i, sent_row c message origin (new_turn e c message Joining origin (Some i))) as Hj
    by (intros e i; split_and!; eauto).
  generalize SEND_ATTEMPTS as n. induction n as [|n IH]; cbn [send_attempts]; [done|]. apply creates_bind.
  refine (creates_mono _ _ _ _ _ _ _ _ _ (creates_attempt _ ws c message origin ids Hq Hj)); [|done].
  intros [o|] b ->; [done|exact IH].
Qed.
