(* ===== verification/TurnPromote.v ===== *)
(** * Promotion, and what a poll leaves behind

    What one promotion does to every row, and that a poll's sweeps, on their
    own, leave no follow-up parked behind a conversation that is free. *)
From S2P Require Import Prelude JsJson JsBytes TurnEvents TurnText TurnDb TurnService TurnDoors TurnRuns TurnRows.
From S2P Require Import TurnPrograms TurnLifecycle TurnSample TurnSends.
Local Open Scope Z_scope.

(** ** Reads after an update *)

Lemma rows_updated cond data ts : rows (updated cond data ts) = map (fun t => if cond t then data t else t) (rows ts).
Proof. unfold rows, updated. rewrite map_to_list_fmap, <- !list_fmap_compose. by induction (map_to_list ts); f_equal/=. Qed.

(** What an update takes out of a later read, when it writes nothing into it. *)
Lemma select_updated cond data P db :
  (forall t, cond t = true -> P (data t) = false) ->
  select_turns P (set_turns (updated cond data (turns db)) db) = select_turns (fun t => P t && negb (cond t)) db.
Proof.
  intros HP. unfold select_turns. cbn. rewrite rows_updated. induction (rows (turns db)) as [|t l IH]; [done|]. cbn [map List.filter].
  rewrite IH. destruct (cond t) eqn:E; cbn [negb]; [by rewrite HP, andb_false_r|by rewrite andb_true_r].
Qed.

Lemma oldest_ext P Q db : (forall t, P t = Q t) -> oldest P db = oldest Q db.
Proof. intros H. unfold oldest, select_turns. f_equal. f_equal. induction (rows (turns db)) as [|t l IHl]; cbn; [done|]. by rewrite H, IHl. Qed.

Section Promote.
Context {W : World} {T : Windows}.

Lemma oldest_Some P db t : valid db -> oldest P db = Some t -> turns db !! id t = Some t /\ P t = true.
Proof.
  intros [Hr _] [[[i Hi] Hp]%elem_of_select _]%order_by_head. by destruct (Hr i t Hi) as [<- _].
Qed.

Lemma oldest_None P db : oldest P db = None -> forall i t, turns db !! i = Some t -> P t = false.
Proof.
  intros H%order_by_head_None i t Ht. destruct (P t) eqn:E; [|done]. exfalso.
  assert (t ∈ select_turns P db) as Hin by (apply elem_of_select; split; [by exists i|done]). rewrite H in Hin.
  by apply elem_of_nil in Hin.
Qed.

Lemma has_active_spec db c :
  has_active db c = true <->
  exists i t, turns db !! i = Some t /\ conversationId t = c /\ isActiveTurnStatus (status t) = true.
Proof.
  unfold has_active, in_conv. rewrite existsb_In. setoid_rewrite elem_of_rows. setoid_rewrite andb_true_iff.
  setoid_rewrite bool_decide_eq_true. naive_solver.
Qed.

(** The index admits a promotion exactly when the conversation is free. *)
Lemma promote_index row data db :
  valid db -> turns db !! id row = Some row -> status row = Joining ->
  (forall t, status (data t) = Queued /\ conversationId (data t) = conversationId t) ->
  index_ok (updated (fun t => is_id (id row) t && has_status [Joining] t) data (turns db)) =
    negb (has_active db (conversationId row)).
Proof.
  intros Hv Hrow Hj Hd. set (cond := fun t => _).
  assert (forall i t, turns db !! i = Some t -> cond t = true -> i = id row /\ t = row) as Hcond.
  { intros i t Ht [Hi _]%andb_true_iff. unfold is_id in Hi. to_prop. destruct (proj1 Hv i t Ht) as [Hid _]. split; congruence. }
  assert (cond row = true) as Hcr by (unfold cond, is_id, has_status; by rewrite bool_decide_true, Hj).
  apply eq_true_iff_eq. rewrite negb_true_iff, <- not_true_iff_false, index_ok_spec, has_active_spec. split.
  - intros Hu (i & t & Ht & Hc & Ha). destruct (cond t) eqn:E; [destruct (Hcond i t Ht E) as [_ ->]; by rewrite Hj in Ha|].
    assert (i = id row) as ->; [|congruence].
    apply (Hu i (id row) t (data row)); [by rewrite lookup_updated, Ht; cbn; rewrite E|
      by rewrite lookup_updated, Hrow; cbn; rewrite Hcr|done|by rewrite (proj1 (Hd row))|by rewrite (proj2 (Hd row))].
  - intros Hn i j ti tj. rewrite !lookup_updated. intros Hi Hj'.
    apply fmap_Some in Hi as (t1 & H1 & ->), Hj' as (t2 & H2 & ->).
    destruct (cond t1) eqn:E1, (cond t2) eqn:E2; intros A1 A2 Hc.
    + destruct (Hcond _ _ H1 E1), (Hcond _ _ H2 E2). congruence.
    + exfalso. apply Hn. destruct (Hcond _ _ H1 E1) as [-> ->]. exists j, t2. rewrite (proj2 (Hd row)) in Hc. by split_and!.
    + exfalso. apply Hn. destruct (Hcond _ _ H2 E2) as [-> ->]. exists i, t1. rewrite (proj2 (Hd row)) in Hc. by split_and!.
    + by apply (proj1 (index_ok_spec _) (proj2 Hv) i j t1 t2).
Qed.

(** A parked follow-up nobody stopped. *)
Definition live (c : jsstr) (t : Turn) : bool := parked c t && negb (abortRequested t).

(** The follow-up a promotion takes. *)
Definition next_of (c : jsstr) (db : Db) : option Turn := if has_active db c then None else oldest (live c) db.

(** What it makes of a row. *)
Definition promoted_row (es : nat -> Env) (c : jsstr) (next : option Turn) (t : Turn) : Turn :=
  if parked c t && abortRequested t then client (es 0%nat) (abort_data (es 0%nat)) t
  else match next with
       | Some n => if is_id (id n) t then client (es 2%nat) (promote_data (es 2%nat)) t else t
       | None => t
       end.

(** The sweep of the stopped ones, before the read. *)
Section Swept.
Context (e : Env) (c : jsstr) (db : Db) (Hv : valid db).

Definition stopped (t : Turn) : bool := parked c t && abortRequested t.
Definition after_stop : Db := set_turns (updated stopped (client e (abort_data e)) (turns db)) db.

Lemma stopped_joining t : stopped t = true -> status t = Joining.
Proof. unfold stopped, parked. intros [[_ H]%andb_true_iff _]%andb_true_iff. unfold has_status, one_of in H. to_prop. by apply list_elem_of_singleton in H. Qed.

Lemma stop_runs : exists rs, update_turns stopped (client e (abort_data e)) db = (inl rs, after_stop).
Proof.
  eexists. apply (update_fits stopped _ db); [apply Hv|]. intros t Ht. by split.
Qed.

Lemma after_stop_valid : valid after_stop.
Proof.
  destruct stop_runs as [rs E]. pose proof (evolves_update_turns stopped (client e (abort_data e)) db) as H.
  rewrite E in H. apply H; [|done]. apply lawful_client. eapply lawful_weaken; [|apply lawful_abort]. intros t Ht. unfold has_status. by rewrite (stopped_joining t Ht).
Qed.

Lemma after_stop_oldest : oldest (parked c) after_stop = oldest (live c) db.
Proof.
  unfold oldest, after_stop. rewrite select_updated; [|by intros t _; unfold parked, has_status; rewrite andb_false_r].
  apply oldest_ext. intros t. unfold live, stopped. by destruct (parked c t), (abortRequested t).
Qed.

Lemma after_stop_active c' : has_active after_stop c' = has_active db c'.
Proof.
  apply eq_true_iff_eq. rewrite !has_active_spec. unfold after_stop. cbn [turns set_turns]. setoid_rewrite lookup_updated.
  split.
  - intros (i & t & [t0 [Ht ->]]%fmap_Some & Hc & Ha). destruct (stopped t0); [done|]. by exists i, t0.
  - intros (i & t & Ht & Hc & Ha). exists i, t. split_and!; [|done..]. rewrite Ht. cbn.
    destruct (stopped t) eqn:E; [|done]. apply stopped_joining in E. by rewrite E in Ha.
Qed.
End Swept.

Lemma upd_promoted es c db row :
  valid db -> turns db !! id row = Some row -> status row = Joining ->
  updated (fun t => is_id (id row) t && has_status [Joining] t) (client (es 2%nat) (promote_data (es 2%nat)))
    (turns (after_stop (es 0%nat) c db)) = promoted_row es c (Some row) <$> turns db.
Proof.
  intros Hv Hrow Hj. apply map_eq. intros i. unfold after_stop. cbn [turns set_turns]. rewrite !lookup_updated, lookup_fmap.
  destruct (turns db !! i) as [t|] eqn:Ht; [|done]. cbn. f_equal. unfold promoted_row. fold (stopped c t).
  destruct (stopped c t) eqn:Es; [by unfold has_status; rewrite andb_false_r|].
  destruct (is_id (id row) t) eqn:Ei; [|done]. unfold is_id in Ei. to_prop. destruct (proj1 Hv i t Ht) as [Hid _].
  assert (t = row) as -> by congruence. unfold has_status. by rewrite Hj.
Qed.

(** One promotion, on its own: follow-ups that were stopped are aborted, and
    the oldest of the others is queued, and said to be, exactly when no turn
    of the conversation is active; no other row changes. *)
Lemma promotion_runs es c db :
  valid db -> exists db', run es (promoteOldestParkedFollowUp c) db = (inl (set (next_of c db)), db') /\
    turns db' = promoted_row es c (next_of c db) <$> turns db.
Proof.
  intros Hv. unfold promoteOldestParkedFollowUp, updateMany. rewrite run_exec. fold (stopped c).
  destruct (stop_runs (es 0%nat) c db Hv) as [rs Hstop]. rewrite Hstop, run_ask, after_stop_oldest.
  pose proof (after_stop_valid (es 0%nat) c db Hv) as Hv1. pose proof (after_stop_active (es 0%nat) c db c) as Ha.
  assert (forall n, (forall t, n = Some t -> False) ->
    turns (after_stop (es 0%nat) c db) = promoted_row es c n <$> turns db) as Hnone.
  { intros [t|] Hn; [by destruct (Hn t)|]. reflexivity. }
  unfold next_of. destruct (oldest (live c) db) as [row|] eqn:Ho.
  2: { exists (after_stop (es 0%nat) c db). destruct (has_active db c); (split; [done|by apply Hnone]). }
  apply oldest_Some in Ho as [Hrow Hlive]; [|done]. unfold live in Hlive. apply andb_true_iff in Hlive as [Hp Hf].
  assert (conversationId row = c /\ status row = Joining) as [Hc Hj].
  { unfold parked, in_conv, has_status, one_of in Hp. to_prop. by apply list_elem_of_singleton in H0. }
  assert (turns (after_stop (es 0%nat) c db) !! id row = Some row) as Hrow1.
  { unfold after_stop. cbn. rewrite lookup_updated, Hrow. cbn. unfold stopped. by rewrite (proj1 (negb_true_iff _) Hf), andb_false_r. }
  pose proof (promote_index row (client (es 2%nat) (promote_data (es 2%nat))) _ Hv1 Hrow1 Hj ltac:(done)) as Hi.
  rewrite Hc, Ha in Hi. set (upd := updated _ _ _) in Hi. set (db1 := after_stop (es 0%nat) c db) in *.
  destruct (update_turns_cases (fun t => is_id (id row) t && has_status [Joining] t)
    (client (es 2%nat) (promote_data (es 2%nat))) db1) as [[Hok E]|[Hno E]].
  - fold upd in Hok. assert (has_active db c = false) as -> by (rewrite <- negb_true_iff, <- Hi; exact Hok).
    exists (run (fun m => es (3 + m)%nat) (match conv_agent c with Some a => wakeSandboxFor a None | None => mret () end)
      (set_turns upd db1)).2.
    assert (turns (run (fun m => es (3 + m)%nat) (match conv_agent c with Some a => wakeSandboxFor a None | None => mret () end)
      (set_turns upd db1)).2 = upd) as Hw.
    { destruct (conv_agent c) as [a|]; [|done]. unfold wakeSandboxFor. destruct (agent_sandbox a); [|done].
      apply turns_update_sandbox. }
    split; [|rewrite Hw; by apply upd_promoted].
    cbn. unfold later_moments. rewrite E. fold upd. set (rs1 := List.filter _ _).
    assert (row ∈ rs1) as Hin.
    { apply elem_of_lfilter. split; [apply elem_of_rows; by exists (id row)|].
      unfold is_id, has_status. by rewrite bool_decide_true, Hj. }
    destruct rs1 as [|r0 rs1]; [by apply elem_of_nil in Hin|]. cbn.
    destruct (conv_agent c) as [a|]; [|done]. unfold wakeSandboxFor. by destruct (agent_sandbox a).
  - fold upd in Hno. assert (has_active db c = true) as -> by (rewrite <- negb_false_iff, <- Hi; exact Hno).
    exists db1. split; [|by apply Hnone]. cbn. unfold later_moments. rewrite E. done.
Qed.
End Promote.

(** ** A program on its own *)

(** [p] run alone from [db], whatever its moments: how it ends. *)
Definition ended {A} (Q : A -> Db -> Prop) (E : Exn -> Db -> Prop) (r : (A + Exn) * Db) : Prop :=
  match r with (inl a, db) => Q a db | (inr x, db) => E x db end.

Fixpoint ends {A} (Q : A -> Db -> Prop) (E : Exn -> Db -> Prop) (p : prog A) (db : Db) : Prop :=
  match p with
  | Ret a => Q a db
  | Throw x => E x db
  | Stmt f k => forall e, ends Q E (k (f e db).1) (f e db).2
  end.

Lemma ends_runs {A} Q E (p : prog A) db : ends Q E p db <-> forall es, ended Q E (run es p db).
Proof.
  revert db. induction p as [a|x|X f k IH]; intros db; cbn; [by split; [|intros H; apply (H (fun _ => mkEnv 0 [] (fun _ => false) true))]..|].
  split.
  - intros H es. specialize (H (es 0%nat)). destruct (f (es 0%nat) db) as [y db']. by apply IH.
  - intros H e. apply IH. intros es. specialize (H (fun n => match n with O => e | S n => es n end)). cbn in H.
    by destruct (f e db) as [y db'].
Qed.

Lemma ends_bind {A B} Q E (p : prog A) (g : A -> prog B) db :
  ends (fun a db => ends Q E (g a) db) E p db -> ends Q E (p ≫= g) db.
Proof.
  unfold mbind, prog_bind. revert db. induction p as [a|x|X f k IH]; cbn; intros db H; [done|done|]. intros e. by apply IH.
Qed.

Lemma ends_catch {A} (Q : A -> Db -> Prop) E p h db :
  ends Q (fun x db => ends Q E (h x) db) p db -> ends Q E (catch p h) db.
Proof. revert db. induction p as [a|x|X f k IH]; cbn; intros db H; [done|done|]. intros e. by apply IH. Qed.

Lemma ends_mono {A} (Q Q' : A -> Db -> Prop) (E E' : Exn -> Db -> Prop) p db :
  (forall a db, Q a db -> Q' a db) -> (forall x db, E x db -> E' x db) -> ends Q E p db -> ends Q' E' p db.
Proof. intros HQ HE. revert db. induction p as [a|x|X f k IH]; cbn; intros db H; auto. Qed.

(** What every statement keeps, the whole run does. *)
Lemma ends_always {A} (R : Db -> Db -> Prop) `{!Reflexive R, !Transitive R} (p : prog A) db :
  always R p -> ends (fun _ => R db) (fun _ => R db) p db.
Proof.
  intros Hp. apply ends_runs. intros es. pose proof (run_always R es p db Hp) as H. by destruct (run es p db) as [[a|x] db'].
Qed.

Section Poll.
Context {W : World} {T : Windows}.

(** ** No follow-up is stranded *)

(** A follow-up parked in [c] waits for an active turn. *)
Definition unstranded (db : Db) (c : jsstr) : Prop :=
  forall i t, turns db !! i = Some t -> parked c t = true -> has_active db c = true.

Lemma promoted_row_conv es c n t : conversationId (promoted_row es c n t) = conversationId t.
Proof. unfold promoted_row. destruct (_ && _); [done|]. destruct n as [n|]; [|done]. by destruct (is_id _ _). Qed.

Lemma next_live db c n : valid db -> next_of c db = Some n -> turns db !! id n = Some n /\ live c n = true.
Proof. unfold next_of. intros Hv. destruct (has_active db c); [done|]. by apply oldest_Some. Qed.

Lemma parked_conv c t : parked c t = true -> conversationId t = c /\ status t = Joining.
Proof. unfold parked, in_conv, has_status, one_of. intros [Hc Hs]%andb_true_iff. to_prop. by apply list_elem_of_singleton in Hs. Qed.

Lemma promoted_row_other es c db i t :
  valid db -> turns db !! i = Some t -> conversationId t <> c -> promoted_row es c (next_of c db) t = t.
Proof.
  intros Hv Ht Hc. unfold promoted_row. destruct (parked c t) eqn:Hp; [by apply parked_conv in Hp as [? _]|]. cbn.
  destruct (next_of c db) as [n|] eqn:Hn; [|done]. apply next_live in Hn as [Hn Hl]; [|done].
  destruct (is_id (id n) t) eqn:Hi; [|done]. unfold is_id in Hi. to_prop. destruct (proj1 Hv i t Ht) as [Hid _].
  assert (t = n) as -> by congruence. unfold live in Hl. apply andb_true_iff in Hl as [Hl _]. by apply parked_conv in Hl as [? _].
Qed.

Lemma promotion_frees es c db db' :
  valid db -> turns db' = promoted_row es c (next_of c db) <$> turns db ->
  forall c', c' = c \/ unstranded db c' -> unstranded db' c'.
Proof.
  intros Hv Ht c' Hc' i t'. rewrite Ht, lookup_fmap. intros (t & Hi & ->)%fmap_Some Hp.
  pose proof (parked_conv _ _ Hp) as [Hcv Hj]. rewrite promoted_row_conv in Hcv. apply has_active_spec. rewrite Ht.
  setoid_rewrite lookup_fmap. destruct (decide (c' = c)) as [->|Hne].
  - unfold promoted_row in Hj. destruct (parked c t && abortRequested t) eqn:Es; [done|].
    destruct (has_active db c) eqn:Ha.
    + apply has_active_spec in Ha as (j & a & Hja & Hca & Haa). exists j, a. split_and!; [|done..]. rewrite Hja. cbn. f_equal.
      unfold promoted_row, next_of. rewrite (proj2 (has_active_spec db c)) by eauto.
      destruct (parked c a) eqn:Hpa; [apply parked_conv in Hpa as [_ E]; by rewrite E in Haa|done].
    + destruct (next_of c db) as [n|] eqn:Hn.
      * pose proof (next_live _ _ _ Hv Hn) as [Hnn Hl]. exists (id n), (client (es 2%nat) (promote_data (es 2%nat)) n).
        unfold live in Hl. apply andb_true_iff in Hl as [Hl Hf]. destruct (parked_conv _ _ Hl) as [Hcn _].
        split_and!; [|exact Hcn|done]. rewrite Hnn. cbn. unfold promoted_row.
        rewrite (proj1 (negb_true_iff _) Hf), andb_false_r. unfold is_id. by rewrite bool_decide_true.
      * exfalso. unfold next_of in Hn. rewrite Ha in Hn. pose proof (oldest_None _ _ Hn i t Hi) as Hl. unfold live in Hl.
        unfold parked, in_conv, has_status in Hl, Es. rewrite Hj, bool_decide_true in Hl, Es by done. cbn in Hl, Es.
        destruct (abortRequested t); done.
  - destruct Hc' as [|Hu]; [done|].
    rewrite (promoted_row_other es c db i t) in Hp by (try done; congruence).
    apply (Hu i t Hi), has_active_spec in Hp as (j & a & Hja & Hca & Haa). exists j, a. split_and!; [|done..].
    rewrite Hja. cbn. f_equal. rewrite (promoted_row_other es c db j a); [done..|congruence].
Qed.

Lemma pass_frees cs db :
  valid db -> (forall c, c ∈ cs \/ unstranded db c) ->
  ends (fun _ db' => valid db' /\ forall c, unstranded db' c) (fun _ _ => False)
    (each (fun c => catch (promoteOldestParkedFollowUp c;; mret ()) (fun _ => mret ())) cs) db.
Proof.
  revert db. induction cs as [|c cs IH]; intros db Hv Hc; cbn [each].
  { split; [done|]. intros c. by destruct (Hc c) as [H%elem_of_nil|]. }
  apply ends_bind, ends_catch, ends_bind, ends_runs. intros es. destruct (promotion_runs es c db Hv) as (db' & Hrun & Ht).
  pose proof (run_always evolves es _ db (always_promote evolves c)) as He. rewrite Hrun in *. cbn.
  apply IH; [by apply He|]. intros c'. destruct (Hc c') as [[->|Hin]%elem_of_cons|Hu]; [right|by left|right];
    eapply promotion_frees; eauto.
Qed.

(** The conversations where a follow-up waits. *)
Definition waiting (db : Db) : list jsstr := js_dedup (map conversationId (select_turns (has_status [Joining]) db)).

Lemma elem_of_waiting db c : c ∈ waiting db <-> exists i t, turns db !! i = Some t /\ parked c t = true.
Proof.
  unfold waiting. rewrite js_dedup_elem_of, elem_of_lmap. setoid_rewrite elem_of_select. unfold parked, in_conv. split.
  - intros (t & Hc & [i Hi] & Hs). exists i, t. split; [done|]. by rewrite bool_decide_true, Hs.
  - intros (i & t & Hi & [Hc Hs]%andb_true_iff). to_prop. exists t. split_and!; eauto.
Qed.

Lemma passes_free db :
  valid db -> (length (waiting db) <= 20)%nat ->
  ends (fun _ db' => valid db' /\ forall c, unstranded db' c) (fun _ _ => False) promoteParkedFollowUps db.
Proof.
  intros Hv Hl. unfold promoteParkedFollowUps, listConversationsWithParkedFollowUps. apply ends_bind. intros e.
  cbn [fst snd ends]. set (owing := js_dedup _). apply pass_frees; [done|]. intros c.
  assert (forall c, c ∈ owing <-> exists i t, turns db !! i = Some t /\ parked c t = true /\ has_active db c = false) as Ho.
  { intros c'. unfold owing. rewrite js_dedup_elem_of, elem_of_lmap. setoid_rewrite elem_of_select. unfold parked, in_conv. split.
    - intros (t & Hc & [i Hi] & [Hs Ha]%andb_true_iff). exists i, t. to_prop. subst. by rewrite bool_decide_true, Hs.
    - intros (i & t & Hi & [Hc Hs]%andb_true_iff & Ha). to_prop. subst. exists t. split_and!; [done|eauto|by rewrite Hs, Ha]. }
  rewrite take_ge.
  - destruct (has_active db c) eqn:Ha; [right; by intros i t|]. destruct (decide (c ∈ owing)) as [|Hn]; [by left|right].
    intros i t Hi Hp. exfalso. apply Hn, Ho. eauto.
  - etransitivity; [|exact Hl]. apply submseteq_length, NoDup_submseteq; [apply js_dedup_NoDup|].
    intros c' (i & t & Hi & Hp & _)%Ho. apply elem_of_waiting. eauto.
Qed.

(** The sweeps before it create no turn, and park none. *)
Definition sweeping (db db' : Db) : Prop := evolves db db' /\ same_ids db db'.

Lemma sweeping_waiting db db' : valid db -> sweeping db db' -> (length (waiting db') <= length (waiting db))%nat.
Proof.
  intros Hv [He Hs]. apply submseteq_length, NoDup_submseteq; [apply js_dedup_NoDup|].
  intros c (i & t' & Hi & Hp)%elem_of_waiting. apply elem_of_waiting. destruct (He Hv) as [_ Hl].
  assert (i ∈ dom (turns db)) as [t Ht]%elem_of_dom by (rewrite <- Hs; apply elem_of_dom; eauto).
  exists i, t. split; [done|]. destruct (Hl i t Ht) as (t2 & Ht2 & K & _ & M). rewrite Hi in Ht2. injection Ht2 as <-.
  apply parked_conv in Hp as [Hc Hj]. assert (conversationId t = c) as Hct by (unfold key in K; congruence).
  assert (status t = Joining) as Hst; [|unfold parked, in_conv, has_status; by rewrite bool_decide_true, Hst].
  destruct M as [[Hf _]|[Hr _ _]]; [congruence|]. rewrite Hj in Hr.
  apply rtc_inv_r in Hr as [Heq|(s & _ & Hed)]; [congruence|]. by destruct s.
Qed.

Lemma always_both {A} (R S : Db -> Db -> Prop) (p : prog A) :
  always R p -> always S p -> always (fun db db' => R db db' /\ S db db') p.
Proof.
  induction p as [a|x|X f k IH]; cbn; [done|done|]. intros H1 H2 e db. destruct (H1 e db), (H2 e db). split; [done|]. by apply IH.
Qed.

#[export] Instance sweeping_preorder : PreOrder sweeping.
Proof. split; [split; reflexivity|]. intros a b c [H1 H2] [H3 H4]. split; by etransitivity. Qed.

Lemma ends_sweep (p : prog ()) db :
  always evolves p -> always same_ids p -> ends (fun _ => sweeping db) (fun _ _ => False) (quietly p) db.
Proof.
  intros H1 H2. apply ends_catch. pose proof (ends_always sweeping p db (always_both _ _ _ H1 H2)) as H.
  by refine (ends_mono _ _ _ _ _ _ _ _ H).
Qed.

Lemma same_settle rs : always same_ids (settleSweptTurns rs).
Proof. unfold settleSweptTurns, settleAutomationRun, tell. walk. by apply always_same_query. Qed.

Lemma same_reclaim : always same_ids (rs ← reclaimStaleTurns; settleSweptTurns rs).
Proof.
  pose proof same_settle as Hs. unfold reclaimStaleTurns. apply always_bind; [|done]. walk. apply always_update. intros e db. apply same_ids_update.
Qed.

Lemma same_stalled : always same_ids (rs ← failStalledTurns; settleSweptTurns rs).
Proof.
  pose proof same_settle as Hs. unfold failStalledTurns. apply always_bind; [|done]. walk. apply always_update. intros e db. apply same_ids_update.
Qed.

(** An update that meets no row. *)
Lemma ends_idle cond data Q E db :
  (forall e i t, turns db !! i = Some t -> cond e db t = false) ->
  (forall rs, Q rs db) -> E P2002 db -> ends Q E (rawUpdate cond data) db.
Proof.
  intros Hc HQ HE e. destruct (update_turns_cases (cond e db) (data e) db) as [[_ Eq]|[_ Eq]]; cbn; rewrite Eq; cbn; [|exact HE].
  assert (updated (cond e db) (data e) (turns db) = turns db) as ->; [|destruct db; apply HQ].
  apply map_eq. intros i. rewrite lookup_updated. destruct (turns db !! i) as [t|] eqn:Ht; [|done]. cbn.
  by rewrite (Hc e i t Ht).
Qed.

(** With nothing stranded there is nothing to expire. *)
Lemma expire_idle db :
  valid db -> (forall c, unstranded db c) ->
  ends (fun _ db' => valid db' /\ forall c, unstranded db' c) (fun _ _ => False) (quietly (expireWedgedFollowUps;; mret ())) db.
Proof.
  intros Hv Hu. apply ends_catch, ends_bind. unfold expireWedgedFollowUps. apply ends_bind, ends_idle; [|done|done].
  intros e i t Ht. destruct (has_status [Joining] t) eqn:Hs; [|done].
  rewrite (Hu (conversationId t) i t Ht) by (unfold parked, in_conv; by rewrite bool_decide_true, Hs).
  by rewrite andb_false_r.
Qed.

(** C21: a poll leaves no follow-up behind: run on its own from valid tables with
    at most twenty conversations where one waits, its sweeps end without an
    error and every parked follow-up then waits for a turn that is active:
    whatever was late was failed, and every freed conversation has its oldest
    live follow-up queued. *)
Theorem poll_strands_nothing es db :
  valid db -> (length (waiting db) <= 20)%nat ->
  exists db', run es runPollSweeps db = (inl (), db') /\ valid db' /\
    forall i t, turns db' !! i = Some t -> status t = Joining ->
      exists j a, turns db' !! j = Some a /\ conversationId a = conversationId t /\ isActiveTurnStatus (status a) = true.
Proof.
  intros Hv Hl.
  assert (ends (fun _ db' => valid db' /\ forall c, unstranded db' c) (fun _ _ => False) runPollSweeps db) as H.
  { unfold runPollSweeps, follow_up_sweeps. apply ends_bind.
    refine (ends_mono _ _ _ _ _ _ _ _ (ends_sweep _ _ _ same_reclaim)); [|done|].
    2: { apply always_bind; [apply (always_reclaim evolves)|intros rs; apply (always_settleSwept evolves)]. }
    intros _ db1 S1. apply ends_bind. refine (ends_mono _ _ _ _ _ _ _ _ (ends_sweep _ _ _ same_stalled)); [|done|].
    2: { apply always_bind; [apply (always_stalled evolves)|intros rs; apply (always_settleSwept evolves)]. }
    intros _ db2 S2. assert (sweeping db db2) as S by (by etransitivity).
    apply ends_bind, ends_catch. refine (ends_mono _ _ _ _ _ _ _ _ (passes_free db2 _ _)); [|done|by apply S|].
    2: { etransitivity; [by apply sweeping_waiting|exact Hl]. }
    intros _ db3 [Hv3 Hu3]. by apply expire_idle. }
  apply (proj1 (ends_runs _ _ _ _)) with (es := es) in H. destruct (run es runPollSweeps db) as [[[]|x] db']; [|done].
  destruct H as [Hv' Hu]. exists db'. split_and!; [done..|]. intros i t Ht Hj. apply has_active_spec, (Hu _ i t Ht).
  unfold parked, in_conv, has_status. by rewrite bool_decide_true, Hj.
Qed.

(** One promotion, on its own: the parked follow-ups of the conversation that
    were stopped are aborted; of the others the oldest is queued, and said to
    be, exactly when no turn of the conversation is active; no other row
    changes. *)
Theorem promotion_spec es c db :
  valid db ->
  let next := if has_active db c then None else oldest (fun t => parked c t && negb (abortRequested t)) db in
  exists db', run es (promoteOldestParkedFollowUp c) db = (inl (set next), db') /\
    forall i t, turns db !! i = Some t ->
      turns db' !! i = Some (
        if parked c t && abortRequested t then client (es 0%nat) (abort_data (es 0%nat)) t
        else match next with
             | Some n => if is_id (id n) t then client (es 2%nat) (promote_data (es 2%nat)) t else t
             | None => t
             end).
Proof.
  intros Hv next. destruct (promotion_runs es c db Hv) as (db' & Hrun & Ht). exists db'. split; [exact Hrun|].
  intros i t Hi. by rewrite Ht, lookup_fmap, Hi.
Qed.
End Poll.

(** ** Witnesses *)

Section Witness.
#[local] Existing Instances clear_world sample_windows.

(** A turn runs, two follow-ups wait behind it, and its ceiling passes. *)
Definition overdue : Db :=
  serve [posts 1000 "t1" "c1"; polls 2000; begins 3000 reporter1 "c1" "t1"; posts 4000 "t2" "c1"; posts 5000 "t3" "c1"]
    fresh_db.

Lemma overdue_valid : valid overdue.
Proof.
  destruct (pool_serve service [posts 1000 "t1" "c1"; polls 2000; begins 3000 reporter1 "c1" "t1"; posts 4000 "t2" "c1";
    posts 5000 "t3" "c1"] fresh_db) as [ps Hrun]; [serves|]. exact (proj1 (pool_evolves _ _ _ Hrun fresh_valid)).
Qed.

Lemma poll_strands_nothing_witness :
  (length (waiting overdue) <= 20)%nat /\
  exists db', run (at_time 30000000 "-") runPollSweeps overdue = (inl (), db') /\
    (status_of "t1" db', status_of "t2" db', status_of "t3" db') = (Some Failed, Some Queued, Some Joining).
Proof.
  assert (length (waiting overdue) <= 20)%nat as Hl by (apply Nat.leb_le; vm_compute; reflexivity). split; [exact Hl|].
  destruct (poll_strands_nothing (at_time 30000000 "-") overdue overdue_valid Hl) as (db' & Hrun & _).
  exists db'. split; [exact Hrun|]. apply (f_equal snd) in Hrun. cbn [snd] in Hrun. rewrite <- Hrun. vm_compute. reflexivity.
Defined.

Lemma promotion_spec_witness :
  has_active overdue (js "c1") = true /\
  exists db', run (at_time 6000 "-") (promoteOldestParkedFollowUp (js "c1")) overdue = (inl false, db').
Proof.
  split; [vm_compute; reflexivity|].
  destruct (promotion_spec (at_time 6000 "-") (js "c1") overdue overdue_valid) as (db' & Hrun & _). exists db'.
  refine (eq_trans Hrun _). repeat f_equal.
Defined.
End Witness.
