(* ===== verification/TurnStop.v ===== *)
(** * Stop means silence

    What stopping a turn leaves in its conversation, at the request and at the
    close that answers it. *)
From S2P Require Import Prelude JsJson JsBytes TurnEvents TurnText TurnDb TurnService TurnDoors TurnRuns TurnRows.
From S2P Require Import TurnPrograms TurnLifecycle TurnSample TurnSends TurnPromote.
Local Open Scope Z_scope.

Section Stop.
Context {W : World} {T : Windows}.

(** Nothing of the conversation runs, waits or will run. *)
Definition quiet (db : Db) (c : jsstr) : Prop :=
  forall i t, turns db !! i = Some t -> conversationId t = c -> is_final (status t) = true.

Definition free (db : Db) (c : jsstr) : Prop :=
  forall i t, turns db !! i = Some t -> conversationId t = c -> isActiveTurnStatus (status t) = false.

Definition unparked (db : Db) (c : jsstr) : Prop := forall i t, turns db !! i = Some t -> parked c t = false.

Lemma quiet_free db c : free db c -> unparked db c -> quiet db c.
Proof.
  intros Hf Hp i t Ht Hc. pose proof (Hf i t Ht Hc) as Ha. pose proof (Hp i t Ht) as Hj. unfold parked, in_conv, has_status in Hj.
  rewrite bool_decide_true in Hj by done. by destruct (status t).
Qed.

(** An update that makes nothing active is not refused. *)
Lemma ends_fits good (cond : Env -> Db -> Turn -> bool) data Q E db :
  valid db -> (forall e t, cond e db t = true -> good t = true) -> (forall e, lawful good (data e)) ->
  (forall e t, good t = true -> isActiveTurnStatus (status (data e t)) = true -> isActiveTurnStatus (status t) = true) ->
  (forall e db', valid db' -> turns db' = updated (cond e db) (data e) (turns db) ->
     Q (map (data e) (List.filter (cond e db) (rows (turns db)))) db') ->
  ends Q E (rawUpdate cond data) db.
Proof.
  intros Hv Hc Hl Hd HQ e. pose proof (evolves_update_rows (cond e db) good (data e) db) as Hev.
  assert (forall t, cond e db t = true -> turns db !! id t = Some t -> conversationId (data e t) = conversationId t) as Hk.
  { intros t Ht Hi. destruct (proj1 Hv _ _ Hi) as [_ Hw]. destruct (Hl e t (Hc e t Ht) Hw) as [[K _] _].
    unfold key in K. congruence. }
  destruct (update_turns_cases (cond e db) (data e) db) as [[Hi E1]|[Hn _]].
  - cbn. rewrite E1 in *. cbn in *. apply HQ; [|done]. apply Hev; [|done..]. intros _ t _. apply Hc.
  - exfalso. apply not_true_iff_false in Hn. apply Hn. apply index_ok_spec. intros i j ti tj. rewrite !lookup_updated.
    intros (t1 & H1 & ->)%fmap_Some (t2 & H2 & ->)%fmap_Some.
    assert (forall i t, turns db !! i = Some t -> let t' := if cond e db t then data e t else t in
      conversationId t' = conversationId t /\ (isActiveTurnStatus (status t') = true -> isActiveTurnStatus (status t) = true)) as Hr.
    { intros k t Ht. cbn. destruct (cond e db t) eqn:Ec; [|done]. destruct (proj1 Hv _ _ Ht) as [Hid _].
      split; [apply Hk; [done|by rewrite Hid]|apply Hd; by eapply Hc]. }
    destruct (Hr i t1 H1) as [C1 A1], (Hr j t2 H2) as [C2 A2]. intros B1 B2. rewrite C1, C2.
    apply (proj1 (index_ok_spec _) (proj2 Hv) i j t1 t2); auto.
Qed.

(** The sweeps of a stop take every parked follow-up their condition meets. *)
Lemma ends_sweeping c extra (Q : () -> Db -> Prop) E db :
  valid db ->
  (forall e db', valid db' -> turns db' = updated (fun t => extra t && parked c t) (client e (abort_data e)) (turns db) -> Q () db') ->
  ends Q E (sweepFollowUps c extra) db.
Proof.
  intros Hv HQ. unfold sweepFollowUps. apply ends_bind. apply ends_fits with (has_status open_statuses); [done|..].
  - intros e t [_ Ht]%andb_true_iff. apply parked_conv in Ht as [_ Hj]. unfold has_status. by rewrite Hj.
  - intros e. apply lawful_client, lawful_abort.
  - done.
  - intros e db' Hv' Ht. cbn. by eapply HQ.
Qed.

(** ** The request *)

(** The turn a person sees under an identifier. *)
Lemma seen_found ws viewer i db t :
  valid db -> turns db !! i = Some t -> visible ws (conversationId t) viewer = true ->
  head (select_turns (seen_turn ws viewer i) db) = Some t.
Proof.
  intros Hv Ht Hs. assert (forall t', t' ∈ select_turns (seen_turn ws viewer i) db <-> t' = t) as Hin.
  { intros t'. rewrite elem_of_select. unfold seen_turn, is_id. split.
    - intros [[j Hj] [Hi _]%andb_true_iff]. to_prop. destruct (proj1 Hv j t' Hj) as [Hid _]. congruence.
    - intros ->. destruct (proj1 Hv i t Ht) as [Hid _]. split; [eauto|]. by rewrite bool_decide_true, Hs. }
  destruct (select_turns _ _) as [|t0 l]; [exfalso; by apply (elem_of_nil t), Hin|]. cbn. f_equal. apply Hin. by left.
Qed.

(** What an in-flight stop leaves: the turn's flag, and no follow-up that a
    promotion could run. *)
Definition stopping (db : Db) (i c : jsstr) : Prop :=
  (exists t, turns db !! i = Some t /\ conversationId t = c /\ abortRequested t = true) /\
  forall j t, turns db !! j = Some t -> parked c t = true -> abortRequested t = true.

(** An update that ends the one active turn of a conversation. *)
Lemma freed cond data db db' i t :
  valid db -> turns db !! i = Some t -> isActiveTurnStatus (status t) = true -> cond t = true ->
  (forall x, conversationId (data x) = conversationId x /\ isActiveTurnStatus (status (data x)) = false) ->
  turns db' = updated cond data (turns db) -> free db' (conversationId t).
Proof.
  intros Hv Ht Ha Hc Hd E j x. rewrite E, lookup_updated. intros (x0 & Hj & ->)%fmap_Some.
  destruct (cond x0) eqn:Ex; [by intros _; apply Hd|]. intros Hcx. apply not_true_iff_false. intros Hax.
  assert (j = i) as -> by (by apply (proj1 (index_ok_spec _) (proj2 Hv) j i x0 t)). congruence.
Qed.

Lemma free_updated cond data db db' c :
  (forall x, cond x = true -> conversationId (data x) = conversationId x /\
     (isActiveTurnStatus (status (data x)) = true -> isActiveTurnStatus (status x) = true)) ->
  turns db' = updated cond data (turns db) -> free db c -> free db' c.
Proof.
  intros Hd E Hf j x. rewrite E, lookup_updated. intros (x0 & Hj & ->)%fmap_Some. destruct (cond x0) eqn:Ex; [|exact (Hf j x0 Hj)].
  destruct (Hd x0 Ex) as [-> Hx]. intros Hc. apply not_true_iff_false. intros Ha%Hx. rewrite (Hf j x0 Hj Hc) in Ha. done.
Qed.

(** Every parked follow-up of the conversation ended. *)
Lemma swept_unparked cond e db db' c :
  (forall x, parked c x = true -> cond x = true) ->
  turns db' = updated cond (client e (abort_data e)) (turns db) -> unparked db' c.
Proof.
  intros Hc E j x. rewrite E, lookup_updated. intros (x0 & Hj & ->)%fmap_Some.
  destruct (cond x0) eqn:Ex; [unfold parked; by rewrite andb_false_r|]. apply not_true_iff_false. intros Hx%Hc. congruence.
Qed.

Lemma updated_rows_nonempty cond (data : Turn -> Turn) db i t :
  turns db !! i = Some t -> cond t = true -> exists r rs, map data (List.filter cond (rows (turns db))) = r :: rs.
Proof.
  intros Ht Hc. destruct (List.filter cond (rows (turns db))) as [|r rs] eqn:E; [|by exists (data r), (map data rs)].
  assert (t ∈ List.filter cond (rows (turns db))) as H by (apply elem_of_lfilter; split; [apply elem_of_rows; by exists i|done]).
  rewrite E in H. by apply elem_of_nil in H.
Qed.

Lemma queued_stop ws i viewer db t :
  valid db -> turns db !! i = Some t -> visible ws (conversationId t) viewer = true -> status t = Queued ->
  ends (fun o db' => o = Some (mkAbortAnswer true false) /\ quiet db' (conversationId t)) (fun _ _ => False)
    (abort_attempt ws i viewer) db.
Proof.
  intros Hv Ht Hs Hq. unfold abort_attempt, find_turn. apply ends_bind. intros e. cbn [fst snd ends].
  rewrite (seen_found ws viewer i db t Hv Ht Hs). unfold has_status at 1 3. rewrite Hq. cbn [one_of negb].
  change (one_of [Joining] Queued) with false. change (isActiveTurnStatus Queued) with true.
  change (one_of [Queued] Queued) with true. cbn [negb]. apply ends_bind.
  assert (is_id i t = true) as Hid by (unfold is_id; destruct (proj1 Hv i t Ht) as [<- _]; by rewrite bool_decide_true).
  apply ends_fits with (has_status open_statuses); [done| | |done|].
  - intros _ x [_ Hx]%andb_true_iff. eapply has_status_mono; [|exact Hx]. reflexivity.
  - intros e1. apply lawful_client, lawful_abort.
  - intros e1 db1 Hv1 E1.
    destruct (updated_rows_nonempty (fun x => is_id i x && has_status [Queued] x) (client e1 (abort_data e1)) db i t Ht) as (r & rs & ->);
      [unfold has_status; by rewrite Hid, Hq|]. cbn [length Nat.eqb].
    assert (free db1 (conversationId t)) as Hf.
    { eapply (freed _ _ db); [done|exact Ht|by rewrite Hq| | |exact E1]; [unfold has_status; by rewrite Hid, Hq|done]. }
    apply ends_bind, ends_sweeping; [done|]. intros e2 db2 Hv2 E2. apply ends_bind. intros e3. cbn. split; [done|].
    apply (quiet_free db2).
    + eapply free_updated; [|exact E2|exact Hf]. done.
    + eapply swept_unparked; [|exact E2]. done.
Qed.

Lemma running_stop ws i viewer db t :
  valid db -> turns db !! i = Some t -> visible ws (conversationId t) viewer = true ->
  has_status [Dispatched; Running] t = true ->
  ends (fun o db' => o = Some (mkAbortAnswer false true) /\ stopping db' i (conversationId t)) (fun _ _ => False)
    (abort_attempt ws i viewer) db.
Proof.
  intros Hv Ht Hs Hq. unfold abort_attempt, find_turn. apply ends_bind. intros e. cbn [fst snd ends].
  rewrite (seen_found ws viewer i db t Hv Ht Hs).
  assert (has_status [Joining] t = false /\ isActiveTurnStatus (status t) = true /\ has_status [Queued] t = false) as (-> & -> & ->)
    by (unfold has_status in *; by destruct (status t)).
  assert (is_id i t = true) as Hid by (unfold is_id; destruct (proj1 Hv i t Ht) as [<- _]; by rewrite bool_decide_true).
  cbn [negb]. apply ends_bind. apply ends_fits with (fun _ => true); [done|done|intros e1; apply lawful_client, lawful_flag|done|].
  intros e1 db1 Hv1 E1. apply ends_bind, ends_sweeping; [done|]. intros e2 db2 Hv2 E2.
  apply ends_bind. apply ends_fits with (fun _ => true); [done|done|intros e3; apply lawful_client, lawful_flag|done|].
  intros e3 db3 Hv3 E3. split; [done|]. rewrite E2, E1 in E3.
  assert (parked (conversationId t) t = false) as Hnp.
  { unfold parked. apply andb_false_intro2. unfold has_status in *. by destruct (status t). }
  split.
  - rewrite E3, !lookup_updated, Ht. cbn [fmap option_fmap option_map]. rewrite Hid.
    set (y := client e1 (set_abortRequested true) t). assert (parked (conversationId t) y = false) as Hy by exact Hnp.
    rewrite Hy, andb_false_r, Hy. cbn [andb]. by exists y.
  - intros j x. rewrite E3, !lookup_updated. intros (x1 & (x2 & (x3 & Hj & ->)%fmap_Some & ->)%fmap_Some & ->)%fmap_Some.
    set (y := if is_id i x3 then _ else x3). set (z := if negb (delivered_to i y) && _ then _ else y).
    destruct (parked (conversationId t) z && delivered_to i z) eqn:Ez; [done|]. intros Hz. rewrite Hz in Ez. cbn in Ez.
    exfalso. unfold z in Hz, Ez. destruct (negb (delivered_to i y) && parked (conversationId t) y) eqn:Ey.
    + unfold parked in Hz. by rewrite andb_false_r in Hz.
    + rewrite Ez, Hz in Ey. done.
Qed.

(** C27: stopping a turn that waits in the queue ends it and leaves nothing of its
    conversation running or waiting; stopping one that was handed out flags
    it, and leaves no follow-up that a promotion could run in its place: each
    one still parked carries the stop. *)
Theorem abortTurn_spec es ws i viewer db t :
  valid db -> turns db !! i = Some t -> visible ws (conversationId t) viewer = true ->
  isActiveTurnStatus (status t) = true ->
  exists answer db', run es (abortTurn ws i viewer) db = (inl answer, db') /\
    if has_status [Queued] t
    then answer = mkAbortAnswer true false /\ quiet db' (conversationId t)
    else answer = mkAbortAnswer false true /\ stopping db' i (conversationId t).
Proof.
  intros Hv Ht Hs Ha.
  assert (ends (fun o db' => if has_status [Queued] t
      then o = Some (mkAbortAnswer true false) /\ quiet db' (conversationId t)
      else o = Some (mkAbortAnswer false true) /\ stopping db' i (conversationId t)) (fun _ _ => False)
    (abort_attempt ws i viewer) db) as H.
  { destruct (has_status [Queued] t) eqn:Hq.
    - apply queued_stop; [done..|]. unfold has_status in Hq. by destruct (status t).
    - apply running_stop; [done..|]. unfold has_status in *. by destruct (status t). }
  assert (ends (fun answer db' => if has_status [Queued] t
      then answer = mkAbortAnswer true false /\ quiet db' (conversationId t)
      else answer = mkAbortAnswer false true /\ stopping db' i (conversationId t)) (fun _ _ => False)
    (abortTurn ws i viewer) db) as Hrun.
  { unfold abortTurn. cbn [abort_attempts]. apply ends_bind. refine (ends_mono _ _ _ _ _ _ _ _ H); [|done].
    intros o db'. by destruct (has_status [Queued] t); intros [-> Hq]. }
  apply (proj1 (ends_runs _ _ _ _)) with (es := es) in Hrun. destruct (run es _ db) as [[answer|x] db']; [|done].
  exists answer, db'. by split.
Qed.

(** ** The close *)

Lemma valid_turns db db' : turns db' = turns db -> valid db -> valid db'.
Proof. unfold valid. by intros ->. Qed.

Lemma ends_turns {X} (f : Env -> Db -> X * Db) (Q : X -> Db -> Prop) E db :
  (forall e, turns (f e db).2 = turns db) -> (forall x db', turns db' = turns db -> Q x db') -> ends Q E (query f) db.
Proof. intros Hf HQ e. cbn. apply HQ, Hf. Qed.

Lemma persist_free c cond ref db :
  ends (fun _ db' => turns db' = turns db) (fun _ _ => False) (persistSession c cond ref) db.
Proof.
  unfold persistSession. destruct ref as [[|x ref]|]; [done| |done].
  apply ends_turns; [|done]. intros e. apply turns_update_conversation.
Qed.

Lemma joins_free c i ids db :
  valid db -> free db c ->
  ends (fun _ db' => valid db' /\ free db' c) (fun _ _ => False) (updateMany (fun _ _ => joins c i ids) join_data) db.
Proof.
  intros Hv Hf. apply ends_fits with (fun t => has_status [Joining] t && negb (bool_decide (steerDeliveredAt t = None)));
    [done| |intros e; apply lawful_client, lawful_join|done|].
  - intros e t. unfold joins, parked, delivered_to. rewrite !andb_true_iff. tauto.
  - intros e db' Hv' E. split; [done|]. eapply free_updated; [|exact E|exact Hf]. done.
Qed.

Lemma abort_quiet c db :
  valid db -> free db c ->
  ends (fun _ db' => valid db' /\ quiet db' c) (fun _ _ => False) (updateMany (fun _ _ => parked c) abort_data) db.
Proof.
  intros Hv Hf. apply ends_fits with (has_status open_statuses); [done| |intros e; apply lawful_client, lawful_abort|done|].
  - intros e x Hx. apply parked_conv in Hx as [_ Hj]. unfold has_status. by rewrite Hj.
  - intros e db' Hv' E. split; [done|]. apply quiet_free.
    + eapply free_updated; [|exact E|exact Hf]. done.
    + eapply swept_unparked; [|exact E]. done.
Qed.

Lemma promotion_quiet c db :
  valid db -> quiet db c -> ends (fun _ db' => quiet db' c) (fun _ _ => False) (promoteOldestParkedFollowUp c) db.
Proof.
  intros Hv Hq. assert (unparked db c) as Hu.
  { intros i t Ht. apply not_true_iff_false. intros [Hc Hj]%parked_conv. pose proof (Hq i t Ht Hc) as H. by rewrite Hj in H. }
  apply ends_runs. intros es. destruct (promotion_runs es c db Hv) as (db' & -> & E). cbn. intros i t'. rewrite E, lookup_fmap.
  intros (t & Ht & ->)%fmap_Some Hc. rewrite promoted_row_conv in Hc.
  assert (next_of c db = None) as ->.
  { destruct (next_of c db) as [n|] eqn:En; [|done]. apply next_live in En as [Hn Hl]; [|done]. unfold live in Hl.
    by rewrite (Hu _ _ Hn) in Hl. }
  unfold promoted_row. rewrite (Hu i t Ht). cbn. by apply (Hq i t).
Qed.

(** What the statements after an aborted close leave of the conversation they
    close in. *)
Lemma after_aborted s c db :
  valid db -> free db c -> f_status s = Aborted -> f_conversationId s = c ->
  ends (fun _ db' => quiet db' c) (fun _ _ => False) (afterClose s) db.
Proof.
  intros Hv Hf Hs Hc. unfold afterClose. rewrite Hc, Hs, bool_decide_true by done.
  apply ends_bind. refine (ends_mono _ _ _ _ _ _ _ _ (persist_free _ _ _ db)); [|done]. intros _ db1 E1.
  assert (free db1 c) as Hf1 by (unfold free; by rewrite E1). pose proof (valid_turns _ _ E1 Hv) as Hv1.
  apply ends_bind. set (p := match map fst _ with [] => _ | _ => _ end).
  assert (ends (fun _ db' => valid db' /\ free db' c) (fun _ _ => False) p db1) as Hp.
  { unfold p. destruct (map fst _) as [|i ids]; [done|]. apply ends_bind.
    by refine (ends_mono _ _ _ _ _ _ _ _ (joins_free _ _ _ db1 Hv1 Hf1)). }
  refine (ends_mono _ _ _ _ _ _ _ _ Hp); [|done]. clear p Hp. intros _ db2 [Hv2 Hf2].
  apply ends_bind, ends_bind. refine (ends_mono _ _ _ _ _ _ _ _ (abort_quiet c db2 Hv2 Hf2)); [|done].
  intros _ db3 [Hv3 Hq3]. cbn [ends mret prog_ret].
  apply ends_bind, ends_catch, ends_bind. refine (ends_mono _ _ _ _ _ _ _ _ (promotion_quiet c db3 Hv3 Hq3)); [|done].
  intros _ db4 Hq4. cbn [ends mret prog_ret]. intros e. exact Hq4.
Qed.

Lemma close_data_row s e t :
  f_status s = Aborted -> conversationId (close_data s e t) = conversationId t /\ status (close_data s e t) = Aborted.
Proof. intros Hs. unfold close_data. destruct (knownFailureCopy s), (f_usage s); cbn; by rewrite Hs. Qed.

(** An aborted close by the turn's own reporter leaves the conversation
    silent: whatever was parked behind the stopped turn is taken in or ended,
    nothing is promoted, and nothing there is active. *)
Theorem aborted_close_quiets es report db i t :
  let s := storable_report report in
  valid db -> f_status report = Aborted -> turns db !! i = Some t -> own s t = true ->
  isActiveTurnStatus (status t) = true ->
  exists db', run es (finishTurn report) db = (inl (), db') /\ quiet db' (conversationId t).
Proof.
  intros s Hv Hs Ht Ho Ha.
  assert (conversationId t = f_conversationId s) as Hc.
  { unfold own, in_conv in Ho. rewrite !andb_true_iff in Ho. destruct Ho as [[_ Ho] _]. by to_prop. }
  assert (ends (fun _ db' => quiet db' (conversationId t)) (fun _ _ => False) (finishTurn report) db) as H.
  { unfold finishTurn. fold s. apply ends_bind. unfold recoverTurn.
    assert (deathReport s = false) as -> by (unfold deathReport; change (f_status s) with (f_status report); by rewrite Hs).
    cbn [ends mret prog_ret]. apply ends_bind. unfold closable. change (f_status s) with (f_status report). rewrite Hs, bool_decide_false by done.
    apply ends_fits with (has_status ACTIVE_TURN_STATUSES); [done| | | |].
    - intros _ x [_ Hx]%andb_true_iff. exact Hx.
    - intros e. apply lawful_client, lawful_close. change (f_status s) with (f_status report). rewrite Hs, !elem_of_cons. tauto.
    - intros e x _. destruct (close_data_row s e x Hs) as [_ Hx]. intros Hax.
      change (isActiveTurnStatus (status (close_data s e x)) = true) in Hax. by rewrite Hx in Hax.
    - intros e db1 Hv1 E1.
      destruct (updated_rows_nonempty (fun x => own s x && has_status ACTIVE_TURN_STATUSES x) (client e (close_data s e)) db i t Ht)
        as (r & rs & ->); [cbv beta; rewrite Ho; exact Ha|]. apply after_aborted; [done| |done|done].
      eapply (freed _ _ db); [done|exact Ht|done| | |exact E1]; [cbv beta; rewrite Ho; exact Ha|].
      intros x. destruct (close_data_row s e x Hs) as [Hcx Hsx]. split; [exact Hcx|].
      change (isActiveTurnStatus (status (close_data s e x)) = false). by rewrite Hsx. }
  apply (proj1 (ends_runs _ _ _ _)) with (es := es) in H. destruct (run es _ db) as [[[]|x] db']; [|done]. by exists db'.
Qed.
End Stop.

(** ** Witnesses, and a stop that a death undoes *)

Section Witness.
#[local] Existing Instances clear_world sample_windows.

(** A turn runs and two follow-ups wait, one of them handed over. *)
Definition busy : Db :=
  serve [posts 1000 "t1" "c1"; polls 2000; begins 3000 reporter1 "c1" "t1"; posts 4000 "t2" "c1"; polls 5000;
         posts 6000 "t3" "c1"] fresh_db.

Lemma busy_valid : valid busy.
Proof.
  destruct (pool_serve service [posts 1000 "t1" "c1"; polls 2000; begins 3000 reporter1 "c1" "t1"; posts 4000 "t2" "c1";
    polls 5000; posts 6000 "t3" "c1"] fresh_db) as [ps Hrun]; [serves|]. exact (proj1 (pool_evolves _ _ _ Hrun fresh_valid)).
Qed.

Lemma abortTurn_spec_witness :
  exists t answer db', turns busy !! js "t1" = Some t /\
    run (at_time 7000 "-") (abortTurn (js "w") (js "t1") (js "u")) busy = (inl answer, db') /\
    answer = mkAbortAnswer false true /\ stopping db' (js "t1") (js "c1") /\ status_of "t3" db' = Some Aborted.
Proof.
  destruct (turns busy !! js "t1") as [t|] eqn:Ht; [|vm_compute in Ht; discriminate].
  assert (Some t = turns busy !! js "t1") as E by (symmetry; exact Ht). vm_compute in E. injection E as E.
  destruct (abortTurn_spec (at_time 7000 "-") (js "w") (js "t1") (js "u") busy t busy_valid Ht
    ltac:(rewrite E; vm_compute; reflexivity) ltac:(rewrite E; vm_compute; reflexivity)) as (answer & db' & Hrun & Hr).
  rewrite E in Hr. exists t, answer, db'. split; [exact eq_refl|]. split; [exact Hrun|].
  destruct Hr as [Hans Hst]. split; [exact Hans|]. split; [exact Hst|].
  apply (f_equal snd) in Hrun. cbn [snd] in Hrun. rewrite <- Hrun. vm_compute. reflexivity.
Defined.

(** The close that answers the stop. *)
Definition stopped_report : FinishTurnInput := mkFinish reporter1 (js "c1") (js "t1") Aborted None None None None [].

Lemma aborted_close_quiets_witness :
  exists t db', turns busy !! js "t1" = Some t /\
    run (at_time 8000 "-") (finishTurn stopped_report) busy = (inl (), db') /\ quiet db' (js "c1").
Proof.
  destruct (turns busy !! js "t1") as [t|] eqn:Ht; [|vm_compute in Ht; discriminate].
  assert (Some t = turns busy !! js "t1") as E by (symmetry; exact Ht). vm_compute in E. injection E as E.
  destruct (aborted_close_quiets (at_time 8000 "-") stopped_report busy (js "t1") t busy_valid eq_refl Ht
    ltac:(rewrite E; vm_compute; reflexivity) ltac:(rewrite E; vm_compute; reflexivity)) as (db' & Hrun & Hq).
  rewrite E in Hq. exists t, db'. split; [exact eq_refl|]. split; [exact Hrun|exact Hq].
Defined.

Definition boots (t : Z) (s : String.string) : (nat -> Env) * prog () := (at_time t "-", writeSandbox (js s) (fun _ => up)).
Arguments boots t s%_string_scope.

(** A stop handed to the runner leaves no trace on the row: when the sandbox
    then dies without answering, the turn is taken for an interrupted one and
    runs again, started or not. *)
Example stop_lost_to_death :
  let flag db := abortRequested <$> row "t1" db in
  let started := serve [posts 1000 "t1" "c1"; polls 2000; begins 3000 reporter1 "c1" "t1"; stops 4000 "t1"] fresh_db in
  let cold := serve [posts 1000 "t1" "c1"; polls 2000; stops 4000 "t1"] fresh_db in
  let again db := serve [polls 5000; dies 6000 "s1"; boots 6500 "s1"; polls 7000] db in
  (flag started, status_of "t1" (again started), flag (again started)) = (Some true, Some Dispatched, Some false) /\
  (flag cold, status_of "t1" (again cold), flag (again cold)) = (Some true, Some Dispatched, Some false).
Proof. vm_compute. split; reflexivity. Qed.
End Witness.

Section Refused.
#[local] Instance no_key_world : World := sample_world (Some (js "Connect a model key", js "model_key_not_attached")).

(** The credential check of a new turn fails the row by its identifier alone:
    a stop that lands between the check and the write is overwritten. *)
Example refusal_overwrites_stop :
  let '(rest, created) := steps 9 (at_time 1000 "t1") (createTurn (js "w") (js "c1") (js "hello") person []) fresh_db in
  let stopped := (run (at_time 2000 "-") (abortTurn (js "w") (js "t1") (js "u")) created).2 in
  let finished := (run (at_time 3000 "-") rest stopped).2 in
  (status_of "t1" created, status_of "t1" stopped, status_of "t1" finished) = (Some Queued, Some Aborted, Some Failed).
Proof. vm_compute. reflexivity. Qed.
End Refused.
