(* ===== verification/AnswerTracker.v ===== *)
(** * The answer of a turn: [apps/sandbox-supervisor/src/answer.ts]

    Which of the agent's words a turn keeps. The tracker holds two stretches of
    talk, the one being written and the last one that said something; they are
    distinct objects, so a message is a stretch and an index into it. The
    vocabulary of a harness is [packages/agent-protocol/src/harness.ts]. *)
From S2P Require Import Prelude JsJson JsBytes TurnEvents.
Local Open Scope Z_scope.

(** ** The vocabulary

    [harness_event] is what the canonical vocabulary keeps its form of: it is
    never a [text.delta] or a [message.joined]. *)
Inductive HarnessEvent :=
  | harness_event (event : AgentEvent)
  | text_delta (text : jsstr) (messageId replyTo : option jsstr)
  | text_replace (messageId text : jsstr)
  | message_joined (followUpId : jsstr)
  | message_replied (followUpId reply : jsstr)
  | turn_unanswered (code message : jsstr).

(** A steer the platform wrote, with no row behind it. *)
Definition isPlatformSteerId (steerId : jsstr) : bool :=
  starts_with (js "ceiling-warning:") steerId || starts_with (js "desktop-taken:") steerId ||
  starts_with (js "desktop-released:") steerId.

Definition toWireEvent (event : HarnessEvent) : option AgentEvent :=
  match event with
  | text_replace _ _ | message_replied _ _ | turn_unanswered _ _ => None
  | text_delta t _ _ => Some (TurnEvents.text_delta t)
  | message_joined f => Some (TurnEvents.message_joined f)
  | harness_event e => Some e
  end.

Definition replyTargetOf (event : HarnessEvent) : option jsstr :=
  match event with
  | text_delta _ _ (Some f) => if isPlatformSteerId f then None else Some f
  | _ => None
  end.

(** ** The tracker *)

Definition MAX_ANSWER_CHARS : Z := 256000.

Record Message := mkMessage { msg_id : option jsstr; msg_text : jsstr }.

Record Stretch := mkStretch { messages : list Message; chars : Z }.

Definition emptyStretch : Stretch := mkStretch [] 0.

Definition size (s : jsstr) : Z := Z.of_nat (length s).

(** The paragraphs of a stretch: its messages trimmed, the blank ones dropped. *)
Definition paragraphs (l : list Message) : list jsstr :=
  List.filter (fun p => negb (bool_decide (p = []))) (map (fun m => trim (msg_text m)) l).

Definition textOf (s : Stretch) : jsstr := join [10%N; 10%N] (paragraphs (messages s)).

Record HandedReply := mkReply { followUpId : jsstr; reply : jsstr }.

Record Tracker := mkTracker {
  current : Stretch;
  previous : Stretch;
  held : list HandedReply;
  retired : list jsstr;
}.

Definition createAnswerTracker : Tracker := mkTracker emptyStretch emptyStretch [] [].

Inductive Live := Current | Previous.
#[export] Instance live_eq : EqDecision Live := ltac:(solve_decision).

Definition stretch_at (w : Live) (t : Tracker) : Stretch :=
  match w with Current => current t | Previous => previous t end.

Definition set_stretch (w : Live) (s : Stretch) (t : Tracker) : Tracker :=
  match w with
  | Current => mkTracker s (previous t) (held t) (retired t)
  | Previous => mkTracker (current t) s (held t) (retired t)
  end.

Definition set_held (l : list HandedReply) (t : Tracker) : Tracker :=
  mkTracker (current t) (previous t) l (retired t).

(** The ids a stretch retires. *)
Definition ids_of (s : Stretch) : list jsstr := omap msg_id (messages s).

Definition retire (s : Stretch) (t : Tracker) : Tracker :=
  mkTracker (current t) (previous t) (held t) (retired t ++ ids_of s).

Definition index_of (id : option jsstr) (s : Stretch) : option nat :=
  fst <$> list_find (fun m => msg_id m = id) (messages s).

Definition find (id : option jsstr) (t : Tracker) : option (Live * nat) :=
  match index_of id (current t) with
  | Some i => Some (Current, i)
  | None => match id with None => None | Some _ => pair Previous <$> index_of id (previous t) end
  end.

Definition is_retired (id : option jsstr) (t : Tracker) : bool :=
  match id with Some i => bool_decide (i ∈ retired t) | None => false end.

Definition with_text (f : jsstr -> jsstr) (m : Message) : Message := mkMessage (msg_id m) (f (msg_text m)).

Definition append (id : option jsstr) (text : jsstr) (t : Tracker) : Tracker :=
  if bool_decide (text = []) then t else
  let found := find id t in
  if bool_decide (found = None) && is_retired id t then t else
  let w := match found with Some (w, _) => w | None => Current end in
  let s := stretch_at w t in
  if MAX_ANSWER_CHARS <=? chars s then t else
  let l := match found with
           | Some (_, i) => alter (with_text (fun old => old ++ text)) i (messages s)
           | None => messages s ++ [mkMessage id text]
           end in
  set_stretch w (mkStretch l (chars s + size text)) t.

Definition text_at (i : nat) (s : Stretch) : jsstr :=
  match messages s !! i with Some m => msg_text m | None => [] end.

Definition replace (id text : jsstr) (t : Tracker) : Tracker :=
  match find (Some id) t with
  | None => append (Some id) text t
  | Some (w, i) =>
      let s := stretch_at w t in
      let old := size (text_at i s) in
      let room := Z.max 0 (MAX_ANSWER_CHARS - (chars s - old)) in
      let kept := take (Z.to_nat room) text in
      set_stretch w (mkStretch (alter (with_text (fun _ => kept)) i (messages s)) (chars s + (size kept - old))) t
  end.

Definition closeStretch (t : Tracker) : Tracker :=
  if bool_decide (textOf (current t) = [])
  then let t := retire (current t) t in set_stretch Current emptyStretch t
  else let t := retire (previous t) t in set_stretch Current emptyStretch (set_stretch Previous (current t) t).

Definition answerStretch (t : Tracker) : Live :=
  if bool_decide (textOf (current t) = []) then Previous else Current.

Fixpoint last_index {A} (P : A -> bool) (l : list A) : option nat :=
  match l with
  | [] => None
  | x :: l' => match last_index P l' with Some i => Some (S i) | None => if P x then Some 0%nat else None end
  end.

Definition last_in (words : jsstr) (s : Stretch) : option nat :=
  last_index (fun m => bool_decide (trim (msg_text m) = words)) (messages s).

Definition lastWith (words : jsstr) (t : Tracker) : option (Live * nat) :=
  match last_in words (current t) with
  | Some i => Some (Current, i)
  | None => pair Previous <$> last_in words (previous t)
  end.

Definition takeOut (force : bool) (reply : jsstr) (t : Tracker) : bool * Tracker :=
  let words := trim reply in
  if bool_decide (words = []) then (false, t) else
  match lastWith words t with
  | None => (true, t)
  | Some (w, i) =>
      let s := stretch_at w t in
      let rest := delete i (messages s) in
      if negb force && bool_decide (w = answerStretch t) && bool_decide (textOf (mkStretch rest 0) = [])
      then (false, t)
      else (true, set_stretch w (mkStretch rest (chars s - size (text_at i s))) t)
  end.

(** [held.filter(takeOut)]: what it keeps, what is left, and the tracker. *)
Fixpoint hand_over (force : bool) (l : list HandedReply) (t : Tracker) : list HandedReply * list HandedReply * Tracker :=
  match l with
  | [] => ([], [], t)
  | h :: l' =>
      let '(taken, t1) := takeOut force (reply h) t in
      let '(handed, kept, t2) := hand_over force l' t1 in
      if taken : bool then (h :: handed, kept, t2) else (handed, h :: kept, t2)
  end.

Definition release (force : bool) (t : Tracker) : list HandedReply * Tracker :=
  let '(handed, kept, t') := hand_over force (held t) t in (handed, set_held kept t').

Definition observe (event : HarnessEvent) (t : Tracker) : list HandedReply * Tracker :=
  match event with
  | text_delta delta id _ => release false (append id delta t)
  | text_replace id fresh => release false (replace id fresh t)
  | harness_event (tool_started _ _) => let '(handed, t') := release true t in (handed, closeStretch t')
  | harness_event (tool_finished _ _ _ _ _ _) => ([], closeStretch t)
  | _ => ([], t)
  end.

Definition claim (f r : jsstr) (t : Tracker) : bool * Tracker :=
  let '(taken, t') := takeOut false r t in
  if taken : bool then (true, t')
  else (false, if bool_decide (trim r = []) then t' else set_held (held t' ++ [mkReply f r]) t').

Definition answer (t : Tracker) : jsstr := textOf (stretch_at (answerStretch t) t).

(** Feeding a turn. *)
Definition feed (events : list HarnessEvent) (t : Tracker) : Tracker :=
  fold_left (fun t e => (observe e t).2) events t.

(** ** The reference

    A turn is cut at its tool events. In each piece a message is what its
    corrections and deltas leave of it, messages stand in the order in which
    they first had text, and the answer is the last piece that says something. *)

Record Piece := mkPiece { pc_id : option jsstr; pc_correction : bool; pc_text : jsstr }.

Definition piece_of (e : HarnessEvent) : option Piece :=
  match e with
  | text_delta delta id _ => Some (mkPiece id false delta)
  | text_replace id fresh => Some (mkPiece (Some id) true fresh)
  | _ => None
  end.

Definition is_tool (e : HarnessEvent) : bool :=
  match e with harness_event (tool_started _ _ | tool_finished _ _ _ _ _ _) => true | _ => false end.

Definition cut_turn_step (s : list (list Piece) * list Piece) (e : HarnessEvent) : list (list Piece) * list Piece :=
  if is_tool e then (s.1 ++ [s.2], [])
  else match piece_of e with Some p => (s.1, s.2 ++ [p]) | None => s end.

Definition cut_turn (events : list HarnessEvent) : list (list Piece) * list Piece := fold_left cut_turn_step events ([], []).

Definition said (id : option jsstr) (l : list Piece) : jsstr :=
  fold_left (fun kept p => if bool_decide (pc_id p = id) then (if pc_correction p then pc_text p else kept ++ pc_text p) else kept) l [].

Definition first_ids (l : list Piece) : list (option jsstr) :=
  fold_left (fun ids p => if bool_decide (pc_text p = []) || bool_decide (pc_id p ∈ ids) then ids else ids ++ [pc_id p]) l [].

Definition spoken (l : list Piece) : list Message := map (fun id => mkMessage id (said id l)) (first_ids l).

Definition speech (l : list Piece) : jsstr := join [10%N; 10%N] (paragraphs (spoken l)).

Definition last_said (l : list (list Piece)) : jsstr :=
  fold_left (fun a seg => if bool_decide (speech seg = []) then a else speech seg) l [].

Definition answer_of (events : list HarnessEvent) : jsstr := let '(closed, now) := cut_turn events in last_said (closed ++ [now]).

(** Framed messages stay on their side of a tool call. *)
Definition timely (events : list HarnessEvent) : Prop :=
  forall pre e post p i, events = pre ++ e :: post -> piece_of e = Some p -> pc_id p = Some i ->
    forall seg, seg ∈ (cut_turn pre).1 -> Forall (fun q => pc_id q <> Some i) seg.

Definition total (events : list HarnessEvent) : Z :=
  foldr (fun e n => match piece_of e with Some p => size (pc_text p) | None => 0 end + n) 0 events.

#[global] Arguments spoken : simpl never.
#[global] Arguments said : simpl never.
#[global] Arguments first_ids : simpl never.
#[global] Arguments last_said : simpl never.
#[global] Arguments textOf : simpl never.

(** ** Stretches *)

Lemma index_of_spec id s :
  match index_of id s with
  | Some i => exists m, messages s !! i = Some m /\ msg_id m = id
  | None => forall m, m ∈ messages s -> msg_id m <> id
  end.
Proof.
  unfold index_of. destruct (list_find _ _) as [[i m]|] eqn:E; cbn.
  - apply list_find_Some in E as (? & ? & _). eauto.
  - apply list_find_None in E. by apply Forall_forall.
Qed.

Lemma release_none force t : held t = [] -> release force t = ([], t).
Proof. unfold release. intros H. rewrite H. cbn. destruct t; cbn in *. by subst. Qed.

(** ** The reference answers *)

Lemma said_snoc id l p :
  said id (l ++ [p]) =
  if bool_decide (pc_id p = id) then (if pc_correction p then pc_text p else said id l ++ pc_text p) else said id l.
Proof. unfold said. by rewrite fold_left_app. Qed.

Lemma first_ids_snoc l p :
  first_ids (l ++ [p]) =
  if bool_decide (pc_text p = []) || bool_decide (pc_id p ∈ first_ids l) then first_ids l else first_ids l ++ [pc_id p].
Proof. unfold first_ids. by rewrite fold_left_app. Qed.

Lemma first_ids_nodup l : NoDup (first_ids l).
Proof.
  induction l as [|p l IH] using rev_ind; [constructor|]. rewrite first_ids_snoc.
  destruct (_ || _) eqn:E; [done|]. to_prop. apply NoDup_app. split_and!; [done| |apply NoDup_singleton].
  intros x Hx ->%list_elem_of_singleton. naive_solver.
Qed.

Lemma first_ids_from l id : id ∈ first_ids l -> exists p, p ∈ l /\ pc_id p = id.
Proof.
  induction l as [|p l IH] using rev_ind; [by intros ?%elem_of_nil|]. rewrite first_ids_snoc.
  intros H. assert (id ∈ first_ids l \/ id = pc_id p) as [Hl| ->] by (destruct (_ || _); set_solver).
  - destruct (IH Hl) as (q & ? & ?). exists q. set_solver.
  - exists p. set_solver.
Qed.

Lemma unsaid id l : id ∉ first_ids l -> said id l = [].
Proof.
  induction l as [|p l IH] using rev_ind; [done|]. rewrite first_ids_snoc, said_snoc. intros H.
  destruct (_ || _) eqn:E.
  - destruct (decide (pc_id p = id)) as [<-|]; [|rewrite bool_decide_false by done; auto].
    rewrite bool_decide_true by done. apply orb_true_iff in E as [E|E]; apply bool_decide_eq_true in E; [|done].
    rewrite E, (IH H). by destruct (pc_correction p).
  - rewrite bool_decide_false by set_solver. apply IH. set_solver.
Qed.

(** A new piece, of a message that has spoken or of a new one. *)
Definition amend (p : Piece) (old : jsstr) : jsstr := if pc_correction p then pc_text p else old ++ pc_text p.

Lemma spoken_found l p i :
  first_ids l !! i = Some (pc_id p) -> spoken (l ++ [p]) = alter (with_text (amend p)) i (spoken l).
Proof.
  intros Hi. unfold spoken. rewrite first_ids_snoc.
  assert (pc_id p ∈ first_ids l) as Hin by by eapply list_elem_of_lookup_2.
  rewrite (bool_decide_true _ Hin), orb_true_r. apply list_eq. intros j.
  destruct (decide (j = i)) as [->|Hj].
  - rewrite list_lookup_alter_eq, !list_lookup_fmap, Hi. cbn. unfold with_text, amend. cbn.
    by rewrite said_snoc, bool_decide_true by done.
  - rewrite list_lookup_alter_ne, !list_lookup_fmap by done. destruct (first_ids l !! j) as [id|] eqn:E; [|done].
    cbn. rewrite said_snoc, bool_decide_false; [done|]. intros <-.
    apply Hj. eapply NoDup_lookup; eauto using first_ids_nodup.
Qed.

Lemma spoken_new l p :
  pc_id p ∉ first_ids l ->
  spoken (l ++ [p]) = if bool_decide (pc_text p = []) then spoken l else spoken l ++ [mkMessage (pc_id p) (pc_text p)].
Proof.
  intros Hn. unfold spoken. rewrite first_ids_snoc, (bool_decide_false _ Hn), orb_false_r.
  assert (map (fun id => mkMessage id (said id (l ++ [p]))) (first_ids l) = map (fun id => mkMessage id (said id l)) (first_ids l)) as E.
  { apply map_ext_in. intros id Hid%list_elem_of_In. rewrite said_snoc, bool_decide_false; [done|]. by intros <-. }
  destruct (bool_decide (pc_text p = [])); [done|]. rewrite map_app, E. f_equal. cbn.
  rewrite said_snoc, bool_decide_true, unsaid by done. by destruct (pc_correction p).
Qed.

Definition mentions (i : jsstr) (seg : list Piece) : Prop := exists q, q ∈ seg /\ pc_id q = Some i.

(** What the tracker holds of a turn cut so far, no reply being claimed. *)
Record tracks (c : list (list Piece) * list Piece) (t : Tracker) : Prop := {
  tk_held : held t = [];
  tk_current : messages (current t) = spoken c.2;
  tk_previous : textOf (previous t) = last_said c.1;
  tk_previous_ids m i : m ∈ messages (previous t) -> msg_id m = Some i -> exists seg, seg ∈ c.1 /\ mentions i seg;
  tk_retired i : i ∈ retired t -> exists seg, seg ∈ c.1 /\ mentions i seg;
}.

Definition fresh (p : Piece) (closed : list (list Piece)) : Prop :=
  forall i, pc_id p = Some i -> forall seg, seg ∈ closed -> ~ mentions i seg.

Lemma tracks_find c t p :
  tracks c t -> fresh p c.1 ->
  match find (pc_id p) t with
  | Some (w, i) => w = Current /\ first_ids c.2 !! i = Some (pc_id p)
  | None => pc_id p ∉ first_ids c.2
  end.
Proof.
  intros K F. unfold find. pose proof (index_of_spec (pc_id p) (current t)) as I. rewrite (tk_current _ _ K) in I.
  destruct (index_of (pc_id p) (current t)) as [i|].
  - split; [done|]. destruct I as (m & Hm & Hid). unfold spoken in Hm. rewrite list_lookup_fmap in Hm.
    destruct (first_ids c.2 !! i) eqn:E; [|done]. injection Hm as <-. by cbn in Hid; subst.
  - assert (pc_id p ∉ first_ids c.2) as Hn.
    { intros H. apply (I (mkMessage (pc_id p) (said (pc_id p) c.2))); [|done]. apply list_elem_of_fmap. eauto. }
    destruct (pc_id p) as [k|] eqn:Ek; [|done].
    pose proof (index_of_spec (Some k) (previous t)) as J. destruct (index_of (Some k) (previous t)); cbn; [|done].
    destruct J as (m & Hm & Hid). exfalso.
    destruct (tk_previous_ids _ _ K m k) as (seg & ? & ?); [by eapply list_elem_of_lookup_2|done|].
    by apply (F k Ek seg).
Qed.

Lemma tracks_set c t p s :
  tracks c t -> messages s = spoken (c.2 ++ [p]) -> tracks (c.1, c.2 ++ [p]) (set_stretch Current s t).
Proof. intros [] ?. by constructor. Qed.

Lemma tracks_same c t p :
  tracks c t -> spoken (c.2 ++ [p]) = spoken c.2 -> tracks (c.1, c.2 ++ [p]) t.
Proof. intros [] E. by constructor; cbn; rewrite ?E. Qed.

Lemma append_tracks c t p :
  tracks c t -> fresh p c.1 -> chars (current t) + size (pc_text p) <= MAX_ANSWER_CHARS ->
  pc_correction p = false \/ pc_id p ∉ first_ids c.2 ->
  tracks (c.1, c.2 ++ [p]) (append (pc_id p) (pc_text p) t) /\
  chars (current (append (pc_id p) (pc_text p) t)) <= chars (current t) + size (pc_text p).
Proof.
  intros K F Hs Hc. unfold append. pose proof (tracks_find c t p K F) as Hf.
  destruct (bool_decide (pc_text p = [])) eqn:Ht; to_prop.
  - split; [|unfold size; lia]. apply tracks_same; [done|].
    destruct (decide (pc_id p ∈ first_ids c.2)) as [[i Hi]%list_elem_of_lookup|Hn].
    + rewrite (spoken_found _ _ i) by done. apply list_alter_id. intros m.
      destruct Hc as [Hc|Hc]; [|destruct Hc; by eapply list_elem_of_lookup_2].
      unfold with_text, amend. rewrite Hc, Ht, app_nil_r. by destruct m.
    + by rewrite spoken_new, bool_decide_true by done.
  - assert (0 < size (pc_text p)) as Hpos by (unfold size; destruct (pc_text p); [done|cbn; lia]).
    destruct (find (pc_id p) t) as [[w i]|] eqn:Ef.
    + destruct Hf as [-> Hi]. rewrite bool_decide_false by done. cbn [andb stretch_at].
      destruct (Z.leb_spec MAX_ANSWER_CHARS (chars (current t))); [lia|]. split; [|done].
      apply tracks_set; [done|]. cbn. rewrite (tk_current _ _ K), (spoken_found _ _ i) by done.
      destruct Hc as [Hc|[]]; [|by eapply list_elem_of_lookup_2].
      apply list_alter_ext; [|done]. intros m _. unfold with_text, amend. by rewrite Hc.
    + assert (is_retired (pc_id p) t = false) as Hr.
      { unfold is_retired. destruct (pc_id p) as [k|] eqn:Ek; [|done]. apply bool_decide_eq_false.
        intros (seg & ? & ?)%(tk_retired _ _ K). by apply (F k Ek seg). }
      rewrite Hr, andb_false_r. cbn [stretch_at].
      destruct (Z.leb_spec MAX_ANSWER_CHARS (chars (current t))); [lia|]. split; [|done].
      apply tracks_set; [done|]. cbn. by rewrite (tk_current _ _ K), spoken_new, bool_decide_false.
Qed.

Lemma replace_tracks c t id w :
  let p := mkPiece (Some id) true w in
  tracks c t -> fresh p c.1 -> chars (current t) + size w <= MAX_ANSWER_CHARS ->
  tracks (c.1, c.2 ++ [p]) (replace id w t) /\ chars (current (replace id w t)) <= chars (current t) + size w.
Proof.
  intros p K F Hs. pose proof (tracks_find c t p K F) as Hf. cbn [pc_id p] in Hf. unfold replace.
  destruct (find (Some id) t) as [[v i]|].
  - destruct Hf as [-> Hi]. cbn [stretch_at].
    assert (0 <= size (text_at i (current t))) as Hold by (unfold size; lia).
    rewrite take_ge by (unfold size in *; lia). split; [|cbn; lia]. apply tracks_set; [done|].
    cbn [messages]. by rewrite (tk_current _ _ K), (spoken_found _ _ i).
  - apply (append_tracks c t p); auto.
Qed.

Lemma last_said_snoc l seg : last_said (l ++ [seg]) = if bool_decide (speech seg = []) then last_said l else speech seg.
Proof. unfold last_said. by rewrite fold_left_app. Qed.

Lemma textOf_speech c t : tracks c t -> textOf (current t) = speech c.2.
Proof. intros K. unfold textOf, speech. by rewrite (tk_current _ _ K). Qed.

Lemma spoken_mentions seg m i : m ∈ spoken seg -> msg_id m = Some i -> mentions i seg.
Proof.
  unfold spoken. intros (id & -> & Hid)%list_elem_of_fmap Hi. cbn in Hi. subst.
  destruct (first_ids_from _ _ Hid) as (q & ? & ?). by exists q.
Qed.

Lemma close_tracks c t : tracks c t -> tracks (c.1 ++ [c.2], []) (closeStretch t).
Proof.
  intros K. pose proof (textOf_speech _ _ K) as Ht. unfold closeStretch. rewrite Ht.
  assert (forall i, (exists seg, seg ∈ c.1 /\ mentions i seg) -> exists seg, seg ∈ c.1 ++ [c.2] /\ mentions i seg) as Hw
    by (intros i (seg & ? & ?); exists seg; set_solver).
  assert (forall m i, m ∈ messages (current t) -> msg_id m = Some i -> exists seg, seg ∈ c.1 ++ [c.2] /\ mentions i seg) as Hc.
  { intros m i Hm Hi. exists c.2. split; [set_solver|]. rewrite (tk_current _ _ K) in Hm. by eapply spoken_mentions. }
  destruct (bool_decide (speech c.2 = [])) eqn:E; constructor; cbn; try done; try exact (tk_held _ _ K).
  - rewrite last_said_snoc, E. exact (tk_previous _ _ K).
  - intros m i ? ?. by eapply Hw, tk_previous_ids.
  - intros i [Hi|(m & Hm & Hi)%list_elem_of_omap]%elem_of_app; [by eapply Hw, tk_retired|by eapply Hc].
  - by rewrite last_said_snoc, E.
  - intros i [Hi|(m & Hm & Hi)%list_elem_of_omap]%elem_of_app; [by eapply Hw, tk_retired|by eapply Hw, tk_previous_ids].
Qed.

Lemma close_empties t : chars (current (closeStretch t)) = 0.
Proof. unfold closeStretch. by case_match. Qed.

Lemma total_app a b : total (a ++ b) = total a + total b.
Proof. unfold total. induction a as [|e a IH]; cbn [app foldr]; [done|]. rewrite IH. lia. Qed.

Lemma total_nonneg a : 0 <= total a.
Proof. unfold total, size. induction a as [|e a IH]; cbn [foldr]; [done|]. case_match; lia. Qed.

Lemma observe_tracks c t e :
  tracks c t -> (forall p, piece_of e = Some p -> fresh p c.1) -> chars (current t) + total [e] <= MAX_ANSWER_CHARS ->
  tracks (cut_turn_step c e) (observe e t).2 /\
  (chars (current (observe e t).2) = 0 \/ chars (current (observe e t).2) <= chars (current t) + total [e]).
Proof.
  intros K F Hs. unfold total in *. cbn [foldr] in *. rewrite Z.add_0_r in *.
  assert (forall q t', tracks q t' -> forall force, release force t' = ([], t')) as R
    by (intros q t' K' force; apply release_none, (tk_held _ _ K')).
  destruct e as [e|w id f|id w| | |]; cbn [piece_of] in *.
  - unfold cut_turn_step. cbn [piece_of]. destruct e; cbn; try (split; [done|right; lia]).
    + rewrite (R _ _ K). cbn. split; [by apply close_tracks|left; apply close_empties].
    + split; [by apply close_tracks|left; apply close_empties].
  - destruct (append_tracks c t (mkPiece id false w)) as [K' ?]; [done|by apply F|done|by left|].
    cbn in K'. cbn. rewrite (R _ _ K'). auto.
  - destruct (replace_tracks c t id w) as [K' ?]; [done|by apply F|done|]. cbn. rewrite (R _ _ K'). auto.
  - unfold cut_turn_step. cbn. split; [done|right; lia].
  - unfold cut_turn_step. cbn. split; [done|right; lia].
  - unfold cut_turn_step. cbn. split; [done|right; lia].
Qed.

Lemma feed_tracks events :
  timely events -> total events <= MAX_ANSWER_CHARS ->
  tracks (cut_turn events) (feed events createAnswerTracker) /\ chars (current (feed events createAnswerTracker)) <= total events.
Proof.
  induction events as [|e events IH] using rev_ind; intros Ht Hm.
  - split; [|done]. constructor; try done; intros *; by intros ?%elem_of_nil.
  - rewrite total_app in *. pose proof (total_nonneg [e]) as H0. pose proof (total_nonneg events) as H1.
    destruct IH as [K Hc]; [|lia|].
    { intros pre e' post p i -> Hp Hi. eapply (Ht pre e' (post ++ [e])); [|done..]. by rewrite <- app_assoc. }
    unfold cut_turn, feed in *. rewrite !fold_left_app. cbn [fold_left].
    destruct (observe_tracks _ _ e K) as [K' Hc']; [|lia|split; [done|lia]].
    intros p Hp i Hi seg Hseg (q & Hq & Hqi). pose proof (Ht events e [] p i eq_refl Hp Hi seg Hseg) as H.
    rewrite Forall_forall in H. by apply (H q).
Qed.

(** C35: The answer of a turn in which no reply to a follow-up is claimed, whose
    framed messages are each written on one side of every tool event, and whose
    words fit the memory guard, is the last piece between tool events that says
    something: each message as its corrections and deltas leave it, in the
    order they first had text, trimmed, blank ones dropped, joined as
    paragraphs. What becomes of a claimed reply is the theorem on the turn's
    stream ([TurnStream.replies_stored_once]). *)
Theorem answer_reference events :
  timely events -> total events <= MAX_ANSWER_CHARS -> answer (feed events createAnswerTracker) = answer_of events.
Proof.
  intros Ht Hm. destruct (feed_tracks events Ht Hm) as [K _]. unfold answer_of, answer, answerStretch.
  destruct (cut_turn events) as [closed now]. rewrite last_said_snoc, (textOf_speech _ _ K).
  destruct (bool_decide _); cbn; [by rewrite (tk_previous _ _ K)|by rewrite (textOf_speech _ _ K)].
Qed.

(** ** Replies that wait *)

Definition live_paragraphs (t : Tracker) : list jsstr := paragraphs (messages (stretch_at (answerStretch t) t)).

(** A reply waits while its words are all the answer has. *)
Definition sole (t : Tracker) (words : jsstr) : Prop := live_paragraphs t = [words].

Definition waiting (t : Tracker) : Prop := forall h, h ∈ held t -> trim (reply h) <> [] /\ sole t (trim (reply h)).

Lemma sole_answer t words : sole t words -> answer t = words.
Proof. unfold sole, live_paragraphs, answer, textOf. by intros ->. Qed.

Lemma paragraphs_text l c : textOf (mkStretch l c) = [] <-> paragraphs l = [].
Proof.
  unfold textOf. cbn [messages]. split; [|by intros ->].
  assert (Forall (fun p => p <> []) (paragraphs l)) as F.
  { apply Forall_forall. intros p Hp%list_elem_of_In%filter_In. destruct Hp as [_ Hp]. by to_prop. }
  destruct (paragraphs l) as [|p [|q ps]]; [done|by inversion F|]. apply Forall_cons in F as [Hp _]. by destruct p.
Qed.

Lemma textOf_paragraphs s : textOf s = [] <-> paragraphs (messages s) = [].
Proof. destruct s. apply paragraphs_text. Qed.

Lemma paragraphs_delete l i m :
  l !! i = Some m -> trim (msg_text m) <> [] -> paragraphs l ≡ₚ trim (msg_text m) :: paragraphs (delete i l).
Proof.
  intros Hi Hm. rewrite <- (take_drop_middle l i m) at 1 by done. rewrite delete_take_drop.
  unfold paragraphs. rewrite !map_app, !List.filter_app. cbn [map List.filter].
  rewrite bool_decide_false by done. cbn [negb]. by rewrite Permutation_middle.
Qed.

Lemma last_index_spec {A} (P : A -> bool) l i : last_index P l = Some i -> exists x, l !! i = Some x /\ P x = true.
Proof.
  revert i. induction l as [|x l IH]; intros i; cbn; [done|]. destruct (last_index P l) as [j|].
  - intros [= <-]. by apply IH.
  - destruct (P x) eqn:E; [|done]. intros [= <-]. by exists x.
Qed.

Lemma last_in_paragraphs words s i :
  last_in words s = Some i -> words <> [] -> paragraphs (messages s) ≡ₚ words :: paragraphs (delete i (messages s)).
Proof.
  intros (m & Hm & Hw)%last_index_spec Hn. to_prop. subst. by apply paragraphs_delete.
Qed.

Lemma lastWith_paragraphs words t w i :
  lastWith words t = Some (w, i) -> words <> [] ->
  paragraphs (messages (stretch_at w t)) ≡ₚ words :: paragraphs (delete i (messages (stretch_at w t))).
Proof.
  unfold lastWith. destruct (last_in words (current t)) as [j|] eqn:E.
  - intros [= <- <-]. by apply last_in_paragraphs.
  - destruct (last_in words (previous t)) as [j|] eqn:E'; [|done]. intros [= <- <-]. by apply last_in_paragraphs.
Qed.

Lemma held_set w s t : held (set_stretch w s t) = held t.
Proof. by destruct w. Qed.

Lemma held_append id w t : held (append id w t) = held t.
Proof. unfold append. repeat case_match; auto using held_set. Qed.

Lemma held_replace id w t : held (replace id w t) = held t.
Proof. unfold replace. repeat case_match; auto using held_set, held_append. Qed.

Lemma held_close t : held (closeStretch t) = held t.
Proof. unfold closeStretch. by case_match. Qed.

(** A reply is taken out, or is all the answer has. *)
Lemma takeOut_spec force r t :
  trim r <> [] ->
  (takeOut force r t = (false, t) /\ force = false /\ sole t (trim r)) \/
  (exists t', takeOut force r t = (true, t') /\ held t' = held t).
Proof.
  intros Hr. unfold takeOut. rewrite bool_decide_false by done.
  destruct (lastWith (trim r) t) as [[w i]|] eqn:E; [|by right; exists t].
  destruct (_ && _) eqn:G; [left|right; eexists; split; [done|apply held_set]].
  to_prop. split_and!; [done|done|]. apply lastWith_paragraphs in E; [|done]. subst w.
  apply Permutation_singleton_r. unfold live_paragraphs. rewrite E. by rewrite (proj1 (paragraphs_text _ 0)).
Qed.

Lemma takeOut_words force r r' t : trim r = trim r' -> takeOut force r t = takeOut force r' t.
Proof. unfold takeOut. by intros ->. Qed.

(** What is not the answer's only words leaves those alone. *)
Lemma takeOut_other r t t' words :
  trim r <> [] -> takeOut false r t = (true, t') -> sole t words -> sole t' words.
Proof.
  intros Hr. unfold takeOut. rewrite bool_decide_false by done.
  destruct (lastWith (trim r) t) as [[w i]|] eqn:E; [|by intros [= <-]].
  apply lastWith_paragraphs in E; [|done]. unfold sole, live_paragraphs.
  destruct (decide (w = answerStretch t)) as [->|Hw].
  - intros H S. rewrite S in E. apply symmetry, Permutation_singleton_r in E. injection E as _ E.
    rewrite (bool_decide_true (answerStretch t = answerStretch t)), bool_decide_true in H; [done| |done].
    by apply paragraphs_text.
  - rewrite (bool_decide_false _ Hw), andb_false_r. cbn [andb]. intros [= <-].
    unfold answerStretch in *. destruct (bool_decide (textOf (current t) = [])) eqn:C; destruct w; try done; to_prop.
    + apply textOf_paragraphs in C. cbn in E. rewrite C in E. by apply Permutation_nil_cons in E.
    + cbn. by rewrite (bool_decide_false _ C).
Qed.

Lemma hand_over_forced l t :
  (forall h, h ∈ l -> trim (reply h) <> []) -> exists t', hand_over true l t = (l, [], t') /\ held t' = held t.
Proof.
  revert t. induction l as [|h l IH]; intros t H; [by exists t|]. cbn.
  destruct (takeOut_spec true (reply h) t) as [(_ & ? & _)|(t1 & -> & Ht)]; [apply H; set_solver|done|].
  destruct (IH t1) as (t2 & -> & ?); [set_solver|]. exists t2. by rewrite <- Ht.
Qed.

(** Replies of the same words go in order, until one is all that is left. *)
Lemma hand_over_same words l t handed kept t' :
  words <> [] -> (forall h, h ∈ l -> trim (reply h) = words) -> hand_over false l t = (handed, kept, t') ->
  l = handed ++ kept /\ held t' = held t /\ (kept <> [] -> sole t' words).
Proof.
  intros Hw. revert t handed. induction l as [|h l IH]; intros t handed Hl E; cbn in E; [by injection E as <- <- <-|].
  assert (trim (reply h) = words) as Hh by set_solver.
  destruct (takeOut_spec false (reply h) t) as [(F & _ & S)|(t1 & F & Ht)]; [by rewrite Hh| |]; rewrite F in E.
  - assert (hand_over false l t = ([], l, t)) as Hs.
    { assert (forall g, g ∈ l -> trim (reply g) = words) as Hl' by set_solver. clear IH E Hl.
      induction l as [|g l IH]; [done|]. cbn. rewrite (takeOut_words _ _ (reply h)), F by (rewrite Hh; set_solver).
      rewrite IH; [done|set_solver]. }
    rewrite Hs in E. injection E as <- <- <-. by rewrite Hh in S.
  - destruct (hand_over false l t1) as [[hd kp] t2] eqn:E2. injection E as <- <- <-.
    destruct (IH t1 hd) as (-> & ? & ?); [set_solver|done|]. by rewrite <- Ht.
Qed.

Lemma waiting_none t : held t = [] -> waiting t.
Proof. intros H h. rewrite H. by intros ?%elem_of_nil. Qed.

Lemma waiting_words t : waiting t -> exists words, words <> [] /\ forall h, h ∈ held t -> trim (reply h) = words.
Proof.
  intros W. destruct (held t) as [|h l] eqn:E.
  - exists [0%N]. split; [done|]. by intros h ?%elem_of_nil.
  - destruct (W h) as [Hn S]; [rewrite E; set_solver|]. exists (trim (reply h)). split; [done|].
    intros g Hg. destruct (W g) as [_ S']; [by rewrite E|]. unfold sole in *. rewrite S in S'. by injection S'.
Qed.

Lemma sole_set_held l t words : sole (set_held l t) words <-> sole t words.
Proof. done. Qed.

Lemma release_spec t0 t out t' :
  waiting t0 -> held t = held t0 -> release false t = (out, t') -> waiting t' /\ held t0 = out ++ held t'.
Proof.
  intros (words & Hn & Hw)%waiting_words Ht. unfold release.
  destruct (hand_over false (held t) t) as [[handed kept] t2] eqn:E. intros [= <- <-].
  apply (hand_over_same words) in E as (El & _ & Hs); [|done|by rewrite Ht]. rewrite <- Ht. split; [|done].
  intros h Hh. cbn in Hh. rewrite Hw by (rewrite <- Ht, El; set_solver). split; [done|].
  apply sole_set_held, Hs. intros ->. by apply elem_of_nil in Hh.
Qed.

Lemma close_sole t words : words <> [] -> sole t words -> sole (closeStretch t) words.
Proof.
  intros Hw. unfold sole, live_paragraphs, answerStretch, closeStretch.
  destruct (bool_decide (textOf (current t) = [])) eqn:E; cbn; [done|]. done.
Qed.

Lemma close_waiting t : waiting t -> waiting (closeStretch t).
Proof. intros W h. rewrite held_close. intros Hh. destruct (W h Hh). auto using close_sole. Qed.

(** An event hands over the first of the replies held, and the others wait. *)
Lemma observe_spec e t out t' :
  waiting t -> observe e t = (out, t') -> waiting t' /\ held t = out ++ held t'.
Proof.
  intros W. destruct e as [e|w id f|id w| | |]; cbn; try (by intros [= <- <-]).
  - destruct e; try (by intros [= <- <-]); cbn.
    + unfold release. destruct (hand_over_forced (held t) t) as (t1 & -> & _); [intros h Hh; by apply W|].
      intros [= <- <-]. rewrite held_close, app_nil_r. split; [|done]. apply waiting_none. by rewrite held_close.
    + intros [= <- <-]. rewrite held_close. split; [by apply close_waiting|done].
  - intros H. eapply release_spec; [done| |done]. apply held_append.
  - intros H. eapply release_spec; [done| |done]. apply held_replace.
Qed.

(** A claim that says a word is handed over, or waits. *)
Lemma claim_spec f r t taken t' :
  waiting t -> claim f r t = (taken, t') ->
  waiting t' /\ (taken = true -> trim r <> []) /\
  held t' = held t ++ (if taken then [] else if bool_decide (trim r = []) then [] else [mkReply f r]).
Proof.
  intros W. unfold claim. destruct (bool_decide (trim r = [])) eqn:B; to_prop.
  - unfold takeOut. rewrite bool_decide_true by done. intros [= <- <-]. rewrite app_nil_r. by split_and!.
  - destruct (takeOut_spec false r t B) as [(-> & _ & S)|(t1 & F & Ht)].
    + intros [= <- <-]. split_and!; [|done|done]. intros h Hh. cbn in Hh. rewrite sole_set_held.
      apply elem_of_app in Hh as [Hh| ->%list_elem_of_singleton]; [by apply W|done].
    + rewrite F. intros [= <- <-]. rewrite Ht, app_nil_r. split_and!; [|done|done].
      intros h. rewrite Ht. intros Hh. destruct (W h Hh) as [Hh1 Hh2]. split; [done|]. by apply (takeOut_other r t).
Qed.

(** A claim never empties an answer: its closing words are not taken. *)
Lemma claim_never_silences f r t : answer t <> [] -> answer (claim f r t).2 <> [].
Proof.
  intros Ha. unfold claim. destruct (takeOut false r t) as [taken t1] eqn:E.
  assert (answer t1 <> []) as H1; [|by destruct taken; [|destruct (bool_decide _)]].
  revert E. unfold takeOut. destruct (bool_decide (trim r = [])) eqn:B; [by intros [= <- <-]|]. to_prop.
  destruct (lastWith (trim r) t) as [[w i]|] eqn:L; [|by intros [= <- <-]].
  destruct (_ && _) eqn:G; [by intros [= <- <-]|]. intros [= <- <-].
  apply lastWith_paragraphs in L; [|done]. cbn [negb andb] in G.
  unfold answer in *. unfold answerStretch in *.
  destruct (bool_decide (textOf (current t) = [])) eqn:C; destruct w; cbn [set_stretch stretch_at current previous] in *.
  - exfalso. to_prop. apply textOf_paragraphs in C. rewrite C in L. by apply Permutation_nil_cons in L.
  - rewrite C. rewrite bool_decide_true in G by done. cbn [andb] in G. to_prop. exact G.
  - rewrite bool_decide_true in G by done. cbn [andb] in G. to_prop. rewrite bool_decide_false; exact G.
  - by rewrite C.
Qed.

(** ** Turns that keep to their side, decided *)
Fixpoint timely_from (c : list (list Piece) * list Piece) (events : list HarnessEvent) : bool :=
  match events with
  | [] => true
  | e :: l =>
      match piece_of e with
      | Some (mkPiece (Some i) _ _) => forallb (forallb (fun q => negb (bool_decide (pc_id q = Some i)))) c.1
      | _ => true
      end && timely_from (cut_turn_step c e) l
  end.

Lemma timely_decided events : timely_from ([], []) events = true -> timely events.
Proof.
  intros H pre e post p i E Hp Hi seg Hseg. subst. unfold cut_turn in Hseg. revert H Hseg. generalize (@nil (list Piece), @nil Piece).
  induction pre as [|x pre IH]; intros c; cbn [app timely_from fold_left]; intros [H1 H2]%andb_true_iff Hseg; [|by apply (IH (cut_turn_step c x))].
  rewrite Hp in H1. destruct p as [id corr w]. cbn in Hi. subst. rewrite forallb_forall in H1.
  apply list_elem_of_In, H1 in Hseg. rewrite forallb_forall in Hseg. apply Forall_forall. intros q Hq%list_elem_of_In%Hseg. by to_prop.
Qed.

(** ** Examples *)
Definition say (w i : String.string) : HarnessEvent := text_delta (js w) (Some (js i)) None.
Definition correct (i w : String.string) : HarnessEvent := text_replace (js i) (js w).
Arguments say (w i)%_string_scope.
Arguments correct (i w)%_string_scope.
Definition tool : list HarnessEvent :=
  [harness_event (tool_started (js "c") (js "bash")); harness_event (tool_finished (js "c") (js "bash") None (js "ok") None None)].

Definition two_messages : list HarnessEvent :=
  [say "Let me look." "m1"] ++ tool ++ [say "The report " "m2"; say "Yes. " "m3"; say "is ready" "m2"; correct "m2" "The report is ready."] ++ tool.

Lemma answer_reference_witness :
  timely two_messages /\ total two_messages <= MAX_ANSWER_CHARS /\
  answer (feed two_messages createAnswerTracker) = answer_of two_messages.
Proof.
  split; [|split]; [by apply timely_decided|by vm_compute|].
  apply answer_reference; [by apply timely_decided|by vm_compute].
Defined.

Example two_messages_answer :
  answer (feed two_messages createAnswerTracker) = js "The report is ready." ++ [10%N; 10%N] ++ js "Yes.".
Proof. by vm_compute. Qed.

(** A retraction after the next tool call leaves a turn silent that spoke
    before. *)
Example fallback_forgotten :
  answer (feed ([say "It is ready." "m1"] ++ tool ++ [say "half a" "m2"] ++ tool ++ [correct "m2" ""]) createAnswerTracker) = [].
Proof. by vm_compute. Qed.

(** A message whose first delta is blank loses what it says after a tool call
    is announced. *)
Example blank_start_loses :
  answer (feed ([text_delta [10%N] (Some (js "m1")) None] ++ tool ++ [say "The answer." "m1"]) createAnswerTracker) = [].
Proof. by vm_compute. Qed.
