(* ===== verification/TurnStream.v ===== *)
(** * The stream of a turn: [runTurn] of [apps/sandbox-supervisor/src/supervisor.ts]

    What a supervisor does with each event of a running turn, and how the turn
    ends: the loop over the harness's events, and the arms behind it. Between
    two events follow-ups may be delivered to the harness and the heartbeat's
    timer may fire. The session, its gate and prompt, and what the [finally]
    arm cleans up are not here; the class a raw error text reads as
    ([provider-refusal.ts]) is a parameter. *)
From S2P Require Import Prelude JsJson JsBytes TurnEvents AnswerTracker.
Local Open Scope Z_scope.

Definition MAX_REPORTED_STEERS : nat := 16.
Definition MAX_TURN_RESULT_ERROR_CHARS : nat := 2000.

Definition HOME_READ_ONLY_TURN_ERROR : jsstr := js "stopped: the agent's home is mounted read-only".

Module TURN_FAILURE_CODES.
Definition agentRestarted : jsstr := js "agent_restarted".
Definition agentStartFailed : jsstr := js "agent_start_failed".
Definition harnessBusy : jsstr := js "harness_busy".
Definition harnessNoTerminal : jsstr := js "harness_no_terminal".
Definition homeReadOnly : jsstr := js "home_read_only".
End TURN_FAILURE_CODES.

Inductive EndStatus := ended_done | ended_failed | ended_aborted.
#[export] Instance end_status_eq : EqDecision EndStatus := ltac:(solve_decision).

Inductive FollowUpOutcome := outcome_joined | outcome_missed.

Record TurnResult := mkResult {
  res_turnId : jsstr;
  res_conversationId : jsstr;
  res_status : EndStatus;
  res_errorCode : option jsstr;
  res_error : option jsstr;
  res_usage : option TurnUsage;
  res_sessionRef : option jsstr;
  res_followUps : option (list (jsstr * FollowUpOutcome));
}.

Inductive Frame :=
  | frame_event (turnId conversationId : jsstr) (event : AgentEvent)
  | frame_progress (turnId conversationId : jsstr) (sessionRef : option jsstr)
  | frame_result (result : TurnResult).

Record TurnItem := mkItem { item_turnId : jsstr; item_conversationId : jsstr }.

Record Stream := mkStream {
  tracker : Tracker;
  steered : list (jsstr * bool);
  openTools : gmap jsstr Z;
  answerSent : bool;
  sawCleanEnd : bool;
  usage : option TurnUsage;
  terminalError : option jsstr;
  terminalErrorCode : option jsstr;
  unanswered : option (jsstr * jsstr);
  sent : list Frame;
}.

Definition fresh_turn : Stream := mkStream createAnswerTracker [] ∅ false false None None None None [].

Definition set_tracker (t : Tracker) (s : Stream) : Stream :=
  mkStream t (steered s) (openTools s) (answerSent s) (sawCleanEnd s) (usage s) (terminalError s) (terminalErrorCode s) (unanswered s) (sent s).

Definition set_steered (l : list (jsstr * bool)) (s : Stream) : Stream :=
  mkStream (tracker s) l (openTools s) (answerSent s) (sawCleanEnd s) (usage s) (terminalError s) (terminalErrorCode s) (unanswered s) (sent s).

Definition set_openTools (l : gmap jsstr Z) (s : Stream) : Stream :=
  mkStream (tracker s) (steered s) l (answerSent s) (sawCleanEnd s) (usage s) (terminalError s) (terminalErrorCode s) (unanswered s) (sent s).

Definition send (f : Frame) (s : Stream) : Stream :=
  mkStream (tracker s) (steered s) (openTools s) (answerSent s) (sawCleanEnd s) (usage s) (terminalError s) (terminalErrorCode s) (unanswered s) (sent s ++ [f]).

(** A [Map]'s [get] and [set], its keys in insertion order. *)
Definition steer_get (k : jsstr) (l : list (jsstr * bool)) : option bool :=
  snd <$> List.find (fun x => bool_decide (x.1 = k)) l.

Fixpoint steer_set (k : jsstr) (v : bool) (l : list (jsstr * bool)) : list (jsstr * bool) :=
  match l with
  | [] => [(k, v)]
  | x :: l' => if bool_decide (x.1 = k) then (k, v) :: l' else x :: steer_set k v l'
  end.

(** [name.replace(/^mcp__[^_]+__/, "")] *)
Fixpoint span_name (s : jsstr) : jsstr * jsstr :=
  match s with
  | c :: s' => if N.eqb c 95 then ([], s) else let '(a, b) := span_name s' in (c :: a, b)
  | [] => ([], [])
  end.

Definition bareToolName (name : jsstr) : jsstr :=
  if starts_with (js "mcp__") name then
    let '(server, rest) := span_name (drop 5 name) in
    if negb (bool_decide (server = [])) && starts_with (js "__") rest then drop 2 rest else name
  else name.

Section Turn.
Context (terminalErrorClass : jsstr -> option jsstr) (item : TurnItem).

Definition turn_frame (turnId : jsstr) (event : AgentEvent) : Frame := frame_event turnId (item_conversationId item) event.

Definition emitReply (h : HandedReply) (s : Stream) : Stream :=
  send (turn_frame (followUpId h) (text (take (Z.to_nat MAX_ANSWER_CHARS) (reply h)))) s.

Definition emitAnswer (s : Stream) : Stream :=
  if answerSent s then s else
  match answer (tracker s) with
  | [] => s
  | words =>
      let s := send (turn_frame (item_turnId item) (text words)) s in
      mkStream (tracker s) (steered s) (openTools s) true (sawCleanEnd s) (usage s) (terminalError s) (terminalErrorCode s) (unanswered s) (sent s)
  end.

Definition beat (sessionRef : option jsstr) (s : Stream) : Stream :=
  send (frame_progress (item_turnId item) (item_conversationId item) (truthy sessionRef)) s.

(** The steer drain hands one follow-up to the harness. *)
Definition delivered (steerId : jsstr) (s : Stream) : Stream :=
  if (MAX_REPORTED_STEERS <=? length (steered s))%nat then s else set_steered (steer_set steerId false (steered s)) s.

Definition on_joined (event : HarnessEvent) (s : Stream) : Stream :=
  match event with
  | message_joined f => match steer_get f (steered s) with Some _ => set_steered (steer_set f true (steered s)) s | None => s end
  | _ => s
  end.

Definition fenced (f : jsstr) (s : Stream) : bool :=
  bool_decide (steer_get f (steered s) = Some true) && negb (isPlatformSteerId f).

Definition on_replied (event : HarnessEvent) (s : Stream) : Stream :=
  match event with
  | message_replied f r =>
      if fenced f s then
        let '(taken, t) := claim f r (tracker s) in
        let s := set_tracker t s in
        if taken : bool then emitReply (mkReply f r) s else s
      else s
  | _ => s
  end.

Definition on_answer (event : HarnessEvent) (s : Stream) : Stream :=
  let '(handed, t) := observe event (tracker s) in fold_left (fun s h => emitReply h s) handed (set_tracker t s).

Definition on_tool (event : HarnessEvent) (s : Stream) : Stream :=
  let opened bare := match openTools s !! bare with Some n => n | None => 0 end in
  match event with
  | harness_event (tool_started _ name) =>
      let bare := bareToolName name in set_openTools (<[bare := opened bare + 1]> (openTools s)) s
  | harness_event (tool_finished _ name _ _ _ _) =>
      let bare := bareToolName name in
      if opened bare <=? 1 then set_openTools (delete bare (openTools s)) s
      else set_openTools (<[bare := opened bare - 1]> (openTools s)) s
  | _ => s
  end.

Definition is_terminal (event : HarnessEvent) : bool :=
  match event with harness_event e => isTerminalEvent e | _ => false end.

Definition on_wire (event : HarnessEvent) (s : Stream) : Stream :=
  match toWireEvent event with
  | None => s
  | Some wire =>
      let turnId := match replyTargetOf event with
                    | Some f => if bool_decide (steer_get f (steered s) = Some true) then f else item_turnId item
                    | None => item_turnId item
                    end in
      send (turn_frame turnId wire) s
  end.

Definition on_outcome (sessionRef : option jsstr) (event : HarnessEvent) (s : Stream) : Stream :=
  match event with
  | harness_event turn_started => beat sessionRef s
  | harness_event (turn_done u) =>
      mkStream (tracker s) (steered s) (openTools s) (answerSent s) true u (terminalError s) (terminalErrorCode s) (unanswered s) (sent s)
  | harness_event (error message code) =>
      mkStream (tracker s) (steered s) (openTools s) (answerSent s) (sawCleanEnd s) (usage s) (Some message) code (unanswered s) (sent s)
  | turn_unanswered code message =>
      mkStream (tracker s) (steered s) (openTools s) (answerSent s) (sawCleanEnd s) (usage s) (terminalError s) (terminalErrorCode s)
        (match unanswered s with Some u => Some u | None => Some (code, message) end) (sent s)
  | _ => s
  end.

(** The body of the loop, the session's reference as it is then. *)
Definition on_event (sessionRef : option jsstr) (event : HarnessEvent) (s : Stream) : Stream :=
  let s := on_joined event s in
  let s := on_replied event s in
  let s := on_answer event s in
  let s := on_tool event s in
  let s := if is_terminal event then emitAnswer s else s in
  let s := on_wire event s in
  on_outcome sessionRef event s.

Inductive Step :=
  | Event (sessionRef : option jsstr) (event : HarnessEvent)
  | Delivered (steerId : jsstr)
  | Beat (sessionRef : option jsstr).

Definition step (s : Stream) (x : Step) : Stream :=
  match x with
  | Event ref e => on_event ref e s
  | Delivered f => delivered f s
  | Beat ref => beat ref s
  end.

Definition run (steps : list Step) : Stream := fold_left step steps fresh_turn.

(** ** How a turn ends

    What the supervisor knows of its sandbox at a moment. *)
Record Moment := mkMoment {
  mo_homeReadOnly : bool;
  mo_aborted : bool;
  mo_harnessDead : bool;
  mo_streamStarted : bool;
  mo_sessionRef : option jsstr;
}.

Definition followUpOutcomes (s : Stream) : option (list (jsstr * FollowUpOutcome)) :=
  match steered s with
  | [] => None
  | l => Some (map (fun x => (x.1, if x.2 : bool then outcome_joined else outcome_missed)) (take 16 l))
  end.

Definition failureCode (m : Moment) : option jsstr :=
  if mo_homeReadOnly m then Some TURN_FAILURE_CODES.homeReadOnly
  else if mo_harnessDead m then
    Some (if mo_streamStarted m then TURN_FAILURE_CODES.agentRestarted else TURN_FAILURE_CODES.agentStartFailed)
  else None.

Definition classify (m : Moment) (s : Stream) (raw : option jsstr) : option jsstr :=
  match failureCode m with
  | Some code => Some code
  | None =>
      if bool_decide (terminalErrorCode s = Some TURN_FAILURE_CODES.harnessBusy) ||
         bool_decide (terminalErrorCode s = Some TURN_FAILURE_CODES.harnessNoTerminal)
      then terminalErrorCode s
      else match truthy raw with Some raw => terminalErrorClass raw | None => None end
  end.

Definition slice_error (e : jsstr) : jsstr := take MAX_TURN_RESULT_ERROR_CHARS e.

(** The stream ended. The outcome is settled at the moment [m], the failure
    classed at [m'], a macrotask later; [true] when the session is to be
    cancelled. *)
Definition stream_ended (m m' : Moment) (s : Stream) : bool * Stream :=
  let s := emitAnswer s in
  let followUps := followUpOutcomes s in
  let unansweredEnd := if sawCleanEnd s && negb (mo_homeReadOnly m) && negb (mo_aborted m) then unanswered s else None in
  let status := if mo_homeReadOnly m then ended_failed
                else if mo_aborted m then ended_aborted
                else if sawCleanEnd s && bool_decide (unansweredEnd = None) then ended_done else ended_failed in
  let failed := bool_decide (status = ended_failed) in
  let errorCode := match unansweredEnd with
                   | Some (code, _) => Some code
                   | None => if failed then classify m' s (terminalError s) else None
                   end in
  let failureError := match unansweredEnd with
                      | Some (_, message) => Some message
                      | None => match terminalError s with
                                | Some e => Some e
                                | None => if mo_homeReadOnly m' then Some HOME_READ_ONLY_TURN_ERROR else None
                                end
                      end in
  (failed && negb (mo_harnessDead m') && bool_decide (unansweredEnd = None),
   send (frame_result {|
     res_turnId := item_turnId item; res_conversationId := item_conversationId item; res_status := status;
     res_errorCode := truthy errorCode;
     res_error := if failed then slice_error <$> truthy failureError else None;
     res_usage := usage s; res_sessionRef := truthy (mo_sessionRef m'); res_followUps := followUps |}) s).

(** The turn threw [thrown], read as a string. *)
Definition stream_threw (thrown : jsstr) (m : Moment) (s : Stream) : bool * Stream :=
  let s := emitAnswer s in
  let stopped := mo_aborted m && negb (mo_homeReadOnly m) in
  (negb (mo_aborted m) && negb (mo_harnessDead m),
   send (frame_result {|
     res_turnId := item_turnId item; res_conversationId := item_conversationId item;
     res_status := if stopped then ended_aborted else ended_failed;
     res_errorCode := if stopped then None else truthy (classify m s (Some thrown));
     res_error := Some (slice_error thrown);
     res_usage := None; res_sessionRef := truthy (mo_sessionRef m); res_followUps := followUpOutcomes s |}) s).

Inductive Ending := Ended (m m' : Moment) | Threw (thrown : jsstr) (m : Moment).

Definition finish (e : Ending) (s : Stream) : Stream :=
  match e with Ended m m' => (stream_ended m m' s).2 | Threw thrown m => (stream_threw thrown m s).2 end.
End Turn.

(** ** Replies are stored once *)

(** The durable words of a turn's frames, each under the row it goes to. *)
Definition text_frame (f : Frame) : list (jsstr * jsstr) :=
  match f with frame_event t _ (text w) => [(t, w)] | _ => [] end.

Definition stored_texts (s : Stream) : list (jsstr * jsstr) := concat (map text_frame (sent s)).

(** The frame that stores a reply under its follow-up. *)
Definition stored (h : HandedReply) : jsstr * jsstr := (followUpId h, take (Z.to_nat MAX_ANSWER_CHARS) (reply h)).

(** The replies the supervisor honours: of a follow-up it delivered and saw
    joined, not a steer of the platform's, and saying something. *)
Definition honoured_at (s : Stream) (x : Step) : list HandedReply :=
  match x with
  | Event _ (message_replied f r) => if fenced f s && negb (bool_decide (trim r = [])) then [mkReply f r] else []
  | _ => []
  end.

Fixpoint honoured (item : TurnItem) (s : Stream) (steps : list Step) : list HandedReply :=
  match steps with
  | [] => []
  | x :: l => honoured_at s x ++ honoured item (step item s x) l
  end.

(** The harness writes no durable text of its own. *)
Definition quiet (x : Step) : Prop := match x with Event _ (harness_event (text _)) => False | _ => True end.

Definition is_event (x : Step) : bool := match x with Event _ _ => true | _ => false end.

(** A terminal event is the last of its turn. *)
Definition terminal_last (steps : list Step) : Prop :=
  forall pre ref e post, steps = pre ++ Event ref e :: post -> is_terminal e = true -> Forall (fun x => is_event x = false) post.

Definition answer_frame (item : TurnItem) (t : Tracker) : list (jsstr * jsstr) :=
  match answer t with [] => [] | words => [(item_turnId item, words)] end.

Section Replies.
Context (terminalErrorClass : jsstr -> option jsstr) (item : TurnItem).

Lemma stored_send f s : stored_texts (send f s) = stored_texts s ++ text_frame f.
Proof.
  unfold stored_texts. change (sent (send f s)) with (sent s ++ [f]). rewrite map_app, concat_app.
  cbn [map concat]. by rewrite app_nil_r.
Qed.

(** A part of a step that stores [out] and leaves the answer unsent. *)
Definition stores (s : Stream) (out : list HandedReply) (s' : Stream) : Prop :=
  stored_texts s' = stored_texts s ++ map stored out /\ answerSent s' = answerSent s.

Lemma stores_trans s1 o1 s2 o2 s3 : stores s1 o1 s2 -> stores s2 o2 s3 -> stores s1 (o1 ++ o2) s3.
Proof. intros [E1 A1] [E2 A2]. split; [|by rewrite A2]. by rewrite E2, E1, map_app, app_assoc. Qed.

Lemma stores_same s s' : sent s' = sent s -> answerSent s' = answerSent s -> stores s [] s'.
Proof. intros E ?. split; [|done]. unfold stored_texts. by rewrite E, app_nil_r. Qed.

Lemma emitReply_stores h s : stores s [h] (emitReply item h s) /\ tracker (emitReply item h s) = tracker s.
Proof. split; [|done]. split; [|done]. unfold emitReply. by rewrite stored_send. Qed.

Lemma emitReplies_stores l s :
  let s' := fold_left (fun s h => emitReply item h s) l s in stores s l s' /\ tracker s' = tracker s.
Proof.
  revert s. induction l as [|h l IH]; intros s; cbn; [split; [by apply stores_same|done]|].
  destruct (IH (emitReply item h s)) as [S ->]. destruct (emitReply_stores h s) as [S1 ->].
  split; [|done]. by apply (stores_trans s [h] (emitReply item h s)).
Qed.

(** The frames of an event are no durable text, its bookkeeping no frames. *)
Lemma on_joined_stores e s : stores s [] (on_joined e s) /\ tracker (on_joined e s) = tracker s.
Proof. unfold on_joined. repeat case_match; split; try done; by apply stores_same. Qed.

Lemma on_tool_stores e s : stores s [] (on_tool e s) /\ tracker (on_tool e s) = tracker s.
Proof. unfold on_tool. repeat case_match; split; try done; by apply stores_same. Qed.

Lemma on_wire_stores ref e s : quiet (Event ref e) -> stores s [] (on_wire item e s) /\ tracker (on_wire item e s) = tracker s.
Proof.
  intros Q. unfold on_wire. destruct (toWireEvent e) as [w|] eqn:E; [|split; [by apply stores_same|done]].
  split; [|done]. split; [|done]. rewrite stored_send. f_equal.
  destruct e as [e| | | | |]; cbn in E; try done; injection E as <-; [|done..]. by destruct e.
Qed.

Lemma on_end_stores ref e s : stores s [] (on_outcome item ref e s) /\ tracker (on_outcome item ref e s) = tracker s.
Proof.
  unfold on_outcome. destruct e as [e| | | | |]; [destruct e|..]; (split; [|done]); try (by apply stores_same).
  split; [|done]. unfold beat. by rewrite stored_send.
Qed.

Lemma on_replied_spec e s :
  waiting (tracker s) ->
  exists out, stores s out (on_replied item e s) /\ waiting (tracker (on_replied item e s)) /\
    held (tracker s) ++ honoured_at s (Event None e) ≡ₚ out ++ held (tracker (on_replied item e s)).
Proof.
  intros W. unfold on_replied, honoured_at.
  destruct e as [e| | |f|f r|]; try (exists []; split; [by apply stores_same|split; [done|by rewrite app_nil_r]]).
  destruct (fenced f s); cbn [andb]; [|exists []; split; [by apply stores_same|split; [done|by rewrite app_nil_r]]].
  destruct (claim f r (tracker s)) as [taken t] eqn:E. destruct (claim_spec f r _ _ _ W E) as (W' & Hn & Hh).
  destruct taken.
  - exists [mkReply f r]. split; [exact (proj1 (emitReply_stores _ (set_tracker t s)))|split; [done|]].
    rewrite bool_decide_false by auto. cbn. rewrite Hh, app_nil_r. by rewrite Permutation_app_comm.
  - exists []. split; [by apply stores_same|split; [done|]]. cbn. rewrite Hh. by destruct (bool_decide _).
Qed.

Lemma on_answer_spec e s :
  waiting (tracker s) ->
  exists out, stores s out (on_answer item e s) /\ waiting (tracker (on_answer item e s)) /\
    held (tracker s) = out ++ held (tracker (on_answer item e s)).
Proof.
  intros W. unfold on_answer. destruct (observe e (tracker s)) as [out t] eqn:E.
  destruct (observe_spec _ _ _ _ W E) as [W' Hh]. exists out.
  destruct (emitReplies_stores out (set_tracker t s)) as [S ->]. by split_and!.
Qed.

(** A step that does not end the turn. *)
Definition tells (s : Stream) (x : Step) (s' : Stream) : Prop :=
  exists out, stores s out s' /\ waiting (tracker s') /\ held (tracker s) ++ honoured_at s x ≡ₚ out ++ held (tracker s').

Lemma other_step s x : is_event x = false -> stores s [] (step item s x) /\ tracker (step item s x) = tracker s.
Proof.
  destruct x as [|f|ref]; [done|intros _..]; cbn.
  - unfold delivered. case_match; split; try done; by apply stores_same.
  - split; [|done]. split; [|done]. unfold beat. by rewrite stored_send.
Qed.

Lemma step_tells s x :
  quiet x -> (forall ref e, x = Event ref e -> is_terminal e = false) -> waiting (tracker s) -> tells s x (step item s x).
Proof.
  intros Q T W. destruct (is_event x) eqn:X.
  - destruct x as [ref e| |]; try done. cbn. unfold on_event. rewrite (T ref e) by done.
    destruct (on_joined_stores e s) as [S1 K1]. set (s1 := on_joined e s) in *.
    destruct (on_replied_spec e s1) as (o2 & S2 & W2 & H2); [by rewrite K1|]. set (s2 := on_replied item e s1) in *.
    destruct (on_answer_spec e s2) as (o3 & S3 & W3 & H3); [done|]. set (s3 := on_answer item e s2) in *.
    destruct (on_tool_stores e s3) as [S4 K4]. set (s4 := on_tool e s3) in *.
    destruct (on_wire_stores ref e s4 Q) as [S5 K5]. set (s5 := on_wire item e s4) in *.
    destruct (on_end_stores ref e s5) as [S6 K6].
    exists (o2 ++ o3). split; [|rewrite K6, K5, K4; split; [done|]].
    + pose proof (stores_trans _ _ _ _ _ S1 (stores_trans _ _ _ _ _ S2 (stores_trans _ _ _ _ _ S3
        (stores_trans _ _ _ _ _ S4 (stores_trans _ _ _ _ _ S5 S6))))) as S.
      cbn in S. by rewrite !app_nil_r in S.
    + rewrite <- app_assoc, <- H3, <- H2, K1. f_equiv. subst s1. by destruct e.
  - destruct (other_step s x X) as [S K]. exists []. rewrite K. split; [done|split; [done|]].
    destruct x; try done; by rewrite app_nil_r.
Qed.

(** The answer is sent once, and only if there is one. *)
Definition answered (s s' : Stream) : Prop :=
  tracker s' = tracker s /\ stored_texts s' = stored_texts s ++ answer_frame item (tracker s) /\
  (answerSent s' = true \/ answer (tracker s) = []).

Lemma emitAnswer_answered s : answerSent s = false -> answered s (emitAnswer item s).
Proof.
  intros A. unfold answered, emitAnswer, answer_frame. rewrite A. destruct (answer (tracker s)) as [|c w] eqn:E.
  - rewrite app_nil_r. auto.
  - split; [done|]. split; [|by left]. change (stored_texts (send (turn_frame item (item_turnId item) (text (c :: w))) s) = stored_texts s ++ [(item_turnId item, c :: w)]).
    by rewrite stored_send.
Qed.

Lemma emitAnswer_again s0 s : answered s0 s -> stored_texts (emitAnswer item s) = stored_texts s.
Proof.
  intros (K & _ & [A|A]); unfold emitAnswer; [by rewrite A|]. rewrite K, A. by case_match.
Qed.

Lemma terminal_answers s ref e :
  is_terminal e = true -> answerSent s = false -> answered s (step item s (Event ref e)).
Proof.
  intros T A. destruct e as [e| | | | |]; try done.
  assert (on_event item ref (harness_event e) s = on_outcome item ref (harness_event e) (on_wire item (harness_event e) (emitAnswer item s))) as E.
  { unfold on_event. rewrite T. destruct e; try done; unfold on_answer; cbn; by destruct s. }
  cbn [step]. rewrite E.
  destruct (emitAnswer_answered s A) as (K & F & D). set (s1 := emitAnswer item s) in *.
  destruct (on_wire_stores ref (harness_event e) s1) as [[F1 A1] K1]; [by destruct e|]. set (s2 := on_wire item (harness_event e) s1) in *.
  destruct (on_end_stores ref (harness_event e) s2) as [[F2 A2] K2].
  split; [by rewrite K2, K1, K|]. rewrite F2, F1, A2, A1, F, !app_nil_r. auto.
Qed.

Lemma others_answered s0 s l :
  Forall (fun x => is_event x = false) l -> answered s0 s -> answered s0 (fold_left (step item) l s).
Proof.
  revert s. induction l as [|x l IH]; intros s F A; [done|]. apply Forall_cons in F as [Hx F]. cbn. apply IH; [done|].
  destruct (other_step s x Hx) as [[E1 E2] K]. destruct A as (Ka & Ea & D). split; [by rewrite K|].
  rewrite E1, E2, app_nil_r. auto.
Qed.

Lemma finish_texts e s : stored_texts (finish terminalErrorClass item e s) = stored_texts (emitAnswer item s).
Proof. destruct e; cbn [finish]; unfold stream_ended, stream_threw; cbn [snd]; rewrite stored_send; apply app_nil_r. Qed.

Lemma honoured_others l s : Forall (fun x => is_event x = false) l -> honoured item s l = [].
Proof. intros F. revert s. induction F as [|y l Hy _ IH]; intros s; [done|]. cbn. rewrite IH. by destruct y. Qed.

(** ** The end of a turn *)

(** From [s] the replies [rs] are honoured and the turn ends in [s'], its texts
    [texts]. *)
Definition kept_once (s s' : Stream) (rs : list HandedReply) (texts : list (jsstr * jsstr)) : Prop :=
  exists handed left,
    held (tracker s) ++ rs ≡ₚ handed ++ left /\
    texts = stored_texts s ++ map stored handed ++ answer_frame item (tracker s') /\
    (forall h, h ∈ left -> trim (reply h) <> [] /\ answer (tracker s') = trim (reply h)).

Lemma kept_none s s' :
  waiting (tracker s) -> tracker s' = tracker s -> kept_once s s' [] (stored_texts s ++ answer_frame item (tracker s)).
Proof.
  intros W K. exists [], (held (tracker s)). rewrite K, app_nil_r. split; [done|]. split; [done|].
  intros h Hh. destruct (W h Hh). auto using sole_answer.
Qed.

Lemma kept_step s x s1 s' rs texts :
  tells s x s1 -> kept_once s1 s' rs texts -> kept_once s s' (honoured_at s x ++ rs) texts.
Proof.
  intros (out & [E _] & _ & H) (handed & left & P & -> & L). exists (out ++ handed), left. split; [|split; [|done]].
  - by rewrite app_assoc, H, <- !app_assoc, P.
  - rewrite E, map_app. by rewrite <- !app_assoc.
Qed.

Lemma told steps s ending :
  waiting (tracker s) -> answerSent s = false -> Forall quiet steps -> terminal_last steps ->
  let s' := fold_left (step item) steps s in
  kept_once s s' (honoured item s steps) (stored_texts (finish terminalErrorClass item ending s')).
Proof.
  revert s. induction steps as [|x steps IH]; intros s W A Q T; cbn [fold_left honoured]; rewrite finish_texts.
  - destruct (emitAnswer_answered s A) as (_ & -> & _). by apply kept_none.
  - apply Forall_cons in Q as [Qx Q].
    assert (terminal_last steps) as T' by (intros pre ref e post ->; apply (T (x :: pre) ref e post eq_refl)).
    destruct (match x with Event _ e => is_terminal e | _ => false end) eqn:Te.
    + destruct x as [ref e| |]; try done. pose proof (T [] ref e steps eq_refl Te) as F.
      pose proof (others_answered _ _ _ F (terminal_answers s ref e Te A)) as N.
      rewrite honoured_others, (emitAnswer_again _ _ N) by done. destruct N as (K & -> & _).
      replace (honoured_at s (Event ref e)) with (@nil HandedReply) by (by destruct e). by apply kept_none.
    + destruct (step_tells s x Qx) as (out & [E A'] & W' & H); [intros ref e ->; done|done|].
      apply (kept_step _ _ (step item s x)); [by exists out|]. rewrite <- (finish_texts ending).
      apply IH; [done|by rewrite A'|done|done].
Qed.
End Replies.

(** C17: However a turn runs and ends, each reply to a follow-up that the supervisor
    honours is stored once: under its follow-up, or, when its words are all the
    answer has at the end, as the turn's answer, which is sent once, after the
    replies handed over, and whenever there is one. (The harness sends no event
    after a terminal one, and no durable text of its own.) *)
Theorem replies_stored_once terminalErrorClass item steps ending :
  Forall quiet steps -> terminal_last steps ->
  let s := run item steps in
  exists handed left,
    honoured item fresh_turn steps ≡ₚ handed ++ left /\
    stored_texts (finish terminalErrorClass item ending s) = map stored handed ++ answer_frame item (tracker s) /\
    (forall h, h ∈ left -> answer_frame item (tracker s) = [(item_turnId item, trim (reply h))]).
Proof.
  intros Q T. destruct (told terminalErrorClass item steps fresh_turn ending) as (handed & left & P & E & L);
    [by apply waiting_none|done..|].
  exists handed, left. split; [done|]. split; [done|]. intros h Hh. destruct (L h Hh) as [Hn Ha].
  unfold answer_frame, run. rewrite Ha. by destruct (trim (reply h)).
Qed.

(** ** Examples

    Two follow-ups: the first is answered before more work, the second last. *)
Definition demo_item : TurnItem := mkItem (js "t1") (js "conv").

Definition demo_steps : list Step :=
  [Event None (harness_event turn_started); Delivered (js "f1"); Beat None; Event None (say "Starting." "m0")] ++ map (Event None) tool ++
  [Event None (message_joined (js "f1")); Event None (say "Sure, that too." "m1");
   Event None (message_replied (js "f1") (js "Sure, that too."))] ++ map (Event None) tool ++
  [Delivered (js "f2"); Event None (message_joined (js "f2")); Event None (say "All done." "m2");
   Event None (message_replied (js "f2") (js "All done.")); Event None (harness_event (turn_done None)); Beat None].

Definition demo_ending : Ending := Ended (mkMoment false false false true None) (mkMoment false false false true None).

Lemma demo_terminal_last : terminal_last demo_steps.
Proof.
  intros pre ref e post E T. repeat (destruct pre as [|? pre]; [injection E; intros; subst; first [discriminate T|by repeat constructor]|injection E as _ E]).
  by destruct pre.
Qed.

Lemma replies_stored_once_witness :
  Forall quiet demo_steps /\ terminal_last demo_steps /\
  exists handed left,
    honoured demo_item fresh_turn demo_steps ≡ₚ handed ++ left /\
    stored_texts (finish (fun _ => None) demo_item demo_ending (run demo_item demo_steps)) =
      map stored handed ++ answer_frame demo_item (tracker (run demo_item demo_steps)) /\
    (forall h, h ∈ left ->
      answer_frame demo_item (tracker (run demo_item demo_steps)) = [(item_turnId demo_item, trim (reply h))]).
Proof.
  assert (Forall quiet demo_steps) as Q by by repeat constructor.
  split; [exact Q|]. split; [exact demo_terminal_last|].
  exact (replies_stored_once (fun _ => None) demo_item demo_steps demo_ending Q demo_terminal_last).
Defined.

Example demo_texts :
  stored_texts (finish (fun _ => None) demo_item demo_ending (run demo_item demo_steps)) =
  [(js "f1", js "Sure, that too."); (js "t1", js "All done.")].
Proof. by vm_compute. Qed.
