(* ===== verification/MemoryFile.v ===== *)
(** * The memory file

    [packages/agent-protocol/src/memory-file.ts] and [sync-budget.ts]: how a
    memory of the platform becomes a file of the agent's home, and how such a
    file is read back. The control plane renders, the sandbox parses. *)
From S2P Require Import Prelude PolicyTypes JsJson JsBytes.
Local Open Scope N_scope.

(** ** Caps *)

Definition MEMORY_FILE_CONTENT_MAX_CHARS : N := 100000.
Definition MAX_MEMORY_WRITE_BYTES : N := 150000.
Definition MEMORY_TITLE_MAX_LENGTH : nat := 120.
Definition MEMORY_DESCRIPTION_MAX_LENGTH : nat := 300.
Definition MEMORY_KEY_MAX_LENGTH : nat := 80.
Definition MAX_SYNC_PART_BYTES : N := 200000.
Definition MAX_SYNC_PARTS : N := 256.

Definition length_of (s : jsstr) : N := N.of_nat (length s).

Definition is_lower_alnum (c : N) : bool := ((48 <=? c) && (c <=? 57)) || ((97 <=? c) && (c <=? 122)).

(** [/^[a-z0-9]+(?:-[a-z0-9]+)*$/] *)
Definition MEMORY_KEY_PATTERN (s : jsstr) : bool :=
  forallb (fun word => negb (length word =? 0)%nat && forallb is_lower_alnum word) (split_on 45 s).

Definition em_dash : N := 8212.

Definition MEMORY_FILE_MANAGED_COMMENT : jsstr :=
  js "<!-- Synced with OneCLI " ++ [em_dash] ++
  js " edits to this file save to your platform memory; memory/index.md is generated. -->".

Definition LEGACY_MANAGED_COMMENT_PREFIX : jsstr := js "<!-- Managed by OneCLI".

Definition CHECKSUM_PLACEHOLDER : jsstr := replicate 64 48.

(** ** Rendering *)

(** Surrogates are kept, so filtering code units filters code points. *)
Definition kept_char (c : N) : bool :=
  negb ((c =? 0x2028) || (c =? 0x2029)) && (((0x20 <=? c) && negb (c =? 0x7F)) || (c =? ch_nl)).

Definition stripControl (raw : jsstr) : jsstr := List.filter kept_char raw.

Definition flattenToLine (value : jsstr) : jsstr := trim (replace_all ch_nl (js " ") (stripControl value)).

Definition foldedScalar (value : jsstr) : jsstr := js ">-" ++ [ch_nl] ++ js "  " ++ flattenToLine value.

Record MemoryFileFields := mkMemory {
  mf_key : jsstr;
  mf_title : option jsstr;
  mf_description : option jsstr;
  mf_content : jsstr;
}.

Definition renderWithChecksum (memory : MemoryFileFields) (checksum : jsstr) : jsstr :=
  join [ch_nl] (
    [js "---"; js "key: " ++ mf_key memory] ++
    (match truthy (mf_title memory) with Some t => [js "title: " ++ foldedScalar t] | None => [] end) ++
    (match truthy (mf_description memory) with Some d => [js "description: " ++ foldedScalar d] | None => [] end) ++
    [js "checksum: " ++ checksum; js "---"; MEMORY_FILE_MANAGED_COMMENT; []; mf_content memory; []]).

(** [createHash("sha256")] of the bytes. *)
Class Sha256 := {
  sha256_digest : bytes -> bytes;
  sha256_is_bytes l : is_bytes (sha256_digest l);
  sha256_length l : length (sha256_digest l) = 32%nat
}.

(** [digest("hex")] *)
Definition hex (l : bytes) : jsstr := flat_map (fun b => [hex_digit (b / 16); hex_digit (b mod 16)]) l.

Definition sha256Hex `{Sha256} (text : jsstr) : jsstr := hex (sha256_digest (utf8 text)).

Definition renderMemoryFile `{Sha256} (memory : MemoryFileFields) : jsstr :=
  renderWithChecksum memory (sha256Hex (renderWithChecksum memory CHECKSUM_PLACEHOLDER)).

(** ** The checksum line *)

(** Where [$] and [.] of a regular expression stop. *)
Definition is_line_terminator (c : N) : bool := (c =? 10) || (c =? 13) || (c =? 0x2028) || (c =? 0x2029).

Definition is_lower_hex (c : N) : bool := ((48 <=? c) && (c <=? 57)) || ((97 <=? c) && (c <=? 102)).

(** [/(checksum: )([0-9a-f]{64})$/m] here: the hash and what follows it. *)
Definition checksum_here (s : jsstr) : option (jsstr * jsstr) :=
  let rest := drop 10 s in
  let hash := take 64 rest in
  let after := drop 64 rest in
  if starts_with (js "checksum: ") s && (length hash =? 64)%nat && forallb is_lower_hex hash &&
     match after with [] => true | c :: _ => is_line_terminator c end
  then Some (hash, after) else None.

(** The first match from [s] on, [bol] telling whether a line begins there. *)
Fixpoint checksum_line (bol : bool) (s : jsstr) : option (jsstr * jsstr * jsstr) :=
  match (if bol then checksum_here s else None) with
  | Some (hash, after) => Some ([], hash, after)
  | None =>
      match s with
      | [] => None
      | c :: s' => (fun m => (c :: m.1.1, m.1.2, m.2)) <$> checksum_line (is_line_terminator c) s'
      end
  end.

Definition isUnmodifiedProjection `{Sha256} (raw : jsstr) : bool :=
  match checksum_line true raw with
  | None => false
  | Some (before, hash, after) =>
      bool_decide (sha256Hex (before ++ js "checksum: " ++ CHECKSUM_PLACEHOLDER ++ after) = hash)
  end.

(** ** Parsing *)

Record ParsedMemoryFile := mkParsed {
  pm_title : option jsstr;
  pm_description : option jsstr;
  pm_content : jsstr;
}.

(** [QUOTED]: the same quote, single or double, at both ends of a line. *)
Definition unquote (value : jsstr) : jsstr :=
  match value with
  | q :: rest =>
      let inner := drop_last 1 rest in
      if ((q =? 39) || (q =? 34)) && bool_decide (last rest = Some q) && negb (existsb is_line_terminator inner)
      then inner else value
  | [] => value
  end.

(** [replaceAll] of a carriage return and a newline by the newline. *)
Fixpoint replace_crlf (s : jsstr) : jsstr :=
  match s with
  | [] => []
  | c :: s1 =>
      match s1 with
      | d :: s2 => if (c =? 13) && (d =? 10) then 10 :: replace_crlf s2 else c :: replace_crlf s1
      | [] => [c]
      end
  end.

(** A [title:] or [description:] line: the name, [true] for the title, and
    what follows the space after the colon, which must hold no line terminator
    (a shorter run of space would leave the same terminators to [.]). *)
Definition field_line (line : jsstr) : option (bool * jsstr) :=
  let value n := let v := trim_start (drop n line) in if existsb is_line_terminator v then None else Some v in
  if starts_with (js "title:") line then (fun v => (true, v)) <$> value 6%nat
  else if starts_with (js "description:") line then (fun v => (false, v)) <$> value 12%nat
  else None.

(** [/^\s+\S/] *)
Definition is_continuation (line : jsstr) : bool :=
  match line with c :: _ => is_js_space c && negb (length (trim_start line) =? 0)%nat | [] => false end.

Definition is_block_scalar (value : jsstr) : bool :=
  bool_decide (value = js ">-") || bool_decide (value = js ">") || bool_decide (value = js "|") || bool_decide (value = js "|-").

Fixpoint take_while {A} (f : A -> bool) (l : list A) : list A :=
  match l with x :: l' => if f x then x :: take_while f l' else [] | [] => [] end.

Definition MemoryFields : Type := option jsstr * option jsstr.

Definition set_field (name : bool) (value : jsstr) (fields : MemoryFields) : MemoryFields :=
  let flattened := flattenToLine value in
  match flattened with
  | [] => fields
  | _ => if name then (Some flattened, fields.2) else (fields.1, Some flattened)
  end.

(** The lines between the fences; [skip] of them were read already. *)
Fixpoint read_fields (skip : nat) (fields : MemoryFields) (lines : list jsstr) : MemoryFields :=
  match lines with
  | [] => fields
  | line :: lines' =>
      match skip with
      | S k => read_fields k fields lines'
      | O =>
          match field_line line with
          | None => read_fields 0 fields lines'
          | Some (name, group) =>
              let value := trim group in
              if is_block_scalar value then
                let parts := take_while is_continuation lines' in
                read_fields (length parts) (set_field name (join (js " ") (map trim parts)) fields) lines'
              else read_fields 0 (set_field name (unquote value) fields) lines'
          end
      end
  end.

Definition is_fence (line : jsstr) : bool := bool_decide (trim line = js "---").

(** The lines before the first fence and those after it. *)
Fixpoint break_fence (lines : list jsstr) : option (list jsstr * list jsstr) :=
  match lines with
  | [] => None
  | line :: lines' =>
      if is_fence line then Some ([], lines') else (fun p => (line :: p.1, p.2)) <$> break_fence lines'
  end.

Definition frontmatter (lines : list jsstr) : MemoryFields * list jsstr :=
  match lines with
  | first :: rest =>
      match (if is_fence first then break_fence rest else None) with
      | Some (front, body) => (read_fields 0 (None, None) front, body)
      | None => ((None, None), lines)
      end
  | [] => ((None, None), lines)
  end.

Definition is_managed_comment (line : jsstr) : bool :=
  bool_decide (line = MEMORY_FILE_MANAGED_COMMENT) || starts_with LEGACY_MANAGED_COMMENT_PREFIX line.

(** [body.splice(firstContent, 1)], when the first line with content is the
    managed comment. *)
Fixpoint drop_comment (body : list jsstr) : list jsstr :=
  match body with
  | [] => []
  | line :: body' =>
      match trim line with
      | [] => line :: drop_comment body'
      | _ => if is_managed_comment line then body' else line :: body'
      end
  end.

Definition strip_bom (raw : jsstr) : jsstr :=
  match raw with c :: raw' => if c =? 0xFEFF then raw' else raw | [] => raw end.

Definition parseMemoryFile (raw : jsstr) : ParsedMemoryFile :=
  let '(fields, body) := frontmatter (split_on ch_nl (replace_crlf (strip_bom raw))) in
  mkParsed fields.1 fields.2 (trim (join [ch_nl] (drop_comment body))).

(** ** The frame budget *)

Definition syncFrameByteLength (frame : json) : N := N.of_nat (length (utf8 (stringify frame))).

Definition sync_frame (path content : jsstr) : json :=
  JObj [(js "kind", JStr (js "skills.changed")); (js "generation", JNum (js "2147483647"));
        (js "part", JNum (js "256")); (js "of", JNum (js "256"));
        (js "files", JArr [JObj [(js "path", JStr path); (js "content", JStr content)]])].

Definition write_frame (writeId key content : jsstr) (title description : option jsstr) (rest : list (jsstr * json)) : json :=
  JObj ([(js "kind", JStr (js "memory.write")); (js "writeId", JStr writeId); (js "key", JStr key);
         (js "content", JStr content)] ++
        (match truthy title with Some t => [(js "title", JStr t)] | None => [] end) ++
        (match truthy description with Some d => [(js "description", JStr d)] | None => [] end) ++ rest).

Definition memoryFileFitsFrame `{Sha256} (memory : MemoryFileFields) : bool :=
  (syncFrameByteLength (sync_frame (js "memory/" ++ mf_key memory ++ js ".md") (renderMemoryFile memory)) <=? MAX_SYNC_PART_BYTES) &&
  (syncFrameByteLength (write_frame (replicate 100 120) (mf_key memory) (mf_content memory) (mf_title memory) (mf_description memory) [])
     <=? MAX_MEMORY_WRITE_BYTES).
