(* ===== verification/MemoryFileSpec.v ===== *)
(** * The memory file, read back

    A rendered memory is recognized as untouched, and parses to the fields it
    was rendered from, whatever stands in its checksum line. *)
From S2P Require Import Prelude PolicyTypes JsJson JsBytes MemoryFile.
Local Open Scope N_scope.

(** ** Stored values *)

(** What the write doors make of a title or a description. *)
Definition line_stable (t : jsstr) : Prop := flattenToLine t = t /\ t <> [].

Definition renderable (m : MemoryFileFields) : Prop :=
  MEMORY_KEY_PATTERN (mf_key m) = true /\
  (forall t, mf_title m = Some t -> line_stable t) /\
  (forall d, mf_description m = Some d -> line_stable d) /\
  trim (mf_content m) = mf_content m.

(** What the format cannot carry: a fence for a label, a carriage return
    before a newline. *)
Definition carried (m : MemoryFileFields) : Prop :=
  mf_title m <> Some (js "---") /\ mf_description m <> Some (js "---") /\ replace_crlf (mf_content m) = mf_content m.

(** A character of a line: kept, and no newline. *)
Definition line_char (c : N) : bool := kept_char c && negb (c =? ch_nl).

Definition is_line (s : jsstr) : Prop := Forall (fun c => line_char c = true) s.

Lemma line_char_not c : line_char c = true -> c <> 10 /\ c <> 13 /\ is_line_terminator c = false.
Proof.
  unfold line_char, kept_char, is_line_terminator, ch_nl. intros H. rewrite !andb_true_iff, !negb_true_iff, orb_true_iff, !orb_false_iff, andb_true_iff, negb_true_iff in H.
  rewrite !orb_false_iff. rewrite !N.eqb_neq, ?N.eqb_eq, ?N.leb_le in *. lia.
Qed.

Lemma flatten_line s : is_line (flattenToLine s).
Proof.
  apply Forall_forall. intros c Hc%trim_elem. unfold replace_all in Hc. apply list_elem_of_In, in_flat_map in Hc as (x & Hx & Hc).
  unfold stripControl in Hx. apply filter_In in Hx as [_ Hk]. destruct (N.eqb_spec x ch_nl) as [->|Hne].
  - destruct Hc as [<-|[]]. done.
  - destruct Hc as [<-|[]]. unfold line_char. rewrite Hk. cbn. by apply negb_true_iff, N.eqb_neq.
Qed.

Lemma flatten_trim s : trim (flattenToLine s) = flattenToLine s.
Proof. apply trim_idem. Qed.

Lemma stable_line t : line_stable t -> is_line t /\ trim t = t.
Proof. intros [<- _]. split; [apply flatten_line|apply flatten_trim]. Qed.

(** ** The file as lines *)

Definition field_lines (name : jsstr) (value : option jsstr) : list jsstr :=
  match truthy value with Some t => [name ++ js ">-"; js "  " ++ flattenToLine t] | None => [] end.

Definition front_lines (m : MemoryFileFields) (checksum : jsstr) : list jsstr :=
  [js "key: " ++ mf_key m] ++ field_lines (js "title: ") (mf_title m) ++ field_lines (js "description: ") (mf_description m) ++
  [js "checksum: " ++ checksum].

Definition head_lines (m : MemoryFileFields) (checksum : jsstr) : list jsstr :=
  [js "---"] ++ front_lines m checksum ++ [js "---"; MEMORY_FILE_MANAGED_COMMENT; []].

Definition unlines (ls : list jsstr) : jsstr := flat_map (fun l => l ++ [ch_nl]) ls.

Lemma unlines_app a b : unlines (a ++ b) = unlines a ++ unlines b.
Proof. apply flat_map_app. Qed.

Lemma join_unlines ls l : join [ch_nl] (ls ++ [l]) = unlines ls ++ l.
Proof.
  induction ls as [|x ls IH]; [done|]. change (unlines (x :: ls)) with ((x ++ [ch_nl]) ++ unlines ls).
  rewrite <- !app_assoc, <- IH. by destruct ls as [|y ls].
Qed.

Lemma split_unlines ls s : Forall (fun l => ch_nl ∉ l) ls -> split_on ch_nl (unlines ls ++ s) = ls ++ split_on ch_nl s.
Proof.
  induction 1 as [|l ls Hl Hls IH]; [done|]. change (unlines (l :: ls)) with ((l ++ [ch_nl]) ++ unlines ls).
  rewrite <- !app_assoc. cbn [app].
  rewrite split_on_app by done. by rewrite IH.
Qed.

Lemma render_lines m checksum :
  renderWithChecksum m checksum = unlines (head_lines m checksum) ++ mf_content m ++ [ch_nl].
Proof.
  unfold renderWithChecksum, head_lines, front_lines, field_lines. set (tail := mf_content m).
  assert (forall ls, join [ch_nl] (ls ++ [tail; []]) = unlines ls ++ tail ++ [ch_nl]) as Hend.
  { intros ls. change [tail; []] with ([tail] ++ [[]]). rewrite app_assoc, join_unlines, unlines_app. cbn [unlines flat_map].
    by rewrite !app_nil_r. }
  rewrite <- Hend. unfold foldedScalar.
  destruct (truthy (mf_title m)) as [t|], (truthy (mf_description m)) as [d|]; cbn -[flattenToLine]; rewrite <- ?app_assoc;
    cbn -[flattenToLine]; rewrite <- ?app_assoc; reflexivity.
Qed.

(** ** Its lines are clean_line *)

Definition clean_line (s : jsstr) : Prop := Forall (fun c => c <> 10 /\ c <> 13 /\ is_line_terminator c = false) s.

Lemma clean_app a b : clean_line a -> clean_line b -> clean_line (a ++ b).
Proof. intros. by apply Forall_app. Qed.

Lemma line_clean s : is_line s -> clean_line s.
Proof. intros H. eapply Forall_impl; [exact H|]. apply line_char_not. Qed.

Lemma clean_bool s : forallb (fun c => negb (is_line_terminator c)) s = true -> clean_line s.
Proof.
  intros H. apply Forall_forall. intros c Hc%list_elem_of_In. pose proof (proj1 (forallb_forall _ _) H c Hc) as E.
  apply negb_true_iff in E. split_and!; [| |done]; intros ->; discriminate.
Qed.

Lemma clean_nl s : clean_line s -> ch_nl ∉ s.
Proof. intros H Hin. by destruct (proj1 (Forall_forall _ _) H _ Hin) as [? _]. Qed.

Lemma key_chars s : MEMORY_KEY_PATTERN s = true -> forallb (fun c => is_lower_alnum c || (c =? 45)) s = true.
Proof.
  unfold MEMORY_KEY_PATTERN. rewrite <- (join_split 45 s) at 2. induction (split_on 45 s) as [|w ws IH]; [done|].
  cbn [forallb]. intros [[_ Hw]%andb_true_iff Hws]%andb_true_iff. specialize (IH Hws).
  assert (forallb (fun c => is_lower_alnum c || (c =? 45)) w = true) as Hw'.
  { apply forallb_forall. intros c Hc. by rewrite (proj1 (forallb_forall _ _) Hw c Hc). }
  destruct ws as [|w' ws]; [done|]. change (join [45] (w :: w' :: ws)) with (w ++ [45] ++ join [45] (w' :: ws)).
  rewrite !forallb_app, Hw', IH. done.
Qed.

Lemma key_clean s : MEMORY_KEY_PATTERN s = true -> clean_line s.
Proof.
  intros H%key_chars. apply clean_bool, forallb_forall. intros c Hc. pose proof (proj1 (forallb_forall _ _) H c Hc) as E.
  unfold is_lower_alnum in E. apply negb_true_iff. unfold is_line_terminator.
  rewrite !orb_true_iff, !andb_true_iff, !N.leb_le, N.eqb_eq in E. rewrite !orb_false_iff, !N.eqb_neq. lia.
Qed.

Lemma field_lines_clean name value :
  clean_line name -> (forall t, value = Some t -> line_stable t) -> Forall clean_line (field_lines name value).
Proof.
  intros Hn Hv. unfold field_lines. destruct value as [[|c t]|]; cbn [truthy]; [constructor| |constructor].
  constructor; [|constructor; [|constructor]]; apply clean_app; [done|by apply clean_bool|by apply clean_bool|apply line_clean, flatten_line].
Qed.

Definition is_checksum (c : jsstr) : Prop := length c = 64%nat /\ forallb is_lower_hex c = true.

Lemma checksum_clean c : is_checksum c -> clean_line c.
Proof.
  intros [_ H]. apply clean_bool, forallb_forall. intros x Hx. pose proof (proj1 (forallb_forall _ _) H x Hx) as E.
  unfold is_lower_hex in E. apply negb_true_iff. unfold is_line_terminator.
  rewrite !orb_true_iff, !andb_true_iff, !N.leb_le in E. rewrite !orb_false_iff, !N.eqb_neq. lia.
Qed.

Lemma head_clean m checksum : renderable m -> is_checksum checksum -> Forall clean_line (head_lines m checksum).
Proof.
  intros (Hk & Ht & Hd & _) Hc. unfold head_lines, front_lines. rewrite !Forall_app. split_and!.
  - constructor; [by apply clean_bool|constructor].
  - constructor; [|constructor]. apply clean_app; [by apply clean_bool|by apply key_clean].
  - apply field_lines_clean; [by apply clean_bool|done].
  - apply field_lines_clean; [by apply clean_bool|done].
  - constructor; [|constructor]. apply clean_app; [by apply clean_bool|by apply checksum_clean].
  - constructor; [by apply clean_bool|]. constructor; [by apply clean_bool|]. constructor; [constructor|constructor].
Qed.

(** ** Line ends *)

Lemma crlf_app a b : 13 ∉ a -> replace_crlf (a ++ b) = a ++ replace_crlf b.
Proof.
  induction a as [|c a IH]; [done|]. intros Hc. cbn [app]. specialize (IH ltac:(set_solver)).
  assert ((c =? 13) = false) as E by (apply N.eqb_neq; set_solver). rewrite <- IH.
  destruct (a ++ b) as [|d s] eqn:Es; [done|]. cbn [replace_crlf]. by rewrite E.
Qed.

Lemma crlf_end s c : last s <> Some 13 -> replace_crlf (s ++ [c]) = replace_crlf s ++ [c].
Proof.
  enough (forall n s, (length s <= n)%nat -> last s <> Some 13 -> replace_crlf (s ++ [c]) = replace_crlf s ++ [c]) by eauto.
  clear s. induction n as [|n IH]; intros s Hs Hl; [by destruct s; [|cbn in Hs; lia]|].
  destruct s as [|x [|y s]]; [done| |].
  - cbn. destruct (N.eqb_spec x 13) as [->|]; [done|]. done.
  - assert (last (y :: s) <> Some 13) as Hl' by (by rewrite last_cons_cons in Hl). cbn [app replace_crlf length] in *.
    destruct ((x =? 13) && (y =? 10)).
    + cbn [app]. f_equal. apply IH; [lia|]. destruct s as [|z s]; [done|]. by rewrite last_cons_cons in Hl'.
    + cbn [app]. f_equal. apply (IH (y :: s)); [cbn; lia|done].
Qed.

Lemma last_rev (s : jsstr) : last s = head (rev s).
Proof.
  induction s as [|c s IH] using rev_ind; [done|]. by rewrite last_snoc, rev_app_distr.
Qed.

Lemma unlines_no_cr ls : Forall clean_line ls -> 13 ∉ unlines ls.
Proof.
  induction 1 as [|l ls Hl Hls IH]; [by intros H%elem_of_nil|]. change (unlines (l :: ls)) with ((l ++ [ch_nl]) ++ unlines ls).
  rewrite !elem_of_app. intros [[H|H]|H]; [|by apply list_elem_of_singleton in H|done].
  by destruct (proj1 (Forall_forall _ _) Hl _ H) as (_ & ? & _).
Qed.

Lemma file_lines m checksum :
  renderable m -> is_checksum checksum -> replace_crlf (mf_content m) = mf_content m ->
  split_on ch_nl (replace_crlf (strip_bom (renderWithChecksum m checksum))) =
    head_lines m checksum ++ split_on ch_nl (mf_content m) ++ [[]].
Proof.
  intros Hm Hc Hcr. pose proof (head_clean m checksum Hm Hc) as Hh. rewrite render_lines.
  assert (forall t, strip_bom (unlines (head_lines m checksum) ++ t) = unlines (head_lines m checksum) ++ t) as -> by done.
  rewrite crlf_app by by apply unlines_no_cr.
  assert (last (mf_content m) <> Some 13) as Hl.
  { destruct Hm as (_ & _ & _ & [_ Hcl]%trimmed_ends). rewrite last_rev. unfold closes_dark in Hcl.
    destruct (rev (mf_content m)) as [|x r]; [done|]. cbn in *. intros [= ->]. discriminate. }
  rewrite crlf_end, Hcr by done. rewrite split_unlines.
  - f_equal. clear. induction (mf_content m) as [|x s IH]; [done|]. cbn [app split_on]. rewrite IH.
    destruct (x =? ch_nl); [done|]. by destruct (split_on_cons ch_nl s) as (w & ws & ->).
  - eapply Forall_impl; [exact Hh|]. apply clean_nl.
Qed.

(** ** Reading the fields *)

Lemma fence_no c s : is_js_space c = false -> c <> 45 -> is_fence (c :: s) = false.
Proof.
  intros Hc Hne. apply bool_decide_eq_false. destruct (trim_cons c s Hc) as [t ->]. intros [= -> _]. done.
Qed.

Lemma trim_indent t : trim t = t -> trim (js "  " ++ t) = t.
Proof. intros Ht. rewrite <- (app_nil_r t) at 1. by apply trim_pad. Qed.

Lemma fence_field t : line_stable t -> t <> js "---" -> is_fence (js "  " ++ flattenToLine t) = false.
Proof.
  intros [E _] Hne. apply bool_decide_eq_false. rewrite trim_indent by apply flatten_trim. by rewrite E.
Qed.

Lemma break_fence_app ls rest :
  Forall (fun l => is_fence l = false) ls -> break_fence (ls ++ js "---" :: rest) = Some (ls, rest).
Proof. induction 1 as [|l ls Hl _ IH]; [done|]. cbn [app break_fence]. by rewrite Hl, IH. Qed.

Lemma field_lines_fences name c n value :
  name = c :: n -> is_js_space c = false -> c <> 45 ->
  (forall t, value = Some t -> line_stable t) -> value <> Some (js "---") ->
  Forall (fun l => is_fence l = false) (field_lines name value).
Proof.
  intros -> Hc Hne Hv Hf. unfold field_lines. destruct value as [[|x t]|]; cbn [truthy]; [constructor| |constructor].
  constructor; [by apply fence_no|]. constructor; [|constructor]. apply fence_field; [by apply Hv|]. intros E. by rewrite E in Hf.
Qed.

Lemma front_fences m checksum : renderable m -> carried m -> Forall (fun l => is_fence l = false) (front_lines m checksum).
Proof.
  intros (_ & Ht & Hd & _) (Hft & Hfd & _). unfold front_lines. rewrite !Forall_app. split_and!.
  - constructor; [by apply fence_no|constructor].
  - by eapply field_lines_fences.
  - by eapply field_lines_fences.
  - constructor; [by apply fence_no|constructor].
Qed.

Lemma continuation_indent t : t <> [] -> trim t = t -> is_continuation (js "  " ++ t) = true.
Proof.
  intros Hne [Ho _]%trimmed_ends. change (js "  " ++ t) with (32 :: 32 :: t). cbn [is_continuation].
  change (trim_start (32 :: 32 :: t)) with (trim_start t). rewrite trim_start_fix by done. by destruct t.
Qed.

Lemma continuation_no c s : is_js_space c = false -> is_continuation (c :: s) = false.
Proof. intros H. cbn [is_continuation]. by rewrite H. Qed.

(** One field, before a line that opens dark. *)
Definition dark_line (line : jsstr) : Prop := match line with c :: _ => is_js_space c = false | [] => False end.

Lemma read_field name (is_title : bool) value (fields : MemoryFields) line rest :
  name = (if is_title then js "title: " else js "description: ") ->
  (forall t, value = Some t -> line_stable t) -> dark_line line ->
  read_fields 0 fields (field_lines name value ++ line :: rest) =
    read_fields 0 (match value with Some t => if is_title then (Some t, fields.2) else (fields.1, Some t) | None => fields end)
      (line :: rest).
Proof.
  intros -> Hv Hc. destruct line as [|c l]; [done|]. cbn [dark_line] in Hc. unfold field_lines. destruct value as [t|]; [|done]. destruct (Hv t eq_refl) as [E Hne].
  pose proof (flatten_trim t) as Hv'. rewrite E in Hv'. destruct t as [|x t]; [done|]. cbn [truthy]. rewrite E. set (v := x :: t) in *.
  assert (take_while is_continuation ((js "  " ++ v) :: (c :: l) :: rest) = [js "  " ++ v]) as Htw.
  { cbn [take_while]. rewrite continuation_indent, continuation_no by done. done. }
  assert (set_field is_title v fields = if is_title then (Some v, fields.2) else (fields.1, Some v)) as Hs.
  { unfold set_field. rewrite E. by subst v. }
  assert (forall head, field_line head = Some (is_title, js ">-") ->
    read_fields 0 fields (head :: (js "  " ++ v) :: (c :: l) :: rest) =
    read_fields 0 (if is_title then (Some v, fields.2) else (fields.1, Some v)) ((c :: l) :: rest)) as Hread.
  { intros head Hh. cbn [read_fields]. rewrite Hh. change (is_block_scalar (trim (js ">-"))) with true. cbv iota zeta.
    rewrite Htw. cbn [length map join]. rewrite trim_indent, Hs by done. done. }
  destruct is_title; cbn [app]; by apply Hread.
Qed.

Lemma frontmatter_read m checksum rest :
  renderable m -> carried m ->
  frontmatter ([js "---"] ++ front_lines m checksum ++ js "---" :: rest) = ((mf_title m, mf_description m), rest).
Proof.
  intros Hm Hc. cbn [app frontmatter]. change (is_fence (js "---")) with true. cbv iota.
  rewrite break_fence_app by by apply front_fences. f_equal. unfold front_lines. cbn [app].
  destruct Hm as (_ & Ht & Hd & _).
  assert (forall fields ls, read_fields 0 fields ((js "key: " ++ mf_key m) :: ls) = read_fields 0 fields ls) as -> by done.
  destruct (mf_description m) as [d|] eqn:Ed.
  - destruct (Hd d eq_refl) as [_ Hne]. destruct d as [|x d]; [done|].
    change (field_lines (js "description: ") (Some (x :: d))) with
      ([js "description: " ++ js ">-"; js "  " ++ flattenToLine (x :: d)]). cbn [app].
    rewrite (read_field (js "title: ") true (mf_title m)) by done.
    change ((js "description: " ++ js ">-") :: (js "  " ++ flattenToLine (x :: d)) :: [js "checksum: " ++ checksum]) with
      (field_lines (js "description: ") (Some (x :: d)) ++ (js "checksum: " ++ checksum) :: []).
    rewrite (read_field (js "description: ") false (Some (x :: d))) by solve [done|intros; simplify_eq; auto].
    destruct (mf_title m); done.
  - cbn [field_lines truthy app]. rewrite (read_field (js "title: ") true (mf_title m)) by done.
    destruct (mf_title m); done.
Qed.

Lemma body_read content :
  trim content = content ->
  trim (join [ch_nl] (drop_comment ([MEMORY_FILE_MANAGED_COMMENT; []] ++ split_on ch_nl content ++ [[]]))) = content.
Proof.
  intros Ht. set (rest := split_on ch_nl content ++ [[]]).
  assert (drop_comment ([MEMORY_FILE_MANAGED_COMMENT; []] ++ rest) = [] :: rest) as -> by (vm_compute; reflexivity).
  subst rest. change ([] :: split_on ch_nl content ++ [[]]) with (([] :: split_on ch_nl content) ++ [[]]).
  rewrite join_unlines.
  assert (forall ls, ls <> [] -> unlines ls = join [ch_nl] ls ++ [ch_nl]) as Hun.
  { intros ls Hls. destruct (exists_last Hls) as (a & l & ->). rewrite unlines_app, join_unlines, <- app_assoc.
    cbn [unlines flat_map]. by rewrite app_nil_r. }
  change (unlines ([] :: split_on ch_nl content)) with ([ch_nl] ++ unlines (split_on ch_nl content)).
  rewrite Hun, join_split by apply split_on_nil. rewrite app_nil_r. by apply trim_pad.
Qed.

(** ** The checksum *)

Definition prepend (before : jsstr) (m : option (jsstr * jsstr * jsstr)) : option (jsstr * jsstr * jsstr) :=
  (fun m => (before ++ m.1.1, m.1.2, m.2)) <$> m.

Lemma prepend_app a b m : prepend (a ++ b) m = prepend a (prepend b m).
Proof. destruct m as [[[? ?] ?]|]; [|done]. cbn. by rewrite app_assoc. Qed.

Lemma checksum_inside l rest : clean_line l -> checksum_line false (l ++ ch_nl :: rest) = prepend (l ++ [ch_nl]) (checksum_line true rest).
Proof.
  induction 1 as [|c l (_ & _ & Hc) _ IH]; [cbn [app checksum_line]; by destruct (checksum_line _ rest) as [[[? ?] ?]|]|].
  cbn [app checksum_line]. rewrite Hc, IH. by destruct (checksum_line true rest) as [[[? ?] ?]|].
Qed.

(** A line that does not open with a [c] is passed over. *)
Lemma checksum_skip c l rest :
  clean_line (c :: l) -> c <> 99 -> checksum_line true ((c :: l) ++ ch_nl :: rest) = prepend (c :: l ++ [ch_nl]) (checksum_line true rest).
Proof.
  intros Hl Hne. change (c :: l ++ [ch_nl]) with ((c :: l) ++ [ch_nl]). rewrite <- checksum_inside by done. cbn [app checksum_line].
  assert (checksum_here (c :: l ++ ch_nl :: rest) = None) as ->; [|done].
  unfold checksum_here. assert (starts_with (js "checksum: ") (c :: l ++ ch_nl :: rest) = false) as ->; [|done].
  cbn [js starts_with map]. apply andb_false_iff. left. apply N.eqb_neq. by intros E.
Qed.

Definition passed (line : jsstr) : Prop := clean_line line /\ match line with c :: _ => c <> 99 | [] => False end.

Lemma checksum_lines ls rest :
  Forall passed ls -> checksum_line true (unlines ls ++ rest) = prepend (unlines ls) (checksum_line true rest).
Proof.
  induction 1 as [|l ls [Hl Hc] _ IH]; [cbn [unlines flat_map app]; by destruct (checksum_line true rest) as [[[? ?] ?]|]|].
  change (unlines (l :: ls)) with ((l ++ [ch_nl]) ++ unlines ls). rewrite prepend_app, <- IH, <- !app_assoc. cbn [app].
  destruct l as [|c l]; [done|]. by apply checksum_skip.
Qed.

Lemma checksum_match c rest :
  is_checksum c -> checksum_line true (js "checksum: " ++ c ++ ch_nl :: rest) = Some ([], c, ch_nl :: rest).
Proof.
  intros [Hl Hh]. assert (checksum_here (js "checksum: " ++ c ++ ch_nl :: rest) = Some (c, ch_nl :: rest)) as E.
  { unfold checksum_here. rewrite starts_with_app. change (drop 10 (js "checksum: " ++ ?s)) with s.
    rewrite <- Hl, take_app_length, drop_app_length, Hl, Hh. done. }
  destruct (js "checksum: " ++ c ++ ch_nl :: rest) as [|x s]; [by cbv in E|]. cbn [checksum_line]. by rewrite E.
Qed.

Definition before_checksum (m : MemoryFileFields) : list jsstr :=
  [js "---"; js "key: " ++ mf_key m] ++ field_lines (js "title: ") (mf_title m) ++ field_lines (js "description: ") (mf_description m).

Definition after_checksum (m : MemoryFileFields) : jsstr :=
  unlines [js "---"; MEMORY_FILE_MANAGED_COMMENT; []] ++ mf_content m ++ [ch_nl].

Lemma render_checksum m c :
  renderWithChecksum m c = unlines (before_checksum m) ++ js "checksum: " ++ c ++ ch_nl :: after_checksum m.
Proof.
  rewrite render_lines. unfold head_lines, front_lines, before_checksum, after_checksum.
  rewrite !unlines_app. cbn [unlines flat_map]. rewrite !app_nil_r, <- !app_assoc. reflexivity.
Qed.

Lemma before_passed m : renderable m -> Forall passed (before_checksum m).
Proof.
  intros Hm. assert (is_checksum CHECKSUM_PLACEHOLDER) as Hc by done.
  pose proof (head_clean m _ Hm Hc) as Hh. unfold head_lines, front_lines in Hh. rewrite !Forall_app in Hh.
  destruct Hh as (H1 & (H2 & H3 & H4 & _) & _). unfold before_checksum. rewrite !Forall_app. split_and!.
  - apply Forall_cons in H1 as [H1 _]. apply Forall_cons in H2 as [H2 _].
    constructor; [by split|]. constructor; [by split|constructor].
  - unfold field_lines in *. destruct (truthy (mf_title m)); [|constructor]. apply Forall_cons in H3 as [Ha H3].
    apply Forall_cons in H3 as [Hb _]. constructor; [by split|]. constructor; [by split|constructor].
  - unfold field_lines in *. destruct (truthy (mf_description m)); [|constructor]. apply Forall_cons in H4 as [Ha H4].
    apply Forall_cons in H4 as [Hb _]. constructor; [by split|]. constructor; [by split|constructor].
Qed.

Section Hash.
Context `{Sha256}.

Lemma hex_lower l : is_bytes l -> forallb is_lower_hex (hex l) = true.
Proof.
  assert (forall v, v < 16 -> is_lower_hex (hex_digit v) = true) as Hd.
  { intros v Hv. unfold hex_digit, is_lower_hex. destruct (N.ltb_spec v 10); apply orb_true_iff;
      rewrite !andb_true_iff, !N.leb_le; lia. }
  induction 1 as [|b l Hb _ IH]; [done|]. cbn [hex flat_map app forallb]. unfold is_byte in Hb.
  rewrite !Hd; [exact IH| |]; [by apply N.mod_lt|]. apply N.Div0.div_lt_upper_bound. lia.
Qed.

Lemma length_hex l : length (hex l) = (2 * length l)%nat.
Proof. induction l as [|b l IH]; [done|]. cbn [hex flat_map app length]. unfold hex in IH. rewrite IH. lia. Qed.

Lemma sha_checksum text : is_checksum (sha256Hex text).
Proof. split; [unfold sha256Hex; by rewrite length_hex, sha256_length|apply hex_lower, sha256_is_bytes]. Qed.

Lemma unmodified_render m checksum :
  renderable m -> is_checksum checksum ->
  isUnmodifiedProjection (renderWithChecksum m checksum) = true <-> renderWithChecksum m checksum = renderMemoryFile m.
Proof.
  intros Hm Hc. unfold isUnmodifiedProjection. rewrite (render_checksum m checksum), checksum_lines by by apply before_passed.
  rewrite checksum_match by done. cbn [prepend fmap option_fmap option_map fst snd]. rewrite app_nil_r, bool_decide_eq_true.
  rewrite <- render_checksum, <- (render_checksum m checksum). unfold renderMemoryFile. split; [by intros ->|].
  rewrite (render_checksum m checksum), (render_checksum m (sha256Hex _)). intros E. do 2 apply app_inv_head in E.
  apply (f_equal (take 64)) in E. destruct Hc as [Hl _], (sha_checksum (renderWithChecksum m CHECKSUM_PLACEHOLDER)) as [Hl' _].
  rewrite <- Hl in E at 1. rewrite take_app_length in E. rewrite <- Hl' in E. by rewrite take_app_length in E.
Qed.

Lemma parse_render m checksum :
  renderable m -> is_checksum checksum -> carried m ->
  parseMemoryFile (renderWithChecksum m checksum) = mkParsed (mf_title m) (mf_description m) (mf_content m).
Proof.
  intros Hm Hc Hf. unfold parseMemoryFile. rewrite file_lines by (done || apply Hf). unfold head_lines.
  change ([js "---"] ++ front_lines m checksum ++ [js "---"; MEMORY_FILE_MANAGED_COMMENT; []]) with
    ([js "---"] ++ front_lines m checksum ++ ([js "---"] ++ [MEMORY_FILE_MANAGED_COMMENT; []])).
  rewrite <- !app_assoc. change ([js "---"] ++ [MEMORY_FILE_MANAGED_COMMENT; []] ++ ?r) with (js "---" :: [MEMORY_FILE_MANAGED_COMMENT; []] ++ r).
  pose proof (frontmatter_read m checksum ([MEMORY_FILE_MANAGED_COMMENT; []] ++ split_on ch_nl (mf_content m) ++ [[]]) Hm Hf) as E.
  unfold front_lines in *. cbn [app] in *. rewrite E. f_equal. apply body_read. apply Hm.
Qed.

(** C36: A rendered memory reads as untouched exactly when its checksum line is
    the one the render gives, and parses back to the title, the description
    and the content it was rendered from, whatever its checksum line says. *)
Theorem memory_roundtrip m checksum :
  renderable m -> is_checksum checksum ->
  (isUnmodifiedProjection (renderWithChecksum m checksum) = true <->
     renderWithChecksum m checksum = renderMemoryFile m) /\
  (carried m -> parseMemoryFile (renderWithChecksum m checksum) = mkParsed (mf_title m) (mf_description m) (mf_content m)).
Proof. intros Hm Hc. split; [by apply unmodified_render|by apply parse_render]. Qed.
End Hash.
