(* ===== verification/MemoryService.v ===== *)
(** * An agent's memories

    [packages/api/src/services/agent-memory-service.ts] and the doors of
    [validations/memories.ts]. A memory is a head row and the revisions every
    save appends. Each query and each transaction is one statement; between
    two of them other requests run. Timestamps are left out but for the stamp
    of a redaction, and search, which the database ranks, is not modelled. *)
From S2P Require Import Prelude PolicyTypes JsJson Catalog JsBytes Programs MemoryFile.
Local Open Scope Z_scope.

Definition MAX_MEMORIES_PER_AGENT : nat := 100.
Definition MEMORY_REVISIONS_RETAINED : Z := 50.
Definition MEMORY_REVISION_PREVIEW_CHARS : nat := 2000.
Definition REDACTED_CONTENT : jsstr := js "[redacted]".
Definition MEMORY_CONTENT_MAX_LENGTH : N := 12000.

(** ** Rows *)

Record MemoryState := mkState {
  st_title : option jsstr;
  st_description : option jsstr;
  st_content : jsstr;
}.

#[export] Instance MemoryState_eq_dec : EqDecision MemoryState.
Proof. solve_decision. Defined.

Record MemoryRow := mkRow {
  me_id : jsstr;
  me_agentId : jsstr;
  me_key : jsstr;
  me_state : MemoryState;
  me_lastRevisionSeq : Z;
}.

Inductive MemoryOp := op_save | op_restore.

(** Who writes, whence. *)
Record MemoryAuthor := mkAuthor {
  au_kind : jsstr;
  au_userId : option jsstr;
  au_email : option jsstr;
  au_conversationId : option jsstr;
  au_turnId : option jsstr;
}.

Record RevisionRow := mkRevision {
  rv_id : jsstr;
  rv_memoryId : jsstr;
  rv_seq : Z;
  rv_op : MemoryOp;
  rv_restoredFromSeq : option Z;
  rv_state : MemoryState;
  rv_author : MemoryAuthor;
  rv_redactedAt : option Z;
  rv_redactedByUserId : option jsstr;
}.

Record HostedAgent := mkHosted {
  ha_id : jsstr;
  ha_workspaceId : jsstr;
  ha_kind : jsstr;
}.

(** The tables; [issued] are the identifiers ever given to a row, and [bumps]
    the agents whose home was bumped, in order. *)
Record MemoryDb := mkDb {
  db_agents : list HostedAgent;
  db_memories : list MemoryRow;
  db_revisions : list RevisionRow;
  db_issued : list jsstr;
  db_bumps : list jsstr;
}.

(** What the moment of a statement gives it. *)
Record MemoryEnv := mkEnv {
  env_memoryId : jsstr;
  env_revisionId : jsstr;
  env_now : Z;
}.

Inductive MemoryThrow :=
| Refused (e : ServiceError)
| P2002
| P2025.

Abbreviation mprog := (prog MemoryEnv MemoryDb MemoryThrow).

Definition refuse {A} (code : ServiceErrorCode) (message : jsstr) : mprog A :=
  Throw (Refused {| se_code := code; se_message := message |}).

Definition fields_of (key : jsstr) (s : MemoryState) : MemoryFileFields :=
  mkMemory key (st_title s) (st_description s) (st_content s).

(** ** Statements *)

Definition requireHostedAgent (workspaceId agentId : jsstr) : mprog HostedAgent :=
  agent ← ask (fun _ db => List.find (fun a => bool_decide (ha_id a = agentId) && bool_decide (ha_workspaceId a = workspaceId)) (db_agents db));
  match agent with
  | None => refuse NOT_FOUND (js "Agent not found")
  | Some a =>
      if bool_decide (ha_kind a = js "hosted") then mret a
      else refuse UNPROCESSABLE (js "Only hosted agents have memory")
  end.

Definition bumpHomeForAgent (agentId : jsstr) : mprog () :=
  alter_state (fun _ db => mkDb (db_agents db) (db_memories db) (db_revisions db) (db_issued db) (db_bumps db ++ [agentId])).

Definition memory_not_found {A} : mprog A := refuse NOT_FOUND (js "Memory not found").

Definition find_memory (agentId memoryId : jsstr) (db : MemoryDb) : option MemoryRow :=
  List.find (fun m => bool_decide (me_id m = memoryId) && bool_decide (me_agentId m = agentId)) (db_memories db).

Definition find_key (agentId key : jsstr) (db : MemoryDb) : option MemoryRow :=
  List.find (fun m => bool_decide (me_agentId m = agentId) && bool_decide (me_key m = key)) (db_memories db).

(** The new revision, and the retention. Generated identifiers never repeat;
    [(memoryId, seq)] is unique. *)
Definition appendRevision (e : MemoryEnv) (memoryId : jsstr) (seq : Z) (state : MemoryState) (op : MemoryOp)
    (restoredFromSeq : option Z) (author : MemoryAuthor) (db : MemoryDb) : option MemoryDb :=
  if bool_decide (env_revisionId e ∈ db_issued db) ||
     existsb (fun r => bool_decide (rv_memoryId r = memoryId) && (rv_seq r =? seq)) (db_revisions db)
  then None
  else
    let created := mkRevision (env_revisionId e) memoryId seq op restoredFromSeq state author None None in
    Some (mkDb (db_agents db) (db_memories db)
      (List.filter (fun r => negb (bool_decide (rv_memoryId r = memoryId) && (rv_seq r <=? seq - MEMORY_REVISIONS_RETAINED)))
         (db_revisions db ++ [created]))
      (db_issued db ++ [env_revisionId e]) (db_bumps db)).

Section Service.
Context `{Sha256}.

Definition assertProjectable (key : jsstr) (state : MemoryState) : mprog () :=
  if memoryFileFitsFrame (fields_of key state) then mret ()
  else refuse UNPROCESSABLE (js "This memory is too large to sync to the agent's machine: split it into smaller linked memories").

Definition create_tx (agentId key : jsstr) (state : MemoryState) (author : MemoryAuthor) : mprog MemoryRow :=
  exec (fun e db =>
    if bool_decide (env_memoryId e ∈ db_issued db) ||
       existsb (fun m => bool_decide (me_agentId m = agentId) && bool_decide (me_key m = key)) (db_memories db)
    then (inr P2002, db)
    else
      let created := mkRow (env_memoryId e) agentId key state 1 in
      match appendRevision e (env_memoryId e) 1 state op_save None author
              (mkDb (db_agents db) (db_memories db ++ [created]) (db_revisions db) (db_issued db ++ [env_memoryId e]) (db_bumps db)) with
      | Some db' => (inl created, db')
      | None => (inr P2002, db)
      end).

Record MemoryInput := mkInput {
  in_key : jsstr;
  in_content : jsstr;
  in_title : option jsstr;
  in_description : option jsstr;
}.

Definition createMemory (workspaceId agentId : jsstr) (input : MemoryInput) (author : MemoryAuthor) : mprog MemoryRow :=
  requireHostedAgent workspaceId agentId;;
  held ← ask (fun _ db => length (List.filter (fun m => bool_decide (me_agentId m = agentId)) (db_memories db)));
  (if (MAX_MEMORIES_PER_AGENT <=? held)%nat
   then refuse UNPROCESSABLE (js "This agent already holds 100 memories. Update an existing key with memory_save, or delete one on the Memory page")
   else mret ());;
  let state := mkState (in_title input) (in_description input) (in_content input) in
  assertProjectable (in_key input) state;;
  catch (memory ← create_tx agentId (in_key input) state author; bumpHomeForAgent agentId;; mret memory)
    (fun x => match x with
              | P2002 => refuse CONFLICT (jsq "A memory named `" ++ in_key input ++ jsq "` already exists")
              | x => Throw x
              end).

(** The head row takes the state and the next number, which its revision
    keeps. *)
Definition set_head (memoryId : jsstr) (state : MemoryState) (m : MemoryRow) : MemoryRow :=
  if bool_decide (me_id m = memoryId)
  then mkRow (me_id m) (me_agentId m) (me_key m) state (me_lastRevisionSeq m + 1) else m.

Definition apply_tx (memoryId : jsstr) (state : MemoryState) (op : MemoryOp) (restoredFromSeq : option Z) (author : MemoryAuthor) :
    mprog MemoryRow :=
  exec (fun e db =>
    match List.find (fun m => bool_decide (me_id m = memoryId)) (db_memories db) with
    | None => (inr P2025, db)
    | Some m =>
        let updated := set_head memoryId state m in
        match appendRevision e memoryId (me_lastRevisionSeq updated) state op restoredFromSeq author
                (mkDb (db_agents db) (map (set_head memoryId state) (db_memories db)) (db_revisions db) (db_issued db) (db_bumps db)) with
        | Some db' => (inl updated, db')
        | None => (inr P2002, db)
        end
    end).

Definition applyState (memoryId : jsstr) (state : MemoryState) (op : MemoryOp) (restoredFromSeq : option Z) (author : MemoryAuthor) :
    mprog MemoryRow :=
  head ← apply_tx memoryId state op restoredFromSeq author;
  bumpHomeForAgent (me_agentId head);;
  mret head.

Definition isNoOp (current next : MemoryState) : bool := bool_decide (current = next).

(** [undefined] is the outer [None], [null] the inner. *)
Record MemoryPatch := mkPatch {
  pa_title : option (option jsstr);
  pa_description : option (option jsstr);
  pa_content : option jsstr;
}.

Definition patched (patch : MemoryPatch) (existing : MemoryState) : MemoryState :=
  mkState (default (st_title existing) (pa_title patch)) (default (st_description existing) (pa_description patch))
    (default (st_content existing) (pa_content patch)).

Definition updateMemory (workspaceId agentId memoryId : jsstr) (patch : MemoryPatch) (author : MemoryAuthor) : mprog MemoryRow :=
  requireHostedAgent workspaceId agentId;;
  found ← ask (fun _ => find_memory agentId memoryId);
  match found with
  | None => memory_not_found
  | Some existing =>
      let next := patched patch (me_state existing) in
      if isNoOp (me_state existing) next then mret existing
      else
        assertProjectable (me_key existing) next;;
        applyState memoryId next op_save None author
  end.

Record SaveResult := mkSaved {
  sr_memory : MemoryRow;
  sr_created : bool;
  sr_noop : bool;
}.

(** An omitted title or description is kept. *)
Definition merged (input : MemoryInput) (existing : MemoryState) : MemoryState :=
  mkState (match in_title input with Some t => Some t | None => st_title existing end)
    (match in_description input with Some d => Some d | None => st_description existing end) (in_content input).

Definition overwrite (agentId : jsstr) (input : MemoryInput) (author : MemoryAuthor) : mprog (option SaveResult) :=
  found ← ask (fun _ => find_key agentId (in_key input));
  match found with
  | None => mret None
  | Some existing =>
      let next := merged input (me_state existing) in
      if isNoOp (me_state existing) next then mret (Some (mkSaved existing false true))
      else
        assertProjectable (in_key input) next;;
        memory ← applyState (me_id existing) next op_save None author;
        mret (Some (mkSaved memory false false))
  end.

Definition upsertMemoryByKey (workspaceId agentId : jsstr) (input : MemoryInput) (author : MemoryAuthor) : mprog SaveResult :=
  requireHostedAgent workspaceId agentId;;
  updated ← overwrite agentId input author;
  match updated with
  | Some saved => mret saved
  | None =>
      catch (memory ← createMemory workspaceId agentId input author; mret (mkSaved memory true false))
        (fun x => match x with
                  | Refused e =>
                      match se_code e with
                      | CONFLICT =>
                          settled ← overwrite agentId input author;
                          match settled with Some saved => mret saved | None => Throw x end
                      | _ => Throw x
                      end
                  | x => Throw x
                  end)
  end.

Definition saveMemoryFromFile (workspaceId agentId : jsstr) (input : MemoryInput) (author : MemoryAuthor) : mprog SaveResult :=
  let content := trim (in_content input) in
  (if (length content =? 0)%nat
   then refuse UNPROCESSABLE (js "The memory file has no content. Write the memory before it can sync") else mret ());;
  (if (MEMORY_FILE_CONTENT_MAX_CHARS <? length_of content)%N
   then refuse UNPROCESSABLE (js "Memory content is limited to 100,000 characters: split it into linked memories") else mret ());;
  upsertMemoryByKey workspaceId agentId
    (mkInput (in_key input) content (truthy (flattenToLine <$> in_title input)) (truthy (flattenToLine <$> in_description input))) author.

Definition deleteMemory (workspaceId agentId memoryId : jsstr) : mprog () :=
  requireHostedAgent workspaceId agentId;;
  count ← query (fun _ db =>
    let gone m := bool_decide (me_id m = memoryId) && bool_decide (me_agentId m = agentId) in
    (length (List.filter gone (db_memories db)),
     mkDb (db_agents db) (List.filter (fun m => negb (gone m)) (db_memories db))
       (List.filter (fun r => negb (existsb (fun m => gone m && bool_decide (rv_memoryId r = me_id m)) (db_memories db))) (db_revisions db))
       (db_issued db) (db_bumps db)));
  (if (count =? 0)%nat then memory_not_found else mret ());;
  bumpHomeForAgent agentId.

(** *** History *)

Definition listMemories (workspaceId agentId : jsstr) : mprog (list MemoryRow) :=
  requireHostedAgent workspaceId agentId;;
  ask (fun _ db => js_sort (fun a b => str_leb (me_key a) (me_key b)) (List.filter (fun m => bool_decide (me_agentId m = agentId)) (db_memories db))).

(** Newest first. *)
Definition revisions_of (memoryId : jsstr) (db : MemoryDb) : list RevisionRow :=
  js_sort (fun a b => rv_seq b <=? rv_seq a) (List.filter (fun r => bool_decide (rv_memoryId r = memoryId)) (db_revisions db)).

Definition memory_detail (agentId memoryId : jsstr) (db : MemoryDb) : option (MemoryRow * option RevisionRow) :=
  match find_memory agentId memoryId db with Some m => Some (m, head (revisions_of memoryId db)) | None => None end.

Definition getMemory (workspaceId agentId memoryId : jsstr) : mprog (MemoryRow * option RevisionRow) :=
  requireHostedAgent workspaceId agentId;;
  found ← ask (fun _ => memory_detail agentId memoryId);
  match found with None => memory_not_found | Some m => mret m end.

Definition getMemoryByKey (workspaceId agentId key : jsstr) : mprog MemoryRow :=
  requireHostedAgent workspaceId agentId;;
  found ← ask (fun _ => find_key agentId key);
  match found with
  | None => refuse NOT_FOUND (jsq "No memory named `" ++ key ++ jsq "`. memory_list shows what exists.")
  | Some m => mret m
  end.

Definition toRevisionPreview (r : RevisionRow) : RevisionRow * bool :=
  (mkRevision (rv_id r) (rv_memoryId r) (rv_seq r) (rv_op r) (rv_restoredFromSeq r)
     (mkState (st_title (rv_state r)) (st_description (rv_state r)) (take MEMORY_REVISION_PREVIEW_CHARS (st_content (rv_state r))))
     (rv_author r) (rv_redactedAt r) (rv_redactedByUserId r),
   (MEMORY_REVISION_PREVIEW_CHARS <? length (st_content (rv_state r)))%nat).

Definition listRevisions (workspaceId agentId memoryId : jsstr) : mprog (list (RevisionRow * bool)) :=
  requireHostedAgent workspaceId agentId;;
  memory ← ask (fun _ => find_memory agentId memoryId);
  match memory with
  | None => memory_not_found
  | Some _ => revisions ← ask (fun _ => revisions_of memoryId); mret (map toRevisionPreview revisions)
  end.

Definition find_revision (memoryId revisionId : jsstr) (db : MemoryDb) : option RevisionRow :=
  List.find (fun r => bool_decide (rv_id r = revisionId) && bool_decide (rv_memoryId r = memoryId)) (db_revisions db).

Definition requireRevision (agentId memoryId revisionId : jsstr) : mprog (MemoryRow * RevisionRow) :=
  memory ← ask (fun _ => find_memory agentId memoryId);
  match memory with
  | None => memory_not_found
  | Some m =>
      revision ← ask (fun _ => find_revision memoryId revisionId);
      match revision with None => refuse NOT_FOUND (js "Revision not found") | Some r => mret (m, r) end
  end.

Definition getRevision (workspaceId agentId memoryId revisionId : jsstr) : mprog RevisionRow :=
  requireHostedAgent workspaceId agentId;;
  found ← requireRevision agentId memoryId revisionId;
  mret found.2.

Definition restoreRevision (workspaceId agentId memoryId revisionId : jsstr) (author : MemoryAuthor) : mprog MemoryRow :=
  requireHostedAgent workspaceId agentId;;
  found ← requireRevision agentId memoryId revisionId;
  let '(memory, revision) := found in
  (if rv_seq revision =? me_lastRevisionSeq memory then refuse UNPROCESSABLE (js "This is already the current version") else mret ());;
  (match rv_redactedAt revision with
   | Some _ => refuse UNPROCESSABLE (js "This revision was redacted: its content is gone")
   | None => mret ()
   end);;
  applyState memoryId (rv_state revision) op_restore (Some (rv_seq revision)) author.

Definition scrubbed : MemoryState := mkState None None REDACTED_CONTENT.

Definition redact (revisionId : jsstr) (now : Z) (userId : option jsstr) (r : RevisionRow) : RevisionRow :=
  if bool_decide (rv_id r = revisionId)
  then mkRevision (rv_id r) (rv_memoryId r) (rv_seq r) (rv_op r) (rv_restoredFromSeq r) scrubbed (rv_author r) (Some now) userId
  else r.

Definition redactRevision (workspaceId agentId memoryId revisionId : jsstr) (redactedByUserId : option jsstr) : mprog RevisionRow :=
  requireHostedAgent workspaceId agentId;;
  found ← requireRevision agentId memoryId revisionId;
  let '(memory, revision) := found in
  (if rv_seq revision =? me_lastRevisionSeq memory
   then refuse UNPROCESSABLE (js "This is the current version: edit or delete the memory first, then redact the old revision") else mret ());;
  (match rv_redactedAt revision with Some _ => refuse UNPROCESSABLE (js "Already redacted") | None => mret () end);;
  exec (fun e db =>
    match List.find (fun r => bool_decide (rv_id r = rv_id revision)) (db_revisions db) with
    | None => (inr P2025, db)
    | Some r =>
        (inl (redact (rv_id revision) (env_now e) redactedByUserId r),
         mkDb (db_agents db) (db_memories db) (map (redact (rv_id revision) (env_now e) redactedByUserId) (db_revisions db))
           (db_issued db) (db_bumps db))
    end).

Definition memoryPressure (agentId : jsstr) : mprog (nat * nat) :=
  held ← ask (fun _ db => length (List.filter (fun m => bool_decide (me_agentId m = agentId)) (db_memories db)));
  mret (held, MAX_MEMORIES_PER_AGENT).
End Service.

(** ** The doors *)

(** A field between its bounds, trimmed. *)
Definition trimmed_field (max : N) (value : jsstr) : option jsstr :=
  let v := trim value in
  if (length v =? 0)%nat || (max <? length_of v)%N then None else Some v.

Definition keyField (value : jsstr) : option jsstr :=
  v ← trimmed_field (N.of_nat MEMORY_KEY_MAX_LENGTH) value;
  if MEMORY_KEY_PATTERN v then Some v else None.

(** A title or a description. *)
Definition lineField (max : nat) (value : jsstr) : option jsstr :=
  v ← trimmed_field (N.of_nat max) value;
  if has_char ch_nl v then None else truthy (Some (flattenToLine v)).

Definition optional {A B} (field : A -> option B) (value : option A) : option (option B) :=
  match value with None => Some None | Some v => Some <$> field v end.

Definition input_schema (contentMax : N) (body : MemoryInput) : option MemoryInput :=
  key ← keyField (in_key body);
  content ← trimmed_field contentMax (in_content body);
  title ← optional (lineField MEMORY_TITLE_MAX_LENGTH) (in_title body);
  description ← optional (lineField MEMORY_DESCRIPTION_MAX_LENGTH) (in_description body);
  Some (mkInput key content title description).

Definition createMemorySchema : MemoryInput -> option MemoryInput := input_schema MEMORY_FILE_CONTENT_MAX_CHARS.
Definition memorySaveArgsSchema : MemoryInput -> option MemoryInput := input_schema MEMORY_CONTENT_MAX_LENGTH.

Definition updateMemorySchema (body : MemoryPatch) : option MemoryPatch :=
  title ← optional (optional (lineField MEMORY_TITLE_MAX_LENGTH)) (pa_title body);
  description ← optional (optional (lineField MEMORY_DESCRIPTION_MAX_LENGTH)) (pa_description body);
  content ← optional (trimmed_field MEMORY_FILE_CONTENT_MAX_CHARS) (pa_content body);
  match title, description, content with
  | None, None, None => None
  | _, _, _ => Some (mkPatch title description content)
  end.
