(* ===== verification/MemoryHistory.v ===== *)
(** * What the memory tables keep

    However requests interleave and whatever is lost of them, the head of a
    memory is its newest revision, the retained revisions are the newest fifty
    in a row, a retained revision only changes by being redacted, and what is
    stored can be rendered, read back and synced. *)
From S2P Require Import Prelude PolicyTypes JsJson Catalog JsBytes Programs MemoryFile MemoryFileSpec MemoryService.
Local Open Scope Z_scope.

Section History.
Context `{Sha256}.

(** A state the doors let through. *)
Definition state_ok (key : jsstr) (s : MemoryState) : Prop :=
  renderable (fields_of key s) /\ st_content s <> [] /\ memoryFileFitsFrame (fields_of key s) = true.

Record db_ok (db : MemoryDb) : Prop := {
  ok_ids : NoDup (map me_id (db_memories db));
  ok_keys : NoDup (map (fun m => (me_agentId m, me_key m)) (db_memories db));
  ok_issued m : m ∈ db_memories db -> me_id m ∈ db_issued db;
  ok_rev_ids : NoDup (map rv_id (db_revisions db));
  ok_rev_issued r : r ∈ db_revisions db -> rv_id r ∈ db_issued db;
  ok_rev_seqs : NoDup (map (fun r => (rv_memoryId r, rv_seq r)) (db_revisions db));
  ok_owned r : r ∈ db_revisions db -> exists m, m ∈ db_memories db /\ me_id m = rv_memoryId r;
  ok_span m q : m ∈ db_memories db ->
    ((exists r, r ∈ db_revisions db /\ rv_memoryId r = me_id m /\ rv_seq r = q) <->
     1 <= q /\ me_lastRevisionSeq m - MEMORY_REVISIONS_RETAINED < q <= me_lastRevisionSeq m);
  ok_head m : m ∈ db_memories db -> exists r, r ∈ db_revisions db /\ rv_memoryId r = me_id m /\
    rv_seq r = me_lastRevisionSeq m /\ rv_state r = me_state m /\ rv_redactedAt r = None;
  ok_states m r : m ∈ db_memories db -> r ∈ db_revisions db -> rv_memoryId r = me_id m -> rv_redactedAt r = None ->
    state_ok (me_key m) (rv_state r);
}.

(** What may become of a memory and of a revision. *)
Definition memory_kept (m m' : MemoryRow) : Prop :=
  me_id m' = me_id m /\ me_agentId m' = me_agentId m /\ me_key m' = me_key m /\ me_lastRevisionSeq m <= me_lastRevisionSeq m'.

Definition revision_kept (r r' : RevisionRow) : Prop :=
  r' = r \/
  (rv_redactedAt r' <> None /\ rv_state r' = scrubbed /\ rv_id r' = rv_id r /\ rv_memoryId r' = rv_memoryId r /\ rv_seq r' = rv_seq r /\
   rv_op r' = rv_op r /\ rv_restoredFromSeq r' = rv_restoredFromSeq r /\ rv_author r' = rv_author r).

Definition history (db db' : MemoryDb) : Prop :=
  (forall i, i ∈ db_issued db -> i ∈ db_issued db') /\
  (forall m', m' ∈ db_memories db' -> me_id m' ∈ db_issued db -> exists m, m ∈ db_memories db /\ memory_kept m m') /\
  (forall r', r' ∈ db_revisions db' -> rv_id r' ∈ db_issued db -> exists r, r ∈ db_revisions db /\ revision_kept r r').

#[export] Instance history_preorder : PreOrder history.
Proof.
  split.
  - intros db. split_and!; [done| |]; [intros m Hm _; exists m; split; [done|]; by split_and!; try lia|].
    intros r Hr _. exists r. split; [done|by left].
  - intros a b c (Hi & Hm & Hr) (Hi' & Hm' & Hr'). split_and!; [auto| |].
    + intros m2 H2 Hiss. destruct (Hm' m2 H2 (Hi _ Hiss)) as (m1 & H1 & (E1 & E2 & E3 & E4)). rewrite E1 in Hiss.
      destruct (Hm m1 H1 Hiss) as (m & ? & (F1 & F2 & F3 & F4)). exists m. split; [done|]. split_and!; [congruence..|lia].
    + intros r2 H2 Hiss. destruct (Hr' r2 H2 (Hi _ Hiss)) as (r1 & H1 & Hk).
      assert (rv_id r2 = rv_id r1) as Eid by (destruct Hk as [->|(_ & _ & ? & _)]; done). rewrite Eid in Hiss.
      destruct (Hr r1 H1 Hiss) as (r & ? & Hk'). exists r. split; [done|].
      destruct Hk as [->|(? & ? & ? & ? & ? & ? & ? & ?)]; [done|]. right.
      destruct Hk' as [->|(? & ? & ? & ? & ? & ? & ? & ?)]; split_and!; try done; congruence.
Qed.

(** Issued identifiers stay issued. *)
Lemma history_issued db db' i : history db db' -> i ∈ db_issued db -> i ∈ db_issued db'.
Proof. intros (H1 & _). apply H1. Qed.

(** ** Statements *)

(** The revisions of a memory after an append: those not pruned, and the new
    one. *)
Lemma append_inv e mid seq state op from author db db' :
  appendRevision e mid seq state op from author db = Some db' ->
  (env_revisionId e ∉ db_issued db) /\
  (forall r, r ∈ db_revisions db -> ~ (rv_memoryId r = mid /\ rv_seq r = seq)) /\
  (let new := mkRevision (env_revisionId e) mid seq op from state author None None in
  db' = mkDb (db_agents db) (db_memories db)
    (List.filter (fun r => negb (bool_decide (rv_memoryId r = mid) && (rv_seq r <=? seq - MEMORY_REVISIONS_RETAINED))) (db_revisions db ++ [new]))
    (db_issued db ++ [env_revisionId e]) (db_bumps db)).
Proof.
  unfold appendRevision. destruct (bool_decide (env_revisionId e ∈ db_issued db)) eqn:E1; [done|].
  destruct (existsb _ (db_revisions db)) eqn:E2; [done|]. intros [= <-]. apply bool_decide_eq_false in E1. split_and!; [done| |done].
  intros r Hr [? ?]. apply not_true_iff_false in E2. apply E2, existsb_In. exists r. split; [done|].
  apply andb_true_iff. split; [by apply bool_decide_eq_true|by apply Z.eqb_eq].
Qed.

Lemma elem_of_append mid seq new rs r :
  r ∈ List.filter (fun r => negb (bool_decide (rv_memoryId r = mid) && (rv_seq r <=? seq - MEMORY_REVISIONS_RETAINED))) (rs ++ [new]) <->
  (r ∈ rs \/ r = new) /\ ~ (rv_memoryId r = mid /\ rv_seq r <= seq - MEMORY_REVISIONS_RETAINED).
Proof.
  rewrite elem_of_lfilter, elem_of_app, list_elem_of_singleton, negb_true_iff, andb_false_iff, bool_decide_eq_false, Z.leb_gt.
  split; [intros [Hr [Hn|Hn]]; (split; [done|]); intros [? ?]; [done|lia]|]. intros [Hr Hn]. split; [done|].
  destruct (decide (rv_memoryId r = mid)); [right|by left]. destruct (Z.lt_ge_cases (seq - MEMORY_REVISIONS_RETAINED) (rv_seq r)); [done|].
  exfalso. by apply Hn.
Qed.

(** The tables after a save: a head [h] at [seq], whose revisions reached
    [seq - 1] before. *)
Lemma append_ok db mems agents issued bumps h new mid seq :
  mid = me_id h -> seq = rv_seq new -> db_ok db ->
  NoDup (map me_id mems) -> NoDup (map (fun m => (me_agentId m, me_key m)) mems) ->
  (forall m, m ∈ mems -> me_id m ∈ issued) -> (forall i, i ∈ db_issued db -> i ∈ issued) ->
  rv_id new ∉ db_issued db -> rv_id new ∈ issued ->
  h ∈ mems -> (forall m, me_id m <> me_id h -> (m ∈ mems <-> m ∈ db_memories db)) ->
  rv_memoryId new = me_id h -> rv_seq new = me_lastRevisionSeq h -> rv_state new = me_state h -> rv_redactedAt new = None ->
  1 <= rv_seq new ->
  (forall q, (exists r, r ∈ db_revisions db /\ rv_memoryId r = me_id h /\ rv_seq r = q) <->
     1 <= q /\ rv_seq new - 1 - MEMORY_REVISIONS_RETAINED < q <= rv_seq new - 1) ->
  (forall r, r ∈ db_revisions db -> rv_memoryId r = me_id h -> rv_redactedAt r = None -> state_ok (me_key h) (rv_state r)) ->
  state_ok (me_key h) (me_state h) ->
  db_ok (mkDb agents mems
    (List.filter (fun r => negb (bool_decide (rv_memoryId r = mid) && (rv_seq r <=? seq - MEMORY_REVISIONS_RETAINED)))
       (db_revisions db ++ [new])) issued bumps).
Proof.
  intros -> -> Hok Hids Hkeys Hiss Hsub Hfresh Hnew Hh Hmems Em Es Est Er H1 Hspan Hst Hsth.
  assert (forall m, m ∈ mems -> me_id m = me_id h -> m = h) as Huniq by (intros m Hm E; exact (NoDup_fmap_elem_eq me_id mems m h Hids Hm Hh E)).
  assert (forall r, r ∈ db_revisions db -> rv_memoryId r = me_id h -> rv_seq r < rv_seq new) as Hlt.
  { intros r Hr E. pose proof (proj1 (Hspan (rv_seq r))). destruct H0 as [? ?]; [by exists r|lia]. }
  constructor; cbn [db_memories db_revisions db_issued]; [done|done|done|..].
  - apply NoDup_map_filter. rewrite map_app. apply NoDup_app. split_and!; [apply (ok_rev_ids _ Hok)| |apply NoDup_singleton].
    intros i Hi Hi'. cbn [map] in Hi'. apply list_elem_of_singleton in Hi' as ->. apply elem_of_lmap in Hi as (r & E & Hr).
    apply Hfresh. rewrite E. by apply (ok_rev_issued _ Hok).
  - intros r [[Hr| ->] _]%elem_of_append; [apply Hsub; by apply (ok_rev_issued _ Hok)|done].
  - apply NoDup_map_filter. rewrite map_app. apply NoDup_app. split_and!; [apply (ok_rev_seqs _ Hok)| |apply NoDup_singleton].
    intros p Hp Hp'. cbn [map] in Hp'. apply list_elem_of_singleton in Hp' as ->. apply elem_of_lmap in Hp as (r & [= E1 E2] & Hr).
    pose proof (Hlt r Hr). assert (rv_memoryId r = me_id h) as E by congruence. specialize (H0 E). lia.
  - intros r [[Hr| ->] _]%elem_of_append; [|by exists h]. destruct (decide (rv_memoryId r = me_id h)) as [E|Hne]; [by exists h|].
    destruct (ok_owned _ Hok r Hr) as (m & Hm & E). exists m. split; [|done]. apply Hmems; [congruence|done].
  - intros m q Hm. destruct (decide (me_id m = me_id h)) as [E|Hne].
    + rewrite (Huniq m Hm E), <- Es. split.
      * intros (r & [[Hr| ->] Hn]%elem_of_append & Er' & <-); [|unfold MEMORY_REVISIONS_RETAINED; lia].
        destruct (proj1 (Hspan (rv_seq r))) as [? ?]; [by exists r|]. split; [done|].
        destruct (Z.le_gt_cases (rv_seq r) (rv_seq new - MEMORY_REVISIONS_RETAINED)); [exfalso; by apply Hn|lia].
      * intros [Hq [Hlo Hhi]]. destruct (decide (q = rv_seq new)) as [->|Hne].
        -- exists new. split_and!; [|done|done]. apply elem_of_append. split; [by right|]. intros [_ Hle]. unfold MEMORY_REVISIONS_RETAINED in Hle. lia.
        -- destruct (proj2 (Hspan q)) as (r & Hr & Er1 & Er2); [lia|]. exists r. split_and!; [|done|done].
           apply elem_of_append. split; [by left|]. intros [_ Hle]. lia.
    + assert (m ∈ db_memories db) as Hm' by by apply Hmems. rewrite <- (ok_span _ Hok m q Hm'). split.
      * intros (r & [[Hr| ->] _]%elem_of_append & E1 & E2); [by exists r|congruence].
      * intros (r & Hr & E1 & E2). exists r. split_and!; [|done|done]. apply elem_of_append. split; [by left|]. intros [? _]. congruence.
  - intros m Hm. destruct (decide (me_id m = me_id h)) as [E|Hne].
    + rewrite (Huniq m Hm E). exists new. split_and!; [|done|done|done|done].
      apply elem_of_append. split; [by right|]. intros [_ Hle]. unfold MEMORY_REVISIONS_RETAINED in Hle. lia.
    + assert (m ∈ db_memories db) as Hm' by by apply Hmems. destruct (ok_head _ Hok m Hm') as (r & Hr & E1 & E2 & E3 & E4).
      exists r. split_and!; [|done..]. apply elem_of_append. split; [by left|]. intros [? _]. congruence.
  - intros m r Hm [[Hr| ->] _]%elem_of_append Em' Er'.
    + destruct (decide (me_id m = me_id h)) as [E|Hne]; [rewrite (Huniq m Hm E); apply Hst; congruence|].
      eapply (ok_states _ Hok m r); [by apply Hmems|done..].
    + assert (m = h) as -> by (apply Huniq; [done|congruence]). by rewrite Est.
Qed.

(** Rows of issued identifiers, before and after a save. *)
Lemma append_history db mems agents issued bumps new mid seq :
  (forall i, i ∈ db_issued db -> i ∈ issued) -> rv_id new ∉ db_issued db ->
  (forall m', m' ∈ mems -> me_id m' ∈ db_issued db -> exists m, m ∈ db_memories db /\ memory_kept m m') ->
  history db (mkDb agents mems
    (List.filter (fun r => negb (bool_decide (rv_memoryId r = mid) && (rv_seq r <=? seq - MEMORY_REVISIONS_RETAINED)))
       (db_revisions db ++ [new])) issued bumps).
Proof.
  intros Hi Hn Hm. split_and!; cbn [db_issued db_memories db_revisions]; [done|done|].
  intros r' [[Hr| ->] _]%elem_of_append Hiss; [|done]. exists r'. split; [done|by left].
Qed.

(** A change of nothing but the agents and the bumps. *)
Lemma same_history db agents bumps :
  history db (mkDb agents (db_memories db) (db_revisions db) (db_issued db) bumps).
Proof.
  split_and!; cbn; [done| |]; [intros m Hm _; exists m; split; [done|]; by split_and!; try lia|].
  intros r Hr _. exists r. split; [done|by left].
Qed.

Lemma bump_safe K agentId : safe db_ok history K (bumpHomeForAgent agentId) done_any.
Proof.
  apply safe_query; [done|]. intros e db Hok _. cbn. split_and!; [by destruct Hok; constructor|apply same_history|done].
Qed.

Lemma find_elem {A} (P : A -> bool) l x : List.find P l = Some x -> x ∈ l /\ P x = true.
Proof. intros Hf. split; [apply list_elem_of_In; by eapply find_some|by eapply find_some]. Qed.

Lemma set_head_id mid st m : me_id (set_head mid st m) = me_id m.
Proof. unfold set_head. by destruct (bool_decide _). Qed.

Lemma set_head_key mid st m : (me_agentId (set_head mid st m), me_key (set_head mid st m)) = (me_agentId m, me_key m).
Proof. unfold set_head. by destruct (bool_decide _). Qed.

(** A memory of an identifier and a key: what a save relies on. *)
Definition keyed (mid key : jsstr) (db : MemoryDb) : Prop :=
  mid ∈ db_issued db /\ forall m, m ∈ db_memories db -> me_id m = mid -> me_key m = key.

Lemma keyed_stable mid key : stable db_ok history (keyed mid key).
Proof.
  intros db db' _ _ (Hi & Hm & _) [Hk Hkey]. split; [auto|]. intros m' Hm' <-. destruct (Hm m' Hm' Hk) as (m & Hin & E1 & _ & -> & _).
  by apply Hkey.
Qed.

Lemma last_positive db m : db_ok db -> m ∈ db_memories db -> 1 <= me_lastRevisionSeq m.
Proof.
  intros Hok Hm. destruct (ok_head _ Hok m Hm) as (r & Hr & E1 & E2 & _).
  destruct (proj1 (ok_span _ Hok m (me_lastRevisionSeq m) Hm)) as [? _]; [by exists r|done].
Qed.

Lemma apply_safe mid key st op from author :
  state_ok key st -> safe db_ok history (keyed mid key) (apply_tx mid st op from author) done_any.
Proof.
  intros Hst. apply safe_exec; [done|]. intros e db Hok [Hiss Hkey].
  destruct (List.find _ (db_memories db)) as [m|] eqn:Hf; [|cbn; by split_and!].
  apply find_elem in Hf as [Hm Em%bool_decide_eq_true].
  cbv zeta. set (h := set_head mid st m). set (mems := map (set_head mid st) (db_memories db)).
  destruct (appendRevision _ _ _ _ _ _ _ _) as [db'|] eqn:Ha; [|cbn; by split_and!].
  apply append_inv in Ha as (Hfresh & Hnone & ->). cbn [db_agents db_memories db_revisions db_issued db_bumps] in *. cbn [fst snd].
  assert (h = mkRow mid (me_agentId m) (me_key m) st (me_lastRevisionSeq m + 1)) as Eh.
  { subst h. unfold set_head. rewrite bool_decide_true by done. by rewrite Em. }
  assert (forall x, x ∈ mems -> me_id x ∈ db_issued db -> exists y, y ∈ db_memories db /\ memory_kept y x) as Hkept.
  { intros x [y [-> Hy]]%elem_of_lmap _. exists y. split; [done|]. split_and!; [apply set_head_id|..].
    - pose proof (set_head_key mid st y). congruence.
    - pose proof (set_head_key mid st y). congruence.
    - unfold set_head. destruct (bool_decide _); cbn; lia. }
  assert (me_id h = mid) as Eid by by rewrite Eh.
  split; [|split; [|done]].
  - apply (append_ok db mems _ _ _ h); [done|done|done|..]; cbn [rv_id rv_memoryId rv_seq rv_state rv_redactedAt].
    + unfold mems. rewrite map_map. erewrite map_ext; [apply (ok_ids _ Hok)|]. intros; apply set_head_id.
    + unfold mems. rewrite map_map. erewrite map_ext; [apply (ok_keys _ Hok)|]. intros; apply set_head_key.
    + intros x [y [-> Hy]]%elem_of_lmap. rewrite set_head_id. apply elem_of_app. left. by apply (ok_issued _ Hok).
    + intros. apply elem_of_app. by left.
    + done.
    + apply elem_of_app. right. by apply list_elem_of_singleton.
    + apply elem_of_lmap. by exists m.
    + intros x Hne. unfold mems. rewrite elem_of_lmap. rewrite Eid in Hne.
      assert (forall y, me_id y <> mid -> set_head mid st y = y) as Hout by (intros; unfold set_head; by rewrite bool_decide_false).
      split; [intros (y & -> & Hy)|intros Hx; exists x; by rewrite Hout]. rewrite set_head_id in Hne. by rewrite Hout.
    + done.
    + done.
    + by rewrite Eh.
    + done.
    + rewrite Eh. cbn. pose proof (last_positive _ m Hok Hm). lia.
    + intros q. rewrite Eid, Eh. cbn [me_lastRevisionSeq]. rewrite <- Em, (ok_span _ Hok m q Hm).
      replace (me_lastRevisionSeq m + 1 - 1) with (me_lastRevisionSeq m) by lia. done.
    + intros r Hr E E'. rewrite Eh. cbn [me_key]. apply (ok_states _ Hok m r); [done|done|congruence|done].
    + rewrite Eh. cbn [me_key me_state]. by rewrite (Hkey m Hm Em).
  - apply append_history; [intros; apply elem_of_app; by left|done|done].
Qed.

Lemma create_safe K agentId key st author :
  state_ok key st -> safe db_ok history K (create_tx agentId key st author) done_any.
Proof.
  intros Hst. apply safe_exec; [done|]. intros e db Hok _.
  destruct (bool_decide (env_memoryId e ∈ db_issued db)) eqn:Ei; [cbn; by split_and!|]. cbn [orb].
  destruct (existsb _ (db_memories db)) eqn:Ek; [cbn; by split_and!|]. apply bool_decide_eq_false in Ei. cbv zeta.
  set (h := mkRow (env_memoryId e) agentId key st 1).
  destruct (appendRevision _ _ _ _ _ _ _ _) as [db'|] eqn:Ha; [|cbn; by split_and!].
  apply append_inv in Ha as (Hfresh & _ & ->). cbn [db_agents db_memories db_revisions db_issued db_bumps] in *. cbn [fst snd].
  assert (env_revisionId e ∉ db_issued db) as Hfresh' by (intros ?; apply Hfresh, elem_of_app; by left).
  assert (forall r, r ∈ db_revisions db -> rv_memoryId r = env_memoryId e -> False) as Hnone.
  { intros r Hr E. destruct (ok_owned _ Hok r Hr) as (m & Hm & E'). apply Ei. rewrite <- E, <- E'. by apply (ok_issued _ Hok). }
  split; [|split; [|done]].
  - apply (append_ok db (db_memories db ++ [h]) _ _ _ h); [done|done|done|..]; cbn [rv_id rv_memoryId rv_seq rv_state rv_redactedAt me_id me_key me_state me_lastRevisionSeq h].
    + rewrite map_app. apply NoDup_app. split_and!; [apply (ok_ids _ Hok)| |apply NoDup_singleton].
      intros i (m & -> & Hm)%elem_of_lmap Hi. cbn [map] in Hi. apply list_elem_of_singleton in Hi. apply Ei. cbn in Hi. rewrite <- Hi.
      by apply (ok_issued _ Hok).
    + rewrite map_app. apply NoDup_app. split_and!; [apply (ok_keys _ Hok)| |apply NoDup_singleton].
      intros p (m & -> & Hm)%elem_of_lmap Hp. cbn [map] in Hp. apply list_elem_of_singleton in Hp as [= E1 E2].
      apply not_true_iff_false in Ek. apply Ek, existsb_In. exists m. split; [done|].
      apply andb_true_iff. split; by apply bool_decide_eq_true.
    + intros m [Hm|Hm]%elem_of_app; rewrite !elem_of_app; [left; left; by apply (ok_issued _ Hok)|].
      apply list_elem_of_singleton in Hm as ->. left; right. by apply list_elem_of_singleton.
    + intros i Hi. rewrite !elem_of_app. by left; left.
    + exact Hfresh'.
    + rewrite !elem_of_app. right. by apply list_elem_of_singleton.
    + apply elem_of_app. right. by apply list_elem_of_singleton.
    + intros m Hne. rewrite elem_of_app, list_elem_of_singleton. split; [intros [?| ->]; done|by left].
    + reflexivity.
    + reflexivity.
    + reflexivity.
    + reflexivity.
    + lia.
    + intros q. split; [intros (r & Hr & E & _); by destruct (Hnone r Hr E)|]. lia.
    + intros r Hr E. by destruct (Hnone r Hr E).
    + exact Hst.
  - apply append_history; [intros i Hi; rewrite !elem_of_app; by left; left|exact Hfresh'|].
    intros m' [Hm|Hm]%elem_of_app Hi; [exists m'; split; [done|]; by split_and!; try lia|].
    apply list_elem_of_singleton in Hm as ->. done.
Qed.

(** A deleted memory takes its revisions. *)
Lemma delete_ok (gone : MemoryRow -> bool) agents db :
  db_ok db ->
  db_ok (mkDb agents (List.filter (fun m => negb (gone m)) (db_memories db))
    (List.filter (fun r => negb (existsb (fun m => gone m && bool_decide (rv_memoryId r = me_id m)) (db_memories db))) (db_revisions db))
    (db_issued db) (db_bumps db)).
Proof.
  intros Hok. set (left r := negb (existsb _ (db_memories db))).
  assert (forall m r, m ∈ db_memories db -> rv_memoryId r = me_id m -> left r = negb (gone m)) as Hleft.
  { intros m r Hm E. subst left. cbn beta. f_equal. apply eq_true_iff_eq. rewrite existsb_In. split.
    - intros (m2 & Hm2 & [Hg E2%bool_decide_eq_true]%andb_true_iff).
      assert (m2 = m) as <-; [|done]. apply (NoDup_fmap_elem_eq me_id (db_memories db)); [apply (ok_ids _ Hok)|done|done|congruence].
    - intros Hg. exists m. split; [done|]. apply andb_true_iff. split; [done|by apply bool_decide_eq_true]. }
  assert (forall m, m ∈ List.filter (fun m => negb (gone m)) (db_memories db) -> m ∈ db_memories db /\ negb (gone m) = true)
    as Hin by by intros m ?%elem_of_lfilter.
  constructor; cbn [db_memories db_revisions db_issued].
  - apply NoDup_map_filter, (ok_ids _ Hok).
  - apply NoDup_map_filter, (ok_keys _ Hok).
  - intros m [Hm _]%Hin. by apply (ok_issued _ Hok).
  - apply NoDup_map_filter, (ok_rev_ids _ Hok).
  - intros r [Hr _]%elem_of_lfilter. by apply (ok_rev_issued _ Hok).
  - apply NoDup_map_filter, (ok_rev_seqs _ Hok).
  - intros r [Hr Hl]%elem_of_lfilter. destruct (ok_owned _ Hok r Hr) as (m & Hm & E). exists m. split; [|done].
    apply elem_of_lfilter. split; [done|]. by rewrite <- (Hleft m r).
  - intros m q [Hm Hg]%Hin. rewrite <- (ok_span _ Hok m q Hm). split; intros (r & Hr & E & Eq); exists r; (split; [|done]).
    + by apply elem_of_lfilter in Hr as [? _].
    + apply elem_of_lfilter. split; [done|]. by rewrite (Hleft m r).
  - intros m [Hm Hg]%Hin. destruct (ok_head _ Hok m Hm) as (r & Hr & E & ?). exists r. split; [|done].
    apply elem_of_lfilter. split; [done|]. by rewrite (Hleft m r).
  - intros m r [Hm Hg]%Hin [Hr _]%elem_of_lfilter. by apply (ok_states _ Hok).
Qed.

(** Rows that only go. *)
Lemma shrink_history db db' :
  db_issued db' = db_issued db -> (forall m, m ∈ db_memories db' -> m ∈ db_memories db) ->
  (forall r, r ∈ db_revisions db' -> exists r0, r0 ∈ db_revisions db /\ revision_kept r0 r) -> history db db'.
Proof.
  intros Hi Hm Hr. split_and!; [by rewrite Hi| |auto].
  intros m' ?%Hm _. exists m'. split; [done|]. by split_and!; try lia.
Qed.

(** What a redaction knows of its revision: it is not, and will not be, the
    newest of its memory. *)
Definition superseded (rid mid : jsstr) (db : MemoryDb) : Prop :=
  rid ∈ db_issued db /\ forall r m, r ∈ db_revisions db -> rv_id r = rid -> m ∈ db_memories db -> me_id m = rv_memoryId r ->
    rv_seq r < me_lastRevisionSeq m.

Lemma superseded_stable rid mid : stable db_ok history (superseded rid mid).
Proof.
  intros db db' Hok Hok' (Hi & Hm & Hr) [Hk Hlt]. split; [auto|]. intros r' m' Hr' E Hm' Em.
  destruct (Hr r' Hr') as (r & Hin & Hkept); [by rewrite E|].
  assert (rv_id r = rid /\ rv_memoryId r' = rv_memoryId r /\ rv_seq r' = rv_seq r) as (E1 & E2 & E3).
  { destruct Hkept as [->|(_ & _ & ? & ? & ? & _)]; [done|]. split_and!; congruence. }
  destruct (ok_owned _ Hok r Hin) as (m0 & Hm0 & E0).
  destruct (Hm m' Hm') as (m & Hmin & F1 & _ & _ & F4); [rewrite Em, E2, <- E0; by apply (ok_issued _ Hok)|].
  rewrite E3. eapply Z.lt_le_trans; [|exact F4]. apply (Hlt r m); [done|done|done|congruence].
Qed.

Lemma redact_same rid now user r : rv_id (redact rid now user r) = rv_id r /\ rv_memoryId (redact rid now user r) = rv_memoryId r /\
  rv_seq (redact rid now user r) = rv_seq r.
Proof. unfold redact. by destruct (bool_decide _). Qed.

Lemma redact_ok rid mid now user db :
  db_ok db -> superseded rid mid db ->
  db_ok (mkDb (db_agents db) (db_memories db) (map (redact rid now user) (db_revisions db)) (db_issued db) (db_bumps db)).
Proof.
  intros Hok [_ Hlt].
  assert (forall (B : Type) (f : RevisionRow -> B), (forall r, f (redact rid now user r) = f r) ->
    map f (map (redact rid now user) (db_revisions db)) = map f (db_revisions db)) as Hmap.
  { intros B f Hf. rewrite map_map. by apply map_ext. }
  constructor; cbn [db_memories db_revisions db_issued].
  - apply (ok_ids _ Hok).
  - apply (ok_keys _ Hok).
  - apply (ok_issued _ Hok).
  - rewrite Hmap; [apply (ok_rev_ids _ Hok)|]. intros; apply redact_same.
  - intros r' (r & -> & Hr)%elem_of_lmap. rewrite (proj1 (redact_same _ _ _ _)). by apply (ok_rev_issued _ Hok).
  - rewrite (Hmap _ (fun r => (rv_memoryId r, rv_seq r))); [apply (ok_rev_seqs _ Hok)|]. intros r.
    destruct (redact_same rid now user r) as (_ & -> & ->). done.
  - intros r' (r & -> & Hr)%elem_of_lmap. destruct (redact_same rid now user r) as (_ & -> & _). by apply (ok_owned _ Hok).
  - intros m q Hm. rewrite <- (ok_span _ Hok m q Hm). split.
    + intros (r' & (r & -> & Hr)%elem_of_lmap & E & Eq). destruct (redact_same rid now user r) as (_ & E2 & E3).
      exists r. split_and!; congruence.
    + intros (r & Hr & E & Eq). destruct (redact_same rid now user r) as (_ & E2 & E3).
      exists (redact rid now user r). split_and!; [apply elem_of_lmap; by exists r|congruence..].
  - intros m Hm. destruct (ok_head _ Hok m Hm) as (r & Hr & E & Eq & Es & Ered).
    assert (redact rid now user r = r) as Hsame.
    { unfold redact. destruct (bool_decide (rv_id r = rid)) eqn:Eid; [|done]. apply bool_decide_eq_true in Eid.
      pose proof (Hlt r m Hr Eid Hm (eq_sym E)). lia. }
    exists r. split; [|done]. apply elem_of_lmap. by exists r.
  - intros m r' Hm (r & -> & Hr)%elem_of_lmap E Ered. unfold redact in *. destruct (bool_decide (rv_id r = rid)); [done|].
    by apply (ok_states _ Hok).
Qed.

Lemma redact_history rid now user db :
  history db (mkDb (db_agents db) (db_memories db) (map (redact rid now user) (db_revisions db)) (db_issued db) (db_bumps db)).
Proof.
  apply shrink_history; [done|done|]. cbn. intros r' (r & -> & Hr)%elem_of_lmap. exists r. split; [done|].
  unfold redact. destruct (bool_decide _); [right; by cbn|by left].
Qed.
End History.
