(* ===== verification/MemoryRuns.v ===== *)
(** * Requests on memories

    The requests the routes and the runner make, interleaved in any way. *)
From S2P Require Import Prelude PolicyTypes JsJson Catalog JsBytes Programs MemoryFile MemoryFileSpec MemoryService MemoryHistory.
Local Open Scope Z_scope.

Section Runs.
Context `{Sha256}.

(** The agent's rows go with it. *)
Definition dropAgent (agentId : jsstr) : mprog () :=
  alter_state (fun _ db =>
    let gone m := bool_decide (me_agentId m = agentId) in
    mkDb (List.filter (fun a => negb (bool_decide (ha_id a = agentId))) (db_agents db)) (List.filter (fun m => negb (gone m)) (db_memories db))
      (List.filter (fun r => negb (existsb (fun m => gone m && bool_decide (rv_memoryId r = me_id m)) (db_memories db))) (db_revisions db))
      (db_issued db) (db_bumps db)).

(** Agents come and change. *)
Definition setAgents (agents : list HostedAgent) : mprog () :=
  alter_state (fun _ db => mkDb agents (db_memories db) (db_revisions db) (db_issued db) (db_bumps db)).

(** A request of the routes passed its schema, one of the runner has a key of
    the pattern; a redaction names a revision there is, or was. *)
Inductive memory_request (db : MemoryDb) : mprog () -> Prop :=
| req_create ws a body input au : createMemorySchema body = Some input -> memory_request db (createMemory ws a input au;; mret ())
| req_update ws a i body patch au : updateMemorySchema body = Some patch -> memory_request db (updateMemory ws a i patch au;; mret ())
| req_save ws a body input au : memorySaveArgsSchema body = Some input -> memory_request db (upsertMemoryByKey ws a input au;; mret ())
| req_file ws a input au : MEMORY_KEY_PATTERN (in_key input) = true -> memory_request db (saveMemoryFromFile ws a input au;; mret ())
| req_delete ws a i : memory_request db (deleteMemory ws a i)
| req_restore ws a i r au : memory_request db (restoreRevision ws a i r au;; mret ())
| req_redact ws a i r user : r ∈ db_issued db -> memory_request db (redactRevision ws a i r user;; mret ())
| req_drop a : memory_request db (dropAgent a)
| req_agents agents : memory_request db (setAgents agents).

Abbreviation memory_safe K p Q := (safe (Env := MemoryEnv) (Exn := MemoryThrow) db_ok history K p Q).

Definition no_memories (agents : list HostedAgent) : MemoryDb := mkDb agents [] [] [] [].

Lemma no_memories_ok agents : db_ok (no_memories agents).
Proof. constructor; cbn; first [apply NoDup_nil_2|by intros ? ?%elem_of_nil|by intros ? ? ?%elem_of_nil]. Qed.

(** ** Inputs *)

Definition line_ok (t : option jsstr) : Prop := forall v, t = Some v -> line_stable v.

Definition input_ok (input : MemoryInput) : Prop :=
  MEMORY_KEY_PATTERN (in_key input) = true /\ line_ok (in_title input) /\ line_ok (in_description input) /\
  trim (in_content input) = in_content input /\ in_content input <> [].

Lemma flatten_idem v : flattenToLine (flattenToLine v) = flattenToLine v.
Proof.
  pose proof (flatten_line v) as Hl. unfold flattenToLine at 1.
  assert (replace_all ch_nl (js " ") (stripControl (flattenToLine v)) = flattenToLine v) as ->; [|apply flatten_trim].
  induction Hl as [|c s Hc _ IH]; [done|]. apply andb_true_iff in Hc as [Hk Hn]. unfold stripControl. cbn [List.filter].
  rewrite Hk. cbn [replace_all flat_map]. apply negb_true_iff in Hn. rewrite Hn. cbn [app]. f_equal. exact IH.
Qed.

Lemma truthy_flatten v t : truthy (Some (flattenToLine v)) = Some t -> line_stable t.
Proof.
  intros E. assert (t = flattenToLine v /\ t <> []) as [-> Hne]; [|by split; [apply flatten_idem|]].
  cbn [truthy] in E. by destruct (flattenToLine v); [|injection E as <-].
Qed.

Lemma lineField_ok max v t : lineField max v = Some t -> line_stable t.
Proof. unfold lineField. destruct (trimmed_field _ _) as [w|]; [|done]. cbn. destruct (has_char _ _); [done|]. apply truthy_flatten. Qed.

Lemma optional_line max v t : optional (lineField max) v = Some t -> line_ok t.
Proof.
  destruct v as [v|]; cbn [optional]; [|by intros [= <-] ? ?]. destruct (lineField max v) as [w|] eqn:E; [|done].
  intros [= <-] x [= <-]. by eapply lineField_ok.
Qed.

Lemma trimmed_field_ok max v t : trimmed_field max v = Some t -> trim t = t /\ t <> [].
Proof.
  unfold trimmed_field. destruct (length (trim v) =? 0)%nat eqn:E; [done|]. cbn [orb]. destruct (_ <? _)%N; [done|]. intros [= <-].
  split; [apply trim_idem|]. intros E'. by rewrite E' in E.
Qed.

Lemma schema_ok max body input : input_schema max body = Some input -> input_ok input.
Proof.
  unfold input_schema. intros E. apply bind_Some in E as (key & Hk & E). apply bind_Some in E as (content & Hc & E).
  apply bind_Some in E as (title & Ht & E). apply bind_Some in E as (description & Hd & E). injection E as <-.
  apply trimmed_field_ok in Hc as [? ?]. apply optional_line in Ht, Hd. split_and!; cbn; try done.
  unfold keyField in Hk. apply bind_Some in Hk as (v & _ & Hk). destruct (MEMORY_KEY_PATTERN v) eqn:Ev; [|done]. by injection Hk as <-.
Qed.

Definition patch_ok (patch : MemoryPatch) : Prop :=
  (forall t, pa_title patch = Some t -> line_ok t) /\ (forall d, pa_description patch = Some d -> line_ok d) /\
  (forall c, pa_content patch = Some c -> trim c = c /\ c <> []).

Lemma patch_schema_ok body patch : updateMemorySchema body = Some patch -> patch_ok patch.
Proof.
  unfold updateMemorySchema. intros E. apply bind_Some in E as (title & Ht & E). apply bind_Some in E as (description & Hd & E).
  apply bind_Some in E as (content & Hc & E).
  assert (patch = mkPatch title description content) as -> by (destruct title, description, content; first [done | by injection E as <-]).
  assert (forall max v t, optional (optional (lineField max)) v = Some t -> forall x, t = Some x -> line_ok x) as Hline.
  { intros max [v|] t; cbn [optional]; [|by intros [= <-]]. destruct (optional (lineField max) v) as [w|] eqn:Ew; [|done].
    intros [= <-] x [= <-]. by eapply optional_line. }
  split_and!; cbn; [by eapply Hline|by eapply Hline|]. intros c ->. destruct (pa_content body) as [v|]; [|done]. cbn [optional] in Hc.
  destruct (trimmed_field _ v) as [w|] eqn:Ew; [|done]. injection Hc as <-. by eapply trimmed_field_ok.
Qed.

Definition pre_state (key : jsstr) (s : MemoryState) : Prop := renderable (fields_of key s) /\ st_content s <> [].

Lemma input_state input : input_ok input -> pre_state (in_key input) (mkState (in_title input) (in_description input) (in_content input)).
Proof. intros (? & ? & ? & ? & ?). split; [|done]. by split_and!. Qed.

Lemma merged_state input existing key :
  input_ok input -> state_ok key existing -> pre_state (in_key input) (merged input existing).
Proof.
  intros (? & Ht & Hd & ? & ?) ((? & Ht' & Hd' & _) & _ & _). split; [|done]. split_and!; cbn; [done| | |done].
  - destruct (in_title input); [done|]. apply Ht'.
  - destruct (in_description input); [done|]. apply Hd'.
Qed.

Lemma patched_state key patch existing : patch_ok patch -> state_ok key existing -> pre_state key (patched patch existing).
Proof.
  intros (Ht & Hd & Hc) ((? & Ht' & Hd' & Hc') & Hne & _). unfold pre_state, renderable, patched, fields_of in *. cbn in *.
  destruct (pa_title patch) as [t|], (pa_description patch) as [d|], (pa_content patch) as [c|]; cbn;
    repeat match goal with H : forall x, Some ?y = Some x -> _ |- _ => specialize (H y eq_refl) end;
    split_and!; naive_solver.
Qed.

(** ** Programs *)

Lemma ask_safe {X} (K : MemoryDb -> Prop) (f : MemoryEnv -> MemoryDb -> X) (Q : X -> MemoryDb -> Prop) :
  (forall y, stable db_ok history (Q y)) -> (forall e db, db_ok db -> K db -> Q (f e db) db) -> memory_safe K (ask f : mprog X) Q.
Proof. by apply safe_ask, history_preorder. Qed.

Lemma ask_any {X} (K : MemoryDb -> Prop) (f : MemoryEnv -> MemoryDb -> X) : memory_safe K (ask f : mprog X) done_any.
Proof. by apply safe_ask_any, history_preorder. Qed.

Lemma refuse_safe {A} K code message (Q : A -> MemoryDb -> Prop) : memory_safe K (refuse code message) Q.
Proof. done. Qed.

Lemma require_safe K ws a : (stable db_ok history K) -> memory_safe K (requireHostedAgent ws a) (fun _ => K).
Proof.
  intros HK. unfold requireHostedAgent. eapply safe_bind; [apply (ask_safe K _ (fun _ => K)); [done|done]|].
  intros [agent|]; [|done]. destruct (bool_decide _); [|done]. by apply safe_ret.
Qed.

Lemma projectable_safe (K : MemoryDb -> Prop) key st :
  memory_safe K (assertProjectable key st) (fun _ db => K db /\ memoryFileFitsFrame (fields_of key st) = true).
Proof.
  unfold assertProjectable. destruct (memoryFileFitsFrame (fields_of key st)) eqn:E; [|apply refuse_safe]. by apply safe_ret.
Qed.

Lemma applyState_safe mid key st op from au :
  state_ok key st -> memory_safe (keyed mid key) (applyState mid st op from au) done_any.
Proof.
  intros Hst. unfold applyState. apply safe_seq; [by apply apply_safe|]. intros h.
  apply safe_seq; [apply bump_safe|]. intros _. by apply safe_ret.
Qed.

Lemma createMemory_safe ws a input au : input_ok input -> memory_safe any (createMemory ws a input au) done_any.
Proof.
  intros Hin. unfold createMemory. apply safe_seq; [eapply safe_post; [|apply require_safe; done]; done|]. intros _.
  apply safe_seq; [apply ask_any|]. intros held.
  apply safe_seq; [destruct (_ <=? _)%nat; [done|by apply safe_ret]|]. intros _.
  eapply safe_bind; [apply projectable_safe|]. intros []. apply safe_pure. intros Hf. apply safe_catch; [|by intros []].
  apply safe_seq; [apply create_safe|intros m; apply safe_seq; [apply bump_safe|intros _; by apply safe_ret]].
  destruct (input_state _ Hin). by split_and!.
Qed.

(** A memory found tells its key, and its state is good. *)
Lemma found_ok db m : db_ok db -> m ∈ db_memories db -> keyed (me_id m) (me_key m) db /\ state_ok (me_key m) (me_state m).
Proof.
  intros Hok Hm. split.
  - split; [by apply (ok_issued _ Hok)|]. intros m' Hm' E. f_equal. apply (NoDup_fmap_elem_eq me_id (db_memories db)); [apply (ok_ids _ Hok)|done..].
  - destruct (ok_head _ Hok m Hm) as (r & Hr & E & _ & <- & Ered). by apply (ok_states _ Hok m r).
Qed.

Lemma overwrite_safe a input au : input_ok input -> memory_safe any (overwrite a input au) done_any.
Proof.
  intros Hin. unfold overwrite.
  apply safe_bind with (Q := fun found db => match found with
    | None => True
    | Some m => keyed (me_id m) (in_key input) db /\ state_ok (in_key input) (me_state m)
    end).
  { apply ask_safe; [intros [m|]; [|done]; apply stable_and; [apply keyed_stable|apply stable_pure]|].
    intros e db Hok _. unfold find_key. destruct (List.find _ _) as [m|] eqn:Hf; [|done].
    apply find_elem in Hf as [Hm [_ <-%bool_decide_eq_true]%andb_true_iff]. by apply found_ok. }
  intros [m|]; [|by apply safe_ret]. apply safe_pure. intros Hst. destruct (isNoOp _ _); [by apply safe_ret|].
  eapply safe_bind; [apply projectable_safe|]. intros []. apply safe_pure. intros Hf.
  apply safe_seq; [|intros; by apply safe_ret]. apply applyState_safe.
  destruct (merged_state input (me_state m) _ Hin Hst). by split_and!.
Qed.

Lemma upsert_safe ws a input au : input_ok input -> memory_safe any (upsertMemoryByKey ws a input au) done_any.
Proof.
  intros Hin. unfold upsertMemoryByKey. apply safe_seq; [eapply safe_post; [|apply require_safe; done]; done|]. intros _.
  apply safe_seq; [by apply overwrite_safe|]. intros [saved|]; [by apply safe_ret|].
  apply safe_catch; [apply safe_seq; [by apply createMemory_safe|intros; by apply safe_ret]|].
  intros [e| |]; [|done|done]. destruct (se_code e); try done.
  apply safe_seq; [by apply overwrite_safe|]. intros [saved|]; [by apply safe_ret|done].
Qed.

Lemma file_safe ws a input au : MEMORY_KEY_PATTERN (in_key input) = true -> memory_safe any (saveMemoryFromFile ws a input au) done_any.
Proof.
  intros Hk. unfold saveMemoryFromFile. destruct (length (trim (in_content input)) =? 0)%nat eqn:E; [done|].
  apply safe_seq; [by apply safe_ret|]. intros _. destruct (_ <? _)%N; [done|]. apply safe_seq; [by apply safe_ret|]. intros _.
  apply upsert_safe. assert (forall t, line_ok (truthy (flattenToLine <$> t))) as Hl.
  { intros [t|] v; [|done]. apply truthy_flatten. }
  split_and!; cbn [in_key in_title in_description in_content]; [done|apply Hl|apply Hl|apply trim_idem|]. intros E'. by rewrite E' in E.
Qed.

Lemma find_memory_safe K a i : memory_safe K (ask (fun _ => find_memory a i)) (fun found db => match found with
  | None => True
  | Some m => me_id m = i /\ keyed i (me_key m) db /\ state_ok (me_key m) (me_state m)
  end).
Proof.
  apply ask_safe; [intros [m|]; [|done]; apply stable_and; [apply stable_pure|apply stable_and; [apply keyed_stable|apply stable_pure]]|].
  intros e db Hok _. unfold find_memory. destruct (List.find _ _) as [m|] eqn:Hf; [|done].
  apply find_elem in Hf as [Hm [<-%bool_decide_eq_true _]%andb_true_iff]. split; [done|]. by apply found_ok.
Qed.

Lemma update_safe ws a i patch au : patch_ok patch -> memory_safe any (updateMemory ws a i patch au) done_any.
Proof.
  intros Hp. unfold updateMemory. apply safe_seq; [eapply safe_post; [|apply require_safe; done]; done|]. intros _.
  eapply safe_bind; [apply find_memory_safe|]. intros [m|]; [|done].
  apply (safe_weaken _ _ _ (fun db => keyed i (me_key m) db /\ state_ok (me_key m) (me_state m))); [by intros db _ (_ & ? & ?)|].
  apply safe_pure. intros Hst. destruct (isNoOp _ _); [by apply safe_ret|].
  eapply safe_bind; [apply projectable_safe|]. intros []. apply safe_pure. intros Hf. apply applyState_safe.
  destruct (patched_state _ _ _ Hp Hst). by split_and!.
Qed.

Lemma drop_safe K (gone : MemoryRow -> bool) {X} (count : MemoryDb -> X) (agents : MemoryDb -> list HostedAgent) :
  memory_safe K (query (fun _ db => (count db,
    mkDb (agents db) (List.filter (fun m => negb (gone m)) (db_memories db))
      (List.filter (fun r => negb (existsb (fun m => gone m && bool_decide (rv_memoryId r = me_id m)) (db_memories db))) (db_revisions db))
      (db_issued db) (db_bumps db)))) done_any.
Proof.
  apply safe_query; [done|]. intros e db Hok _. cbn [fst snd]. split_and!; [by apply delete_ok| |done].
  apply shrink_history; [done|by intros m [? _]%elem_of_lfilter|]. intros r [Hr _]%elem_of_lfilter. exists r. split; [done|by left].
Qed.

Lemma delete_safe ws a i : memory_safe any (deleteMemory ws a i) done_any.
Proof.
  unfold deleteMemory. apply safe_seq; [eapply safe_post; [|apply require_safe; done]; done|]. intros _.
  apply safe_seq; [apply (drop_safe _ _ _ db_agents)|]. intros n. apply safe_seq; [destruct (n =? 0)%nat; [done|by apply safe_ret]|]. intros _. apply bump_safe.
Qed.

(** *** History *)

Lemma guard_safe K (b : bool) code message :
  memory_safe K (if b then refuse code message else mret ()) (fun _ db => K db /\ b = false).
Proof. destruct b; [done|by apply safe_ret]. Qed.

Lemma absent_safe {X} K (x : option X) code message :
  memory_safe K (match x with Some _ => refuse code message | None => mret () end) (fun _ db => K db /\ x = None).
Proof. destruct x; [done|by apply safe_ret]. Qed.

(** What a reader of the memory [m] knows of the revision named [rid]: its
    number is at most the one it saw on the head, which only grows. *)
Definition bounded (rid : jsstr) (m : MemoryRow) (db : MemoryDb) : Prop :=
  rid ∈ db_issued db /\ me_id m ∈ db_issued db /\
  (forall r, r ∈ db_revisions db -> rv_id r = rid -> rv_memoryId r = me_id m -> rv_seq r <= me_lastRevisionSeq m) /\
  (forall m', m' ∈ db_memories db -> me_id m' = me_id m -> me_lastRevisionSeq m <= me_lastRevisionSeq m').

Lemma kept_same r r' : revision_kept r r' -> rv_id r' = rv_id r /\ rv_memoryId r' = rv_memoryId r /\ rv_seq r' = rv_seq r.
Proof. by intros [->|(_ & _ & ? & ? & ? & _)]. Qed.

Lemma bounded_stable rid m : stable db_ok history (bounded rid m).
Proof.
  intros db db' _ _ (Hi & Hm & Hr) (H1 & H2 & H3 & H4). split_and!; [auto|auto| |].
  - intros r' Hr' E Em. destruct (Hr r' Hr') as (r & Hin & (E1 & E2 & ->)%kept_same); [by rewrite E|]. apply H3; congruence.
  - intros m' Hm' E. destruct (Hm m' Hm') as (m0 & Hin & E1 & _ & _ & Hle); [by rewrite E|].
    transitivity (me_lastRevisionSeq m0); [|done]. apply H4; congruence.
Qed.

Lemma bounded_found rid m db : db_ok db -> m ∈ db_memories db -> rid ∈ db_issued db -> bounded rid m db.
Proof.
  intros Hok Hm Hi. split_and!; [done|by apply (ok_issued _ Hok)| |].
  - intros r Hr _ E. destruct (proj1 (ok_span _ Hok m (rv_seq r) Hm)) as [_ [_ ?]]; [by exists r|done].
  - intros m' Hm' E. by rewrite (NoDup_fmap_elem_eq me_id (db_memories db) m' m (ok_ids _ Hok) Hm' Hm E).
Qed.

Lemma bounded_superseded rid m rev db :
  db_ok db -> bounded rid m db -> rev ∈ db_revisions db -> rv_id rev = rid -> rv_memoryId rev = me_id m ->
  rv_seq rev <> me_lastRevisionSeq m -> superseded rid (me_id m) db.
Proof.
  intros Hok (Hi & _ & H3 & H4) Hr E Em Hne. split; [done|]. intros r m' Hin E' Hm' Em'.
  rewrite (NoDup_fmap_elem_eq rv_id (db_revisions db) r rev (ok_rev_ids _ Hok) Hin Hr) in Em' |- * by congruence.
  pose proof (H3 rev Hr E Em). assert (me_id m' = me_id m) as E2 by congruence. pose proof (H4 m' Hm' E2). lia.
Qed.

Lemma issued_stable rid : stable db_ok history (fun db => rid ∈ db_issued db).
Proof. intros db db' _ _. apply history_issued. Qed.

Lemma stable_named (P : Prop) (K : MemoryDb -> Prop) : stable db_ok history K -> stable db_ok history (fun db => P -> K db).
Proof. intros HK s s' Hs Hs' HR H1 HP. by apply (HK s s'), H1. Qed.

(** What a request knows of the memory and the revision it read; [P] tells
    whether its revision was there, or had been, when it started. *)
Definition revision_known (P : Prop) (i rid : jsstr) (found : MemoryRow * RevisionRow) (db : MemoryDb) : Prop :=
  (rv_id found.2 = rid /\ keyed i (me_key found.1) db) /\
  (rv_redactedAt found.2 = None -> state_ok (me_key found.1) (rv_state found.2)) /\
  (P -> rv_seq found.2 <> me_lastRevisionSeq found.1 -> superseded rid i db).

Lemma require_revision_safe (P : Prop) a i rid :
  memory_safe (fun db => P -> rid ∈ db_issued db) (requireRevision a i rid) (revision_known P i rid).
Proof.
  unfold requireRevision.
  apply safe_bind with (Q := fun found db => match found with
    | None => True
    | Some m => me_id m = i /\ keyed i (me_key m) db /\ (P -> bounded rid m db)
    end).
  { apply ask_safe; [intros [m|]; [|done]; apply stable_and; [apply stable_pure|]; apply stable_and;
      [apply keyed_stable|apply stable_named, bounded_stable]|].
    intros e db Hok Hi. unfold find_memory. destruct (List.find _ _) as [m|] eqn:Hf; [|done].
    apply find_elem in Hf as [Hm [<-%bool_decide_eq_true _]%andb_true_iff].
    split_and!; [done|by apply found_ok|]. intros HP. by apply bounded_found, Hi. }
  intros [m|]; [|done]. apply safe_bind with (Q := fun found db => match found with
    | None => True
    | Some rev => revision_known P i rid (m, rev) db
    end); [|intros [rev|]; [by apply safe_ret|done]].
  apply ask_safe; [intros [rev|]; [|done]; unfold revision_known; cbn [fst snd]|].
  { apply stable_and; [apply stable_and; [apply stable_pure|apply keyed_stable]|].
    apply stable_and; [apply stable_pure|]. apply stable_named, stable_named, superseded_stable. }
  intros e db Hok (Em & Hkey & Hb). unfold find_revision. destruct (List.find _ _) as [rev|] eqn:Hf; [|done].
  apply find_elem in Hf as [Hr [E1%bool_decide_eq_true E2%bool_decide_eq_true]%andb_true_iff].
  unfold revision_known. cbn [fst snd]. split_and!; [done|done| |].
  - intros Hn. destruct (ok_owned _ Hok rev Hr) as (m' & Hm' & E'). destruct Hkey as [_ Hkey]. rewrite <- (Hkey m' Hm') by congruence.
    by apply (ok_states _ Hok m' rev).
  - intros HP Hne. rewrite <- Em. apply (bounded_superseded rid m rev); [done|by apply Hb|done|done|congruence|done].
Qed.

Lemma restore_safe ws a i rid au : memory_safe any (restoreRevision ws a i rid au) done_any.
Proof.
  unfold restoreRevision. apply safe_seq; [eapply safe_post; [|apply require_safe; done]; done|]. intros _.
  eapply safe_bind; [eapply safe_weaken; [|apply (require_revision_safe False)]; by intros ? _ _ []|]. intros [m rev].
  eapply safe_bind; [apply guard_safe|]. intros []. eapply safe_bind; [apply absent_safe|]. intros [].
  apply (safe_weaken _ _ _ (fun db => keyed i (me_key m) db /\ state_ok (me_key m) (rv_state rev))).
  { intros db _ [[([_ Hk] & Hst & _) _] Hn]. split; [exact Hk|by apply Hst]. }
  apply safe_pure. intros Hst. by apply applyState_safe.
Qed.

Lemma redact_safe ws a i rid user :
  memory_safe (fun db => rid ∈ db_issued db) (redactRevision ws a i rid user) done_any.
Proof.
  unfold redactRevision. eapply safe_bind; [apply require_safe, issued_stable|]. intros agent.
  eapply safe_bind; [eapply safe_weaken; [|apply (require_revision_safe True)]; intros db _ Hi _; exact Hi|]. intros [m rev].
  eapply safe_bind; [apply guard_safe|]. intros []. eapply safe_bind; [apply absent_safe|]. intros [].
  apply (safe_weaken _ _ _ (superseded (rv_id rev) i)).
  { intros db _ [[([<- _] & _ & Hs) Hne%Z.eqb_neq] _]. by apply Hs. }
  apply safe_exec; [done|]. intros e db Hok Hs. destruct (List.find _ _) as [r|]; cbn [fst snd]; [|by split_and!].
  split_and!; [by eapply redact_ok|apply redact_history|done].
Qed.

(** ** Runs *)

Lemma request_startable db p : memory_request db p -> startable db_ok history db p.
Proof.
  intros [ws a body input au E|ws a i body patch au E|ws a body input au E|ws a input au E|ws a i|ws a i rid au|ws a i rid user E|a|agents];
    [..|exists (fun db => rid ∈ db_issued db); split_and!; [apply issued_stable|done|]| |]; try apply startable_any;
    try (apply safe_seq; [|intros _; by apply safe_ret]).
  - by eapply createMemory_safe, schema_ok.
  - by eapply update_safe, patch_schema_ok.
  - by eapply upsert_safe, schema_ok.
  - by apply file_safe.
  - apply delete_safe.
  - apply restore_safe.
  - apply redact_safe.
  - apply (drop_safe _ (fun m => bool_decide (me_agentId m = a)) (fun _ => ()) (fun db => List.filter (fun x => negb (bool_decide (ha_id x = a))) (db_agents db))).
  - apply safe_query; [done|]. intros e db2 Hok _. cbn. split_and!; [by destruct Hok; constructor|by apply same_history|done].
Qed.

(** C5: However requests interleave and whatever is lost of them, the head of a
    memory is its newest revision, its retained revisions are the last fifty
    in a row, stored values can be rendered and synced, a memory keeps its
    agent and key, and a revision only ever changes by being redacted, never
    while it is the current one. *)
Theorem memory_history agents ps db ps' db' :
  pool_run memory_request ([], no_memories agents) (ps, db) -> pool_run memory_request (ps, db) (ps', db') ->
  db_ok db' /\ history db db'.
Proof.
  intros H1 H2. refine (pool_safe db_ok history memory_request _ _ _ _ _ _ (no_memories_ok agents) H1 H2).
  intros s p _. apply request_startable.
Qed.
End Runs.
