(* ===== verification/MemorySync.v ===== *)
(** * The memory files of a home

    [apps/sandbox-supervisor/src/home/memory-harvest.ts] and
    [materializer.ts]: the supervisor uploads what the agent writes under
    [memory/] and lands what the platform renders there. Both run on the
    supervisor's one thread, and everything between two awaits is one
    statement here; what becomes of a harvested file is decided in the statement
    that ends the harvest, as the caller's continuation runs before anything
    else does. The agent's own processes are not on that thread: they act
    between statements, and inside one between its system calls ([gap]): after
    the [lstat] and before the read, after the check and before the unlink,
    after the unlink and before the write. Times of modification are what the
    clock, or the agent, makes them. Ghost fields record what stood at a path,
    what was destroyed and whether it was what the supervisor had looked at,
    what the platform vouched for, and whether the agent kept to what is assumed
    of it. Not cut at their system calls are the prune of the skills root, which
    does not touch [memory/], and what only the books depend on. Directories
    above a file are there; the instruction documents, which are rendered
    outside [memory/], logs and the timers' pacing are left out. *)
From S2P Require Import Prelude PolicyTypes JsJson JsBytes Programs MemoryFile.
Local Open Scope Z_scope.

Definition MAX_HARVEST_SCAN_ENTRIES : nat := 256.
Definition MAX_HARVEST_FILE_BYTES : N := 1000000.
Definition HARVEST_RETRY_MS : Z := 5000.

Definition MEMORY_ROOT : jsstr := js "memory".
Definition MEMORY_INDEX_FILE : jsstr := js "index.md".
Definition CANONICAL_SKILLS_ROOT : jsstr := js ".agents/skills".
Definition MEMORY_INDEX_PATH : jsstr := js "memory/index.md".
Definition PROJECTION_MODE : N := 292.
Definition EXECUTABLE_MODE : N := 365.
Definition MEMORY_FILE_MODE : N := 420.

(** ** The home *)

(** What stands at a path. *)
Inductive Node :=
| Regular (content : bytes) (mtime : Z) (mode : N) (readable : bool)
| Link
| Directory
| Special.

#[export] Instance Node_eq_dec : EqDecision Node.
Proof. solve_decision. Defined.

Inductive Kind := k_file | k_link | k_directory | k_special.

#[export] Instance Kind_eq_dec : EqDecision Kind.
Proof. solve_decision. Defined.

Definition kind_of (n : Node) : Kind :=
  match n with Regular _ _ _ _ => k_file | Link => k_link | Directory => k_directory | Special => k_special end.

Record PendingChunk := mkChunks {
  pc_generation : Z;
  pc_sha256 : jsstr;
  pc_of : nat;
  pc_parts : list bytes;
}.

Inductive Message :=
| MemoryWrite (writeId : jsstr) (frame : json)
| HomeSynced (generation : Z).

(** A text that was removed, and whether something else had stood at its path
    when the supervisor last looked. *)
Record Destroyed := mkDestroyed {
  de_path : jsstr;
  de_text : jsstr;
  de_unseen : bool;
}.

(** [hm_stood] has the path, the time of modification and the content of every
    file that stood somewhere. *)
Record Home := mkHome {
  hm_files : gmap jsstr Node;
  hm_stood : list (jsstr * Z * bytes);
  hm_ledger : gmap jsstr jsstr;
  hm_uploadedHash : gmap jsstr jsstr;
  hm_refusedHash : gmap jsstr jsstr;
  hm_retryAt : gmap jsstr Z;
  hm_lastStat : gmap jsstr (Z * nat * bool);
  hm_pendingChunks : gmap jsstr PendingChunk;
  hm_sent : list Message;
  hm_vouched : list (jsstr * jsstr);
  hm_destroyed : list Destroyed;
  hm_tame : bool;
}.

Record WriteResult := mkResult {
  wr_ok : bool;
  wr_retryable : bool;
}.

Definition memory_path (fileName : jsstr) : jsstr := js "memory/" ++ fileName.

Definition isMemoryFilePath (mapped : jsstr) : bool :=
  starts_with (js "memory/") mapped && negb (bool_decide (mapped = MEMORY_INDEX_PATH)).

Definition memoryKeyOfFileName (name : jsstr) : option jsstr :=
  if negb (ends_with (js ".md") name) || bool_decide (name = MEMORY_INDEX_FILE) then None
  else
    let stem := take (length name - 3) name in
    if (length stem <=? MEMORY_KEY_MAX_LENGTH)%nat && MEMORY_KEY_PATTERN stem then Some stem else None.

(** *** Files *)

(** The texts the removal of what stands at a path destroys: of a memory file,
    when it is not the text that is to be written there. [look] is what the
    supervisor saw there when it decided; [None] when what stood there changed
    while it looked. *)
Definition destroys (path : jsstr) (look : option (option Node)) (old : option Node) (text : option jsstr) : list Destroyed :=
  match old with
  | Some (Regular content _ _ _) =>
      if isMemoryFilePath path && negb (bool_decide (Some (utf8_string content) = text))
      then [mkDestroyed path (utf8_string content) (negb (bool_decide (look = Some old)))] else []
  | _ => []
  end.

Definition with_files (files : gmap jsstr Node) (stood : list (jsstr * Z * bytes)) (destroyed : list Destroyed) (tame : bool) (h : Home) : Home :=
  mkHome files stood (hm_ledger h) (hm_uploadedHash h) (hm_refusedHash h) (hm_retryAt h) (hm_lastStat h) (hm_pendingChunks h)
    (hm_sent h) (hm_vouched h) destroyed tame.

(** What comes to stand at a path. *)
Definition put (path : jsstr) (n : Node) (h : Home) : Home :=
  with_files (<[path := n]> (hm_files h))
    (hm_stood h ++ match n with Regular content mtime _ _ => [(path, mtime, content)] | _ => [] end) (hm_destroyed h) (hm_tame h) h.

Definition unlink (path : jsstr) (h : Home) : Home :=
  with_files (delete path (hm_files h)) (hm_stood h) (hm_destroyed h) (hm_tame h) h.

Definition untame (ok : bool) (h : Home) : Home :=
  with_files (hm_files h) (hm_stood h) (hm_destroyed h) (hm_tame h && ok) h.

(** ** The agent *)

(** What the agent's processes may do to the files of the home; a write sets
    the time of modification, as [utimes] can. *)
Inductive AgentAct :=
| AWrite (path : jsstr) (contents : bytes) (mtime : Z) (mode : N) (readable : bool)
| ARemove (path : jsstr)
| ARename (from to : jsstr)
| APut (path : jsstr) (kind : Kind)
| AForge (ledger : gmap jsstr jsstr).

(** An agent that keeps its files readable and does not write the ledger of
    the harvester. *)
Definition tame (a : AgentAct) : bool :=
  match a with
  | AWrite _ _ _ _ readable => readable
  | AForge _ => false
  | _ => true
  end.

Definition agent_act (a : AgentAct) (h : Home) : Home :=
  let h := untame (tame a) h in
  match a with
  | AWrite path contents mtime mode readable => put path (Regular contents mtime mode readable) h
  | ARemove path => unlink path h
  | ARename from to => match hm_files h !! from with Some n => put to n (unlink from h) | None => h end
  | APut path kind =>
      match kind with
      | k_link => put path Link h
      | k_directory => put path Directory h
      | k_special => put path Special h
      | k_file => h
      end
  | AForge ledger =>
      mkHome (hm_files h) (hm_stood h) ledger (hm_uploadedHash h) (hm_refusedHash h) (hm_retryAt h) (hm_lastStat h)
        (hm_pendingChunks h) (hm_sent h) (hm_vouched h) (hm_destroyed h) (hm_tame h)
  end.

(** What the moment of a statement gives it: the clock, as the time of its
    writes too; the answer that arrived, [None] when none did in time; what the
    agent does between its system calls; and what a link leads to. *)
Record SyncEnv := mkSyncEnv {
  se_now : Z;
  se_writeId : jsstr;
  se_turn : option (jsstr * jsstr);
  se_result : option WriteResult;
  se_persisted : bool;
  se_listing : list jsstr;
  se_gap : nat -> list AgentAct;
  se_followed : option bytes;
}.

(** [EISDIR]: a directory is not unlinked; [EEXIST]: the exclusive write finds
    something at its path. *)
Inductive FsError := EISDIR | EEXIST.

Abbreviation sprog := (prog SyncEnv Home FsError).

(** What the agent does between two system calls: 0 before a read, 1 before an
    unlink, 2 before a write. *)
Definition gap (e : SyncEnv) (n : nat) (h : Home) : Home := fold_left (fun h a => agent_act a h) (se_gap e n) h.

(** [rmSync(path, { force: true })] itself. *)
Definition remove (path : jsstr) (look : option (option Node)) (text : option jsstr) (h : Home) : (() + FsError) * Home :=
  match hm_files h !! path with
  | Some Directory => (inr EISDIR, h)
  | old => (inl (), with_files (delete path (hm_files h)) (hm_stood h) (hm_destroyed h ++ destroys path look old text) (hm_tame h) h)
  end.

Definition rmSync (e : SyncEnv) (path : jsstr) (look : option (option Node)) (h : Home) : (() + FsError) * Home :=
  remove path look None (gap e 1 h).

(** The unlink, then the write, which is exclusive. *)
Definition writeManagedFile (e : SyncEnv) (path : jsstr) (look : option (option Node)) (contents : bytes) (mode : N) (h : Home) :
    (() + FsError) * Home :=
  match remove path look (Some (utf8_string contents)) (gap e 1 h) with
  | (inl _, h) =>
      let h := gap e 2 h in
      match hm_files h !! path with
      | Some _ => (inr EEXIST, h)
      | None => (inl (), put path (Regular contents (se_now e) mode true) h)
      end
  | fault => fault
  end.

(** [readFileSync(path, "utf8")]: what is read through a link is not the
    home's. *)
Definition read_text (e : SyncEnv) (path : jsstr) (h : Home) : option jsstr :=
  utf8_string <$>
  match hm_files h !! path with
  | Some (Regular content _ _ true) => Some content
  | Some Link => se_followed e
  | _ => None
  end.

(** The names right under [memory/] and their kinds, in the directory's
    order. *)
Definition memory_names (h : Home) : list jsstr :=
  omap (fun path => if starts_with (js "memory/") path && negb (has_char 47%N (drop 7 path)) then Some (drop 7 path) else None)
    (map_to_list (hm_files h)).*1.

Definition readdir_memory (e : SyncEnv) (h : Home) : list (jsstr * Kind) :=
  let names := memory_names h in
  omap (fun name => (fun n => (name, kind_of n)) <$> hm_files h !! memory_path name)
    (if bool_decide (se_listing e ≡ₚ names) then se_listing e else names).

(** *** The harvester's books *)

Definition with_books (uploaded refused : gmap jsstr jsstr) (retryAt : gmap jsstr Z) (lastStat : gmap jsstr (Z * nat * bool)) (h : Home) : Home :=
  mkHome (hm_files h) (hm_stood h) (hm_ledger h) uploaded refused retryAt lastStat (hm_pendingChunks h) (hm_sent h) (hm_vouched h)
    (hm_destroyed h) (hm_tame h).

Definition record_stat (fileName : jsstr) (mtime : Z) (size : nat) (settled : bool) (h : Home) : Home :=
  with_books (hm_uploadedHash h) (hm_refusedHash h) (hm_retryAt h) (<[fileName := (mtime, size, settled)]> (hm_lastStat h)) h.

Definition retry_later (now : Z) (fileName : jsstr) (h : Home) : Home :=
  with_books (hm_uploadedHash h) (hm_refusedHash h) (<[fileName := now + HARVEST_RETRY_MS]> (hm_retryAt h)) (hm_lastStat h) h.

Definition refuse_hash (fileName hash : jsstr) (h : Home) : Home :=
  with_books (hm_uploadedHash h) (<[fileName := hash]> (hm_refusedHash h)) (hm_retryAt h) (hm_lastStat h) h.

Definition post (m : Message) (h : Home) : Home :=
  mkHome (hm_files h) (hm_stood h) (hm_ledger h) (hm_uploadedHash h) (hm_refusedHash h) (hm_retryAt h) (hm_lastStat h)
    (hm_pendingChunks h) (hm_sent h ++ [m]) (hm_vouched h) (hm_destroyed h) (hm_tame h).

Definition persistLedger (e : SyncEnv) (h : Home) : Home :=
  mkHome (hm_files h) (hm_stood h) (if se_persisted e then hm_uploadedHash h else hm_ledger h) (hm_uploadedHash h) (hm_refusedHash h)
    (hm_retryAt h) (hm_lastStat h) (hm_pendingChunks h) (hm_sent h) (hm_vouched h) (hm_destroyed h) (hm_tame h).

Definition forgetFile (e : SyncEnv) (fileName : jsstr) (h : Home) : Home :=
  let h' := with_books (delete fileName (hm_uploadedHash h)) (delete fileName (hm_refusedHash h)) (delete fileName (hm_retryAt h))
              (delete fileName (hm_lastStat h)) h in
  match hm_uploadedHash h !! fileName with Some _ => persistLedger e h' | None => h' end.

(** The platform answered: it holds what it was sent. *)
Definition vouch (fileName hash : jsstr) (h : Home) : Home :=
  mkHome (hm_files h) (hm_stood h) (hm_ledger h) (<[fileName := hash]> (hm_uploadedHash h)) (delete fileName (hm_refusedHash h))
    (hm_retryAt h) (hm_lastStat h) (hm_pendingChunks h) (hm_sent h) (hm_vouched h ++ [(fileName, hash)]) (hm_destroyed h) (hm_tame h).

Inductive HarvestOutcome := pristine | uploaded | refused | retry.

#[export] Instance HarvestOutcome_eq_dec : EqDecision HarvestOutcome.
Proof. solve_decision. Defined.

(** An upload under way: the hash of what was read and the stat before it; as
    ghost, whether what was read is what the stat is of. *)
Record Upload := mkUpload {
  up_hash : jsstr;
  up_mtime : Z;
  up_size : nat;
  up_same : bool;
}.

Section Sync.
Context `{Sha256} `{NodeBase64}.

(** ** Harvesting *)

(** [harvestNow] up to its await; an outcome comes with what was looked at. *)
Definition harvest_open (e : SyncEnv) (fileName : jsstr) (h : Home) : (HarvestOutcome * option (option Node) + Upload) * Home :=
  let path := memory_path fileName in
  let stat := hm_files h !! path in
  match memoryKeyOfFileName fileName, stat with
  | Some key, Some (Regular content mtime _ _) =>
      let size := length content in
      let record := record_stat fileName mtime size true in
      if (MAX_HARVEST_FILE_BYTES <? N.of_nat size)%N then (inl (refused, Some stat), record h)
      else
        let h := gap e 0 h in
        let look := hm_files h !! path in
        match read_text e path h with
        | None => (inl (retry, Some look), h)
        | Some raw =>
            if isUnmodifiedProjection raw then (inl (pristine, Some look), record h)
            else
              let hash := sha256Hex raw in
              if bool_decide (hm_uploadedHash h !! fileName = Some hash) then (inl (uploaded, Some look), record h)
              else if bool_decide (hm_refusedHash h !! fileName = Some hash) then (inl (refused, Some look), record h)
              else
                let parsed := parseMemoryFile raw in
                if (length (pm_content parsed) =? 0)%nat || (MEMORY_FILE_CONTENT_MAX_CHARS <? length_of (pm_content parsed))%N
                then (inl (refused, Some look), record (refuse_hash fileName hash h))
                else
                  let frame := write_frame (se_writeId e) key (pm_content parsed) (take MEMORY_TITLE_MAX_LENGTH <$> pm_title parsed)
                    (take MEMORY_DESCRIPTION_MAX_LENGTH <$> pm_description parsed)
                    (match se_turn e with
                     | Some (conversationId, turnId) => [(js "conversationId", JStr conversationId); (js "turnId", JStr turnId)]
                     | None => []
                     end) in
                  if (MAX_MEMORY_WRITE_BYTES <? syncFrameByteLength frame)%N
                  then (inl (refused, Some look), record (refuse_hash fileName hash h))
                  else (inr (mkUpload hash mtime size (bool_decide (look = stat))), post (MemoryWrite (se_writeId e) frame) h)
        end
  | _, _ => (inl (refused, Some stat), h)
  end.

(** The stat after the upload against the one before it. *)
Definition unchanged (up : Upload) (node : option Node) : bool :=
  match node with
  | Some (Regular content mtime _ _) => bool_decide (mtime = up_mtime up) && bool_decide (length content = up_size up)
  | _ => false
  end.

(** [harvestNow] after it. *)
Definition harvest_answer (e : SyncEnv) (fileName : jsstr) (up : Upload) (h : Home) : (HarvestOutcome * option (option Node)) * Home :=
  let record settled := record_stat fileName (up_mtime up) (up_size up) settled in
  let later h := record false (retry_later (se_now e) fileName h) in
  let after := hm_files h !! memory_path fileName in
  let look := if up_same up then Some after else None in
  match se_result e with
  | None => ((retry, look), later h)
  | Some result =>
      if wr_ok result then
        let h := persistLedger e (vouch fileName (up_hash up) h) in
        if unchanged up after
        then ((uploaded, look), record true (with_books (hm_uploadedHash h) (hm_refusedHash h) (delete fileName (hm_retryAt h)) (hm_lastStat h) h))
        else ((retry, look), later h)
      else if wr_retryable result then ((retry, look), later h)
      else ((refused, look), record true (refuse_hash fileName (up_hash up) h))
  end.

(** What the caller does with the outcome, before anything else of the
    supervisor runs. *)
Definition Continuation : Type := SyncEnv -> HarvestOutcome -> option (option Node) -> Home -> (() + FsError) * Home.

Definition continue (after : Continuation) (e : SyncEnv) (o : HarvestOutcome * option (option Node)) (h : Home) :
    (option Upload + FsError) * Home :=
  match after e o.1 o.2 h with (inl _, h') => (inl None, h') | (inr x, h') => (inr x, h') end.

Definition harvestNow (fileName : jsstr) (after : Continuation) : sprog () :=
  opened ← exec (fun e h =>
    match harvest_open e fileName h with
    | (inl o, h') => continue after e o h'
    | (inr up, h') => (inl (Some up), h')
    end);
  match opened with
  | None => mret ()
  | Some up =>
      exec (fun e h => let '(o, h') := harvest_answer e fileName up h in continue after e o h');;
      mret ()
  end.

Definition leave : Continuation := fun _ _ _ h => (inl (), h).

(** Whether a pass has a file to look at. *)
Definition due (now : Z) (name : jsstr) (h : Home) : bool :=
  match hm_retryAt h !! name with
  | Some at_ => at_ <=? now
  | None => true
  end &&
  match hm_lastStat h !! name with
  | Some (mtime, size, true) =>
      match hm_files h !! memory_path name with
      | Some (Regular content mtime' _ _) => negb (bool_decide (mtime' = mtime) && bool_decide (length content = size))
      | Some _ => true
      | None => false
      end
  | _ => true
  end.

Definition pass_entry (now : Z) (entry : jsstr * Kind) : sprog () :=
  if bool_decide (entry.2 = k_file) && match memoryKeyOfFileName entry.1 with Some _ => true | None => false end then
    look ← ask (fun _ => due now entry.1);
    if (look : bool) then harvestNow entry.1 leave else mret ()
  else mret ().

(** One pass of the timer. *)
Definition pass : sprog () :=
  listed ← ask (fun e h => (se_now e, readdir_memory e h));
  each (pass_entry listed.1) (take MAX_HARVEST_SCAN_ENTRIES listed.2).

(** [createMemoryHarvester] after a boot: the ledger is read, or it cannot
    be. *)
Definition boot (corrupt : bool) : sprog () :=
  alter_state (fun _ h =>
    mkHome (hm_files h) (hm_stood h) (hm_ledger h)
      (if corrupt then ∅
       else filter (fun entry => ((length entry.2 =? 64)%nat && forallb is_lower_hex entry.2) = true) (hm_ledger h))
      ∅ ∅ ∅ ∅ (hm_sent h) (hm_vouched h) (hm_destroyed h) (hm_tame h)).

(** ** Materializing *)

Record SyncFile := mkSyncFile {
  sf_path : jsstr;
  sf_content : jsstr;
  sf_executable : bool;
}.

Record SyncBlob := mkBlob {
  sb_path : jsstr;
  sb_dataBase64 : jsstr;
  sb_executable : bool;
  sb_chunk : option (nat * nat * jsstr);
}.

Record SyncItem := mkItem {
  si_generation : Z;
  si_part : nat;
  si_of : nat;
  si_files : list SyncFile;
  si_blobs : list SyncBlob;
  si_prune : list jsstr;
}.

Definition mapManagedPath (path : jsstr) (skillsDir : option jsstr) : option jsstr :=
  if bool_decide (path = MEMORY_ROOT) || starts_with (js "memory/") path then Some path
  else if bool_decide (path = CANONICAL_SKILLS_ROOT) || starts_with (CANONICAL_SKILLS_ROOT ++ js "/") path then
    match truthy skillsDir with
    | None => None
    | Some dir => Some (if bool_decide (dir = CANONICAL_SKILLS_ROOT) then path else dir ++ drop (length CANONICAL_SKILLS_ROOT) path)
    end
  else None.

(** *** Skill files in pieces *)

Definition with_chunks (chunks : gmap jsstr PendingChunk) (h : Home) : Home :=
  mkHome (hm_files h) (hm_stood h) (hm_ledger h) (hm_uploadedHash h) (hm_refusedHash h) (hm_retryAt h) (hm_lastStat h) chunks
    (hm_sent h) (hm_vouched h) (hm_destroyed h) (hm_tame h).

Definition bytesOf (blob : SyncBlob) (generation : Z) (chunks : gmap jsstr PendingChunk) : option bytes * gmap jsstr PendingChunk :=
  let raw := from_base64 (sb_dataBase64 blob) in
  match sb_chunk blob with
  | None => (Some raw, chunks)
  | Some (index, of_, sha256) =>
      let fresh := mkChunks generation sha256 of_ [] in
      let pending :=
        match chunks !! sb_path blob with
        | Some p => if (index =? 1)%nat || negb (pc_generation p =? generation) then fresh else p
        | None => fresh
        end in
      if negb (bool_decide (pc_sha256 pending = sha256)) || negb (length (pc_parts pending) =? index - 1)%nat
      then (None, delete (sb_path blob) chunks)
      else
        let parts := pc_parts pending ++ [raw] in
        if (index <? of_)%nat
        then (None, <[sb_path blob := mkChunks (pc_generation pending) (pc_sha256 pending) (pc_of pending) parts]> chunks)
        else
          let joined := concat parts in
          (if bool_decide (hex (sha256_digest joined) = sha256) then Some joined else None, delete (sb_path blob) chunks)
  end.

Definition same_file (node : option Node) (bytes_ : bytes) (mode : N) : bool :=
  match node with
  | Some (Regular content _ m readable) => readable && (m =? mode)%N && bool_decide (content = bytes_)
  | _ => false
  end.

Definition writeBlob (e : SyncEnv) (skillsDir : option jsstr) (blob : SyncBlob) (generation : Z) (h : Home) : (() + FsError) * Home :=
  match mapManagedPath (sb_path blob) skillsDir, truthy skillsDir with
  | Some mapped, Some dir =>
      if starts_with (dir ++ js "/") mapped then
        let '(bytes_, chunks) := bytesOf blob generation (hm_pendingChunks h) in
        let h := with_chunks chunks h in
        match bytes_ with
        | None => (inl (), h)
        | Some contents =>
            let mode := if sb_executable blob then EXECUTABLE_MODE else PROJECTION_MODE in
            let look := hm_files h !! mapped in
            if same_file look contents mode then (inl (), h) else writeManagedFile e mapped (Some look) contents mode h
        end
      else (inl (), h)
  | _, _ => (inl (), h)
  end.

(** *** One file of a part *)

Definition file_mode (mapped : jsstr) (file : SyncFile) : N :=
  if isMemoryFilePath mapped then MEMORY_FILE_MODE else if sf_executable file then EXECUTABLE_MODE else PROJECTION_MODE.

(** The [lstat] and the read of what stands at the path: its text and its mode
    when it can be read, and what was looked at last. *)
Definition existing (e : SyncEnv) (path : jsstr) (h : Home) : option (jsstr * N) * option Node * Home :=
  match hm_files h !! path with
  | Some (Regular _ _ mode _) =>
      let h := gap e 0 h in ((fun text => (text, mode)) <$> read_text e path h, hm_files h !! path, h)
  | stat => (None, stat, h)
  end.

(** Whether what stands there must be harvested first; otherwise it is left,
    or written over. *)
Definition open_file (e : SyncEnv) (mapped : jsstr) (file : SyncFile) (h : Home) : (bool + FsError) * Home :=
  let '(found, look, h) := existing e mapped h in
  let write := match writeManagedFile e mapped (Some look) (utf8 (sf_content file)) (file_mode mapped file) h with
               | (inl _, h') => (inl false, h')
               | (inr x, h') => (inr x, h')
               end in
  match found with
  | Some (text, mode) =>
      if bool_decide (text = sf_content file) then if (mode =? file_mode mapped file)%N then (inl false, h) else write
      else if isMemoryFilePath mapped && negb (isUnmodifiedProjection text) then (inl true, h)
      else write
  | None => write
  end.

Definition held (o : HarvestOutcome) : bool := bool_decide (o = uploaded) || bool_decide (o = pristine).

Definition land (mapped : jsstr) (file : SyncFile) : Continuation :=
  fun e o look h =>
    if held o then writeManagedFile e mapped look (utf8 (sf_content file)) (file_mode mapped file) h else (inl (), h).

Definition sync_file (harvesting : bool) (skillsDir : option jsstr) (file : SyncFile) : sprog () :=
  match mapManagedPath (sf_path file) skillsDir with
  | None => mret ()
  | Some mapped =>
      must ← exec (fun e => open_file e mapped file);
      if (must : bool) && harvesting then harvestNow (drop 7 mapped) (land mapped file) else mret ()
  end.

(** *** The manifest *)

(** What [pruneManagedRoot] leaves: directories, what is outside the root, and
    the files of the manifest. *)
Definition prunes (skillsDir : jsstr) (keep : list jsstr) (entry : jsstr * Node) : bool :=
  starts_with (skillsDir ++ js "/") entry.1 &&
  match entry.2 with Directory => false | Link => true | _ => negb (bool_decide (entry.1 ∈ keep)) end.

Definition pruneManagedRoot (skillsDir : jsstr) (keep : list jsstr) (h : Home) : Home :=
  with_files (filter (fun entry => prunes skillsDir keep entry = false) (hm_files h)) (hm_stood h)
    (hm_destroyed h ++ flat_map (fun entry => destroys entry.1 (Some (Some entry.2)) (Some entry.2) None)
                         (List.filter (prunes skillsDir keep) (map_to_list (hm_files h)))) (hm_tame h) h.

Definition drop_file (fileName : jsstr) : Continuation :=
  fun e o look h =>
    if held o then
      match rmSync e (memory_path fileName) look h with
      | (inl _, h') => (inl (), forgetFile e fileName h')
      | fault => fault
      end
    else (inl (), h).

(** [readRegular]: nothing of a file over the size its [lstat] may show. *)
Definition readRegular (e : SyncEnv) (path : jsstr) (h : Home) : option jsstr * option Node * Home :=
  match hm_files h !! path with
  | Some (Regular content _ _ _) as stat =>
      if (MAX_HARVEST_FILE_BYTES <? N.of_nat (length content))%N then (None, stat, h)
      else let h := gap e 0 h in (read_text e path h, hm_files h !! path, h)
  | stat => (None, stat, h)
  end.

(** An entry of the memory root as it was listed: whether to harvest it. A link
    goes on the word of the listing. *)
Definition prune_entry (harvesting : bool) (keep : list jsstr) (harvests : nat) (entry : jsstr * Kind) (e : SyncEnv) (h : Home) :
    (bool + FsError) * Home :=
  let rel := memory_path entry.1 in
  let removed look h := match rmSync e rel (Some look) h with (inl _, h') => (inl false, h') | (inr x, h') => (inr x, h') end in
  if bool_decide (entry.2 = k_link) then removed (Some Link) h
  else if bool_decide (entry.2 = k_directory) || bool_decide (rel ∈ keep) then (inl false, h)
  else if bool_decide (rel = MEMORY_INDEX_PATH) then removed (hm_files h !! rel) h
  else
    let harvest := harvesting && match memoryKeyOfFileName entry.1 with Some _ => (harvests <? MAX_HARVEST_SCAN_ENTRIES)%nat | None => false end in
    let '(content, look, h) := readRegular e rel h in
    match content with
    | Some text =>
        if isUnmodifiedProjection text then
          match removed look h with
          | (inl _, h') => (inl false, if harvesting then forgetFile e entry.1 h' else h')
          | fault => fault
          end
        else (inl harvest, h)
    | None => (inl harvest, h)
    end.

Fixpoint prune_entries (harvesting : bool) (keep : list jsstr) (harvests : nat) (entries : list (jsstr * Kind)) : sprog () :=
  match entries with
  | [] => mret ()
  | entry :: rest =>
      must ← exec (prune_entry harvesting keep harvests entry);
      (if (must : bool) then harvestNow entry.1 (drop_file entry.1) else mret ());;
      prune_entries harvesting keep (if (must : bool) then S harvests else harvests) rest
  end.

Definition pruneMemoryRoot (harvesting : bool) (keep : list jsstr) : sprog () :=
  entries ← ask (fun e => readdir_memory e);
  prune_entries harvesting keep 0 (take MAX_HARVEST_SCAN_ENTRIES entries).

Definition keepSkills (skillsDir : jsstr) (manifest : list jsstr) : list jsstr :=
  List.filter (starts_with (skillsDir ++ js "/")) (omap (fun path => mapManagedPath path (Some skillsDir)) manifest).

(** One part of a home sync. *)
Definition applyHomeSync (harvesting : bool) (skillsDir : option jsstr) (item : SyncItem) : sprog () :=
  alter_state (fun _ h =>
    if (si_part item =? 1)%nat
    then with_chunks (filter (fun entry => (pc_generation entry.2 =? si_generation item) = true) (hm_pendingChunks h)) h else h);;
  each (fun blob => exec (fun e => writeBlob e skillsDir blob (si_generation item))) (si_blobs item);;
  each (sync_file harvesting skillsDir) (si_files item);;
  if (si_part item =? si_of item)%nat then
    match truthy skillsDir with
    | Some dir => alter_state (fun _ => pruneManagedRoot dir (keepSkills dir (si_prune item)))
    | None => mret ()
    end;;
    pruneMemoryRoot harvesting (List.filter (starts_with (js "memory/")) (si_prune item));;
    alter_state (fun _ => post (HomeSynced (si_generation item)))
  else mret ().
End Sync.

Definition agent_does (a : AgentAct) : sprog () := alter_state (fun _ => agent_act a).
