(* ===== verification/MemorySyncSafe.v ===== *)
(** * No memory of the agent is destroyed

    Whatever interleaves with the agent's writing: a text under [memory/] that
    the supervisor deletes or writes over is an untouched rendering of the
    platform's, or was sent to the platform, which answered that it holds
    it. What it looks at before it removes a file, another process may replace
    before the removal: a text that came between is told apart ([de_unseen]),
    and may be lost. Assumed is that the size and the time of modification of a
    file tell what it holds, and that the agent keeps its files readable and
    the ledger as it is ([behaved]). *)
From S2P Require Import Prelude PolicyTypes JsJson JsBytes Programs MemoryFile MemorySync.
Local Open Scope Z_scope.

Section Safe.
Context `{Sha256} `{NodeBase64}.

(** A write of this file's memory was sent, for a text of this hash. *)
Definition sent_for (fileName hash : jsstr) (h : Home) : Prop :=
  exists writeId key text rest,
    sha256Hex text = hash /\ memoryKeyOfFileName fileName = Some key /\
    MemoryWrite writeId (write_frame writeId key (pm_content (parseMemoryFile text)) (take MEMORY_TITLE_MAX_LENGTH <$> pm_title (parseMemoryFile text))
      (take MEMORY_DESCRIPTION_MAX_LENGTH <$> pm_description (parseMemoryFile text)) rest) ∈ hm_sent h.

(** Two different contents that stood at a path never had both their time of
    modification and their size in common. *)
Definition stamps_tell (h : Home) : Prop :=
  forall path mtime c c', (path, mtime, c) ∈ hm_stood h -> (path, mtime, c') ∈ hm_stood h -> length c = length c' -> c = c'.

(** What is assumed of the agent and its files, up to this state. *)
Definition behaved (h : Home) : Prop := hm_tame h = true /\ stamps_tell h.

(** A text that may go: the platform rendered it, or holds it. *)
Definition spared (h : Home) (path text : jsstr) : Prop :=
  behaved h ->
  isUnmodifiedProjection text = true \/ exists fileName, path = memory_path fileName /\ (fileName, sha256Hex text) ∈ hm_vouched h.

Record home_ok (h : Home) : Prop := {
  hk_files p content mtime mode readable :
    hm_files h !! p = Some (Regular content mtime mode readable) -> (p, mtime, content) ∈ hm_stood h /\ (behaved h -> readable = true);
  hk_uploaded fileName hash : hm_uploadedHash h !! fileName = Some hash -> behaved h -> (fileName, hash) ∈ hm_vouched h;
  hk_ledger fileName hash : hm_ledger h !! fileName = Some hash -> behaved h -> (fileName, hash) ∈ hm_vouched h;
  hk_vouched fileName hash : (fileName, hash) ∈ hm_vouched h -> sent_for fileName hash h;
  hk_destroyed d : d ∈ hm_destroyed h -> de_unseen d = false -> spared h (de_path d) (de_text d);
}.

(** What only grows. *)
Definition grows (h h' : Home) : Prop :=
  hm_stood h ⊆ hm_stood h' /\ hm_vouched h ⊆ hm_vouched h' /\ hm_sent h ⊆ hm_sent h' /\ hm_destroyed h ⊆ hm_destroyed h' /\
  (hm_tame h' = true -> hm_tame h = true).

#[export] Instance grows_preorder : PreOrder grows.
Proof.
  split; [intros h; by split_and!|]. intros a b c (H1 & H2 & H3 & H4 & H5) (H1' & H2' & H3' & H4' & H5').
  split_and!; first [by etrans|by auto].
Qed.

Lemma behaved_before h h' : grows h h' -> behaved h' -> behaved h.
Proof. intros (Hs & _ & _ & _ & Ht) [? Hst]. split; [by apply Ht|]. intros p t c c' ??. by apply (Hst p t); apply Hs. Qed.

Lemma sent_for_grows fileName hash h h' : grows h h' -> sent_for fileName hash h -> sent_for fileName hash h'.
Proof. intros (_ & _ & Hs & _) (i & k & t & r & ? & ? & ?). exists i, k, t, r. auto. Qed.

Lemma spared_grows path text h h' : grows h h' -> spared h path text -> spared h' path text.
Proof.
  intros G Hs Hb. destruct (Hs (behaved_before h h' G Hb)) as [?|(n & ? & ?)]; [by left|right; exists n].
  destruct G as (_ & Hv & _). auto.
Qed.

(** A step that keeps the home well. *)
Definition well (h h' : Home) : Prop := home_ok h' /\ grows h h'.

Lemma well_refl h : home_ok h -> well h h.
Proof. by split. Qed.

Lemma well_trans h1 h2 h3 : well h1 h2 -> (home_ok h2 -> well h2 h3) -> well h1 h3.
Proof. intros [H1 G1] H2. destruct (H2 H1) as [? ?]. split; [done|by etrans]. Qed.

(** A step from one well home to another, by what it changes. *)
Lemma well_make h h' :
  home_ok h -> grows h h' ->
  (forall p content mtime mode readable, hm_files h' !! p = Some (Regular content mtime mode readable) ->
     hm_files h !! p = Some (Regular content mtime mode readable) \/
     ((p, mtime, content) ∈ hm_stood h' /\ (behaved h' -> readable = true))) ->
  (forall fileName hash, hm_uploadedHash h' !! fileName = Some hash -> hm_uploadedHash h !! fileName = Some hash \/
     (behaved h' -> (fileName, hash) ∈ hm_vouched h')) ->
  (forall fileName hash, hm_ledger h' !! fileName = Some hash -> hm_ledger h !! fileName = Some hash \/
     (behaved h' -> (fileName, hash) ∈ hm_vouched h')) ->
  (forall v, v ∈ hm_vouched h' -> v ∈ hm_vouched h \/ sent_for v.1 v.2 h') ->
  (forall d, d ∈ hm_destroyed h' -> d ∈ hm_destroyed h \/ (de_unseen d = false -> spared h' (de_path d) (de_text d))) -> well h h'.
Proof.
  intros Hok G Hf Hu Hled Hv Hd. split; [|done]. pose proof G as (Gw & Gv & Gs & Gd & _). pose proof (behaved_before h h' G) as Hb.
  constructor.
  - intros p c t m r E. destruct (Hf _ _ _ _ _ E) as [E'|?]; [|done]. destruct (hk_files _ Hok _ _ _ _ _ E') as [? ?]. auto.
  - intros n x [E|?]%Hu; [|done]. intros ?. apply Gv, (hk_uploaded _ Hok); auto.
  - intros n x [E|?]%Hled; [|done]. intros ?. apply Gv, (hk_ledger _ Hok); auto.
  - intros n x [E|?]%Hv; [|done]. by eapply sent_for_grows, (hk_vouched _ Hok).
  - intros d [E|?]%Hd; [|done]. intros ?. by eapply spared_grows, (hk_destroyed _ Hok).
Qed.

(** ** Books *)

Lemma books_well up re rt ls h :
  home_ok h -> (forall n x, up !! n = Some x -> hm_uploadedHash h !! n = Some x) -> well h (with_books up re rt ls h).
Proof. intros Hok Hup. apply well_make; cbn; [done|by split_and!|by left|by left; apply Hup|by left|by left|by left]. Qed.

Lemma post_well m h : home_ok h -> well h (post m h).
Proof. intros Hok. apply well_make; cbn; [done|split_and!; cbn; try done; set_solver|by left|by left|by left|by left|by left]. Qed.

Lemma chunks_well chunks h : home_ok h -> well h (with_chunks chunks h).
Proof. intros Hok. apply well_make; cbn; [done|by split_and!|by left|by left|by left|by left|by left]. Qed.

Lemma persist_well e h : home_ok h -> well h (persistLedger e h).
Proof.
  intros Hok. apply well_make; cbn; [done|by split_and!|by left|by left| |by left|by left].
  intros n x. destruct (se_persisted e); [|by left]. intros E. right. by apply (hk_uploaded _ Hok).
Qed.

Lemma forget_well e n h : home_ok h -> well h (forgetFile e n h).
Proof.
  intros Hok. unfold forgetFile. assert (well h (with_books (delete n (hm_uploadedHash h)) (delete n (hm_refusedHash h))
    (delete n (hm_retryAt h)) (delete n (hm_lastStat h)) h)) as Hw.
  { apply books_well; [done|]. by intros m x [_ ?]%lookup_delete_Some. }
  destruct (_ !! _); [|done]. eapply well_trans; [exact Hw|]. apply persist_well.
Qed.

Lemma vouch_well n hash h : home_ok h -> sent_for n hash h -> well h (vouch n hash h).
Proof.
  intros Hok Hs. apply well_make; cbn; [done|split_and!; cbn; try done; set_solver|by left| |by left| |by left].
  - intros m x [[<- <-]|[_ ?]]%lookup_insert_Some; [|by left]. right. set_solver.
  - intros v [?|Hv]%elem_of_app; [by left|]. apply list_elem_of_singleton in Hv as ->. by right.
Qed.

(** ** The agent *)

Lemma put_well path n h :
  home_ok h -> (forall c t m r, n = Regular c t m r -> behaved (put path n h) -> r = true) -> well h (put path n h).
Proof.
  intros Hok Hr. apply well_make; cbn; [done|split_and!; cbn; try done; set_solver| |by left|by left|by left|by left].
  intros p c t m r [[<- ->]|[_ ?]]%lookup_insert_Some; [|by left]. right. split; [set_solver|by eapply Hr].
Qed.

Lemma unlink_well path h : home_ok h -> well h (unlink path h).
Proof.
  intros Hok. apply well_make; cbn; [done|by split_and!| |by left|by left|by left|by left].
  intros p c t m r [_ ?]%lookup_delete_Some. by left.
Qed.

Lemma untame_well ok h : home_ok h -> well h (untame ok h).
Proof.
  intros Hok. apply well_make; cbn; [done| |by left|by left|by left|by left|by left].
  split_and!; cbn; try done. by intros [? _]%andb_true_iff.
Qed.

Lemma agent_well a h : home_ok h -> well h (agent_act a h).
Proof.
  intros Hok. unfold agent_act. eapply well_trans; [by apply (untame_well (tame a))|]. intros Hok1.
  assert (hm_tame (untame (tame a) h) = true -> tame a = true) as Htame by (by intros [_ ?]%andb_true_iff).
  set (h1 := untame (tame a) h) in *. destruct a as [path c t m r|path|from to|path kind|ledger]; cbn [tame] in *.
  - apply put_well; [done|]. intros c' t' m' r' [= <- <- <- <-] [Hb _]. by apply Htame.
  - by apply unlink_well.
  - destruct (hm_files h1 !! from) as [n|] eqn:En; [|by apply well_refl].
    eapply well_trans; [by apply unlink_well|]. intros Hok2. apply put_well; [done|]. intros c t m r -> Hb.
    eapply (hk_files _ Hok1); [exact En|]. eapply behaved_before, Hb. split_and!; cbn; try done; set_solver.
  - destruct kind; [by apply well_refl|apply put_well..]; done.
  - apply well_make; cbn; [done|by split_and!|by left|by left| |by left|by left]. intros n x _. right. intros [Hb _].
    by specialize (Htame Hb).
Qed.

Lemma gap_well e n h : home_ok h -> well h (gap e n h).
Proof.
  unfold gap. revert h. induction (se_gap e n) as [|a l IH]; intros h Hok; [by apply well_refl|]. cbn [fold_left].
  eapply well_trans; [by apply agent_well|]. apply IH.
Qed.

(** ** Files *)

(** What was looked at may go, where [text] is to be written. *)
Definition may_go (path : jsstr) (text : option jsstr) (look : option (option Node)) (h : Home) : Prop :=
  forall content mtime m readable, look = Some (Some (Regular content mtime m readable)) ->
    isMemoryFilePath path = true -> Some (utf8_string content) <> text -> spared h path (utf8_string content).

Lemma may_go_grows path text look h h' : grows h h' -> may_go path text look h -> may_go path text look h'.
Proof. intros G Hm c t m r E Hp Hne. by eapply spared_grows, Hm. Qed.

Lemma may_go_text path text look h : may_go path None look h -> may_go path text look h.
Proof. intros Hm c t m r E Hp _. by eapply Hm. Qed.

Lemma remove_well path look text h :
  home_ok h -> may_go path text look h -> well h (remove path look text h).2.
Proof.
  intros Hok Hm. unfold remove.
  assert (well h (with_files (delete path (hm_files h)) (hm_stood h) (hm_destroyed h ++ destroys path look (hm_files h !! path) text) (hm_tame h) h)) as Hw.
  { assert (grows h (with_files (delete path (hm_files h)) (hm_stood h)
      (hm_destroyed h ++ destroys path look (hm_files h !! path) text) (hm_tame h) h)) as G by (split_and!; cbn; try done; set_solver).
    apply well_make; [done|exact G|..]; cbn; [|by left|by left|by left|].
    - intros p c t m r [_ ?]%lookup_delete_Some. by left.
    - intros d [?|Hd]%elem_of_app; [by left|]. right. intros Hu. eapply spared_grows; [exact G|]. unfold destroys in Hd.
      destruct (hm_files h !! path) as [[c t m r| | |]|]; try (by apply elem_of_nil in Hd).
      destruct (isMemoryFilePath path) eqn:Ep; [|by apply elem_of_nil in Hd]. cbn [andb] in Hd.
      destruct (bool_decide (_ = text)) eqn:Et; [by apply elem_of_nil in Hd|]. apply bool_decide_eq_false in Et.
      apply list_elem_of_singleton in Hd as ->. cbn in *. apply negb_false_iff, bool_decide_eq_true in Hu. by eapply Hm. }
  destruct (hm_files h !! path) as [[]|]; try exact Hw. by apply well_refl.
Qed.

Lemma rm_well e path look h : home_ok h -> may_go path None look h -> well h (rmSync e path look h).2.
Proof.
  intros Hok Hm. pose proof (gap_well e 1 h Hok) as Hg. eapply well_trans; [exact Hg|]. intros Hok1.
  apply remove_well; [done|]. by eapply may_go_grows, Hm; apply Hg.
Qed.

Lemma write_well e path look contents mode h :
  home_ok h -> may_go path (Some (utf8_string contents)) look h -> well h (writeManagedFile e path look contents mode h).2.
Proof.
  intros Hok Hm. pose proof (gap_well e 1 h Hok) as Hg. unfold writeManagedFile.
  assert (well h (remove path look (Some (utf8_string contents)) (gap e 1 h)).2) as Hw.
  { eapply well_trans; [exact Hg|]. intros Hok1. apply remove_well; [done|]. by eapply may_go_grows, Hm; apply Hg. }
  destruct (remove _ _ _ _) as [[[]|x] h1]; cbn [snd] in *; [|done].
  eapply well_trans; [exact Hw|]. intros Hok1. pose proof (gap_well e 2 h1 Hok1) as Hg2.
  destruct (hm_files (gap e 2 h1) !! path); cbn; [done|]. eapply well_trans; [exact Hg2|]. intros Hok2.
  apply put_well; [done|]. by intros c t m r [= <- <- <- <-] _.
Qed.

(** What is read is what stands there, or what a link leads to. *)
Lemma read_text_regular e path h text c t m r :
  read_text e path h = Some text -> hm_files h !! path = Some (Regular c t m r) -> text = utf8_string c.
Proof. unfold read_text. intros E Ef. rewrite Ef in E. destruct r; [by injection E|done]. Qed.

(** ** A harvest *)

(** What an upload under way knows. *)
Definition upload_known (fileName : jsstr) (up : Upload) (h : Home) : Prop :=
  (up_same up = true -> exists content, (memory_path fileName, up_mtime up, content) ∈ hm_stood h /\
     length content = up_size up /\ up_hash up = sha256Hex (utf8_string content)) /\
  sent_for fileName (up_hash up) h.

Lemma upload_known_stable fileName up : stable home_ok grows (upload_known fileName up).
Proof.
  intros h h' _ _ G [Hc Hs]. pose proof G as (Gw & _). split; [|by eapply sent_for_grows].
  intros (c & Hin & ?)%Hc. exists c. auto.
Qed.

(** A held outcome: what was looked at may go. *)
Definition outcome_ok (fileName : jsstr) (o : HarvestOutcome * option (option Node)) (h : Home) : Prop :=
  held o.1 = true -> may_go (memory_path fileName) None o.2 h.

Lemma record_well n mtime size settled h : home_ok h -> well h (record_stat n mtime size settled h).
Proof. intros Hok. by apply books_well. Qed.

Lemma refuse_well n hash h : home_ok h -> well h (refuse_hash n hash h).
Proof. intros Hok. by apply books_well. Qed.

Lemma retry_well now n h : home_ok h -> well h (retry_later now n h).
Proof. intros Hok. by apply books_well. Qed.

#[local] Hint Resolve record_well refuse_well retry_well post_well persist_well forget_well well_refl : core.

Lemma open_well e fileName h :
  home_ok h -> let '(r, h') := harvest_open e fileName h in
  well h h' /\ match r with inl o => outcome_ok fileName o h' | inr up => upload_known fileName up h' end.
Proof.
  intros Hok. unfold harvest_open.
  assert (forall o look h', held o = false -> outcome_ok fileName (o, look) h') as Hno by (intros o look h' Ho E; cbn in E; congruence).
  destruct (memoryKeyOfFileName fileName) as [key|] eqn:Ek; [|by auto]. set (path := memory_path fileName).
  destruct (hm_files h !! path) as [[c t m r| | |]|] eqn:Ef; try by auto.
  destruct (MAX_HARVEST_FILE_BYTES <? _)%N; [by auto|].
  pose proof (gap_well e 0 h Hok) as Hg. pose proof Hg as [Hok1 G1]. set (h1 := gap e 0 h) in *.
  destruct (read_text e path h1) as [raw|] eqn:Er; [|by auto].
  assert (forall size h2, well h1 h2 -> well h (record_stat fileName t size true h2)) as Hrec.
  { intros size h2 Hw. eapply well_trans; [exact Hg|]. intros _. eapply well_trans; [exact Hw|]. auto. }
  assert (forall o h2, (behaved h2 -> isUnmodifiedProjection raw = true \/ (fileName, sha256Hex raw) ∈ hm_vouched h2) ->
    outcome_ok fileName (o, Some (hm_files h1 !! path)) h2) as Hgo.
  { intros o h2 Hs _ c' t' m' r' [= E] _ _ Hb. rewrite <- (read_text_regular e path h1 raw c' t' m' r' Er E).
    destruct (Hs Hb); [by left|right; by exists fileName]. }
  destruct (isUnmodifiedProjection raw) eqn:Ep; [split; [by apply Hrec, well_refl|]; apply Hgo; by left|].
  destruct (bool_decide (hm_uploadedHash h1 !! fileName = _)) eqn:Eu.
  { apply bool_decide_eq_true in Eu. split; [by apply Hrec, well_refl|]. apply Hgo. intros Hb. right. by apply (hk_uploaded _ Hok1). }
  destruct (bool_decide (hm_refusedHash h1 !! fileName = _)); [split; [by apply Hrec, well_refl|by apply Hno]|]. destruct (_ || _).
  { split; [|by apply Hno]. apply Hrec. auto. }
  destruct (MAX_MEMORY_WRITE_BYTES <? _)%N.
  { split; [|by apply Hno]. apply Hrec. auto. }
  split; [eapply well_trans; [exact Hg|]; auto|]. split.
  - cbn [up_same up_mtime up_size up_hash]. intros E%bool_decide_eq_true. exists c. split_and!; [|done|].
    + apply G1. by eapply (hk_files _ Hok).
    + f_equal. eapply read_text_regular; [exact Er|]. by rewrite E.
  - exists (se_writeId e), key, raw, (match se_turn e with
     | Some (conversationId, turnId) => [(js "conversationId", JStr conversationId); (js "turnId", JStr turnId)] | None => [] end).
    split_and!; [done|done|]. apply elem_of_app. right. by apply list_elem_of_singleton.
Qed.

Lemma answer_well e fileName up h :
  home_ok h -> upload_known fileName up h -> let '(o, h') := harvest_answer e fileName up h in well h h' /\ outcome_ok fileName o h'.
Proof.
  intros Hok [Hc Hs]. unfold harvest_answer.
  assert (forall o look h', held o = false -> outcome_ok fileName (o, look) h') as Hno by (intros o look h' Ho E; cbn in E; congruence).
  assert (forall h1, home_ok h1 -> well h1 (record_stat fileName (up_mtime up) (up_size up) false (retry_later (se_now e) fileName h1))) as Hl.
  { intros h1 H1. eapply well_trans; [by apply retry_well|]. auto. }
  destruct (se_result e) as [res|]; [|split; [by apply Hl|by apply Hno]].
  destruct (wr_ok res); [|destruct (wr_retryable res); (split; [|by apply Hno])].
  2: by apply Hl.
  2: { eapply well_trans; [by apply refuse_well|]. auto. }
  assert (well h (persistLedger e (vouch fileName (up_hash up) h))) as Hv by (eapply well_trans; [by apply vouch_well|auto]).
  set (h1 := persistLedger e (vouch fileName (up_hash up) h)) in *.
  destruct (unchanged up _) eqn:Eun; [|split; [eapply well_trans; [exact Hv|]; apply Hl|by apply Hno]].
  split; [eapply well_trans; [exact Hv|]; intros H1; eapply well_trans; [by apply books_well|auto]|].
  intros _ c' t' m' r' E _ _ [_ Hst]. cbn [snd] in E. destruct (up_same up); [|done]. injection E as E.
  destruct (Hc eq_refl) as (c & Hin & Hlen & Eh). rewrite E in Eun.
  apply andb_true_iff in Eun as [->%bool_decide_eq_true El%bool_decide_eq_true].
  destruct (hk_files _ Hok _ _ _ _ _ E) as [Hin' _].
  assert (c' = c) as -> by (apply (Hst _ _ _ _ Hin' Hin); congruence).
  right. exists fileName. split; [done|]. cbn. rewrite <- Eh. apply elem_of_app. right. by apply list_elem_of_singleton.
Qed.

(** What a caller may do with an outcome. *)
Definition sparing (fileName : jsstr) (after : Continuation) : Prop :=
  forall e o look h, home_ok h -> outcome_ok fileName (o, look) h -> well h (after e o look h).2.

Lemma continue_well fileName after e o h0 h :
  sparing fileName after -> well h0 h -> outcome_ok fileName o h -> well h0 (continue after e o h).2.
Proof.
  intros Ha Hw Hm. unfold continue. destruct o as [o look]. cbn [fst snd].
  pose proof (well_trans _ _ _ Hw (fun Hok => Ha e o look h Hok Hm)) as Hr. by destruct (after e o look h) as [[[]|x] h'].
Qed.

(** ** Programs *)

Abbreviation home_safe K p Q := (safe (Env := SyncEnv) (Exn := FsError) home_ok grows K p Q).

Lemma exec_safe {X} K (f : SyncEnv -> Home -> (X + FsError) * Home) (Q : X -> Home -> Prop) :
  (forall y, stable home_ok grows (Q y)) ->
  (forall e h, home_ok h -> K h -> well h (f e h).2 /\ match (f e h).1 with inl y => Q y (f e h).2 | inr _ => True end) ->
  home_safe K (exec f) Q.
Proof. intros HQ Hf. apply safe_exec; [done|]. intros e h Hok HK. destruct (Hf e h Hok HK) as [[? ?] ?]. by split_and!. Qed.

Lemma alter_safe K (f : SyncEnv -> Home -> Home) : (forall e h, home_ok h -> well h (f e h)) -> home_safe K (alter_state f) done_any.
Proof. intros Hf. apply safe_query; [done|]. intros e h Hok _. destruct (Hf e h Hok). by split_and!. Qed.

Lemma harvest_safe fileName after : sparing fileName after -> home_safe any (harvestNow fileName after) done_any.
Proof.
  intros Ha. unfold harvestNow.
  apply safe_bind with (Q := fun opened h => match opened with None => True | Some up => upload_known fileName up h end).
  { apply exec_safe; [intros [up|]; [apply upload_known_stable|done]|]. intros e h Hok _.
    pose proof (open_well e fileName h Hok) as Hw. destruct (harvest_open e fileName h) as [[o|up] h1]; destruct Hw as [Hw Hm]; [|by split].
    split; [by apply (continue_well fileName)|]. unfold continue. by destruct (after e o.1 o.2 h1) as [[]]. }
  intros [up|]; [|by apply safe_ret]. apply safe_seq; [|intros _; by apply safe_ret].
  apply exec_safe; [done|]. intros e h Hok Hup. pose proof (answer_well e fileName up h Hok Hup) as Hw.
  destruct (harvest_answer e fileName up h) as [o h1]. destruct Hw as [Hw Hm].
  split; [by apply (continue_well fileName)|]. by destruct (continue after e o h1) as [[]].
Qed.

Lemma leave_sparing fileName : sparing fileName leave.
Proof. intros e o look h Hok _. by apply well_refl. Qed.

Lemma land_sparing fileName file : sparing fileName (land (memory_path fileName) file).
Proof.
  intros e o look h Hok Hm. unfold land. destruct (held o) eqn:Eh; [|by apply well_refl].
  apply write_well; [done|]. by apply may_go_text, Hm.
Qed.

Lemma drop_sparing fileName : sparing fileName (drop_file fileName).
Proof.
  intros e o look h Hok Hm. unfold drop_file. destruct (held o) eqn:Eh; [|by apply well_refl].
  pose proof (rm_well e (memory_path fileName) look h Hok (Hm Eh)) as Hw. destruct (rmSync _ _ _ h) as [[[]|x] h1]; [|done].
  eapply well_trans; [exact Hw|]. by apply forget_well.
Qed.

(** *** One pass *)

Lemma home_ask_safe {X} (f : SyncEnv -> Home -> X) K : home_safe K (ask f : sprog X) done_any.
Proof. by apply safe_ask_any, grows_preorder. Qed.

Lemma ask_tells {X} (f : SyncEnv -> Home -> X) (Q : X -> Home -> Prop) :
  (forall y, stable home_ok grows (Q y)) -> (forall e h, home_ok h -> any h -> Q (f e h) h) -> home_safe any (ask f : sprog X) Q.
Proof. by apply safe_ask, grows_preorder. Qed.

Lemma each_safe {A} (body : A -> sprog ()) l : (forall a, a ∈ l -> home_safe any (body a) done_any) -> home_safe any (each body l) done_any.
Proof. intros Hb. by apply safe_each; [apply grows_preorder|]. Qed.

Lemma pass_safe : home_safe any pass done_any.
Proof.
  unfold pass. apply safe_seq; [apply home_ask_safe|]. intros listed. apply each_safe. intros entry _. unfold pass_entry.
  destruct (_ && _); [|by apply safe_ret]. apply safe_seq; [apply home_ask_safe|]. intros []; [|by apply safe_ret].
  apply harvest_safe, leave_sparing.
Qed.

Lemma boot_safe corrupt : home_safe any (boot corrupt) done_any.
Proof.
  apply alter_safe. intros e h Hok. apply well_make; cbn; [done|by split_and!|by left| |by left|by left|by left].
  intros n x E. right. destruct corrupt; [done|]. apply map_lookup_filter_Some in E as [E _]. by apply (hk_ledger _ Hok).
Qed.

(** *** One file *)

(** A skills directory outside the memories. *)
Definition apart (skillsDir : option jsstr) : Prop :=
  forall dir, truthy skillsDir = Some dir -> dir <> MEMORY_ROOT /\ starts_with (js "memory/") dir = false.

Lemma starts_with_split p d r : starts_with p (d ++ r) = true -> starts_with p d = true \/ exists k, p = d ++ k /\ starts_with k r = true.
Proof.
  revert d. induction p as [|c p IH]; intros d E; [left; by destruct d|]. destruct d as [|x d]; [right; by exists (c :: p)|].
  cbn [app starts_with] in E |- *. apply andb_true_iff in E as [Ec%N.eqb_eq E]. subst x. rewrite N.eqb_refl.
  destruct (IH d E) as [?|(k & -> & ?)]; [by left|right; by exists k].
Qed.

Lemma apart_path dir rest :
  dir <> MEMORY_ROOT -> starts_with (js "memory/") dir = false -> starts_with (js "memory/") (dir ++ js "/" ++ rest) = false.
Proof.
  intros H1 H2. destruct (starts_with _ (dir ++ _)) eqn:E; [|done]. exfalso.
  apply starts_with_split in E as [E|(k & E & Hk)]; [congruence|]. apply H1. unfold MEMORY_ROOT, js in *. cbn in E.
  do 6 (destruct dir as [|? dir]; [cbn in E; subst k; done|cbn in E; injection E as <- E]).
  destruct dir as [|x dir]; [done|]. cbn in E. injection E as <- E. destruct dir; done.
Qed.

(** What a look saw: the text is that of the file, if it is a file. *)
Lemma existing_looked e path h found look h' :
  home_ok h -> existing e path h = (found, look, h') ->
  well h h' /\ forall c t m r, look = Some (Regular c t m r) ->
    match found with Some (text, _) => text = utf8_string c | None => behaved h' -> False end.
Proof.
  intros Hok. unfold existing. destruct (hm_files h !! path) as [[c t m r| | |]|] eqn:Ef; intros E; simplify_eq/=;
    try (by split; [apply well_refl|]).
  pose proof (gap_well e 0 h Hok) as Hg. split; [done|]. intros c' t' m' r' E.
  destruct (read_text e path (gap e 0 h)) as [text|] eqn:Er; cbn; [by eapply read_text_regular|].
  intros Hb. destruct (hk_files _ (proj1 Hg) _ _ _ _ _ E) as [_ Hr]. rewrite (Hr Hb) in E. unfold read_text in Er. by rewrite E in Er.
Qed.

Lemma open_file_well e mapped file h :
  home_ok h -> well h (open_file e mapped file h).2.
Proof.
  intros Hok. unfold open_file. destruct (existing e mapped h) as [[found look] h1] eqn:Ee.
  apply existing_looked in Ee as [Hw Hl]; [|done]. pose proof Hw as [Hok1 _].
  assert (may_go mapped (Some (utf8_string (utf8 (sf_content file)))) (Some look) h1 ->
    well h (match writeManagedFile e mapped (Some look) (utf8 (sf_content file)) (file_mode mapped file) h1 with
            | (inl _, h') => (inl false, h') | (inr x, h') => (@inr bool FsError x, h') end).2) as Hwrite.
  { intros Hm. pose proof (well_trans _ _ _ Hw (fun Hk => write_well e mapped _ _ (file_mode mapped file) h1 Hk Hm)) as Hr.
    by destruct (writeManagedFile _ _ _ _ _ h1) as [[[]|x] h2]. }
  destruct found as [[text m]|].
  - destruct (bool_decide (text = sf_content file)) eqn:Et.
    + destruct (_ =? _)%N; [done|]. apply Hwrite. intros c t m' r [= ->] _ Hne. exfalso. apply Hne.
      pose proof (Hl _ _ _ _ eq_refl) as E. apply bool_decide_eq_true in Et. by rewrite <- Et, E, utf8_string_again.
    + destruct (isMemoryFilePath mapped) eqn:Em, (isUnmodifiedProjection text) eqn:Ep; cbn [andb negb]; try done.
      all: apply Hwrite; intros c t m' r [= ->] Hp _ _; try congruence.
      left. by rewrite <- (Hl _ _ _ _ eq_refl).
  - apply Hwrite. intros c t m r [= ->] _ _ Hb. by destruct (Hl _ _ _ _ eq_refl Hb).
Qed.

Lemma memory_path_drop mapped : isMemoryFilePath mapped = true -> memory_path (drop 7 mapped) = mapped.
Proof. intros [E _]%andb_true_iff. apply starts_with_spec in E as [k ->]. done. Qed.

Lemma open_file_must e mapped file h : (open_file e mapped file h).1 = inl true -> isMemoryFilePath mapped = true.
Proof.
  unfold open_file. destruct (existing e mapped h) as [[[[text m]|] look] h1].
  - destruct (bool_decide _); [destruct (_ =? _)%N; [done|]|destruct (isMemoryFilePath mapped); [done|cbn [andb]]];
      by destruct (writeManagedFile _ _ _ _ _ h1) as [[]].
  - by destruct (writeManagedFile _ _ _ _ _ h1) as [[]].
Qed.

Lemma sync_file_safe harvesting skillsDir file : home_safe any (sync_file harvesting skillsDir file) done_any.
Proof.
  unfold sync_file. destruct (mapManagedPath _ _) as [mapped|]; [|by apply safe_ret].
  apply safe_bind with (Q := fun must _ => must = true -> isMemoryFilePath mapped = true).
  { apply exec_safe; [intros y; apply stable_pure|]. intros e h Hok _. split; [by apply open_file_well|].
    destruct (open_file e mapped file h).1 as [must|] eqn:E; [|done]. intros ->. by eapply open_file_must. }
  intros must. destruct (must && harvesting) eqn:Em; [|by apply safe_ret]. apply andb_true_iff in Em as [-> _].
  destruct (isMemoryFilePath mapped) eqn:Ep.
  - eapply safe_weaken; [|apply harvest_safe]; [done|]. rewrite <- (memory_path_drop mapped Ep) at 2. apply land_sparing.
  - unfold harvestNow, exec. intros e h _ HK. by specialize (HK eq_refl).
Qed.

(** *** Skill files *)

Lemma skill_path dir mapped :
  dir <> MEMORY_ROOT -> starts_with (js "memory/") dir = false -> starts_with (dir ++ js "/") mapped = true -> isMemoryFilePath mapped = false.
Proof.
  intros H1 H2 [k ->]%starts_with_spec. rewrite <- app_assoc. unfold isMemoryFilePath. by rewrite apart_path.
Qed.

Lemma blob_well e skillsDir blob generation h :
  apart skillsDir -> home_ok h -> well h (writeBlob e skillsDir blob generation h).2.
Proof.
  intros Ha Hok. unfold writeBlob. destruct (mapManagedPath _ _) as [mapped|]; [|by apply well_refl].
  destruct (truthy skillsDir) as [dir|] eqn:Ed; [|by apply well_refl].
  destruct (starts_with _ mapped) eqn:Es; [|by apply well_refl].
  destruct (bytesOf _ _ _) as [[contents|] chunks]; [|by apply chunks_well].
  destruct (same_file _ _ _); [by apply chunks_well|].
  eapply well_trans; [by apply (chunks_well chunks)|]. intros Hok1. apply write_well; [done|].
  intros c t m r _ Hp _. destruct (Ha dir Ed) as [H1 H2]. rewrite (skill_path dir) in Hp; done.
Qed.

Lemma flat_map_none {A B} (f : A -> list B) l : (forall x, x ∈ l -> f x = []) -> flat_map f l = [].
Proof.
  induction l as [|x l IH]; intros Hf; [done|]. cbn [flat_map]. rewrite Hf by apply list_elem_of_here. apply IH. intros y Hy. by apply Hf, list_elem_of_further.
Qed.

Lemma prune_skills_well dir keep h :
  dir <> MEMORY_ROOT -> starts_with (js "memory/") dir = false -> home_ok h -> well h (pruneManagedRoot dir keep h).
Proof.
  intros H1 H2 Hok. assert (flat_map (fun entry => destroys entry.1 (Some (Some entry.2)) (Some entry.2) None)
    (List.filter (prunes dir keep) (map_to_list (hm_files h))) = []) as E.
  { apply flat_map_none. intros [path n] [_ [Hs _]%andb_true_iff]%elem_of_lfilter. cbn [fst snd] in *.
    apply skill_path in Hs; [|done|done]. unfold destroys. rewrite Hs. by destruct n. }
  unfold pruneManagedRoot. rewrite E, app_nil_r.
  apply well_make; cbn; [done|by split_and!| |by left|by left|by left|by left].
  intros p c t m r [Ef _]%map_lookup_filter_Some. by left.
Qed.

(** *** The memory root *)

Lemma readRegular_looked e path h content look h' :
  home_ok h -> readRegular e path h = (content, look, h') ->
  well h h' /\ forall text c t m r, content = Some text -> look = Some (Regular c t m r) -> text = utf8_string c.
Proof.
  intros Hok. unfold readRegular. pose proof (gap_well e 0 h Hok) as Hg. pose proof (well_refl h Hok) as Hw.
  destruct (hm_files h !! path) as [[c t m r| | |]|] eqn:Ef; [destruct (MAX_HARVEST_FILE_BYTES <? _)%N|..]; intros E; simplify_eq/=;
    (split; [done|]); intros text c' t' m' r' E1 E2; try done. by eapply read_text_regular.
Qed.

Lemma prune_entry_well harvesting keep harvests entry e h :
  home_ok h -> well h (prune_entry harvesting keep harvests entry e h).2.
Proof.
  intros Hok. unfold prune_entry. set (path := memory_path entry.1).
  assert (forall look h1, home_ok h1 -> may_go path None (Some look) h1 ->
    well h1 (match rmSync e path (Some look) h1 with (inl _, h') => (inl false, h') | (inr x, h') => (@inr bool FsError x, h') end).2) as Hrm.
  { intros look h1 Hok1 Hm. pose proof (rm_well e path (Some look) h1 Hok1 Hm) as Hw. by destruct (rmSync _ _ _ h1) as [[[]|x] h2]. }
  destruct (bool_decide (entry.2 = k_link)); [by apply Hrm|].
  destruct (_ || _); [by apply well_refl|]. destruct (bool_decide (_ = MEMORY_INDEX_PATH)) eqn:Ei.
  { apply bool_decide_eq_true in Ei. apply Hrm; [done|]. rewrite Ei. by intros c t m r _ Hp. }
  destruct (readRegular e path h) as [[content look] h1] eqn:Er. apply readRegular_looked in Er as [Hw Hl]; [|done].
  destruct content as [text|]; [|done]. destruct (isUnmodifiedProjection text) eqn:Ep; [|done].
  pose proof (fun H1 => Hrm look h1 H1 (fun c t m r E Hp Hne Hb => or_introl (eq_trans (f_equal _ (eq_sym (Hl text c t m r eq_refl ltac:(by injection E)))) Ep))) as Hw2.
  destruct (rmSync e path (Some look) h1) as [[[]|x] h2]; cbn [snd] in *; (eapply well_trans; [exact Hw|]); [|done].
  intros Hok1. eapply well_trans; [by apply Hw2|]. intros Hok2. destruct harvesting; [by apply forget_well|by apply well_refl].
Qed.

Lemma prune_entries_safe harvesting keep harvests entries : home_safe any (prune_entries harvesting keep harvests entries) done_any.
Proof.
  revert harvests. induction entries as [|entry entries IH]; intros harvests; [by apply safe_ret|]. cbn [prune_entries].
  apply safe_seq.
  { apply exec_safe; [done|]. intros e h Hok _. split; [by apply prune_entry_well|]. by destruct (prune_entry _ _ _ _ _ _).1. }
  intros must. apply safe_seq; [|intros _; apply IH]. destruct must; [|by apply safe_ret]. apply harvest_safe, drop_sparing.
Qed.

Lemma prune_memory_safe harvesting keep : home_safe any (pruneMemoryRoot harvesting keep) done_any.
Proof. unfold pruneMemoryRoot. apply safe_seq; [apply home_ask_safe|]. intros entries. apply prune_entries_safe. Qed.

(** *** A part of a sync *)

Lemma sync_safe harvesting skillsDir item : apart skillsDir -> home_safe any (applyHomeSync harvesting skillsDir item) done_any.
Proof.
  intros Ha. unfold applyHomeSync.
  apply safe_seq; [apply alter_safe; intros _ h Hok; destruct (_ =? _)%nat; [by apply chunks_well|by apply well_refl]|]. intros _.
  apply safe_seq; [apply each_safe; intros blob _|intros _].
  { apply exec_safe; [done|]. intros e h Hok _. split; [by apply blob_well|]. by destruct (writeBlob _ _ _ _ h).1. }
  apply safe_seq; [apply each_safe; intros file _; apply sync_file_safe|intros _].
  destruct (_ =? _)%nat; [|by apply safe_ret].
  apply safe_seq; [|intros _; apply safe_seq; [apply prune_memory_safe|intros _; apply alter_safe; intros _ h; apply post_well]].
  destruct (truthy skillsDir) as [dir|] eqn:Ed; [|by apply safe_ret]. destruct (Ha dir Ed) as [H1 H2].
  apply alter_safe. intros _ h. by apply prune_skills_well.
Qed.

(** ** Runs *)

Lemma agent_safe a : home_safe any (agent_does a) done_any.
Proof. apply alter_safe. intros _ h. apply agent_well. Qed.

(** What runs, the agent included. *)
Inductive home_program : sprog () -> Prop :=
| hp_sync harvesting skillsDir item : apart skillsDir -> home_program (applyHomeSync harvesting skillsDir item)
| hp_pass : home_program pass
| hp_boot corrupt : home_program (boot corrupt)
| hp_agent a : home_program (agent_does a).

Definition bare_home : Home := mkHome ∅ [] ∅ ∅ ∅ ∅ ∅ ∅ [] [] [] true.

Lemma bare_ok : home_ok bare_home.
Proof. constructor; cbn; try (by intros *; rewrite lookup_empty); [by intros ? ? ?%elem_of_nil|by intros ? ?%elem_of_nil]. Qed.

Lemma program_startable h p : home_program p -> startable home_ok grows h p.
Proof.
  intros [harvesting skillsDir item Ha| |corrupt|a]; apply startable_any.
  - by apply sync_safe.
  - apply pass_safe.
  - apply boot_safe.
  - by apply agent_safe.
Qed.

End Safe.
