(* ===== verification/MemoryFlow.v ===== *)
(** * A file's way to the platform and back

    What the agent writes in a memory file, harvested and saved, is the memory
    the platform renders, and the rendering reads back to what was written:
    [memory-harvest.ts], the file door of
    [packages/api/src/services/platform-tool-service.ts] and
    [agent-memory-service.ts] composed with the file format. *)
From S2P Require Import Prelude PolicyTypes JsJson Catalog JsBytes Programs MemoryFile MemoryFileSpec MemoryService MemoryHistory MemoryRuns.
Local Open Scope Z_scope.

Section Flow.
Context `{Sha256}.

(** ** The file door *)

Record ToolIdentity := mkIdentity {
  ti_agentId : jsstr;
  ti_workspaceId : jsstr;
}.

Record WriteResponse := mkResponse {
  rp_ok : bool;
  rp_retryable : bool;
  rp_saved : option SaveResult;
}.

(** The identity is resolved, the token taken and the author verified before;
    the audit of a save follows it. *)
Definition executeMemoryFileWrite (identity : option ToolIdentity) (allowed : bool) (author : MemoryAuthor) (request : MemoryInput) :
    mprog WriteResponse :=
  match identity with
  | None => mret (mkResponse false false None)
  | Some i =>
      if allowed then
        catch (saved ← saveMemoryFromFile (ti_workspaceId i) (ti_agentId i) request author; mret (mkResponse true false (Some saved)))
          (fun x => match x with
                    | Refused _ => mret (mkResponse false false None)
                    | _ => mret (mkResponse false true None)
                    end)
      else mret (mkResponse false true None)
  end.

(** What the harvester sends of a file. *)
Definition frame_input (key raw : jsstr) : MemoryInput :=
  let parsed := parseMemoryFile raw in
  mkInput key (pm_content parsed) (take MEMORY_TITLE_MAX_LENGTH <$> pm_title parsed)
    (take MEMORY_DESCRIPTION_MAX_LENGTH <$> pm_description parsed).

(** What the service makes of it. *)
Definition file_input (input : MemoryInput) : MemoryInput :=
  mkInput (in_key input) (trim (in_content input)) (truthy (flattenToLine <$> in_title input))
    (truthy (flattenToLine <$> in_description input)).

(** ** Statements that succeed *)

Definition fresh_moments (es : nat -> MemoryEnv) (db : MemoryDb) : Prop :=
  forall n, (env_memoryId (es n) ∉ db_issued db) /\ (env_revisionId (es n) ∉ db_issued db) /\ env_memoryId (es n) <> env_revisionId (es n).

Definition hosted_agent (ws a : jsstr) (db : MemoryDb) : Prop :=
  exists agent, List.find (fun x => bool_decide (ha_id x = a) && bool_decide (ha_workspaceId x = ws)) (db_agents db) = Some agent /\
    ha_kind agent = js "hosted".

Lemma require_run es ws a db : hosted_agent ws a db -> exists agent, run es (requireHostedAgent ws a) db = (inl agent, db).
Proof.
  intros (agent & Hf & Hk). exists agent. unfold requireHostedAgent. rewrite run_ask. rewrite Hf, bool_decide_true by done. done.
Qed.

Lemma append_some e mid seq st op from au db :
  env_revisionId e ∉ db_issued db -> (forall r, r ∈ db_revisions db -> ~ (rv_memoryId r = mid /\ rv_seq r = seq)) ->
  exists db', appendRevision e mid seq st op from au db = Some db' /\ db_memories db' = db_memories db.
Proof.
  intros Hi Hn. unfold appendRevision. rewrite bool_decide_false by done. cbn [orb].
  destruct (existsb _ _) eqn:Ex; [|by eexists]. apply existsb_In in Ex as (r & Hr & [E1%bool_decide_eq_true E2%Z.eqb_eq]%andb_true_iff).
  by destruct (Hn r Hr).
Qed.

Lemma apply_run es mid st op from au db m :
  db_ok db -> fresh_moments es db -> m ∈ db_memories db -> me_id m = mid ->
  exists db', run es (applyState mid st op from au) db = (inl (set_head mid st m), db') /\
    db_memories db' = map (set_head mid st) (db_memories db).
Proof.
  intros Hok Hes Hm <-. unfold applyState, apply_tx. rewrite run_exec.
  assert (List.find (fun x => bool_decide (me_id x = me_id m)) (db_memories db) = Some m) as ->.
  { destruct (List.find _ _) as [m'|] eqn:Hf.
    - apply find_elem in Hf as [Hm' E%bool_decide_eq_true]. f_equal.
      apply (NoDup_fmap_elem_eq me_id (db_memories db)); [apply (ok_ids _ Hok)|done..].
    - pose proof (find_none _ _ Hf m (proj1 (list_elem_of_In _ _) Hm)) as E. cbn beta in E. by rewrite bool_decide_true in E. }
  cbv zeta. destruct (append_some (es 0%nat) (me_id m) (me_lastRevisionSeq (set_head (me_id m) st m)) st op from au
    (mkDb (db_agents db) (map (set_head (me_id m) st) (db_memories db)) (db_revisions db) (db_issued db) (db_bumps db))) as (db' & -> & Emem).
  - apply Hes.
  - intros r Hr [E1 E2]. unfold set_head in E2. rewrite bool_decide_true in E2 by done. cbn in E2.
    destruct (proj1 (ok_span _ Hok m (rv_seq r) Hm)) as [_ ?]; [by exists r|lia].
  - eexists. split; [reflexivity|]. by cbn in *.
Qed.

Lemma creation_run es a key st au db :
  db_ok db -> fresh_moments es db -> find_key a key db = None ->
  exists m db', run es (memory ← create_tx a key st au; bumpHomeForAgent a;; mret memory) db = (inl m, db') /\
    m = mkRow (env_memoryId (es 0%nat)) a key st 1 /\ db_memories db' = db_memories db ++ [m].
Proof.
  intros Hok Hes Hnone. unfold create_tx. rewrite run_exec. destruct (Hes 0%nat) as (Hi & Hr & Hne).
  rewrite bool_decide_false by done. cbn [orb].
  assert (existsb (fun m => bool_decide (me_agentId m = a) && bool_decide (me_key m = key)) (db_memories db) = false) as ->.
  { apply not_true_iff_false. intros (m & Hm & Hb)%existsb_In. unfold find_key in Hnone.
    pose proof (find_none _ _ Hnone m (proj1 (list_elem_of_In _ _) Hm)) as E. cbn beta in E. by rewrite Hb in E. }
  cbv zeta. set (m := mkRow _ _ _ _ _).
  destruct (append_some (es 0%nat) (env_memoryId (es 0%nat)) 1 st op_save None au
    (mkDb (db_agents db) (db_memories db ++ [m]) (db_revisions db) (db_issued db ++ [env_memoryId (es 0%nat)]) (db_bumps db))) as (db' & -> & Emem).
  - cbn. rewrite elem_of_app, list_elem_of_singleton. intros [?|?]; [done|congruence].
  - intros r Hin [E _]. cbn in Hin. destruct (ok_owned _ Hok r Hin) as (m' & Hm' & E'). apply Hi. rewrite <- E, <- E'.
    by apply (ok_issued _ Hok).
  - exists m. eexists. split; [reflexivity|]. by cbn in *.
Qed.

(** ** The tables as a map from keys *)

Lemma find_map {A} (P : A -> bool) (f : A -> A) l : (forall x, P (f x) = P x) -> List.find P (map f l) = f <$> List.find P l.
Proof. intros Hf. induction l as [|x l IH]; [done|]. cbn. rewrite Hf. by destruct (P x). Qed.

Lemma find_snoc {A} (P : A -> bool) l x :
  List.find P (l ++ [x]) = match List.find P l with Some y => Some y | None => if P x then Some x else None end.
Proof. induction l as [|y l IH]; [done|]. cbn. by destruct (P y). Qed.

(** The memory of a key, and those of the others, after a save. *)
Definition stored (a key : jsstr) (m : MemoryRow) (db db' : MemoryDb) : Prop :=
  find_key a key db' = Some m /\ forall a2 key2, (a2, key2) <> (a, key) -> find_key a2 key2 db' = find_key a2 key2 db.

Lemma stored_set a key m st db db' :
  db_ok db -> find_key a key db = Some m -> db_memories db' = map (set_head (me_id m) st) (db_memories db) ->
  stored a key (set_head (me_id m) st m) db db'.
Proof.
  intros Hok Hf Em.
  assert (forall a2 key2, find_key a2 key2 db' = set_head (me_id m) st <$> find_key a2 key2 db) as E.
  { intros a2 key2. unfold find_key. rewrite Em. apply find_map. intros x. pose proof (set_head_key (me_id m) st x) as Ex.
    injection Ex as -> ->. done. }
  split; [by rewrite E, Hf|]. intros a2 key2 Hne. rewrite E. destruct (find_key a2 key2 db) as [x|] eqn:Hx; [|done].
  cbn. f_equal. unfold set_head. destruct (bool_decide (me_id x = me_id m)) eqn:Eid; [|done]. exfalso. apply Hne.
  apply bool_decide_eq_true in Eid. apply find_elem in Hx as [Hx [<-%bool_decide_eq_true <-%bool_decide_eq_true]%andb_true_iff].
  apply find_elem in Hf as [Hm [<-%bool_decide_eq_true <-%bool_decide_eq_true]%andb_true_iff].
  by rewrite (NoDup_fmap_elem_eq me_id (db_memories db) x m (ok_ids _ Hok) Hx Hm Eid).
Qed.

Lemma stored_new a key m db db' :
  find_key a key db = None -> me_agentId m = a -> me_key m = key -> db_memories db' = db_memories db ++ [m] -> stored a key m db db'.
Proof.
  intros Hf Ea Ek Em. unfold stored, find_key in *. rewrite Em. split.
  - rewrite find_snoc, Hf. by rewrite !bool_decide_true.
  - intros a2 key2 Hne. rewrite find_snoc. clear Hf. destruct (List.find _ _); [done|]. destruct (_ && _) eqn:E; [|done].
    apply andb_true_iff in E as [<-%bool_decide_eq_true <-%bool_decide_eq_true]. congruence.
Qed.

(** ** A save from a file *)

Definition no_state : MemoryState := mkState None None [].

(** The state a save leaves. *)
Definition next_state (a : jsstr) (input : MemoryInput) (db : MemoryDb) : MemoryState :=
  merged input (match find_key a (in_key input) db with Some m => me_state m | None => no_state end).

Lemma fresh_later es db n : fresh_moments es db -> fresh_moments (fun m => es (n + m)%nat) db.
Proof. intros Hes m. apply Hes. Qed.

Lemma overwrite_run es a input au db m :
  db_ok db -> fresh_moments es db -> find_key a (in_key input) db = Some m ->
  memoryFileFitsFrame (fields_of (in_key input) (next_state a input db)) = true ->
  exists saved db', run es (overwrite a input au) db = (inl (Some saved), db') /\
    stored a (in_key input) (sr_memory saved) db db' /\ me_state (sr_memory saved) = next_state a input db.
Proof.
  intros Hok Hes Hf Hfit. unfold overwrite. rewrite run_ask, Hf. unfold next_state in *. rewrite Hf in *.
  destruct (isNoOp _ _) eqn:En.
  { apply bool_decide_eq_true in En. exists (mkSaved m false true), db. cbn [sr_memory]. split_and!; [done|by split|done]. }
  unfold assertProjectable. rewrite Hfit. pose proof Hf as Hf'. apply find_elem in Hf' as [Hm _].
  destruct (apply_run (later_moments es) (me_id m) (merged input (me_state m)) op_save None au db m) as (db' & Hrun & Em);
    [done|by apply (fresh_later es db 1)|done|done|].
  destruct (run_bind _ _ (fun memory => mret (Some (mkSaved memory false false))) _ _ _ Hrun) as [n En2].
  exists (mkSaved (set_head (me_id m) (merged input (me_state m)) m) false false), db'.
  split_and!; [exact En2|by apply stored_set|]. cbn. unfold set_head. by rewrite bool_decide_true.
Qed.

Lemma createMemory_run es ws a input au db :
  db_ok db -> fresh_moments es db -> hosted_agent ws a db -> find_key a (in_key input) db = None ->
  (length (List.filter (fun m => bool_decide (me_agentId m = a)) (db_memories db)) < MAX_MEMORIES_PER_AGENT)%nat ->
  memoryFileFitsFrame (fields_of (in_key input) (next_state a input db)) = true ->
  exists m db', run es (createMemory ws a input au) db = (inl m, db') /\ stored a (in_key input) m db db' /\ me_state m = next_state a input db.
Proof.
  intros Hok Hes Hag Hnone Hcap Hfit. unfold createMemory.
  destruct (require_run es ws a db Hag) as [agent Hreq].
  match goal with |- context [requireHostedAgent ws a ≫= ?g] => destruct (run_bind es _ g db _ _ Hreq) as [n ->] end.
  rewrite run_ask. apply Nat.leb_gt in Hcap. rewrite Hcap.
  assert (next_state a input db = mkState (in_title input) (in_description input) (in_content input)) as Enext.
  { unfold next_state, merged. rewrite Hnone. by destruct (in_title input), (in_description input). }
  rewrite Enext in *. unfold assertProjectable. rewrite Hfit.
  destruct (creation_run (later_moments (fun m => es (n + m)%nat)) a (in_key input)
    (mkState (in_title input) (in_description input) (in_content input)) au db) as (m & db' & Hrun & Em & Emem);
    [done|by apply (fresh_later (fun m => es (n + m)%nat) db 1), fresh_later|done|].
  exists m, db'. split_and!; [|apply stored_new; [done|by rewrite Em..|done]|by rewrite Em].
  cbn [mret prog_ret mbind prog_bind prog_bind_def run]. by apply run_catch.
Qed.

Lemma upsert_run es ws a input au db :
  db_ok db -> fresh_moments es db -> hosted_agent ws a db ->
  (find_key a (in_key input) db = None ->
     (length (List.filter (fun m => bool_decide (me_agentId m = a)) (db_memories db)) < MAX_MEMORIES_PER_AGENT)%nat) ->
  memoryFileFitsFrame (fields_of (in_key input) (next_state a input db)) = true ->
  exists saved db', run es (upsertMemoryByKey ws a input au) db = (inl saved, db') /\
    stored a (in_key input) (sr_memory saved) db db' /\ me_state (sr_memory saved) = next_state a input db.
Proof.
  intros Hok Hes Hag Hcap Hfit. unfold upsertMemoryByKey.
  destruct (require_run es ws a db Hag) as [agent Hreq].
  match goal with |- context [requireHostedAgent ws a ≫= ?g] => destruct (run_bind es _ g db _ _ Hreq) as [n ->] end.
  apply (fresh_later es db n) in Hes. set (es1 := fun m => es (n + m)%nat) in *.
  destruct (find_key a (in_key input) db) as [m|] eqn:Hf.
  - destruct (overwrite_run es1 a input au db m) as (saved & db' & Hrun & Hs & Est); [done..|].
    match goal with |- context [overwrite a input au ≫= ?g] => destruct (run_bind es1 _ g db _ _ Hrun) as [n2 ->] end.
    exists saved, db'. by split_and!.
  - assert (run es1 (overwrite a input au) db = (inl None, db)) as Hrun by (unfold overwrite; by rewrite run_ask, Hf).
    match goal with |- context [overwrite a input au ≫= ?g] => destruct (run_bind es1 _ g db _ _ Hrun) as [n2 ->] end.
    destruct (createMemory_run (fun m => es1 (n2 + m)%nat) ws a input au db) as (m & db' & Hcr & Hs & Est);
      [done|by apply fresh_later|done|done|by apply Hcap|done|].
    destruct (run_bind _ _ (fun memory => mret (mkSaved memory true false)) _ _ _ Hcr) as [n3 Hn].
    exists (mkSaved m true false), db'. split_and!; [|done|done]. apply run_catch. exact Hn.
Qed.

Lemma save_run es ws a input au db :
  db_ok db -> fresh_moments es db -> hosted_agent ws a db ->
  trim (in_content input) <> [] -> (length_of (trim (in_content input)) <= MEMORY_FILE_CONTENT_MAX_CHARS)%N ->
  (find_key a (in_key input) db = None ->
     (length (List.filter (fun m => bool_decide (me_agentId m = a)) (db_memories db)) < MAX_MEMORIES_PER_AGENT)%nat) ->
  memoryFileFitsFrame (fields_of (in_key input) (next_state a (file_input input) db)) = true ->
  exists saved db', run es (saveMemoryFromFile ws a input au) db = (inl saved, db') /\
    stored a (in_key input) (sr_memory saved) db db' /\ me_state (sr_memory saved) = next_state a (file_input input) db.
Proof.
  intros Hok Hes Hag Hne Hlen Hcap Hfit. unfold saveMemoryFromFile.
  assert ((length (trim (in_content input)) =? 0)%nat = false) as -> by (by destruct (trim (in_content input))).
  assert ((MEMORY_FILE_CONTENT_MAX_CHARS <? length_of (trim (in_content input)))%N = false) as -> by (by apply N.ltb_ge).
  exact (upsert_run es ws a (file_input input) au db Hok Hes Hag Hcap Hfit).
Qed.

(** ** What a file parses to *)

Definition lines_ok (fields : MemoryFields) : Prop := line_ok fields.1 /\ line_ok fields.2.

Lemma set_field_ok name value fields : lines_ok fields -> lines_ok (set_field name value fields).
Proof.
  intros [H1 H2]. unfold set_field. pose proof (flatten_idem value) as Hi. destruct (flattenToLine value) as [|c s] eqn:E; [by split|].
  destruct name; (split; [|]); cbn; try done; intros v [= <-]; (split; [done|done]).
Qed.

Lemma read_fields_ok skip fields lines : lines_ok fields -> lines_ok (read_fields skip fields lines).
Proof.
  revert skip fields. induction lines as [|line lines IH]; intros skip fields Hf; [done|]. cbn [read_fields]. destruct skip; [|by apply IH].
  destruct (field_line line) as [[name group]|]; [|by apply IH]. destruct (is_block_scalar _); apply IH; by apply set_field_ok.
Qed.

Lemma parsed_lines_ok raw :
  line_ok (pm_title (parseMemoryFile raw)) /\ line_ok (pm_description (parseMemoryFile raw)) /\
  trim (pm_content (parseMemoryFile raw)) = pm_content (parseMemoryFile raw).
Proof.
  unfold parseMemoryFile, frontmatter.
  destruct (split_on _ _) as [|first rest]; [split_and!; [done|done|apply trim_idem]|].
  destruct (if is_fence first then break_fence rest else None) as [[front body]|]; cbn [pm_title pm_description pm_content fst snd].
  - assert (lines_ok (read_fields 0 (None, None) front)) as [? ?] by by apply read_fields_ok. split_and!; [done|done|apply trim_idem].
  - split_and!; [done|done|apply trim_idem].
Qed.

(** A clipped label is still a label. *)
Lemma clip_stable n t : (0 < n)%nat -> line_stable t -> flattenToLine (take n t) <> [].
Proof.
  intros Hn [Hf Hne]. pose proof (flatten_line t) as Hl. pose proof (flatten_trim t) as Ht. rewrite Hf in Hl, Ht.
  destruct t as [|c t]; [done|]. destruct n as [|n]; [lia|]. apply trimmed_ends in Ht as [Ho _].
  apply Forall_cons in Hl as [Hc _]. apply andb_true_iff in Hc as [Hk Hnl]. apply negb_true_iff in Hnl.
  unfold flattenToLine, stripControl. cbn [take List.filter]. rewrite Hk. cbn [replace_all flat_map]. rewrite Hnl. cbn [app].
  destruct (trim_cons c (flat_map (fun x => if (x =? ch_nl)%N then js " " else [x]) (List.filter kept_char (take n t))) Ho) as [k E].
  unfold replace_all in *. by rewrite E.
Qed.

(** What a save makes of a label of the file: it is clipped, and a label the
    file does not have is kept. *)
Definition label (n : nat) (written : option jsstr) (prior : option jsstr) : option jsstr :=
  match written with Some t => Some (flattenToLine (take n t)) | None => prior end.

Lemma label_file n written :
  (0 < n)%nat -> line_ok written -> truthy (flattenToLine <$> (take n <$> written)) = match written with Some t => Some (flattenToLine (take n t)) | None => None end.
Proof.
  intros Hn Hw. destruct written as [t|]; [|done]. cbn [fmap option_fmap option_map truthy]. pose proof (clip_stable n t Hn (Hw t eq_refl)) as Hne.
  by destruct (flattenToLine (take n t)).
Qed.

Lemma file_input_ok input :
  MEMORY_KEY_PATTERN (in_key input) = true -> trim (in_content input) <> [] -> input_ok (file_input input).
Proof.
  intros Hk Hne. assert (forall t, line_ok (truthy (flattenToLine <$> t))) as Hl by (intros [t|] v; [apply truthy_flatten|done]).
  split_and!; cbn; [done|apply Hl|apply Hl|apply trim_idem|done].
Qed.

Lemma next_ok a input db : db_ok db -> input_ok input -> renderable (fields_of (in_key input) (next_state a input db)).
Proof.
  intros Hok Hin. unfold next_state. destruct (find_key a (in_key input) db) as [m|] eqn:Hf.
  - apply find_elem in Hf as [Hm _]. destruct (found_ok db m Hok Hm) as [_ Hst].
    by apply (merged_state input (me_state m) (me_key m)).
  - destruct (input_state input Hin) as [Hr _]. unfold merged, no_state in *. by destruct (in_title input), (in_description input).
Qed.

(** C34: A memory file the agent writes, harvested and saved with nothing else
    running, is stored under its name with its content and its labels, other
    memories untouched, and the file the platform renders of it is untouched.
    The file must have some content within the limit and a name of the key's
    pattern, its memory must fit a frame of the projection, the writer must be a
    hosted agent's sandbox, and an agent who gains a memory by it must be below
    the cap; the tables keep their invariant and identifiers are fresh. The rendered file reads back to what was stored unless the format
    cannot carry it: a label that is [---], or a CR LF in the content. *)
Theorem file_comes_back es ws a key raw au db :
  let written := parseMemoryFile raw in
  let input := frame_input key raw in
  let prior := match find_key a key db with Some m => me_state m | None => no_state end in
  let state := mkState (label MEMORY_TITLE_MAX_LENGTH (pm_title written) (st_title prior))
                 (label MEMORY_DESCRIPTION_MAX_LENGTH (pm_description written) (st_description prior)) (pm_content written) in
  db_ok db -> fresh_moments es db -> hosted_agent ws a db -> MEMORY_KEY_PATTERN key = true ->
  pm_content written <> [] -> (length_of (pm_content written) <= MEMORY_FILE_CONTENT_MAX_CHARS)%N ->
  (find_key a key db = None ->
     (length (List.filter (fun m => bool_decide (me_agentId m = a)) (db_memories db)) < MAX_MEMORIES_PER_AGENT)%nat) ->
  memoryFileFitsFrame (fields_of key state) = true ->
  exists saved db',
    run es (executeMemoryFileWrite (Some (mkIdentity a ws)) true au input) db = (inl (mkResponse true false (Some saved)), db') /\
    stored a key (sr_memory saved) db db' /\ me_state (sr_memory saved) = state /\
    isUnmodifiedProjection (renderMemoryFile (fields_of key state)) = true /\
    (carried (fields_of key state) ->
       parseMemoryFile (renderMemoryFile (fields_of key state)) = mkParsed (st_title state) (st_description state) (pm_content written)).
Proof.
  intros written input prior state Hok Hes Hag Hk Hne Hlen Hcap Hfit. destruct (parsed_lines_ok raw) as (Ht & Hd & Hc).
  assert (trim (in_content input) = pm_content written) as Etr by exact Hc.
  assert (next_state a (file_input input) db = state) as Enext.
  { unfold next_state, merged, file_input, input, frame_input. cbn [in_key in_title in_description in_content].
    rewrite !label_file by (done || (unfold MEMORY_TITLE_MAX_LENGTH, MEMORY_DESCRIPTION_MAX_LENGTH; lia)). rewrite Hc.
    subst state written. unfold label. by destruct (pm_title _), (pm_description _). }
  destruct (save_run es ws a input au db) as (saved & db' & Hrun & Hs & Est); [done|done|done|by rewrite Etr|by rewrite Etr|done|by rewrite Enext|].
  exists saved, db'. rewrite Enext in Est.
  assert (renderable (fields_of key state)) as Hr.
  { rewrite <- Enext. apply (next_ok a (file_input input) db Hok). apply file_input_ok; [done|]. by rewrite Etr. }
  split_and!; [|done|done|by apply unmodified_render, eq_refl; [|apply sha_checksum]|intros Hcar; unfold renderMemoryFile; by rewrite parse_render by (done || apply sha_checksum)].
  cbn [executeMemoryFileWrite ti_workspaceId ti_agentId]. apply run_catch.
  by destruct (run_bind _ _ (fun saved => mret (mkResponse true false (Some saved))) _ _ _ Hrun) as [n ->].
Qed.
End Flow.

(** ** Pacing

    [sandboxPacer] of [platform-tool-service.ts], a token bucket per sandbox.
    Tokens are counted in exact units, a token being [1000 * den] of them when
    [num / den] tokens come back each second; the source's doubles agree up to
    their rounding. *)

Record Pacer := mkPacer {
  capacity : Z;
  refill_num : Z;
  refill_den : Z;
}.

Definition memoryWritePacer : Pacer := mkPacer 20 1 2.
Definition skillImportPacer : Pacer := mkPacer 5 1 20.

Record Bucket := mkBucket {
  bk_tokens : Z;
  bk_last : Z;
}.

Section Pace.
Context (p : Pacer).

Definition unit_of : Z := 1000 * refill_den p.

Definition bucket_of (sandboxId : jsstr) (now : Z) (buckets : gmap jsstr Bucket) : Bucket :=
  default (mkBucket (capacity p * unit_of) now) (buckets !! sandboxId).

Definition take_token (sandboxId : jsstr) (now : Z) (buckets : gmap jsstr Bucket) : bool * gmap jsstr Bucket :=
  let bucket := bucket_of sandboxId now buckets in
  let elapsedMs := Z.max 0 (now - bk_last bucket) in
  let tokens := Z.min (capacity p * unit_of) (bk_tokens bucket + elapsedMs * refill_num p) in
  let allowed := unit_of <=? tokens in
  let tokens := if allowed then tokens - unit_of else tokens in
  (allowed,
   if capacity p * unit_of <=? tokens then delete sandboxId buckets else <[sandboxId := mkBucket tokens now]> buckets).

(** The calls for one sandbox, one after another, others' calls in between
    touching nothing of it. *)
Fixpoint take_tokens (sandboxId : jsstr) (nows : list Z) (buckets : gmap jsstr Bucket) : nat * gmap jsstr Bucket :=
  match nows with
  | [] => (0%nat, buckets)
  | now :: nows' =>
      let '(allowed, buckets1) := take_token sandboxId now buckets in
      let '(n, buckets2) := take_tokens sandboxId nows' buckets1 in
      ((if allowed then S n else n), buckets2)
  end.

(** How far a clock went forward, steps back not counting. *)
Fixpoint forward (last : Z) (nows : list Z) : Z :=
  match nows with [] => 0 | now :: nows' => Z.max 0 (now - last) + forward now nows' end.

Definition paced_ok : Prop := 1 <= capacity p /\ 0 <= refill_num p /\ 0 < refill_den p.

(** A bucket holds between nothing and its capacity, and is always kept: the
    eviction of a full one never happens, since a call that leaves it full
    would have taken a token from it. *)
Lemma take_spec sandboxId now buckets :
  paced_ok -> 0 <= bk_tokens (bucket_of sandboxId now buckets) <= capacity p * unit_of ->
  let '(allowed, buckets') := take_token sandboxId now buckets in
  exists tokens, buckets' = <[sandboxId := mkBucket tokens now]> buckets /\ 0 <= tokens < capacity p * unit_of /\
    tokens + (if allowed then unit_of else 0) <=
      bk_tokens (bucket_of sandboxId now buckets) + Z.max 0 (now - bk_last (bucket_of sandboxId now buckets)) * refill_num p.
Proof.
  intros (Hc & Hn & Hd) Hb. unfold take_token. set (b := bucket_of sandboxId now buckets) in *.
  assert (0 < unit_of) as Hu by (unfold unit_of; lia).
  assert (0 <= Z.max 0 (now - bk_last b) * refill_num p) as He by nia.
  assert (unit_of <= capacity p * unit_of) as Hcu by nia.
  set (tokens := Z.min _ _). assert (0 <= tokens <= capacity p * unit_of) as Ht by (subst tokens; lia).
  assert (tokens <= bk_tokens b + Z.max 0 (now - bk_last b) * refill_num p) as Hle by (subst tokens; lia).
  destruct (Z.leb_spec unit_of tokens).
  - destruct (Z.leb_spec (capacity p * unit_of) (tokens - unit_of)); [lia|]. exists (tokens - unit_of). split_and!; [done|lia..].
  - destruct (Z.leb_spec (capacity p * unit_of) tokens); [lia|]. exists tokens. split_and!; [done|lia..].
Qed.

Lemma take_all sandboxId nows buckets b :
  paced_ok -> buckets !! sandboxId = Some b -> 0 <= bk_tokens b < capacity p * unit_of ->
  Z.of_nat (take_tokens sandboxId nows buckets).1 * unit_of <= bk_tokens b + forward (bk_last b) nows * refill_num p.
Proof.
  intros Hp. revert buckets b. induction nows as [|now nows IH]; intros buckets b Eb Hb; cbn [take_tokens forward]; [cbn; lia|].
  assert (bucket_of sandboxId now buckets = b) as E by (unfold bucket_of; by rewrite Eb).
  pose proof (take_spec sandboxId now buckets Hp) as Hs. rewrite E in Hs. specialize (Hs ltac:(lia)).
  destruct (take_token sandboxId now buckets) as [allowed buckets1]. destruct Hs as (tokens & -> & Ht & Hle).
  specialize (IH _ _ (lookup_insert_eq buckets sandboxId (mkBucket tokens now)) Ht). cbn [bk_tokens bk_last] in IH.
  destruct (take_tokens _ _ _) as [n buckets2]. cbn [fst] in *. destruct allowed; lia.
Qed.

(** However often a sandbox knocks, it is let through at most a full bucket's
    worth of times and what came back while the clock went forward. *)
Theorem paced sandboxId now nows buckets :
  paced_ok -> buckets !! sandboxId = None ->
  Z.of_nat (take_tokens sandboxId (now :: nows) buckets).1 * unit_of <= capacity p * unit_of + forward now nows * refill_num p.
Proof.
  intros Hp En. cbn [take_tokens].
  assert (bucket_of sandboxId now buckets = mkBucket (capacity p * unit_of) now) as E by (unfold bucket_of; by rewrite En).
  pose proof (take_spec sandboxId now buckets Hp) as Hs. rewrite E in Hs. cbn [bk_tokens bk_last] in Hs.
  destruct Hp as (Hc & Hn & Hd). assert (0 < unit_of) as Hu by (unfold unit_of; lia). specialize (Hs ltac:(nia)).
  destruct (take_token sandboxId now buckets) as [allowed buckets1]. destruct Hs as (tokens & -> & Ht & Hle).
  pose proof (take_all sandboxId nows _ _ (conj Hc (conj Hn Hd)) (lookup_insert_eq buckets sandboxId (mkBucket tokens now)) Ht) as Ha.
  cbn [bk_tokens bk_last] in Ha. destruct (take_tokens _ _ _) as [n buckets2]. cbn [fst] in *. rewrite Z.sub_diag in Hle. destruct allowed; lia.
Qed.
End Pace.

Lemma paced_witness : exists n, (take_tokens memoryWritePacer (js "s1") (replicate 25 0 ++ [4000; 4000; 4000]) ∅).1 = n /\ n = 22%nat /\
  Z.of_nat n * 2000 <= 20 * 2000 + 4000 * 1.
Proof.
  exists 22%nat. split_and!; [by vm_compute|done|].
  pose proof (paced memoryWritePacer (js "s1") 0 (replicate 24 0 ++ [4000; 4000; 4000]) ∅ ltac:(by repeat split) (lookup_empty _)) as H.
  vm_compute in H |- *. exact H.
Defined.

(** An idle sandbox's bucket stays in the map. *)
Lemma bucket_kept p sandboxId now buckets :
  paced_ok p -> 0 <= bk_tokens (bucket_of p sandboxId now buckets) <= capacity p * unit_of p ->
  is_Some ((take_token p sandboxId now buckets).2 !! sandboxId).
Proof.
  intros Hp Hb. pose proof (take_spec p sandboxId now buckets Hp Hb) as Hs. destruct (take_token _ _ _ _) as [allowed b'].
  destruct Hs as (tokens & -> & _). cbn. rewrite lookup_insert_eq. by eexists.
Qed.
