(* ===== verification/MemorySample.v ===== *)
(** * Memories on concrete inputs

    A digest that only knows the length, a memory saved, restored over and
    after_redaction, and three behaviours the code does not mean to have. *)
From S2P Require Import Prelude PolicyTypes JsJson Catalog JsBytes Programs MemoryFile MemoryFileSpec MemoryService MemoryHistory MemoryRuns MemoryFlow MemorySync MemorySyncSafe.
Local Open Scope Z_scope.

#[export] Program Instance length_sha : Sha256 := {| sha256_digest := fun l => replicate 32 (N.of_nat (length l) mod 256)%N |}.
Next Obligation. intros l. apply Forall_replicate. by apply N.mod_lt. Qed.
Next Obligation. intros l. apply length_replicate. Qed.

Definition deploy_notes : MemoryFileFields :=
  mkMemory (js "deploy-notes") (Some (js "Deploys")) None (js "Run the smoke test first.").

Lemma memory_roundtrip_witness :
  let file := renderMemoryFile deploy_notes in
  isUnmodifiedProjection file = true /\ isUnmodifiedProjection (file ++ js "More.") = false /\
  parseMemoryFile file = mkParsed (Some (js "Deploys")) None (js "Run the smoke test first.").
Proof.
  assert (renderable deploy_notes) as Hm.
  { split_and!; [by vm_compute| |done|by vm_compute]. intros t [= <-]. split; [by vm_compute|done]. }
  assert (carried deploy_notes) as Hf by (split_and!; by vm_compute).
  destruct (memory_roundtrip deploy_notes (sha256Hex (renderWithChecksum deploy_notes CHECKSUM_PLACEHOLDER)) Hm (sha_checksum _)) as [[_ Hu] Hp].
  split_and!; [by apply Hu|by vm_compute|by apply Hp].
Defined.

(** ** Requests *)

Definition sample_ws : jsstr := js "w1".
Definition sample_agent : jsstr := js "a1".
Definition sample_agents : list HostedAgent := [mkHosted sample_agent sample_ws (js "hosted")].
Definition someone : MemoryAuthor := mkAuthor (js "user") (Some (js "u1")) None None None.

Definition moment (i : jsstr) (n : Z) : MemoryEnv := mkEnv (js "m" ++ i) (js "r" ++ i) n.

(** The statements a schedule names, from moment [n] on, with a fresh
    identifier each. *)
Definition schedule (n : nat) (order : list nat) : list (nat * MemoryEnv) :=
  imap (fun k i => (i, moment [N.of_nat (48 + n + k)] (Z.of_nat (n + k)))) order.

Definition done_with {A} (p : mprog A) : mprog () := p;; mret ().

Definition saving (content : jsstr) : MemoryInput := mkInput (js "notes") content None None.

(** A memory is created, then saved from its file. *)
Definition writers : list (mprog ()) :=
  [done_with (createMemory sample_ws sample_agent (saving (js "v1")) someone);
   done_with (saveMemoryFromFile sample_ws sample_agent (saving (js "v2")) someone)].

Definition saved_twice := pool_exec (schedule 0 [0; 0; 0; 0; 1; 1; 1; 1]%nat) (writers, no_memories sample_agents).

(** Its first revision is redacted. *)
Definition after_redaction :=
  pool_exec (schedule 20 [2; 2; 2; 2]%nat) (saved_twice.1 ++ [done_with (redactRevision sample_ws sample_agent (js "m2") (js "r2") None)], saved_twice.2).

Definition revisions_text (db : MemoryDb) : list (jsstr * Z * jsstr) :=
  map (fun r => (rv_memoryId r, rv_seq r, st_content (rv_state r))) (db_revisions db).

Lemma redacted_contents : revisions_text after_redaction.2 = [(js "m2", 1, js "[redacted]"); (js "m2", 2, js "v2")].
Proof. vm_compute. reflexivity. Qed.

Lemma memory_history_witness :
  revisions_text after_redaction.2 = [(js "m2", 1, js "[redacted]"); (js "m2", 2, js "v2")] /\ db_ok after_redaction.2 /\ history saved_twice.2 after_redaction.2.
Proof.
  split; [exact redacted_contents|].
  apply (memory_history sample_agents saved_twice.1 saved_twice.2 after_redaction.1 after_redaction.2).
  - rewrite <- (surjective_pairing saved_twice). unfold pool_run. etrans; [|apply pool_exec_run]. apply pool_begin. intros p Hp.
    apply elem_of_cons in Hp as [->|Hp]; [|apply list_elem_of_singleton in Hp as ->].
    + apply (req_create _ sample_ws sample_agent (saving (js "v1")) (saving (js "v1"))). by vm_compute.
    + apply req_file. by vm_compute.
  - rewrite <- (surjective_pairing after_redaction). eapply rtc_l; [|apply pool_exec_run]. apply pool_start, req_redact.
    apply (proj1 (bool_decide_eq_true (js "r2" ∈ db_issued saved_twice.2))). vm_compute. reflexivity.
Defined.

(** ** A file's way *)

Definition ship_it : jsstr :=
  join [ch_nl] [js "---"; js "title: Plan"; js "owner: me"; js "---"; js "Ship it."; []].

Lemma file_comes_back_witness :
  exists saved db',
    run (fun n => moment [N.of_nat n] 0)
      (executeMemoryFileWrite (Some (mkIdentity sample_agent sample_ws)) true someone (frame_input (js "plan") ship_it)) (no_memories sample_agents) =
      (inl (mkResponse true false (Some saved)), db') /\
    stored sample_agent (js "plan") (sr_memory saved) (no_memories sample_agents) db' /\
    me_state (sr_memory saved) = mkState (Some (js "Plan")) None (js "Ship it.") /\
    parseMemoryFile (renderMemoryFile (mkMemory (js "plan") (Some (js "Plan")) None (js "Ship it."))) = mkParsed (Some (js "Plan")) None (js "Ship it.").
Proof.
  destruct (file_comes_back (fun n => moment [N.of_nat n] 0) sample_ws sample_agent (js "plan") ship_it someone (no_memories sample_agents))
    as (saved & db' & Hrun & Hs & Est & _ & Hback).
  - apply no_memories_ok.
  - intros n. split_and!; [by intros ?%elem_of_nil|by intros ?%elem_of_nil|done].
  - eexists. split; [vm_compute; reflexivity|done].
  - by vm_compute.
  - by vm_compute.
  - by vm_compute.
  - intros _. vm_compute. lia.
  - by vm_compute.
  - exists saved, db'. split_and!; [exact Hrun|exact Hs|exact Est|]. apply Hback. split_and!; by vm_compute.
Defined.

(** ** What the code does besides *)

(** A title the doors accept closes the header of its file: read back, the
    title is lost and the rest of the header is content. *)
Definition fence_title : MemoryInput := mkInput (js "notes") (js "Body") (Some (js "---")) None.

Lemma fence_becomes_content :
  createMemorySchema fence_title = Some fence_title /\
  (let parsed := parseMemoryFile (renderMemoryFile (mkMemory (in_key fence_title) (in_title fence_title) (in_description fence_title) (in_content fence_title))) in
   pm_title parsed = None /\ starts_with (js "checksum: ") (pm_content parsed) = true).
Proof. by vm_compute. Qed.

(** A patch of the title, and a save that lands between its reading and its
    writing: the save is undone. *)
Definition patch_title : mprog () :=
  done_with (updateMemory sample_ws sample_agent (js "m2") (mkPatch (Some (Some (js "Notes"))) None None) someone).

Definition crossed :=
  pool_exec (schedule 0 [0; 0; 0; 0; 2; 2; 1; 1; 1; 1; 2; 2]%nat) (writers ++ [patch_title], no_memories sample_agents).

Lemma patch_undoes_save :
  revisions_text crossed.2 = [(js "m2", 1, js "v1"); (js "m2", 2, js "v2"); (js "m2", 3, js "v1")] /\
  map me_state (db_memories crossed.2) = [mkState (Some (js "Notes")) None (js "v1")].
Proof. by vm_compute. Qed.

(** Two creations that both count before either writes. *)
Definition almost_full : MemoryDb :=
  mkDb sample_agents (map (fun n => mkRow [0%N; N.of_nat n] sample_agent [0%N; N.of_nat n] (mkState None None (js "old")) 1) (seq 0 99)) [] [] [].

Definition crowding : list (mprog ()) :=
  map (fun key => done_with (createMemory sample_ws sample_agent (mkInput key (js "new") None None) someone)) [js "k1"; js "k2"].

Lemma cap_exceeded :
  length (db_memories almost_full) = 99%nat /\
  length (db_memories (pool_exec (schedule 0 [0; 0; 1; 1; 0; 1]%nat) (crowding, almost_full)).2) = S MAX_MEMORIES_PER_AGENT.
Proof. by vm_compute. Qed.

(** ** Memory files on concrete homes

    A file uploaded and then rendered over, and homes where what the agent
    wrote is destroyed: a file written a second time, a file that cannot be
    read, a file that took a link's place, a file written between the check and
    the unlink, and a file of the same size and time as the one uploaded. *)

(** No skill travels here, so any decoder does. *)
#[local] Existing Instance node_base64.

Definition notes_path : jsstr := memory_path (js "notes.md").

Definition mine (text : jsstr) : sprog () := agent_does (AWrite notes_path (utf8 text) 1 MEMORY_FILE_MODE true).

(** The platform's rendering of the memory with this content. *)
Definition rendering (content : jsstr) : jsstr := renderMemoryFile (mkMemory (js "notes") None None content).

Definition landing (content : jsstr) : sprog () :=
  applyHomeSync true (Some (js ".agents/skills"))
    (mkItem 1 1 1 [mkSyncFile notes_path (rendering content) false] [] [notes_path]).

Definition at_ (now : Z) (result : option WriteResult) : SyncEnv := mkSyncEnv now (js "w1") None result true [] (fun _ => []) None.

(** Each program to its end, one after another; every upload is answered. *)
Definition in_turn (ps : list (sprog ())) : list (nat * SyncEnv) :=
  flat_map (fun i => replicate 12 (i, at_ 0 (Some (mkResult true false)))) (seq 0 (length ps)).

Definition home_after (h : Home) (ps : list (sprog ())) : Home := (pool_exec (in_turn ps) (ps, h)).2.

Definition writes (h : Home) : nat := length (List.filter (fun m => match m with MemoryWrite _ _ => true | _ => false end) (hm_sent h)).

Definition text_at (path : jsstr) (h : Home) : option jsstr := read_text (at_ 0 None) path h.

(** The agent writes a memory, a pass uploads it, a sync lands what the
    platform made of it. *)
Definition saved_once : list (sprog ()) := [mine (js "draft"); pass; landing (js "draft, edited")].

Definition seen_gone (text : jsstr) : Destroyed := mkDestroyed notes_path text false.

(** [stamps_tell], to be run. *)
Definition stamps_differ (l : list (jsstr * Z * bytes)) : bool :=
  forallb (fun a => forallb (fun b =>
    negb (bool_decide (a.1 = b.1)) || negb (length a.2 =? length b.2)%nat || bool_decide (a.2 = b.2)) l) l.

Lemma stamps_differ_tell h : stamps_differ (hm_stood h) = true -> stamps_tell h.
Proof.
  intros E path mtime c c' H1 H2 Hl. unfold stamps_differ in E. rewrite forallb_forall in E.
  specialize (E _ (proj1 (list_elem_of_In _ _) H1)). rewrite forallb_forall in E.
  specialize (E _ (proj1 (list_elem_of_In _ _) H2)). cbn in E.
  rewrite bool_decide_true in E by done. rewrite Hl, Nat.eqb_refl in E. by apply bool_decide_eq_true in E.
Qed.


(** The same bytes written again, after the platform's edit landed over them:
    the ledger still has their hash, so they are not sent, and the next sync
    destroys them. The platform never learns that the agent went back. *)
Definition written_again : list (sprog ()) := saved_once ++ [mine (js "draft"); pass; landing (js "draft, edited")].

Lemma rewrite_swallowed :
  let h := home_after bare_home written_again in
  writes h = 1%nat /\ text_at notes_path h = Some (rendering (js "draft, edited")) /\
  hm_destroyed h = [seen_gone (js "draft"); seen_gone (js "draft")].
Proof. by vm_compute. Qed.

(** A file the supervisor cannot read is written over unseen. *)
Lemma unreadable_destroyed :
  let h := home_after bare_home [agent_does (AWrite notes_path (utf8 (js "private")) 1 0 false); pass; landing (js "theirs")] in
  writes h = 0%nat /\ hm_destroyed h = [seen_gone (js "private")].
Proof. by vm_compute. Qed.

(** A file that takes the place of a link while a prune waits for another
    file's upload is removed as the link that was listed. *)
Definition other_path : jsstr := memory_path (js "other.md").

Definition pruning : list (sprog ()) :=
  [mine (js "draft"); agent_does (APut other_path k_link); applyHomeSync true None (mkItem 1 1 1 [] [] []);
   agent_does (AWrite other_path (utf8 (js "new")) 1 MEMORY_FILE_MODE true)].

Lemma link_race :
  let e := mkSyncEnv 0 (js "w1") None (Some (mkResult true false)) true [js "notes.md"; js "other.md"] (fun _ => []) None in
  let h := (pool_exec (map (fun i => (i, e)) [0; 1; 2; 2; 2; 2; 3; 2; 2; 2]%nat) (pruning, bare_home)).2 in
  writes h = 1%nat /\ hm_destroyed h = [seen_gone (js "draft"); mkDestroyed other_path (js "new") true].
Proof. by vm_compute. Qed.

(** The upload is answered and the file looked at once more; the agent writes
    on, and the unlink that follows removes what it wrote. *)
Definition written_over (text : jsstr) (gap : nat -> list AgentAct) (between : list (nat * SyncEnv)) : Home :=
  let e := mkSyncEnv 0 (js "w1") None (Some (mkResult true false)) true [] gap None in
  (pool_exec ([(0%nat, e); (2%nat, e); (2%nat, e); (2%nat, e)] ++ between ++ replicate 6 (2%nat, e))
     ([mine (js "draft"); mine text; landing (js "theirs")], bare_home)).2.

Lemma check_race :
  let act := AWrite notes_path (utf8 (js "draft, and more")) 2 MEMORY_FILE_MODE true in
  let h := written_over (js "draft") (fun n => if (n =? 1)%nat then [act] else []) [] in
  writes h = 1%nat /\ hm_tame h = true /\ stamps_differ (hm_stood h) = true /\
  hm_destroyed h = [mkDestroyed notes_path (js "draft, and more") true].
Proof. by vm_compute. Qed.

(** A second text of the same size, at the same time of modification, while the
    first is uploaded: the stat tells no difference. *)
Lemma stamp_collision :
  let h := written_over (js "DRAFT") (fun _ => []) [(1%nat, at_ 0 None)] in
  writes h = 1%nat /\ hm_tame h = true /\ stamps_differ (hm_stood h) = false /\ hm_destroyed h = [seen_gone (js "DRAFT")].
Proof. by vm_compute. Qed.
